(* ===== verification/_CoqProject ===== *)
-Q . S2P
Prelude.v
Errors.v
Digests.v
Manifests.v
Handles.v
Permissions.v
Principals.v
SyncRuns.v
Types.v
StateMachine.v
RefCounts.v
Samples.v
Reach.v
Content.v
Namespaces.v
Jobs.v
Replication.v
Snapshot.v
Gc.v
LogStore.v
Authorization.v
Decisions.v
Middleware.v
Router.v
Push.v
Queries.v
InMemory.v
S3Client.v
Blobs.v
Staging.v
BlobStore.v
MemBlobs.v
Uploads.v
Io.v
Upstream.v
Mirror.v
Globs.v
Pulls.v
Scheduler.v
Schedules.v
BlobRoutes.v
Dedup.v
ManifestRoutes.v
Tokens.v
Pats.v
NamespaceRoutes.v
Membership.v
Keys.v
Login.v
Admin.v
Dashboard.v
Stores.v
StoreAgreement.v
Addresses.v
Config.v
Reconcile.v
Network.v
Lifecycle.v
Surface.v
Directory.v
CtlRegistry.v
CtlMirror.v
CtlImages.v
AirGapped.v
