(* ===== verification/Prelude.v ===== *)
(** * A verification of the Layerhouse registry

    Layerhouse is an OCI registry. Its metadata (manifests, tags, namespaces,
    grants, tokens, policies, mirror rules and jobs) is a state machine replicated
    by Raft; its blobs are objects in S3; a middleware authenticates each request
    and asks Cedar whether its identity may act on the repository. A command-line
    tool mirrors images between registries and prepares installations without a
    network. Paths below are under crates/layerhouse-server/src/ unless they start
    with crates/.

    ** Files and the code they model

    - [Prelude]: this file. Machine integers ([U64]), Rust's string operations
      ([Str]), ordered iteration over maps, sums over maps, sorting, tactics.
    - [Errors] (error.rs): [LayerhouseError], its texts, codes, statuses and
      responses; [result] has [Ok], [Err] and [Panic], so that what a panicking
      call would do stays visible.
    - [Digests] (oci/digest.rs), [Manifests] (oci/manifest.rs), [Handles]
      (store/metadata/handle.rs), [Principals] (auth/principal.rs), [Permissions]
      (auth/permissions.rs): the pure functions of these files.
    - [Types], [SyncRuns] (store/metadata/types.rs): the stored records; jobs and
      the progress of their runs.
    - [StateMachine] (raft/mod.rs, raft/state_machine.rs): requests, responses,
      [StateMachineData], one definition per apply function ([apply_manifest],
      [apply_mirror_config], [apply_job], [apply_token], [apply_policy],
      [apply_repository], [apply_namespace]) and [apply] over log entries. The
      clock an entry is applied under is an argument.
    - [Samples]: instances of all interfaces, and a history to evaluate.
    - [RefCounts], [Reach], [Content], [Namespaces], [Jobs], [Replication]: the
      theory of the state machine, by induction over [step], the application of
      one log entry.
    - [Snapshot] (raft/state_machine.rs, main.rs): building, installing and the
      cold-start copy of snapshots.
    - [Gc] (gc.rs): listing, the sweep, the loop body.
    - [LogStore] (raft/log_store.rs): the log-store actor over its tables.
    - [Authorization], [Decisions] (auth/authorization.rs,
      auth/cedar_authorizer.rs, the checks of auth/mod.rs): the policy text, the
      guards, the permission check.
    - [Middleware] (auth/middleware.rs, routes/mod.rs): credentials, the
      middleware and the dispatcher behind it.
    - [Router] (raft/router.rs): the write methods of the replicated store.
    - [Push] (routes/manifests.rs): the PUT and DELETE handlers, which tie
      middleware, permission check, store and state machine together.
    - [Queries] (the listings of raft/state_machine.rs, routes/tags.rs,
      routes/catalog.rs, routes/referrers.rs): order, paging and the handlers.
    - [S3Client], [Blobs], [Staging], [BlobStore] (store/s3.rs): programs of calls
      to the object service, staged uploads and their assembly, streaming; the
      abstract upload, a service in memory and one that fails on demand.
    - [Uploads] (store/upload.rs, routes/uploads.rs): sessions and the handlers of
      the upload protocol.
    - [Io]: programs of effects (HTTP, the stores behind their traits, clocks and
      caches), their traces and runs.
    - [Upstream] (mirror/client.rs), [Mirror] (mirror/mod.rs), [Scheduler]
      (mirror/scheduler.rs), [BlobRoutes] (routes/blobs.rs): the client for
      upstream registries, pulls and pushes, the scheduler and the blob handlers,
      as programs of [Io]; [Globs], [Pulls], [Schedules]: their theory.
    - [Dedup] (mirror/mod.rs): the table of pulls in progress as a step relation
      over the requests that share a key.
    - [ManifestRoutes] (routes/manifests.rs): reading manifests, with the pull-through.
    - [Tokens] (auth/mod.rs, auth/token.rs, auth/token_endpoint.rs): token validation
      and issuance. [Pats] (routes/pat_api.rs): personal access tokens and the ceiling
      on what they may be given.
    - [Keys] (auth/discovery.rs, auth/jwks.rs, auth/mod.rs): the keys of the identity
      provider, their cache and its copy. [Login] (auth/oauth2.rs, auth/session.rs,
      routes/session_api.rs): the login flow, sessions and cookies.
    - [NamespaceRoutes] (routes/namespaces/): claims, releases and grants.
    - [Membership] (raft/membership/mod.rs), [Reconcile] (raft/kubernetes.rs): joining,
      leaving, restored memberships, and scaling down.
    - [Admin] (routes/admin.rs), [Dashboard] (routes/dashboard_api.rs): the handlers of
      the administration and the dashboard interface.
    - [Addresses], [Config] (config.rs, config/directory.rs): socket addresses and the
      validation of settings. [Directory] (directory/): the policy and the startup of
      directory connectors.
    - [InMemory] (store/metadata/in_memory.rs): the metadata store the tests run on.
      [Stores] (store/metadata/traits.rs, the reads of raft/router.rs): each trait as a
      type of calls indexed by their answers, the class [Store], and the replicated and
      the in-memory store as its instances. [StoreAgreement]: their comparison.
    - [MemBlobs] (store/blob.rs): the blob store the tests run on, compared with the
      one on the object service.
    - [Network] (raft/network.rs, [write] of raft/router.rs): calls between nodes, their
      handlers, forwarded writes and mutual TLS.
    - [Lifecycle] (main.rs, raft/snapshot_s3.rs): starting from the uploaded snapshot,
      the upload loop, shutting down and leaving the cluster; [life_step] is a life of
      a node with crashes.
    - [Surface] (routes/v2.rs, routes/mod.rs, dashboard.rs, store/metadata/typed_id.rs):
      version check, probes, metrics, dashboard files, typed ids.
    - [CtlRegistry] (crates/layerhouse-ctl/src/registry.rs), [CtlMirror], [CtlImages]
      (crates/layerhouse-ctl/src/mirror.rs): the registry client and the mirror command,
      as trees of effects whose answers are arbitrary, with the pool of transfers as a
      step relation. [AirGapped] (crates/layerhouse-ctl/src/air_gapped.rs): the guided
      bootstrap, certificates and bundles over a file system that may fail.

    ** Interfaces

    Code outside the repository is a class or a parameter; nothing is assumed of
    it but what a theorem names, and every such assumption has an instance.
    [SerdeJson]: JSON values, no laws. [Openraft]: log ids and memberships, no
    laws. [Externals]: SHA-256 and Cedar's validation of policy text. [StateCodec]
    and [LogCodec] with [CodecLaws]: decoding inverts encoding. [ObjectStore]:
    listing and batch deletion. [Cedar] with [CedarLaws]: on a policy of permits
    of the shape the server writes, a request is allowed exactly when a permit
    matches it; [Decisions] builds an engine for that fragment and proves the laws.
    [Authentication]: token validation and session decryption. [S3Service] with its
    laws: what a successful and what a failed call may have done to the objects.
    [UploadCodec] and [SessionCodec]: decoding inverts encoding. [HttpLib]: what the
    HTTP library accepts and how it words its errors, no laws; the answers to
    requests are arbitrary. [Jwt] with [JwtLaws]: a token of the server decodes to
    what was encoded until it expires, and not after the leeway. [Sealing] with [SealingLaws]: the cipher of sessions and the
    codecs around it. [RpcCodec] with [RpcCodecLaws]: the messages between nodes.
    [Rcgen]: generation of certificates, no laws. [Store]: what the routes ask of a
    metadata store, discharged by the replicated and the in-memory one. The parsers of
    URIs, dates and base64, the clock, the file system with its faults and the
    WebAssembly engine are parameters of the definitions that use them.

    ** What is proved

    - Content: the reference counts the garbage collector relies on are exact in
      every reachable state; manifest requests refine a specification with two
      relations; tags always resolve; a push can be read back; failed requests
      change nothing; applying never panics.
    - Namespaces: a released generation is never written to again; content only
      exists under live claims; only a release or a revocation ends a claim; the
      grant audit is complete; the outcome of a claim is characterised.
    - Replication: replicas agree on every log without the four requests that
      read the clock, and disagree on those. Snapshots restore the state exactly,
      and the counters of a restored node are exact whatever it restored. The log
      store implements an abstract log, with I/O faults anywhere.
    - Garbage collection: a sweep deletes nothing but listed objects that are old
      enough and unreferenced at both reads, and removes all of those if the listing
      ends, the deletions succeed and the node stays the leader.
    - Access: no registry or administration request reaches a handler unchecked, but
      those to the version check, the token endpoint and the namespace self-service;
      when no extra policies are in force the permission check is exactly ownership,
      grants and public pulls for identities without scopes, and never more than the
      scopes for live generations for tokens with them; it is bounded by the server's
      own guards whatever the policies; a write is committed under the claim it was
      authorized for; an overwrite needs the update permission however requests race
      and paths are spelled; the repository served is the one authorized on paths
      without percent-escapes and without a trailing slash, and with one it need not
      be. A scoped token outlives the grant of its user.
    - Blobs: an upload refines its abstract counterpart with calls failing anywhere;
      an object under a digest has the content the digest names, however operations
      interleave; an upload on a service that works succeeds; sessions belong to
      their repository; a mount needs the permission to pull from its source; a
      deleted blob is hidden; ranges select what they say within the blob.
    - Mirroring: an image is recorded after its blobs that have a size; a cached tag is served when
      its upstream fails; retries are bounded; patterns match as globs; the longest
      prefix answers; a challenge is read back as it was written; one request pulls
      for a key at a time.
    - Credentials: a bearer token gives no more than the credential it was exchanged
      for, and for an hour (and the leeway of the library) only; a personal token no more than its creator had, until it expires or is
      revoked; a session needs the state and the verifier of its own login, and its
      cookie authenticates until it expires; the keys in use come from one document of a
      configured issuer, however the refreshes of all nodes interleave ([Keys.key_step]:
      the key cache, the copy and the endpoints are written one after the other), and
      survive a restart while the issuer is down.
    - Interfaces: grant changes are made by owners or administrators and audited; every
      write of the dashboard was authorized for exactly what it writes ([Router.sends]
      says which request a handler sends); its listings
      show exactly what is in reach; stored settings are valid, and secrets are not
      shown; repository names are those of the grammar.
    - Cluster: membership changes are asked for on the leader only and, if the voters do
      not change between two reads, leave a voter; a restored node trusts its membership on the word of a majority; the
      loop that joins ends only when the node is in; scaling down removes exactly the
      pods that Kubernetes stops.
    - Nodes: whatever happened to a node and its uploads, it restarts in a state it has
      been in, and does start when the object store answers; leaving at shutdown ends
      after five attempts and is confirmed when reported; a write forwarded to the leader
      commits there or fails, and calls return what the peer answered; with TLS settings
      both ends show and demand certificates.
    - The stores of the tests: the in-memory metadata store answers every history of
      calls as the replicated one does where that refuses nothing; the blob store refines
      the same abstract upload except for one case.
    - Command line: a manifest is pushed after everything it names with a size, in
      failing and in interleaved runs; a transfer between a source that honours ranges and
      a destination that counts right is exact and, without empty pieces, ends; image
      references are read back as shown; a bootstrap leaves certificates of one authority
      that fit together and the operator's answers, and what it bundles does not depend on
      the key of the authority.
    - Settings and connectors: accepted settings can be run with; a directory connector
      is the configured one and reaches only the configured origin; its messages are
      bounded and free of control characters.
    - Scheduling: running jobs are left alone, and a claimed job is released with a
      record that accounts for its tags.
    - Listings: paging through tags is complete under concurrent changes and ends;
      referrers are exact.
    - Defects, each shown by a theorem: a PATCH that fails half-way duplicates its
      chunk on resumption ([Uploads.failed_patch_duplicates]); a dropped pull blocks
      its key for good and a wakeup can be lost ([Dedup]); a mirror job that has run
      is due again at every tick ([Schedules.finished_job_due_again]); an error answer
      of the identity provider stops the failover, stale keys outlive their window, and
      overlapping refreshes mix two documents ([Keys]); a layer without a size is recorded
      and not pulled ([Pulls]); the links between pages lose order and filters, and the gate of manifest
      reads checks a name that is decoded once more ([Dashboard]); a running job is
      answered as unknown ([Admin]); a configured policy can hide behind the builtin one
      ([Config]); a second space escapes the filter of error messages ([Directory]);
      the tests' stores are laxer on namespaces ([StoreAgreement]) and forget an upload
      with a wrong digest ([MemBlobs]); followers report an unhealthy cluster ([Surface]).
      On the command line, a tag in the destination is ignored, an image without digests
      counts as up to date, a registry that does not page is asked for its tags
      endlessly, a concurrency of zero waits for ever ([CtlImages]); a source that ignores
      ranges has its bytes sent twice, and one with empty pieces is opened for ever
      ([CtlMirror]); a tag stays in the
      name of a reference with a digest ([CtlRegistry]); Secret manifests are readable by
      everyone, the replica count is fixed, an IPv6 endpoint is cut and a far expiry
      panics ([AirGapped]).
    - The pure functions: digests and principal ids round-trip, handle and path
      validation accept exactly their grammars, scopes match exactly what they
      cover, stored sizes are deduplicated sums modulo 2^64, run progress stays
      consistent, job histories are bounded and claims exclusive.

    ** Bounds

    Integers of the source are [N] with wrap-around, saturation or checked
    arithmetic where the source has it ([U64]). [Gc.list_pages] takes one unit of
    fuel per page; [Gc.list_pages_complete] shows that the number of pages is
    enough. The loops whose length an upstream decides (pages of a tag list, the
    manifests below an index, the depth of a push) take a bound as an argument, and
    running out of it is a [Panic]; what is proved of them holds for every bound and
    every run, so also for the runs of the code, which has no bound. The parser of
    challenges, [Str.words] and the reader of the terms named in an election error
    consume at least a byte per unit of fuel. The loop that joins a cluster takes its
    number of rounds, and paging the number of pages; both are shown to be enough. The
    loops of the command line that follow answers (pages, nested indexes, openings of a
    source, questions) take a bound and end as [Unfinished] without it;
    [CtlMirror.transfer_ends] shows a number of openings that is enough. Leaving the
    cluster makes five attempts, as the code does. All other recursion is structural. A handler that reads the store
    several times takes one state per read, so that theorems hold for every
    interleaving with other writers.

    ** What is not modelled

    Timers, logging and the encoding of HTTP and JSON, which libraries do; the consensus
    algorithm, which is a library too (a committed request is applied in some state);
    reading the configuration file; the wiring of listeners, background tasks, signals
    and route tables in main.rs and the routers; the WebAssembly engine and the lookups
    of directory connectors, which only their tests call, with the connector those tests
    use; argument parsing and progress output of the command line. *)

From stdpp Require Export gmap strings list sorting pretty.
From Stdlib Require Import Ascii.
From stdpp Require Import options.

#[export] Set Warnings "-clear-no-such-hyp".

(** * Notations, tactics and hint databases *)

Declare Scope lh_scope.
Delimit Scope lh_scope with lh.

Create HintDb lh.
Create HintDb lh_map.

(** Case analysis on the scrutinee of the first [match] of the goal or of a
    hypothesis, keeping the equation, and closing the impossible branches. *)
Ltac case_goal :=
  match goal with
  | |- context [match ?x with _ => _ end] => destruct x eqn:?; simplify_eq/=; try done
  end.

Ltac case_hyp H :=
  match type of H with
  | context [match ?x with _ => _ end] => destruct x eqn:?; simplify_eq/=; try done
  end.

(** * Machine integers

    [u64] values are [N] below [2^64]; the release profile of the repository
    leaves overflow checks off, so [+] and [+=] wrap. *)
Module U64.
Definition modulus : N := 2 ^ 64.
Definition max : N := modulus - 1.
Definition wrap (n : N) : N := n `mod` modulus.
Definition add (a b : N) : N := wrap (a + b).
Definition checked_add (a b : N) : option N :=
  if bool_decide (a + b < modulus)%N then Some (a + b)%N else None.
Definition saturating_sub (a b : N) : N := (a - b)%N.
Definition fits (n : N) : Prop := (n < modulus)%N.

Lemma add_small a b : (a + b < modulus)%N → add a b = (a + b)%N.
Proof. intros H. unfold add, wrap. by apply N.mod_small. Qed.

Lemma checked_add_Some a b c :
  checked_add a b = Some c ↔ c = (a + b)%N ∧ (a + b < modulus)%N.
Proof.
  unfold checked_add. case_bool_decide; split; try done.
  - by intros [= <-].
  - by intros [-> _].
  - by intros [_ ?].
Qed.
End U64.

(** * Byte strings

    A Rust [String]/[&str] is its sequence of UTF-8 bytes; [String.string] is
    a sequence of bytes, and [String.le] is the byte-lexicographic [Ord]. *)
Module Str.
Definition byte_of (a : ascii) : N := N_of_ascii a.
Definition in_range (lo hi : ascii) (a : ascii) : bool :=
  bool_decide (N_of_ascii lo ≤ N_of_ascii a)%N && bool_decide (N_of_ascii a ≤ N_of_ascii hi)%N.
Definition is_ascii_digit (a : ascii) : bool := in_range "0" "9" a.
Definition is_ascii_lowercase (a : ascii) : bool := in_range "a" "z" a.
Definition is_ascii_uppercase (a : ascii) : bool := in_range "A" "Z" a.
Definition is_ascii_alphanumeric (a : ascii) : bool :=
  is_ascii_digit a || is_ascii_lowercase a || is_ascii_uppercase a.
Definition is_ascii_hexdigit (a : ascii) : bool :=
  is_ascii_digit a || in_range "a" "f" a || in_range "A" "F" a.

Definition is_empty (s : string) : bool := match s with EmptyString => true | _ => false end.

Fixpoint all (f : ascii → bool) (s : string) : bool :=
  match s with EmptyString => true | String a s' => f a && all f s' end.

Definition contains_char (c : ascii) (s : string) : bool :=
  negb (all (λ a, negb (bool_decide (a = c))) s).

Definition starts_with (p s : string) : bool := String.prefix p s.

Fixpoint strip_prefix (p s : string) : option string :=
  match p, s with
  | EmptyString, _ => Some s
  | String a p', String b s' => if decide (a = b) then strip_prefix p' s' else None
  | String _ _, EmptyString => None
  end.

Fixpoint rev_append (s acc : string) : string :=
  match s with EmptyString => acc | String a s' => rev_append s' (String a acc) end.
Definition rev (s : string) : string := rev_append s "".

Definition ends_with (p s : string) : bool := starts_with (rev p) (rev s).
Definition strip_suffix (p s : string) : option string := rev <$> strip_prefix (rev p) (rev s).

(** [str::split_once(c)]: around the first occurrence. *)
Fixpoint split_once (c : ascii) (s : string) : option (string * string) :=
  match s with
  | EmptyString => None
  | String a s' =>
      if decide (a = c) then Some ("", s')
      else '(x, y) ← split_once c s'; Some (String a x, y)
  end.

(** [str::rsplit_once(c)]: around the last occurrence. *)
Fixpoint rsplit_once (c : ascii) (s : string) : option (string * string) :=
  match s with
  | EmptyString => None
  | String a s' =>
      match rsplit_once c s' with
      | Some (x, y) => Some (String a x, y)
      | None => if decide (a = c) then Some ("", s') else None
      end
  end.

(** [str::split(c)]: always at least one piece. *)
Fixpoint split (c : ascii) (s : string) : list string :=
  match s with
  | EmptyString => [""]
  | String a s' =>
      if decide (a = c) then "" :: split c s'
      else match split c s' with
           | [] => [String a ""]
           | x :: xs => String a x :: xs
           end
  end.

(** [str::splitn(n, c)]: at most [n] pieces, the last one unsplit. *)
Fixpoint splitn (n : nat) (c : ascii) (s : string) : list string :=
  match n with
  | O => []
  | S O => [s]
  | S n' =>
      match split_once c s with
      | None => [s]
      | Some (x, y) => x :: splitn n' c y
      end
  end.

Fixpoint join (sep : string) (l : list string) : string :=
  match l with
  | [] => ""
  | [x] => x
  | x :: xs => x +:+ sep +:+ join sep xs
  end.

(** [str::contains(&str)]. *)
Fixpoint contains (p s : string) : bool :=
  starts_with p s || match s with EmptyString => false | String _ s' => contains p s' end.

(** UTF-8 encodings of the characters with the [White_Space] property,
    which [str::trim] removes. *)
Definition bytes (l : list N) : string :=
  foldr (λ n s, String (ascii_of_N n) s) "" l.
Definition whitespace : list string :=
  bytes <$> [[9]; [10]; [11]; [12]; [13]; [32]; [194; 133]; [194; 160]; [225; 154; 128];
    [226; 128; 128]; [226; 128; 129]; [226; 128; 130]; [226; 128; 131]; [226; 128; 132];
    [226; 128; 133]; [226; 128; 134]; [226; 128; 135]; [226; 128; 136]; [226; 128; 137];
    [226; 128; 138]; [226; 128; 168]; [226; 128; 169]; [226; 128; 175]; [226; 129; 159];
    [227; 128; 128]]%N.

Definition strip_one (ws : list string) (s : string) : option string :=
  head (omap (λ w, strip_prefix w s) ws).

Fixpoint trim_start_fuel (fuel : nat) (ws : list string) (s : string) : string :=
  match fuel with
  | O => s
  | S fuel' => match strip_one ws s with Some s' => trim_start_fuel fuel' ws s' | None => s end
  end.

Definition trim_start (s : string) : string :=
  trim_start_fuel (String.length s) whitespace s.
Definition trim_end (s : string) : string :=
  rev (trim_start_fuel (String.length s) (rev <$> whitespace) (rev s)).
Definition trim (s : string) : string := trim_end (trim_start s).

(** [str::split_whitespace]; [word] is the word so far. *)
Fixpoint words (fuel : nat) (word s : string) : list string :=
  let flush := if is_empty word then [] else [word] in
  match fuel with
  | 0 => flush
  | S fuel' =>
      match strip_one whitespace s with
      | Some s' => flush ++ words fuel' "" s'
      | None => match s with
                | EmptyString => flush
                | String a s' => words fuel' (word +:+ String a "") s'
                end
      end
  end.
Definition split_whitespace (s : string) : list string := words (S (String.length s)) "" s.

(** [str::parse::<u64>()]: an optional [+], then at least one digit, no overflow. *)
Definition digit_value (a : ascii) : option N :=
  if is_ascii_digit a then Some (N_of_ascii a - 48)%N else None.

Fixpoint parse_digits (acc : N) (s : string) : option N :=
  match s with
  | EmptyString => Some acc
  | String a s' =>
      d ← digit_value a;
      let acc' := (acc * 10 + d)%N in
      if bool_decide (acc' < U64.modulus)%N then parse_digits acc' s' else None
  end.

Definition parse_u64 (s : string) : option N :=
  let s' := default s (strip_prefix "+" s) in
  if is_empty s' then None else parse_digits 0 s'.

(** [format!("{}", n)] for an unsigned integer. *)
Definition of_u64 (n : N) : string := pretty n.

(** [k.as_str() > last]. *)
Definition gt (a b : string) : bool := negb (bool_decide (String.le a b)).
End Str.

#[global] Arguments Str.starts_with : simpl never.
#[global] Arguments Str.contains_char : simpl never.

(** ** Lemmas on byte strings *)
Section str_lemmas.
Implicit Types s p q r x y : string.

Lemma app_cons (a : ascii) s r : String a s +:+ r = String a (s +:+ r).
Proof. reflexivity. Qed.

Lemma app_nil_l_str s : "" +:+ s = s.
Proof. reflexivity. Qed.

Lemma app_nil_r_str s : s +:+ "" = s.
Proof. induction s as [|a s IH]; [done|]. by rewrite app_cons, IH. Qed.

Lemma app_assoc_str s p q : (s +:+ p) +:+ q = s +:+ (p +:+ q).
Proof. induction s as [|a s IH]; [done|]. by rewrite !app_cons, IH. Qed.

Lemma length_app_str s p : String.length (s +:+ p) = String.length s + String.length p.
Proof. induction s as [|a s IH]; [done|]. rewrite app_cons. simpl. lia. Qed.

Lemma all_app f s p : Str.all f (s +:+ p) = Str.all f s && Str.all f p.
Proof.
  induction s as [|a s IH]; [done|]. rewrite app_cons. simpl. rewrite IH.
  by rewrite andb_assoc.
Qed.

Lemma all_impl (f g : ascii → bool) s :
  (∀ a, f a = true → g a = true) → Str.all f s = true → Str.all g s = true.
Proof.
  intros Hfg. induction s as [|a s IH]; [done|]. simpl.
  intros [Ha Hs]%andb_true_iff. apply andb_true_iff. auto.
Qed.

Lemma contains_char_app c s p :
  Str.contains_char c (s +:+ p) = Str.contains_char c s || Str.contains_char c p.
Proof. unfold Str.contains_char. rewrite all_app. by rewrite negb_andb. Qed.

Lemma contains_char_cons c a s :
  Str.contains_char c (String a s) = bool_decide (a = c) || Str.contains_char c s.
Proof. unfold Str.contains_char. simpl. by rewrite negb_andb, negb_involutive. Qed.

(** A byte class that excludes [c] gives strings without [c]. *)
Lemma all_not_contains (f : ascii → bool) c s :
  f c = false → Str.all f s = true → Str.contains_char c s = false.
Proof.
  intros Hc. induction s as [|a s IH]; [done|]. simpl.
  intros [Ha Hs]%andb_true_iff. rewrite contains_char_cons, IH by done.
  rewrite bool_decide_eq_false_2; [done|]. by intros ->; rewrite Hc in Ha.
Qed.

Lemma strip_prefix_Some p s r : Str.strip_prefix p s = Some r ↔ s = p +:+ r.
Proof.
  revert s. induction p as [|a p IH]; intros s; simpl.
  { rewrite app_nil_l_str. naive_solver. }
  destruct s as [|b s]; [by rewrite app_cons|].
  rewrite app_cons. case_decide as Hab; [|naive_solver].
  subst. rewrite IH. naive_solver.
Qed.

Lemma strip_prefix_app p r : Str.strip_prefix p (p +:+ r) = Some r.
Proof. by apply strip_prefix_Some. Qed.

Lemma starts_with_strip p s :
  Str.starts_with p s = bool_decide (is_Some (Str.strip_prefix p s)).
Proof.
  unfold Str.starts_with. revert s. induction p as [|a p IH]; intros s.
  { by destruct s. }
  destruct s as [|b s]; [done|]. cbn [String.prefix Str.strip_prefix].
  by destruct (ascii_dec a b) as [->|]; case_decide.
Qed.

Lemma starts_with_true p s : Str.starts_with p s = true ↔ ∃ r, s = p +:+ r.
Proof.
  rewrite starts_with_strip, bool_decide_eq_true. unfold is_Some.
  by setoid_rewrite strip_prefix_Some.
Qed.

Lemma starts_with_app p r : Str.starts_with p (p +:+ r) = true.
Proof. apply starts_with_true. by eexists. Qed.

Lemma rev_append_app s x y : Str.rev_append s (x +:+ y) = Str.rev_append s x +:+ y.
Proof.
  revert x. induction s as [|a s IH]; intros x; [done|]. simpl.
  by rewrite <-app_cons, IH.
Qed.

Lemma rev_cons a s : Str.rev (String a s) = Str.rev s +:+ String a "".
Proof. unfold Str.rev. simpl. by rewrite <-rev_append_app. Qed.

Lemma rev_app s p : Str.rev (s +:+ p) = Str.rev p +:+ Str.rev s.
Proof.
  induction s as [|a s IH]; [by rewrite app_nil_r_str|].
  by rewrite app_cons, !rev_cons, IH, app_assoc_str.
Qed.

Lemma rev_involutive_str s : Str.rev (Str.rev s) = s.
Proof. induction s as [|a s IH]; [done|]. by rewrite rev_cons, rev_app, IH. Qed.

Lemma strip_suffix_Some p s r : Str.strip_suffix p s = Some r ↔ s = r +:+ p.
Proof.
  unfold Str.strip_suffix. rewrite fmap_Some. setoid_rewrite strip_prefix_Some. split.
  - intros (t & Ht & ->). rewrite <-(rev_involutive_str s), Ht, rev_app.
    by rewrite rev_involutive_str.
  - intros ->. exists (Str.rev r). by rewrite rev_app, rev_involutive_str.
Qed.

Lemma split_once_Some c s x y :
  Str.split_once c s = Some (x, y) ↔
    s = x +:+ String c y ∧ Str.contains_char c x = false.
Proof.
  revert x. induction s as [|a s IH]; intros x; simpl.
  { split; [done|]. intros [H _]. by destruct x. }
  case_decide as Hac.
  - subst. split; [naive_solver|]. intros [H1 H2]. destruct x as [|b x].
    + rewrite app_nil_l_str in H1. naive_solver.
    + rewrite app_cons in H1. simplify_eq. rewrite contains_char_cons in H2.
      by rewrite bool_decide_eq_true_2 in H2.
  - rewrite bind_Some. split.
    + intros ([x' y'] & H1 & [= <- <-]). apply IH in H1 as [-> Hx].
      split; [done|]. rewrite contains_char_cons, Hx. by rewrite bool_decide_eq_false_2.
    + intros [H1 H2]. destruct x as [|b x].
      { rewrite app_nil_l_str in H1. naive_solver. }
      rewrite app_cons in H1. simplify_eq. rewrite contains_char_cons in H2.
      apply orb_false_iff in H2 as [_ H2].
      exists (x, y). split; [by apply IH|done].
Qed.

Lemma split_once_None c s :
  Str.split_once c s = None ↔ Str.contains_char c s = false.
Proof.
  induction s as [|a s IH]; [done|]. simpl. rewrite contains_char_cons.
  case_decide as Hac; [subst; by rewrite bool_decide_eq_true_2|].
  rewrite bool_decide_eq_false_2 by done. simpl. rewrite <-IH.
  destruct (Str.split_once c s) as [[]|]; naive_solver.
Qed.

Lemma split_no_sep c s : Str.contains_char c s = false → Str.split c s = [s].
Proof.
  induction s as [|a s IH]; [done|]. rewrite contains_char_cons.
  intros [Ha Hs]%orb_false_iff. apply bool_decide_eq_false in Ha. simpl.
  rewrite decide_False by done. by rewrite IH.
Qed.

Lemma split_app c x y :
  Str.contains_char c x = false → Str.split c (x +:+ String c y) = x :: Str.split c y.
Proof.
  induction x as [|a x IH].
  { intros _. rewrite app_nil_l_str. simpl. by rewrite decide_True. }
  rewrite contains_char_cons. intros [Ha Hs]%orb_false_iff.
  apply bool_decide_eq_false in Ha. rewrite app_cons. simpl.
  rewrite decide_False by done. by rewrite IH.
Qed.

Lemma split_nonempty c s : Str.split c s ≠ [].
Proof. destruct s; simpl; [done|]. case_decide; [done|]. by case_match. Qed.

Lemma split_app_gen c x y :
  Str.split c (x +:+ String c y) = Str.split c x ++ Str.split c y.
Proof.
  induction x as [|a x IH].
  { rewrite app_nil_l_str. simpl. by rewrite decide_True. }
  rewrite app_cons. simpl. rewrite IH. case_decide; [done|].
  pose proof (split_nonempty c x). by destruct (Str.split c x).
Qed.

Lemma ends_with_true p s : Str.ends_with p s = true ↔ ∃ r, s = r +:+ p.
Proof.
  unfold Str.ends_with. rewrite starts_with_true. split.
  - intros [r Hr]. exists (Str.rev r).
    by rewrite <-(rev_involutive_str s), Hr, rev_app, rev_involutive_str.
  - intros [r ->]. exists (Str.rev r). apply rev_app.
Qed.

Lemma contains_true p s : Str.contains p s = true ↔ ∃ x y, s = x +:+ p +:+ y.
Proof.
  induction s as [|a s IH]; simpl; rewrite orb_true_iff, starts_with_true.
  - split.
    + intros [[r Hr]|?]; [|done]. by exists "", r.
    + intros (x & y & H). left. exists y. by destruct x.
  - rewrite IH. split.
    + intros [[r Hr]|(x & y & ->)]; [by exists "", r|]. by exists (String a x), y.
    + intros (x & y & H). destruct x as [|b x].
      * left. by exists y.
      * right. rewrite app_cons in H. simplify_eq. by exists x, y.
Qed.

(** A string of visible ASCII bytes is its own [trim]. *)
Definition graphic (a : ascii) : bool := Str.in_range "!" "~" a.

Lemma strip_one_graphic a s :
  graphic a = true →
  Str.strip_one Str.whitespace (String a s) = None ∧
  Str.strip_one (Str.rev <$> Str.whitespace) (String a s) = None.
Proof.
  destruct a as [[] [] [] [] [] [] [] []]; intros H; try discriminate H;
    split; reflexivity.
Qed.

Lemma all_rev f s : Str.all f (Str.rev s) = Str.all f s.
Proof.
  induction s as [|a s IH]; [done|]. rewrite rev_cons, all_app, IH. simpl.
  by rewrite andb_true_r, andb_comm.
Qed.

Lemma trim_graphic s : Str.all graphic s = true → Str.trim s = s.
Proof.
  intros Hall. unfold Str.trim, Str.trim_end, Str.trim_start.
  assert (∀ fuel ws, (∀ a r, graphic a = true → Str.strip_one ws (String a r) = None) →
    ∀ r, Str.all graphic r = true → fuel ≤ String.length r →
      Str.trim_start_fuel fuel ws r = r) as Hfuel.
  { intros fuel ws Hws r Hr Hlen. destruct fuel as [|fuel]; [done|].
    destruct r as [|a r]; [simpl in Hlen; lia|]. simpl in *.
    apply andb_true_iff in Hr as [Ha _]. by rewrite Hws. }
  rewrite (Hfuel _ Str.whitespace); [| |done|lia].
  - rewrite Hfuel; [apply rev_involutive_str| |by rewrite all_rev|].
    + intros a r Ha. exact (proj2 (strip_one_graphic a r Ha)).
    + assert (∀ r, String.length (Str.rev r) = String.length r) as ->; [|lia].
      induction r as [|b r IHr]; [done|]. rewrite rev_cons, length_app_str, IHr.
      simpl. lia.
  - intros a r Ha. exact (proj1 (strip_one_graphic a r Ha)).
Qed.

(** A string whose pieces are all non-empty neither starts nor ends with the
    separator, and does not repeat it. *)
Lemma split_pieces_nonempty c s :
  "" ∉ Str.split c s →
  Str.starts_with (String c "") s = false ∧ Str.ends_with (String c "") s = false
  ∧ Str.contains (String c (String c "")) s = false.
Proof.
  intros Hne. repeat split; apply not_true_is_false; intros H; apply Hne.
  - apply starts_with_true in H as [r ->]. rewrite app_cons, app_nil_l_str. simpl.
    rewrite decide_True by done. by left.
  - apply ends_with_true in H as [r ->]. rewrite split_app_gen. set_solver.
  - apply contains_true in H as (x & y & ->). rewrite app_cons, app_cons, app_nil_l_str.
    rewrite split_app_gen. simpl. rewrite decide_True by done. set_solver.
Qed.

Lemma join_cons sep x y l :
  Str.join sep (x :: y :: l) = x +:+ sep +:+ Str.join sep (y :: l).
Proof. reflexivity. Qed.

(** [split] is inverted by joining with the separator. *)
Lemma join_split c s : Str.join (String c "") (Str.split c s) = s.
Proof.
  induction s as [|a s IH]; [done|]. simpl. pose proof (split_nonempty c s) as Hne.
  destruct (Str.split c s) as [|x xs] eqn:E; [done|]. case_decide as Hac.
  - subst a. by rewrite join_cons, app_nil_l_str, app_cons, app_nil_l_str, IH.
  - destruct xs as [|x' xs]; [simpl in *; by rewrite IH|].
    rewrite join_cons in IH |- *. by rewrite app_cons, IH.
Qed.

Lemma split_no_sep_pieces c s x : x ∈ Str.split c s → Str.contains_char c x = false.
Proof.
  revert x. induction s as [|a s IH]; intros x; simpl.
  { by intros ->%list_elem_of_singleton. }
  case_decide as Hac.
  { intros [->|H]%elem_of_cons; [done|by apply IH]. }
  destruct (Str.split c s) as [|z zs].
  { intros ->%list_elem_of_singleton. rewrite contains_char_cons.
    by rewrite bool_decide_eq_false_2. }
  intros [->|H]%elem_of_cons; [|by apply IH; right].
  rewrite contains_char_cons, bool_decide_eq_false_2 by done. apply IH. by left.
Qed.

(** Joining pieces that do not contain the separator is inverted by [split]. *)
Lemma split_join c (l : list string) :
  l ≠ [] → Forall (λ x, Str.contains_char c x = false) l → Str.split c (Str.join (String c "") l) = l.
Proof.
  intros Hne. induction 1 as [|x l Hx _ IH]; [done|]. destruct l as [|y l]; [by apply split_no_sep|].
  rewrite join_cons, app_cons, app_nil_l_str, split_app by done. by rewrite IH.
Qed.

(** The words of a text have no spaces. *)
Lemma words_no_space fuel word s x :
  Str.contains_char " " word = false → x ∈ Str.words fuel word s → Str.contains_char " " x = false.
Proof.
  revert word s. induction fuel as [|fuel IH]; intros word s Hw; simpl.
  { case_match; set_solver. }
  destruct (Str.strip_one Str.whitespace s) as [r|] eqn:E.
  { rewrite elem_of_app. intros [Hx|Hx]; [case_match; set_solver|]. by apply (IH "" r). }
  destruct s as [|a s]; [case_match; set_solver|]. apply IH.
  rewrite contains_char_app, Hw, contains_char_cons. simpl. rewrite orb_false_r.
  apply bool_decide_eq_false_2. intros ->. vm_compute in E. by destruct s.
Qed.
Lemma split_whitespace_no_space s x : x ∈ Str.split_whitespace s → Str.contains_char " " x = false.
Proof. by apply words_no_space. Qed.
End str_lemmas.


(** ** Printed numbers parse *)

Lemma parse_pretty_go x s :
  (0 < x)%N → (x < U64.modulus)%N → Str.parse_digits 0 (pretty_N_go x s) = Str.parse_digits x s.
Proof.
  revert s. induction (N.lt_wf_0 x) as [x _ IH]; intros s Hx Hm.
  rewrite pretty_N_go_step by lia.
  assert (Str.digit_value (pretty_N_char (x `mod` 10)) = Some (x `mod` 10)%N) as Hd.
  { pose proof (N.mod_lt x 10 ltac:(lia)) as Hlt. generalize dependent (x `mod` 10)%N. intros d Hd.
    assert (d = 0 ∨ d = 1 ∨ d = 2 ∨ d = 3 ∨ d = 4 ∨ d = 5 ∨ d = 6 ∨ d = 7 ∨ d = 8 ∨ d = 9)%N as Hc by lia.
    repeat destruct Hc as [->|Hc]; try reflexivity. by subst. }
  pose proof (N.div_mod x 10 ltac:(lia)) as Hdm.
  assert (Str.parse_digits (x / 10) (String (pretty_N_char (x `mod` 10)) s) = Str.parse_digits x s) as Hlast.
  { cbn [Str.parse_digits]. rewrite Hd. cbn [mbind option_bind].
    replace (x / 10 * 10 + x `mod` 10)%N with x by lia. by rewrite bool_decide_eq_true_2. }
  destruct (decide (x / 10 = 0)%N) as [E|E].
  - rewrite E in *. by rewrite pretty_N_go_0.
  - assert (x / 10 < x)%N as Hlt by (by apply N.div_lt; lia).
    rewrite IH; [done|done|by apply N.neq_0_lt_0|by etrans].
Qed.

Lemma parse_digits_of_u64 n : (n < U64.modulus)%N → Str.parse_digits 0 (Str.of_u64 n) = Some n.
Proof.
  intros Hn. unfold Str.of_u64, pretty, pretty_N. case_decide as Hz; [by subst|].
  rewrite parse_pretty_go by lia. done.
Qed.


(** * Ordered maps

    [BTreeMap<String, V>] is [gmap string V]; where the source iterates, the
    iteration order is the order of the keys. *)
Section btree.
Context {A : Type}.
Implicit Types (m : gmap string A) (k : string).

Definition btree_keys m : list string := merge_sort String.le (elements (dom m)).
Definition btree_entries m : list (string * A) :=
  omap (λ k, pair k <$> m !! k) (btree_keys m).
Definition btree_values m : list A := (btree_entries m).*2.

(** [entry(k).or_default()]: the value at [k], or the default. *)
Definition or_default `{Inhabited A} (d : A) m k : A := default d (m !! k).

Lemma btree_keys_perm m : btree_keys m ≡ₚ elements (dom m).
Proof. apply merge_sort_Permutation. Qed.

Lemma elem_of_btree_keys m k : k ∈ btree_keys m ↔ is_Some (m !! k).
Proof. by rewrite btree_keys_perm, elem_of_elements, elem_of_dom. Qed.

Lemma NoDup_btree_keys m : NoDup (btree_keys m).
Proof. rewrite btree_keys_perm. apply NoDup_elements. Qed.

Lemma btree_keys_sorted m : StronglySorted String.le (btree_keys m).
Proof. apply (StronglySorted_merge_sort _). Qed.

Lemma elem_of_btree_entries m k x : (k, x) ∈ btree_entries m ↔ m !! k = Some x.
Proof.
  unfold btree_entries. rewrite list_elem_of_omap. split.
  - intros (k' & _ & H). apply fmap_Some in H as (y & Hy & [= -> ->]). done.
  - intros H. exists k. split; [by apply elem_of_btree_keys|]. by rewrite H.
Qed.

Lemma NoDup_omap_keys m (l : list string) :
  NoDup l → NoDup (omap (λ k, pair k <$> m !! k) l).
Proof.
  induction 1 as [|k l Hk Hl IH]; csimpl; [constructor|].
  destruct (m !! k) as [x|]; csimpl; [|done].
  constructor; [|done]. intros (k' & Hk' & H)%list_elem_of_omap.
  apply fmap_Some in H as (y & _ & [= -> _]). done.
Qed.

Lemma btree_entries_perm m : btree_entries m ≡ₚ map_to_list m.
Proof.
  apply NoDup_Permutation.
  - apply NoDup_omap_keys, NoDup_btree_keys.
  - apply NoDup_map_to_list.
  - intros [k x]. by rewrite elem_of_btree_entries, elem_of_map_to_list.
Qed.

Lemma elem_of_btree_values m x : x ∈ btree_values m ↔ ∃ k, m !! k = Some x.
Proof.
  unfold btree_values. rewrite list_elem_of_fmap. split.
  - intros ([k y] & -> & H). exists k. by apply elem_of_btree_entries.
  - intros [k H]. exists (k, x). by rewrite elem_of_btree_entries.
Qed.

Lemma length_btree_values m : length (btree_values m) = size m.
Proof.
  unfold btree_values. rewrite length_fmap, btree_entries_perm.
  by rewrite length_map_to_list.
Qed.
End btree.

(** Mapping the values of a map leaves the order of its keys. *)
Section btree_fmap.
Context {A B : Type} (g : A → B).
Implicit Types m : gmap string A.

Lemma btree_keys_fmap m : btree_keys (g <$> m) = btree_keys m.
Proof. unfold btree_keys. by rewrite dom_fmap_L. Qed.

Lemma btree_entries_fmap m : btree_entries (g <$> m) = prod_map id g <$> btree_entries m.
Proof.
  unfold btree_entries. rewrite btree_keys_fmap. induction (btree_keys m) as [|k l IH]; [done|].
  csimpl. rewrite lookup_fmap. destruct (m !! k); csimpl; [by f_equal|done].
Qed.

Lemma btree_values_fmap m : btree_values (g <$> m) = g <$> btree_values m.
Proof. unfold btree_values. rewrite btree_entries_fmap, <-!list_fmap_compose. done. Qed.
End btree_fmap.

(** Sums over the values of a map, used to state what the incremental
    reference counters must agree with. *)
Section map_sum.
Context {K A : Type} `{Countable K} (f : A → N).
Implicit Types m : gmap K A.

Definition map_sum m : N := map_fold (λ _ a acc, (f a + acc)%N) 0%N m.

Lemma map_sum_empty : map_sum ∅ = 0%N.
Proof. apply map_fold_empty. Qed.

Lemma map_sum_insert_None m k x :
  m !! k = None → map_sum (<[k:=x]> m) = (f x + map_sum m)%N.
Proof.
  intros Hk. unfold map_sum. rewrite map_fold_insert_L; [done| |done].
  intros; lia.
Qed.

Lemma map_sum_delete m k x :
  m !! k = Some x → map_sum m = (f x + map_sum (delete k m))%N.
Proof.
  intros Hk. rewrite <-(map_sum_insert_None (delete k m) k x) by apply lookup_delete_eq.
  by rewrite insert_delete_id.
Qed.

Lemma map_sum_delete_default m k :
  map_sum m = (from_option f 0 (m !! k) + map_sum (delete k m))%N.
Proof.
  destruct (m !! k) as [x|] eqn:E; [by apply map_sum_delete|].
  by rewrite delete_id.
Qed.

Lemma map_sum_insert m k x :
  (map_sum (<[k:=x]> m) + from_option f 0 (m !! k) = f x + map_sum m)%N.
Proof.
  rewrite <-insert_delete_eq, map_sum_insert_None by apply lookup_delete_eq.
  rewrite (map_sum_delete_default m k). lia.
Qed.

Lemma map_sum_pos m : (0 < map_sum m)%N ↔ ∃ k x, m !! k = Some x ∧ (0 < f x)%N.
Proof.
  split.
  - induction m as [|k x m Hk IH] using map_ind; [by rewrite map_sum_empty|].
    rewrite map_sum_insert_None by done. intros Hpos.
    destruct (decide (0 < f x)%N) as [Hx|Hx].
    { exists k, x. by rewrite lookup_insert_eq. }
    destruct IH as (k' & x' & Hk' & Hx'); [lia|].
    exists k', x'. rewrite lookup_insert_ne by congruence. done.
  - intros (k & x & Hk & Hx). rewrite (map_sum_delete m k x Hk). lia.
Qed.
End map_sum.

Lemma map_sum_le {K A} `{Countable K} (f g : A → N) (m : gmap K A) :
  (∀ k x, m !! k = Some x → (f x ≤ g x)%N) → (map_sum f m ≤ map_sum g m)%N.
Proof.
  induction m as [|k x m Hk IH] using map_ind; intros Hfg.
  { by rewrite !map_sum_empty. }
  rewrite !map_sum_insert_None by done.
  assert (f x ≤ g x)%N by (apply (Hfg k); apply lookup_insert_eq).
  assert (map_sum f m ≤ map_sum g m)%N; [|lia].
  apply IH. intros k' x' Hk'. apply (Hfg k').
  by rewrite lookup_insert_ne by congruence.
Qed.

Lemma map_sum_ext {K A} `{Countable K} (f g : A → N) (m : gmap K A) :
  (∀ k x, m !! k = Some x → f x = g x) → map_sum f m = map_sum g m.
Proof.
  intros Hfg. apply N.le_antisymm; apply map_sum_le; intros k x Hk;
    rewrite (Hfg k x Hk); lia.
Qed.

Lemma map_sum_fmap {K A B} `{Countable K} (f : B → N) (h : A → B) (m : gmap K A) :
  map_sum f (h <$> m) = map_sum (f ∘ h) m.
Proof.
  induction m as [|k x m Hk IH] using map_ind.
  { by rewrite fmap_empty, !map_sum_empty. }
  rewrite fmap_insert, !map_sum_insert_None by (done || by rewrite lookup_fmap, Hk).
  by rewrite IH.
Qed.

(** * Sorting and deduplication

    [Vec::dedup_by]: drops an element equal to its predecessor. *)
Fixpoint dedup_by {A} (eqb : A → A → bool) (l : list A) : list A :=
  match l with
  | [] => []
  | x :: l' =>
      match dedup_by eqb l' with
      | [] => [x]
      | y :: r => if eqb x y then x :: r else x :: y :: r
      end
  end.

Definition sort_by_key {A} (key : A → string) (l : list A) : list A :=
  merge_sort (λ a b, String.le (key a) (key b)) l.
Definition dedup_by_key {A} (key : A → string) (l : list A) : list A :=
  dedup_by (λ a b, bool_decide (key a = key b)) l.

Section sort_dedup.
Context {A : Type} (key : A → string).
Implicit Types l : list A.
Let R (a b : A) : Prop := String.le (key a) (key b).

#[local] Instance key_le_total : Total R.
Proof. intros a b. unfold R. apply total, _. Qed.
#[local] Instance key_le_trans : Transitive R.
Proof. intros a b c. unfold R. by etrans. Qed.

Lemma dedup_by_key_cons x l : ∃ r, dedup_by_key key (x :: l) = x :: r.
Proof.
  unfold dedup_by_key. simpl. destruct (dedup_by _ l); [by eexists|].
  case_bool_decide; by eexists.
Qed.

Lemma elem_of_dedup_by_key l k : k ∈ key <$> dedup_by_key key l ↔ k ∈ key <$> l.
Proof.
  induction l as [|x l IH]; [done|]. unfold dedup_by_key in *. simpl.
  destruct (dedup_by _ l) as [|y r]; [|case_bool_decide as E]; csimpl in *;
    rewrite !elem_of_cons; rewrite ?elem_of_cons in IH; rewrite <-IH.
  - done.
  - rewrite E. tauto.
  - done.
Qed.

Lemma dedup_by_key_subset l x : x ∈ dedup_by_key key l → x ∈ l.
Proof.
  induction l as [|y l IH]; [done|]. unfold dedup_by_key in *. simpl.
  destruct (dedup_by _ l) as [|z r]; [|case_bool_decide];
    rewrite !elem_of_cons; rewrite ?elem_of_cons in IH; tauto.
Qed.

Lemma NoDup_dedup_sorted l :
  StronglySorted R l → NoDup (key <$> dedup_by_key key l).
Proof.
  induction 1 as [|x l Hl IH Hx]; [constructor|].
  destruct l as [|h t]; [csimpl; repeat constructor; set_solver|].
  destruct (dedup_by_key_cons h t) as [r Hr].
  pose proof (elem_of_dedup_by_key (h :: t)) as Hmem.
  unfold dedup_by_key in *. cbn [dedup_by]. cbn [dedup_by] in Hr, Hmem, IH.
  rewrite Hr in *. case_bool_decide as E; csimpl in *.
  - apply NoDup_cons in IH as [Hh Hr']. constructor; by rewrite ?E.
  - constructor; [|done]. rewrite Hmem, <-fmap_cons.
    intros (z & Hz & Hin)%list_elem_of_fmap. apply E.
    inversion Hx as [|? ? Hxh _]; subst. apply (anti_symm String.le); [done|].
    rewrite Hz. apply elem_of_cons in Hin as [->|Hin]; [done|].
    apply StronglySorted_inv in Hl as [_ Hh]. rewrite Forall_forall in Hh. by apply Hh.
Qed.

Lemma NoDup_sort_dedup l : NoDup (key <$> dedup_by_key key (sort_by_key key l)).
Proof. apply NoDup_dedup_sorted. apply (StronglySorted_merge_sort R). Qed.

Lemma elem_of_sort_dedup l k :
  k ∈ key <$> dedup_by_key key (sort_by_key key l) ↔ k ∈ key <$> l.
Proof.
  rewrite elem_of_dedup_by_key. unfold sort_by_key.
  by rewrite merge_sort_Permutation.
Qed.

Lemma sort_dedup_subset l x : x ∈ dedup_by_key key (sort_by_key key l) → x ∈ l.
Proof.
  intros H%dedup_by_key_subset. unfold sort_by_key in H.
  by rewrite merge_sort_Permutation in H.
Qed.

Lemma dedup_by_key_sorted l : StronglySorted R l → StronglySorted R (dedup_by_key key l).
Proof.
  induction 1 as [|x l Hl IH Hx]; [constructor|].
  assert (Forall (R x) (dedup_by_key key l)) as Hx'.
  { rewrite Forall_forall in *. intros y Hy%dedup_by_key_subset. by apply Hx. }
  unfold dedup_by_key in *. simpl. destruct (dedup_by _ l) as [|y r]; [by constructor|].
  case_bool_decide; [|by constructor].
  apply StronglySorted_inv in IH as [IH _]. constructor; [done|]. by apply Forall_inv_tail in Hx'.
Qed.

Lemma dedup_by_key_id l : NoDup (key <$> l) → dedup_by_key key l = l.
Proof.
  induction l as [|x l IH]; [done|]. csimpl. intros [Hx Hl]%NoDup_cons. specialize (IH Hl).
  unfold dedup_by_key in *. simpl. rewrite IH. destruct l as [|y l]; [done|].
  rewrite bool_decide_false; [done|]. csimpl in Hx. set_solver.
Qed.

Lemma NoDup_key_inj l x y : NoDup (key <$> l) → x ∈ l → y ∈ l → key x = key y → x = y.
Proof.
  intros Hnd [i Hi]%list_elem_of_lookup [j Hj]%list_elem_of_lookup E.
  assert (i = j) as ->; [|congruence].
  eapply NoDup_lookup; [exact Hnd|by rewrite list_lookup_fmap, Hi|].
  by rewrite list_lookup_fmap, Hj, E.
Qed.

(** Sorting and deduplicating twice is doing it once. *)
Lemma sort_dedup_idemp l :
  let l' := dedup_by_key key (sort_by_key key l) in dedup_by_key key (sort_by_key key l') = l'.
Proof.
  cbn zeta. set (l' := dedup_by_key key (sort_by_key key l)).
  assert (NoDup (key <$> l')) as Hnd by apply NoDup_sort_dedup.
  assert (sort_by_key key l' = l') as ->; [|by apply dedup_by_key_id].
  apply (StronglySorted_unique_strong R).
  - intros x y Hx Hy H1 H2. unfold sort_by_key in Hx. rewrite merge_sort_Permutation in Hx.
    apply (NoDup_key_inj l'); [done..|]. by apply (anti_symm String.le).
  - apply (StronglySorted_merge_sort R).
  - apply dedup_by_key_sorted. apply (StronglySorted_merge_sort R).
  - apply merge_sort_Permutation.
Qed.

(** Sorting and deduplicating by a key gives the sorted keys, without duplicates. *)
Lemma sort_by_key_fmap l : key <$> sort_by_key key l = merge_sort String.le (key <$> l).
Proof.
  apply (StronglySorted_unique String.le).
  - assert (StronglySorted R (sort_by_key key l)) as H by apply (StronglySorted_merge_sort R).
    induction H as [|x l' _ IH Hx]; csimpl; constructor; [done|]. by apply Forall_fmap.
  - apply (StronglySorted_merge_sort String.le).
  - rewrite merge_sort_Permutation. apply fmap_Permutation, (merge_sort_Permutation R).
Qed.

Lemma dedup_by_key_fmap l : key <$> dedup_by_key key l = dedup_by_key id (key <$> l).
Proof.
  unfold dedup_by_key. induction l as [|x l IH]; [done|]. rewrite fmap_cons. cbn [dedup_by].
  rewrite <-IH. destruct (dedup_by _ l) as [|y r]; [done|]. rewrite fmap_cons. unfold id.
  case_bool_decide; by rewrite !fmap_cons.
Qed.

Lemma sort_dedup_nil l : dedup_by_key key (sort_by_key key l) = [] → l = [].
Proof.
  intros E. destruct l as [|x l]; [done|]. exfalso.
  assert (key x ∈ key <$> dedup_by_key key (sort_by_key key (x :: l))) as H
    by (apply elem_of_sort_dedup; csimpl; by left).
  rewrite E in H. by apply not_elem_of_nil in H.
Qed.
End sort_dedup.
