(* ===== verification/Errors.v ===== *)
(** The error type of the server (crates/layerhouse-server/src/error.rs), the
    OCI error code and HTTP status it maps to, its [WWW-Authenticate]
    challenge, and the result type every fallible operation returns.

    A message built by [format!] is kept as the list of its pieces, with the
    arguments a piece prints, so that which data reaches a client stays visible;
    the escaping that [{:?}] performs is not modelled. *)

From stdpp Require Import options.
From S2P Require Import Prelude.

(** One piece of a [format!] message: literal text, [{}] or [{:?}] of a
    string, [{}] of an integer. *)
Inductive frag :=
  | Lit (s : string)
  | Disp (s : string)
  | Dbg (s : string)
  | Num (n : N).

Abbreviation message := (list frag).

#[global] Instance frag_eq_dec : EqDecision frag.
Proof. solve_decision. Defined.

Inductive LayerhouseError :=
  | BlobUnknown (m : message)
  | BlobUploadInvalid (m : message)
  | BlobUploadUnknown (m : message)
  | DigestInvalid (m : message)
  | ManifestBlobUnknown (m : message)
  | ManifestInvalid (m : message)
  | ManifestUnknown (m : message)
  | NameInvalid (m : message)
  | NameUnknown (m : message)
  | SizeInvalid (m : message)
  | Unauthorized (m : message) (realm service scope : option string)
  | Denied (m : message)
  | Unsupported (m : message)
  | TooManyRequests (m : message)
  | Conflict (m : message)
  | S3 (m : message)
  | Io (io_text : message)
  | Serialization (m : message)
  | Upstream (m : message)
  | NotLeader (m : message)
  | Consensus (m : message)
  | Internal (m : message).

#[global] Instance LayerhouseError_eq_dec : EqDecision LayerhouseError.
Proof. solve_decision. Defined.

(** The [#[error(...)]] attributes: the [Display] text of an error. *)
Definition error_to_string (e : LayerhouseError) : message :=
  match e with
  | BlobUnknown m => Lit "BLOB_UNKNOWN: " :: m
  | BlobUploadInvalid m => Lit "BLOB_UPLOAD_INVALID: " :: m
  | BlobUploadUnknown m => Lit "BLOB_UPLOAD_UNKNOWN: " :: m
  | DigestInvalid m => Lit "DIGEST_INVALID: " :: m
  | ManifestBlobUnknown m => Lit "MANIFEST_BLOB_UNKNOWN: " :: m
  | ManifestInvalid m => Lit "MANIFEST_INVALID: " :: m
  | ManifestUnknown m => Lit "MANIFEST_UNKNOWN: " :: m
  | NameInvalid m => Lit "NAME_INVALID: " :: m
  | NameUnknown m => Lit "NAME_UNKNOWN: " :: m
  | SizeInvalid m => Lit "SIZE_INVALID: " :: m
  | Unauthorized m _ _ _ => Lit "UNAUTHORIZED: " :: m
  | Denied m => Lit "DENIED: " :: m
  | Unsupported m => Lit "UNSUPPORTED: " :: m
  | TooManyRequests m => Lit "TOOMANYREQUESTS: " :: m
  | Conflict m => Lit "CONFLICT: " :: m
  | S3 m => Lit "S3 error: " :: m
  | Io m => Lit "IO error: " :: m
  | Serialization m => Lit "serialization error: " :: m
  | Upstream m => Lit "upstream error: " :: m
  | NotLeader m => Lit "not leader, redirect to: " :: m
  | Consensus m => Lit "consensus error: " :: m
  | Internal m => Lit "internal error: " :: m
  end.

Definition oci_code (e : LayerhouseError) : string :=
  match e with
  | BlobUnknown _ => "BLOB_UNKNOWN"
  | BlobUploadInvalid _ => "BLOB_UPLOAD_INVALID"
  | BlobUploadUnknown _ => "BLOB_UPLOAD_UNKNOWN"
  | DigestInvalid _ => "DIGEST_INVALID"
  | ManifestBlobUnknown _ => "MANIFEST_BLOB_UNKNOWN"
  | ManifestInvalid _ => "MANIFEST_INVALID"
  | ManifestUnknown _ => "MANIFEST_UNKNOWN"
  | NameInvalid _ => "NAME_INVALID"
  | NameUnknown _ => "NAME_UNKNOWN"
  | SizeInvalid _ => "SIZE_INVALID"
  | Unauthorized _ _ _ _ => "UNAUTHORIZED"
  | Denied _ => "DENIED"
  | Unsupported _ => "UNSUPPORTED"
  | TooManyRequests _ => "TOOMANYREQUESTS"
  | Conflict _ => "CONFLICT"
  | S3 _ | Io _ | Serialization _ | Upstream _ | NotLeader _ | Consensus _ | Internal _ =>
      "UNKNOWN"
  end.

Definition status_code (e : LayerhouseError) : nat :=
  match e with
  | BlobUnknown _ | ManifestUnknown _ | NameUnknown _ | BlobUploadUnknown _ => 404
  | BlobUploadInvalid _ | DigestInvalid _ | ManifestBlobUnknown _ | ManifestInvalid _
  | NameInvalid _ | SizeInvalid _ => 400
  | Unauthorized _ _ _ _ => 401
  | Denied _ => 403
  | Unsupported _ => 405
  | TooManyRequests _ => 429
  | Conflict _ => 409
  | Upstream _ => 502
  | NotLeader _ | Consensus _ => 503
  | S3 _ | Io _ | Serialization _ | Internal _ => 500
  end.

Definition auth_required (realm service scope : string) : LayerhouseError :=
  Unauthorized [Lit "authentication required"] (Some realm) (Some service) (Some scope).

(** The value of the [WWW-Authenticate] header, before the HTTP library's own
    syntax check. *)
Definition quote : string := String (Ascii.ascii_of_nat 34) "".
Definition www_authenticate (e : LayerhouseError) : option string :=
  match e with
  | Unauthorized _ realm service scope =>
      let param (label : string) (v : option string) :=
        match v with Some x => label +:+ quote +:+ x +:+ quote | None => "" end in
      Some ("Bearer" +:+ param " realm=" realm +:+ param ",service=" service
              +:+ param ",scope=" scope)
  | _ => None
  end.

Record ErrorResponse := MkErrorResponse {
  er_status : nat;
  er_code : string;
  er_message : message;
  er_www_authenticate : option string;
}.

(** [header_value_ok] is [http::HeaderValue::from_str(v).is_ok()]. *)
Definition into_response (header_value_ok : string → bool) (e : LayerhouseError)
    : ErrorResponse :=
  MkErrorResponse (status_code e) (oci_code e) (error_to_string e)
    (v ← www_authenticate e; if header_value_ok v then Some v else None).

(** * Results

    [Panic] is a failed [expect]/[unwrap]/index: the release profile aborts. *)
Inductive result (A : Type) :=
  | Ok (a : A)
  | Err (e : LayerhouseError)
  | Panic.
Arguments Ok {_} _.
Arguments Err {_} _.
Arguments Panic {_}.

#[global] Instance result_ret : MRet result := λ A a, Ok a.
#[global] Instance result_bind : MBind result := λ A B f r,
  match r with Ok a => f a | Err e => Err e | Panic => Panic end.
#[global] Instance result_fmap : FMap result := λ A B f r,
  match r with Ok a => Ok (f a) | Err e => Err e | Panic => Panic end.

Definition ok_or {A} (e : LayerhouseError) (o : option A) : result A :=
  match o with Some a => Ok a | None => Err e end.
Definition expect {A} (o : option A) : result A :=
  match o with Some a => Ok a | None => Panic end.

Definition is_ok {A} (r : result A) : bool := match r with Ok _ => true | _ => false end.
Definition is_err {A} (r : result A) : bool := match r with Err _ => true | _ => false end.

(** [r?] in a function that threads the state [s]: a failure returns at once,
    with the state as it is. *)
Definition try_with {S A B} (s : S) (r : result A) (k : A → S * result B) : S * result B :=
  match r with Ok a => k a | Err e => (s, Err e) | Panic => (s, Panic) end.

Notation "'try' x ':=' r 'at' s ';' k" := (try_with s r (λ x, k))
  (at level 90, x name, r at level 99, s at level 0, k at level 200,
   format "'try'  x  ':='  r  'at'  s  ';' '//' k") : lh_scope.

(** A property of the state holds after [r?; k] if it holds before and [k] keeps it. *)
Lemma try_with_fst {S A B} (P : S → Prop) (s : S) (r : result A) (k : A → S * result B) :
  P s → (∀ a, r = Ok a → P (k a).1) → P (try_with s r k).1.
Proof. intros Hs Hk. destruct r; simpl; auto. Qed.

Lemma try_with_Ok {S A B} (s s' : S) (r : result A) (k : A → S * result B) b :
  try_with s r k = (s', Ok b) ↔ ∃ a, r = Ok a ∧ k a = (s', Ok b).
Proof. destruct r; simpl; naive_solver. Qed.

Section result_lemmas.
Context {A B : Type}.
Implicit Types r : result A.

Lemma result_bind_Ok (f : A → result B) r b :
  r ≫= f = Ok b ↔ ∃ a, r = Ok a ∧ f a = Ok b.
Proof.
  destruct r; simpl; split; try done.
  - intros H. by eexists.
  - by intros (? & [= ->] & ?).
  - by intros (? & ? & ?).
  - by intros (? & ? & ?).
Qed.

Lemma result_fmap_Ok (f : A → B) r b : f <$> r = Ok b ↔ ∃ a, r = Ok a ∧ b = f a.
Proof. destruct r; simpl; naive_solver. Qed.

Lemma ok_or_Ok e (o : option A) a : ok_or e o = Ok a ↔ o = Some a.
Proof. destruct o; simpl; split; congruence. Qed.

Lemma ok_or_no_panic e (o : option A) : ok_or e o ≠ Panic.
Proof. by destruct o. Qed.
End result_lemmas.

(** * Properties *)

(** The error classification is consistent: an error carries the opaque
    OCI code [UNKNOWN] exactly when its HTTP status is a server error, every
    other error has a 4xx status, and a challenge header is produced exactly
    for 401. *)
Theorem error_classification (e : LayerhouseError) :
  (oci_code e = "UNKNOWN" ↔ 500 ≤ status_code e) ∧
  (400 ≤ status_code e < 600) ∧
  (is_Some (www_authenticate e) ↔ status_code e = 401).
Proof.
  destruct e; simpl; repeat split; try done; try lia; try (by intros []); by eexists.
Qed.
