(* ===== verification/Digests.v ===== *)
(** Content digests (crates/layerhouse-server/src/oci/digest.rs): parsing,
    printing, the serde encodings, the S3 object key of a blob, and the inverse
    of that key used by the garbage collector (gc.rs, [s3_key_to_digest]). *)

From Stdlib Require Import Ascii.
From stdpp Require Import options.
From S2P Require Import Prelude Errors.

(** * Data and operations *)

Record Digest := MkDigest {
  algorithm : string;
  hex : string;
}.

#[global] Instance Digest_eq_dec : EqDecision Digest.
Proof. solve_decision. Defined.

Definition from_str_checked (s : string) : option Digest :=
  '(algo, hex) ← Str.split_once ":" s;
  if negb (bool_decide (algo = "sha256")) && negb (bool_decide (algo = "sha512")) then None
  else
    let expected_len := if bool_decide (algo = "sha256") then 64 else 128 in
    if negb (bool_decide (String.length hex = expected_len)) then None
    else if negb (Str.all Str.is_ascii_hexdigit hex) then None
    else Some (MkDigest algo hex).

Definition digest_to_string (d : Digest) : string := algorithm d +:+ ":" +:+ hex d.

Definition digest_from_str (s : string) : string + Digest :=
  match from_str_checked s with
  | Some d => inr d
  | None => inl ("invalid digest: " +:+ s)
  end.

Definition digest_try_from (s : string) : result Digest :=
  ok_or (DigestInvalid [Disp s]) (from_str_checked s).

(** [&s[..n]]: panics when [n] is out of range or inside a character. *)
Definition slice_to (n : nat) (s : string) : option string :=
  if bool_decide (n = String.length s) then Some s
  else match String.get n s with
       | None => None
       | Some a =>
           if Str.in_range "128" "191" a then None else Some (String.substring 0 n s)
       end.

Definition s3_key (d : Digest) : result string :=
  prefix ← expect (slice_to 2 (hex d));
  Ok ("blobs/" +:+ algorithm d +:+ "/" +:+ prefix +:+ "/" +:+ hex d).

Definition s3_key_to_digest (key : string) : option string :=
  match Str.splitn 4 "/" key with
  | [p0; p1; p2; p3] =>
      if bool_decide (p0 = "blobs") && Str.starts_with p2 p3
      then Some (p1 +:+ ":" +:+ p3) else None
  | _ => None
  end.

(** The serde helpers: a digest is serialised as its string. *)
Definition serde_string_serialize (d : Digest) : string := digest_to_string d.
Definition serde_string_deserialize (s : string) : option Digest :=
  match digest_from_str s with inr d => Some d | inl _ => None end.
Definition serde_string_opt_serialize (d : option Digest) : option string :=
  digest_to_string <$> d.
Definition serde_string_opt_deserialize (s : option string) : option (option Digest) :=
  match s with
  | None => Some None
  | Some s => Some <$> serde_string_deserialize s
  end.
Definition serde_string_vec_serialize (ds : list Digest) : list string :=
  digest_to_string <$> ds.
Definition serde_string_vec_deserialize (ss : list string) : option (list Digest) :=
  mapM serde_string_deserialize ss.

(** Hashing is done by the [sha2] and [hex] crates: [sha256_hex] is
    [hex::encode(Sha256::digest(data))]. *)
Section hashing.
Context (sha256_hex : list Byte.byte → string).
Definition digest_sha256 (data : list Byte.byte) : Digest :=
  MkDigest "sha256" (sha256_hex data).
End hashing.

(** What the hash library guarantees: 64 lowercase hexadecimal digits. *)
Definition is_lower_hex (a : ascii) : bool :=
  Str.is_ascii_digit a || Str.in_range "a" "f" a.
Definition hash_output (h : string) : Prop :=
  String.length h = 64 ∧ Str.all is_lower_hex h = true.

(** * Well-formed digests *)

Definition digest_wf (d : Digest) : Prop :=
  ((algorithm d = "sha256" ∧ String.length (hex d) = 64) ∨
   (algorithm d = "sha512" ∧ String.length (hex d) = 128)) ∧
  Str.all Str.is_ascii_hexdigit (hex d) = true.

#[global] Instance digest_wf_dec d : Decision (digest_wf d).
Proof. unfold digest_wf. apply _. Defined.

Lemma digest_wf_algorithm d :
  digest_wf d → Str.contains_char ":" (algorithm d) = false
    ∧ Str.contains_char "/" (algorithm d) = false.
Proof. by intros [[[-> _]|[-> _]] _]. Qed.

Lemma digest_wf_hex_no_slash d : digest_wf d → Str.contains_char "/" (hex d) = false.
Proof. intros [_ H]. by apply (all_not_contains Str.is_ascii_hexdigit). Qed.

Lemma from_str_checked_Some s d :
  from_str_checked s = Some d ↔ s = digest_to_string d ∧ digest_wf d.
Proof.
  unfold from_str_checked, digest_to_string. split.
  - destruct (Str.split_once ":" s) as [[algo h]|] eqn:E; [|done].
    apply split_once_Some in E as [-> _]. cbn [mbind option_bind].
    destruct (decide (algo = "sha256")) as [->|H1];
      [|destruct (decide (algo = "sha512")) as [->|H2];
        [|by rewrite (bool_decide_eq_false_2 _ H1), (bool_decide_eq_false_2 _ H2)]]; simpl;
      (case_bool_decide as Hl; [|done]); simpl;
      (destruct (Str.all _ h) eqn:Hh; [|done]); intros [= <-];
      (split; [done|]); split; simpl; auto.
  - intros [-> Hwf]. pose proof (digest_wf_algorithm d Hwf) as [Hc _].
    replace (Str.split_once ":" (algorithm d +:+ ":" +:+ hex d))
      with (Some (algorithm d, hex d)) by (symmetry; by apply split_once_Some).
    destruct d as [a h]; unfold digest_wf in Hwf; simpl in Hwf, Hc |- *;
      destruct Hwf as [[[-> Hl]|[-> Hl]] Hh]; simpl;
      rewrite (bool_decide_eq_true_2 (String.length h = _)) by done;
      rewrite Hh; reflexivity.
Qed.

Lemma digest_to_string_inj d1 d2 :
  digest_wf d1 → digest_wf d2 → digest_to_string d1 = digest_to_string d2 → d1 = d2.
Proof.
  intros H1 H2 E.
  assert (Some d1 = Some d2) as [= ->]; [|done].
  rewrite <-(proj2 (from_str_checked_Some (digest_to_string d1) d1)) by done.
  rewrite E. by apply from_str_checked_Some.
Qed.

Lemma serde_string_roundtrip d :
  digest_wf d → serde_string_deserialize (serde_string_serialize d) = Some d.
Proof.
  intros H. unfold serde_string_deserialize, serde_string_serialize, digest_from_str.
  by rewrite (proj2 (from_str_checked_Some _ d)).
Qed.

Lemma sha256_digest_wf (sha256_hex : list Byte.byte → string) data :
  hash_output (sha256_hex data) → digest_wf (digest_sha256 sha256_hex data).
Proof.
  intros [Hl Hh]. split; [by left|]. simpl. apply (all_impl is_lower_hex); [|done].
  unfold is_lower_hex, Str.is_ascii_hexdigit. intros a [->| ->]%orb_true_iff; simpl;
    by rewrite ?orb_true_r.
Qed.

Lemma slice_to_hex (n : nat) s :
  Str.all Str.is_ascii_hexdigit s = true → n ≤ String.length s →
  ∃ p q, slice_to n s = Some p ∧ s = p +:+ q ∧ String.length p = n.
Proof.
  intros Hhex Hlen. unfold slice_to. case_bool_decide as E.
  { exists s, "". by rewrite app_nil_r_str. }
  assert (∃ a, String.get n s = Some a ∧ Str.is_ascii_hexdigit a = true
    ∧ ∃ q, s = String.substring 0 n s +:+ q ∧ String.length (String.substring 0 n s) = n)
    as (a & -> & Ha & q & Hq & Hl).
  { revert n Hlen E. induction s as [|b s IH]; intros n Hlen E; simpl in *; [lia|].
    apply andb_true_iff in Hhex as [Hb Hs]. destruct n as [|n].
    { exists b. repeat split; [done|]. by exists (String b s). }
    destruct (IH Hs n) as (a & Ha & Hx & q & Hq & Hl); [lia..|].
    exists a. repeat split; [done..|]. exists q. rewrite app_cons. simpl.
    by rewrite <-Hq, Hl. }
  assert (Str.in_range "128" "191" a = false) as ->; [|by exists (String.substring 0 n s), q].
  clear -Ha. destruct a as [[] [] [] [] [] [] [] []]; done.
Qed.

(** * Properties *)

(** Parsing and printing digests are mutually inverse: [from_str_checked]
    accepts exactly the printed form of a digest with a known algorithm, the
    right length and hexadecimal digits, and returns that digest; so a string
    names at most one digest, and the serde encodings of optional digests and
    of vectors of digests decode to what was encoded. *)
Theorem digest_roundtrip :
  (∀ s d, from_str_checked s = Some d ↔ s = digest_to_string d ∧ digest_wf d) ∧
  (∀ d, digest_wf d →
     serde_string_opt_deserialize (serde_string_opt_serialize (Some d)) = Some (Some d)) ∧
  (∀ ds, Forall digest_wf ds →
     serde_string_vec_deserialize (serde_string_vec_serialize ds) = Some ds).
Proof.
  split; [apply from_str_checked_Some|]. split.
  - intros d Hd. unfold serde_string_opt_deserialize, serde_string_opt_serialize. simpl.
    by rewrite serde_string_roundtrip.
  - intros ds Hds. unfold serde_string_vec_deserialize, serde_string_vec_serialize.
    apply mapM_Some, Forall2_fmap_l, Forall_Forall2_diag.
    eapply Forall_impl; [exact Hds|]. intros d Hd. by apply serde_string_roundtrip.
Qed.

(** The S3 object key of a well-formed digest exists (no slice panic) and
    the garbage collector recovers the digest's reference-count key from it. *)
Theorem s3_key_roundtrip (d : Digest) (Hd : digest_wf d) :
  ∃ key, s3_key d = Ok key ∧ s3_key_to_digest key = Some (digest_to_string d).
Proof.
  assert (2 ≤ String.length (hex d)) as Hlen by (destruct Hd as [[[_ H]|[_ H]] _]; lia).
  destruct (slice_to_hex 2 (hex d) (proj2 Hd) Hlen) as (p & q & Hp & Hpq & _).
  exists ("blobs/" +:+ algorithm d +:+ "/" +:+ p +:+ "/" +:+ hex d).
  unfold s3_key. rewrite Hp. split; [done|].
  pose proof (digest_wf_hex_no_slash d Hd) as Hslash.
  assert (Str.contains_char "/" p = false) as Hps.
  { rewrite Hpq, contains_char_app in Hslash. by apply orb_false_iff in Hslash as [? _]. }
  unfold s3_key_to_digest.
  assert (Str.splitn 4 "/" ("blobs/" +:+ algorithm d +:+ "/" +:+ p +:+ "/" +:+ hex d)
    = ["blobs"; algorithm d; p; hex d]) as ->.
  { assert (∀ n x y, Str.contains_char "/" x = false →
      Str.splitn (S (S n)) "/" (x +:+ "/" +:+ y) = x :: Str.splitn (S n) "/" y) as Hs.
    { intros n x y Hx. cbn [Str.splitn]. by rewrite (proj2 (split_once_Some "/" _ x y)). }
    change ("blobs/" +:+ ?x) with ("blobs" +:+ "/" +:+ x).
    rewrite Hs by done. rewrite Hs by apply (digest_wf_algorithm d Hd).
    by rewrite Hs by done. }
  rewrite bool_decide_eq_true_2 by done. simpl.
  rewrite Hpq at 1. by rewrite starts_with_app.
Qed.

Definition sample_digest : Digest :=
  MkDigest "sha256" "a3ed95caeb02ffe68cdd9fd84406680ae93d633cb16422d00e8a7c22955b46d4".

Lemma s3_key_roundtrip_witness :
  digest_wf sample_digest ∧
  ∃ key, s3_key sample_digest = Ok key ∧
    s3_key_to_digest key = Some (digest_to_string sample_digest).
Proof.
  assert (digest_wf sample_digest) as H by (apply (bool_decide_unpack _); vm_compute; exact I).
  split; [exact H|]. exact (s3_key_roundtrip sample_digest H).
Defined.
