(* ===== verification/Manifests.v ===== *)
(** OCI manifest inspection (crates/layerhouse-server/src/oci/manifest.rs): the
    digests and sizes a manifest references, and the deduplicated stored size.

    JSON is parsed and represented by the [serde_json] crate, so its values are
    an interface here: the accessors the source calls are the operations of
    [SerdeJson], and nothing is assumed of them. *)

From Stdlib Require Import Ascii.
From stdpp Require Import options.
From S2P Require Import Prelude Errors Digests.

(** * The JSON interface *)

Class SerdeJson := {
  Value : Type;
  from_slice : list Byte.byte → option Value;
  json_null : Value;
  json_get : Value → string → option Value;
  json_as_str : Value → option string;
  json_as_u64 : Value → option N;
  json_as_array : Value → option (list Value);
  json_is_object : Value → bool;
  json_of_str : string → Value;
  json_of_u64 : N → Value;
  json_of_array : list Value → Value;
  json_of_object : list (string * Value) → Value;
}.

(** Sums of [u64]s: [Iterator::sum] wraps in the release profile. *)
Definition sum_u64 (l : list N) : N := foldl U64.add 0%N l.

Lemma sum_u64_wrap (l : list N) : sum_u64 l = U64.wrap (foldr N.add 0%N l).
Proof.
  unfold sum_u64. assert (∀ a, U64.wrap a = a →
    foldl U64.add a l = U64.wrap (a + foldr N.add 0 l)%N) as H; [|by rewrite H].
  assert (U64.modulus ≠ 0%N) as Hne by done.
  induction l as [|x l IH]; intros a Ha; simpl; [by rewrite N.add_0_r|].
  rewrite IH by (unfold U64.add, U64.wrap; by rewrite N.Div0.mod_mod).
  unfold U64.add, U64.wrap. rewrite N.Div0.add_mod_idemp_l. f_equal. lia.
Qed.

Section manifest.
Context `{SerdeJson}.

(** * Operations *)

Record SizedDescriptor := MkSizedDescriptor {
  sd_digest : Digest;
  sd_size : N;
}.

Definition is_manifest_media_type (media_type : string) : bool :=
  bool_decide (media_type ∈ [
    "application/vnd.oci.image.manifest.v1+json";
    "application/vnd.oci.image.index.v1+json";
    "application/vnd.oci.artifact.manifest.v1+json";
    "application/vnd.docker.distribution.manifest.v2+json";
    "application/vnd.docker.distribution.manifest.list.v2+json"]).

Definition descriptor_digest (value : Value) : option Digest :=
  d ← json_get value "digest"; s ← json_as_str d; from_str_checked s.

Definition sized_descriptor (value : Value) : option SizedDescriptor :=
  digest ← descriptor_digest value;
  sz ← json_get value "size"; n ← json_as_u64 sz;
  Some (MkSizedDescriptor digest n).

(** [value.get(k).and_then(as_array)], the elements or none. *)
Definition array_field (value : Value) (k : string) : list Value :=
  default [] (v ← json_get value k; json_as_array v).

Definition extract_referenced_digests (value : Value) : list Digest :=
  option_list (config ← json_get value "config"; descriptor_digest config) ++
  omap descriptor_digest (array_field value "layers") ++
  omap descriptor_digest (array_field value "blobs").

Definition extract_sized_referenced_descriptors (value : Value) : list SizedDescriptor :=
  option_list (config ← json_get value "config"; sized_descriptor config) ++
  omap sized_descriptor (array_field value "layers") ++
  omap sized_descriptor (array_field value "blobs").

(** [entry(k).and_modify(max).or_insert(size)]. *)
Definition insert_max (m : gmap string N) (d : SizedDescriptor) : gmap string N :=
  let k := digest_to_string (sd_digest d) in
  match m !! k with
  | Some size => <[k := N.max size (sd_size d)]> m
  | None => <[k := sd_size d]> m
  end.

Definition stored_size_from_descriptors (descriptors : list SizedDescriptor) : N :=
  sum_u64 (btree_values (foldl insert_max ∅ descriptors)).

Definition stored_size_bytes (value : Value) : N :=
  stored_size_from_descriptors (extract_sized_referenced_descriptors value).

Definition extract_subject_digest (value : Value) : option Digest :=
  subject ← json_get value "subject"; d ← json_get subject "digest";
  s ← json_as_str d; from_str_checked s.

Definition extract_artifact_type (value : Value) : option string :=
  match at_ ← json_get value "artifactType"; json_as_str at_ with
  | Some s => Some s
  | None =>
      config ← json_get value "config"; mt ← json_get config "mediaType";
      config_mt ← json_as_str mt;
      if negb (bool_decide (config_mt = "application/vnd.oci.empty.v1+json"))
      then Some config_mt else None
  end.

Definition extract_annotations (value : Value) : option Value := json_get value "annotations".

(** The summary object, built field by field in the source's order. *)
Definition sum_sizes (items : list Value) : N :=
  sum_u64 (omap (λ layer, sz ← json_get layer "size"; json_as_u64 sz) items).
Definition sized_array_summary (manifest : Value) (field count_key size_key : string)
    : list (string * Value) :=
  match v ← json_get manifest field; json_as_array v with
  | Some items =>
      [(count_key, json_of_u64 (N.of_nat (length items)));
       (size_key, json_of_u64 (sum_sizes items))]
  | None => []
  end.
Definition extract_config_summary (manifest : Value) : option Value :=
  let config_fields :=
    match json_get manifest "config" with
    | Some config =>
        if json_is_object config then
          option_list (s ← (v ← json_get config "mediaType"; json_as_str v);
                       Some ("mediaType", json_of_str s)) ++
          option_list (s ← (v ← json_get config "digest"; json_as_str v);
                       Some ("config_digest", json_of_str s)) ++
          option_list (n ← (v ← json_get config "size"; json_as_u64 v);
                       Some ("config_size", json_of_u64 n))
        else []
    | None => []
    end in
  let manifests_fields :=
    match v ← json_get manifest "manifests"; json_as_array v with
    | Some ms =>
        let platforms := omap (λ m, json_get m "platform") ms in
        ("manifest_count", json_of_u64 (N.of_nat (length ms))) ::
        (if bool_decide (platforms = []) then [] else [("platforms", json_of_array platforms)])
    | None => []
    end in
  let summary :=
    config_fields ++
    sized_array_summary manifest "layers" "layer_count" "layer_size_bytes" ++
    sized_array_summary manifest "blobs" "blob_count" "blob_size_bytes" ++
    manifests_fields ++
    option_list (s ← (v ← json_get manifest "artifactType"; json_as_str v);
                 Some ("artifactType", json_of_str s)) in
  match summary with [] => None | _ => Some (json_of_object summary) end.
End manifest.

(** * Reference definition of the stored size

    For every distinct digest, the largest size it is described with. *)
Section stored_size.
Implicit Types l : list SizedDescriptor.

Definition descriptor_key (d : SizedDescriptor) : string := digest_to_string (sd_digest d).
Definition sizes_of (k : string) (l : list SizedDescriptor) : list N :=
  sd_size <$> filter (λ d, descriptor_key d = k) l.
Definition largest_size (k : string) (l : list SizedDescriptor) : N :=
  foldr N.max 0%N (sizes_of k l).
Definition stored_size_spec (l : list SizedDescriptor) : N :=
  foldr N.add 0%N ((λ k, largest_size k l) <$> remove_dups (descriptor_key <$> l)).

Lemma insert_max_lookup m d k :
  insert_max m d !! k =
    if decide (descriptor_key d = k)
    then Some (from_option (λ x, N.max x (sd_size d)) (sd_size d) (m !! k)) else m !! k.
Proof.
  unfold insert_max. fold (descriptor_key d). case_decide as E; subst.
  - destruct (m !! descriptor_key d) eqn:Em; by rewrite lookup_insert_eq.
  - destruct (m !! descriptor_key d); by rewrite lookup_insert_ne.
Qed.

Lemma foldl_insert_max_lookup m l k :
  foldl insert_max m l !! k =
    match sizes_of k l with
    | [] => m !! k
    | _ => Some (from_option (λ x, N.max x (largest_size k l)) (largest_size k l) (m !! k))
    end.
Proof.
  unfold largest_size, sizes_of.
  revert m. induction l as [|d l IH]; intros m; [done|]. cbn [foldl].
  rewrite IH, insert_max_lookup, filter_cons. case_decide as E; [|done].
  csimpl. destruct (sd_size <$> filter (λ d, descriptor_key d = k) l) as [|s ss] eqn:Es;
    f_equal; destruct (m !! k); csimpl; lia.
Qed.

Lemma sizes_of_nil k l : sizes_of k l = [] ↔ k ∉ descriptor_key <$> l.
Proof.
  unfold sizes_of. induction l as [|d l IH]; csimpl; [set_solver|].
  rewrite filter_cons. case_decide as E; csimpl; set_solver.
Qed.

Lemma foldl_insert_max_values l :
  btree_values (foldl insert_max ∅ l) ≡ₚ
    (λ k, largest_size k l) <$> remove_dups (descriptor_key <$> l).
Proof.
  set (m := foldl insert_max ∅ l). unfold btree_values. rewrite btree_entries_perm.
  assert (map_to_list m ≡ₚ (λ k, (k, largest_size k l)) <$> remove_dups (descriptor_key <$> l))
    as Hperm.
  { apply NoDup_Permutation.
    - apply NoDup_map_to_list.
    - apply NoDup_fmap_2; [by intros ?? [=]|apply NoDup_remove_dups].
    - intros [k n]. rewrite elem_of_map_to_list, list_elem_of_fmap.
      unfold m. rewrite foldl_insert_max_lookup, lookup_empty. simpl.
      setoid_rewrite elem_of_remove_dups. pose proof (sizes_of_nil k l) as Hnil.
      destruct (sizes_of k l) eqn:Es.
      + split; [done|]. intros (k' & [= <- _] & Hk). by apply Hnil in Hk.
      + split.
        * intros [= <-]. exists k. split; [done|].
          apply dec_stable. intros Hk. by apply Hnil in Hk.
        * by intros (k' & [= <- ->] & _). }
  rewrite Hperm. rewrite <-list_fmap_compose. done.
Qed.

Lemma foldr_add_perm (l1 l2 : list N) :
  l1 ≡ₚ l2 → foldr N.add 0%N l1 = foldr N.add 0%N l2.
Proof. induction 1; simpl; lia. Qed.

Lemma largest_size_le k l n :
  (largest_size k l ≤ n)%N ↔ ∀ d, d ∈ l → descriptor_key d = k → (sd_size d ≤ n)%N.
Proof.
  unfold largest_size, sizes_of. induction l as [|d l IH]; csimpl.
  { split; [set_solver|lia]. }
  rewrite filter_cons. setoid_rewrite elem_of_cons. case_decide as E; csimpl.
  - rewrite N.max_lub_iff, IH. naive_solver.
  - rewrite IH. naive_solver.
Qed.

Lemma largest_size_set k l1 l2 :
  (∀ d, d ∈ l1 ↔ d ∈ l2) → largest_size k l1 = largest_size k l2.
Proof.
  intros Hset. apply N.le_antisymm; apply largest_size_le; intros d Hd Hk;
    apply Hset in Hd; revert d Hd Hk; by apply largest_size_le.
Qed.

(** The stored size of a manifest is the (wrapped) sum, over the distinct
    digests it references, of the largest size each is described with; so it
    depends only on the set of descriptors, not on their order or repetition. *)
Theorem stored_size_correct :
  (∀ l, stored_size_from_descriptors l = U64.wrap (stored_size_spec l)) ∧
  (∀ l1 l2, (∀ d, d ∈ l1 ↔ d ∈ l2) →
     stored_size_from_descriptors l1 = stored_size_from_descriptors l2).
Proof.
  assert (∀ l, stored_size_from_descriptors l = U64.wrap (stored_size_spec l)) as Hspec.
  { intros l. unfold stored_size_from_descriptors. rewrite sum_u64_wrap. f_equal.
    apply foldr_add_perm, foldl_insert_max_values. }
  split; [done|]. intros l1 l2 Hset. rewrite !Hspec. f_equal. unfold stored_size_spec.
  erewrite list_fmap_ext; [|intros ? k ?; by apply largest_size_set].
  apply foldr_add_perm, fmap_Permutation, NoDup_Permutation; [apply NoDup_remove_dups..|].
  intros k. rewrite !elem_of_remove_dups, !list_elem_of_fmap. by setoid_rewrite Hset.
Qed.
End stored_size.

(** * Lemmas used by the state machine *)
Section referenced.
Context `{SerdeJson}.

Lemma descriptor_digest_wf v d : descriptor_digest v = Some d → digest_wf d.
Proof.
  unfold descriptor_digest. intros (? & ? & (? & ? & Hd)%bind_Some)%bind_Some.
  by apply from_str_checked_Some in Hd as [_ ?].
Qed.

Lemma extract_referenced_digests_wf v : Forall digest_wf (extract_referenced_digests v).
Proof.
  assert (∀ vs, Forall digest_wf (omap descriptor_digest vs)) as Hvs.
  { intros vs. apply Forall_forall. intros d (x & _ & Hx)%list_elem_of_omap.
    by eapply descriptor_digest_wf. }
  unfold extract_referenced_digests. rewrite !Forall_app. split; [|by split].
  destruct (_ ≫= _) as [d|] eqn:E; constructor; [|constructor].
  apply bind_Some in E as (? & _ & ?). by eapply descriptor_digest_wf.
Qed.
End referenced.

(** * A concrete JSON tree, on which the definitions run *)
Inductive JsonTree :=
  | JNull
  | JStr (s : string)
  | JNum (n : N)
  | JArr (l : list JsonTree)
  | JObj (fields : list (string * JsonTree)).

Fixpoint assoc_get {A} (k : string) (l : list (string * A)) : option A :=
  match l with
  | [] => None
  | (k', x) :: l' => if decide (k' = k) then Some x else assoc_get k l'
  end.

Definition json_tree (parse : list Byte.byte → option JsonTree) : SerdeJson := {|
  Value := JsonTree;
  from_slice := parse;
  json_null := JNull;
  json_get v k := match v with JObj fs => assoc_get k fs | _ => None end;
  json_as_str v := match v with JStr s => Some s | _ => None end;
  json_as_u64 v := match v with JNum n => Some n | _ => None end;
  json_as_array v := match v with JArr l => Some l | _ => None end;
  json_is_object v := match v with JObj _ => true | _ => false end;
  json_of_str := JStr;
  json_of_u64 := JNum;
  json_of_array := JArr;
  json_of_object := JObj;
|}.
