(* ===== verification/Handles.v ===== *)
(** Namespace handles and repository paths
    (crates/layerhouse-server/src/store/metadata/handle.rs): the validators the
    route layer and the apply layer share, and [handle_of]. *)

From Stdlib Require Import Ascii.
From stdpp Require Import options.
From S2P Require Import Prelude Errors.

(** * Operations *)

Definition HANDLE_MIN_LEN : nat := 3.
Definition HANDLE_MAX_LEN : nat := 39.
Definition RESERVED_HANDLES : list string := ["users"].

Definition is_handle_reserved (handle : string) : bool :=
  bool_decide (handle ∈ RESERVED_HANDLES).

(** The byte loop of [validate_handle]: [idx] is the position of the next byte
    and [len] the length of the whole handle. *)
Fixpoint validate_handle_bytes (s : string) (len idx : nat) (prev_dash : bool)
    (bytes : string) : result () :=
  match bytes with
  | EmptyString => Ok ()
  | String b bytes' =>
      let is_alnum := Str.is_ascii_lowercase b || Str.is_ascii_digit b in
      let is_dash := bool_decide (b = "-"%char) in
      if negb is_alnum && negb is_dash then
        Err (NameInvalid [Lit "handle "; Dbg s; Lit " contains illegal character "; Dbg (String b "")])
      else if bool_decide (idx = 0) && is_dash then
        Err (NameInvalid [Lit "handle "; Dbg s; Lit " cannot start with a dash"])
      else if bool_decide (idx = len - 1) && is_dash then
        Err (NameInvalid [Lit "handle "; Dbg s; Lit " cannot end with a dash"])
      else if is_dash && prev_dash then
        Err (NameInvalid [Lit "handle "; Dbg s; Lit " cannot contain consecutive dashes"])
      else validate_handle_bytes s len (S idx) is_dash bytes'
  end.

Definition validate_handle (s : string) : result () :=
  if bool_decide (String.length s < HANDLE_MIN_LEN) || bool_decide (HANDLE_MAX_LEN < String.length s)
  then Err (NameInvalid [Lit "handle "; Dbg s; Lit " has invalid length: must be ";
              Num (N.of_nat HANDLE_MIN_LEN); Lit "..="; Num (N.of_nat HANDLE_MAX_LEN); Lit " chars"])
  else validate_handle_bytes s (String.length s) 0 false s.

Definition segment_char (b : ascii) : bool :=
  Str.is_ascii_lowercase b || Str.is_ascii_digit b || bool_decide (b = "-"%char)
    || bool_decide (b = "_"%char) || bool_decide (b = "."%char).

Fixpoint validate_segment_bytes (seg bytes : string) : result () :=
  match bytes with
  | EmptyString => Ok ()
  | String b bytes' =>
      if negb (segment_char b) then
        Err (NameInvalid [Lit "repository path segment "; Dbg seg;
               Lit " contains illegal character "; Dbg (String b "")])
      else validate_segment_bytes seg bytes'
  end.

Definition validate_path_segment (seg : string) : result () :=
  if Str.is_empty seg then Err (NameInvalid [Lit "repository path contains an empty segment"])
  else validate_segment_bytes seg seg.

Fixpoint validate_path_segments (segs : list string) : result () :=
  match segs with
  | [] => Ok ()
  | seg :: segs' => _ ← validate_path_segment seg; validate_path_segments segs'
  end.

Definition validate_repository_path (s : string) : result () :=
  if Str.is_empty s then Err (NameInvalid [Lit "repository path is empty"])
  else if Str.starts_with "/" s || Str.ends_with "/" s then
    Err (NameInvalid [Lit "repository path "; Dbg s; Lit " cannot start or end with '/'"])
  else if Str.contains "//" s then
    Err (NameInvalid [Lit "repository path "; Dbg s; Lit " contains an empty segment"])
  else
    match Str.split "/" s with
    | [] => Panic
    | first :: segments =>
        _ ← validate_handle first;
        _ ← validate_path_segments segments;
        if bool_decide (segments = []) then
          Err (NameInvalid [Lit "repository path "; Dbg s;
                 Lit " requires at least two segments (<handle>/<name>)"])
        else Ok ()
    end.

Definition handle_of (repository : string) : result string :=
  '(head, rest) ← ok_or (NameInvalid [Lit "repository "; Dbg repository;
                           Lit " is missing a namespace handle prefix"])
                    (Str.split_once "/" repository);
  if Str.is_empty rest then
    Err (NameInvalid [Lit "repository "; Dbg repository;
           Lit " is missing the name segment after the handle"])
  else Ok head.

(** * Specification: the grammar the validators implement

    [[a-z0-9]+(-[a-z0-9]+)*], of 3 to 39 bytes: the pieces between dashes are
    non-empty and alphanumeric. *)
Definition alnum (a : ascii) : bool := Str.is_ascii_lowercase a || Str.is_ascii_digit a.
Definition handle_piece (p : string) : bool := negb (Str.is_empty p) && Str.all alnum p.
Definition handle_grammar (s : string) : Prop :=
  3 ≤ String.length s ≤ 39 ∧ Forall (λ p, handle_piece p = true) (Str.split "-" s).

Definition segment_grammar (seg : string) : Prop :=
  seg ≠ "" ∧ Str.all segment_char seg = true.

(** The regular expression of the module documentation, [[a-z0-9](?:-[a-z0-9])*]:
    an alphanumeric byte, then any number of dash-alphanumeric pairs. *)
Fixpoint doc_tail (s : string) : bool :=
  match s with
  | EmptyString => true
  | String d (String a s') => bool_decide (d = "-"%char) && alnum a && doc_tail s'
  | _ => false
  end.
Definition doc_regex (s : string) : bool :=
  match s with EmptyString => false | String a s' => alnum a && doc_tail s' end.

(** * Lemmas *)

Lemma alnum_not_dash a : alnum a = true → bool_decide (a = "-"%char) = false.
Proof. intros H. apply bool_decide_eq_false. by intros ->. Qed.

(** What the byte loop checks of a suffix: its bytes are alphanumeric or
    dashes, no two dashes touch, and it does not end with a dash. *)
Fixpoint suffix_ok (prev_dash : bool) (bytes : string) : bool :=
  match bytes with
  | EmptyString => negb prev_dash
  | String b bytes' =>
      if bool_decide (b = "-"%char) then negb prev_dash && suffix_ok true bytes'
      else alnum b && suffix_ok false bytes'
  end.

Lemma validate_handle_bytes_suffix s len idx prev bytes :
  0 < idx → idx + String.length bytes = len → bytes ≠ "" →
  validate_handle_bytes s len idx prev bytes = Ok () ↔ suffix_ok prev bytes = true.
Proof.
  intros Hidx Hlen Hne. revert idx prev Hidx Hlen Hne.
  induction bytes as [|b bytes IH]; intros idx prev Hidx Hlen Hne; [done|].
  simpl in *. fold (alnum b). rewrite (bool_decide_eq_false_2 (idx = 0)) by lia.
  destruct (decide (b = "-"%char)) as [->|Hb].
  - rewrite !bool_decide_eq_true_2 by done. simpl. rewrite andb_true_r.
    destruct bytes as [|c bytes].
    { rewrite bool_decide_eq_true_2 by (simpl in *; lia). by destruct prev. }
    rewrite (bool_decide_eq_false_2 (idx = len - 1)) by (simpl in *; lia).
    destruct prev; [done|]. simpl negb. rewrite andb_true_l.
    apply IH; [lia|simpl in *; lia|done].
  - rewrite !(bool_decide_eq_false_2 (b = "-"%char)) by done. simpl. rewrite !andb_false_r.
    destruct (alnum b); [|done]. simpl. destruct bytes as [|c bytes]; [done|].
    apply IH; [lia|simpl in *; lia|done].
Qed.

Lemma validate_handle_bytes_spec s :
  s ≠ "" → validate_handle_bytes s (String.length s) 0 false s = Ok () ↔ suffix_ok true s = true.
Proof.
  destruct s as [|b s]; [done|]. intros _. set (w := String b s). unfold w at 3 4.
  simpl. fold (alnum b). destruct (decide (b = "-"%char)) as [->|Hb]; [done|].
  rewrite !(bool_decide_eq_false_2 (b = "-"%char)) by done. simpl. rewrite !andb_false_r.
  destruct (alnum b); [|done]. simpl. destruct s as [|c s]; [done|].
  apply validate_handle_bytes_suffix; [lia|done|done].
Qed.

Lemma suffix_ok_split prev s :
  suffix_ok prev s = true ↔
    (match Str.split "-" s with
     | p :: ps => (prev = false ∨ p ≠ "") ∧ Str.all alnum p = true
                    ∧ Forall (λ p, handle_piece p = true) ps
     | [] => False
     end).
Proof.
  revert prev. induction s as [|b s IH]; intros prev; simpl.
  { destruct prev; simpl; (split; [try done|]); [by intros ([?|?] & _)|auto|done]. }
  pose proof (split_nonempty "-" s) as Hne.
  case_decide as Hb; [subst; rewrite bool_decide_eq_true_2 by done
                     |rewrite bool_decide_eq_false_2 by done].
  - rewrite andb_true_iff, negb_true_iff, IH.
    destruct (Str.split "-" s) as [|p ps]; [done|]. rewrite Forall_cons.
    unfold handle_piece at 2. rewrite andb_true_iff, negb_true_iff. simpl.
    split.
    + intros (-> & [?|?] & ? & ?); [done|]. split; [by left|]. repeat split; try done.
      by destruct p.
    + intros ([?|?] & _ & [? ?] & ?); [|done]. repeat split; try done. right. by destruct p.
  - rewrite andb_true_iff, IH. destruct (Str.split "-" s) as [|p ps]; [done|]. simpl.
    rewrite andb_true_iff. naive_solver.
Qed.

Lemma handle_grammar_split s :
  Forall (λ p, handle_piece p = true) (Str.split "-" s) ↔ suffix_ok true s = true.
Proof.
  rewrite suffix_ok_split. destruct (Str.split "-" s) as [|p ps] eqn:E.
  { by destruct (split_nonempty "-" s). }
  rewrite Forall_cons. unfold handle_piece at 1. rewrite andb_true_iff, negb_true_iff.
  destruct p; simpl; naive_solver.
Qed.

Lemma validate_handle_ok s : validate_handle s = Ok () ↔ handle_grammar s.
Proof.
  unfold validate_handle, handle_grammar, HANDLE_MIN_LEN, HANDLE_MAX_LEN.
  rewrite handle_grammar_split.
  do 2 case_bool_decide; simpl; try (split; [done|lia]).
  rewrite validate_handle_bytes_spec by (intros ->; simpl in *; lia). split; [|naive_solver].
  intros. split; [lia|done].
Qed.

Lemma validate_handle_no_panic s : validate_handle s ≠ Panic.
Proof.
  unfold validate_handle. case_match; [done|].
  generalize (String.length s) at 1; generalize 0; generalize false; generalize s at 2.
  induction s0 as [|b s' IH]; intros prev idx len; [done|]. simpl.
  by repeat (case_match; try done).
Qed.

Lemma validate_segment_bytes_ok seg bytes :
  validate_segment_bytes seg bytes = Ok () ↔ Str.all segment_char bytes = true.
Proof.
  induction bytes as [|b bytes IH]; [done|]. simpl. by destruct (segment_char b).
Qed.

Lemma validate_path_segment_ok seg :
  validate_path_segment seg = Ok () ↔ segment_grammar seg.
Proof.
  unfold validate_path_segment, segment_grammar. destruct seg as [|a seg]; [naive_solver|].
  cbn [Str.is_empty]. rewrite validate_segment_bytes_ok. naive_solver.
Qed.

Lemma validate_path_segments_ok segs :
  validate_path_segments segs = Ok () ↔ Forall segment_grammar segs.
Proof.
  induction segs as [|seg segs IH]; simpl; [split; constructor|].
  rewrite Forall_cons, <-IH, <-validate_path_segment_ok, result_bind_Ok.
  split; [by intros ([] & ? & ?)|]. intros [? ?]. by exists ().
Qed.

Lemma handle_of_Ok repository h :
  handle_of repository = Ok h ↔
    ∃ rest, repository = h +:+ "/" +:+ rest ∧ rest ≠ "" ∧ Str.contains_char "/" h = false.
Proof.
  unfold handle_of. rewrite result_bind_Ok. setoid_rewrite ok_or_Ok. split.
  - intros ([x y] & Hs & Hy). apply split_once_Some in Hs as [-> Hx].
    exists y. destruct y; naive_solver.
  - intros (rest & -> & Hr & Hh). exists (h, rest). rewrite split_once_Some.
    destruct rest; naive_solver.
Qed.

Lemma handle_of_no_panic repository : handle_of repository ≠ Panic.
Proof. unfold handle_of. destruct (Str.split_once _ _) as [[x y]|]; [|done]. by destruct y. Qed.

(** The handle of a repository is a proper path prefix of its name. *)
Lemma handle_of_prefix repository h :
  handle_of repository = Ok h → Str.starts_with (h +:+ "/") repository = true.
Proof.
  intros (rest & -> & _)%handle_of_Ok. rewrite <-app_assoc_str. apply starts_with_app.
Qed.

(** The first piece of a split path with a non-empty second piece is its handle. *)
Lemma split_handle_of s h segs :
  Str.split "/" s = h :: segs → segs ≠ [] → Forall segment_grammar segs → handle_of s = Ok h.
Proof.
  intros Es Hne Hsegs. apply handle_of_Ok. destruct segs as [|g segs]; [done|].
  assert (Str.contains_char "/" h = false) as Hh
    by (apply (split_no_sep_pieces _ s); rewrite Es; by left).
  pose proof (join_split "/" s) as Hj. rewrite Es, join_cons in Hj.
  exists (Str.join "/" (g :: segs)). split; [done|]. split; [|done].
  apply Forall_cons in Hsegs as [[Hg _] _]. destruct g; [done|]. by destruct segs.
Qed.

(** * Properties *)

(** [Validate_handle] accepts exactly the strings of 3 to 39 bytes that are
    dash-separated non-empty runs of lowercase letters and digits, and rejects
    every other string with [NameInvalid]. *)
Theorem validate_handle_grammar (s : string) :
  (validate_handle s = Ok () ↔ handle_grammar s) ∧
  (¬ handle_grammar s → ∃ m, validate_handle s = Err (NameInvalid m)).
Proof.
  split; [apply validate_handle_ok|]. rewrite <-validate_handle_ok. intros Hne.
  assert (∀ len idx prev bytes, validate_handle_bytes s len idx prev bytes = Ok () ∨
    ∃ m, validate_handle_bytes s len idx prev bytes = Err (NameInvalid m)) as Hb.
  { intros len idx prev bytes. revert idx prev.
    induction bytes as [|b bytes IH]; intros idx prev; simpl; [by left|].
    repeat case_match; eauto. }
  unfold validate_handle in *. case_match; [by eexists|].
  destruct (Hb (String.length s) 0 false s) as [?|?]; done.
Qed.

(** The grammar in the module documentation is not the one the code
    implements: ["alice"] is accepted but does not match the documented regular
    expression, which allows no two adjacent alphanumeric bytes. *)
Theorem handle_doc_regex_divergence :
  validate_handle "alice" = Ok () ∧ doc_regex "alice" = false.
Proof. split; vm_compute; reflexivity. Qed.

(** [Validate_repository_path] accepts exactly the paths whose first
    segment is a valid handle, followed by at least one further segment, all of
    them non-empty and made of path characters; and every accepted path has a
    handle, its first segment, so later lookups by handle cannot fail. *)
Theorem validate_repository_path_grammar (s : string) :
  validate_repository_path s = Ok () ↔
    ∃ h segs, Str.split "/" s = h :: segs ∧ segs ≠ [] ∧ handle_grammar h
      ∧ Forall segment_grammar segs ∧ handle_of s = Ok h.
Proof.
  unfold validate_repository_path. split.
  - do 3 (case_match; [done|]). destruct (Str.split "/" s) as [|h segs] eqn:Es; [done|].
    intros ([] & Hh & ([] & Hsegs & Hne)%result_bind_Ok)%result_bind_Ok.
    case_bool_decide as Hnil; [done|]. exists h, segs.
    apply validate_handle_ok in Hh. apply validate_path_segments_ok in Hsegs.
    repeat split; try done; [apply Hh..|]. by apply (split_handle_of _ _ segs).
  - intros (h & segs & Es & Hne & Hh & Hsegs & _).
    assert ("" ∉ Str.split "/" s) as Hpieces.
    { rewrite Es, not_elem_of_cons. split; [by intros <-; destruct Hh; simpl in *; lia|].
      intros Hin. rewrite Forall_forall in Hsegs. by apply Hsegs in Hin as []. }
    destruct (split_pieces_nonempty _ _ Hpieces) as (-> & -> & ->).
    destruct (Str.is_empty s) eqn:Ee; [by destruct s; simplify_eq/=|]. simpl. rewrite Es.
    rewrite (proj2 (validate_handle_ok h)) by done. simpl.
    rewrite (proj2 (validate_path_segments_ok segs)) by done. simpl.
    by rewrite bool_decide_eq_false_2.
Qed.
