(* ===== verification/Permissions.v ===== *)
(** Repository actions, OCI scopes and personal namespaces
    (crates/layerhouse-server/src/auth/permissions.rs). *)

From Stdlib Require Import Ascii.
From stdpp Require Import options.
From S2P Require Import Prelude Errors.

(** * Data and operations *)

(** HTTP methods the code distinguishes. *)
Inductive Method := GET | HEAD | POST | PUT | PATCH | DELETE | OtherMethod.
#[global] Instance Method_eq_dec : EqDecision Method.
Proof. solve_decision. Defined.

Inductive GrantSource := SrcPersonal | SrcGroupGrant | SrcPublic.
Inductive RepoKind := Image | Helm | Wasm | Artifact | UnknownKind.

Inductive OciAction := Pull | Create | Update | Delete | Admin.

#[global] Instance OciAction_eq_dec : EqDecision OciAction.
Proof. solve_decision. Defined.

Definition from_method (method : Method) : OciAction :=
  match method with
  | GET | HEAD => Pull
  | DELETE => Delete
  | _ => Create
  end.

Definition scope_token (a : OciAction) : string :=
  match a with
  | Pull => "pull" | Create => "create" | Update => "update" | Delete => "delete"
  | Admin => "admin"
  end.

Definition parse_action_token (token : string) : option OciAction :=
  let t := Str.trim token in
  if bool_decide (t = "*") || bool_decide (t = "delete") then Some Delete
  else if bool_decide (t = "push") || bool_decide (t = "update") then Some Update
  else if bool_decide (t = "create") then Some Create
  else if bool_decide (t = "pull") then Some Pull
  else None.

Definition action_rank (a : OciAction) : nat :=
  match a with Pull => 0 | Create => 1 | Update => 2 | Delete => 3 | Admin => 4 end.

(** [Iterator::max_by_key(action_rank)]: the last of the maximal elements. *)
Definition max_by_rank (l : list OciAction) : option OciAction :=
  foldl (λ acc a, match acc with
                  | Some b => if bool_decide (action_rank a < action_rank b) then Some b else Some a
                  | None => Some a
                  end) None l.

Definition parse_scope (scope : string) : option (string * OciAction) :=
  let parts := Str.splitn 4 ":" scope in
  if bool_decide (length parts < 3) || negb (bool_decide (head parts = Some "repository")) then None
  else
    let repo := Str.join ":" (take (length parts - 2) (drop 1 parts)) in
    action_str ← last parts;
    action ← max_by_rank (omap parse_action_token (Str.split "," action_str));
    Some (repo, action).

Definition match_repository (pattern repo : string) : bool :=
  if bool_decide (pattern = "*") then true
  else match Str.strip_suffix "/*" pattern with
       | Some prefix => bool_decide (repo = prefix) || Str.starts_with (prefix +:+ "/") repo
       | None => bool_decide (pattern = repo)
       end.

Definition action_matches (allowed requested : OciAction) : bool :=
  if bool_decide (allowed = Admin) || bool_decide (requested = Admin)
  then bool_decide (allowed = requested)
  else bool_decide (action_rank requested ≤ action_rank allowed).

Definition is_repository_action (a : OciAction) : bool := negb (bool_decide (a = Admin)).

(** [find_map]. *)
Fixpoint matching_scope (scopes : list string) (repository : string) (action : OciAction)
    : option (string * OciAction) :=
  match scopes with
  | [] => None
  | scope :: scopes' =>
      match parse_scope scope with
      | Some (repo_pattern, allowed_action) =>
          if match_repository repo_pattern repository && action_matches allowed_action action
          then Some (repo_pattern, allowed_action)
          else matching_scope scopes' repository action
      | None => matching_scope scopes' repository action
      end
  end.

(** [username.filter(|u| !u.is_empty())]. *)
Definition nonempty_username (username : option string) : option string :=
  u ← username; if Str.is_empty u then None else Some u.

Definition in_personal_namespace (username : option string) (repository : string) : bool :=
  match nonempty_username username with
  | None => false
  | Some u => Str.starts_with ("users/" +:+ u +:+ "/") repository
  end.

Definition in_personal_namespace_of (repository : string) : option string :=
  rest ← Str.strip_prefix "users/" repository;
  username ← head (Str.split "/" rest);
  if Str.is_empty username then None else Some username.

Definition pat_scope_allowed_for_identity (scope : string) (username : option string) : result () :=
  match parse_scope scope with
  | None => Ok ()
  | Some (repo_pattern, _) =>
      let repo_pattern := default repo_pattern (Str.strip_suffix "/*" repo_pattern) in
      match in_personal_namespace_of repo_pattern with
      | None => Ok ()
      | Some target_user =>
          match nonempty_username username with
          | None => Err (Denied [Lit "scope "; Dbg scope;
                       Lit " targets a personal namespace but your session has no username"])
          | Some my_username =>
              if negb (bool_decide (target_user = my_username)) then
                Err (Denied [Lit "scope "; Dbg scope; Lit " targets another user's personal namespace"])
              else Ok ()
          end
      end
  end.

(** The derived [Ord] of [(String, OciAction)]. *)
Definition pattern_le (x y : string * OciAction) : Prop :=
  (x.1 ≠ y.1 ∧ String.le x.1 y.1) ∨ (x.1 = y.1 ∧ action_rank x.2 ≤ action_rank y.2).
#[global] Instance pattern_le_dec : RelDecision pattern_le.
Proof. intros x y. unfold pattern_le. apply _. Defined.

Definition derive_namespace_patterns (scopes : list string) (search_prefix : string)
    : list (string * OciAction) :=
  let patterns := omap (λ scope,
    '(repo_pattern, action) ← parse_scope scope;
    prefix ← Str.strip_suffix "/*" repo_pattern;
    if negb (Str.is_empty prefix) && negb (bool_decide (prefix = "*"))
       && (Str.is_empty search_prefix || Str.starts_with search_prefix prefix)
    then Some ("repository:" +:+ prefix +:+ "/*", action) else None) scopes in
  dedup_by (λ x y, bool_decide (x = y)) (merge_sort pattern_le patterns).

(** * Specification *)

(** The ladder [Pull < Create < Update < Delete], with [Admin] apart. *)
Inductive covers : OciAction → OciAction → Prop :=
  | covers_refl a : covers a a
  | covers_create : covers Create Pull
  | covers_update : covers Update Create
  | covers_delete : covers Delete Update
  | covers_trans a b c : covers a b → covers b c → covers a c.

(** The repositories a pattern stands for: everything, a subtree, or one name. *)
Inductive pattern_covers : string → string → Prop :=
  | covers_all repo : pattern_covers "*" repo
  | covers_root p : pattern_covers (p +:+ "/*") p
  | covers_below p r : pattern_covers (p +:+ "/*") (p +:+ "/" +:+ r)
  | covers_exact p : pattern_covers p p.

(** A scope whose pattern is [p] covers a request. *)
Definition scope_covers (p scope repo : string) (action : OciAction) : Prop :=
  ∃ a, parse_scope scope = Some (p, a) ∧ pattern_covers p repo ∧ covers a action.

(** The first scope of a token that covers a request has the pattern [p]. *)
Definition first_scope (scopes : list string) (repo : string) (action : OciAction) (p : string) : Prop :=
  ∃ before scope after, scopes = before ++ scope :: after ∧ scope_covers p scope repo action ∧
    ∀ s q, s ∈ before → ¬ scope_covers q s repo action.

(** * Lemmas *)

Lemma action_matches_iff a b :
  action_matches a b = true ↔ (a = Admin ∧ b = Admin) ∨
    (a ≠ Admin ∧ b ≠ Admin ∧ action_rank b ≤ action_rank a).
Proof. destruct a, b; vm_compute; intuition (discriminate || lia || auto). Qed.

Lemma covers_matches a b : covers a b → action_matches a b = true.
Proof.
  induction 1 as [[]| | | |a b c _ H1 _ H2]; try done.
  apply action_matches_iff in H1, H2. apply action_matches_iff. intuition (congruence || lia).
Qed.

Lemma max_by_rank_elem l a : max_by_rank l = Some a → a ∈ l.
Proof.
  unfold max_by_rank.
  assert (∀ acc, foldl (λ acc a, match acc with
      | Some b => if bool_decide (action_rank a < action_rank b) then Some b else Some a
      | None => Some a end) acc l = Some a → acc = Some a ∨ a ∈ l) as H.
  { induction l as [|x l IH]; intros acc; simpl; [auto|]. intros [Hx|?]%IH; [|set_solver].
    destruct acc; [|set_solver]. case_bool_decide; set_solver. }
  intros [?|?]%H; done.
Qed.

Lemma parse_action_token_not_admin t : parse_action_token t ≠ Some Admin.
Proof. unfold parse_action_token. by repeat case_match. Qed.

Lemma parse_scope_not_admin s p : parse_scope s ≠ Some (p, Admin).
Proof.
  unfold parse_scope. case_match; [done|].
  intros (str & _ & (a & Ha & [= _ ->])%bind_Some)%bind_Some.
  apply max_by_rank_elem, list_elem_of_omap in Ha as (t & _ & Ht).
  by apply parse_action_token_not_admin in Ht.
Qed.

Lemma match_repository_iff pattern repo :
  match_repository pattern repo = true ↔
    pattern = "*" ∨ pattern = repo ∧ Str.strip_suffix "/*" pattern = None ∨
    ∃ p, pattern = p +:+ "/*" ∧ (repo = p ∨ ∃ r, repo = p +:+ "/" +:+ r).
Proof.
  unfold match_repository. case_bool_decide as Hstar; [naive_solver|].
  destruct (Str.strip_suffix "/*" pattern) as [p|] eqn:E.
  - apply strip_suffix_Some in E as ->.
    rewrite orb_true_iff, bool_decide_eq_true, starts_with_true. split.
    + intros [->|[r ->]]; right; right; exists p; (split; [done|]); [by left|].
      right. exists r. by rewrite app_assoc_str.
    + intros [?|[[_ ?]|(p' & Hp & H)]]; [done..|].
      assert (p = p') as <-.
      { apply (f_equal (Str.strip_suffix "/*")) in Hp.
        rewrite !(proj2 (strip_suffix_Some "/*" _ _) eq_refl) in Hp. by simplify_eq. }
      destruct H as [->|[r ->]]; [by left|right]. exists r. by rewrite app_assoc_str.
  - rewrite bool_decide_eq_true. split; [auto|].
    intros [?|[[? _]|(p & -> & _)]]; [done..|].
    by rewrite (proj2 (strip_suffix_Some "/*" _ p) eq_refl) in E.
Qed.

#[local] Hint Constructors covers pattern_covers : lh.

Lemma matches_covers a b : action_matches a b = true → covers a b.
Proof.
  assert (covers Update Pull) by eauto with lh.
  assert (covers Delete Create) by eauto with lh.
  assert (covers Delete Pull) by eauto with lh.
  destruct a, b; intros E; try discriminate E; eauto with lh.
Qed.

Lemma match_repository_covers pattern repo :
  match_repository pattern repo = true ↔ pattern_covers pattern repo.
Proof.
  rewrite match_repository_iff. split.
  - intros [->|[[-> _]|(p & -> & [->|[r ->]])]]; auto with lh.
  - destruct 1 as [repo|p|p r|p]; [by left|right; right; eauto..|].
    destruct (Str.strip_suffix "/*" p) as [q|] eqn:E; [|auto].
    apply strip_suffix_Some in E as ->. right; right. exists q. split; [done|].
    right. by exists "*".
Qed.

Lemma matching_scope_Some scopes repo action p a :
  matching_scope scopes repo action = Some (p, a) →
  ∃ scope, scope ∈ scopes ∧ parse_scope scope = Some (p, a) ∧
    match_repository p repo = true ∧ action_matches a action = true.
Proof.
  induction scopes as [|s scopes IH]; [done|]. simpl.
  destruct (parse_scope s) as [[p' a']|] eqn:E.
  - destruct (_ && _) eqn:Hm.
    + intros [= -> ->]. apply andb_true_iff in Hm as [??]. exists s. set_solver.
    + intros (scope & ? & ?)%IH. exists scope. set_solver.
  - intros (scope & ? & ?)%IH. exists scope. set_solver.
Qed.

Lemma matching_scope_None scopes repo action scope p a :
  matching_scope scopes repo action = None → scope ∈ scopes → parse_scope scope = Some (p, a) →
  match_repository p repo && action_matches a action = false.
Proof.
  induction scopes as [|s scopes IH]; [set_solver|]. simpl. intros Hn Hin Hp.
  destruct (parse_scope s) as [[p' a']|] eqn:E.
  - destruct (match_repository p' repo && action_matches a' action) eqn:Hm; [done|].
    apply elem_of_cons in Hin as [->|Hin]; [|by apply IH]. by rewrite Hp in E; simplify_eq.
  - apply elem_of_cons in Hin as [->|Hin]; [by rewrite Hp in E|by apply IH].
Qed.

Lemma scope_covers_iff s p a repo action :
  parse_scope s = Some (p, a) →
  (match_repository p repo && action_matches a action = true ↔ scope_covers p s repo action).
Proof.
  intros Hp. rewrite andb_true_iff, match_repository_covers. split.
  - intros [? ?%matches_covers]. by exists a.
  - intros (a' & Ha & ? & ?%covers_matches). by simplify_eq.
Qed.

Lemma matching_scope_first scopes repo action p :
  (∃ a, matching_scope scopes repo action = Some (p, a)) ↔ first_scope scopes repo action p.
Proof.
  split.
  - induction scopes as [|s scopes IH]; [by intros [? ?]|]. simpl. intros [a H].
    assert (first_scope scopes repo action p → (∀ q, ¬ scope_covers q s repo action) →
            first_scope (s :: scopes) repo action p) as Hskip.
    { intros (pre & x & post & -> & Hc & Hpre) Hs. exists (s :: pre), x, post. split; [done|].
      split; [done|]. intros y q [->|Hy]%elem_of_cons; [apply Hs|by apply Hpre]. }
    destruct (parse_scope s) as [[p' a']|] eqn:E.
    + destruct (_ && _) eqn:Hm.
      * simplify_eq. apply (scope_covers_iff _ _ _ _ _ E) in Hm. exists [], s, scopes. set_solver.
      * apply Hskip; [by eauto|]. intros q Hq. pose proof Hq as (b & Hb & _).
        rewrite E in Hb. simplify_eq. apply (scope_covers_iff _ _ _ _ _ E) in Hq. congruence.
    + apply Hskip; [by eauto|]. intros q (b & Hb & _). congruence.
  - intros (pre & x & post & -> & Hc & Hpre). induction pre as [|s pre IH]; simpl.
    + pose proof Hc as (a & Ha & _). rewrite Ha.
      apply (scope_covers_iff _ _ _ _ _ Ha) in Hc as ->. by exists a.
    + destruct (parse_scope s) as [[q b]|] eqn:E; [|apply IH; set_solver].
      destruct (_ && _) eqn:Hm; [|apply IH; set_solver].
      apply (scope_covers_iff _ _ _ _ _ E) in Hm. destruct (Hpre s q); [set_solver|done].
Qed.

(** A personal path [users/v/x] below a subtree [p] names [p] by its segments. *)
Lemma personal_prefix p v x r :
  Str.contains_char "/" v = false → v ≠ "" →
  "users/" +:+ v +:+ "/" +:+ x = p +:+ "/" +:+ r →
  p = "users" ∨ ∃ q, p = "users/" +:+ v +:+ q ∧ (q = "" ∨ ∃ q', q = "/" +:+ q').
Proof.
  intros Hv Hne Heq.
  assert (Str.split "/" p ++ Str.split "/" r = "users" :: v :: Str.split "/" x) as Hs.
  { rewrite <-(split_app_gen "/" p r).
    transitivity (Str.split "/" ("users/" +:+ v +:+ "/" +:+ x)); [by rewrite Heq|].
    etrans; [apply (split_app "/" "users" (v +:+ "/" +:+ x)); done|].
    f_equal. by apply (split_app "/" v x). }
  pose proof (join_split "/" p) as Hp. pose proof (split_nonempty "/" p) as Hn.
  destruct (Str.split "/" p) as [|a [|b l]]; [done|..]; simpl in Hs; simplify_eq/=.
  - by left.
  - right. destruct l as [|c l].
    + exists "". split; [by rewrite app_nil_r_str|by left].
    + exists ("/" +:+ Str.join "/" (c :: l)). split; [done|]. right. by eexists.
Qed.

Lemma in_personal_namespace_of_prefix v q :
  Str.contains_char "/" v = false → v ≠ "" → (q = "" ∨ ∃ q', q = "/" +:+ q') →
  in_personal_namespace_of ("users/" +:+ v +:+ q) = Some v.
Proof.
  intros Hv Hne Hq. unfold in_personal_namespace_of. rewrite strip_prefix_app. simpl.
  assert (head (Str.split "/" (v +:+ q)) = Some v) as ->.
  { destruct Hq as [->|[q' ->]].
    - rewrite app_nil_r_str. by rewrite split_no_sep.
    - exact (f_equal head (split_app "/" v q' Hv)). }
  simpl. by destruct v.
Qed.

(** * Properties *)

(** Scope matching is exactly the documented authorisation: some scope
    matches a request iff one of the token's scopes parses to a pattern covering
    the repository and an action at or above the requested one on the ladder
    [Pull < Create < Update < Delete]; and no scope ever authorises the
    control-plane action [Admin]. *)
Theorem scope_authorization (scopes : list string) (repo : string) (action : OciAction) :
  ((∃ p a, matching_scope scopes repo action = Some (p, a)) ↔
   ∃ scope p a, scope ∈ scopes ∧ parse_scope scope = Some (p, a) ∧
     pattern_covers p repo ∧ covers a action) ∧
  matching_scope scopes repo Admin = None.
Proof.
  split; [split|].
  - intros (p & a & (scope & ? & ? & ? & ?)%matching_scope_Some). exists scope, p, a.
    rewrite <-match_repository_covers. auto using matches_covers.
  - intros (scope & p & a & Hin & Hp & Hr%match_repository_covers & Ha%covers_matches).
    destruct (matching_scope scopes repo action) as [[p' a']|] eqn:E; [by eauto|].
    pose proof (matching_scope_None _ _ _ _ _ _ E Hin Hp) as Hf. by rewrite Hr, Ha in Hf.
  - destruct (matching_scope scopes repo Admin) as [[p a]|] eqn:E; [|done].
    apply matching_scope_Some in E as (scope & _ & Hp & _ & [[-> _]|(_ & ? & _)]%action_matches_iff);
      [|done]. by apply parse_scope_not_admin in Hp.
Qed.

(** A PAT scope accepted for a user reaches into no other user's personal
    namespace, unless its pattern is one of the two that stand for all of them,
    [*] and [users/*]. *)
Theorem pat_scope_personal (scope me pattern v x : string) (a : OciAction)
  (Hok : pat_scope_allowed_for_identity scope (Some me) = Ok ())
  (Hparse : parse_scope scope = Some (pattern, a))
  (Hstar : pattern ≠ "*") (Husers : pattern ≠ "users/*")
  (Hv : Str.contains_char "/" v = false) (Hne : v ≠ "")
  (Hmatch : match_repository pattern ("users/" +:+ v +:+ "/" +:+ x) = true) :
  v = me.
Proof.
  unfold pat_scope_allowed_for_identity in Hok. rewrite Hparse in Hok.
  assert (∃ q, default pattern (Str.strip_suffix "/*" pattern) = "users/" +:+ v +:+ q ∧
    (q = "" ∨ ∃ q', q = "/" +:+ q')) as (q & Hq & Hq').
  { apply match_repository_iff in Hmatch as [?|[[-> ->]|(p & -> & Hp)]]; [done|..].
    - exists ("/" +:+ x). split; [done|]. right. by eexists.
    - rewrite (proj2 (strip_suffix_Some "/*" _ p) eq_refl). simpl.
      destruct Hp as [<-|[r Hr]].
      + exists ("/" +:+ x). split; [done|]. right. by eexists.
      + by destruct (personal_prefix p v x r Hv Hne Hr) as [->|?]. }
  rewrite Hq, in_personal_namespace_of_prefix in Hok by done.
  destruct (nonempty_username (Some me)) as [u|] eqn:Eu; [|done].
  unfold nonempty_username in Eu. simpl in Eu. destruct (Str.is_empty me); simplify_eq.
  by case_bool_decide.
Qed.

Lemma pat_scope_personal_witness :
  pat_scope_allowed_for_identity "repository:users/bob/*:pull,push" (Some "bob") = Ok () ∧
  match_repository "users/bob/*" ("users/" +:+ "bob" +:+ "/" +:+ "app") = true ∧ "bob" = "bob".
Proof.
  split; [vm_compute; reflexivity|]. split; [vm_compute; reflexivity|].
  apply (pat_scope_personal "repository:users/bob/*:pull,push" "bob" "users/bob/*" "bob" "app" Update);
    first [vm_compute; reflexivity | vm_compute; discriminate].
Defined.

(** The two wildcard patterns are accepted for every user although they
    cover other users' personal namespaces, which the function's documentation
    says it rejects. *)
Theorem pat_scope_wildcard_gap :
  pat_scope_allowed_for_identity "repository:users/*:delete" (Some "mallory") = Ok () ∧
  matching_scope ["repository:users/*:delete"] "users/alice/app" Delete = Some ("users/*", Delete).
Proof. split; vm_compute; reflexivity. Qed.
