(* ===== verification/Principals.v ===== *)
(** Provider-qualified principal identifiers
    (crates/layerhouse-server/src/auth/principal.rs): the [provider:kind:id]
    syntax, percent-escaping of the local id, and the principal references that
    namespace grants are keyed by. *)

From Stdlib Require Import Ascii.
From stdpp Require Import options.
From S2P Require Import Prelude Errors.

(** * UTF-8 validity, as [String::from_utf8] checks it *)

Definition cont (a : ascii) : bool := Str.in_range "128" "191" a.
Fixpoint utf8_valid (s : string) : bool :=
  match s with
  | EmptyString => true
  | String a s1 =>
      if Str.in_range "000" "127" a then utf8_valid s1
      else match s1 with
      | String b s2 =>
          if Str.in_range "194" "223" a then cont b && utf8_valid s2
          else match s2 with
          | String c s3 =>
              if bool_decide (a = "224"%char) then Str.in_range "160" "191" b && cont c && utf8_valid s3
              else if bool_decide (a = "237"%char) then Str.in_range "128" "159" b && cont c && utf8_valid s3
              else if Str.in_range "225" "239" a then cont b && cont c && utf8_valid s3
              else match s3 with
              | String d s4 =>
                  if bool_decide (a = "240"%char) then Str.in_range "144" "191" b && cont c && cont d && utf8_valid s4
                  else if Str.in_range "241" "243" a then cont b && cont c && cont d && utf8_valid s4
                  else if bool_decide (a = "244"%char) then Str.in_range "128" "143" b && cont c && cont d && utf8_valid s4
                  else false
              | EmptyString => false
              end
          | EmptyString => false
          end
      | EmptyString => false
      end
  end.

(** * Data *)

Inductive PrincipalKind := KUser | KGroup.

#[global] Instance PrincipalKind_eq_dec : EqDecision PrincipalKind.
Proof. solve_decision. Defined.

Definition kind_as_str (k : PrincipalKind) : string :=
  match k with KUser => "user" | KGroup => "group" end.

Definition kind_from_str (value : string) : result PrincipalKind :=
  if bool_decide (value = "user") then Ok KUser
  else if bool_decide (value = "group") then Ok KGroup
  else Err (NameInvalid [Lit "invalid principal kind "; Dbg value]).

(** [ProviderId], [PrincipalLocalId] and [ProviderQualifiedId] are newtypes over
    [String]; their constructors are the functions below. *)
Abbreviation ProviderQualifiedId := string (only parsing).

Definition provider_tail_char (ch : ascii) : bool :=
  Str.is_ascii_lowercase ch || Str.is_ascii_digit ch || bool_decide (ch = "_"%char)
    || bool_decide (ch = "-"%char).

Definition ProviderId_new (value : string) : result string :=
  let value := Str.trim value in
  if Str.is_empty value then
    Err (NameInvalid [Lit "principal provider must not be empty"])
  else if bool_decide (64 < String.length value) then
    Err (NameInvalid [Lit "principal provider must be at most 64 characters: "; Dbg value])
  else
    match value with
    | EmptyString => Err (NameInvalid [Lit "principal provider must not be empty"])
    | String first chars =>
        if negb (Str.is_ascii_lowercase first) then
          Err (NameInvalid [Lit "principal provider must start with a lowercase ASCII letter: "; Dbg value])
        else if negb (Str.all provider_tail_char chars) then
          Err (NameInvalid [Lit "principal provider contains invalid characters: "; Dbg value])
        else Ok value
    end.

Definition PrincipalLocalId_new (value : string) : result string :=
  if Str.is_empty value then Err (NameInvalid [Lit "principal id must not be empty"]) else Ok value.

(** * Escaping of local ids *)

Definition unreserved (b : ascii) : bool :=
  Str.is_ascii_alphanumeric b || bool_decide (b = "."%char) || bool_decide (b = "_"%char)
    || bool_decide (b = "-"%char) || bool_decide (b = "~"%char).

(** [HEX[i]] of [b"0123456789ABCDEF"]. *)
Definition hex_digit (i : N) : ascii :=
  if bool_decide (i < 10)%N then ascii_of_N (48 + i) else ascii_of_N (55 + i).

Fixpoint escape_local_id (value : string) : string :=
  match value with
  | EmptyString => ""
  | String b value' =>
      if unreserved b then String b (escape_local_id value')
      else String "%" (String (hex_digit (N.shiftr (N_of_ascii b) 4))
             (String (hex_digit (N.land (N_of_ascii b) 15)) (escape_local_id value')))
  end.

Definition hex_value (b : ascii) : option N :=
  if Str.in_range "0" "9" b then Some (N_of_ascii b - 48)%N
  else if Str.in_range "a" "f" b then Some (N_of_ascii b - 97 + 10)%N
  else if Str.in_range "A" "F" b then Some (N_of_ascii b - 65 + 10)%N
  else None.

(** The decoding loop; [whole] is the escaped string, for messages. *)
Fixpoint unescape_bytes (whole bytes : string) : result string :=
  match bytes with
  | EmptyString => Ok ""
  | String b bytes' =>
      if negb (bool_decide (b = "%"%char)) then String b <$> unescape_bytes whole bytes'
      else match bytes' with
      | String h (String l bytes'') =>
          high ← ok_or (NameInvalid [Lit "principal id contains invalid escape: "; Dbg whole]) (hex_value h);
          low ← ok_or (NameInvalid [Lit "principal id contains invalid escape: "; Dbg whole]) (hex_value l);
          String (ascii_of_N (N.lor (N.shiftl high 4) low)) <$> unescape_bytes whole bytes''
      | _ => Err (NameInvalid [Lit "principal id contains truncated escape: "; Dbg whole])
      end
  end.

(** The text of the UTF-8 decoder's own error is left out of the message. *)
Definition unescape_local_id (value : string) : result string :=
  decoded ← unescape_bytes value value;
  if utf8_valid decoded then Ok decoded
  else Err (NameInvalid [Lit "principal id is not valid UTF-8: "]).

(** * Provider-qualified ids *)

Definition qualified (provider : string) (kind : PrincipalKind) (id : string) : string :=
  provider +:+ ":" +:+ kind_as_str kind +:+ ":" +:+ escape_local_id id.

Definition ProviderQualifiedId_new (provider : string) (kind : PrincipalKind) (id : string)
    : result ProviderQualifiedId :=
  provider ← ProviderId_new provider;
  id ← PrincipalLocalId_new id;
  Ok (qualified provider kind id).

Definition ProviderQualifiedId_parse (value : string) : result ProviderQualifiedId :=
  let value := Str.trim value in
  match Str.split ":" value with
  | [p0; p1; p2] =>
      kind ← kind_from_str p1;
      raw ← unescape_local_id p2;
      id ← PrincipalLocalId_new raw;
      ProviderQualifiedId_new p0 kind id
  | _ => Err (NameInvalid [Lit "principal id must have provider:kind:id shape: "; Dbg value])
  end.

Definition pqi_provider (q : ProviderQualifiedId) : string := default "" (Str.split ":" q !! 0).

(** The [expect]s of [kind] and [local_id] panic on a value that is not canonical. *)
Definition pqi_kind (q : ProviderQualifiedId) : result PrincipalKind :=
  match kind_from_str (default "" (Str.split ":" q !! 1)) with Ok k => Ok k | _ => Panic end.
Definition pqi_local_id (q : ProviderQualifiedId) : result string :=
  match unescape_local_id (default "" (Str.split ":" q !! 2)) with Ok s => Ok s | _ => Panic end.

Inductive PrincipalRef :=
  | RefUser (id : ProviderQualifiedId)
  | RefGroup (id : ProviderQualifiedId)
  | RefPublic.

Definition ensure_kind (id : ProviderQualifiedId) (kind : PrincipalKind) : result () :=
  k ← pqi_kind id;
  if negb (bool_decide (k = kind)) then
    Err (NameInvalid [Lit "principal id "; Disp id; Lit " is not a "; Disp (kind_as_str kind)])
  else Ok ().

Definition PrincipalRef_user (id : ProviderQualifiedId) : result PrincipalRef :=
  _ ← ensure_kind id KUser; Ok (RefUser id).
Definition PrincipalRef_group (id : ProviderQualifiedId) : result PrincipalRef :=
  _ ← ensure_kind id KGroup; Ok (RefGroup id).

Definition ref_stable_key (r : PrincipalRef) : string :=
  match r with
  | RefUser id => "user:" +:+ id
  | RefGroup id => "group:" +:+ id
  | RefPublic => "public"
  end.

(** [uuid_ok] is [uuid::Uuid::parse_str(s).is_ok()]. *)
Definition stable_group_ids (uuid_ok : string → bool) (provider : string) (groups : list string)
    : list ProviderQualifiedId :=
  let seen : gset string := list_to_set (omap (λ group,
    let trimmed := Str.trim group in
    if uuid_ok trimmed
    then match ProviderQualifiedId_new provider KGroup trimmed with Ok id => Some id | _ => None end
    else None) groups) in
  merge_sort String.le (elements seen).

(** * Lemmas *)

Definition escaped_char (b : ascii) : bool := unreserved b || bool_decide (b = "%"%char).

Lemma unreserved_not_percent b : unreserved b = true → b ≠ "%"%char.
Proof. by intros H ->. Qed.

Lemma hex_digit_roundtrip b :
  hex_value (hex_digit (N.shiftr (N_of_ascii b) 4)) = Some (N.shiftr (N_of_ascii b) 4) ∧
  hex_value (hex_digit (N.land (N_of_ascii b) 15)) = Some (N.land (N_of_ascii b) 15) ∧
  ascii_of_N (N.lor (N.shiftl (N.shiftr (N_of_ascii b) 4) 4) (N.land (N_of_ascii b) 15)) = b ∧
  unreserved (hex_digit (N.shiftr (N_of_ascii b) 4)) = true ∧
  unreserved (hex_digit (N.land (N_of_ascii b) 15)) = true.
Proof. destruct b as [[] [] [] [] [] [] [] []]; vm_compute; auto. Qed.

Lemma escape_chars v : Str.all escaped_char (escape_local_id v) = true.
Proof.
  induction v as [|b v IH]; [done|]. simpl. unfold escaped_char in *.
  destruct (hex_digit_roundtrip b) as (_ & _ & _ & Hh & Hl).
  destruct (unreserved b) eqn:Hb; simpl; rewrite ?Hb, ?Hh, ?Hl, ?IH; done.
Qed.

Lemma escape_nonempty v : v ≠ "" → escape_local_id v ≠ "".
Proof. destruct v as [|b v]; [done|]. intros _. simpl. by destruct (unreserved b). Qed.

Lemma unescape_escape w v : unescape_bytes w (escape_local_id v) = Ok v.
Proof.
  induction v as [|b v IH]; [done|]. simpl.
  destruct (unreserved b) eqn:Hb; simpl.
  - rewrite bool_decide_eq_false_2 by by apply unreserved_not_percent. simpl. by rewrite IH.
  - destruct (hex_digit_roundtrip b) as (-> & -> & Hb' & _). simpl. rewrite IH. simpl.
    by rewrite Hb'.
Qed.

Lemma escaped_not_colon v : Str.contains_char ":" (escape_local_id v) = false.
Proof. apply (all_not_contains escaped_char); [done|apply escape_chars]. Qed.

Lemma escaped_graphic v : Str.all graphic (escape_local_id v) = true.
Proof.
  apply (all_impl escaped_char); [|apply escape_chars].
  intros [[] [] [] [] [] [] [] []]; intros E; try discriminate E; reflexivity.
Qed.

Lemma kind_from_as_str k : kind_from_str (kind_as_str k) = Ok k.
Proof. by destruct k. Qed.

(** The providers that [ProviderId_new] returns. *)
Definition provider_wf (p : string) : Prop :=
  String.length p ≤ 64 ∧
  match p with
  | EmptyString => False
  | String a p' => Str.is_ascii_lowercase a = true ∧ Str.all provider_tail_char p' = true
  end.

Lemma provider_wf_chars p : provider_wf p → Str.all provider_tail_char p = true.
Proof.
  destruct p as [|a p]; intros [_ H]; [done|]. destruct H as [Ha Hp]. simpl.
  unfold provider_tail_char at 1. by rewrite Ha, Hp.
Qed.

Lemma provider_wf_graphic p : provider_wf p → Str.all graphic p = true.
Proof.
  intros H%provider_wf_chars. apply (all_impl provider_tail_char); [|done].
  intros [[] [] [] [] [] [] [] []]; intros E; try discriminate E; reflexivity.
Qed.

Lemma ProviderId_new_Ok v p : ProviderId_new v = Ok p → p = Str.trim v ∧ provider_wf p.
Proof.
  unfold ProviderId_new. destruct (Str.trim v) as [|a t] eqn:E; [done|]. cbn [Str.is_empty].
  case_bool_decide as Hlen; [done|].
  destruct (Str.is_ascii_lowercase a) eqn:Ha; [|done].
  destruct (Str.all provider_tail_char t) eqn:Ht; [|done].
  intros [= <-]. split; [done|]. split; [lia|done].
Qed.

Lemma ProviderId_new_wf p : provider_wf p → ProviderId_new p = Ok p.
Proof.
  intros Hwf. unfold ProviderId_new. rewrite trim_graphic by by apply provider_wf_graphic.
  destruct p as [|a p]; destruct Hwf as [Hlen Hp]; [done|]. destruct Hp as [Ha Hp].
  cbn [Str.is_empty]. rewrite bool_decide_eq_false_2 by lia. by rewrite Ha, Hp.
Qed.

(** Canonical ids: what the constructors build. *)
Definition canonical (q : ProviderQualifiedId) (p : string) (k : PrincipalKind) (id : string) : Prop :=
  q = qualified p k id ∧ provider_wf p ∧ id ≠ "".

Lemma qualified_split p k id :
  provider_wf p →
  Str.split ":" (qualified p k id) = [p; kind_as_str k; escape_local_id id].
Proof.
  intros Hp. unfold qualified.
  etrans; [apply (split_app ":" p (kind_as_str k +:+ ":" +:+ escape_local_id id))|].
  { apply (all_not_contains provider_tail_char); [done|by apply provider_wf_chars]. }
  f_equal. etrans; [apply (split_app ":" (kind_as_str k) (escape_local_id id))|].
  { by destruct k. }
  by rewrite split_no_sep by apply escaped_not_colon.
Qed.

Lemma qualified_trim p k id : provider_wf p → Str.trim (qualified p k id) = qualified p k id.
Proof.
  intros Hp. apply trim_graphic. unfold qualified. rewrite !all_app.
  rewrite provider_wf_graphic, escaped_graphic by done. by destruct k.
Qed.

Lemma ProviderQualifiedId_new_canonical v k id q :
  ProviderQualifiedId_new v k id = Ok q → canonical q (Str.trim v) k id.
Proof.
  unfold ProviderQualifiedId_new.
  intros (p & [-> Hp]%ProviderId_new_Ok & (i & Hi & Hq)%result_bind_Ok)%result_bind_Ok.
  unfold PrincipalLocalId_new in Hi. destruct (Str.is_empty id) eqn:E; [done|].
  simplify_eq. split; [done|]. split; [done|]. by intros ->.
Qed.

Lemma canonical_accessors q p k id :
  canonical q p k id → utf8_valid id = true →
  pqi_provider q = p ∧ pqi_kind q = Ok k ∧ pqi_local_id q = Ok id.
Proof.
  intros (-> & Hp & Hid) Hutf. unfold pqi_provider, pqi_kind, pqi_local_id.
  rewrite qualified_split by done. simpl. rewrite kind_from_as_str.
  split; [done|]. split; [done|].
  unfold unescape_local_id. rewrite unescape_escape. simpl. by rewrite Hutf.
Qed.

Lemma canonical_parse q p k id :
  canonical q p k id → utf8_valid id = true → ProviderQualifiedId_parse q = Ok q.
Proof.
  intros (-> & Hp & Hid) Hutf. unfold ProviderQualifiedId_parse.
  rewrite qualified_trim, qualified_split by done. rewrite kind_from_as_str. simpl.
  unfold unescape_local_id. rewrite unescape_escape. simpl. rewrite Hutf. simpl.
  unfold ProviderQualifiedId_new. rewrite ProviderId_new_wf by done.
  unfold PrincipalLocalId_new. destruct id; done.
Qed.

Lemma parse_canonical v q :
  ProviderQualifiedId_parse v = Ok q → ∃ p k id, canonical q p k id ∧ utf8_valid id = true.
Proof.
  unfold ProviderQualifiedId_parse.
  destruct (Str.split ":" _) as [|p0 [|p1 [|p2 []]]]; try done.
  intros (k & _ & (raw & Hraw & (id & Hid & Hq)%result_bind_Ok)%result_bind_Ok)%result_bind_Ok.
  apply ProviderQualifiedId_new_canonical in Hq.
  unfold PrincipalLocalId_new in Hid. destruct (Str.is_empty raw); [done|]. simplify_eq.
  unfold unescape_local_id in Hraw. apply result_bind_Ok in Hraw as (d & _ & Hd).
  destruct (utf8_valid d) eqn:E; [|done]. simplify_eq. by exists (Str.trim p0), k, id.
Qed.

(** * Properties *)

(** Identifiers round-trip. An id built from a provider, a kind and a UTF-8
    local id gives those back through its accessors and re-parses to itself;
    and whatever [parse] accepts is canonical: parsing it again is the
    identity, so equal principals have equal strings, and none of the
    [expect]s in the accessors can fail on a parsed id. *)
Theorem principal_id_roundtrip :
  (∀ provider k id q, utf8_valid id = true → ProviderQualifiedId_new provider k id = Ok q →
     pqi_provider q = Str.trim provider ∧ pqi_kind q = Ok k ∧ pqi_local_id q = Ok id
     ∧ ProviderQualifiedId_parse q = Ok q) ∧
  (∀ v q, ProviderQualifiedId_parse v = Ok q →
     ProviderQualifiedId_parse q = Ok q ∧
     ∃ k id, pqi_kind q = Ok k ∧ pqi_local_id q = Ok id).
Proof.
  split.
  - intros provider k id q Hutf Hq%ProviderQualifiedId_new_canonical.
    destruct (canonical_accessors _ _ _ _ Hq Hutf) as (? & ? & ?).
    repeat split; try done. by eapply canonical_parse.
  - intros v q (p & k & id & Hc & Hutf)%parse_canonical.
    split; [by eapply canonical_parse|].
    destruct (canonical_accessors _ _ _ _ Hc Hutf) as (_ & ? & ?). by exists k, id.
Qed.
