(* ===== verification/SyncRuns.v ===== *)
(** Sync job runs (crates/layerhouse-server/src/store/metadata/types.rs,
    [SyncJobRun] and its methods): the progress record of one execution of a
    mirror or proxy-cache job. *)

From stdpp Require Import options.
From S2P Require Import Prelude Errors.

(** * Data *)

Inductive SyncRunStatus := RunRunning | RunSucceeded | RunPartialFailure | RunFailed.
Inductive SyncRunEventKind := EvInfo | EvSuccess | EvWarning | EvError.

#[global] Instance SyncRunStatus_eq_dec : EqDecision SyncRunStatus.
Proof. solve_decision. Defined.

Record SyncRunEvent := MkSyncRunEvent {
  ev_at : N;
  ev_kind : SyncRunEventKind;
  ev_tag : option string;
  ev_message : string;
}.

Record SyncJobRun := MkSyncJobRun {
  run_id : string;
  run_job_id : string;
  run_node_id : string;
  run_started_at : N;
  run_finished_at : option N;
  run_status : SyncRunStatus;
  run_phase : string;
  run_total_tags : nat;
  run_completed_tags : nat;
  run_current_tag : option string;
  run_updated_at : N;
  run_recent_events : list SyncRunEvent;
  run_tags_synced : list string;
  run_tags_failed : list (string * string);
}.
Definition set_run_finished_at (v : option N) (r : SyncJobRun) : SyncJobRun :=
  MkSyncJobRun (run_id r) (run_job_id r) (run_node_id r) (run_started_at r) v (run_status r)
    (run_phase r) (run_total_tags r) (run_completed_tags r) (run_current_tag r) (run_updated_at r)
    (run_recent_events r) (run_tags_synced r) (run_tags_failed r).
Definition set_run_status (v : SyncRunStatus) (r : SyncJobRun) : SyncJobRun :=
  MkSyncJobRun (run_id r) (run_job_id r) (run_node_id r) (run_started_at r) (run_finished_at r) v
    (run_phase r) (run_total_tags r) (run_completed_tags r) (run_current_tag r) (run_updated_at r)
    (run_recent_events r) (run_tags_synced r) (run_tags_failed r).
Definition set_run_phase (v : string) (r : SyncJobRun) : SyncJobRun :=
  MkSyncJobRun (run_id r) (run_job_id r) (run_node_id r) (run_started_at r) (run_finished_at r)
    (run_status r) v (run_total_tags r) (run_completed_tags r) (run_current_tag r)
    (run_updated_at r) (run_recent_events r) (run_tags_synced r) (run_tags_failed r).
Definition set_run_total_tags (v : nat) (r : SyncJobRun) : SyncJobRun :=
  MkSyncJobRun (run_id r) (run_job_id r) (run_node_id r) (run_started_at r) (run_finished_at r)
    (run_status r) (run_phase r) v (run_completed_tags r) (run_current_tag r) (run_updated_at r)
    (run_recent_events r) (run_tags_synced r) (run_tags_failed r).
Definition set_run_completed_tags (v : nat) (r : SyncJobRun) : SyncJobRun :=
  MkSyncJobRun (run_id r) (run_job_id r) (run_node_id r) (run_started_at r) (run_finished_at r)
    (run_status r) (run_phase r) (run_total_tags r) v (run_current_tag r) (run_updated_at r)
    (run_recent_events r) (run_tags_synced r) (run_tags_failed r).
Definition set_run_current_tag (v : option string) (r : SyncJobRun) : SyncJobRun :=
  MkSyncJobRun (run_id r) (run_job_id r) (run_node_id r) (run_started_at r) (run_finished_at r)
    (run_status r) (run_phase r) (run_total_tags r) (run_completed_tags r) v (run_updated_at r)
    (run_recent_events r) (run_tags_synced r) (run_tags_failed r).
Definition set_run_updated_at (v : N) (r : SyncJobRun) : SyncJobRun :=
  MkSyncJobRun (run_id r) (run_job_id r) (run_node_id r) (run_started_at r) (run_finished_at r)
    (run_status r) (run_phase r) (run_total_tags r) (run_completed_tags r) (run_current_tag r) v
    (run_recent_events r) (run_tags_synced r) (run_tags_failed r).
Definition set_run_recent_events (v : list SyncRunEvent) (r : SyncJobRun) : SyncJobRun :=
  MkSyncJobRun (run_id r) (run_job_id r) (run_node_id r) (run_started_at r) (run_finished_at r)
    (run_status r) (run_phase r) (run_total_tags r) (run_completed_tags r) (run_current_tag r)
    (run_updated_at r) v (run_tags_synced r) (run_tags_failed r).
Definition set_run_tags_synced (v : list string) (r : SyncJobRun) : SyncJobRun :=
  MkSyncJobRun (run_id r) (run_job_id r) (run_node_id r) (run_started_at r) (run_finished_at r)
    (run_status r) (run_phase r) (run_total_tags r) (run_completed_tags r) (run_current_tag r)
    (run_updated_at r) (run_recent_events r) v (run_tags_failed r).
Definition set_run_tags_failed (v : list (string * string)) (r : SyncJobRun) : SyncJobRun :=
  MkSyncJobRun (run_id r) (run_job_id r) (run_node_id r) (run_started_at r) (run_finished_at r)
    (run_status r) (run_phase r) (run_total_tags r) (run_completed_tags r) (run_current_tag r)
    (run_updated_at r) (run_recent_events r) (run_tags_synced r) v.

Definition MAX_SYNC_RUN_EVENTS : nat := 50.
Definition default_sync_run_phase : string := "Queued".

(** * Operations *)

(** [v.drain(..excess)] when the vector is longer than [cap]: keep the last [cap]. *)
Definition keep_last {A} (cap : nat) (l : list A) : list A :=
  if bool_decide (cap < length l) then drop (length l - cap) l else l.

Definition SyncJobRun_running (id job_id node_id : string) (started_at : N) : SyncJobRun :=
  MkSyncJobRun id job_id node_id started_at None RunRunning default_sync_run_phase
    0 0 None started_at [] [] [].

Definition push_event (kind : SyncRunEventKind) (tag : option string) (msg : string) (at_ : N)
    (r : SyncJobRun) : SyncJobRun :=
  set_run_recent_events
    (keep_last MAX_SYNC_RUN_EVENTS (run_recent_events r ++ [MkSyncRunEvent at_ kind tag msg])) r.

Definition mark_resolution_started (now : N) (r : SyncJobRun) : SyncJobRun :=
  let r := set_run_phase "Resolving tags" r in
  let r := set_run_current_tag None r in
  let r := set_run_updated_at now r in
  push_event EvInfo None "Resolving job target" now r.

Definition mark_resolution_finished (total_tags : nat) (now : N) (r : SyncJobRun) : SyncJobRun :=
  let r := set_run_total_tags total_tags r in
  let r := set_run_completed_tags 0 r in
  let r := set_run_current_tag None r in
  let r := set_run_phase (if bool_decide (total_tags = 0) then "No tags resolved"
                          else "Syncing tags") r in
  let r := set_run_updated_at now r in
  push_event EvInfo None ("Resolved " +:+ Str.of_u64 (N.of_nat total_tags) +:+ " tags") now r.

Definition mark_resolution_failed (msg : string) (now : N) (r : SyncJobRun) : SyncJobRun :=
  let r := set_run_total_tags 0 r in
  let r := set_run_completed_tags 0 r in
  let r := set_run_current_tag None r in
  let r := set_run_phase "Resolve failed" r in
  let r := set_run_updated_at now r in
  push_event EvError None msg now r.

Definition mark_tag_started (tag phase : string) (now : N) (r : SyncJobRun) : SyncJobRun :=
  let r := set_run_phase phase r in
  let r := set_run_current_tag (Some tag) r in
  let r := set_run_updated_at now r in
  push_event EvInfo (Some tag) "Started tag sync" now r.

Definition mark_tag_finished (tag : string) (kind : SyncRunEventKind) (msg : string)
    (completed_tags : nat) (now : N) (r : SyncJobRun) : SyncJobRun :=
  let r := set_run_completed_tags (completed_tags `min` run_total_tags r) r in
  let r := set_run_current_tag (Some tag) r in
  let r := set_run_updated_at now r in
  push_event kind (Some tag) msg now r.

Definition phase_of_status (s : SyncRunStatus) : string :=
  match s with
  | RunRunning => "Running"
  | RunSucceeded => "Succeeded"
  | RunPartialFailure => "Partial failure"
  | RunFailed => "Failed"
  end.
Definition event_of_status (s : SyncRunStatus) : SyncRunEventKind :=
  match s with
  | RunSucceeded => EvSuccess
  | RunPartialFailure => EvWarning
  | RunFailed => EvError
  | RunRunning => EvInfo
  end.

Definition mark_finished (status : SyncRunStatus) (tags_synced : list string)
    (tags_failed : list (string * string)) (now : N) (r : SyncJobRun) : SyncJobRun :=
  let r := set_run_finished_at (Some now) r in
  let r := set_run_status status r in
  let r := set_run_phase (phase_of_status status) r in
  let r := set_run_current_tag None r in
  let r := set_run_updated_at now r in
  let r := set_run_completed_tags
    (if bool_decide (run_total_tags r = 0) then 0
     else (length tags_synced + length tags_failed) `min` run_total_tags r) r in
  let r := set_run_tags_synced tags_synced r in
  let r := set_run_tags_failed tags_failed r in
  push_event (event_of_status (run_status r)) None (run_phase r) now r.

(** * The run as a transition system *)

Inductive run_op :=
  | OpResolutionStarted (now : N)
  | OpResolutionFinished (total : nat) (now : N)
  | OpResolutionFailed (msg : string) (now : N)
  | OpTagStarted (tag phase : string) (now : N)
  | OpTagFinished (tag : string) (kind : SyncRunEventKind) (msg : string) (completed : nat) (now : N)
  | OpFinished (status : SyncRunStatus) (synced : list string) (failed : list (string * string)) (now : N).

Definition run_step (r : SyncJobRun) (op : run_op) : SyncJobRun :=
  match op with
  | OpResolutionStarted now => mark_resolution_started now r
  | OpResolutionFinished total now => mark_resolution_finished total now r
  | OpResolutionFailed msg now => mark_resolution_failed msg now r
  | OpTagStarted tag phase now => mark_tag_started tag phase now r
  | OpTagFinished tag kind msg completed now => mark_tag_finished tag kind msg completed now r
  | OpFinished status synced failed now => mark_finished status synced failed now r
  end.

Definition op_event (r : SyncJobRun) (op : run_op) : SyncRunEvent :=
  match op with
  | OpResolutionStarted now => MkSyncRunEvent now EvInfo None "Resolving job target"
  | OpResolutionFinished total now =>
      MkSyncRunEvent now EvInfo None ("Resolved " +:+ Str.of_u64 (N.of_nat total) +:+ " tags")
  | OpResolutionFailed msg now => MkSyncRunEvent now EvError None msg
  | OpTagStarted tag _ now => MkSyncRunEvent now EvInfo (Some tag) "Started tag sync"
  | OpTagFinished tag kind msg _ now => MkSyncRunEvent now kind (Some tag) msg
  | OpFinished status _ _ now => MkSyncRunEvent now (event_of_status status) None (phase_of_status status)
  end.

(** * Lemmas *)

Lemma length_keep_last {A} cap (l : list A) : length (keep_last cap l) = cap `min` length l.
Proof. unfold keep_last. case_bool_decide; rewrite ?length_drop; lia. Qed.

(** Keeping the last [cap] before appending changes nothing to what is kept after. *)
Lemma keep_last_app {A} cap (l k : list A) :
  keep_last cap (keep_last cap l ++ k) = keep_last cap (l ++ k).
Proof.
  unfold keep_last at 2. case_bool_decide as Hl; [|done].
  unfold keep_last. rewrite !length_app, length_drop.
  rewrite (bool_decide_eq_true_2 (cap < length l + length k)) by lia.
  case_bool_decide as Hk.
  - rewrite <-(drop_app_le l k (length l - cap)) by lia. rewrite drop_drop. f_equal; lia.
  - assert (length k = 0) by lia. destruct k; [|done]. rewrite !app_nil_r; f_equal; simpl; lia.
Qed.

Definition run_inv (r : SyncJobRun) : Prop :=
  run_completed_tags r ≤ run_total_tags r ∧
  length (run_recent_events r) ≤ MAX_SYNC_RUN_EVENTS.

Lemma run_step_inv r op : run_inv r → run_inv (run_step r op).
Proof.
  intros [Hc He]. destruct op; simpl; unfold run_inv; simpl; rewrite ?length_keep_last;
    (split; [|lia]); try lia; try done.
  unfold mark_finished. simpl. case_bool_decide; lia.
Qed.

Lemma run_step_events r op :
  run_recent_events (run_step r op) =
    keep_last MAX_SYNC_RUN_EVENTS (run_recent_events r ++ [op_event r op]).
Proof. by destruct op. Qed.

(** * Properties *)

(** However a run is driven, it never reports more completed tags than it
    resolved and never stores more than fifty events; and the events it stores
    are exactly the last fifty of everything that happened, in order. *)
Theorem sync_run_progress (id job node : string) (t : N) (ops : list run_op) :
  let r := foldl run_step (SyncJobRun_running id job node t) ops in
  run_completed_tags r ≤ run_total_tags r ∧
  length (run_recent_events r) ≤ MAX_SYNC_RUN_EVENTS ∧
  run_recent_events r =
    keep_last MAX_SYNC_RUN_EVENTS
      ((λ op, op_event (SyncJobRun_running id job node t) op) <$> ops).
Proof.
  set (r0 := SyncJobRun_running id job node t). cbn zeta.
  assert (run_inv (foldl run_step r0 ops) ∧
    run_recent_events (foldl run_step r0 ops) =
      keep_last MAX_SYNC_RUN_EVENTS ((λ op, op_event r0 op) <$> ops)) as [[? ?] ?]; [|done].
  induction ops as [|op ops IH] using rev_ind; [by repeat split; simpl; lia|].
  rewrite foldl_snoc. destruct IH as [Hinv Hev]. split; [by apply run_step_inv|].
  rewrite run_step_events, Hev, fmap_app. simpl. rewrite keep_last_app. by destruct op.
Qed.
