(* ===== verification/Types.v ===== *)
(** The metadata model (crates/layerhouse-server/src/store/metadata/types.rs):
    the records the replicated state machine stores, the proxy-cache validation
    index, sizes and summaries derived from manifests, and the jobs triggered
    from mirror rules and proxy caches. *)

From stdpp Require Import options.
From S2P Require Import Prelude Errors Digests Manifests Permissions Principals SyncRuns.

(** [Subject] and [OrgId] are newtypes over [String]. *)
Abbreviation Subject := string (only parsing).
Abbreviation OrgId := string (only parsing).

(** * Namespaces *)

Inductive Owner := OwnerUser (s : Subject) | OwnerOrg (o : OrgId).

Record Namespace := MkNamespace {
  ns_handle : string;
  ns_generation : N;
  ns_owner : Owner;
  ns_owner_label : string;
  ns_created_at : N;
}.

Record NamespaceEpoch := MkNamespaceEpoch {
  ep_handle : string;
  ep_generation : N;
}.

#[global] Instance Owner_eq_dec : EqDecision Owner.
Proof. solve_decision. Defined.
#[global] Instance Namespace_eq_dec : EqDecision Namespace.
Proof. solve_decision. Defined.
#[global] Instance NamespaceEpoch_eq_dec : EqDecision NamespaceEpoch.
Proof. solve_decision. Defined.

Definition epoch_from_namespace (n : Namespace) : NamespaceEpoch :=
  MkNamespaceEpoch (ns_handle n) (ns_generation n).
Definition epoch_entity_id (e : NamespaceEpoch) : string :=
  ep_handle e +:+ "#" +:+ Str.of_u64 (ep_generation e).

Inductive ReleaseReason := OwnerDeleted | AdminRevoked | Renamed (new_handle : string).

Record ReleasedHandle := MkReleasedHandle {
  rh_handle : string;
  rh_prior_owner : Owner;
  rh_prior_generation : N;
  rh_prior_owner_label : string;
  rh_released_at : N;
  rh_released_by : Subject;
  rh_release_reason : ReleaseReason;
}.

Inductive NamespaceGrantGrantee :=
  | GranteeGroup (id : ProviderQualifiedId)
  | GranteeUser (id : ProviderQualifiedId)
  | GranteePublic.

Definition grantee_label (g : NamespaceGrantGrantee) : string :=
  match g with GranteeGroup id | GranteeUser id => id | GranteePublic => "Public" end.

Definition grantee_stable_key (g : NamespaceGrantGrantee) : result string :=
  match g with
  | GranteeGroup id =>
      match PrincipalRef_group id with Ok r => Ok (ref_stable_key r) | _ => Panic end
  | GranteeUser id =>
      match PrincipalRef_user id with Ok r => Ok (ref_stable_key r) | _ => Panic end
  | GranteePublic => Ok "public"
  end.

Record NamespaceGrant := MkNamespaceGrant {
  ng_id : string;
  ng_namespace : string;
  ng_grantee : NamespaceGrantGrantee;
  ng_action : OciAction;
  ng_label : string;
  ng_created_by : Subject;
  ng_created_at : N;
  ng_updated_by : Subject;
  ng_updated_at : N;
}.
Definition set_ng_created_by (v : Subject) (r : NamespaceGrant) : NamespaceGrant :=
  MkNamespaceGrant (ng_id r) (ng_namespace r) (ng_grantee r) (ng_action r) (ng_label r) v
    (ng_created_at r) (ng_updated_by r) (ng_updated_at r).
Definition set_ng_created_at (v : N) (r : NamespaceGrant) : NamespaceGrant :=
  MkNamespaceGrant (ng_id r) (ng_namespace r) (ng_grantee r) (ng_action r) (ng_label r)
    (ng_created_by r) v (ng_updated_by r) (ng_updated_at r).

Record ObservedIdentity := MkObservedIdentity {
  oi_subject : Subject;
  oi_principal : ProviderQualifiedId;
  oi_username : option string;
  oi_display_name : option string;
  oi_email : option string;
  oi_groups : list string;
  oi_group_ids : list ProviderQualifiedId;
  oi_last_seen_at : N;
}.

Inductive NamespaceGrantAuditOperation := AuditCreate | AuditUpdate | AuditDelete.

Record NamespaceGrantAuditEvent := MkNamespaceGrantAuditEvent {
  au_id : string;
  au_namespace : string;
  au_grant_id : option string;
  au_operation : NamespaceGrantAuditOperation;
  au_actor : Subject;
  au_actor_label : string;
  au_reason : string;
  au_before : option NamespaceGrant;
  au_after : option NamespaceGrant;
  au_created_at : N;
}.

(** * Repositories, policies, tokens *)

Inductive Visibility := Private | PublicPull.

Record Repository := MkRepository {
  repo_name : string;
  repo_description : string;
  repo_created_by : option Subject;
  repo_visibility : Visibility;
  repo_created_at : N;
}.

Inductive PolicySource := PolicyBuiltin | PolicyConfig | PolicyRaft.

Record PolicySet := MkPolicySet {
  ps_id : string;
  ps_name : string;
  ps_source : PolicySource;
  ps_cedar_text : string;
  ps_enabled : bool;
  ps_created_by : Subject;
  ps_updated_by : Subject;
  ps_created_at : N;
  ps_updated_at : N;
}.

Record PersonalAccessToken := MkPersonalAccessToken {
  pat_id : string;
  pat_subject : string;
  pat_username : option string;
  pat_name : string;
  pat_token_hash : string;
  pat_token_prefix : string;
  pat_scopes : list string;
  pat_namespace_epochs : list NamespaceEpoch;
  pat_created_at : N;
  pat_last_used_at : option N;
  pat_expires_at : option N;
}.

(** * Mirrors, proxy caches and jobs *)

Inductive MirrorDirection := DirPull | DirPush.
Inductive MirrorStrategy := StrategyAll | StrategyLatest (count : N) | StrategyPattern (pattern : string).
Inductive OutboundProxyProtocol := ProxyNone | ProxyHttp | ProxyHttps | ProxySocks4 | ProxySocks5.

Record OutboundProxy := MkOutboundProxy {
  op_protocol : OutboundProxyProtocol;
  op_url : option string;
  op_username : option string;
  op_password : option string;
}.

Record OutboundProxyPublic := MkOutboundProxyPublic {
  opp_protocol : OutboundProxyProtocol;
  opp_url : option string;
  opp_username_configured : bool;
  opp_password_configured : bool;
}.

(** [o.as_ref().is_some_and(|v| !v.is_empty())]. *)
Definition configured (o : option string) : bool :=
  match o with Some v => negb (Str.is_empty v) | None => false end.

Definition outbound_proxy_public (p : OutboundProxy) : OutboundProxyPublic :=
  MkOutboundProxyPublic (op_protocol p) (op_url p) (configured (op_username p))
    (configured (op_password p)).

Record MirrorRule := MkMirrorRule {
  mr_id : string;
  mr_direction : MirrorDirection;
  mr_local_prefix : string;
  mr_upstream_registry : string;
  mr_upstream_prefix : option string;
  mr_schedule : option string;
  mr_strategy : MirrorStrategy;
  mr_plain_http : bool;
  mr_insecure_tls : bool;
  mr_outbound_proxy : OutboundProxy;
  mr_username : option string;
  mr_password : option string;
  mr_created_at : N;
}.

Record MirrorRulePublic := MkMirrorRulePublic {
  mrp_id : string;
  mrp_direction : MirrorDirection;
  mrp_local_prefix : string;
  mrp_upstream_registry : string;
  mrp_upstream_prefix : option string;
  mrp_schedule : option string;
  mrp_strategy : MirrorStrategy;
  mrp_plain_http : bool;
  mrp_insecure_tls : bool;
  mrp_outbound_proxy : OutboundProxyPublic;
  mrp_username_configured : bool;
  mrp_password_configured : bool;
  mrp_created_at : N;
}.

Definition mirror_rule_public (r : MirrorRule) : MirrorRulePublic :=
  MkMirrorRulePublic (mr_id r) (mr_direction r) (mr_local_prefix r) (mr_upstream_registry r)
    (mr_upstream_prefix r) (mr_schedule r) (mr_strategy r) (mr_plain_http r) (mr_insecure_tls r)
    (outbound_proxy_public (mr_outbound_proxy r)) (configured (mr_username r))
    (configured (mr_password r)) (mr_created_at r).

Inductive WarmSortBy := SortCreated | SortPushed | SortPulled.
Inductive WarmFilter :=
  | WarmNone
  | WarmAll
  | WarmLatest (count : N) (sort_by : WarmSortBy)
  | WarmPattern (pattern : string).

Record ProxyCache := MkProxyCache {
  pc_id : string;
  pc_local_prefix : string;
  pc_upstream_registry : string;
  pc_upstream_prefix : option string;
  pc_warm_filters : list WarmFilter;
  pc_warm_schedule : option string;
  pc_plain_http : bool;
  pc_insecure_tls : bool;
  pc_outbound_proxy : OutboundProxy;
  pc_username : option string;
  pc_password : option string;
  pc_created_at : N;
}.

Record ProxyCachePublic := MkProxyCachePublic {
  pcp_id : string;
  pcp_local_prefix : string;
  pcp_upstream_registry : string;
  pcp_upstream_prefix : option string;
  pcp_warm_filters : list WarmFilter;
  pcp_warm_schedule : option string;
  pcp_plain_http : bool;
  pcp_insecure_tls : bool;
  pcp_outbound_proxy : OutboundProxyPublic;
  pcp_username_configured : bool;
  pcp_password_configured : bool;
  pcp_created_at : N;
}.

Definition proxy_cache_public (c : ProxyCache) : ProxyCachePublic :=
  MkProxyCachePublic (pc_id c) (pc_local_prefix c) (pc_upstream_registry c)
    (pc_upstream_prefix c) (pc_warm_filters c) (pc_warm_schedule c) (pc_plain_http c)
    (pc_insecure_tls c) (outbound_proxy_public (pc_outbound_proxy c))
    (configured (pc_username c)) (configured (pc_password c)) (pc_created_at c).

Record ProxyCacheTagValidation := MkProxyCacheTagValidation {
  pv_cache_id : string;
  pv_repository : string;
  pv_tag : string;
  pv_upstream_digest : string;
  pv_last_validated_at : N;
}.

Abbreviation ProxyCacheTagValidations :=
  (gmap string (gmap string (gmap string ProxyCacheTagValidation))).

Definition get_proxy_cache_tag_validation (v : ProxyCacheTagValidations)
    (cache_id repository tag : string) : option ProxyCacheTagValidation :=
  repos ← v !! cache_id; tags ← repos !! repository; tags !! tag.

Definition put_proxy_cache_tag_validation (v : ProxyCacheTagValidations)
    (x : ProxyCacheTagValidation) : ProxyCacheTagValidations :=
  let repos := default ∅ (v !! pv_cache_id x) in
  let tags := default ∅ (repos !! pv_repository x) in
  <[pv_cache_id x := <[pv_repository x := <[pv_tag x := x]> tags]> repos]> v.

Definition clear_proxy_cache_tag_validations_for_cache (v : ProxyCacheTagValidations)
    (cache_id : string) : ProxyCacheTagValidations := delete cache_id v.

(** [retain] with a closure that edits each value: edit, then drop the empty ones. *)
Definition retain_nonempty {A} (f : gmap string A → gmap string A)
    (v : gmap string (gmap string A)) : gmap string (gmap string A) :=
  filter (λ p, p.2 ≠ ∅) (f <$> v).

Definition clear_proxy_cache_tag_validations_for_repository (v : ProxyCacheTagValidations)
    (repository : string) : ProxyCacheTagValidations :=
  retain_nonempty (delete repository) v.

Definition clear_tag_in_repo (repository tag : string)
    (repos : gmap string (gmap string ProxyCacheTagValidation))
    : gmap string (gmap string ProxyCacheTagValidation) :=
  match repos !! repository with
  | Some tags =>
      let tags' := delete tag tags in
      if bool_decide (tags' = ∅) then delete repository repos
      else <[repository := tags']> repos
  | None => repos
  end.

Definition clear_proxy_cache_tag_validations_for_tag (v : ProxyCacheTagValidations)
    (repository tag : string) : ProxyCacheTagValidations :=
  retain_nonempty (clear_tag_in_repo repository tag) v.

Record WarmImage := MkWarmImage {
  wi_id : string;
  wi_image : string;
  wi_tags : list string;
  wi_interval_secs : N;
}.

Inductive SyncJobKind := LegacyWarm | MirrorJob | ProxyCacheJob.
Inductive SyncJobStatus := Idle | Running.

#[global] Instance SyncJobKind_eq_dec : EqDecision SyncJobKind.
Proof. solve_decision. Defined.
#[global] Instance SyncJobStatus_eq_dec : EqDecision SyncJobStatus.
Proof. solve_decision. Defined.

Record SyncJob := MkSyncJob {
  job_id : string;
  job_kind : SyncJobKind;
  job_rule_id : option string;
  job_rule_name : option string;
  job_image : string;
  job_tags : list string;
  job_interval_secs : N;
  job_status : SyncJobStatus;
  job_claimed_by : option string;
  job_claimed_at : option N;
  job_last_run_at : option N;
  job_next_run_at : N;
  job_last_error : option string;
}.
Definition set_job_status (v : SyncJobStatus) (r : SyncJob) : SyncJob :=
  MkSyncJob (job_id r) (job_kind r) (job_rule_id r) (job_rule_name r) (job_image r) (job_tags r)
    (job_interval_secs r) v (job_claimed_by r) (job_claimed_at r) (job_last_run_at r)
    (job_next_run_at r) (job_last_error r).
Definition set_job_claimed_by (v : option string) (r : SyncJob) : SyncJob :=
  MkSyncJob (job_id r) (job_kind r) (job_rule_id r) (job_rule_name r) (job_image r) (job_tags r)
    (job_interval_secs r) (job_status r) v (job_claimed_at r) (job_last_run_at r)
    (job_next_run_at r) (job_last_error r).
Definition set_job_claimed_at (v : option N) (r : SyncJob) : SyncJob :=
  MkSyncJob (job_id r) (job_kind r) (job_rule_id r) (job_rule_name r) (job_image r) (job_tags r)
    (job_interval_secs r) (job_status r) (job_claimed_by r) v (job_last_run_at r)
    (job_next_run_at r) (job_last_error r).
Definition set_job_next_run_at (v : N) (r : SyncJob) : SyncJob :=
  MkSyncJob (job_id r) (job_kind r) (job_rule_id r) (job_rule_name r) (job_image r) (job_tags r)
    (job_interval_secs r) (job_status r) (job_claimed_by r) (job_claimed_at r) (job_last_run_at r)
    v (job_last_error r).
Definition set_job_last_error (v : option string) (r : SyncJob) : SyncJob :=
  MkSyncJob (job_id r) (job_kind r) (job_rule_id r) (job_rule_name r) (job_image r) (job_tags r)
    (job_interval_secs r) (job_status r) (job_claimed_by r) (job_claimed_at r) (job_last_run_at r)
    (job_next_run_at r) v.

Definition mirror_strategy_labels (s : MirrorStrategy) : list string :=
  match s with
  | StrategyAll => ["all"]
  | StrategyLatest count => ["latest " +:+ Str.of_u64 count]
  | StrategyPattern pattern => [pattern]
  end.

Definition warm_filter_labels (filters : list WarmFilter) : list string :=
  omap (λ f, match f with
             | WarmNone => None
             | WarmAll => Some "all"
             | WarmLatest count _ => Some ("latest " +:+ Str.of_u64 count)
             | WarmPattern pattern => Some pattern
             end) filters.

Definition proxy_cache_warm_job (cache : ProxyCache) (now : N) : SyncJob :=
  MkSyncJob (pc_id cache +:+ "-warm-" +:+ Str.of_u64 now) ProxyCacheJob (Some (pc_id cache))
    (Some (pc_id cache)) (pc_local_prefix cache) (warm_filter_labels (pc_warm_filters cache))
    0 Idle None None None now None.

Definition mirror_rule_job (rule : MirrorRule) (id : string) (now interval_secs : N) : SyncJob :=
  MkSyncJob id MirrorJob (Some (mr_id rule)) (Some (mr_id rule)) (mr_local_prefix rule)
    (mirror_strategy_labels (mr_strategy rule)) interval_secs Idle None None None now None.

Definition sync_job_blocks_trigger (job : SyncJob) (kind : SyncJobKind) (rule_id : string)
    (now : N) : bool :=
  bool_decide (job_kind job = kind) && bool_decide (job_rule_id job = Some rule_id) &&
  (bool_decide (job_status job = Running) ||
   (bool_decide (job_interval_secs job = 0)%N && bool_decide (job_next_run_at job ≤ now)%N)).

Record HelmChart := MkHelmChart {
  hc_name : string;
  hc_description : string;
  hc_latest_version : string;
  hc_versions : list string;
}.

Record HelmChartVersion := MkHelmChartVersion {
  hv_name : string;
  hv_version : string;
  hv_app_version : option string;
  hv_description : string;
  hv_created : string;
}.

Record DeleteCounts := MkDeleteCounts {
  dc_deleted_manifests : nat;
  dc_deleted_tags : nat;
}.

Record BlobDeleteStatus := MkBlobDeleteStatus {
  bd_digest : string;
  bd_referenced : bool;
  bd_ref_count : N;
}.

Record BlobLifecycleStatus := MkBlobLifecycleStatus {
  bl_digest : string;
  bl_referenced : bool;
  bl_ref_count : N;
  bl_delete_requested : bool;
}.

Record RepositorySummary := MkRepositorySummary {
  rs_name : string;
  rs_tag_count : nat;
  rs_manifest_count : nat;
  rs_stored_size_bytes : N;
  rs_manifest_size_bytes : N;
  rs_last_modified : N;
  rs_description : string;
  rs_created_by : option Subject;
  rs_visibility : Visibility;
}.

(** * Manifests *)

Section manifest_types.
Context `{SerdeJson}.

Record ManifestEntry := MkManifestEntry {
  me_digest : Digest;
  me_content_type : string;
  me_body : list Byte.byte;
  me_referenced_blobs : list Digest;
  me_subject : option Digest;
  me_artifact_type : option string;
  me_annotations : option Value;
  me_stored_size_bytes : N;
  me_manifest_size_bytes : N;
  me_created_at : N;
  me_last_modified : N;
  me_config_summary : option Value;
}.
Definition set_me_referenced_blobs (v : list Digest) (r : ManifestEntry) : ManifestEntry :=
  MkManifestEntry (me_digest r) (me_content_type r) (me_body r) v (me_subject r)
    (me_artifact_type r) (me_annotations r) (me_stored_size_bytes r) (me_manifest_size_bytes r)
    (me_created_at r) (me_last_modified r) (me_config_summary r).
Definition set_me_stored_size_bytes (v : N) (r : ManifestEntry) : ManifestEntry :=
  MkManifestEntry (me_digest r) (me_content_type r) (me_body r) (me_referenced_blobs r)
    (me_subject r) (me_artifact_type r) (me_annotations r) v (me_manifest_size_bytes r)
    (me_created_at r) (me_last_modified r) (me_config_summary r).
Definition set_me_manifest_size_bytes (v : N) (r : ManifestEntry) : ManifestEntry :=
  MkManifestEntry (me_digest r) (me_content_type r) (me_body r) (me_referenced_blobs r)
    (me_subject r) (me_artifact_type r) (me_annotations r) (me_stored_size_bytes r) v
    (me_created_at r) (me_last_modified r) (me_config_summary r).
Definition set_me_created_at (v : N) (r : ManifestEntry) : ManifestEntry :=
  MkManifestEntry (me_digest r) (me_content_type r) (me_body r) (me_referenced_blobs r)
    (me_subject r) (me_artifact_type r) (me_annotations r) (me_stored_size_bytes r)
    (me_manifest_size_bytes r) v (me_last_modified r) (me_config_summary r).
Definition set_me_last_modified (v : N) (r : ManifestEntry) : ManifestEntry :=
  MkManifestEntry (me_digest r) (me_content_type r) (me_body r) (me_referenced_blobs r)
    (me_subject r) (me_artifact_type r) (me_annotations r) (me_stored_size_bytes r)
    (me_manifest_size_bytes r) (me_created_at r) v (me_config_summary r).

Record ManifestSummary := MkManifestSummary {
  ms_digest : string;
  ms_media_type : string;
  ms_artifact_type : option string;
  ms_stored_size_bytes : N;
  ms_manifest_size_bytes : N;
  ms_created_at : N;
  ms_last_modified : N;
  ms_tags : list string;
  ms_subject : option string;
  ms_annotations : option Value;
  ms_config_summary : option Value;
  ms_body : Value;
}.

Record ReferrerEntry := MkReferrerEntry {
  re_digest : Digest;
  re_media_type : string;
  re_size : N;
  re_artifact_type : option string;
  re_annotations : option Value;
}.

Definition from_parsed_json (sha256_hex : list Byte.byte → string) (now : N) (parsed : Value)
    (content_type : string) (body : list Byte.byte) (referenced_blobs : list Digest)
    : ManifestEntry :=
  MkManifestEntry (digest_sha256 sha256_hex body) content_type body referenced_blobs
    (extract_subject_digest parsed) (extract_artifact_type parsed) (extract_annotations parsed)
    (stored_size_bytes parsed) (N.of_nat (length body)) now now (extract_config_summary parsed).

Definition sized_descriptors_from_entry (e : ManifestEntry) : list SizedDescriptor :=
  match from_slice (me_body e) with
  | Some value => extract_sized_referenced_descriptors value
  | None => []
  end.

Definition manifest_stored_size_bytes (e : ManifestEntry) : N :=
  match sized_descriptors_from_entry e with
  | [] => if bool_decide (0 < me_stored_size_bytes e)%N then me_stored_size_bytes e
          else me_manifest_size_bytes e
  | descriptors => stored_size_from_descriptors descriptors
  end.

Definition repository_manifest_size_bytes (repo_manifests : gmap string ManifestEntry) : N :=
  sum_u64 (me_manifest_size_bytes <$> btree_values repo_manifests).

Definition repository_size_step (acc : gmap string N * N) (e : ManifestEntry) : gmap string N * N :=
  match sized_descriptors_from_entry e with
  | [] => (acc.1, U64.add acc.2 (N.max (me_stored_size_bytes e) (me_manifest_size_bytes e)))
  | descriptors => (foldl insert_max acc.1 descriptors, acc.2)
  end.
Definition repository_stored_size_bytes (repo_manifests : gmap string ManifestEntry) : N :=
  let '(by_digest, fallback_size) :=
    foldl repository_size_step (∅, 0%N) (btree_values repo_manifests) in
  U64.add (sum_u64 (btree_values by_digest)) fallback_size.

(** The tags of a digest, grouped while iterating the tag index in order. *)
Definition tags_of_digest (repo_tags : option (gmap string string)) (digest : string) : list string :=
  match repo_tags with
  | None => []
  | Some m => (filter (λ p, p.2 = digest) (btree_entries m)).*1
  end.
Definition manifest_summary (repo_tags : option (gmap string string)) (digest : string)
    (e : ManifestEntry) : ManifestSummary :=
  MkManifestSummary digest (me_content_type e) (me_artifact_type e)
    (manifest_stored_size_bytes e) (me_manifest_size_bytes e) (me_created_at e)
    (me_last_modified e) (merge_sort String.le (tags_of_digest repo_tags digest))
    (digest_to_string <$> me_subject e) (me_annotations e) (me_config_summary e)
    (default json_null (from_slice (me_body e))).
Definition build_manifest_summaries (repo_manifests : gmap string ManifestEntry)
    (repo_tags : option (gmap string string)) : list ManifestSummary :=
  (λ p, manifest_summary repo_tags p.1 p.2) <$> btree_entries repo_manifests.

End manifest_types.
