(* ===== verification/StateMachine.v ===== *)
(** The replicated state machine (crates/layerhouse-server/src/raft/mod.rs for
    the requests and responses, raft/state_machine.rs for the state and the
    apply functions).

    Every apply function threads the whole state and returns a [result]; the
    clock [now] is the value [now_epoch()] has when the entry is applied on
    this node. *)

From Stdlib Require Import Ascii.
From stdpp Require Import options.
From S2P Require Import Prelude Errors Digests Manifests Permissions Principals Handles.
From S2P Require Import SyncRuns Types.

#[local] Open Scope lh_scope.

(** * What the crates outside the repository provide *)

(** [hex::encode(Sha256::digest(_))], and Cedar's parser: [None] when the text
    parses against the authorization schema, the error text otherwise. *)
Class Externals := {
  sha256_hex : list Byte.byte → string;
  cedar_policy_error : string → option message;
}.

(** The openraft types the state stores but never looks into. *)
Class Openraft := {
  LogId : Type;
  Membership : Type;
  StoredMembership : Type;
  default_membership : StoredMembership;
  stored_membership : option LogId → Membership → StoredMembership;
  leader_id_display : LogId → string;
  log_index : LogId → N;
}.

(** * Requests and responses (raft/mod.rs) *)

Section requests.
Context `{SerdeJson}.

Inductive ManifestRequest :=
  | PutManifest (name : string) (expected_namespace : option NamespaceEpoch) (reference : string)
      (require_reference_absent : bool) (digest content_type : string) (body : list Byte.byte)
      (subject artifact_type : option string) (annotations : option Value)
      (stored_size_bytes manifest_size_bytes created_at last_modified : N)
      (config_summary : option Value) (referenced_blobs : list string)
  | DeleteManifest (name : string) (expected_namespace : option NamespaceEpoch) (digest : string)
  | DeleteTag (name : string) (expected_namespace : option NamespaceEpoch) (digest tag : string)
  | DeleteRepository (name : string) (expected_namespace : option NamespaceEpoch)
  | DeleteManifests (name : string) (expected_namespace : option NamespaceEpoch)
      (digests : list string)
  | MountBlob (source_repo dest_repo : string) (expected_namespace : option NamespaceEpoch)
      (digest : string)
  | RecordBlobDelete (digest : string) (requested_at : N)
  | ClearBlobDelete (digest : string).

Inductive ManifestResponse :=
  | ManifestOk
  | ManifestBool (b : bool)
  | ManifestDeleteCounts (c : DeleteCounts)
  | ManifestBlobDeleteStatus (s : BlobDeleteStatus).

Inductive MirrorConfigRequest :=
  | PutMirrorRule (rule : MirrorRule)
  | DeleteMirrorRule (id : string)
  | TriggerMirrorRule (id : string)
  | PutProxyCache (cache : ProxyCache)
  | DeleteProxyCache (id : string)
  | TriggerProxyCacheWarm (id : string)
  | PutProxyCacheTagValidation (validation : ProxyCacheTagValidation)
  | PutWarmImage (image : WarmImage)
  | DeleteWarmImage (id : string).

Inductive MirrorConfigResponse :=
  | MirrorOk
  | MirrorBool (b : bool)
  | MirrorSyncJob (job : option SyncJob).

Inductive JobRequest :=
  | PutSyncJob (job : SyncJob)
  | DeleteSyncJob (id : string)
  | ClaimSyncJob (id node_id : string)
  | TriggerSyncJob (id : string)
  | PutSyncJobRun (run : SyncJobRun).

Inductive JobResponse := JobOk | JobBool (b : bool).

Inductive TokenRequest :=
  | PutPersonalAccessToken (token : PersonalAccessToken)
  | DeletePersonalAccessToken (id subject : string).

Inductive TokenResponse := TokenOk | TokenBool (b : bool).

Inductive PolicyRequest :=
  | PutPolicySet (policy : PolicySet)
  | DeletePolicySet (id : string).

Inductive PolicyResponse := PolicyOk | PolicyBool (b : bool).

Inductive RepositoryRequest :=
  | PutRepository (repository : Repository) (expected_namespace : option NamespaceEpoch)
  | DeleteRepositoryObject (name : string) (expected_namespace : option NamespaceEpoch).

Inductive RepositoryResponse := RepositoryOk | RepositoryBool (b : bool).

Inductive NamespaceRequest :=
  | Claim (handle : string) (owner : Owner) (owner_label : string) (actor : Subject)
      (admin_override : bool) (now : N)
  | DeleteNamespace (handle : string) (actor : Subject) (reason : ReleaseReason) (now : N)
  | AdminRevoke (handle : string) (actor : Subject) (now : N)
  | PutGrant (grant : NamespaceGrant) (actor_label reason audit_id : string)
  | DeleteGrant (handle grant_id : string) (actor : Subject) (actor_label reason : string) (now : N)
      (audit_id : string)
  | PutObservedIdentity (identity : ObservedIdentity).

Inductive NamespaceResponse :=
  | NamespaceOk
  | NamespaceGrantResp (g : NamespaceGrant)
  | NamespaceBool (b : bool).

Inductive Request :=
  | ReqManifest (r : ManifestRequest)
  | ReqMirrorConfig (r : MirrorConfigRequest)
  | ReqJob (r : JobRequest)
  | ReqToken (r : TokenRequest)
  | ReqPolicy (r : PolicyRequest)
  | ReqRepository (r : RepositoryRequest)
  | ReqNamespace (r : NamespaceRequest).

Inductive Response :=
  | RespManifest (r : ManifestResponse)
  | RespMirrorConfig (r : MirrorConfigResponse)
  | RespJob (r : JobResponse)
  | RespToken (r : TokenResponse)
  | RespPolicy (r : PolicyResponse)
  | RespRepository (r : RepositoryResponse)
  | RespNamespace (r : NamespaceResponse)
  | RespNameUnknown (m : message)
  | RespDenied (m : message)
  | RespConflict (m : message)
  | RespNameInvalid (m : message)
  | RespInternalError (m : message).

End requests.

(** * State *)

Section state.
Context `{SerdeJson, Openraft}.

Record StateMachineData := MkStateMachineData {
  sm_last_applied_log : option LogId;
  sm_last_membership : StoredMembership;
  sm_manifests : gmap string (gmap string ManifestEntry);
  sm_tags : gmap string (gmap string string);
  sm_blob_ref_counts : gmap string N;
  sm_blob_delete_requests : gmap string N;
  sm_mirror_rules : gmap string MirrorRule;
  sm_proxy_caches : gmap string ProxyCache;
  sm_proxy_cache_tag_validations : ProxyCacheTagValidations;
  sm_warm_images : gmap string WarmImage;
  sm_sync_jobs : gmap string SyncJob;
  sm_sync_job_runs : gmap string (list SyncJobRun);
  sm_helm_charts : gmap string HelmChart;
  sm_helm_chart_versions : gmap string (list HelmChartVersion);
  sm_personal_access_tokens : gmap string PersonalAccessToken;
  sm_repositories : gmap string Repository;
  sm_policy_sets : gmap string PolicySet;
  sm_namespaces : gmap string Namespace;
  sm_released_handles : gmap string ReleasedHandle;
  sm_namespace_grants : gmap string (gmap string NamespaceGrant);
  sm_observed_identities : gmap Subject ObservedIdentity;
  sm_namespace_grant_audit : gmap string (list NamespaceGrantAuditEvent);
}.
Definition set_sm_last_applied_log (v : option LogId) (r : StateMachineData) : StateMachineData :=
  MkStateMachineData v (sm_last_membership r) (sm_manifests r) (sm_tags r) (sm_blob_ref_counts r)
    (sm_blob_delete_requests r) (sm_mirror_rules r) (sm_proxy_caches r)
    (sm_proxy_cache_tag_validations r) (sm_warm_images r) (sm_sync_jobs r) (sm_sync_job_runs r)
    (sm_helm_charts r) (sm_helm_chart_versions r) (sm_personal_access_tokens r)
    (sm_repositories r) (sm_policy_sets r) (sm_namespaces r) (sm_released_handles r)
    (sm_namespace_grants r) (sm_observed_identities r) (sm_namespace_grant_audit r).
Definition set_sm_last_membership (v : StoredMembership) (r : StateMachineData) : StateMachineData :=
  MkStateMachineData (sm_last_applied_log r) v (sm_manifests r) (sm_tags r) (sm_blob_ref_counts r)
    (sm_blob_delete_requests r) (sm_mirror_rules r) (sm_proxy_caches r)
    (sm_proxy_cache_tag_validations r) (sm_warm_images r) (sm_sync_jobs r) (sm_sync_job_runs r)
    (sm_helm_charts r) (sm_helm_chart_versions r) (sm_personal_access_tokens r)
    (sm_repositories r) (sm_policy_sets r) (sm_namespaces r) (sm_released_handles r)
    (sm_namespace_grants r) (sm_observed_identities r) (sm_namespace_grant_audit r).
Definition set_sm_manifests (v : gmap string (gmap string ManifestEntry)) (r : StateMachineData) : StateMachineData :=
  MkStateMachineData (sm_last_applied_log r) (sm_last_membership r) v (sm_tags r)
    (sm_blob_ref_counts r) (sm_blob_delete_requests r) (sm_mirror_rules r) (sm_proxy_caches r)
    (sm_proxy_cache_tag_validations r) (sm_warm_images r) (sm_sync_jobs r) (sm_sync_job_runs r)
    (sm_helm_charts r) (sm_helm_chart_versions r) (sm_personal_access_tokens r)
    (sm_repositories r) (sm_policy_sets r) (sm_namespaces r) (sm_released_handles r)
    (sm_namespace_grants r) (sm_observed_identities r) (sm_namespace_grant_audit r).
Definition set_sm_tags (v : gmap string (gmap string string)) (r : StateMachineData) : StateMachineData :=
  MkStateMachineData (sm_last_applied_log r) (sm_last_membership r) (sm_manifests r) v
    (sm_blob_ref_counts r) (sm_blob_delete_requests r) (sm_mirror_rules r) (sm_proxy_caches r)
    (sm_proxy_cache_tag_validations r) (sm_warm_images r) (sm_sync_jobs r) (sm_sync_job_runs r)
    (sm_helm_charts r) (sm_helm_chart_versions r) (sm_personal_access_tokens r)
    (sm_repositories r) (sm_policy_sets r) (sm_namespaces r) (sm_released_handles r)
    (sm_namespace_grants r) (sm_observed_identities r) (sm_namespace_grant_audit r).
Definition set_sm_blob_ref_counts (v : gmap string N) (r : StateMachineData) : StateMachineData :=
  MkStateMachineData (sm_last_applied_log r) (sm_last_membership r) (sm_manifests r) (sm_tags r) v
    (sm_blob_delete_requests r) (sm_mirror_rules r) (sm_proxy_caches r)
    (sm_proxy_cache_tag_validations r) (sm_warm_images r) (sm_sync_jobs r) (sm_sync_job_runs r)
    (sm_helm_charts r) (sm_helm_chart_versions r) (sm_personal_access_tokens r)
    (sm_repositories r) (sm_policy_sets r) (sm_namespaces r) (sm_released_handles r)
    (sm_namespace_grants r) (sm_observed_identities r) (sm_namespace_grant_audit r).
Definition set_sm_blob_delete_requests (v : gmap string N) (r : StateMachineData) : StateMachineData :=
  MkStateMachineData (sm_last_applied_log r) (sm_last_membership r) (sm_manifests r) (sm_tags r)
    (sm_blob_ref_counts r) v (sm_mirror_rules r) (sm_proxy_caches r)
    (sm_proxy_cache_tag_validations r) (sm_warm_images r) (sm_sync_jobs r) (sm_sync_job_runs r)
    (sm_helm_charts r) (sm_helm_chart_versions r) (sm_personal_access_tokens r)
    (sm_repositories r) (sm_policy_sets r) (sm_namespaces r) (sm_released_handles r)
    (sm_namespace_grants r) (sm_observed_identities r) (sm_namespace_grant_audit r).
Definition set_sm_mirror_rules (v : gmap string MirrorRule) (r : StateMachineData) : StateMachineData :=
  MkStateMachineData (sm_last_applied_log r) (sm_last_membership r) (sm_manifests r) (sm_tags r)
    (sm_blob_ref_counts r) (sm_blob_delete_requests r) v (sm_proxy_caches r)
    (sm_proxy_cache_tag_validations r) (sm_warm_images r) (sm_sync_jobs r) (sm_sync_job_runs r)
    (sm_helm_charts r) (sm_helm_chart_versions r) (sm_personal_access_tokens r)
    (sm_repositories r) (sm_policy_sets r) (sm_namespaces r) (sm_released_handles r)
    (sm_namespace_grants r) (sm_observed_identities r) (sm_namespace_grant_audit r).
Definition set_sm_proxy_caches (v : gmap string ProxyCache) (r : StateMachineData) : StateMachineData :=
  MkStateMachineData (sm_last_applied_log r) (sm_last_membership r) (sm_manifests r) (sm_tags r)
    (sm_blob_ref_counts r) (sm_blob_delete_requests r) (sm_mirror_rules r) v
    (sm_proxy_cache_tag_validations r) (sm_warm_images r) (sm_sync_jobs r) (sm_sync_job_runs r)
    (sm_helm_charts r) (sm_helm_chart_versions r) (sm_personal_access_tokens r)
    (sm_repositories r) (sm_policy_sets r) (sm_namespaces r) (sm_released_handles r)
    (sm_namespace_grants r) (sm_observed_identities r) (sm_namespace_grant_audit r).
Definition set_sm_proxy_cache_tag_validations (v : ProxyCacheTagValidations) (r : StateMachineData) : StateMachineData :=
  MkStateMachineData (sm_last_applied_log r) (sm_last_membership r) (sm_manifests r) (sm_tags r)
    (sm_blob_ref_counts r) (sm_blob_delete_requests r) (sm_mirror_rules r) (sm_proxy_caches r) v
    (sm_warm_images r) (sm_sync_jobs r) (sm_sync_job_runs r) (sm_helm_charts r)
    (sm_helm_chart_versions r) (sm_personal_access_tokens r) (sm_repositories r)
    (sm_policy_sets r) (sm_namespaces r) (sm_released_handles r) (sm_namespace_grants r)
    (sm_observed_identities r) (sm_namespace_grant_audit r).
Definition set_sm_warm_images (v : gmap string WarmImage) (r : StateMachineData) : StateMachineData :=
  MkStateMachineData (sm_last_applied_log r) (sm_last_membership r) (sm_manifests r) (sm_tags r)
    (sm_blob_ref_counts r) (sm_blob_delete_requests r) (sm_mirror_rules r) (sm_proxy_caches r)
    (sm_proxy_cache_tag_validations r) v (sm_sync_jobs r) (sm_sync_job_runs r) (sm_helm_charts r)
    (sm_helm_chart_versions r) (sm_personal_access_tokens r) (sm_repositories r)
    (sm_policy_sets r) (sm_namespaces r) (sm_released_handles r) (sm_namespace_grants r)
    (sm_observed_identities r) (sm_namespace_grant_audit r).
Definition set_sm_sync_jobs (v : gmap string SyncJob) (r : StateMachineData) : StateMachineData :=
  MkStateMachineData (sm_last_applied_log r) (sm_last_membership r) (sm_manifests r) (sm_tags r)
    (sm_blob_ref_counts r) (sm_blob_delete_requests r) (sm_mirror_rules r) (sm_proxy_caches r)
    (sm_proxy_cache_tag_validations r) (sm_warm_images r) v (sm_sync_job_runs r)
    (sm_helm_charts r) (sm_helm_chart_versions r) (sm_personal_access_tokens r)
    (sm_repositories r) (sm_policy_sets r) (sm_namespaces r) (sm_released_handles r)
    (sm_namespace_grants r) (sm_observed_identities r) (sm_namespace_grant_audit r).
Definition set_sm_sync_job_runs (v : gmap string (list SyncJobRun)) (r : StateMachineData) : StateMachineData :=
  MkStateMachineData (sm_last_applied_log r) (sm_last_membership r) (sm_manifests r) (sm_tags r)
    (sm_blob_ref_counts r) (sm_blob_delete_requests r) (sm_mirror_rules r) (sm_proxy_caches r)
    (sm_proxy_cache_tag_validations r) (sm_warm_images r) (sm_sync_jobs r) v (sm_helm_charts r)
    (sm_helm_chart_versions r) (sm_personal_access_tokens r) (sm_repositories r)
    (sm_policy_sets r) (sm_namespaces r) (sm_released_handles r) (sm_namespace_grants r)
    (sm_observed_identities r) (sm_namespace_grant_audit r).
Definition set_sm_personal_access_tokens (v : gmap string PersonalAccessToken) (r : StateMachineData) : StateMachineData :=
  MkStateMachineData (sm_last_applied_log r) (sm_last_membership r) (sm_manifests r) (sm_tags r)
    (sm_blob_ref_counts r) (sm_blob_delete_requests r) (sm_mirror_rules r) (sm_proxy_caches r)
    (sm_proxy_cache_tag_validations r) (sm_warm_images r) (sm_sync_jobs r) (sm_sync_job_runs r)
    (sm_helm_charts r) (sm_helm_chart_versions r) v (sm_repositories r) (sm_policy_sets r)
    (sm_namespaces r) (sm_released_handles r) (sm_namespace_grants r) (sm_observed_identities r)
    (sm_namespace_grant_audit r).
Definition set_sm_repositories (v : gmap string Repository) (r : StateMachineData) : StateMachineData :=
  MkStateMachineData (sm_last_applied_log r) (sm_last_membership r) (sm_manifests r) (sm_tags r)
    (sm_blob_ref_counts r) (sm_blob_delete_requests r) (sm_mirror_rules r) (sm_proxy_caches r)
    (sm_proxy_cache_tag_validations r) (sm_warm_images r) (sm_sync_jobs r) (sm_sync_job_runs r)
    (sm_helm_charts r) (sm_helm_chart_versions r) (sm_personal_access_tokens r) v
    (sm_policy_sets r) (sm_namespaces r) (sm_released_handles r) (sm_namespace_grants r)
    (sm_observed_identities r) (sm_namespace_grant_audit r).
Definition set_sm_policy_sets (v : gmap string PolicySet) (r : StateMachineData) : StateMachineData :=
  MkStateMachineData (sm_last_applied_log r) (sm_last_membership r) (sm_manifests r) (sm_tags r)
    (sm_blob_ref_counts r) (sm_blob_delete_requests r) (sm_mirror_rules r) (sm_proxy_caches r)
    (sm_proxy_cache_tag_validations r) (sm_warm_images r) (sm_sync_jobs r) (sm_sync_job_runs r)
    (sm_helm_charts r) (sm_helm_chart_versions r) (sm_personal_access_tokens r)
    (sm_repositories r) v (sm_namespaces r) (sm_released_handles r) (sm_namespace_grants r)
    (sm_observed_identities r) (sm_namespace_grant_audit r).
Definition set_sm_namespaces (v : gmap string Namespace) (r : StateMachineData) : StateMachineData :=
  MkStateMachineData (sm_last_applied_log r) (sm_last_membership r) (sm_manifests r) (sm_tags r)
    (sm_blob_ref_counts r) (sm_blob_delete_requests r) (sm_mirror_rules r) (sm_proxy_caches r)
    (sm_proxy_cache_tag_validations r) (sm_warm_images r) (sm_sync_jobs r) (sm_sync_job_runs r)
    (sm_helm_charts r) (sm_helm_chart_versions r) (sm_personal_access_tokens r)
    (sm_repositories r) (sm_policy_sets r) v (sm_released_handles r) (sm_namespace_grants r)
    (sm_observed_identities r) (sm_namespace_grant_audit r).
Definition set_sm_released_handles (v : gmap string ReleasedHandle) (r : StateMachineData) : StateMachineData :=
  MkStateMachineData (sm_last_applied_log r) (sm_last_membership r) (sm_manifests r) (sm_tags r)
    (sm_blob_ref_counts r) (sm_blob_delete_requests r) (sm_mirror_rules r) (sm_proxy_caches r)
    (sm_proxy_cache_tag_validations r) (sm_warm_images r) (sm_sync_jobs r) (sm_sync_job_runs r)
    (sm_helm_charts r) (sm_helm_chart_versions r) (sm_personal_access_tokens r)
    (sm_repositories r) (sm_policy_sets r) (sm_namespaces r) v (sm_namespace_grants r)
    (sm_observed_identities r) (sm_namespace_grant_audit r).
Definition set_sm_namespace_grants (v : gmap string (gmap string NamespaceGrant)) (r : StateMachineData) : StateMachineData :=
  MkStateMachineData (sm_last_applied_log r) (sm_last_membership r) (sm_manifests r) (sm_tags r)
    (sm_blob_ref_counts r) (sm_blob_delete_requests r) (sm_mirror_rules r) (sm_proxy_caches r)
    (sm_proxy_cache_tag_validations r) (sm_warm_images r) (sm_sync_jobs r) (sm_sync_job_runs r)
    (sm_helm_charts r) (sm_helm_chart_versions r) (sm_personal_access_tokens r)
    (sm_repositories r) (sm_policy_sets r) (sm_namespaces r) (sm_released_handles r) v
    (sm_observed_identities r) (sm_namespace_grant_audit r).
Definition set_sm_observed_identities (v : gmap Subject ObservedIdentity) (r : StateMachineData) : StateMachineData :=
  MkStateMachineData (sm_last_applied_log r) (sm_last_membership r) (sm_manifests r) (sm_tags r)
    (sm_blob_ref_counts r) (sm_blob_delete_requests r) (sm_mirror_rules r) (sm_proxy_caches r)
    (sm_proxy_cache_tag_validations r) (sm_warm_images r) (sm_sync_jobs r) (sm_sync_job_runs r)
    (sm_helm_charts r) (sm_helm_chart_versions r) (sm_personal_access_tokens r)
    (sm_repositories r) (sm_policy_sets r) (sm_namespaces r) (sm_released_handles r)
    (sm_namespace_grants r) v (sm_namespace_grant_audit r).
Definition set_sm_namespace_grant_audit (v : gmap string (list NamespaceGrantAuditEvent)) (r : StateMachineData) : StateMachineData :=
  MkStateMachineData (sm_last_applied_log r) (sm_last_membership r) (sm_manifests r) (sm_tags r)
    (sm_blob_ref_counts r) (sm_blob_delete_requests r) (sm_mirror_rules r) (sm_proxy_caches r)
    (sm_proxy_cache_tag_validations r) (sm_warm_images r) (sm_sync_jobs r) (sm_sync_job_runs r)
    (sm_helm_charts r) (sm_helm_chart_versions r) (sm_personal_access_tokens r)
    (sm_repositories r) (sm_policy_sets r) (sm_namespaces r) (sm_released_handles r)
    (sm_namespace_grants r) (sm_observed_identities r) v.

Definition StateMachineData_default : StateMachineData :=
  MkStateMachineData None default_membership ∅ ∅ ∅ ∅ ∅ ∅ ∅ ∅ ∅ ∅ ∅ ∅ ∅ ∅ ∅ ∅ ∅ ∅ ∅ ∅.

(** * Reads used while applying *)

Definition is_digest_reference (reference : string) : bool :=
  Str.starts_with "sha256:" reference || Str.starts_with "sha512:" reference.

Definition get_manifest (d : StateMachineData) (name reference : string) : option ManifestEntry :=
  if is_digest_reference reference then
    repo ← sm_manifests d !! name; repo !! reference
  else
    repo_tags ← sm_tags d !! name; digest ← repo_tags !! reference;
    repo ← sm_manifests d !! name; repo !! digest.

Definition blob_ref_count_str (d : StateMachineData) (digest : string) : N :=
  default 0%N (sm_blob_ref_counts d !! digest).

(** ** Blob reference counters *)

Definition increment_ref (counts : gmap string N) (digest : Digest) : gmap string N :=
  let key := digest_to_string digest in
  <[key := U64.add (default 0%N (counts !! key)) 1]> counts.

Definition decrement_ref (counts : gmap string N) (digest : Digest) : gmap string N :=
  let key := digest_to_string digest in
  match counts !! key with
  | Some count =>
      let count' := U64.saturating_sub count 1 in
      if bool_decide (count' = 0%N) then delete key counts else <[key := count']> counts
  | None => counts
  end.

Definition increment_blob_refs (counts : gmap string N) (e : ManifestEntry) : gmap string N :=
  foldl increment_ref counts (me_referenced_blobs e).
Definition decrement_blob_refs (counts : gmap string N) (e : ManifestEntry) : gmap string N :=
  foldl decrement_ref counts (me_referenced_blobs e).

(** ** The namespace precondition *)

Definition require_expected_namespace (d : StateMachineData) (repository : string)
    (expected : option NamespaceEpoch) : result () :=
  handle ← handle_of repository;
  if is_handle_reserved handle then Ok ()
  else match expected with
  | None => Err (Denied [Lit "namespace "; Dbg handle;
                   Lit " was not live when request was authorized"])
  | Some e =>
      if negb (bool_decide (ep_handle e = handle)) then
        Err (NameInvalid [Lit "expected namespace "; Dbg (ep_handle e);
               Lit " does not match repository "; Dbg repository])
      else match sm_namespaces d !! handle with
      | None => Err (NameUnknown [Lit "namespace "; Dbg handle;
                       Lit " does not exist (referenced by "; Dbg repository; Lit ")"])
      | Some current =>
          if negb (bool_decide (ns_generation current = ep_generation e)) then
            Err (Conflict [Lit "namespace "; Dbg handle; Lit " changed generation from ";
                   Num (ep_generation e); Lit " to "; Num (ns_generation current)])
          else Ok ()
      end
  end.

(** * Manifest requests *)

Context `{Externals}.

(** The references an entry is stored with: the valid digests of the request,
    or those of the body when there are none; sorted, without duplicates. *)
Definition normalize_refs (refs : list Digest) : list Digest :=
  dedup_by_key digest_to_string (sort_by_key digest_to_string refs).
Definition refs_or_body (refs : list Digest) (body : list Byte.byte) : list Digest :=
  match refs with
  | [] => match from_slice body with Some value => extract_referenced_digests value | None => [] end
  | _ => refs
  end.

(** [manifests.entry(name).or_default().insert(key, entry)]. *)
Definition insert_nested {A} (m : gmap string (gmap string A)) (name key : string) (x : A)
    : gmap string (gmap string A) :=
  <[name := <[key := x]> (default ∅ (m !! name))]> m.

Definition replace_manifest (d : StateMachineData) (name key : string) (entry : ManifestEntry)
    : StateMachineData :=
  let previous := repo ← sm_manifests d !! name; repo !! key in
  let d := set_sm_manifests (insert_nested (sm_manifests d) name key entry) d in
  let counts := match previous with
                | Some p => decrement_blob_refs (sm_blob_ref_counts d) p
                | None => sm_blob_ref_counts d
                end in
  set_sm_blob_ref_counts (increment_blob_refs counts entry) d.

Definition put_tag (d : StateMachineData) (name reference key : string) : StateMachineData :=
  let d := set_sm_proxy_cache_tag_validations
    (clear_proxy_cache_tag_validations_for_tag (sm_proxy_cache_tag_validations d) name reference) d in
  set_sm_tags (insert_nested (sm_tags d) name reference key) d.

Definition apply_put_manifest (d : StateMachineData) (name : string)
    (expected_namespace : option NamespaceEpoch) (reference : string)
    (require_reference_absent : bool) (digest content_type : string) (body : list Byte.byte)
    (subject artifact_type : option string) (annotations : option Value)
    (stored_size_bytes manifest_size_bytes created_at last_modified : N)
    (config_summary : option Value) (referenced_blobs : list string)
    : StateMachineData * result ManifestResponse :=
  try _ := require_expected_namespace d name expected_namespace at d;
  if require_reference_absent && negb (Str.contains_char ":" reference)
     && bool_decide (is_Some (get_manifest d name reference)) then
    (d, Err (Conflict [Lit "manifest reference "; Dbg reference; Lit " in repository "; Dbg name;
               Lit " was created before commit"]))
  else
    let digest_parsed := default (digest_sha256 sha256_hex body) (from_str_checked digest) in
    let subject_parsed := s ← subject; from_str_checked s in
    let refs := normalize_refs (refs_or_body (omap from_str_checked referenced_blobs) body) in
    let entry := MkManifestEntry digest_parsed content_type body refs subject_parsed artifact_type
      annotations stored_size_bytes manifest_size_bytes created_at last_modified config_summary in
    let entry_key := digest_to_string (me_digest entry) in
    let d := replace_manifest d name entry_key entry in
    let is_digest := Str.contains_char ":" reference in
    let d := if negb is_digest then put_tag d name reference entry_key else d in
    (d, Ok ManifestOk).

(** [for tag in removed_tags]: the tag validations of the repository's removed tags. *)
Definition clear_tags (v : ProxyCacheTagValidations) (name : string) (tags : list string)
    : ProxyCacheTagValidations :=
  foldl (λ v tag, clear_proxy_cache_tag_validations_for_tag v name tag) v tags.

(** [repo_tags.retain(..)] of the tags that do not point at a removed digest,
    with the removed tags in iteration order. *)
Definition retain_tags (d : StateMachineData) (name : string) (removed : string → bool)
    : StateMachineData * list string :=
  match sm_tags d !! name with
  | Some repo_tags =>
      (set_sm_tags (<[name := filter (λ p, removed p.2 = false) repo_tags]> (sm_tags d)) d,
       (filter (λ p, removed p.2 = true) (btree_entries repo_tags)).*1)
  | None => (d, [])
  end.

Definition drop_tags (d : StateMachineData) (name : string) (removed : string → bool)
    : StateMachineData * list string :=
  let '(d, removed_tags) := retain_tags d name removed in
  (set_sm_proxy_cache_tag_validations
     (clear_tags (sm_proxy_cache_tag_validations d) name removed_tags) d, removed_tags).

Definition apply_delete_manifest (d : StateMachineData) (name : string)
    (expected_namespace : option NamespaceEpoch) (digest : string)
    : StateMachineData * result ManifestResponse :=
  try _ := require_expected_namespace d name expected_namespace at d;
  let removed := repo ← sm_manifests d !! name; repo !! digest in
  let d := set_sm_manifests (alter (delete digest) name (sm_manifests d)) d in
  let d := match removed with
           | Some entry => set_sm_blob_ref_counts (decrement_blob_refs (sm_blob_ref_counts d) entry) d
           | None => d
           end in
  let '(d, _) := drop_tags d name (λ x, bool_decide (x = digest)) in
  (d, Ok ManifestOk).

Definition apply_delete_tag (d : StateMachineData) (name : string)
    (expected_namespace : option NamespaceEpoch) (digest tag : string)
    : StateMachineData * result ManifestResponse :=
  try _ := require_expected_namespace d name expected_namespace at d;
  let removed :=
    match sm_tags d !! name with
    | Some repo_tags => bool_decide (repo_tags !! tag = Some digest)
    | None => false
    end in
  if removed then
    let d := set_sm_tags (alter (delete tag) name (sm_tags d)) d in
    let d := set_sm_proxy_cache_tag_validations
      (clear_proxy_cache_tag_validations_for_tag (sm_proxy_cache_tag_validations d) name tag) d in
    (d, Ok (ManifestBool true))
  else (d, Ok (ManifestBool false)).

Definition apply_delete_repository (d : StateMachineData) (name : string)
    (expected_namespace : option NamespaceEpoch) : StateMachineData * result ManifestResponse :=
  try _ := require_expected_namespace d name expected_namespace at d;
  let removed := sm_manifests d !! name in
  let d := set_sm_manifests (delete name (sm_manifests d)) d in
  let d := match removed with
           | Some ms => set_sm_blob_ref_counts
                          (foldl decrement_blob_refs (sm_blob_ref_counts d) (btree_values ms)) d
           | None => d
           end in
  let deleted_manifests := default 0 (size <$> removed) in
  let deleted_tags := default 0 (size <$> sm_tags d !! name) in
  let d := set_sm_tags (delete name (sm_tags d)) d in
  let d := set_sm_proxy_cache_tag_validations
    (clear_proxy_cache_tag_validations_for_repository (sm_proxy_cache_tag_validations d) name) d in
  (d, Ok (ManifestDeleteCounts (MkDeleteCounts deleted_manifests deleted_tags))).

(** The loop [for digest in &digest_set]: the repository without the digests it
    held, and the removed entries in order. *)
Definition remove_each (repo : gmap string ManifestEntry) (digests : list string)
    : gmap string ManifestEntry * list ManifestEntry :=
  foldl (λ '(repo, removed) digest,
           match repo !! digest with
           | Some entry => (delete digest repo, removed ++ [entry])
           | None => (repo, removed)
           end) (repo, []) digests.

Definition apply_delete_manifests (d : StateMachineData) (name : string)
    (expected_namespace : option NamespaceEpoch) (digests : list string)
    : StateMachineData * result ManifestResponse :=
  try _ := require_expected_namespace d name expected_namespace at d;
  let digest_set : gset string := list_to_set digests in
  let '(d, removed) :=
    match sm_manifests d !! name with
    | Some repo =>
        let '(repo', removed) := remove_each repo (merge_sort String.le (elements digest_set)) in
        (set_sm_manifests (<[name := repo']> (sm_manifests d)) d, removed)
    | None => (d, [])
    end in
  let d := set_sm_blob_ref_counts (foldl decrement_blob_refs (sm_blob_ref_counts d) removed) d in
  let before := default 0 (size <$> sm_tags d !! name) in
  let '(d, _) := drop_tags d name (λ x, bool_decide (x ∈ digest_set)) in
  let deleted_tags := before - default 0 (size <$> sm_tags d !! name) in
  (d, Ok (ManifestDeleteCounts (MkDeleteCounts (length removed) deleted_tags))).

Definition apply_manifest (d : StateMachineData) (req : ManifestRequest)
    : StateMachineData * result ManifestResponse :=
  match req with
  | PutManifest name expected_namespace reference require_reference_absent digest content_type
      body subject artifact_type annotations stored_size_bytes manifest_size_bytes created_at
      last_modified config_summary referenced_blobs =>
      apply_put_manifest d name expected_namespace reference require_reference_absent digest
        content_type body subject artifact_type annotations stored_size_bytes manifest_size_bytes
        created_at last_modified config_summary referenced_blobs
  | DeleteManifest name expected_namespace digest =>
      apply_delete_manifest d name expected_namespace digest
  | DeleteTag name expected_namespace digest tag =>
      apply_delete_tag d name expected_namespace digest tag
  | DeleteRepository name expected_namespace => apply_delete_repository d name expected_namespace
  | DeleteManifests name expected_namespace digests =>
      apply_delete_manifests d name expected_namespace digests
  | MountBlob _ dest_repo expected_namespace _ =>
      try _ := require_expected_namespace d dest_repo expected_namespace at d;
      (d, Ok ManifestOk)
  | RecordBlobDelete digest requested_at =>
      let ref_count := blob_ref_count_str d digest in
      let d := set_sm_blob_delete_requests (<[digest := requested_at]> (sm_blob_delete_requests d)) d in
      (d, Ok (ManifestBlobDeleteStatus
                (MkBlobDeleteStatus digest (bool_decide (0 < ref_count)%N) ref_count)))
  | ClearBlobDelete digest =>
      (set_sm_blob_delete_requests (delete digest (sm_blob_delete_requests d)) d, Ok ManifestOk)
  end.

(** * Mirror configuration requests *)

Definition any_job_blocks (d : StateMachineData) (kind : SyncJobKind) (id : string) (now : N) : bool :=
  existsb (λ job, sync_job_blocks_trigger job kind id now) (btree_values (sm_sync_jobs d)).

Definition insert_job (d : StateMachineData) (job : SyncJob) : StateMachineData :=
  set_sm_sync_jobs (<[job_id job := job]> (sm_sync_jobs d)) d.

Definition apply_mirror_config (now : N) (d : StateMachineData) (req : MirrorConfigRequest)
    : StateMachineData * MirrorConfigResponse :=
  match req with
  | PutMirrorRule rule =>
      (set_sm_mirror_rules (<[mr_id rule := rule]> (sm_mirror_rules d)) d, MirrorOk)
  | DeleteMirrorRule id => (set_sm_mirror_rules (delete id (sm_mirror_rules d)) d, MirrorOk)
  | TriggerMirrorRule id =>
      match sm_mirror_rules d !! id with
      | None => (d, MirrorSyncJob None)
      | Some rule =>
          if any_job_blocks d MirrorJob id now then (d, MirrorBool false)
          else
            let job := mirror_rule_job rule (id +:+ "-" +:+ Str.of_u64 now) now 0 in
            (insert_job d job, MirrorSyncJob (Some job))
      end
  | PutProxyCache cache =>
      let d := set_sm_proxy_cache_tag_validations
        (clear_proxy_cache_tag_validations_for_cache (sm_proxy_cache_tag_validations d) (pc_id cache)) d in
      (set_sm_proxy_caches (<[pc_id cache := cache]> (sm_proxy_caches d)) d, MirrorOk)
  | DeleteProxyCache id =>
      let d := set_sm_proxy_caches (delete id (sm_proxy_caches d)) d in
      (set_sm_proxy_cache_tag_validations
         (clear_proxy_cache_tag_validations_for_cache (sm_proxy_cache_tag_validations d) id) d, MirrorOk)
  | TriggerProxyCacheWarm id =>
      match sm_proxy_caches d !! id with
      | None => (d, MirrorSyncJob None)
      | Some cache =>
          if any_job_blocks d ProxyCacheJob id now then (d, MirrorBool false)
          else
            let job := proxy_cache_warm_job cache now in
            (insert_job d job, MirrorSyncJob (Some job))
      end
  | PutProxyCacheTagValidation validation =>
      (set_sm_proxy_cache_tag_validations
         (put_proxy_cache_tag_validation (sm_proxy_cache_tag_validations d) validation) d, MirrorOk)
  | PutWarmImage image =>
      (set_sm_warm_images (<[wi_id image := image]> (sm_warm_images d)) d, MirrorOk)
  | DeleteWarmImage id => (set_sm_warm_images (delete id (sm_warm_images d)) d, MirrorOk)
  end.

(** * Job requests *)

(** [iter().position(|r| r.id == run.id)], then replace in place, or push and
    keep the last fifty. *)
Definition put_run (runs : list SyncJobRun) (run : SyncJobRun) : list SyncJobRun :=
  match list_find (λ r, run_id r = run_id run) runs with
  | Some (pos, _) => <[pos := run]> runs
  | None => keep_last 50 (runs ++ [run])
  end.

Definition apply_job (now : N) (d : StateMachineData) (req : JobRequest)
    : StateMachineData * JobResponse :=
  match req with
  | PutSyncJob job => (insert_job d job, JobOk)
  | DeleteSyncJob id =>
      let d := set_sm_sync_jobs (delete id (sm_sync_jobs d)) d in
      (set_sm_sync_job_runs (delete id (sm_sync_job_runs d)) d, JobOk)
  | ClaimSyncJob id node_id =>
      match sm_sync_jobs d !! id with
      | None => (d, JobBool false)
      | Some job =>
          if negb (bool_decide (job_status job = Idle)) then (d, JobBool false)
          else
            let job := set_job_status Running job in
            let job := set_job_claimed_by (Some node_id) job in
            let job := set_job_claimed_at (Some now) job in
            (set_sm_sync_jobs (<[id := job]> (sm_sync_jobs d)) d, JobBool true)
      end
  | TriggerSyncJob id =>
      match sm_sync_jobs d !! id with
      | None => (d, JobBool false)
      | Some job =>
          if bool_decide (job_status job = Running) then (d, JobBool false)
          else
            let job := set_job_status Idle job in
            let job := set_job_claimed_by None job in
            let job := set_job_claimed_at None job in
            let job := set_job_last_error None job in
            let job := set_job_next_run_at now job in
            (set_sm_sync_jobs (<[id := job]> (sm_sync_jobs d)) d, JobBool true)
      end
  | PutSyncJobRun run =>
      let runs := default [] (sm_sync_job_runs d !! run_job_id run) in
      (set_sm_sync_job_runs (<[run_job_id run := put_run runs run]> (sm_sync_job_runs d)) d, JobOk)
  end.

(** * Token, policy and repository requests *)

Definition apply_token (d : StateMachineData) (req : TokenRequest)
    : StateMachineData * TokenResponse :=
  match req with
  | PutPersonalAccessToken token =>
      (set_sm_personal_access_tokens (<[pat_id token := token]> (sm_personal_access_tokens d)) d,
       TokenOk)
  | DeletePersonalAccessToken id subject =>
      let should_delete :=
        match sm_personal_access_tokens d !! id with
        | Some t => bool_decide (pat_subject t = subject)
        | None => false
        end in
      let d := if should_delete
               then set_sm_personal_access_tokens (delete id (sm_personal_access_tokens d)) d
               else d in
      (d, TokenBool should_delete)
  end.

Definition validate_policy_set (policy : PolicySet) : result () :=
  if Str.is_empty (Str.trim (ps_id policy)) then
    Err (NameInvalid [Lit "policy id is required"])
  else if Str.is_empty (Str.trim (ps_name policy)) then
    Err (NameInvalid [Lit "policy name is required"])
  else if Str.is_empty (Str.trim (ps_cedar_text policy)) then
    Err (NameInvalid [Lit "policy cedar_text is required"])
  else match cedar_policy_error (ps_cedar_text policy) with
       | Some m => Err (NameInvalid m)
       | None => Ok ()
       end.

Definition apply_policy (d : StateMachineData) (req : PolicyRequest)
    : StateMachineData * result PolicyResponse :=
  match req with
  | PutPolicySet policy =>
      try _ := validate_policy_set policy at d;
      (set_sm_policy_sets (<[ps_id policy := policy]> (sm_policy_sets d)) d, Ok PolicyOk)
  | DeletePolicySet id =>
      (set_sm_policy_sets (delete id (sm_policy_sets d)) d,
       Ok (PolicyBool (bool_decide (is_Some (sm_policy_sets d !! id)))))
  end.

Definition apply_repository (d : StateMachineData) (req : RepositoryRequest)
    : StateMachineData * result RepositoryResponse :=
  match req with
  | PutRepository repository expected_namespace =>
      try _ := require_expected_namespace d (repo_name repository) expected_namespace at d;
      (set_sm_repositories (<[repo_name repository := repository]> (sm_repositories d)) d,
       Ok RepositoryOk)
  | DeleteRepositoryObject name expected_namespace =>
      try _ := require_expected_namespace d name expected_namespace at d;
      let removed := bool_decide (is_Some (sm_repositories d !! name)) in
      (set_sm_repositories (delete name (sm_repositories d)) d, Ok (RepositoryBool removed))
  end.

(** * Namespace requests *)

(** The collections [apply_namespace_core] may mutate. *)
Record NamespaceMaps := MkNamespaceMaps {
  nm_namespaces : gmap string Namespace;
  nm_released_handles : gmap string ReleasedHandle;
  nm_namespace_grants : gmap string (gmap string NamespaceGrant);
  nm_namespace_grant_audit : gmap string (list NamespaceGrantAuditEvent);
  nm_observed_identities : gmap Subject ObservedIdentity;
}.
Definition set_nm_namespaces (v : gmap string Namespace) (r : NamespaceMaps) : NamespaceMaps :=
  MkNamespaceMaps v (nm_released_handles r) (nm_namespace_grants r) (nm_namespace_grant_audit r)
    (nm_observed_identities r).
Definition set_nm_released_handles (v : gmap string ReleasedHandle) (r : NamespaceMaps) : NamespaceMaps :=
  MkNamespaceMaps (nm_namespaces r) v (nm_namespace_grants r) (nm_namespace_grant_audit r)
    (nm_observed_identities r).
Definition set_nm_namespace_grants (v : gmap string (gmap string NamespaceGrant)) (r : NamespaceMaps) : NamespaceMaps :=
  MkNamespaceMaps (nm_namespaces r) (nm_released_handles r) v (nm_namespace_grant_audit r)
    (nm_observed_identities r).
Definition set_nm_namespace_grant_audit (v : gmap string (list NamespaceGrantAuditEvent)) (r : NamespaceMaps) : NamespaceMaps :=
  MkNamespaceMaps (nm_namespaces r) (nm_released_handles r) (nm_namespace_grants r) v
    (nm_observed_identities r).
Definition set_nm_observed_identities (v : gmap Subject ObservedIdentity) (r : NamespaceMaps) : NamespaceMaps :=
  MkNamespaceMaps (nm_namespaces r) (nm_released_handles r) (nm_namespace_grants r)
    (nm_namespace_grant_audit r) v.

Definition release_reason_label (reason : ReleaseReason) : string :=
  match reason with
  | OwnerDeleted => "owner-deleted"
  | AdminRevoked => "admin-revoked"
  | Renamed _ => "renamed"
  end.

Definition validate_namespace_grant (namespaces : gmap string Namespace) (grant : NamespaceGrant)
    : result () :=
  _ ← validate_handle (ng_namespace grant);
  if negb (bool_decide (is_Some (namespaces !! ng_namespace grant))) then
    Err (NameUnknown [Lit "namespace "; Dbg (ng_namespace grant); Lit " is not currently claimed"])
  else
    match ng_grantee grant with
    | GranteeGroup id => _ ← PrincipalRef_group id; Ok ()
    | GranteeUser id => _ ← PrincipalRef_user id; Ok ()
    | GranteePublic =>
        if negb (bool_decide (ng_action grant = Pull)) then
          Err (Denied [Lit "public namespace grants are pull-only"])
        else Ok ()
    end.

Definition owner_kind (o : Owner) : string :=
  match o with OwnerUser _ => "user" | OwnerOrg _ => "org" end.

Definition core_claim (m : NamespaceMaps) (handle : string) (owner : Owner) (owner_label : string)
    (admin_override : bool) (now : N) : NamespaceMaps * result NamespaceResponse :=
  try _ := validate_handle handle at m;
  if is_handle_reserved handle then
    (m, Err (Denied [Lit "handle "; Dbg handle;
               Lit " is reserved by the system and cannot be claimed"]))
  else match nm_namespaces m !! handle with
  | Some n =>
      (m, Err (Conflict [Lit "handle "; Dbg handle; Lit " is already claimed by a ";
                 Disp (owner_kind (ns_owner n))]))
  | None =>
      try generation :=
        match nm_released_handles m !! handle with
        | Some tomb =>
            if negb admin_override then
              Err (Denied [Lit "handle "; Dbg handle; Lit " was previously released (";
                     Disp (release_reason_label (rh_release_reason tomb));
                     Lit "); reclaim requires admin override"])
            else ok_or (Conflict [Lit "handle "; Dbg handle;
                   Lit " cannot be reclaimed because its namespace generation is exhausted"])
                   (U64.checked_add (rh_prior_generation tomb) 1)
        | None => Ok 1%N
        end at m;
      let m := set_nm_released_handles (delete handle (nm_released_handles m)) m in
      let m := set_nm_namespaces
        (<[handle := MkNamespace handle generation owner owner_label now]> (nm_namespaces m)) m in
      (m, Ok NamespaceOk)
  end.

(** The tail shared by release and revocation: drop the claim and its grants,
    record the tombstone. *)
Definition release_namespace (m : NamespaceMaps) (handle : string) (n : Namespace) (actor : Subject)
    (reason : ReleaseReason) (now : N) : NamespaceMaps :=
  let m := set_nm_namespaces (delete handle (nm_namespaces m)) m in
  let m := set_nm_namespace_grants (delete handle (nm_namespace_grants m)) m in
  set_nm_released_handles
    (<[handle := MkReleasedHandle handle (ns_owner n) (ns_generation n) (ns_owner_label n) now
                   actor reason]> (nm_released_handles m)) m.

Definition core_delete (m : NamespaceMaps) (has_content : string → bool) (handle : string)
    (actor : Subject) (reason : ReleaseReason) (now : N) : NamespaceMaps * result NamespaceResponse :=
  match nm_namespaces m !! handle with
  | None => (m, Err (NameUnknown [Lit "handle "; Dbg handle; Lit " is not currently claimed"]))
  | Some n =>
      let is_owner := match ns_owner n with
                      | OwnerUser subject => bool_decide (actor = subject)
                      | OwnerOrg _ => false
                      end in
      if negb is_owner then
        (m, Err (Denied [Lit "handle "; Dbg handle; Lit " is not owned by the caller"]))
      else if has_content handle then
        (m, Err (Conflict [Lit "handle "; Dbg handle;
                   Lit " still owns repositories or manifests; delete them before releasing"]))
      else (release_namespace m handle n actor reason now, Ok NamespaceOk)
  end.

Definition core_admin_revoke (m : NamespaceMaps) (has_content : string → bool) (handle : string)
    (actor : Subject) (now : N) : NamespaceMaps * result NamespaceResponse :=
  if has_content handle then
    (m, Err (Conflict [Lit "handle "; Dbg handle;
               Lit " still owns repositories or manifests; delete them before revoking"]))
  else match nm_namespaces m !! handle with
  | None => (m, Err (NameUnknown [Lit "handle "; Dbg handle; Lit " is not currently claimed"]))
  | Some n => (release_namespace m handle n actor AdminRevoked now, Ok NamespaceOk)
  end.

Definition push_audit (m : NamespaceMaps) (namespace : string) (ev : NamespaceGrantAuditEvent)
    : NamespaceMaps :=
  set_nm_namespace_grant_audit
    (<[namespace := default [] (nm_namespace_grant_audit m !! namespace) ++ [ev]]>
       (nm_namespace_grant_audit m)) m.

Definition core_put_grant (m : NamespaceMaps) (grant : NamespaceGrant)
    (actor_label reason audit_id : string) : NamespaceMaps * result NamespaceResponse :=
  try _ := validate_namespace_grant (nm_namespaces m) grant at m;
  let grants := default ∅ (nm_namespace_grants m !! ng_namespace grant) in
  let before := grants !! ng_id grant in
  let grant := match before with
               | Some existing =>
                   set_ng_created_at (ng_created_at existing)
                     (set_ng_created_by (ng_created_by existing) grant)
               | None => grant
               end in
  let operation := match before with Some _ => AuditUpdate | None => AuditCreate end in
  let m := set_nm_namespace_grants
    (<[ng_namespace grant := <[ng_id grant := grant]> grants]> (nm_namespace_grants m)) m in
  let m := push_audit m (ng_namespace grant)
    (MkNamespaceGrantAuditEvent audit_id (ng_namespace grant) (Some (ng_id grant)) operation
       (ng_updated_by grant) actor_label reason before (Some grant) (ng_updated_at grant)) in
  (m, Ok (NamespaceGrantResp grant)).

Definition core_delete_grant (m : NamespaceMaps) (handle grant_id : string) (actor : Subject)
    (actor_label reason : string) (now : N) (audit_id : string)
    : NamespaceMaps * result NamespaceResponse :=
  try _ := validate_handle handle at m;
  if negb (bool_decide (is_Some (nm_namespaces m !! handle))) then
    (m, Err (NameUnknown [Lit "namespace "; Dbg handle; Lit " is not currently claimed"]))
  else
    let before := grants ← nm_namespace_grants m !! handle; grants !! grant_id in
    let m := set_nm_namespace_grants (alter (delete grant_id) handle (nm_namespace_grants m)) m in
    let should_remove_map :=
      match nm_namespace_grants m !! handle with Some g => bool_decide (g = ∅) | None => false end in
    let m := if should_remove_map
             then set_nm_namespace_grants (delete handle (nm_namespace_grants m)) m else m in
    match before with
    | Some before =>
        (push_audit m handle
           (MkNamespaceGrantAuditEvent audit_id handle (Some grant_id) AuditDelete actor actor_label
              reason (Some before) None now), Ok (NamespaceBool true))
    | None => (m, Ok (NamespaceBool false))
    end.

Definition apply_namespace_core (m : NamespaceMaps) (req : NamespaceRequest)
    (has_content : string → bool) : NamespaceMaps * result NamespaceResponse :=
  match req with
  | Claim handle owner owner_label _ admin_override now =>
      core_claim m handle owner owner_label admin_override now
  | DeleteNamespace handle actor reason now => core_delete m has_content handle actor reason now
  | AdminRevoke handle actor now => core_admin_revoke m has_content handle actor now
  | PutGrant grant actor_label reason audit_id => core_put_grant m grant actor_label reason audit_id
  | DeleteGrant handle grant_id actor actor_label reason now audit_id =>
      core_delete_grant m handle grant_id actor actor_label reason now audit_id
  | PutObservedIdentity identity =>
      (set_nm_observed_identities (<[oi_subject identity := identity]> (nm_observed_identities m)) m,
       Ok NamespaceOk)
  end.

Definition any_key_with_prefix {A} (m : gmap string A) (prefix : string) : bool :=
  existsb (Str.starts_with prefix) (btree_keys m).

(** The content check of [apply_namespace]. *)
Definition handle_has_content (d : StateMachineData) (handle : string) : bool :=
  let prefix := handle +:+ "/" in
  any_key_with_prefix (sm_manifests d) prefix || any_key_with_prefix (sm_tags d) prefix
    || any_key_with_prefix (sm_repositories d) prefix.

Definition namespace_maps (d : StateMachineData) : NamespaceMaps :=
  MkNamespaceMaps (sm_namespaces d) (sm_released_handles d) (sm_namespace_grants d)
    (sm_namespace_grant_audit d) (sm_observed_identities d).
Definition set_namespace_maps (m : NamespaceMaps) (d : StateMachineData) : StateMachineData :=
  set_sm_namespaces (nm_namespaces m)
    (set_sm_released_handles (nm_released_handles m)
       (set_sm_namespace_grants (nm_namespace_grants m)
          (set_sm_namespace_grant_audit (nm_namespace_grant_audit m)
             (set_sm_observed_identities (nm_observed_identities m) d)))).

Definition apply_namespace (d : StateMachineData) (req : NamespaceRequest)
    : StateMachineData * result NamespaceResponse :=
  let '(m, r) := apply_namespace_core (namespace_maps d) req (handle_has_content d) in
  (set_namespace_maps m d, r).

(** * Requests and log entries *)

Definition error_to_response (e : LayerhouseError) : Response :=
  match e with
  | NameUnknown msg => RespNameUnknown msg
  | Denied msg => RespDenied msg
  | Conflict msg => RespConflict msg
  | NameInvalid msg => RespNameInvalid msg
  | BlobUnknown msg | BlobUploadInvalid msg | BlobUploadUnknown msg | DigestInvalid msg
  | ManifestBlobUnknown msg | ManifestInvalid msg | ManifestUnknown msg | SizeInvalid msg
  | Unsupported msg | TooManyRequests msg | S3 msg | Serialization msg | Upstream msg
  | NotLeader msg | Consensus msg | Internal msg => RespInternalError msg
  | Unauthorized msg _ _ _ => RespInternalError msg
  | Io io_text => RespInternalError io_text
  end.

(** [match r { Ok(r) => wrap(r), Err(e) => error_to_response(e) }]; [None] is a panic. *)
Definition respond {A} (wrap : A → Response) (dr : StateMachineData * result A)
    : StateMachineData * option Response :=
  (dr.1, match dr.2 with
         | Ok a => Some (wrap a)
         | Err e => Some (error_to_response e)
         | Panic => None
         end).

Definition apply_request (now : N) (d : StateMachineData) (req : Request)
    : StateMachineData * option Response :=
  match req with
  | ReqManifest r => respond RespManifest (apply_manifest d r)
  | ReqMirrorConfig r =>
      let '(d, resp) := apply_mirror_config now d r in (d, Some (RespMirrorConfig resp))
  | ReqJob r => let '(d, resp) := apply_job now d r in (d, Some (RespJob resp))
  | ReqToken r => let '(d, resp) := apply_token d r in (d, Some (RespToken resp))
  | ReqPolicy r => respond RespPolicy (apply_policy d r)
  | ReqRepository r => respond RespRepository (apply_repository d r)
  | ReqNamespace r => respond RespNamespace (apply_namespace d r)
  end.

Inductive EntryPayload :=
  | Blank
  | MembershipChange (m : Membership)
  | Normal (req : Request).

Record Entry := MkEntry {
  entry_log_id : LogId;
  entry_payload : EntryPayload;
}.

(** One iteration of the loop of [apply]; [now] is the clock while it runs. *)
Definition apply_entry (now : N) (d : StateMachineData) (entry : Entry)
    : StateMachineData * option Response :=
  let d := set_sm_last_applied_log (Some (entry_log_id entry)) d in
  match entry_payload entry with
  | Blank => (d, Some (RespManifest ManifestOk))
  | MembershipChange m =>
      (set_sm_last_membership (stored_membership (Some (entry_log_id entry)) m) d,
       Some (RespManifest ManifestOk))
  | Normal req => apply_request now d req
  end.

(** The loop: responses in order, or [None] if an entry panicked. *)
Fixpoint apply (clock : nat → N) (d : StateMachineData) (entries : list Entry)
    : StateMachineData * option (list Response) :=
  match entries with
  | [] => (d, Some [])
  | entry :: entries' =>
      match apply_entry (clock 0) d entry with
      | (d', Some resp) =>
          let '(d'', resps) := apply (λ i, clock (S i)) d' entries' in
          (d'', cons resp <$> resps)
      | (d', None) => (d', None)
      end
  end.

End state.

#[global] Arguments StateMachineData {_ _}.
#[global] Arguments Entry {_ _}.
#[global] Arguments EntryPayload {_ _}.
