(* ===== verification/RefCounts.v ===== *)
(** Blob reference counting: the incrementally maintained [blob_ref_counts]
    index of the state machine against the number of stored manifests that
    reference a blob, which is what the garbage collector relies on. *)

From Stdlib Require Import Ascii.
From stdpp Require Import options.
From S2P Require Import Prelude Errors Digests Manifests Handles SyncRuns Types StateMachine.

(** * Specification *)

Section spec.
Context `{SJ : SerdeJson, OR : Openraft}.
Implicit Types (e : ManifestEntry) (ms : gmap string (gmap string ManifestEntry)).

Definition ref_keys e : list string := digest_to_string <$> me_referenced_blobs e.

(** One manifest counts at most once towards a blob. *)
Definition key_weight (k : string) (keys : list string) : N :=
  if decide (k ∈ keys) then 1%N else 0%N.
Definition ref_weight (k : string) e : N := key_weight k (ref_keys e).

(** The number of stored manifests, over all repositories, that reference [k]. *)
Definition manifest_refs (k : string) ms : N := map_sum (map_sum (ref_weight k)) ms.

(** The number of stored manifests. *)
Definition manifest_total ms : N := map_sum (λ repo, N.of_nat (size repo)) ms.

(** [counts] is the index of [f]: every non-zero count, and nothing else. *)
Definition counts_agree (counts : gmap string N) (f : string → N) : Prop :=
  ∀ k, counts !! k = if decide (f k = 0%N) then None else Some (f k).

Definition refs_nodup ms : Prop :=
  ∀ name repo key e, ms !! name = Some repo → repo !! key = Some e → NoDup (ref_keys e).

Definition ref_inv (d : StateMachineData) : Prop :=
  refs_nodup (sm_manifests d) ∧
  counts_agree (sm_blob_ref_counts d) (λ k, manifest_refs k (sm_manifests d)).
End spec.

(** * Lemmas on the counters *)

Section counters.
Context `{SJ : SerdeJson, OR : Openraft}.
Implicit Types (e : ManifestEntry) (ms : gmap string (gmap string ManifestEntry)).

Lemma counts_agree_ext c f g : (∀ k, f k = g k) → counts_agree c f → counts_agree c g.
Proof. intros Hfg Hc k. by rewrite <-Hfg. Qed.

Lemma counts_agree_default c f k : counts_agree c f → default 0%N (c !! k) = f k.
Proof. intros ->. by case_decide. Qed.

Lemma key_weight_cons k x l :
  x ∉ l → key_weight k (x :: l) = ((if decide (k = x) then 1 else 0) + key_weight k l)%N.
Proof.
  intros Hx. unfold key_weight. repeat case_decide; subst; set_unfold; naive_solver lia.
Qed.

Lemma key_weight_le k l : (key_weight k l ≤ 1)%N.
Proof. unfold key_weight. case_decide; lia. Qed.

Lemma increment_ref_agree c f r :
  counts_agree c f → (f (digest_to_string r) + 1 < U64.modulus)%N →
  counts_agree (increment_ref c r) (λ k, (if decide (k = digest_to_string r) then 1 else 0) + f k)%N.
Proof.
  intros Hc Hb k. unfold increment_ref. rewrite (counts_agree_default c f) by done.
  destruct (decide (k = digest_to_string r)) as [->|Hk].
  - rewrite lookup_insert_eq, U64.add_small by done. rewrite decide_False by lia. f_equal. lia.
  - by rewrite lookup_insert_ne, Hc by done.
Qed.

Lemma decrement_ref_agree c f r :
  counts_agree c f →
  counts_agree (decrement_ref c r) (λ k, f k - (if decide (k = digest_to_string r) then 1 else 0))%N.
Proof.
  intros Hc k. unfold decrement_ref, U64.saturating_sub. rewrite (Hc (digest_to_string r)).
  destruct (decide (k = digest_to_string r)) as [->|Hk].
  - case_decide as H0; [by rewrite Hc, H0|].
    case_bool_decide as H1; [rewrite lookup_delete_eq|rewrite lookup_insert_eq];
      by case_decide.
  - rewrite N.sub_0_r. case_decide as H0; [apply Hc|].
    case_bool_decide as H1; [rewrite lookup_delete_ne|rewrite lookup_insert_ne]; done.
Qed.

Lemma increment_blob_refs_agree c f e :
  counts_agree c f → NoDup (ref_keys e) → (∀ k, (f k + ref_weight k e < U64.modulus)%N) →
  counts_agree (increment_blob_refs c e) (λ k, f k + ref_weight k e)%N.
Proof.
  unfold increment_blob_refs, ref_weight, ref_keys. generalize (me_referenced_blobs e) as refs.
  intros refs. revert c f. induction refs as [|r refs IH]; intros c f Hc Hnd Hb; csimpl.
  { eapply counts_agree_ext; [|done]. intros k. unfold key_weight. simpl. lia. }
  apply NoDup_cons in Hnd as [Hr Hnd]. csimpl in Hb.
  assert (∀ k, f k + key_weight k (digest_to_string r :: (digest_to_string <$> refs)) =
    ((if decide (k = digest_to_string r) then 1 else 0) + f k)
      + key_weight k (digest_to_string <$> refs))%N as Heq
    by (intros k; rewrite key_weight_cons by done; lia).
  eapply counts_agree_ext; [intros k; symmetry; apply Heq|]. apply IH.
  - apply increment_ref_agree; [done|]. specialize (Hb (digest_to_string r)).
    rewrite Heq, decide_True in Hb by done. lia.
  - done.
  - intros k. by rewrite <-Heq.
Qed.

Lemma decrement_blob_refs_agree c f e :
  counts_agree c f → NoDup (ref_keys e) →
  counts_agree (decrement_blob_refs c e) (λ k, f k - ref_weight k e)%N.
Proof.
  unfold decrement_blob_refs, ref_weight, ref_keys. generalize (me_referenced_blobs e) as refs.
  intros refs. revert c f. induction refs as [|r refs IH]; intros c f Hc Hnd; csimpl.
  { eapply counts_agree_ext; [|done]. intros k. unfold key_weight. simpl. lia. }
  apply NoDup_cons in Hnd as [Hr Hnd].
  eapply counts_agree_ext; [|apply IH; [by apply (decrement_ref_agree c f r)|done]].
  intros k. simpl. rewrite key_weight_cons by done. lia.
Qed.

Lemma decrement_all_agree c f (es : list ManifestEntry) :
  counts_agree c f → Forall (λ e, NoDup (ref_keys e)) es →
  counts_agree (foldl decrement_blob_refs c es)
    (λ k, f k - foldr (λ e n, ref_weight k e + n) 0 es)%N.
Proof.
  revert c f. induction es as [|e es IH]; intros c f Hc Hnd; simpl.
  { eapply counts_agree_ext; [|done]. intros k. simpl. lia. }
  apply Forall_cons in Hnd as [He Hes].
  eapply counts_agree_ext; [|apply IH; [by apply decrement_blob_refs_agree|done]].
  intros k. simpl. lia.
Qed.

(** ** Sums over the stored manifests *)

Lemma foldr_sum_perm {A} (g : A → N) (l1 l2 : list A) :
  l1 ≡ₚ l2 → foldr (λ x n, g x + n)%N 0%N l1 = foldr (λ x n, g x + n)%N 0%N l2.
Proof. induction 1; simpl; lia. Qed.

Lemma foldr_values_sum (g : ManifestEntry → N) (repo : gmap string ManifestEntry) :
  foldr (λ e n, g e + n)%N 0%N (btree_values repo) = map_sum g repo.
Proof.
  unfold btree_values, map_sum. rewrite map_fold_foldr.
  rewrite (foldr_sum_perm g _ ((map_to_list repo).*2)) by by rewrite btree_entries_perm.
  induction (map_to_list repo) as [|[k e] l IH]; [done|].
  csimpl. by rewrite IH.
Qed.

Lemma manifest_refs_le k ms : (manifest_refs k ms ≤ manifest_total ms)%N.
Proof.
  apply map_sum_le. intros _ repo _.
  induction repo as [|key e repo Hk IH] using map_ind; [done|].
  rewrite map_sum_insert_None, map_size_insert_None by done.
  pose proof (key_weight_le k (ref_keys e)). unfold ref_weight at 1. lia.
Qed.

Lemma manifest_refs_insert_nested k ms name key e :
  (manifest_refs k (insert_nested ms name key e)
     + from_option (ref_weight k) 0 (repo ← ms !! name; repo !! key)
   = ref_weight k e + manifest_refs k ms)%N.
Proof.
  unfold manifest_refs, insert_nested.
  pose proof (map_sum_insert (map_sum (ref_weight k)) ms name
    (<[key:=e]> (default ∅ (ms !! name)))) as Hout.
  destruct (ms !! name) as [repo|]; simpl in *.
  - pose proof (map_sum_insert (ref_weight k) repo key e). lia.
  - rewrite (map_sum_insert_None (ref_weight k) ∅), map_sum_empty in Hout by apply lookup_empty.
    lia.
Qed.

Lemma manifest_refs_alter k ms name g :
  (manifest_refs k (alter g name ms) + from_option (map_sum (ref_weight k)) 0 (ms !! name)
   = from_option (λ repo, map_sum (ref_weight k) (g repo)) 0 (ms !! name) + manifest_refs k ms)%N.
Proof.
  unfold manifest_refs. destruct (ms !! name) as [repo|] eqn:E; simpl.
  - pose proof (map_sum_insert (map_sum (ref_weight k)) ms name (g repo)) as Hi.
    rewrite E in Hi. simpl in Hi. rewrite <-Hi. f_equal. f_equal.
    apply map_eq. intros i. rewrite lookup_alter, lookup_insert.
    case_decide; subst; [by rewrite E|done].
  - rewrite alter_id by (intros ? ?; congruence). lia.
Qed.

Lemma refs_nodup_insert_nested ms name key e :
  refs_nodup ms → NoDup (ref_keys e) → refs_nodup (insert_nested ms name key e).
Proof.
  intros Hms He name' repo' key' e'. unfold insert_nested. rewrite lookup_insert.
  case_decide as En; [|apply Hms]. intros [= <-]. rewrite lookup_insert.
  case_decide as Ek; [by intros [= <-]|]. destruct (ms !! name) eqn:E; simpl.
  - by apply (Hms name).
  - by rewrite lookup_empty.
Qed.

Lemma refs_nodup_sub ms name (g : gmap string ManifestEntry → gmap string ManifestEntry) :
  (∀ repo, ms !! name = Some repo → g repo ⊆ repo) → refs_nodup ms → refs_nodup (alter g name ms).
Proof.
  intros Hg Hms name' repo' key' e' H1 H2. rewrite lookup_alter in H1.
  case_decide; [|by eapply Hms]. apply fmap_Some in H1 as (repo & Hr & ->).
  eapply Hms; [exact Hr|]. subst. by eapply lookup_weaken, Hg.
Qed.

Lemma normalize_refs_nodup refs : NoDup (digest_to_string <$> normalize_refs refs).
Proof. apply NoDup_sort_dedup. Qed.
End counters.

(** * Preservation *)

Section preservation.
Context `{SJ : SerdeJson, OR : Openraft, EX : Externals}.
Implicit Types (d : StateMachineData) (e : ManifestEntry).

(** Operations that keep the manifests and the counters keep the invariant. *)
Lemma ref_inv_frame d d' :
  sm_manifests d' = sm_manifests d → sm_blob_ref_counts d' = sm_blob_ref_counts d →
  ref_inv d → ref_inv d'.
Proof. unfold ref_inv. by intros -> ->. Qed.

Lemma replace_manifest_inv d name key e :
  ref_inv d → NoDup (ref_keys e) →
  U64.fits (manifest_total (sm_manifests (replace_manifest d name key e))) →
  ref_inv (replace_manifest d name key e).
Proof.
  intros [Hnd Hc] He Hfit. unfold replace_manifest in *. simpl in *.
  split; simpl; [by apply refs_nodup_insert_nested|].
  set (prev := repo ← sm_manifests d !! name; repo !! key) in *.
  set (w := λ k, from_option (ref_weight k) 0%N prev).
  assert (counts_agree
    match prev with
    | Some p => decrement_blob_refs (sm_blob_ref_counts d) p
    | None => sm_blob_ref_counts d
    end (λ k, manifest_refs k (sm_manifests d) - w k)%N) as Hdec.
  { unfold w. destruct prev as [p|] eqn:Ep; simpl.
    - apply decrement_blob_refs_agree; [done|].
      apply bind_Some in Ep as (repo & Hr & Hp). by eapply Hnd.
    - eapply counts_agree_ext; [|done]. intros k. simpl. lia. }
  assert (∀ k, (manifest_refs k (sm_manifests d) - w k + ref_weight k e =
    manifest_refs k (insert_nested (sm_manifests d) name key e))%N) as Heq.
  { intros k. pose proof (manifest_refs_insert_nested k (sm_manifests d) name key e) as Hi.
    fold prev in Hi. change (from_option (ref_weight k) 0%N prev) with (w k) in Hi.
    assert (w k ≤ manifest_refs k (sm_manifests d))%N; [|lia].
    unfold w. destruct prev as [p|] eqn:Ep; simpl; [|lia].
    apply bind_Some in Ep as (repo & Hr & Hp). unfold manifest_refs.
    rewrite (map_sum_delete _ _ _ _ Hr), (map_sum_delete _ _ _ _ Hp). lia. }
  eapply counts_agree_ext; [exact Heq|]. apply increment_blob_refs_agree; [done..|].
  intros k. rewrite Heq. pose proof (manifest_refs_le k (insert_nested (sm_manifests d) name key e)).
  unfold U64.fits in Hfit. lia.
Qed.

Lemma drop_tags_frame d name f :
  sm_manifests (drop_tags d name f).1 = sm_manifests d ∧
  sm_blob_ref_counts (drop_tags d name f).1 = sm_blob_ref_counts d.
Proof. unfold drop_tags, retain_tags. by destruct (sm_tags d !! name). Qed.

(** Removing from one repository a part [g repo] whose entries are [es]. *)
Lemma remove_entries_inv d d' name (g : gmap string ManifestEntry → gmap string ManifestEntry)
    (es : list ManifestEntry) :
  ref_inv d → (∀ repo, sm_manifests d !! name = Some repo → g repo ⊆ repo) →
  (∀ k, (foldr (λ e n, ref_weight k e + n) 0 es
          + from_option (λ repo, map_sum (ref_weight k) (g repo)) 0 (sm_manifests d !! name)
         = from_option (map_sum (ref_weight k)) 0 (sm_manifests d !! name))%N) →
  Forall (λ e, NoDup (ref_keys e)) es →
  sm_manifests d' = alter g name (sm_manifests d) →
  sm_blob_ref_counts d' = foldl decrement_blob_refs (sm_blob_ref_counts d) es →
  ref_inv d'.
Proof.
  intros [Hnd Hc] Hg Hes Hesnd Hm Hcnt. split; rewrite Hm; [by apply refs_nodup_sub|].
  rewrite Hcnt. eapply counts_agree_ext; [|by apply decrement_all_agree].
  intros k. simpl. pose proof (manifest_refs_alter k (sm_manifests d) name g) as Ha.
  specialize (Hes k). lia.
Qed.

Lemma apply_delete_manifest_inv d name exp digest :
  ref_inv d → ref_inv (apply_delete_manifest d name exp digest).1.
Proof.
  intros Hinv. unfold apply_delete_manifest. apply try_with_fst; [done|]. intros _ _.
  set (removed := repo ← sm_manifests d !! name; repo !! digest).
  set (d1 := match removed with
             | Some entry => _ | None => _ end).
  assert (ref_inv d1) as H1.
  { apply (remove_entries_inv d d1 name (delete digest) (option_list removed)).
    - done.
    - intros repo _. apply delete_subseteq.
    - intros k. unfold removed. destruct (sm_manifests d !! name) as [repo|]; [|done]. simpl.
      rewrite (map_sum_delete_default (ref_weight k) repo digest).
      destruct (repo !! digest); simpl; lia.
    - destruct removed as [p|] eqn:Ep; [|constructor]. repeat constructor.
      apply bind_Some in Ep as (repo & Hr & Hp). by eapply Hinv.
    - unfold d1. by destruct removed.
    - unfold d1. by destruct removed. }
  destruct (drop_tags_frame d1 name (λ x, bool_decide (x = digest))) as [Hm Hc].
  destruct (drop_tags d1 name _) as [d2 ts]. simpl in *. by apply (ref_inv_frame d1).
Qed.

Lemma apply_delete_repository_inv d name exp :
  ref_inv d → ref_inv (apply_delete_repository d name exp).1.
Proof.
  intros Hinv. unfold apply_delete_repository. apply try_with_fst; [done|]. intros _ _.
  destruct Hinv as [Hnd Hc].
  assert (refs_nodup (delete name (sm_manifests d))) as Hnd'.
  { intros n repo key e Hn. apply lookup_delete_Some in Hn as [_ Hn]. by eapply Hnd. }
  destruct (sm_manifests d !! name) as [ms|] eqn:E; (split; [done|]); simpl.
  - eapply counts_agree_ext; [|apply decrement_all_agree; [exact Hc|]].
    + intros k. simpl. rewrite foldr_values_sum. unfold manifest_refs.
      rewrite (map_sum_delete _ _ _ _ E). lia.
    + apply Forall_forall. intros e [key He]%elem_of_btree_values. by eapply Hnd.
  - by rewrite delete_id.
Qed.

Lemma remove_each_spec (repo : gmap string ManifestEntry) (digests : list string) :
  let '(repo', removed) := remove_each repo digests in
  repo' ⊆ repo ∧ Forall (λ e, ∃ key, repo !! key = Some e) removed ∧
  ∀ g, (foldr (λ e n, g e + n) 0 removed + map_sum g repo' = map_sum g repo)%N.
Proof.
  induction digests as [|x digests IH] using rev_ind; [by simpl|].
  unfold remove_each in *. rewrite foldl_snoc.
  destruct (foldl _ (repo, []) digests) as [repo1 rem1] eqn:E1.
  destruct IH as (Hsub & Hrem & Hsum). destruct (repo1 !! x) as [e|] eqn:Ex; [|done].
  split; [|split].
  - etrans; [apply delete_subseteq|done].
  - apply Forall_app. split; [done|]. repeat constructor. exists x. by eapply lookup_weaken.
  - intros g. rewrite foldr_snoc. specialize (Hsum g).
    rewrite (map_sum_delete g _ _ _ Ex) in Hsum.
    assert (∀ n, foldr (λ e n, g e + n) n rem1 = foldr (λ e n, g e + n) 0 rem1 + n)%N as ->.
    { intros n. clear. induction rem1 as [|y rem1 IH]; simpl; [lia|]. rewrite IH. lia. }
    lia.
Qed.

Lemma apply_delete_manifests_inv d name exp digests :
  ref_inv d → ref_inv (apply_delete_manifests d name exp digests).1.
Proof.
  intros Hinv. unfold apply_delete_manifests. apply try_with_fst; [done|]. intros _ _.
  set (set_ := list_to_set digests : gset string).
  set (l := merge_sort String.le (elements set_)).
  destruct (sm_manifests d !! name) as [repo|] eqn:E.
  - pose proof (remove_each_spec repo l) as Hspec. destruct (remove_each repo l) as [repo' rem].
    destruct Hspec as (Hsub & Hrem & Hsum). simpl.
    set (d1 := set_sm_blob_ref_counts _ _).
    assert (ref_inv d1) as H1.
    { apply (remove_entries_inv d d1 name (λ _, repo') rem); [done|..].
      - intros r Hr. by simplify_eq.
      - intros k. rewrite E. simpl. apply Hsum.
      - eapply Forall_impl; [exact Hrem|]. intros e [key He]. by eapply Hinv.
      - simpl. apply map_eq. intros i. rewrite lookup_alter, lookup_insert.
        case_decide; subst; [by rewrite E|done].
      - done. }
    destruct (drop_tags_frame d1 name (λ x, bool_decide (x ∈ set_))) as [Hm Hc].
    destruct (drop_tags d1 name _) as [d2 ts]. by apply (ref_inv_frame d1).
  - set (d1 := set_sm_blob_ref_counts _ _).
    destruct (drop_tags_frame d1 name (λ x, bool_decide (x ∈ set_))) as [Hm Hc].
    destruct (drop_tags d1 name _) as [d2 ts]. by apply (ref_inv_frame d).
Qed.

Lemma apply_delete_tag_frame d name exp digest tag :
  sm_manifests (apply_delete_tag d name exp digest tag).1 = sm_manifests d ∧
  sm_blob_ref_counts (apply_delete_tag d name exp digest tag).1 = sm_blob_ref_counts d.
Proof.
  unfold apply_delete_tag. destruct (require_expected_namespace _ _ _); [|done..]. simpl.
  by destruct (match sm_tags d !! name with Some _ => _ | None => _ end).
Qed.

Lemma apply_put_manifest_inv d name exp reference absent digest ct body subject at_ ann ss ms ca lm cs refs :
  let d' := (apply_put_manifest d name exp reference absent digest ct body subject at_ ann ss ms
               ca lm cs refs).1 in
  ref_inv d → U64.fits (manifest_total (sm_manifests d')) → ref_inv d'.
Proof.
  cbn zeta. intros Hinv. unfold apply_put_manifest.
  destruct (require_expected_namespace _ _ _); [|done..]. cbn [try_with].
  destruct (_ && _); [done|]. cbn zeta. simpl fst.
  set (e := MkManifestEntry _ _ _ _ _ _ _ _ _ _ _ _).
  set (d1 := replace_manifest d name _ e). intros Hfit.
  assert (ref_inv d1) as H1.
  { apply replace_manifest_inv; [done|apply normalize_refs_nodup|]. by destruct (negb _). }
  by destruct (negb _); [apply (ref_inv_frame d1)|].
Qed.

Lemma apply_manifest_inv d req :
  ref_inv d → U64.fits (manifest_total (sm_manifests (apply_manifest d req).1)) →
  ref_inv (apply_manifest d req).1.
Proof.
  intros Hinv Hfit. destruct req; simpl in *.
  - by apply apply_put_manifest_inv.
  - by apply apply_delete_manifest_inv.
  - eapply ref_inv_frame; [apply apply_delete_tag_frame..|done].
  - by apply apply_delete_repository_inv.
  - by apply apply_delete_manifests_inv.
  - by destruct (require_expected_namespace _ _ _).
  - done.
  - done.
Qed.
End preservation.
