(* ===== verification/Samples.v ===== *)
(** Concrete instances of the interfaces and a sample history, on which the
    definitions are evaluated: a JSON tree with a parser that knows two bodies,
    log ids and memberships that are numbers, a constant hash, and a policy
    language that accepts every text. *)

From Stdlib Require Import Ascii.
From stdpp Require Import options.
From S2P Require Import Prelude Errors Digests Manifests Permissions Principals Handles.
From S2P Require Import SyncRuns Types StateMachine.

Fixpoint repeat_string (n : nat) (s : string) : string :=
  match n with 0 => "" | S n' => s +:+ repeat_string n' s end.

Definition hex_a : string := repeat_string 64 "a".
Definition hex_b : string := repeat_string 64 "b".
Definition blob_a : string := "sha256:" +:+ hex_a.
Definition blob_b : string := "sha256:" +:+ hex_b.
Definition manifest_digest : string := "sha256:" +:+ repeat_string 64 "c".

Definition descriptor (digest : string) (size : N) : JsonTree :=
  JObj [("digest", JStr digest); ("size", JNum size)].
Definition sample_manifest : JsonTree :=
  JObj [("config", descriptor blob_a 10); ("layers", JArr [descriptor blob_b 7; descriptor blob_a 10])].

(** The empty body does not parse; every other body is the sample manifest. *)
#[export] Instance sample_json : SerdeJson :=
  json_tree (λ body, match body with [] => None | _ => Some sample_manifest end).

#[export] Instance sample_raft : Openraft := {|
  LogId := N;
  Membership := list N;
  StoredMembership := option N * list N;
  default_membership := (None, []);
  stored_membership l m := (l, m);
  leader_id_display _ := "1-1";
  log_index l := l;
|}.

#[export] Instance sample_externals : Externals := {|
  sha256_hex _ := repeat_string 64 "d";
  cedar_policy_error _ := None;
|}.

Definition body : list Byte.byte := [Byte.x7b; Byte.x7d].

Definition claim_acme (now : N) : Request :=
  ReqNamespace (Claim "acme" (OwnerUser "sub-1") "alice" "sub-1" false now).
Definition acme_epoch : option NamespaceEpoch := Some (MkNamespaceEpoch "acme" 1).
Definition push (name reference digest : string) : Request :=
  ReqManifest (PutManifest name acme_epoch reference false digest
    "application/vnd.oci.image.manifest.v1+json" body None None None 17 2 100 100 None
    [blob_a; blob_b; blob_a]).
Definition sample_entry (i : N) (req : Request) : Entry := MkEntry i (Normal req).

Definition sample_history : list Entry :=
  [sample_entry 1 (claim_acme 100);
   sample_entry 2 (push "acme/app" "latest" manifest_digest);
   sample_entry 3 (push "acme/web" "v1" manifest_digest)].

Definition clock (i : nat) : N := (1000 + N.of_nat i)%N.
Definition sample_state : StateMachineData := (apply clock StateMachineData_default sample_history).1.
