(* ===== verification/Reach.v ===== *)
(** Reachable states of the replicated state machine, what each kind of request
    leaves alone, and the reference-count theorem. *)

From Stdlib Require Import Ascii.
From stdpp Require Import options.
From S2P Require Import Prelude Errors Digests Manifests Permissions Principals Handles.
From S2P Require Import SyncRuns Types StateMachine RefCounts Samples.

(** * Reachability

    One step applies one log entry, on a node whose clock reads [now]. A
    panicking entry aborts the node, so it has no successor; the number of
    stored manifests is bounded by the counters' width, as memory bounds it. *)
Section reach.
Context `{SJ : SerdeJson, OR : Openraft, EX : Externals}.

Inductive reachable : StateMachineData → Prop :=
  | reach_init : reachable StateMachineData_default
  | reach_step d now entry d' resp :
      reachable d → apply_entry now d entry = (d', Some resp) →
      U64.fits (manifest_total (sm_manifests d')) → reachable d'.

(** The parts of the state that registry content lives in. *)
Definition same_content (d d' : StateMachineData) : Prop :=
  sm_manifests d' = sm_manifests d ∧ sm_tags d' = sm_tags d ∧
  sm_blob_ref_counts d' = sm_blob_ref_counts d.
(** The parts that namespace ownership lives in. *)
Definition same_namespaces (d d' : StateMachineData) : Prop :=
  sm_namespaces d' = sm_namespaces d ∧ sm_released_handles d' = sm_released_handles d ∧
  sm_namespace_grants d' = sm_namespace_grants d ∧
  sm_namespace_grant_audit d' = sm_namespace_grant_audit d.

Lemma same_content_refl d : same_content d d.
Proof. done. Qed.
Lemma same_namespaces_refl d : same_namespaces d d.
Proof. done. Qed.

(** ** Frames of the request families *)

Lemma apply_mirror_config_frame now d r :
  same_content d (apply_mirror_config now d r).1 ∧
  same_namespaces d (apply_mirror_config now d r).1 ∧
  sm_repositories (apply_mirror_config now d r).1 = sm_repositories d.
Proof. destruct r; simpl; repeat case_match; done. Qed.

Lemma apply_job_frame now d r :
  same_content d (apply_job now d r).1 ∧ same_namespaces d (apply_job now d r).1 ∧
  sm_repositories (apply_job now d r).1 = sm_repositories d.
Proof. destruct r; simpl; repeat case_match; done. Qed.

Lemma apply_token_frame d r :
  same_content d (apply_token d r).1 ∧ same_namespaces d (apply_token d r).1 ∧
  sm_repositories (apply_token d r).1 = sm_repositories d.
Proof.
  destruct r as [t|id s]; [done|]. simpl.
  by destruct (match sm_personal_access_tokens d !! id with Some _ => _ | None => _ end).
Qed.

Lemma apply_policy_frame d r :
  same_content d (apply_policy d r).1 ∧ same_namespaces d (apply_policy d r).1 ∧
  sm_repositories (apply_policy d r).1 = sm_repositories d.
Proof. destruct r as [p|id]; [|done]. simpl. by destruct (validate_policy_set p). Qed.

Lemma apply_repository_frame d r :
  same_content d (apply_repository d r).1 ∧ same_namespaces d (apply_repository d r).1.
Proof. destruct r; simpl; by destruct (require_expected_namespace _ _ _). Qed.

Lemma apply_namespace_frame d r :
  same_content d (apply_namespace d r).1 ∧
  sm_repositories (apply_namespace d r).1 = sm_repositories d.
Proof. unfold apply_namespace. by destruct (apply_namespace_core _ _ _). Qed.

Lemma drop_tags_namespaces d name f :
  same_namespaces d (drop_tags d name f).1 ∧
  sm_repositories (drop_tags d name f).1 = sm_repositories d.
Proof. unfold drop_tags, retain_tags. by destruct (sm_tags d !! name). Qed.

Lemma apply_manifest_frame d r :
  same_namespaces d (apply_manifest d r).1 ∧
  sm_repositories (apply_manifest d r).1 = sm_repositories d.
Proof.
  destruct r; simpl; [..|done|done];
    unfold apply_put_manifest, apply_delete_manifest, apply_delete_tag,
      apply_delete_repository, apply_delete_manifests;
    (destruct (require_expected_namespace _ _ _); [|done..]); cbn [try_with].
  - destruct (_ && _); [done|]. simpl. by destruct (negb _).
  - set (d1 := match _ with Some _ => _ | None => _ end).
    assert (same_namespaces d d1 ∧ sm_repositories d1 = sm_repositories d) as [H1 H2]
      by (unfold d1; by case_match).
    destruct (drop_tags_namespaces d1 name (λ x, bool_decide (x = digest))) as [H3 H4].
    destruct (drop_tags d1 name _) as [d2 ts]. simpl in *.
    split; [|congruence]. destruct H1 as (?&?&?&?), H3 as (?&?&?&?).
    repeat split; congruence.
  - by case_match.
  - simpl. by destruct (sm_manifests d !! name).
  - set (l := merge_sort _ _).
    destruct (match sm_manifests d !! name with Some _ => _ | None => _ end) as [d0 rem] eqn:E0.
    assert (same_namespaces d d0 ∧ sm_repositories d0 = sm_repositories d) as [H1 H2].
    { destruct (sm_manifests d !! name); [|by simplify_eq].
      destruct (remove_each _ l) as [r1 r2]. by simplify_eq. }
    set (d1 := set_sm_blob_ref_counts _ d0).
    destruct (drop_tags_namespaces d1 name
      (λ x, bool_decide (x ∈ (list_to_set digests : gset string)))) as [H3 H4].
    destruct (drop_tags d1 name _) as [d2 ts]. simpl in *.
    split; [|congruence]. destruct H1 as (?&?&?&?), H3 as (?&?&?&?).
    repeat split; etrans; done.
  - done.
Qed.

(** A property of the state that one request keeps holds of every reachable state. *)
Lemma reachable_invariant (P : StateMachineData → Prop) :
  P StateMachineData_default →
  (∀ d l, P d → P (set_sm_last_applied_log l d)) →
  (∀ d m, P d → P (set_sm_last_membership m d)) →
  (∀ now d req, P d → U64.fits (manifest_total (sm_manifests (apply_request now d req).1)) →
     P (apply_request now d req).1) →
  ∀ d, reachable d → P d.
Proof.
  intros Hinit Hlog Hmem Hreq d. induction 1 as [|d now [log_id payload] d' resp _ IH Happ Hfit];
    [done|]. unfold apply_entry in Happ. simpl in Happ. destruct payload as [|m|req].
  - simplify_eq. by apply Hlog.
  - simplify_eq. by apply Hmem, Hlog.
  - rewrite <-(f_equal fst Happ : _ = d') in *. by apply Hreq; [apply Hlog|].
Qed.

Lemma apply_request_ref_inv now d req :
  ref_inv d → U64.fits (manifest_total (sm_manifests (apply_request now d req).1)) →
  ref_inv (apply_request now d req).1.
Proof.
  intros Hinv Hfit. destruct req as [r|r|r|r|r|r|r]; simpl in *.
  - by apply apply_manifest_inv.
  - destruct (apply_mirror_config_frame now d r) as [(?&_&?) _].
    destruct (apply_mirror_config now d r). by apply (ref_inv_frame d).
  - destruct (apply_job_frame now d r) as [(?&_&?) _].
    destruct (apply_job now d r). by apply (ref_inv_frame d).
  - destruct (apply_token_frame d r) as [(?&_&?) _].
    destruct (apply_token d r). by apply (ref_inv_frame d).
  - destruct (apply_policy_frame d r) as [(?&_&?) _]. by apply (ref_inv_frame d).
  - destruct (apply_repository_frame d r) as [(?&_&?) _]. by apply (ref_inv_frame d).
  - destruct (apply_namespace_frame d r) as [(?&_&?) _]. by apply (ref_inv_frame d).
Qed.

Lemma reachable_ref_inv d : reachable d → ref_inv d.
Proof.
  apply reachable_invariant; [|done|done|apply apply_request_ref_inv].
  split.
  - intros name repo key e Hn. simpl in Hn. by rewrite lookup_empty in Hn.
  - intros k. simpl. unfold manifest_refs. by rewrite lookup_empty, map_sum_empty.
Qed.

(** Running a batch of entries that no entry of panics. *)
Fixpoint fits_along (clock : nat → N) (d : StateMachineData) (entries : list Entry) : bool :=
  match entries with
  | [] => true
  | entry :: entries' =>
      let d' := (apply_entry (clock 0) d entry).1 in
      (manifest_total (sm_manifests d') <? U64.modulus)%N
        && fits_along (λ i, clock (S i)) d' entries'
  end.

Lemma apply_reachable clock d entries :
  reachable d → fits_along clock d entries = true → is_Some (apply clock d entries).2 →
  reachable (apply clock d entries).1.
Proof.
  revert clock d. induction entries as [|entry entries IH]; intros clock d Hd Hf Hs; simpl in *; [done|].
  apply andb_true_iff in Hf as [Hf1 Hf2]. apply N.ltb_lt in Hf1.
  destruct (apply_entry (clock 0) d entry) as [d1 [resp|]] eqn:E; [|by destruct Hs].
  assert (reachable d1) as H1 by by eapply reach_step.
  specialize (IH (λ i, clock (S i)) d1 H1 Hf2).
  destruct (apply _ d1 entries) as [d2 resps]. apply IH. simpl in *.
  destruct resps; [by eexists|by destruct Hs].
Qed.

(** C1: in every reachable state the reference count kept for a blob is exactly
    the number of stored manifests, over all repositories, that reference it;
    and the index has an entry for a blob only while it is referenced. *)
Theorem blob_ref_counts_exact (d : StateMachineData) (Hd : reachable d) (digest : string) :
  blob_ref_count_str d digest = manifest_refs digest (sm_manifests d) ∧
  (is_Some (sm_blob_ref_counts d !! digest) ↔
     ∃ name repo key e, sm_manifests d !! name = Some repo ∧ repo !! key = Some e ∧
       digest ∈ ref_keys e).
Proof.
  destruct (reachable_ref_inv d Hd) as [_ Hc]. split.
  { unfold blob_ref_count_str. by rewrite (counts_agree_default _ _ _ Hc). }
  rewrite Hc. transitivity (0 < manifest_refs digest (sm_manifests d))%N.
  { case_decide as Hz; [|split; [lia|by eexists]]. rewrite Hz. split; [by intros []|lia]. }
  unfold manifest_refs. rewrite map_sum_pos. setoid_rewrite map_sum_pos.
  assert (∀ e, (0 < ref_weight digest e)%N ↔ digest ∈ ref_keys e) as Hw
    by (intros e; unfold ref_weight, key_weight; case_decide; naive_solver lia).
  setoid_rewrite Hw. naive_solver.
Qed.
End reach.

Lemma sample_reachable : reachable sample_state.
Proof. apply apply_reachable; [apply reach_init|reflexivity|by eexists]. Qed.

Lemma blob_ref_counts_exact_witness :
  reachable sample_state ∧ blob_ref_count_str sample_state blob_a = 2%N ∧
  manifest_refs blob_a (sm_manifests sample_state) = 2%N.
Proof.
  split; [exact sample_reachable|]. split; [reflexivity|].
  rewrite <-(proj1 (blob_ref_counts_exact sample_state sample_reachable blob_a)). reflexivity.
Defined.
