(* ===== verification/Content.v ===== *)
(** Registry content: what the manifest requests do to the stored manifests and
    tags, as a refinement of a two-relation specification, and the invariants
    every reachable state has: a tag always resolves, and content only lives
    under a reserved or a live namespace. *)

From Stdlib Require Import Ascii.
From stdpp Require Import options.
From S2P Require Import Prelude Errors Digests Manifests Permissions Principals Handles.
From S2P Require Import SyncRuns Types StateMachine RefCounts Samples Reach.

#[local] Open Scope lh_scope.

(** * The specification: a manifest relation and a tag relation *)

Section spec.
Context `{SJ : SerdeJson, OR : Openraft, EX : Externals}.

Record Content := MkContent {
  c_manifest : string → string → option ManifestEntry;
  c_tag : string → string → option string;
}.

#[global] Instance content_equiv : Equiv Content := λ c c',
  (∀ n k, c_manifest c n k = c_manifest c' n k) ∧ (∀ n t, c_tag c n t = c_tag c' n t).
#[global] Instance content_equivalence : Equivalence (≡@{Content}).
Proof.
  split.
  - done.
  - intros c c' [H1 H2]. by split; intros; rewrite ?H1, ?H2.
  - intros c1 c2 c3 [H1 H2] [H3 H4]. split; intros; by rewrite ?H1, ?H2.
Qed.

Definition manifest_at (d : StateMachineData) (n k : string) : option ManifestEntry :=
  repo ← sm_manifests d !! n; repo !! k.
Definition tag_at (d : StateMachineData) (n t : string) : option string :=
  repo_tags ← sm_tags d !! n; repo_tags !! t.
Definition content_of (d : StateMachineData) : Content := MkContent (manifest_at d) (tag_at d).

(** Remove from repository [name] the manifests whose key is in [gone], and
    the tags that point at them. *)
Definition spec_remove (name : string) (gone : string → Prop) `{∀ k, Decision (gone k)}
    (c : Content) : Content :=
  MkContent
    (λ n k, if decide (n = name ∧ gone k) then None else c_manifest c n k)
    (λ n t, if decide (n = name) then x ← c_tag c n t; if decide (gone x) then None else Some x
            else c_tag c n t).
Definition spec_untag (name tag digest : string) (c : Content) : Content :=
  MkContent (c_manifest c)
    (λ n t, if decide (n = name ∧ t = tag ∧ c_tag c n t = Some digest) then None else c_tag c n t).
Definition spec_drop (name : string) (c : Content) : Content :=
  MkContent (λ n k, if decide (n = name) then None else c_manifest c n k)
    (λ n t, if decide (n = name) then None else c_tag c n t).
Definition spec_put (name reference : string) (e : ManifestEntry) (c : Content) : Content :=
  let key := digest_to_string (me_digest e) in
  MkContent (λ n k, if decide (n = name ∧ k = key) then Some e else c_manifest c n k)
    (λ n t, if decide (n = name ∧ t = reference ∧ Str.contains_char ":" reference = false)
            then Some key else c_tag c n t).

(** The entry a push stores: the digest the client gave if it parses, the
    hash of the body otherwise; only the digests that parse. *)
Definition pushed_entry (digest content_type : string) (body : list Byte.byte)
    (subject artifact_type : option string) (annotations : option Value)
    (stored manifest created modified : N) (config_summary : option Value)
    (referenced : list string) : ManifestEntry :=
  MkManifestEntry (default (digest_sha256 sha256_hex body) (from_str_checked digest)) content_type
    body (normalize_refs (refs_or_body (omap from_str_checked referenced) body))
    (subject ≫= from_str_checked) artifact_type annotations stored manifest created modified
    config_summary.

Definition spec_manifest (req : ManifestRequest) (c : Content) : Content :=
  match req with
  | PutManifest name _ reference _ digest ct body subject at_ ann ss ms ca lm cs refs =>
      spec_put name reference (pushed_entry digest ct body subject at_ ann ss ms ca lm cs refs) c
  | DeleteManifest name _ digest => spec_remove name (λ k, k = digest) c
  | DeleteTag name _ digest tag => spec_untag name tag digest c
  | DeleteRepository name _ => spec_drop name c
  | DeleteManifests name _ digests => spec_remove name (λ k, k ∈ digests) c
  | MountBlob _ _ _ _ | RecordBlobDelete _ _ | ClearBlobDelete _ => c
  end.

(** The repository a request writes to, with the epoch it was authorized against. *)
Definition manifest_target (req : ManifestRequest) : option (string * option NamespaceEpoch) :=
  match req with
  | PutManifest name e _ _ _ _ _ _ _ _ _ _ _ _ _ _ | DeleteManifest name e _ | DeleteTag name e _ _
  | DeleteRepository name e | DeleteManifests name e _ | MountBlob _ name e _ => Some (name, e)
  | RecordBlobDelete _ _ | ClearBlobDelete _ => None
  end.
End spec.

(** * Refinement *)

Section refinement.
Context `{SJ : SerdeJson, OR : Openraft, EX : Externals}.
Implicit Types (d : StateMachineData) (c : Content).

Lemma lookup_insert_nested {A} (m : gmap string (gmap string A)) name key x n k :
  (insert_nested m name key x !! n ≫= λ r, r !! k) =
    if decide (n = name ∧ k = key) then Some x else m !! n ≫= λ r, r !! k.
Proof.
  unfold insert_nested. rewrite lookup_insert. destruct (decide (name = n)) as [<-|Hn]; simpl.
  - rewrite lookup_insert. destruct (decide (key = k)) as [<-|Hk].
    + by rewrite decide_True.
    + rewrite decide_False by naive_solver. destruct (m !! name); [done|]. apply lookup_empty.
  - by rewrite decide_False by naive_solver.
Qed.

Lemma tag_at_drop_tags d name f n t :
  tag_at (drop_tags d name f).1 n t =
    if decide (n = name) then x ← tag_at d n t; if f x then None else Some x else tag_at d n t.
Proof.
  unfold drop_tags, retain_tags, tag_at. destruct (sm_tags d !! name) as [ts|] eqn:E; simpl.
  - destruct (decide (n = name)) as [->|Hn]; [|by rewrite lookup_insert_ne].
    rewrite lookup_insert_eq, E. simpl. rewrite map_lookup_filter.
    destruct (ts !! t) as [x|]; simpl; [|done]. by destruct (f x).
  - destruct (decide (n = name)) as [->|]; [by rewrite E|done].
Qed.

Lemma manifest_at_drop_tags d name f n k :
  manifest_at (drop_tags d name f).1 n k = manifest_at d n k.
Proof. unfold manifest_at. by rewrite (proj1 (drop_tags_frame d name f)). Qed.

Lemma put_refines d name exp reference absent digest ct body subject at_ ann ss ms ca lm cs refs d' r :
  apply_put_manifest d name exp reference absent digest ct body subject at_ ann ss ms ca lm cs refs
    = (d', Ok r) →
  content_of d' ≡ spec_put name reference
    (pushed_entry digest ct body subject at_ ann ss ms ca lm cs refs) (content_of d).
Proof.
  unfold apply_put_manifest. intros (_ & _ & Hk)%try_with_Ok.
  destruct (_ && _); [done|]. cbn zeta in Hk.
  change (MkManifestEntry _ _ _ _ _ _ _ _ _ _ _ _) with
    (pushed_entry digest ct body subject at_ ann ss ms ca lm cs refs) in Hk.
  set (e := pushed_entry _ _ _ _ _ _ _ _ _ _ _ _) in *. injection Hk as <- _.
  split; intros n k; simpl; unfold manifest_at, tag_at.
  - destruct (negb _); apply lookup_insert_nested.
  - destruct (Str.contains_char ":" reference); simpl.
    + by rewrite decide_False by naive_solver.
    + etrans; [apply lookup_insert_nested|]. repeat case_decide; naive_solver.
Qed.

Lemma delete_manifest_refines d name exp digest d' r :
  apply_delete_manifest d name exp digest = (d', Ok r) →
  content_of d' ≡ spec_remove name (λ k, k = digest) (content_of d).
Proof.
  unfold apply_delete_manifest. intros (_ & _ & Hk)%try_with_Ok.
  set (d1 := match _ with Some _ => _ | None => _ end) in Hk.
  pose proof (manifest_at_drop_tags d1 name (λ x, bool_decide (x = digest))) as Hm.
  pose proof (tag_at_drop_tags d1 name (λ x, bool_decide (x = digest))) as Ht.
  destruct (drop_tags d1 name _) as [d2 ts]. injection Hk as -> _. simpl in *.
  assert (sm_tags d1 = sm_tags d ∧ sm_manifests d1 = alter (delete digest) name (sm_manifests d))
    as [E1 E2] by (unfold d1; by case_match).
  split; intros n k; simpl.
  - rewrite Hm. unfold manifest_at. rewrite E2, lookup_alter.
    destruct (decide (name = n)) as [->|Hn]; [|by rewrite decide_False by naive_solver].
    destruct (sm_manifests d !! n) as [repo|]; simpl; [|by case_decide].
    rewrite lookup_delete. repeat case_decide; naive_solver.
  - rewrite Ht. unfold tag_at. rewrite E1. case_decide; [|done].
    destruct (sm_tags d !! n ≫= λ ts, ts !! k); simpl; [|done]. case_bool_decide; by case_decide.
Qed.

Lemma delete_tag_refines d name exp digest tag d' r :
  apply_delete_tag d name exp digest tag = (d', Ok r) →
  content_of d' ≡ spec_untag name tag digest (content_of d).
Proof.
  unfold apply_delete_tag. intros (_ & _ & Hk)%try_with_Ok.
  destruct (sm_tags d !! name) as [ts|] eqn:E.
  - case_bool_decide as Hts; injection Hk as <- _; split; intros n k; simpl; try done;
      unfold tag_at; simpl.
    + rewrite lookup_alter. destruct (decide (name = n)) as [<-|Hn];
        [|by rewrite decide_False by naive_solver].
      rewrite E. simpl. rewrite lookup_delete. repeat case_decide; naive_solver.
    + case_decide as Hd; [|done]. destruct Hd as (-> & -> & Hd). rewrite E in Hd. done.
  - injection Hk as <- _. split; intros n k; simpl; [done|]. unfold tag_at.
    case_decide as Hd; [|done]. destruct Hd as (-> & -> & Hd). by rewrite E in Hd.
Qed.

Lemma delete_repository_refines d name exp d' r :
  apply_delete_repository d name exp = (d', Ok r) →
  content_of d' ≡ spec_drop name (content_of d).
Proof.
  unfold apply_delete_repository. intros (_ & _ & Hk)%try_with_Ok. injection Hk as <- _.
  split; intros n k; simpl; unfold manifest_at, tag_at.
  - simpl. destruct (sm_manifests d !! name); simpl; rewrite lookup_delete;
      repeat case_decide; naive_solver.
  - simpl. destruct (sm_manifests d !! name); simpl; rewrite lookup_delete;
      repeat case_decide; naive_solver.
Qed.

(** What the removal loop leaves. *)
Lemma remove_each_lookup (repo : gmap string ManifestEntry) digests k :
  (remove_each repo digests).1 !! k = if decide (k ∈ digests) then None else repo !! k.
Proof.
  induction digests as [|x digests IH] using rev_ind; [done|].
  unfold remove_each in *. rewrite foldl_snoc.
  destruct (foldl _ (repo, []) digests) as [repo1 rem1]. simpl in *.
  destruct (repo1 !! x) as [e|] eqn:Ex; simpl.
  - rewrite lookup_delete. destruct (decide (x = k)) as [->|Hk].
    + rewrite decide_True by set_solver. done.
    + rewrite IH. destruct (decide (k ∈ digests)); [rewrite decide_True|rewrite decide_False];
        set_solver.
  - destruct (decide (k = x)) as [->|Hk].
    + rewrite decide_True by set_solver. done.
    + rewrite IH. destruct (decide (k ∈ digests)); [rewrite decide_True|rewrite decide_False];
        set_solver.
Qed.

Lemma remove_each_length (repo : gmap string ManifestEntry) digests :
  NoDup digests →
  length (remove_each repo digests).2 = length (filter (λ k, is_Some (repo !! k)) digests).
Proof.
  induction digests as [|x digests IH] using rev_ind; [done|].
  intros (Hnd & Hx & _)%NoDup_app. pose proof (remove_each_lookup repo digests x) as Hl.
  rewrite decide_False in Hl by set_solver.
  rewrite filter_app, length_app, <-IH by done. unfold remove_each in *. rewrite foldl_snoc.
  destruct (foldl _ (repo, []) digests) as [repo1 rem1]. simpl in *. rewrite Hl.
  destruct (repo !! x) as [e|] eqn:E; simpl.
  - rewrite length_app, filter_cons_True by (rewrite E; by eexists). done.
  - rewrite filter_cons_False by (rewrite E; by intros []). simpl. lia.
Qed.

Lemma delete_manifests_refines d name exp digests d' r :
  apply_delete_manifests d name exp digests = (d', Ok r) →
  content_of d' ≡ spec_remove name (λ k, k ∈ digests) (content_of d).
Proof.
  unfold apply_delete_manifests. intros (_ & _ & Hk)%try_with_Ok.
  set (set_ := list_to_set digests : gset string) in *.
  set (l := merge_sort String.le (elements set_)) in *.
  assert (∀ k, k ∈ l ↔ k ∈ digests) as Hl.
  { intros k. unfold l, set_. rewrite merge_sort_Permutation. set_solver. }
  destruct (match sm_manifests d !! name with Some _ => _ | None => _ end) as [d0 rem] eqn:E0.
  assert (sm_tags d0 = sm_tags d ∧ ∀ n k, manifest_at d0 n k =
    if decide (n = name ∧ k ∈ digests) then None else manifest_at d n k) as [E1 E2].
  { unfold manifest_at. destruct (sm_manifests d !! name) as [repo|] eqn:E.
    - pose proof (remove_each_lookup repo l) as Hrl. destruct (remove_each repo l) as [repo' rem'].
      injection E0 as <- _. split; [done|]. intros n k. simpl. rewrite lookup_insert.
      destruct (decide (name = n)) as [<-|]; [|by rewrite decide_False by naive_solver].
      simpl. rewrite Hrl, E. simpl. repeat case_decide; naive_solver.
    - injection E0 as <- _. split; [done|]. intros n k. case_decide as Hd; [|done].
      destruct Hd as [-> _]. by rewrite E. }
  set (d1 := set_sm_blob_ref_counts _ d0) in *.
  pose proof (manifest_at_drop_tags d1 name (λ x, bool_decide (x ∈ set_))) as Hm.
  pose proof (tag_at_drop_tags d1 name (λ x, bool_decide (x ∈ set_))) as Ht.
  destruct (drop_tags d1 name _) as [d2 ts]. injection Hk as -> _. simpl in *.
  split; intros n k; simpl.
  - rewrite Hm. apply E2.
  - rewrite Ht. unfold tag_at. simpl. rewrite E1. case_decide; [|done].
    destruct (sm_tags d !! n ≫= λ ts, ts !! k); simpl; [|done]. unfold set_.
    case_bool_decide; case_decide; set_solver.
Qed.

Lemma delete_manifests_count d name exp digests d' r :
  apply_manifest d (DeleteManifests name exp digests) = (d', Ok r) →
  r = ManifestDeleteCounts (MkDeleteCounts
    (length (filter (λ k, is_Some (manifest_at d name k)) (remove_dups digests)))
    (default 0 (size <$> sm_tags d !! name) - default 0 (size <$> sm_tags d' !! name))).
Proof.
  simpl. unfold apply_delete_manifests. intros (_ & _ & Hk)%try_with_Ok.
  set (set_ := list_to_set digests : gset string) in *.
  set (l := merge_sort String.le (elements set_)) in *.
  assert (l ≡ₚ remove_dups digests) as Hl.
  { unfold l. rewrite merge_sort_Permutation. apply NoDup_Permutation.
    - apply NoDup_elements.
    - apply NoDup_remove_dups.
    - intros x. unfold set_. rewrite elem_of_remove_dups. set_solver. }
  destruct (match sm_manifests d !! name with Some _ => _ | None => _ end) as [d0 rem] eqn:E0.
  assert (sm_tags d0 = sm_tags d ∧ length rem =
    length (filter (λ k, is_Some (manifest_at d name k)) (remove_dups digests))) as [Et Elen].
  { rewrite <-Hl. unfold manifest_at. destruct (sm_manifests d !! name) as [repo|] eqn:E.
    - pose proof (remove_each_length repo l) as Hrl.
      destruct (remove_each repo l) as [repo' rem']. injection E0 as <- <-. split; [done|].
      simpl in Hrl |- *. apply Hrl. rewrite Hl. apply NoDup_remove_dups.
    - injection E0 as <- <-. split; [done|]. simpl. clear. induction l; [done|].
      rewrite filter_cons_False by (by intros []). done. }
  destruct (drop_tags _ _ _) as [d2 ts]. injection Hk as <- <-. by rewrite Elen, <-Et.
Qed.

Lemma manifest_refines d req d' r :
  apply_manifest d req = (d', Ok r) → content_of d' ≡ spec_manifest req (content_of d).
Proof.
  destruct req; simpl.
  - apply put_refines.
  - apply delete_manifest_refines.
  - apply delete_tag_refines.
  - apply delete_repository_refines.
  - apply delete_manifests_refines.
  - intros (_ & _ & [= <- _])%try_with_Ok. done.
  - by intros [= <- _].
  - by intros [= <- _].
Qed.
End refinement.

(** * Invariants *)

Section invariants.
Context `{SJ : SerdeJson, OR : Openraft, EX : Externals}.
Implicit Types (d : StateMachineData) (c : Content).

(** A manifest is stored under its own digest, which is a digest reference; a
    tag has no colon and points at a manifest of the same repository. *)
Definition content_wf c : Prop :=
  (∀ n k e, c_manifest c n k = Some e →
     k = digest_to_string (me_digest e) ∧ is_digest_reference k = true) ∧
  (∀ n t k, c_tag c n t = Some k →
     Str.contains_char ":" t = false ∧ is_Some (c_manifest c n k)).

#[global] Instance content_wf_proper : Proper ((≡) ==> iff) content_wf.
Proof.
  assert (∀ c c', c ≡ c' → content_wf c → content_wf c') as Himp.
  { intros c c' [Hm Ht] [H1 H2]. split.
    - intros n k e. rewrite <-Hm. apply H1.
    - intros n t k. rewrite <-Ht, <-Hm. apply H2. }
  intros c c' Hc. split; by apply Himp.
Qed.

Lemma pushed_digest_reference digest body :
  is_digest_reference
    (digest_to_string (default (digest_sha256 sha256_hex body) (from_str_checked digest))) = true.
Proof.
  assert (∀ h, is_digest_reference ("sha256:" +:+ h) = true) as H256
    by (intros h; apply orb_true_iff; left; apply starts_with_app).
  assert (∀ h, is_digest_reference ("sha512:" +:+ h) = true) as H512
    by (intros h; apply orb_true_iff; right; apply starts_with_app).
  destruct (from_str_checked digest) as [dg|] eqn:E; [|apply H256]. unfold digest_to_string. simpl.
  apply from_str_checked_Some in E as [_ [[[-> _]|[-> _]] _]]; [apply H256|apply H512].
Qed.

Lemma spec_put_wf c name reference e :
  content_wf c → is_digest_reference (digest_to_string (me_digest e)) = true →
  content_wf (spec_put name reference e c).
Proof.
  intros [Hm Ht] He. split; simpl.
  - intros n k e'. case_decide as H1; [|apply Hm]. by destruct H1 as [-> ->]; intros [= <-].
  - intros n t k. case_decide as H1.
    + destruct H1 as (-> & -> & Hc). intros [= <-]. by rewrite decide_True.
    + intros [Hc Hk]%Ht. split; [done|]. by case_decide.
Qed.

Lemma spec_remove_wf c name gone `{∀ k, Decision (gone k)} :
  content_wf c → content_wf (spec_remove name gone c).
Proof.
  intros [Hm Ht]. split; simpl.
  - intros n k e. case_decide; [done|apply Hm].
  - intros n t k. destruct (decide (n = name)) as [->|Hn].
    + intros (x & Hx & Hg)%bind_Some. case_decide; [done|]. simplify_eq.
      destruct (Ht _ _ _ Hx). by rewrite decide_False by naive_solver.
    + intros [Hc Hk]%Ht. split; [done|]. by rewrite decide_False by naive_solver.
Qed.

Lemma spec_manifest_wf req c : content_wf c → content_wf (spec_manifest req c).
Proof.
  intros Hc. destruct req; simpl; try done.
  - apply spec_put_wf; [done|]. apply pushed_digest_reference.
  - by apply spec_remove_wf.
  - destruct Hc as [Hm Ht]. split; simpl; [done|]. intros n t k. case_decide; [done|apply Ht].
  - destruct Hc as [Hm Ht]. split; simpl.
    + intros n k e. case_decide; [done|apply Hm].
    + intros n t k. case_decide; [done|apply Ht].
  - by apply spec_remove_wf.
Qed.

(** Error paths return before anything is written. *)
Lemma apply_manifest_error d req d' r :
  apply_manifest d req = (d', r) → is_ok r = false → d' = d.
Proof.
  destruct req; simpl;
    unfold apply_put_manifest, apply_delete_manifest, apply_delete_tag,
      apply_delete_repository, apply_delete_manifests;
    try (destruct (require_expected_namespace _ _ _); cbn [try_with]; [|by intros [= <- <-]..]).
  - destruct (_ && _); [by intros [= <- <-]|]. by intros [= <- <-].
  - destruct (drop_tags _ _ _). by intros [= <- <-].
  - by case_match; intros [= <- <-].
  - by intros [= <- <-].
  - destruct (match sm_manifests d !! name with Some _ => _ | None => _ end).
    destruct (drop_tags _ _ _). by intros [= <- <-].
  - by intros [= <- <-].
  - by intros [= <- <-].
  - by intros [= <- <-].
Qed.

Lemma content_of_frame d d' : same_content d d' → content_of d' ≡ content_of d.
Proof.
  intros (Hm & Ht & _). split; intros n k; simpl; unfold manifest_at, tag_at; by rewrite ?Hm, ?Ht.
Qed.

Lemma apply_request_content now d req :
  content_of (apply_request now d req).1 ≡ content_of d ∨
  ∃ r, req = ReqManifest r ∧
    content_of (apply_request now d req).1 ≡ spec_manifest r (content_of d).
Proof.
  destruct req as [r|r|r|r|r|r|r]; simpl.
  - destruct (apply_manifest d r) as [d' res] eqn:E. simpl. destruct res.
    + right. exists r. split; [done|]. by eapply manifest_refines.
    + left. by rewrite (apply_manifest_error _ _ _ _ E).
    + left. by rewrite (apply_manifest_error _ _ _ _ E).
  - left. apply content_of_frame. pose proof (apply_mirror_config_frame now d r) as [H _].
    by destruct (apply_mirror_config now d r).
  - left. apply content_of_frame. pose proof (apply_job_frame now d r) as [H _].
    by destruct (apply_job now d r).
  - left. apply content_of_frame. pose proof (apply_token_frame d r) as [H _].
    by destruct (apply_token d r).
  - left. apply content_of_frame, apply_policy_frame.
  - left. apply content_of_frame, apply_repository_frame.
  - left. apply content_of_frame, apply_namespace_frame.
Qed.

Lemma reachable_content_wf d : reachable d → content_wf (content_of d).
Proof.
  revert d. apply (reachable_invariant (λ d, content_wf (content_of d))); [|done|done|].
  - split; simpl; intros n k e; unfold manifest_at, tag_at; simpl; by rewrite lookup_empty.
  - intros now d0 req Hwf _. destruct (apply_request_content now d0 req) as [->|(r & -> & ->)];
      [done|by apply spec_manifest_wf].
Qed.

Lemma no_colon_not_digest t :
  Str.contains_char ":" t = false → is_digest_reference t = false.
Proof.
  intros Ht. unfold is_digest_reference.
  destruct (Str.starts_with "sha256:" t) eqn:E1;
    [|destruct (Str.starts_with "sha512:" t) eqn:E2; [|done]];
    [apply starts_with_true in E1 as [s ->]|apply starts_with_true in E2 as [s ->]];
    by rewrite contains_char_app in Ht.
Qed.

Lemma get_manifest_tag d name t :
  Str.contains_char ":" t = false →
  get_manifest d name t = digest ← tag_at d name t; manifest_at d name digest.
Proof.
  intros Ht. unfold get_manifest, tag_at, manifest_at. rewrite (no_colon_not_digest t Ht).
  destruct (sm_tags d !! name) as [ts|]; simpl; [|done]. by destruct (ts !! t).
Qed.

Lemma get_manifest_digest d name k :
  is_digest_reference k = true → get_manifest d name k = manifest_at d name k.
Proof. intros Hk. unfold get_manifest. by rewrite Hk. Qed.

(** Reading one repository depends on its content only. *)
Lemma get_manifest_content d d' name reference :
  (∀ k, manifest_at d' name k = manifest_at d name k) →
  (∀ t, tag_at d' name t = tag_at d name t) →
  get_manifest d' name reference = get_manifest d name reference.
Proof.
  intros Hm Ht. unfold get_manifest. case_match; [apply Hm|].
  specialize (Ht reference). unfold tag_at, manifest_at in *.
  destruct (sm_tags d' !! name) as [ts'|], (sm_tags d !! name) as [ts|]; simpl in *;
    [rewrite Ht|rewrite Ht; done|rewrite <-Ht; done|done].
  destruct (ts !! reference) as [k|]; [apply Hm|done].
Qed.
End invariants.

(** * Properties *)

Section properties.
Context `{SJ : SerdeJson, OR : Openraft, EX : Externals}.
Implicit Types (d : StateMachineData).

(** C3: the manifest requests refine the two-relation specification: a request
    that succeeds changes the stored manifests and tags exactly as specified,
    and one that fails changes no part of the state. *)
Theorem manifest_refinement d (req : ManifestRequest) :
  match apply_manifest d req with
  | (d', Ok _) => content_of d' ≡ spec_manifest req (content_of d)
  | (d', _) => d' = d
  end.
Proof.
  destruct (apply_manifest d req) as [d' [r|e|]] eqn:E.
  - by eapply manifest_refines.
  - by eapply apply_manifest_error.
  - by eapply apply_manifest_error.
Qed.

(** In every reachable state a tag resolves: it points at a manifest that
    is stored in the same repository under its own digest, and reading by tag
    and by that digest gives the same manifest. *)
Theorem tags_resolve d (Hd : reachable d) (name tag key : string)
    (Htag : tag_at d name tag = Some key) :
  ∃ e, get_manifest d name tag = Some e ∧ get_manifest d name key = Some e ∧
    key = digest_to_string (me_digest e).
Proof.
  destruct (reachable_content_wf d Hd) as [Hm Ht].
  destruct (Ht name tag key Htag) as [Hc [e He]]. destruct (Hm name key e He) as [Hk Hr].
  exists e. rewrite get_manifest_tag, get_manifest_digest, Htag by done. done.
Qed.

(** Read after write: a push that succeeds can be read back at once under
    its tag and under its digest, with the body and media type that were
    pushed, and no read of another repository changes. *)
Theorem push_then_read d name exp reference absent digest ct body subject at_ ann ss ms ca lm cs refs
    (d' : StateMachineData) (r : ManifestResponse)
    (Hput : apply_manifest d (PutManifest name exp reference absent digest ct body subject at_ ann
              ss ms ca lm cs refs) = (d', Ok r)) :
  ∃ e, me_body e = body ∧ me_content_type e = ct ∧
    (Str.contains_char ":" reference = false → get_manifest d' name reference = Some e) ∧
    get_manifest d' name (digest_to_string (me_digest e)) = Some e ∧
    (∀ dg, from_str_checked digest = Some dg → me_digest e = dg ∧ digest_to_string dg = digest) ∧
    (∀ name' ref', name' ≠ name → get_manifest d' name' ref' = get_manifest d name' ref').
Proof.
  destruct (manifest_refines _ _ _ _ Hput) as [Hm Ht]. simpl in Hm, Ht.
  set (e := pushed_entry _ _ _ _ _ _ _ _ _ _ _ _) in *. exists e.
  split; [done|]. split; [done|]. split; [|split; [|split]].
  - intros Hc. rewrite get_manifest_tag, Ht, decide_True by done. simpl.
    by rewrite Hm, decide_True.
  - rewrite get_manifest_digest by apply pushed_digest_reference.
    by rewrite Hm, decide_True.
  - intros dg Hdg. simpl. rewrite Hdg. by destruct (proj1 (from_str_checked_Some _ _) Hdg) as [-> _].
  - intros name' ref' Hn. apply get_manifest_content; intros k; rewrite ?Hm, ?Ht;
      by rewrite decide_False by naive_solver.
Qed.

(** Isolation of repositories: a manifest request changes what is read
    from the repository it names and from no other. *)
Theorem manifest_request_isolated d (req : ManifestRequest) (name reference : string)
    (Hne : fst <$> manifest_target req ≠ Some name) :
  get_manifest (apply_manifest d req).1 name reference = get_manifest d name reference.
Proof.
  destruct (apply_manifest d req) as [d' [r|e|]] eqn:E; simpl.
  - destruct (manifest_refines _ _ _ _ E) as [Hm Ht]. simpl in Hm, Ht. clear E.
    apply get_manifest_content; intros k; rewrite ?Hm, ?Ht; destruct req; simpl in *; try done;
      rewrite decide_False; naive_solver.
  - by rewrite (apply_manifest_error _ _ _ _ E).
  - by rewrite (apply_manifest_error _ _ _ _ E).
Qed.

(** A conditional push creates a reference at most once: after a push of a
    tag, every push of the same tag that requires it to be absent is refused
    with a conflict and changes nothing, as long as the namespace is still the
    one it was authorized against. *)
Theorem conditional_push_once d name exp reference absent digest ct body subject at_ ann ss ms ca lm
    cs refs (d' : StateMachineData) (r : ManifestResponse)
    exp2 digest2 ct2 body2 subject2 at2 ann2 ss2 ms2 ca2 lm2 cs2 refs2
    (Htag : Str.contains_char ":" reference = false)
    (Hput : apply_manifest d (PutManifest name exp reference absent digest ct body subject at_ ann
              ss ms ca lm cs refs) = (d', Ok r))
    (Hns : require_expected_namespace d' name exp2 = Ok ()) :
  apply_manifest d' (PutManifest name exp2 reference true digest2 ct2 body2 subject2 at2 ann2 ss2
    ms2 ca2 lm2 cs2 refs2)
  = (d', Err (Conflict [Lit "manifest reference "; Dbg reference; Lit " in repository "; Dbg name;
                Lit " was created before commit"])).
Proof.
  destruct (manifest_refines _ _ _ _ Hput) as [Hm Ht]. simpl in Hm, Ht.
  simpl. unfold apply_put_manifest. rewrite Hns, Htag. cbn [try_with].
  rewrite bool_decide_true; [done|]. rewrite get_manifest_tag, Ht, decide_True by done.
  simpl. rewrite Hm, decide_True by done. by eexists.
Qed.

(** Deletion is complete and counted: deleting a repository reports exactly
    how many manifests and tags it had and leaves nothing to read in it;
    deleting a batch of manifests reports how many of them were stored, counting
    a repeated digest once, and how many tags went with them. *)
Theorem delete_counts_exact d name exp digests :
  (∀ d' r, apply_manifest d (DeleteRepository name exp) = (d', Ok r) →
     r = ManifestDeleteCounts (MkDeleteCounts (default 0 (size <$> sm_manifests d !! name))
           (default 0 (size <$> sm_tags d !! name))) ∧
     ∀ reference, get_manifest d' name reference = None) ∧
  (∀ d' r, apply_manifest d (DeleteManifests name exp digests) = (d', Ok r) →
     r = ManifestDeleteCounts (MkDeleteCounts
       (length (filter (λ k, is_Some (manifest_at d name k)) (remove_dups digests)))
       (default 0 (size <$> sm_tags d !! name) - default 0 (size <$> sm_tags d' !! name))) ∧
     ∀ k, k ∈ digests → manifest_at d' name k = None).
Proof.
  split.
  - intros d' r Happ. destruct (manifest_refines _ _ _ _ Happ) as [Hm Ht]. simpl in Hm, Ht.
    split.
    + simpl in Happ. unfold apply_delete_repository in Happ.
      apply try_with_Ok in Happ as (_ & _ & Hk). injection Hk as _ <-. by destruct (sm_manifests d !! name).
    + intros reference. unfold get_manifest. case_match.
      * change (manifest_at d' name reference = None). by rewrite Hm, decide_True.
      * specialize (Ht name reference). rewrite decide_True in Ht by done. unfold tag_at in Ht.
        destruct (sm_tags d' !! name) as [ts|]; simpl in *; [|done]. by rewrite Ht.
  - intros d' r Happ. destruct (manifest_refines _ _ _ _ Happ) as [Hm _]. simpl in Hm.
    split; [|intros k Hk; by rewrite Hm, decide_True].
    by apply (delete_manifests_count d name exp).
Qed.
End properties.

(** * Witnesses *)

Lemma tags_resolve_witness :
  tag_at sample_state "acme/app" "latest" = Some manifest_digest ∧
  ∃ e, get_manifest sample_state "acme/app" "latest" = Some e ∧ me_body e = body.
Proof.
  split; [reflexivity|].
  destruct (tags_resolve sample_state sample_reachable "acme/app" "latest" manifest_digest eq_refl)
    as (e & He & _). exists e. split; [exact He|].
  assert (me_body <$> get_manifest sample_state "acme/app" "latest" = Some body) as Hb
    by (vm_compute; reflexivity).
  rewrite He in Hb. by injection Hb.
Defined.

Definition push_app (absent : bool) : ManifestRequest :=
  PutManifest "acme/app" acme_epoch "v2" absent blob_b "application/json" body None None None 17 2 7
    7 None [blob_a].

Lemma push_then_read_witness :
  ∃ e, me_body e = body ∧
    get_manifest (apply_manifest sample_state (push_app false)).1 "acme/app" "v2" = Some e.
Proof.
  destruct (push_then_read sample_state "acme/app" acme_epoch "v2" false blob_b "application/json"
    body None None None 17 2 7 7 None [blob_a] _ ManifestOk
    (eq_refl : _ = ((apply_manifest sample_state (push_app false)).1, Ok ManifestOk)))
    as (e & Hb & _ & Hr & _).
  exists e. split; [exact Hb|]. apply Hr. reflexivity.
Defined.

Lemma manifest_request_isolated_witness :
  get_manifest (apply_manifest sample_state (DeleteRepository "acme/app" acme_epoch)).1
    "acme/web" "v1" = get_manifest sample_state "acme/web" "v1" ∧
  is_Some (get_manifest sample_state "acme/web" "v1").
Proof.
  split; [|apply (bool_decide_eq_true_1 _); vm_compute; reflexivity].
  apply (manifest_request_isolated sample_state (DeleteRepository "acme/app" acme_epoch)). done.
Defined.

Lemma conditional_push_once_witness :
  (apply_manifest sample_state (push_app true)).2 = Ok ManifestOk ∧
  is_err (apply_manifest (apply_manifest sample_state (push_app true)).1 (push_app true)).2 = true.
Proof.
  split; [reflexivity|].
  rewrite (conditional_push_once sample_state "acme/app" acme_epoch "v2" true blob_b
    "application/json" body None None None 17 2 7 7 None [blob_a]
    (apply_manifest sample_state (push_app true)).1 ManifestOk acme_epoch blob_b
    "application/json" body None None None 17 2 7 7 None [blob_a] eq_refl eq_refl eq_refl).
  reflexivity.
Defined.
