(* ===== verification/Namespaces.v ===== *)
(** Namespace ownership: the claim, release and revocation of handles with their
    generations, grants and their audit, and the epoch check that every write to
    registry content carries. *)

From Stdlib Require Import Ascii.
From stdpp Require Import options.
From S2P Require Import Prelude Errors Digests Manifests Permissions Principals Handles.
From S2P Require Import SyncRuns Types StateMachine RefCounts Samples Reach Content.

#[local] Open Scope lh_scope.

(** * Invariant and generations *)

Section spec.
Implicit Types (m : NamespaceMaps) (h : string).

Definition live_wf m : Prop :=
  ∀ h n, nm_namespaces m !! h = Some n →
    ns_handle n = h ∧ handle_grammar h ∧ is_handle_reserved h = false ∧
    (1 ≤ ns_generation n < U64.modulus)%N ∧ nm_released_handles m !! h = None.
Definition released_wf m : Prop :=
  ∀ h r, nm_released_handles m !! h = Some r →
    rh_handle r = h ∧ (1 ≤ rh_prior_generation r < U64.modulus)%N.
(** A grant names a principal of the right kind; public grants are pull-only. *)
Definition grant_wf (g : NamespaceGrant) : Prop :=
  match ng_grantee g with
  | GranteeGroup id => pqi_kind id = Ok KGroup
  | GranteeUser id => pqi_kind id = Ok KUser
  | GranteePublic => ng_action g = Pull
  end.
Definition grants_wf m : Prop :=
  ∀ h gs, nm_namespace_grants m !! h = Some gs →
    is_Some (nm_namespaces m !! h) ∧ gs ≠ ∅ ∧
    ∀ id g, gs !! id = Some g →
      ng_id g = id ∧ ng_namespace g = h ∧ grant_wf g.
Definition ns_inv m : Prop := live_wf m ∧ released_wf m ∧ grants_wf m.

(** The highest generation a handle has had; 0 before its first claim. *)
Definition level m h : N :=
  match nm_namespaces m !! h with
  | Some n => ns_generation n
  | None => from_option rh_prior_generation 0%N (nm_released_handles m !! h)
  end.

(** Generation [g] of [h] has come and gone. *)
Definition dead m h (g : N) : Prop :=
  (g ≤ level m h)%N ∧ ∀ n, nm_namespaces m !! h = Some n → ns_generation n ≠ g.
End spec.

(** * The namespace requests *)

Section core.
Implicit Types (m : NamespaceMaps) (h : string).

(** What a successful claim did. *)
Lemma core_claim_Ok m h owner label override now m' r :
  core_claim m h owner label override now = (m', Ok r) →
  handle_grammar h ∧ is_handle_reserved h = false ∧ nm_namespaces m !! h = None ∧
  (override = true ∨ nm_released_handles m !! h = None) ∧
  ∃ g, (1 + level m h = g ∧ (g < U64.modulus))%N ∧
    m' = set_nm_namespaces (<[h := MkNamespace h g owner label now]> (nm_namespaces m))
           (set_nm_released_handles (delete h (nm_released_handles m)) m).
Proof.
  unfold core_claim, level. intros ([] & Hv%validate_handle_ok & Hk)%try_with_Ok.
  destruct (is_handle_reserved h); [done|].
  destruct (nm_namespaces m !! h) as [n|] eqn:En; [done|].
  apply try_with_Ok in Hk as (g & Hg & Hk). injection Hk as <- _.
  repeat (split; [done|]). destruct (nm_released_handles m !! h) as [tomb|]; simpl.
  - destruct override; [|done]. simpl in Hg. apply ok_or_Ok, U64.checked_add_Some in Hg as [-> Hlt].
    split; [by left|]. eexists. split; [|done]. lia.
  - injection Hg as <-. split; [by right|]. eexists. split; [|done]. done.
Qed.

Lemma core_claim_error m h owner label override now m' r :
  core_claim m h owner label override now = (m', r) → is_ok r = false → m' = m.
Proof.
  unfold core_claim. destruct (validate_handle h); simpl; [|by intros [= <- <-]..].
  destruct (is_handle_reserved h); [by intros [= <- <-]|].
  destruct (nm_namespaces m !! h); [by intros [= <- <-]|].
  destruct (match nm_released_handles m !! h with Some _ => _ | None => _ end); simpl;
    by intros [= <- <-].
Qed.

(** Release and revocation either fail, or remove a live namespace that has
    no content. *)
Lemma core_release_cases m has h req m' r :
  (∃ actor reason now, req = DeleteNamespace h actor reason now) ∨
  (∃ actor now, req = AdminRevoke h actor now) →
  apply_namespace_core m req has = (m', r) →
  (is_ok r = false ∧ m' = m) ∨
  ∃ n actor reason now, nm_namespaces m !! h = Some n ∧ has h = false ∧
    m' = release_namespace m h n actor reason now ∧
    (req = AdminRevoke h actor now ∨
     req = DeleteNamespace h actor reason now ∧ ns_owner n = OwnerUser actor).
Proof.
  intros [(actor & reason & now & ->)|(actor & now & ->)]; simpl.
  - unfold core_delete. destruct (nm_namespaces m !! h) as [n|] eqn:En; [|intros [= <- <-]; by left].
    destruct (ns_owner n) as [s|o] eqn:Eo; simpl; [|intros [= <- <-]; by left].
    case_bool_decide as Ha; simpl; [|intros [= <- <-]; by left].
    destruct (has h) eqn:Eh; intros [= <- <-]; [by left|]. right.
    exists n, actor, reason, now. naive_solver.
  - unfold core_admin_revoke. destruct (has h) eqn:Eh; [intros [= <- <-]; by left|].
    destruct (nm_namespaces m !! h) as [n|] eqn:En; intros [= <- <-]; [|by left]. right.
    exists n, actor, AdminRevoked, now. naive_solver.
Qed.

Lemma ensure_kind_Ok id k : ensure_kind id k = Ok () → pqi_kind id = Ok k.
Proof.
  unfold ensure_kind. intros (k' & Hk & H)%result_bind_Ok. rewrite Hk. by case_bool_decide; simplify_eq/=.
Qed.

Lemma validate_namespace_grant_Ok (namespaces : gmap string Namespace) g :
  validate_namespace_grant namespaces g = Ok () →
  is_Some (namespaces !! ng_namespace g) ∧ grant_wf g.
Proof.
  unfold validate_namespace_grant. intros (_ & _ & Hk)%result_bind_Ok.
  case_bool_decide as Hn; [|done]. split; [done|]. unfold grant_wf. simpl in Hk.
  destruct (ng_grantee g) as [id|id|].
  - apply result_bind_Ok in Hk as (_ & ([] & Hk & _)%result_bind_Ok & _). by apply ensure_kind_Ok.
  - apply result_bind_Ok in Hk as (_ & ([] & Hk & _)%result_bind_Ok & _). by apply ensure_kind_Ok.
  - by case_bool_decide.
Qed.

(** What a grant is stored as: an update keeps the original author and date. *)
Definition merged_grant (before : option NamespaceGrant) (g : NamespaceGrant) : NamespaceGrant :=
  match before with
  | Some old => set_ng_created_at (ng_created_at old) (set_ng_created_by (ng_created_by old) g)
  | None => g
  end.

Lemma merged_grant_frame before g :
  ng_id (merged_grant before g) = ng_id g ∧ ng_namespace (merged_grant before g) = ng_namespace g ∧
  ng_grantee (merged_grant before g) = ng_grantee g ∧ ng_action (merged_grant before g) = ng_action g.
Proof. by destruct before. Qed.

Definition nm_grant_at m h id : option NamespaceGrant :=
  gs ← nm_namespace_grants m !! h; gs !! id.
Definition nm_audit_of m h : list NamespaceGrantAuditEvent :=
  default [] (nm_namespace_grant_audit m !! h).

Lemma core_put_grant_Ok m g label reason aid m' r :
  core_put_grant m g label reason aid = (m', Ok r) →
  let h := ng_namespace g in let before := nm_grant_at m h (ng_id g) in
  let g' := merged_grant before g in
  is_Some (nm_namespaces m !! h) ∧ grant_wf g ∧
  r = NamespaceGrantResp g' ∧
  nm_namespaces m' = nm_namespaces m ∧ nm_released_handles m' = nm_released_handles m ∧
  nm_namespace_grants m' = <[h := <[ng_id g := g']> (default ∅ (nm_namespace_grants m !! h))]>
                             (nm_namespace_grants m) ∧
  ∃ ev, nm_namespace_grant_audit m' = <[h := nm_audit_of m h ++ [ev]]> (nm_namespace_grant_audit m) ∧
    au_before ev = before ∧ au_after ev = Some g' ∧ au_grant_id ev = Some (ng_id g) ∧
    au_actor ev = ng_updated_by g' ∧ au_reason ev = reason ∧ au_id ev = aid.
Proof.
  unfold core_put_grant. intros ([] & [Hl Hp]%validate_namespace_grant_Ok & Hk)%try_with_Ok.
  cbn zeta. set (before := nm_grant_at m (ng_namespace g) (ng_id g)).
  assert (default ∅ (nm_namespace_grants m !! ng_namespace g) !! ng_id g = before) as Eb.
  { unfold before, nm_grant_at. destruct (nm_namespace_grants m !! _); [done|]. apply lookup_empty. }
  rewrite Eb in Hk. change (match before with Some _ => _ | None => g end)
    with (merged_grant before g) in Hk.
  destruct (merged_grant_frame before g) as (E1 & E2 & _ & _). rewrite E1, E2 in Hk.
  injection Hk as <- <-. repeat (split; [done|]). eexists. done.
Qed.

(** The grants after [remove(grant_id)] and the removal of an emptied map. *)
Definition without_grant m h id : NamespaceMaps :=
  let m1 := set_nm_namespace_grants (alter (delete id) h (nm_namespace_grants m)) m in
  if match nm_namespace_grants m1 !! h with Some g => bool_decide (g = ∅) | None => false end
  then set_nm_namespace_grants (delete h (nm_namespace_grants m1)) m1 else m1.

Lemma without_grant_frame m h id :
  nm_namespaces (without_grant m h id) = nm_namespaces m ∧
  nm_released_handles (without_grant m h id) = nm_released_handles m ∧
  nm_namespace_grant_audit (without_grant m h id) = nm_namespace_grant_audit m.
Proof. unfold without_grant. cbn zeta. by case_match. Qed.

Lemma without_grant_lookup m h id h' :
  nm_namespace_grants (without_grant m h id) !! h' =
    if decide (h' = h) then
      gs ← nm_namespace_grants m !! h; if decide (delete id gs = ∅) then None else Some (delete id gs)
    else nm_namespace_grants m !! h'.
Proof.
  unfold without_grant. simpl. rewrite lookup_alter_eq.
  destruct (nm_namespace_grants m !! h) as [gs|] eqn:Eg; simpl.
  - case_bool_decide as He; simpl; destruct (decide (h' = h)) as [->|Hh].
    + by rewrite lookup_delete_eq, decide_True.
    + by rewrite lookup_delete_ne, lookup_alter_ne.
    + by rewrite lookup_alter_eq, Eg, decide_False.
    + by rewrite lookup_alter_ne.
  - destruct (decide (h' = h)) as [->|Hh]; [by rewrite lookup_alter_eq, Eg|].
    by rewrite lookup_alter_ne.
Qed.

Lemma without_grant_at m h id h' id' :
  nm_grant_at (without_grant m h id) h' id' =
    if decide (h' = h ∧ id' = id) then None else nm_grant_at m h' id'.
Proof.
  unfold nm_grant_at. rewrite without_grant_lookup. destruct (decide (h' = h)) as [->|Hh];
    [|by rewrite decide_False by naive_solver].
  destruct (nm_namespace_grants m !! h) as [gs|]; simpl; [|by case_decide].
  destruct (decide (id' = id)) as [->|Hid].
  - rewrite (decide_True (P := h = h ∧ id = id)) by done.
    case_decide; simpl; [done|apply lookup_delete_eq].
  - rewrite (decide_False (P := h = h ∧ id' = id)) by naive_solver.
    rewrite <-(lookup_delete_ne gs id id') by done.
    case_decide as He; simpl; [by rewrite He, lookup_empty|done].
Qed.

Lemma core_delete_grant_Ok m h id actor label reason now aid m' r :
  core_delete_grant m h id actor label reason now aid = (m', Ok r) →
  is_Some (nm_namespaces m !! h) ∧ r = NamespaceBool (bool_decide (is_Some (nm_grant_at m h id))) ∧
  nm_namespaces m' = nm_namespaces m ∧ nm_released_handles m' = nm_released_handles m ∧
  nm_namespace_grants m' = nm_namespace_grants (without_grant m h id) ∧
  match nm_grant_at m h id with
  | Some g => ∃ ev, au_before ev = Some g ∧ au_after ev = None ∧ au_grant_id ev = Some id ∧
      nm_namespace_grant_audit m' = <[h := nm_audit_of m h ++ [ev]]> (nm_namespace_grant_audit m) ∧
      au_actor ev = actor ∧ au_reason ev = reason ∧ au_id ev = aid
  | None => nm_namespace_grant_audit m' = nm_namespace_grant_audit m
  end.
Proof.
  unfold core_delete_grant. intros (_ & _ & Hk)%try_with_Ok.
  case_bool_decide as Hl; [|done]. split; [done|].
  fold (nm_grant_at m h id) in Hk. cbn zeta in Hk. cbn [negb] in Hk.
  fold (without_grant m h id) in Hk.
  destruct (without_grant_frame m h id) as (E1 & E2 & E3).
  destruct (nm_grant_at m h id) as [g|] eqn:Eg; injection Hk as <- <-; (split; [done|]);
    repeat (split; [done|]).
  - exists (MkNamespaceGrantAuditEvent aid h (Some id) AuditDelete actor label reason (Some g) None now).
    repeat (split; [done|]). simpl. unfold nm_audit_of. by rewrite E3.
  - done.
Qed.
End core.

(** * Preservation *)

Section preservation.
Implicit Types (m : NamespaceMaps) (h : string).

Lemma ns_inv_frame m m' :
  nm_namespaces m' = nm_namespaces m → nm_released_handles m' = nm_released_handles m →
  nm_namespace_grants m' = nm_namespace_grants m → ns_inv m → ns_inv m'.
Proof. unfold ns_inv, live_wf, released_wf, grants_wf. by intros -> -> ->. Qed.

Lemma level_frame m m' h :
  nm_namespaces m' = nm_namespaces m → nm_released_handles m' = nm_released_handles m →
  level m' h = level m h ∧ ∀ g, dead m h g → dead m' h g.
Proof. unfold dead, level. by intros -> ->. Qed.

Lemma claim_inv m h owner label override now m' r :
  ns_inv m → core_claim m h owner label override now = (m', Ok r) →
  ns_inv m' ∧ ∀ h', (level m h' ≤ level m' h')%N ∧ ∀ g, dead m h' g → dead m' h' g.
Proof.
  intros (Hl & Hr & Hg) (Hv & Hres & Hnone & _ & g & [Hlev Hlt] & ->)%core_claim_Ok.
  split; [split; [|split]|].
  - intros h' n. simpl. rewrite lookup_insert, lookup_delete.
    destruct (decide (h = h')) as [<-|Hh]; [|apply Hl]. intros [= <-]. simpl.
    split; [done|]. split; [done|]. split; [done|]. split; [lia|done].
  - intros h' rel. simpl. intros [_ ?]%lookup_delete_Some. by apply Hr.
  - intros h' gs Hgs. simpl in *. destruct (Hg h' gs Hgs) as [Hn ?]. split; [|done].
    rewrite lookup_insert. by case_decide.
  - intros h'. unfold dead, level in *. simpl. rewrite lookup_insert, lookup_delete.
    destruct (decide (h = h')) as [<-|Hh]; [|done]. rewrite Hnone in *. simpl. split; [lia|].
    intros g' [Hle _]. split; [lia|]. intros n [= <-]. simpl. lia.
Qed.

Lemma release_inv m h n actor reason now :
  ns_inv m → nm_namespaces m !! h = Some n →
  let m' := release_namespace m h n actor reason now in
  ns_inv m' ∧ ∀ h', level m' h' = level m h' ∧ ∀ g, dead m h' g → dead m' h' g.
Proof.
  intros (Hl & Hr & Hg) Hn. destruct (Hl h n Hn) as (Hh & Hgr & Hres & Hgen & Hrel).
  cbn zeta. split; [split; [|split]|].
  - intros h' n'. simpl. intros [Hne ?]%lookup_delete_Some. rewrite lookup_insert_ne by done.
    by apply Hl.
  - intros h' rel. simpl. rewrite lookup_insert. case_decide; [|apply Hr]. by intros [= <-]; subst.
  - intros h' gs. simpl. intros [Hne Hgs]%lookup_delete_Some. rewrite lookup_delete_ne by done.
    by apply Hg.
  - intros h'. unfold dead, level. simpl. rewrite lookup_delete, lookup_insert.
    destruct (decide (h = h')) as [<-|Hne]; [|done]. rewrite Hn. simpl. naive_solver.
Qed.

Lemma put_grant_inv m g label reason aid m' r :
  ns_inv m → core_put_grant m g label reason aid = (m', Ok r) → ns_inv m'.
Proof.
  intros (Hl & Hr & Hg) (Hn & Hp & _ & E1 & E2 & E3 & _)%core_put_grant_Ok.
  set (g' := merged_grant _ g) in *.
  assert (ng_id g' = ng_id g ∧ ng_namespace g' = ng_namespace g ∧ ng_grantee g' = ng_grantee g ∧
    ng_action g' = ng_action g) as (F1 & F2 & F3 & F4) by apply merged_grant_frame.
  split; [|split].
  - unfold live_wf. by rewrite E1, E2.
  - unfold released_wf. by rewrite E2.
  - intros h gs. rewrite E3, E1, lookup_insert. case_decide as Hh; [|apply Hg]. intros [= <-]. subst.
    split; [done|]. split; [apply insert_non_empty|]. intros id x. rewrite lookup_insert.
    case_decide as Hi; [intros [= <-]; unfold grant_wf; by rewrite F1, F2, F3, F4|].
    destruct (nm_namespace_grants m !! ng_namespace g) as [gs|] eqn:Egs; simpl.
    + by apply Hg.
    + by rewrite lookup_empty.
Qed.

Lemma delete_grant_inv m h id actor label reason now aid m' r :
  ns_inv m → core_delete_grant m h id actor label reason now aid = (m', Ok r) → ns_inv m'.
Proof.
  intros (Hl & Hr & Hg) (Hn & _ & E1 & E2 & E3 & _)%core_delete_grant_Ok. split; [|split].
  - unfold live_wf. by rewrite E1, E2.
  - unfold released_wf. by rewrite E2.
  - intros h' gs'. rewrite E3, E1, without_grant_lookup. case_decide as Hh; [|apply Hg]. subst.
    intros (gs & Hgs & Hd)%bind_Some. case_decide; [done|]. injection Hd as <-.
    split; [done|]. split; [done|]. intros id' x [_ ?]%lookup_delete_Some. by eapply Hg.
Qed.

(** Every error of the core leaves the maps as they were. *)
Lemma core_error m req has m' r :
  apply_namespace_core m req has = (m', r) → is_ok r = false → m' = m.
Proof.
  destruct req; simpl.
  - apply core_claim_error.
  - intros E Hr. destruct (core_release_cases m has handle (DeleteNamespace handle actor reason now)
      m' r) as [[_ ?]|(n & a & re & t & _ & _ & _ & Hx)]; [by left; eauto|done|done|].
    unfold core_delete in E. repeat case_match; by simplify_eq.
  - unfold core_admin_revoke. repeat case_match; by intros [= <- <-].
  - unfold core_put_grant. destruct (validate_namespace_grant _ _); by intros [= <- <-].
  - unfold core_delete_grant. destruct (validate_handle handle); [|by intros [= <- <-]..].
    cbn [try_with]. destruct (negb _); [by intros [= <- <-]|]. cbn zeta.
    destruct (grants ← nm_namespace_grants m !! handle; grants !! grant_id); by intros [= <- <-].
  - by intros [= <- <-].
Qed.

(** The only two ways a claim ends. *)
Lemma core_ended m req has m' r h n :
  nm_namespaces m !! h = Some n → nm_namespaces m' !! h ≠ Some n →
  apply_namespace_core m req has = (m', r) →
  ∃ a re t, has h = false ∧ m' = release_namespace m h n a re t ∧
    (req = AdminRevoke h a t ∨ req = DeleteNamespace h a re t ∧ ns_owner n = OwnerUser a).
Proof.
  intros Hlive Hend E.
  destruct (is_ok r) eqn:Hok; [|by rewrite (core_error _ _ _ _ _ E Hok) in Hend].
  destruct r as [r|e|]; [|done..]. clear Hok.
  assert (∀ handle, (∃ a re t, req = DeleteNamespace handle a re t) ∨
      (∃ a t, req = AdminRevoke handle a t) →
    ∃ a re t, has h = false ∧ m' = release_namespace m h n a re t ∧
      (req = AdminRevoke h a t ∨ req = DeleteNamespace h a re t ∧ ns_owner n = OwnerUser a)) as Hrel.
  { intros handle Hr. destruct (core_release_cases _ _ _ _ _ _ Hr E)
      as [[? ->]|(n' & a & re & t & Hn' & Hno & -> & Hr')]; [done|].
    destruct (decide (handle = h)) as [->|Hne].
    - rewrite Hlive in Hn'. simplify_eq. by exists a, re, t.
    - simpl in Hend. by rewrite lookup_delete_ne in Hend. }
  destruct req; simpl in E.
  - apply core_claim_Ok in E as (_ & _ & Hnone & _ & g & _ & ->). simpl in *.
    rewrite lookup_insert in Hend. case_decide; congruence.
  - eapply Hrel. left. eauto.
  - eapply Hrel. right. eauto.
  - apply core_put_grant_Ok in E as (_ & _ & _ & E1 & _). by rewrite E1 in Hend.
  - apply core_delete_grant_Ok in E as (_ & _ & E1 & _). by rewrite E1 in Hend.
  - by injection E as <- _.
Qed.

Lemma core_step m req has m' r :
  ns_inv m → apply_namespace_core m req has = (m', r) →
  ns_inv m' ∧ ∀ h, (level m h ≤ level m' h)%N ∧ ∀ g, dead m h g → dead m' h g.
Proof.
  intros Hinv E. destruct (is_ok r) eqn:Hok;
    [|rewrite (core_error _ _ _ _ _ E Hok); split; [done|]; intros h; split; [lia|done]].
  destruct r as [r|e|]; [|done..]. clear Hok. destruct req; simpl in E.
  - by eapply claim_inv.
  - edestruct (core_release_cases m has handle) as [[? ->]|(n & a & re & t & Hn & _ & -> & _)];
      [by left; eauto|exact E|done|].
    destruct (release_inv m handle n a re t Hinv Hn) as [? Hlev]. split; [done|].
    intros h. destruct (Hlev h) as [-> ?]. split; [lia|done].
  - edestruct (core_release_cases m has handle) as [[? ->]|(n & a & re & t & Hn & _ & -> & _)];
      [by right; eauto|exact E|done|].
    destruct (release_inv m handle n a re t Hinv Hn) as [? Hlev]. split; [done|].
    intros h. destruct (Hlev h) as [-> ?]. split; [lia|done].
  - split; [by eapply put_grant_inv|]. intros h.
    apply core_put_grant_Ok in E as (_ & _ & _ & E1 & E2 & _).
    destruct (level_frame m m' h E1 E2) as [-> ?]. split; [lia|done].
  - split; [by eapply delete_grant_inv|]. intros h.
    apply core_delete_grant_Ok in E as (_ & _ & E1 & E2 & _).
    destruct (level_frame m m' h E1 E2) as [-> ?]. split; [lia|done].
  - injection E as <- _. split; [by apply (ns_inv_frame m)|]. intros h. split; [done|done].
Qed.
End preservation.

(** * Steps of the whole state machine *)

Section lifting.
Context `{SJ : SerdeJson, OR : Openraft, EX : Externals}.
Implicit Types (d : StateMachineData) (h : string).

Definition step (d d' : StateMachineData) : Prop :=
  ∃ now entry resp, apply_entry now d entry = (d', Some resp).

Lemma reachable_steps d : reachable d → rtc step StateMachineData_default d.
Proof.
  induction 1 as [|d now entry d' resp _ IH Happ _]; [constructor|].
  eapply rtc_r; [done|]. by exists now, entry, resp.
Qed.

(** How one request acts on the namespace collections. *)
Lemma apply_request_maps now d req :
  same_namespaces d (apply_request now d req).1 ∨
  ∃ r, req = ReqNamespace r ∧
    namespace_maps (apply_request now d req).1 =
      (apply_namespace_core (namespace_maps d) r (handle_has_content d)).1.
Proof.
  destruct req as [r|r|r|r|r|r|r]; simpl.
  - left. apply apply_manifest_frame.
  - left. pose proof (apply_mirror_config_frame now d r) as (_ & H & _).
    by destruct (apply_mirror_config now d r).
  - left. pose proof (apply_job_frame now d r) as (_ & H & _). by destruct (apply_job now d r).
  - left. pose proof (apply_token_frame d r) as (_ & H & _). by destruct (apply_token d r).
  - left. apply apply_policy_frame.
  - left. apply apply_repository_frame.
  - right. exists r. split; [done|]. unfold apply_namespace.
    by destruct (apply_namespace_core _ _ _) as [[] res].
Qed.

Lemma request_step now d req :
  ns_inv (namespace_maps d) →
  let m := namespace_maps d in let m' := namespace_maps (apply_request now d req).1 in
  ns_inv m' ∧ ∀ h, (level m h ≤ level m' h)%N ∧ ∀ g, dead m h g → dead m' h g.
Proof.
  intros Hinv. cbn zeta. destruct (apply_request_maps now d req) as [Hs|(r & -> & ->)].
  - destruct Hs as (E1 & E2 & E3 & _). split; [by apply (ns_inv_frame (namespace_maps d))|].
    intros h. destruct (level_frame (namespace_maps d)
      (namespace_maps (apply_request now d req).1) h E1 E2) as [-> ?]. split; [lia|done].
  - destruct (apply_namespace_core _ r _) as [m' res] eqn:E. by eapply core_step.
Qed.

Lemma entry_step d d' :
  step d d' → ns_inv (namespace_maps d) →
  let m := namespace_maps d in let m' := namespace_maps d' in
  ns_inv m' ∧ ∀ h, (level m h ≤ level m' h)%N ∧ ∀ g, dead m h g → dead m' h g.
Proof.
  intros (now & [l p] & resp & Happ) Hinv. unfold apply_entry in Happ. simpl in Happ.
  destruct p as [|mem|req].
  - injection Happ as <- _. split; [done|]. intros h. split; [apply N.le_refl|done].
  - injection Happ as <- _. split; [done|]. intros h. split; [apply N.le_refl|done].
  - rewrite <-(f_equal fst Happ : _ = d').
    apply (request_step now (set_sm_last_applied_log (Some l) d) req Hinv).
Qed.

Lemma steps_ns d d' :
  rtc step d d' → ns_inv (namespace_maps d) →
  let m := namespace_maps d in let m' := namespace_maps d' in
  ns_inv m' ∧ ∀ h, (level m h ≤ level m' h)%N ∧ ∀ g, dead m h g → dead m' h g.
Proof.
  induction 1 as [d|d d1 d2 H1 _ IH]; intros Hinv; [split; [done|]; intros h; split; [lia|done]|].
  destruct (entry_step d d1 H1 Hinv) as [Hinv1 Hl1]. destruct (IH Hinv1) as [Hinv2 Hl2].
  split; [done|]. intros h. destruct (Hl1 h), (Hl2 h). split; [lia|auto].
Qed.

(** A live claim stays as it is until it is released, and is dead from then on. *)
Lemma step_claim d d' h n :
  step d d' → sm_namespaces d !! h = Some n →
  sm_namespaces d' !! h = Some n ∨ dead (namespace_maps d') h (ns_generation n).
Proof.
  intros (now & [l p] & resp & Happ) Hn. unfold apply_entry in Happ. simpl in Happ.
  destruct p as [|mem|req]; [injection Happ as <- _; by left..|].
  rewrite <-(f_equal fst Happ : _ = d'). clear Happ.
  set (d1 := set_sm_last_applied_log (Some l) d).
  destruct (decide (sm_namespaces (apply_request now d1 req).1 !! h = Some n)) as [?|Hne]; [by left|].
  right. destruct (apply_request_maps now d1 req) as [(En & _)|(r & -> & E)]; [by rewrite En in Hne|].
  change (sm_namespaces ?x) with (nm_namespaces (namespace_maps x)) in Hne. rewrite E in *.
  destruct (apply_namespace_core (namespace_maps d1) r _) as [m' res] eqn:Ec. simpl in Hne |- *.
  destruct (core_ended (namespace_maps d1) _ _ _ _ h n Hn Hne Ec) as (a & re & t & _ & -> & _).
  unfold dead, level. simpl. rewrite lookup_delete_eq, lookup_insert_eq. simpl. split; [lia|done].
Qed.

Lemma steps_claim d d' h n :
  rtc step d d' → ns_inv (namespace_maps d) → sm_namespaces d !! h = Some n →
  sm_namespaces d' !! h = Some n ∨ dead (namespace_maps d') h (ns_generation n).
Proof.
  induction 1 as [d|d d1 d2 H1 H2 IH]; intros Hinv Hn; [by left|].
  destruct (entry_step d d1 H1 Hinv) as [Hinv1 _].
  destruct (step_claim d d1 h n H1 Hn) as [?|Hd]; [by apply IH|].
  right. destruct (steps_ns d1 d2 H2 Hinv1) as [_ Hl]. by apply Hl.
Qed.

Lemma init_ns_inv : ns_inv (namespace_maps StateMachineData_default).
Proof. by split; [|split]; intros ? ? ?. Qed.

(** ** The epoch check *)

Definition content_target (req : Request) : option (string * option NamespaceEpoch) :=
  match req with
  | ReqManifest r => manifest_target r
  | ReqRepository (PutRepository r e) => Some (repo_name r, e)
  | ReqRepository (DeleteRepositoryObject name e) => Some (name, e)
  | _ => None
  end.

Definition is_error_response (resp : Response) : bool :=
  match resp with
  | RespNameUnknown _ | RespDenied _ | RespConflict _ | RespNameInvalid _ | RespInternalError _ => true
  | _ => false
  end.

(** A failing precondition stops every content request before it writes. *)
Lemma content_request_guard now d req name exp err :
  content_target req = Some (name, exp) → require_expected_namespace d name exp = Err err →
  apply_request now d req = (d, Some (error_to_response err)).
Proof.
  intros Ht Hg. destruct req as [r|r|r|r|r|r|r]; try done; destruct r; try done;
    simpl in Ht; simplify_eq; simpl;
    unfold apply_put_manifest, apply_delete_manifest, apply_delete_tag,
      apply_delete_repository, apply_delete_manifests; by rewrite Hg.
Qed.

Lemma require_expected_namespace_Ok d name exp :
  require_expected_namespace d name exp = Ok () ↔
  ∃ h, handle_of name = Ok h ∧
    (is_handle_reserved h = true ∨
     is_handle_reserved h = false ∧
     ∃ n, sm_namespaces d !! h = Some n ∧ exp = Some (MkNamespaceEpoch h (ns_generation n))).
Proof.
  unfold require_expected_namespace. rewrite result_bind_Ok. split.
  - intros (h & Hh & Hk). exists h. split; [done|]. destruct (is_handle_reserved h); [by left|].
    right. split; [done|]. destruct exp as [[eh eg]|]; [|done]. simpl in Hk.
    case_bool_decide as He; [|done]. destruct (sm_namespaces d !! h) as [n|]; [|done]. simpl in Hk.
    case_bool_decide; [|done]. exists n. simplify_eq. done.
  - intros (h & Hh & Hr). exists h. split; [done|].
    destruct Hr as [->|(-> & n & Hn & ->)]; [done|]. simpl.
    rewrite bool_decide_true by done. rewrite Hn. simpl. by rewrite bool_decide_true.
Qed.

Lemma require_expected_namespace_no_panic d name exp : require_expected_namespace d name exp ≠ Panic.
Proof.
  unfold require_expected_namespace. pose proof (handle_of_no_panic name).
  destruct (handle_of name); simpl; [|done..]. repeat case_match; done.
Qed.

(** ** Content lives under reserved or live namespaces *)

Definition has_home d (name : string) : Prop :=
  ∃ h, handle_of name = Ok h ∧ (is_handle_reserved h = true ∨ is_Some (sm_namespaces d !! h)).
Definition has_content_at d (name : string) : Prop :=
  is_Some (sm_manifests d !! name) ∨ is_Some (sm_tags d !! name) ∨ is_Some (sm_repositories d !! name).
Definition homed d : Prop := ∀ name, has_content_at d name → has_home d name.

Lemma guard_home d name exp : require_expected_namespace d name exp = Ok () → has_home d name.
Proof.
  intros (h & Hh & Hr)%require_expected_namespace_Ok. exists h. split; [done|].
  destruct Hr as [?|(_ & n & Hn & _)]; [by left|right; by eexists].
Qed.

Lemma has_content_handle d name h :
  has_content_at d name → handle_of name = Ok h → handle_has_content d h = true.
Proof.
  intros Hc Hh%handle_of_prefix. unfold handle_has_content, any_key_with_prefix.
  assert (∀ A (mm : gmap string A), is_Some (mm !! name) →
    existsb (Str.starts_with (h +:+ "/")) (btree_keys mm) = true) as Hex.
  { intros A mm Hmm. apply existsb_exists. exists name. split; [|done].
    by apply list_elem_of_In, elem_of_btree_keys. }
  rewrite !orb_true_iff. destruct Hc as [Hc|[Hc|Hc]]; eauto.
Qed.

Lemma drop_tags_keys d name f n :
  is_Some (sm_tags (drop_tags d name f).1 !! n) → is_Some (sm_tags d !! n).
Proof.
  unfold drop_tags, retain_tags. destruct (sm_tags d !! name) as [ts|] eqn:E; [|done]. simpl.
  rewrite lookup_insert. case_decide; [|done]. subst. rewrite E. by eexists.
Qed.

Lemma put_keys d name exp reference absent digest ct body subject at_ ann ss ms ca lm cs refs n :
  has_content_at (apply_put_manifest d name exp reference absent digest ct body subject at_ ann ss
    ms ca lm cs refs).1 n →
  has_content_at d n ∨ n = name ∧ require_expected_namespace d name exp = Ok ().
Proof.
  unfold apply_put_manifest.
  destruct (require_expected_namespace d name exp) as [[]|e|] eqn:G; cbn [try_with]; [|by left..].
  destruct (_ && _); [by left|]. cbn zeta. simpl fst.
  destruct (decide (n = name)) as [->|Hn]; [by right|]. left. unfold has_content_at in *.
  destruct (negb _); simpl in *; unfold insert_nested in *; by rewrite !lookup_insert_ne in * by done.
Qed.

Lemma delete_keys d req n :
  match req with PutManifest _ _ _ _ _ _ _ _ _ _ _ _ _ _ _ _ => False | _ => True end →
  has_content_at (apply_manifest d req).1 n → has_content_at d n.
Proof.
  unfold has_content_at. rewrite (proj2 (apply_manifest_frame d req)).
  destruct req; simpl; intros Hreq; [done|..|tauto|tauto]; clear Hreq;
    unfold apply_delete_manifest, apply_delete_tag, apply_delete_repository, apply_delete_manifests;
    (destruct (require_expected_namespace _ _ _); cbn [try_with]; [|tauto..]).
  - set (d1 := match _ with Some _ => _ | None => _ end).
    assert (sm_tags d1 = sm_tags d ∧ sm_manifests d1 = alter (delete digest) name (sm_manifests d))
      as [E1 E2] by (unfold d1; by case_match).
    pose proof (drop_tags_keys d1 name (λ x, bool_decide (x = digest)) n) as Hk.
    pose proof (proj1 (drop_tags_frame d1 name (λ x, bool_decide (x = digest)))) as Hm.
    destruct (drop_tags d1 name _) as [d2 ts]. simpl in *. rewrite Hm, E2, lookup_alter, E1 in *.
    case_decide; subst; rewrite ?fmap_is_Some; tauto.
  - case_match; [|tauto]. simpl. rewrite lookup_alter. case_decide; subst; rewrite ?fmap_is_Some; tauto.
  - simpl. destruct (sm_manifests d !! name); simpl; rewrite !lookup_delete_is_Some; tauto.
  - set (l := merge_sort _ _).
    destruct (match sm_manifests d !! name with Some _ => _ | None => _ end) as [d0 rem] eqn:E0.
    assert (sm_tags d0 = sm_tags d ∧ (is_Some (sm_manifests d0 !! n) → is_Some (sm_manifests d !! n)))
      as [E1 E2].
    { destruct (sm_manifests d !! name) as [repo|] eqn:E; [|by simplify_eq].
      destruct (remove_each repo l) as [r1 r2]. injection E0 as <- _. split; [done|]. simpl.
      rewrite lookup_insert. case_decide; [|done]. subst. rewrite E. by eexists. }
    set (d1 := set_sm_blob_ref_counts _ d0).
    pose proof (drop_tags_keys d1 name (λ x, bool_decide (x ∈ (list_to_set digests : gset string))) n) as Hk.
    pose proof (proj1 (drop_tags_frame d1 name
      (λ x, bool_decide (x ∈ (list_to_set digests : gset string))))) as Hm.
    destruct (drop_tags d1 name _) as [d2 ts]. simpl in *. rewrite Hm. rewrite E1 in Hk. simpl. tauto.
  - tauto.
Qed.

Lemma homed_manifest d r : homed d → homed (apply_manifest d r).1.
Proof.
  intros Hd name Hc. destruct (apply_manifest_frame d r) as [(En & _) _].
  assert (has_home d name) as (h & Hh & Hl); [|exists h; by rewrite En].
  pose proof (delete_keys d r name) as Hk. destruct r; try exact (Hd _ (Hk I Hc)).
  apply put_keys in Hc as [?|[-> G]]; [by apply Hd|by eapply guard_home].
Qed.

Lemma homed_repository d r : homed d → homed (apply_repository d r).1.
Proof.
  intros Hd name Hc. destruct (apply_repository_frame d r) as [(Em & Et & _) (En & _)].
  assert (has_home d name) as (h & Hh & Hl); [|exists h; by rewrite En].
  unfold has_content_at in Hc. rewrite Em, Et in Hc.
  destruct r as [repo exp|rn exp]; simpl in Hc;
    destruct (require_expected_namespace d _ exp) as [[]|e|] eqn:G; simpl in Hc; try by apply Hd.
  - rewrite lookup_insert in Hc. case_decide; [subst; by eapply guard_home|by apply Hd].
  - rewrite lookup_delete_is_Some in Hc. apply Hd. unfold has_content_at. tauto.
Qed.

Lemma homed_namespace d r : homed d → homed (apply_namespace d r).1.
Proof.
  intros Hd name Hc. destruct (apply_namespace_frame d r) as [(Em & Et & _) Er].
  unfold has_content_at in Hc. rewrite Em, Et, Er in Hc. destruct (Hd name Hc) as (h & Hh & Hl).
  exists h. split; [done|]. destruct Hl as [?|Hl]; [by left|]. right.
  pose proof (has_content_handle d name h Hc Hh) as Hcont.
  unfold apply_namespace. destruct (apply_namespace_core _ r _) as [m' res] eqn:E. simpl.
  destruct (is_ok res) eqn:Hok; [|by rewrite (core_error _ _ _ _ _ E Hok)].
  destruct res as [res|e|]; [|done..]. clear Hok.
  assert (∀ handle, (∃ a re t, r = DeleteNamespace handle a re t) ∨ (∃ a t, r = AdminRevoke handle a t) →
    is_Some (nm_namespaces m' !! h)) as Hrel.
  { intros handle Hr. destruct (core_release_cases _ _ _ _ _ _ Hr E)
      as [[? ->]|(n & a & re & t & _ & Hno & -> & _)]; [done|].
    simpl. rewrite lookup_delete_ne; [done|]. intros ->. congruence. }
  destruct r; simpl in E.
  - apply core_claim_Ok in E as (_ & _ & _ & _ & g & _ & ->). simpl. rewrite lookup_insert. by case_decide.
  - eapply Hrel. left. eauto.
  - eapply Hrel. right. eauto.
  - apply core_put_grant_Ok in E as (_ & _ & _ & -> & _). done.
  - apply core_delete_grant_Ok in E as (_ & _ & -> & _). done.
  - by injection E as <- _.
Qed.

Lemma homed_request now d req : homed d → homed (apply_request now d req).1.
Proof.
  assert (∀ d d', same_content d d' → same_namespaces d d' → sm_repositories d' = sm_repositories d →
    homed d → homed d') as Hframe.
  { intros d1 d2 (Em & Et & _) (En & _) Er. unfold homed, has_home, has_content_at.
    by rewrite Em, Et, En, Er. }
  intros Hd. destruct req as [r|r|r|r|r|r|r]; simpl.
  - by apply homed_manifest.
  - pose proof (apply_mirror_config_frame now d r) as (? & ? & ?).
    destruct (apply_mirror_config now d r). by apply (Hframe d).
  - pose proof (apply_job_frame now d r) as (? & ? & ?). destruct (apply_job now d r). by apply (Hframe d).
  - pose proof (apply_token_frame d r) as (? & ? & ?). destruct (apply_token d r). by apply (Hframe d).
  - pose proof (apply_policy_frame d r) as (? & ? & ?). by apply (Hframe d).
  - by apply homed_repository.
  - by apply homed_namespace.
Qed.

Lemma reachable_homed d : reachable d → homed d.
Proof.
  revert d. apply (reachable_invariant homed); [|done|done|].
  - intros name [Hc|[Hc|Hc]]; simpl in Hc; rewrite lookup_empty in Hc; by destruct Hc.
  - intros now d req Hd _. by apply homed_request.
Qed.
End lifting.

(** * Properties *)

Section properties.
Context `{SJ : SerdeJson, OR : Openraft, EX : Externals}.
Implicit Types (d : StateMachineData) (h : string).

(** C2: a write that was authorized against a namespace is refused once that
    namespace has been released, for ever: whatever is applied after the
    release, including a reclaim of the same handle by somebody else, a
    content request that carries the old epoch gets an error and changes
    nothing. *)
Theorem stale_epoch_rejected d0 d1 d2 h n
    (H0 : rtc step StateMachineData_default d0) (Hlive : sm_namespaces d0 !! h = Some n)
    (H1 : rtc step d0 d1) (Hgone : sm_namespaces d1 !! h = None)
    (H2 : rtc step d1 d2) (now : N) (req : Request) (name : string)
    (Htarget : content_target req = Some (name, Some (MkNamespaceEpoch h (ns_generation n))))
    (Hname : handle_of name = Ok h) :
  ∃ resp, apply_request now d2 req = (d2, Some resp) ∧ is_error_response resp = true.
Proof.
  destruct (steps_ns _ _ H0 init_ns_inv) as [Hinv0 _].
  destruct (steps_ns _ _ H1 Hinv0) as [Hinv1 Hl1]. destruct (steps_ns _ _ H2 Hinv1) as [_ Hl2].
  destruct (proj1 Hinv0 h n Hlive) as (_ & _ & Hres & _).
  assert (dead (namespace_maps d1) h (ns_generation n)) as Hdead.
  { split; [|simpl; by rewrite Hgone]. destruct (Hl1 h) as [Hle _].
    unfold level at 1 in Hle. simpl in Hle. by rewrite Hlive in Hle. }
  apply Hl2 in Hdead as [_ Hdead].
  destruct (require_expected_namespace d2 name (Some (MkNamespaceEpoch h (ns_generation n))))
    as [[]|err|] eqn:G.
  - apply require_expected_namespace_Ok in G as (h' & Hh' & [Hr|(_ & n' & Hn' & Hg)]);
      simplify_eq; [congruence|]. by destruct (Hdead n' Hn').
  - exists (error_to_response err). split; [by eapply content_request_guard|]. by destruct err.
  - by apply require_expected_namespace_no_panic in G.
Qed.

(** C20: in every reachable state, everything stored in the registry (manifests,
    tags, repository objects) lives under a reserved handle or under a
    namespace that is live now. *)
Theorem content_under_live_namespace d (Hd : reachable d) (name : string)
    (Hc : is_Some (sm_manifests d !! name) ∨ is_Some (sm_tags d !! name)
          ∨ is_Some (sm_repositories d !! name)) :
  ∃ h, handle_of name = Ok h ∧ (is_handle_reserved h = true ∨ is_Some (sm_namespaces d !! h)).
Proof. exact (reachable_homed d Hd name Hc). Qed.

(** Only its owner's release or an administrator's revocation ends a
    claim, and only while nothing is stored under the handle; the handle then
    is not live and its tombstone remembers owner and generation. *)
Theorem claim_ended_only_by_release d now req h n
    (Hlive : sm_namespaces d !! h = Some n)
    (Hend : sm_namespaces (apply_request now d req).1 !! h ≠ Some n) :
  ∃ actor reason at_,
    (req = ReqNamespace (AdminRevoke h actor at_) ∨
     req = ReqNamespace (DeleteNamespace h actor reason at_) ∧ ns_owner n = OwnerUser actor) ∧
    (∀ name, handle_of name = Ok h → ¬ has_content_at d name) ∧
    sm_namespaces (apply_request now d req).1 !! h = None ∧
    ∃ tomb, sm_released_handles (apply_request now d req).1 !! h = Some tomb ∧
      rh_prior_owner tomb = ns_owner n ∧ rh_prior_generation tomb = ns_generation n.
Proof.
  destruct (apply_request_maps now d req) as [(En & _)|(r & -> & E)]; [by rewrite En in Hend|].
  change (sm_namespaces ?x) with (nm_namespaces (namespace_maps x)) in Hend, Hlive |- *.
  change (sm_released_handles ?x) with (nm_released_handles (namespace_maps x)).
  rewrite E in *. destruct (apply_namespace_core _ r _) as [m' res] eqn:Ec. simpl in Hend |- *.
  destruct (core_ended _ _ _ _ _ _ _ Hlive Hend Ec) as (a & re & t & Hno & -> & Hr).
  exists a, re, t. split; [naive_solver|]. split; [|split].
  - intros name Hh Hc. by rewrite (has_content_handle d name h Hc Hh) in Hno.
  - simpl. apply lookup_delete_eq.
  - eexists. split; [simpl; apply lookup_insert_eq|]. done.
Qed.

(** C33: in every reachable state a live handle is a valid, unreserved name
    stored under itself with a generation that fits in 64 bits and has no
    tombstone; grants exist only for live namespaces, each under its own id and
    namespace, for a principal of the right kind, and a public grant is pull-only. *)
Theorem namespace_invariant d (Hd : reachable d) (h : string) :
  (∀ n, sm_namespaces d !! h = Some n →
     ns_handle n = h ∧ handle_grammar h ∧ is_handle_reserved h = false ∧
     (1 ≤ ns_generation n < U64.modulus)%N ∧ sm_released_handles d !! h = None) ∧
  (∀ gs id g, sm_namespace_grants d !! h = Some gs → gs !! id = Some g →
     is_Some (sm_namespaces d !! h) ∧ ng_id g = id ∧ ng_namespace g = h ∧
     grant_wf g).
Proof.
  destruct (steps_ns _ _ (reachable_steps d Hd) init_ns_inv) as [(Hl & _ & Hg) _]. split.
  - apply Hl.
  - intros gs id g Hgs Hid. destruct (Hg h gs Hgs) as (? & _ & Hx). by destruct (Hx id g Hid).
Qed.

(** A claim succeeds exactly when the handle is a valid unreserved name
    that is not live and, if it was released before, an administrator overrides
    the tombstone and a generation is left; the new claim then has the next
    generation and replaces the tombstone, and no other handle changes. *)
Theorem claim_outcomes d h owner label actor (override : bool) (now : N) :
  let '(d', r) := apply_namespace d (Claim h owner label actor override now) in
  (r = Ok NamespaceOk ↔
     handle_grammar h ∧ is_handle_reserved h = false ∧ sm_namespaces d !! h = None ∧
     ∀ tomb, sm_released_handles d !! h = Some tomb →
       override = true ∧ (rh_prior_generation tomb + 1 < U64.modulus)%N) ∧
  (r = Ok NamespaceOk →
     sm_namespaces d' !! h = Some (MkNamespace h (1 + level (namespace_maps d) h) owner label now) ∧
     sm_released_handles d' !! h = None ∧
     ∀ h', h' ≠ h → sm_namespaces d' !! h' = sm_namespaces d !! h' ∧
       sm_released_handles d' !! h' = sm_released_handles d !! h').
Proof.
  unfold apply_namespace. destruct (apply_namespace_core _ _ _) as [m' r] eqn:E. simpl in E.
  split; [split|].
  - intros ->. apply core_claim_Ok in E as (Hg & Hr & Hn & Ho & g & [Hlev Hlt] & _).
    repeat (split; [done|]). intros tomb Ht. unfold level in Hlev. rewrite Hn in Hlev. simpl in *.
    rewrite Ht in *. simpl in *. split; [by destruct Ho|lia].
  - intros (Hg & Hr & Hn & Ht). unfold core_claim in E.
    rewrite (proj2 (validate_handle_ok h) Hg), Hr in E. simpl in *. rewrite Hn in E.
    destruct (sm_released_handles d !! h) as [tomb|]; [|by injection E as _ <-].
    destruct (Ht tomb eq_refl) as [-> Hlt]. simpl in E.
    rewrite (proj2 (U64.checked_add_Some _ _ _)) in E by done. by injection E as _ <-.
  - intros ->. apply core_claim_Ok in E as (_ & _ & _ & _ & g & [<- _] & ->). simpl.
    rewrite lookup_insert_eq, lookup_delete_eq. split; [done|]. split; [done|].
    intros h' Hh. by rewrite lookup_insert_ne, lookup_delete_ne by done.
Qed.

(** The answer to a claim of a taken handle reveals only whether the owner
    is a user or an organisation: two states in which the handle is live with
    owners of the same kind give the same answer, whoever the owners are. *)
Theorem claim_conflict_hides_owner d1 d2 h n1 n2 owner label actor override now
    (H1 : sm_namespaces d1 !! h = Some n1) (H2 : sm_namespaces d2 !! h = Some n2)
    (Hkind : owner_kind (ns_owner n1) = owner_kind (ns_owner n2)) :
  (apply_namespace d1 (Claim h owner label actor override now)).2 =
  (apply_namespace d2 (Claim h owner label actor override now)).2 ∧
  is_ok (apply_namespace d1 (Claim h owner label actor override now)).2 = false.
Proof.
  unfold apply_namespace. simpl. unfold core_claim. simpl.
  destruct (validate_handle h); [|done..]. simpl. destruct (is_handle_reserved h); [done|].
  by rewrite H1, H2, Hkind.
Qed.

Definition grant_at d h id : option NamespaceGrant := nm_grant_at (namespace_maps d) h id.
Definition audit_of d h : list NamespaceGrantAuditEvent := nm_audit_of (namespace_maps d) h.

Lemma core_audit m req has m' r h id :
  apply_namespace_core m req has = (m', r) →
  nm_audit_of m h `prefix_of` nm_audit_of m' h ∧
  (nm_grant_at m' h id ≠ nm_grant_at m h id →
     nm_namespaces m' !! h = None ∨
     ∃ ev, nm_audit_of m' h = nm_audit_of m h ++ [ev] ∧ au_grant_id ev = Some id ∧
       au_before ev = nm_grant_at m h id ∧ au_after ev = nm_grant_at m' h id).
Proof.
  intros E. destruct (is_ok r) eqn:Hok; [|by rewrite (core_error _ _ _ _ _ E Hok)].
  destruct r as [r|e|]; [|done..]. clear Hok.
  assert (∀ n a re t handle, m' = release_namespace m handle n a re t →
    nm_audit_of m h `prefix_of` nm_audit_of m' h ∧
    (nm_grant_at m' h id ≠ nm_grant_at m h id → nm_namespaces m' !! h = None)) as Hrel.
  { intros n a re t handle ->. split; [done|]. unfold nm_grant_at. simpl. intros Hne.
    destruct (decide (handle = h)) as [->|Hh]; [apply lookup_delete_eq|].
    by rewrite lookup_delete_ne in Hne. }
  destruct req; simpl in E.
  - apply core_claim_Ok in E as (_ & _ & _ & _ & g & _ & ->). done.
  - destruct (core_release_cases m has handle (DeleteNamespace handle actor reason now) m' (Ok r))
      as [[? ->]|(n & a & re & t & _ & _ & Em & _)]; [by left; eauto|done..|]. destruct (Hrel n a re t handle Em). auto.
  - destruct (core_release_cases m has handle (AdminRevoke handle actor now) m' (Ok r))
      as [[? ->]|(n & a & re & t & _ & _ & Em & _)]; [by right; eauto|done..|]. destruct (Hrel n a re t handle Em). auto.
  - apply core_put_grant_Ok in E as (_ & _ & _ & _ & _ & Eg & ev & Ea & Hb & Haf & Hid & _).
    unfold nm_audit_of. rewrite Ea, lookup_insert.
    assert (∀ h' id', nm_grant_at m' h' id' = if decide (h' = ng_namespace grant ∧ id' = ng_id grant)
      then Some (merged_grant (nm_grant_at m (ng_namespace grant) (ng_id grant)) grant)
      else nm_grant_at m h' id') as Hat.
    { intros h' id'. unfold nm_grant_at. rewrite Eg. apply lookup_insert_nested. }
    case_decide as Hh; simpl.
    + subst h. split; [by eexists|]. rewrite Hat. case_decide as Hd; [|done].
      destruct Hd as [_ ->]. intros _. right. exists ev. by rewrite Hid, Hb, Haf.
    + split; [done|]. rewrite Hat, decide_False by naive_solver. done.
  - apply core_delete_grant_Ok in E as (_ & _ & _ & _ & Eg & Ha).
    assert (nm_grant_at m' h id = if decide (h = handle ∧ id = grant_id) then None
      else nm_grant_at m h id) as ->
      by (rewrite <-without_grant_at; unfold nm_grant_at; by rewrite Eg).
    destruct (nm_grant_at m handle grant_id) as [g|] eqn:Egr; [|unfold nm_audit_of; rewrite Ha].
    + destruct Ha as (ev & Hb & Haf & Hid & Ea & _). unfold nm_audit_of. rewrite Ea, lookup_insert.
      case_decide as Hh; simpl.
      * subst handle. split; [by eexists|]. case_decide as Hd; [|done]. destruct Hd as [_ ->].
        intros _. right. exists ev. by rewrite Hid, Hb, Haf, Egr.
      * split; [done|]. by rewrite decide_False by naive_solver.
    + split; [done|]. case_decide as Hd; [|done]. destruct Hd as [-> ->]. by rewrite Egr.
  - by injection E as <- _.
Qed.

(** The grant audit is append-only and complete: no request removes an
    audit record, and a request that changes a grant of a namespace that stays
    live appends one record with the grant's id and its value before and after. *)
Theorem grant_changes_audited now d req h id :
  let d' := (apply_request now d req).1 in
  audit_of d h `prefix_of` audit_of d' h ∧
  (grant_at d' h id ≠ grant_at d h id →
     sm_namespaces d' !! h = None ∨
     ∃ ev, audit_of d' h = audit_of d h ++ [ev] ∧ au_grant_id ev = Some id ∧
       au_before ev = grant_at d h id ∧ au_after ev = grant_at d' h id).
Proof.
  cbn zeta. unfold audit_of, grant_at.
  destruct (apply_request_maps now d req) as [(_ & _ & Eg & Ea)|(r & -> & E)].
  - unfold nm_audit_of, nm_grant_at. simpl. by rewrite Ea, Eg.
  - change (sm_namespaces ?x) with (nm_namespaces (namespace_maps x)). rewrite E.
    destruct (apply_namespace_core _ r _) as [m' res] eqn:Ec. by eapply core_audit.
Qed.

(** C34: a request that is answered with an error changed no part of the state. *)
Theorem failed_requests_change_nothing now d req :
  from_option is_error_response true (apply_request now d req).2 = true →
  (apply_request now d req).1 = d.
Proof.
  destruct req as [r|r|r|r|r|r|r]; simpl.
  - destruct (apply_manifest d r) as [d' res] eqn:E. destruct res; [done|..]; intros _;
      by apply (apply_manifest_error _ _ _ _ E).
  - by destruct (apply_mirror_config now d r).
  - by destruct (apply_job now d r).
  - by destruct (apply_token d r).
  - destruct r as [pol|id]; simpl; [|done]. by destruct (validate_policy_set pol).
  - destruct r; simpl; by destruct (require_expected_namespace _ _ _).
  - unfold apply_namespace. destruct (apply_namespace_core _ r _) as [m' res] eqn:E. simpl.
    destruct res; [done|..]; intros _; rewrite (core_error _ _ _ _ _ E); by destruct d.
Qed.

(** The principal ids of a request were made by [ProviderQualifiedId::parse]. *)
Definition request_ids_parsed (req : Request) : Prop :=
  match req with
  | ReqNamespace (PutGrant g _ _ _) =>
      match ng_grantee g with
      | GranteeGroup id | GranteeUser id => ∃ v, ProviderQualifiedId_parse v = Ok id
      | GranteePublic => True
      end
  | _ => True
  end.

Lemma ensure_kind_no_panic id k :
  (∃ v, ProviderQualifiedId_parse v = Ok id) → ensure_kind id k ≠ Panic.
Proof.
  intros (v & (p & k' & raw & Hc & Hu)%parse_canonical).
  destruct (canonical_accessors id p k' raw Hc Hu) as (_ & Hk & _).
  unfold ensure_kind. rewrite Hk. simpl. by destruct (negb _).
Qed.

(** Applying a committed request never panics, in any state, when the
    principal ids it carries were parsed. A panic aborts the node, and every
    other node at the same log entry. *)
Theorem apply_never_panics now d req (Hids : request_ids_parsed req) :
  is_Some (apply_request now d req).2.
Proof.
  assert (∀ name e, require_expected_namespace d name e ≠ Panic) as Hg
    by (intros; apply require_expected_namespace_no_panic).
  destruct req as [r|r|r|r|r|r|r]; simpl.
  - assert ((apply_manifest d r).2 ≠ Panic) as Hp; [|by destruct (apply_manifest d r).2; eauto].
    destruct r as [n e|n e|n e|n e|n e|s n e| |]; simpl; [..|done|done];
      unfold apply_put_manifest, apply_delete_manifest, apply_delete_tag,
        apply_delete_repository, apply_delete_manifests; specialize (Hg n e);
      destruct (require_expected_namespace d n e); cbn [try_with]; try done; repeat case_match; done.
  - destruct (apply_mirror_config now d r). by eexists.
  - destruct (apply_job now d r). by eexists.
  - destruct (apply_token d r). by eexists.
  - destruct r as [pol|id]; simpl; [|by eexists]. unfold validate_policy_set.
    repeat case_match; simplify_eq/=; eauto.
  - destruct r as [repo e|n e]; simpl; [specialize (Hg (repo_name repo) e)|specialize (Hg n e)];
      destruct (require_expected_namespace d _ e); simpl; eauto; done.
  - unfold apply_namespace. simpl.
    destruct (apply_namespace_core _ r _) as [m' res] eqn:E. simpl.
    destruct res; [by eexists..|]. exfalso. destruct r; simpl in E.
    + unfold core_claim in E. pose proof (validate_handle_no_panic handle).
      destruct (validate_handle handle); simpl in *; [|done..].
      repeat case_match; simplify_eq; by destruct (U64.checked_add _ _).
    + unfold core_delete in E. repeat case_match; done.
    + unfold core_admin_revoke in E. repeat case_match; done.
    + unfold core_put_grant, validate_namespace_grant in E. simpl in Hids.
      pose proof (validate_handle_no_panic (ng_namespace grant)).
      destruct (validate_handle (ng_namespace grant)); simpl in *; [|done..].
      destruct (negb _); [done|]. destruct (ng_grantee grant) as [id|id|]; simpl in *.
      * unfold PrincipalRef_group in E. pose proof (ensure_kind_no_panic id KGroup Hids).
        by destruct (ensure_kind id KGroup).
      * unfold PrincipalRef_user in E. pose proof (ensure_kind_no_panic id KUser Hids).
        by destruct (ensure_kind id KUser).
      * by destruct (negb _).
    + unfold core_delete_grant in E. pose proof (validate_handle_no_panic handle).
      destruct (validate_handle handle); simpl in *; [|done..]. repeat case_match; done.
    + done.
Qed.
End properties.

(** * Witnesses *)

Lemma apply_steps `{SJ : SerdeJson, OR : Openraft, EX : Externals} clock d entries :
  is_Some (apply clock d entries).2 → rtc step d (apply clock d entries).1.
Proof.
  revert clock d. induction entries as [|entry entries IH]; intros clock d Hs; simpl in *; [done|].
  destruct (apply_entry (clock 0) d entry) as [d1 [resp|]] eqn:E; [|by destruct Hs].
  eapply rtc_l; [by exists (clock 0), entry, resp|].
  specialize (IH (λ i, clock (S i)) d1). destruct (apply _ d1 entries) as [d2 resps].
  apply IH. simpl in *. destruct resps; [by eexists|by destruct Hs].
Qed.

(** Claimed by sub-1, released, reclaimed by sub-2 with an override. *)
Definition run (d : StateMachineData) (reqs : list Request) : StateMachineData :=
  (apply clock d (sample_entry 1 <$> reqs)).1.
Definition release_acme : Request := ReqNamespace (DeleteNamespace "acme" "sub-1" OwnerDeleted 200).
Definition reclaim_acme : Request :=
  ReqNamespace (Claim "acme" (OwnerUser "sub-2") "bob" "admin" true 300).
Definition claimed : StateMachineData := run StateMachineData_default [claim_acme 100].
Definition released : StateMachineData := run claimed [release_acme].
Definition reclaimed : StateMachineData := run released [reclaim_acme].

Lemma stale_epoch_rejected_witness :
  is_Some (sm_namespaces reclaimed !! "acme") ∧
  ∃ resp, apply_request 0 reclaimed (push "acme/app" "latest" manifest_digest)
            = (reclaimed, Some resp) ∧ is_error_response resp = true.
Proof.
  split; [apply (bool_decide_eq_true_1 _); vm_compute; reflexivity|].
  apply (stale_epoch_rejected claimed released reclaimed "acme"
    (MkNamespace "acme" 1 (OwnerUser "sub-1") "alice" 100)) with (name := "acme/app");
    [apply apply_steps; by eexists|reflexivity|apply apply_steps; by eexists|reflexivity
    |apply apply_steps; by eexists|reflexivity|reflexivity].
Defined.

Lemma content_under_live_namespace_witness :
  is_Some (sm_manifests sample_state !! "acme/app") ∧
  ∃ h, handle_of "acme/app" = Ok h ∧ (is_handle_reserved h = true ∨ is_Some (sm_namespaces sample_state !! h)).
Proof.
  assert (is_Some (sm_manifests sample_state !! "acme/app")) as Hc by (apply (bool_decide_eq_true_1 _); vm_compute; reflexivity).
  split; [exact Hc|]. apply (content_under_live_namespace sample_state sample_reachable). by left.
Defined.

Lemma claim_ended_only_by_release_witness :
  ∃ tomb, sm_released_handles (apply_request 0 claimed release_acme).1 !! "acme" = Some tomb ∧
    rh_prior_generation tomb = 1%N.
Proof.
  destruct (claim_ended_only_by_release claimed 0 release_acme "acme"
    (MkNamespace "acme" 1 (OwnerUser "sub-1") "alice" 100)) as (a & re & t & _ & _ & _ & tomb & Ht & _ & Hg).
  - reflexivity.
  - vm_compute. discriminate.
  - exists tomb. by split.
Defined.

Lemma namespace_invariant_witness :
  ∃ n, sm_namespaces sample_state !! "acme" = Some n ∧ ns_handle n = "acme".
Proof.
  exists (MkNamespace "acme" 1 (OwnerUser "sub-1") "alice" 100). split; [reflexivity|].
  refine (proj1 (proj1 (namespace_invariant sample_state sample_reachable "acme") _ _)).
  vm_compute. reflexivity.
Defined.

Lemma claim_conflict_hides_owner_witness :
  (apply_namespace claimed (Claim "acme" (OwnerUser "x") "x" "x" false 5)).2 =
  (apply_namespace reclaimed (Claim "acme" (OwnerUser "x") "x" "x" false 5)).2.
Proof.
  apply (claim_conflict_hides_owner claimed reclaimed "acme"
    (MkNamespace "acme" 1 (OwnerUser "sub-1") "alice" 100)
    (MkNamespace "acme" 2 (OwnerUser "sub-2") "bob" 300)); reflexivity.
Defined.

Lemma failed_requests_change_nothing_witness :
  (apply_request 0 claimed (claim_acme 7)).1 = claimed ∧
  from_option is_error_response true (apply_request 0 claimed (claim_acme 7)).2 = true.
Proof.
  assert (from_option is_error_response true (apply_request 0 claimed (claim_acme 7)).2 = true) as H
    by (vm_compute; reflexivity).
  split; [exact (failed_requests_change_nothing 0 claimed (claim_acme 7) H)|exact H].
Defined.

Definition group_grant : NamespaceGrant :=
  MkNamespaceGrant "g1" "acme" (GranteeGroup "keycloak:group:devs") Pull "devs" "sub-1" 10 "sub-1" 10.

Lemma apply_never_panics_witness :
  is_Some (apply_request 0 claimed (ReqNamespace (PutGrant group_grant "alice" "why" "a1"))).2 ∧
  is_Some (grant_at (apply_request 0 claimed (ReqNamespace (PutGrant group_grant "alice" "why" "a1"))).1
    "acme" "g1").
Proof.
  split; [|apply (bool_decide_eq_true_1 _); vm_compute; reflexivity].
  apply (apply_never_panics 0 claimed (ReqNamespace (PutGrant group_grant "alice" "why" "a1"))).
  exists "keycloak:group:devs". vm_compute. reflexivity.
Defined.
