(* ===== verification/Jobs.v ===== *)
(** Synchronisation jobs, their runs, and the proxy-cache validation index of
    the state machine (the job and mirror-configuration requests). *)

From Stdlib Require Import Ascii.
From stdpp Require Import options.
From S2P Require Import Prelude Errors Digests Manifests Permissions Principals Handles.
From S2P Require Import SyncRuns Types StateMachine RefCounts Samples Reach Content Namespaces.

#[local] Open Scope lh_scope.

(** * The validation index *)

Section validations.
Implicit Types (v : ProxyCacheTagValidations).

Lemma lookup_retain_nonempty {A B} (f : gmap string A → gmap string A)
    (v : gmap string (gmap string A)) c (g : gmap string A → option B) :
  g ∅ = None → (retain_nonempty f v !! c ≫= g) = v !! c ≫= λ r, g (f r).
Proof.
  intros Hg. unfold retain_nonempty. rewrite map_lookup_filter, lookup_fmap.
  destruct (v !! c) as [r|]; simpl; [|done]. case_guard as Hne; simpl; [done|].
  by rewrite Hne.
Qed.

Lemma lookup_clear_tag_in_repo repository tag
    (repos : gmap string (gmap string ProxyCacheTagValidation)) r t :
  (clear_tag_in_repo repository tag repos !! r ≫= λ tags, tags !! t) =
    if decide (r = repository ∧ t = tag) then None else repos !! r ≫= λ tags, tags !! t.
Proof.
  unfold clear_tag_in_repo. destruct (repos !! repository) as [tags|] eqn:E.
  - assert ((if bool_decide (delete tag tags = ∅) then delete repository repos
             else <[repository:=delete tag tags]> repos) !! r ≫= (λ tags0, tags0 !! t) =
            if decide (r = repository) then delete tag tags !! t
            else repos !! r ≫= λ tags0, tags0 !! t) as ->.
    { case_bool_decide as He; [rewrite lookup_delete|rewrite lookup_insert];
        destruct (decide (repository = r)) as [->|Hr]; simpl.
      - by rewrite decide_True, He, lookup_empty.
      - by rewrite decide_False.
      - by rewrite decide_True.
      - by rewrite decide_False. }
    destruct (decide (r = repository)) as [->|Hr]; [|by rewrite decide_False by naive_solver].
    rewrite lookup_delete, E. simpl. destruct (decide (tag = t)) as [->|Ht].
    + by rewrite decide_True.
    + by rewrite decide_False by naive_solver.
  - case_decide as Hd; [|done]. destruct Hd as [-> _]. by rewrite E.
Qed.

Lemma get_clear_for_tag v repository tag c r t :
  get_proxy_cache_tag_validation (clear_proxy_cache_tag_validations_for_tag v repository tag) c r t =
    if decide (r = repository ∧ t = tag) then None else get_proxy_cache_tag_validation v c r t.
Proof.
  unfold get_proxy_cache_tag_validation, clear_proxy_cache_tag_validations_for_tag.
  rewrite lookup_retain_nonempty by by rewrite lookup_empty.
  destruct (v !! c) as [repos|]; simpl; [|by case_decide]. apply lookup_clear_tag_in_repo.
Qed.

Lemma get_clear_for_repository v repository c r t :
  get_proxy_cache_tag_validation
    (clear_proxy_cache_tag_validations_for_repository v repository) c r t =
    if decide (r = repository) then None else get_proxy_cache_tag_validation v c r t.
Proof.
  unfold get_proxy_cache_tag_validation, clear_proxy_cache_tag_validations_for_repository.
  rewrite lookup_retain_nonempty by by rewrite lookup_empty.
  destruct (v !! c) as [repos|]; simpl; [|by case_decide]. rewrite lookup_delete.
  repeat case_decide; naive_solver.
Qed.

Lemma get_put_validation v x c r t :
  get_proxy_cache_tag_validation (put_proxy_cache_tag_validation v x) c r t =
    if decide (c = pv_cache_id x ∧ r = pv_repository x ∧ t = pv_tag x) then Some x
    else get_proxy_cache_tag_validation v c r t.
Proof.
  unfold get_proxy_cache_tag_validation, put_proxy_cache_tag_validation. rewrite lookup_insert.
  destruct (decide (pv_cache_id x = c)) as [<-|Hc]; [|by rewrite decide_False by naive_solver].
  simpl. rewrite lookup_insert.
  destruct (decide (pv_repository x = r)) as [<-|Hr]; simpl.
  - rewrite lookup_insert. destruct (decide (pv_tag x = t)) as [<-|Ht].
    + by rewrite decide_True.
    + rewrite decide_False by naive_solver.
      destruct (v !! pv_cache_id x) as [repos|]; simpl; [|by rewrite lookup_empty].
      destruct (repos !! pv_repository x); simpl; [done|apply lookup_empty].
  - rewrite decide_False by naive_solver. destruct (v !! pv_cache_id x); simpl; [done|].
    by rewrite lookup_empty.
Qed.

Lemma get_clear_tags v name tags c r t :
  get_proxy_cache_tag_validation (clear_tags v name tags) c r t =
    if decide (r = name ∧ t ∈ tags) then None else get_proxy_cache_tag_validation v c r t.
Proof.
  unfold clear_tags. revert v. induction tags as [|x tags IH]; intros v; simpl.
  { by rewrite decide_False by set_solver. }
  rewrite IH, get_clear_for_tag. repeat case_decide; set_solver.
Qed.
End validations.

Section coherence.
Context `{SJ : SerdeJson, OR : Openraft, EX : Externals}.
Implicit Types (d : StateMachineData).

Definition validation_of d (c r t : string) : option ProxyCacheTagValidation :=
  get_proxy_cache_tag_validation (sm_proxy_cache_tag_validations d) c r t.

Lemma drop_tags_validations d name f c n t :
  tag_at (drop_tags d name f).1 n t ≠ tag_at d n t → validation_of (drop_tags d name f).1 c n t = None.
Proof.
  rewrite tag_at_drop_tags. unfold drop_tags, retain_tags, validation_of, tag_at.
  destruct (decide (n = name)) as [->|Hn]; [|done].
  destruct (sm_tags d !! name) as [ts|]; simpl; [|done].
  destruct (ts !! t) as [x|] eqn:Et; simpl; [|done]. destruct (f x) eqn:Ef; [|done]. intros _.
  rewrite get_clear_tags, decide_True; [done|]. split; [done|].
  apply list_elem_of_fmap. exists (t, x). split; [done|]. apply list_elem_of_filter.
  split; [done|]. by apply elem_of_btree_entries.
Qed.

Lemma apply_manifest_validations d req c n t :
  tag_at (apply_manifest d req).1 n t ≠ tag_at d n t →
  validation_of (apply_manifest d req).1 c n t = None.
Proof.
  destruct req; simpl; try done;
    unfold apply_put_manifest, apply_delete_manifest, apply_delete_tag,
      apply_delete_repository, apply_delete_manifests;
    destruct (require_expected_namespace _ _ _); cbn [try_with]; try done.
  - destruct (_ && _); [done|]. cbn zeta. simpl fst.
    destruct (Str.contains_char ":" reference); [done|].
    unfold tag_at, validation_of. cbn [negb]. simpl. rewrite lookup_insert_nested.
    case_decide as Hd; [|done]. intros _. rewrite get_clear_for_tag. by rewrite decide_True.
  - set (d1 := match _ with Some _ => _ | None => _ end).
    assert (tag_at d1 n t = tag_at d n t) as <- by (unfold d1, tag_at; by case_match).
    pose proof (drop_tags_validations d1 name (λ x, bool_decide (x = digest)) c n t) as H.
    by destruct (drop_tags d1 name _) as [d2 ts].
  - destruct (sm_tags d !! name) as [ts|] eqn:E; [|done]. case_bool_decide as Hb; [|done].
    unfold tag_at, validation_of. simpl. rewrite get_clear_for_tag, lookup_alter.
    destruct (decide (name = n)) as [<-|Hn]; [|done]. rewrite E. simpl. rewrite lookup_delete.
    destruct (decide (tag = t)) as [<-|]; [|done]. by rewrite decide_True.
  - unfold tag_at, validation_of. simpl. destruct (sm_manifests d !! name); simpl;
      rewrite get_clear_for_repository, lookup_delete; repeat case_decide; naive_solver.
  - destruct (match sm_manifests d !! name with Some _ => _ | None => _ end) as [d0 rem] eqn:E0.
    assert (tag_at d0 n t = tag_at d n t) as <-.
    { unfold tag_at. destruct (sm_manifests d !! name) as [repo|]; [|by simplify_eq].
      destruct (remove_each repo _). by simplify_eq. }
    set (d1 := set_sm_blob_ref_counts _ d0).
    pose proof (drop_tags_validations d1 name
      (λ x, bool_decide (x ∈ (list_to_set digests : gset string))) c n t) as H.
    by destruct (drop_tags d1 name _) as [d2 ts].
Qed.

(** The proxy cache's validation index is coherent with the tags: after
    any request that moves, creates or removes a tag, no cache has a
    validation of that tag any more. *)
Theorem tag_change_invalidates now d req (name tag cache : string)
    (Hchange : tag_at (apply_request now d req).1 name tag ≠ tag_at d name tag) :
  validation_of (apply_request now d req).1 cache name tag = None.
Proof.
  destruct req as [r|r|r|r|r|r|r]; simpl in *; [by apply apply_manifest_validations|..];
    exfalso; apply Hchange; unfold tag_at.
  - pose proof (apply_mirror_config_frame now d r) as ((_ & Ht & _) & _).
    destruct (apply_mirror_config now d r). simpl in *. by rewrite Ht.
  - pose proof (apply_job_frame now d r) as ((_ & Ht & _) & _).
    destruct (apply_job now d r). simpl in *. by rewrite Ht.
  - pose proof (apply_token_frame d r) as ((_ & Ht & _) & _). destruct (apply_token d r).
    simpl in *. by rewrite Ht.
  - destruct (apply_policy_frame d r) as ((_ & Ht & _) & _). by rewrite Ht.
  - destruct (apply_repository_frame d r) as ((_ & Ht & _) & _). by rewrite Ht.
  - destruct (apply_namespace_frame d r) as ((_ & Ht & _) & _). by rewrite Ht.
Qed.
End coherence.

(** * Jobs *)

Section jobs.
Context `{SJ : SerdeJson, OR : Openraft, EX : Externals}.
Implicit Types (d : StateMachineData).

(** Requests that do not replace or remove the job [id]; a trigger may create
    a job under a fresh id, which is made from the clock. *)
Definition keeps_job (id : string) (req : Request) : Prop :=
  match req with
  | ReqJob (PutSyncJob job) => job_id job ≠ id
  | ReqJob (DeleteSyncJob i) => i ≠ id
  | ReqMirrorConfig (TriggerMirrorRule _) | ReqMirrorConfig (TriggerProxyCacheWarm _) => False
  | _ => True
  end.

Lemma other_requests_keep_jobs now d req :
  match req with ReqJob _ | ReqMirrorConfig _ => False | _ => True end →
  sm_sync_jobs (apply_request now d req).1 = sm_sync_jobs d ∧
  sm_sync_job_runs (apply_request now d req).1 = sm_sync_job_runs d ∧
  sm_mirror_rules (apply_request now d req).1 = sm_mirror_rules d ∧
  sm_proxy_caches (apply_request now d req).1 = sm_proxy_caches d.
Proof.
  destruct req as [r|r|r|r|r|r|r]; try done; intros _; simpl.
  - destruct r; simpl; unfold apply_put_manifest, apply_delete_manifest, apply_delete_tag,
      apply_delete_repository, apply_delete_manifests;
      try (destruct (require_expected_namespace _ _ _); cbn [try_with]; [|done..]); try done.
    + destruct (_ && _); [done|]. simpl. by destruct (negb _).
    + unfold drop_tags, retain_tags. repeat case_match; by simplify_eq/=.
    + repeat case_match; by simplify_eq/=.
    + simpl. by destruct (sm_manifests d !! name).
    + unfold drop_tags, retain_tags. repeat case_match; by simplify_eq/=.
  - destruct r as [t|i s]; [done|]. simpl. by destruct (match sm_personal_access_tokens d !! i with
      Some _ => _ | None => _ end).
  - destruct r as [p|i]; [|done]. simpl. by destruct (validate_policy_set p).
  - destruct r; simpl; by destruct (require_expected_namespace _ _ _).
  - unfold apply_namespace. by destruct (apply_namespace_core _ _ _).
Qed.

Lemma running_job_step now d req id job :
  sm_sync_jobs d !! id = Some job → job_status job = Running → keeps_job id req →
  sm_sync_jobs (apply_request now d req).1 !! id = Some job.
Proof.
  intros Hj Hrun Hk. pose proof (other_requests_keep_jobs now d req) as Ho.
  destruct req as [r|r|r|r|r|r|r]; try (by rewrite (proj1 (Ho I))); simpl in *.
  - by destruct r.
  - destruct r as [j|i|i node|i|run]; simpl in *.
    + by rewrite lookup_insert_ne.
    + by rewrite lookup_delete_ne.
    + destruct (sm_sync_jobs d !! i) as [j|] eqn:Ei; [|done].
      case_bool_decide as Hs; [|done]. simpl. rewrite lookup_insert_ne; [done|].
      intros ->. simplify_eq. congruence.
    + destruct (sm_sync_jobs d !! i) as [j|] eqn:Ei; [|done].
      case_bool_decide as Hs; [done|]. simpl. rewrite lookup_insert_ne; [done|].
      intros ->. simplify_eq.
    + done.
Qed.

(** A job is run by one node at a time: from the moment a claim succeeds,
    and for as long as nobody replaces or deletes the job, it stays exactly as
    the claim left it, and every further claim of it, or request to trigger
    it, is refused. *)
Theorem claim_exclusive now d id node d1
    (Hclaim : apply_job now d (ClaimSyncJob id node) = (d1, JobBool true))
    (reqs : list (N * Request)) (Hkeep : Forall (λ r, keeps_job id r.2) reqs) :
  let d2 := foldl (λ d '(t, req), (apply_request t d req).1) d1 reqs in
  ∃ job, sm_sync_jobs d1 !! id = Some job ∧ job_status job = Running ∧
    job_claimed_by job = Some node ∧ sm_sync_jobs d2 !! id = Some job ∧
    ∀ t other, apply_job t d2 (ClaimSyncJob id other) = (d2, JobBool false) ∧
      apply_job t d2 (TriggerSyncJob id) = (d2, JobBool false).
Proof.
  cbn zeta. simpl in Hclaim. destruct (sm_sync_jobs d !! id) as [j|] eqn:Ej; [|done].
  case_bool_decide as Hidle; [|done]. simpl in Hclaim. injection Hclaim as <-.
  match goal with |- context [<[id := ?x]> _] => set (job := x) end.
  set (d1 := set_sm_sync_jobs _ d).
  assert (∀ d0, sm_sync_jobs d0 !! id = Some job →
    sm_sync_jobs (foldl (λ d '(t, req), (apply_request t d req).1) d0 reqs) !! id = Some job) as Hrun.
  { induction Hkeep as [|[t req] reqs Hk _ IH]; intros d0 H0; simpl; [done|].
    apply IH. by apply running_job_step. }
  assert (sm_sync_jobs d1 !! id = Some job) as H1 by (simpl; apply lookup_insert_eq).
  exists job. split; [done|]. split; [done|]. split; [done|]. specialize (Hrun d1 H1).
  split; [done|]. intros t other. simpl. by rewrite Hrun.
Qed.

(** ** Runs *)

Definition runs_wf (job : string) (runs : list SyncJobRun) : Prop :=
  length runs ≤ 50 ∧ NoDup (run_id <$> runs) ∧ Forall (λ r, run_job_id r = job) runs.

Lemma keep_last_length {A} cap (l : list A) : length (keep_last cap l) ≤ cap.
Proof. unfold keep_last. case_bool_decide; [rewrite length_drop|]; lia. Qed.

Lemma keep_last_suffix {A} cap (l : list A) : ∃ l', l = l' ++ keep_last cap l.
Proof.
  unfold keep_last. case_bool_decide; [|by exists []]. eexists. symmetry. apply take_drop.
Qed.

Lemma put_run_wf job runs run :
  runs_wf job runs → run_job_id run = job → runs_wf job (put_run runs run) ∧ run ∈ put_run runs run.
Proof.
  intros (Hlen & Hnd & Hall) Hrun. unfold put_run.
  destruct (list_find (λ r, run_id r = run_id run) runs) as [[pos r]|] eqn:E.
  - apply list_find_Some in E as (Hpos & Hid & _).
    assert (pos < length runs) as Hlt by by eapply lookup_lt_Some.
    split; [split; [|split]|].
    + by rewrite length_insert.
    + rewrite list_fmap_insert, list_insert_id; [done|]. by rewrite list_lookup_fmap, Hpos, <-Hid.
    + by apply Forall_insert.
    + apply list_elem_of_lookup. exists pos. by apply list_lookup_insert_eq.
  - apply list_find_None in E. destruct (keep_last_suffix 50 (runs ++ [run])) as [l' El].
    assert (NoDup (run_id <$> runs ++ [run])) as Hnd'.
    { rewrite fmap_app. apply NoDup_app. split; [done|]. split; [|apply NoDup_singleton].
      intros x (r & -> & Hr)%list_elem_of_fmap Hx. rewrite Forall_forall in E.
      apply (E r Hr). by apply list_elem_of_singleton in Hx. }
    assert (Forall (λ r, run_job_id r = job) (runs ++ [run])) as Hall' by by apply Forall_app; split; [|constructor].
    rewrite El in Hnd', Hall'. rewrite fmap_app in Hnd'. apply NoDup_app in Hnd' as (_ & _ & Hnd').
    apply Forall_app in Hall' as [_ Hall'].
    split; [split; [apply keep_last_length|done]|].
    unfold keep_last. case_bool_decide; [|set_solver].
    rewrite drop_app_le by (rewrite length_app; simpl; lia). set_solver.
Qed.

Definition all_runs_wf d : Prop :=
  ∀ job runs, sm_sync_job_runs d !! job = Some runs → runs_wf job runs.

Lemma put_run_request_wf now d run :
  all_runs_wf d → all_runs_wf (apply_job now d (PutSyncJobRun run)).1.
Proof.
  intros Hd job runs. simpl. rewrite lookup_insert. case_decide as Hj; [|apply Hd]. intros [= <-].
  apply put_run_wf; [|done]. destruct (sm_sync_job_runs d !! job) as [rs|] eqn:E; rewrite Hj, E; simpl.
  - by apply Hd.
  - split; [simpl; lia|]. split; constructor.
Qed.

Lemma reachable_runs_wf d : reachable d → all_runs_wf d.
Proof.
  revert d. apply (reachable_invariant all_runs_wf); [|done|done|].
  { intros job runs. simpl. by rewrite lookup_empty. }
  intros now d req Hd _. pose proof (other_requests_keep_jobs now d req) as Ho.
  destruct req as [r|r|r|r|r|r|r]; try (unfold all_runs_wf; by rewrite (proj1 (proj2 (Ho I)))); simpl.
  - assert (sm_sync_job_runs (apply_mirror_config now d r).1 = sm_sync_job_runs d) as E
      by (destruct r; simpl; repeat case_match; done).
    destruct (apply_mirror_config now d r). simpl in *. unfold all_runs_wf. by rewrite E.
  - destruct r as [j|i|i node|i|run]; simpl; try done.
    + intros job runs. simpl. intros [_ ?]%lookup_delete_Some. by apply Hd.
    + unfold all_runs_wf in *. destruct (sm_sync_jobs d !! i); [|done]. by destruct (negb _).
    + unfold all_runs_wf in *. destruct (sm_sync_jobs d !! i); [|done]. by destruct (bool_decide _).
    + by apply (put_run_request_wf now).
Qed.

(** The run history of a job is bounded and consistent: in every reachable
    state it has at most 50 runs, all of that job, without repeated ids; and
    recording a run makes it part of the history, replacing an earlier record
    with the same id. *)
Theorem run_history_bounded d (Hd : reachable d) (job : string) (runs : list SyncJobRun)
    (Hruns : sm_sync_job_runs d !! job = Some runs) :
  length runs ≤ 50 ∧ NoDup (run_id <$> runs) ∧ Forall (λ r, run_job_id r = job) runs ∧
  ∀ now run, run_job_id run = job →
    ∃ runs', sm_sync_job_runs (apply_job now d (PutSyncJobRun run)).1 !! job = Some runs' ∧
      run ∈ runs' ∧ ∀ r, r ∈ runs' → run_id r = run_id run → r = run.
Proof.
  pose proof (reachable_runs_wf d Hd job runs Hruns) as Hwf.
  destruct (Hwf) as (Hlen & Hnd & Hall). repeat (split; [done|]). intros now run Hrun.
  destruct (put_run_wf job runs run Hwf Hrun) as [(_ & Hnd' & _) Hin].
  exists (put_run runs run). split; [|split; [done|]].
  - simpl. by rewrite Hrun, lookup_insert_eq, Hruns.
  - intros r Hr Hid. apply list_elem_of_lookup in Hr as [i Hi], Hin as [j Hj].
    assert (i = j) as ->; [|congruence].
    eapply NoDup_lookup; [exact Hnd'|by rewrite list_lookup_fmap, Hi|].
    by rewrite list_lookup_fmap, Hj, Hid.
Qed.

Lemma any_job_blocks_true d kind id now job :
  sm_sync_jobs d !! job_id job = Some job → sync_job_blocks_trigger job kind id now = true →
  any_job_blocks d kind id now = true.
Proof.
  intros Hj Hb. unfold any_job_blocks. apply existsb_exists. exists job. split; [|done].
  apply list_elem_of_In, elem_of_btree_values. by exists (job_id job).
Qed.

(** Rules and caches are stored under their own ids. *)
Definition config_keyed d : Prop :=
  (∀ id rule, sm_mirror_rules d !! id = Some rule → mr_id rule = id) ∧
  (∀ id cache, sm_proxy_caches d !! id = Some cache → pc_id cache = id).

Lemma config_keyed_step now d req : config_keyed d → config_keyed (apply_request now d req).1.
Proof.
  intros [Hr Hc]. pose proof (other_requests_keep_jobs now d req) as Ho.
  destruct req as [r|r|r|r|r|r|r]; try (destruct (Ho I) as (_ & _ & E1 & E2);
    unfold config_keyed; by rewrite E1, E2); clear Ho; simpl.
  - destruct r; simpl; repeat case_match; simplify_eq/=; split; simpl; try done; intros i x;
      rewrite ?lookup_insert, ?lookup_delete; case_decide; subst; naive_solver.
  - destruct r; simpl; repeat case_match; simplify_eq/=; split; simpl; done.
Qed.

Lemma reachable_config_keyed d : reachable d → config_keyed d.
Proof.
  revert d. apply (reachable_invariant config_keyed); [|done|done|].
  - split; intros id x; simpl; by rewrite lookup_empty.
  - intros now d req Hd _. by apply config_keyed_step.
Qed.

(** A rule has at most one pending run: once a trigger of a mirror rule or
    of a proxy cache has queued a job, a second trigger of it, on a clock that
    has not gone back, is refused and changes nothing. *)
Theorem trigger_queues_once d (Hd : reachable d) (now now' : N) (Hclock : (now ≤ now')%N)
    (id : string) (job : SyncJob) (d' : StateMachineData) :
  (apply_mirror_config now d (TriggerMirrorRule id) = (d', MirrorSyncJob (Some job)) →
   sm_sync_jobs d' !! job_id job = Some job ∧
   apply_mirror_config now' d' (TriggerMirrorRule id) = (d', MirrorBool false)) ∧
  (apply_mirror_config now d (TriggerProxyCacheWarm id) = (d', MirrorSyncJob (Some job)) →
   sm_sync_jobs d' !! job_id job = Some job ∧
   apply_mirror_config now' d' (TriggerProxyCacheWarm id) = (d', MirrorBool false)).
Proof.
  destruct (reachable_config_keyed d Hd) as [Hr Hc]. split; intros Happ; simpl in Happ.
  - destruct (sm_mirror_rules d !! id) as [rule|] eqn:Er; [|done].
    destruct (any_job_blocks d MirrorJob id now); [done|]. injection Happ as <- <-.
    set (job := mirror_rule_job rule _ now 0).
    assert (sm_sync_jobs (insert_job d job) !! job_id job = Some job) as Hj
      by apply lookup_insert_eq.
    split; [done|]. simpl. rewrite Er.
    rewrite (any_job_blocks_true _ _ _ _ job Hj); [done|].
    unfold sync_job_blocks_trigger. simpl. rewrite (Hr id rule Er).
    by rewrite !bool_decide_true.
  - destruct (sm_proxy_caches d !! id) as [cache|] eqn:Er; [|done].
    destruct (any_job_blocks d ProxyCacheJob id now); [done|]. injection Happ as <- <-.
    set (job := proxy_cache_warm_job cache now).
    assert (sm_sync_jobs (insert_job d job) !! job_id job = Some job) as Hj
      by apply lookup_insert_eq.
    split; [done|]. simpl. rewrite Er.
    rewrite (any_job_blocks_true _ _ _ _ job Hj); [done|].
    unfold sync_job_blocks_trigger. simpl. rewrite (Hc id cache Er).
    by rewrite !bool_decide_true.
Qed.
End jobs.

(** * Witnesses *)

Definition validated : StateMachineData :=
  run sample_state [ReqMirrorConfig (PutProxyCacheTagValidation
    (MkProxyCacheTagValidation "hub" "acme/app" "latest" manifest_digest 50))].
Definition untag_latest : Request :=
  ReqManifest (DeleteTag "acme/app" acme_epoch manifest_digest "latest").

Lemma tag_change_invalidates_witness :
  bool_decide (is_Some (validation_of validated "hub" "acme/app" "latest")) = true ∧
  validation_of (apply_request 0 validated untag_latest).1 "hub" "acme/app" "latest" = None.
Proof.
  split; [vm_compute; reflexivity|].
  apply (tag_change_invalidates 0 validated untag_latest). vm_compute. discriminate.
Defined.

Definition sample_job : SyncJob :=
  MkSyncJob "j1" LegacyWarm None None "acme/app" ["latest"] 60 Idle None None None 0 None.
Definition with_job : StateMachineData := run sample_state [ReqJob (PutSyncJob sample_job)].

Lemma claim_exclusive_witness :
  ∃ job, sm_sync_jobs (apply_job 7 with_job (ClaimSyncJob "j1" "node-a")).1 !! "j1" = Some job ∧
    job_claimed_by job = Some "node-a".
Proof.
  destruct (claim_exclusive 7 with_job "j1" "node-a" _
    (eq_refl : _ = ((apply_job 7 with_job (ClaimSyncJob "j1" "node-a")).1, JobBool true))
    [(8%N, ReqJob (ClaimSyncJob "j1" "node-b"))]) as (job & Hj & _ & Hn & _).
  - repeat constructor.
  - exists job. split; [exact Hj|exact Hn].
Defined.

Definition sample_run : SyncJobRun := SyncJobRun_running "r1" "j1" "node-a" 9.
Definition run_history : list Entry :=
  sample_history ++ [sample_entry 4 (ReqJob (PutSyncJobRun sample_run))].
Definition with_run : StateMachineData := (apply clock StateMachineData_default run_history).1.

Lemma with_run_reachable : reachable with_run.
Proof. apply apply_reachable; [apply reach_init|reflexivity|by eexists]. Qed.

Lemma run_history_bounded_witness :
  sm_sync_job_runs with_run !! "j1" = Some [sample_run] ∧ NoDup (run_id <$> [sample_run]).
Proof.
  assert (sm_sync_job_runs with_run !! "j1" = Some [sample_run]) as H by reflexivity.
  split; [exact H|]. exact (proj1 (proj2 (run_history_bounded with_run with_run_reachable "j1" _ H))).
Defined.

Definition sample_rule : MirrorRule :=
  MkMirrorRule "m1" DirPull "acme/app" "registry.example.org" None None StrategyAll false false
    (MkOutboundProxy ProxyNone None None None) None None 5.
Definition with_rule : StateMachineData :=
  (apply clock StateMachineData_default [sample_entry 1 (ReqMirrorConfig (PutMirrorRule sample_rule))]).1.

Lemma with_rule_reachable : reachable with_rule.
Proof. apply apply_reachable; [apply reach_init|reflexivity|by eexists]. Qed.

Lemma trigger_queues_once_witness :
  (apply_mirror_config 101 (apply_mirror_config 100 with_rule (TriggerMirrorRule "m1")).1
     (TriggerMirrorRule "m1")).2 = MirrorBool false.
Proof.
  destruct (proj1 (trigger_queues_once with_rule with_rule_reachable 100 101 ltac:(lia) "m1"
    (mirror_rule_job sample_rule "m1-100" 100 0)
    (apply_mirror_config 100 with_rule (TriggerMirrorRule "m1")).1) eq_refl) as [_ H].
  by rewrite H.
Defined.
