(* ===== verification/Replication.v ===== *)
(** Replication: whether two replicas that apply the same log reach the same
    state. The clock each replica reads while it applies an entry is a
    parameter of [apply]; replicas have different ones. *)

From Stdlib Require Import Ascii.
From stdpp Require Import options.
From S2P Require Import Prelude Errors Digests Manifests Permissions Principals Handles.
From S2P Require Import SyncRuns Types StateMachine RefCounts Samples Reach Content Namespaces.
From S2P Require Import Jobs.

#[local] Open Scope lh_scope.

Section determinism.
Context `{SJ : SerdeJson, OR : Openraft, EX : Externals}.
Implicit Types (d : StateMachineData).

(** The four requests whose apply code calls [now_epoch()]. *)
Definition reads_clock (req : Request) : bool :=
  match req with
  | ReqMirrorConfig (TriggerMirrorRule _) | ReqMirrorConfig (TriggerProxyCacheWarm _)
  | ReqJob (ClaimSyncJob _ _) | ReqJob (TriggerSyncJob _) => true
  | _ => false
  end.
Definition entry_reads_clock (e : Entry) : bool :=
  match entry_payload e with Normal req => reads_clock req | _ => false end.

Lemma apply_request_clock now now' d req :
  reads_clock req = false → apply_request now d req = apply_request now' d req.
Proof.
  destruct req as [r|r|r|r|r|r|r]; try done; destruct r; try done.
Qed.

(** C21: replicas that apply the same log entries reach the same state and give
    the same answers, whatever their clocks read, as long as no entry is one
    of the four requests that read the clock. *)
Theorem replicas_agree (entries : list Entry)
    (Hfree : Forall (λ e, entry_reads_clock e = false) entries) :
  ∀ (clock clock' : nat → N) d, apply clock d entries = apply clock' d entries.
Proof.
  induction Hfree as [|e entries He _ IH]; intros clock clock' d; simpl; [done|].
  assert (apply_entry (clock 0) d e = apply_entry (clock' 0) d e) as ->.
  { unfold apply_entry, entry_reads_clock in *. destruct (entry_payload e); [done..|].
    by apply apply_request_clock. }
  destruct (apply_entry (clock' 0) d e) as [d' [resp|]]; [|done].
  by rewrite (IH (λ i, clock (S i)) (λ i, clock' (S i))).
Qed.

(** Applying a log in two batches is applying it in one: openraft may split
    the log differently on each replica. *)
Lemma apply_app clock d es1 es2 :
  apply clock d (es1 ++ es2) =
    match apply clock d es1 with
    | (d1, Some rs1) =>
        let '(d2, rs2) := apply (λ i, clock (length es1 + i)) d1 es2 in
        (d2, app rs1 <$> rs2)
    | (d1, None) => (d1, None)
    end.
Proof.
  revert clock d. induction es1 as [|e es1 IH]; intros clock d; simpl.
  - destruct (apply _ d es2) as [d2 [rs|]]; done.
  - destruct (apply_entry (clock 0) d e) as [d1 [resp|]]; [|done]. rewrite IH.
    destruct (apply (λ i, clock (S i)) d1 es1) as [d2 [rs|]]; [|done]. simpl.
    destruct (apply _ d2 es2) as [d3 [rs2|]]; done.
Qed.

(** Batching does not matter: a replica that applies the log in two batches
    ends in the state, and with the answers, of one that applies it at once. *)
Theorem batches_compose (clock : nat → N) d es1 es2 d1 rs1
    (Hfirst : apply clock d es1 = (d1, Some rs1)) :
  let second := apply (λ i, clock (length es1 + i)) d1 es2 in
  apply clock d (es1 ++ es2) = (second.1, app rs1 <$> second.2).
Proof.
  cbn zeta. rewrite apply_app, Hfirst. by destruct (apply _ d1 es2).
Qed.
End determinism.

(** The log of a trigger followed by a claim of the job the leader created. *)
Definition trigger_log : list Entry :=
  [sample_entry 1 (ReqMirrorConfig (PutMirrorRule sample_rule));
   sample_entry 2 (ReqMirrorConfig (TriggerMirrorRule "m1"));
   sample_entry 3 (ReqJob (ClaimSyncJob "m1-100" "node-a"))].

(** The four requests that read the clock break replication: two replicas
    whose clocks are one second apart apply the same committed log to the same
    state and end with different jobs, and answer differently: the claim that
    succeeds on one fails on the other. *)
Theorem clock_reads_diverge :
  let r1 := apply (λ _, 100%N) StateMachineData_default trigger_log in
  let r2 := apply (λ _, 101%N) StateMachineData_default trigger_log in
  dom (sm_sync_jobs r1.1) = {[ "m1-100" ]} ∧ dom (sm_sync_jobs r2.1) = {[ "m1-101" ]} ∧
  (last <$> r1.2) = Some (Some (RespJob (JobBool true))) ∧
  (last <$> r2.2) = Some (Some (RespJob (JobBool false))).
Proof. vm_compute. repeat split. Qed.

(** * Witnesses *)

Lemma replicas_agree_witness :
  apply (λ _, 100%N) StateMachineData_default sample_history =
  apply (λ i, N.of_nat (i + 7)) StateMachineData_default sample_history.
Proof. apply (replicas_agree sample_history). repeat constructor. Defined.

Lemma batches_compose_witness :
  (apply clock StateMachineData_default (take 1 sample_history ++ drop 1 sample_history)).2 =
  Some [RespNamespace NamespaceOk; RespManifest ManifestOk; RespManifest ManifestOk].
Proof.
  rewrite (batches_compose clock StateMachineData_default (take 1 sample_history)
    (drop 1 sample_history) (apply clock StateMachineData_default (take 1 sample_history)).1
    [RespNamespace NamespaceOk] eq_refl). vm_compute. reflexivity.
Defined.
