(* ===== verification/Snapshot.v ===== *)
(** Snapshots: the versioned encoding of the state, the Raft snapshot builder and
    installer (raft/state_machine.rs) and the copy kept in object storage for a
    cold start (main.rs), with the repair of restored metadata. *)

From Stdlib Require Import Ascii.
From stdpp Require Import options.
From S2P Require Import Prelude Errors Digests Manifests Permissions Principals Handles.
From S2P Require Import SyncRuns Types StateMachine RefCounts Samples Reach Content Namespaces.

#[local] Open Scope lh_scope.

(** * Little-endian 32-bit words *)

Definition byte_of_N (n : N) : Byte.byte := default Byte.x00 (Byte.of_N (n `mod` 256)).

Fixpoint to_le_bytes (len : nat) (n : N) : list Byte.byte :=
  match len with
  | 0 => []
  | S len' => byte_of_N n :: to_le_bytes len' (n `div` 256)
  end.

Fixpoint from_le_bytes (bs : list Byte.byte) : N :=
  match bs with [] => 0%N | b :: bs' => (Byte.to_N b + 256 * from_le_bytes bs')%N end.

Lemma byte_of_N_to_N n : Byte.to_N (byte_of_N n) = (n `mod` 256)%N.
Proof.
  unfold byte_of_N. destruct (Byte.of_N (n `mod` 256)) as [b|] eqn:E; simpl.
  - by apply Byte.to_of_N_iff in E.
  - apply Byte.of_N_None_iff in E. pose proof (N.mod_upper_bound n 256). lia.
Qed.

Lemma from_to_le_bytes len n : from_le_bytes (to_le_bytes len n) = (n `mod` 256 ^ N.of_nat len)%N.
Proof.
  revert n. induction len as [|len IH]; intros n; cbn [to_le_bytes from_le_bytes].
  { by rewrite N.mod_1_r. }
  rewrite byte_of_N_to_N, IH, Nat2N.inj_succ, N.pow_succ_r'.
  rewrite (N.Div0.mod_mul_r n 256 (256 ^ N.of_nat len)). lia.
Qed.

Lemma length_to_le_bytes len n : length (to_le_bytes len n) = len.
Proof. revert n. induction len as [|len IH]; intros n; simpl; [done|]. by rewrite IH. Qed.

(** * Operations *)

Definition SNAPSHOT_VERSION : N := 1.
Definition SNAPSHOT_HEADER_LEN : nat := 4.

Inductive SnapshotFailure :=
  | TooShort
  | UnsupportedVersion (version : N)
  | DecodeFailed
  | EncodeFailed.

Section snapshot.
Context `{SJ : SerdeJson, OR : Openraft, EX : Externals}.

(** [serde_json]'s codec for the state. *)
Class StateCodec := {
  to_vec : StateMachineData → option (list Byte.byte);
  state_from_slice : list Byte.byte → option StateMachineData;
}.
Context `{SC : StateCodec}.

Record SnapshotMeta := MkSnapshotMeta {
  meta_last_log_id : option LogId;
  meta_last_membership : StoredMembership;
  meta_snapshot_id : string;
}.

Record StateMachine := MkStateMachine {
  st_data : StateMachineData;
  st_snapshot : option (SnapshotMeta * list Byte.byte);
}.

(** [normalize_restored_metadata], one entry; [now] is the clock. *)
Definition normalize_entry (now : N) (e : ManifestEntry) : ManifestEntry :=
  let e := match me_referenced_blobs e, from_slice (me_body e) with
           | [], Some value => set_me_referenced_blobs (extract_referenced_digests value) e
           | _, _ => e
           end in
  let e := set_me_referenced_blobs (sort_by_key digest_to_string (me_referenced_blobs e)) e in
  let e := set_me_referenced_blobs (dedup_by_key digest_to_string (me_referenced_blobs e)) e in
  let e := if bool_decide (me_manifest_size_bytes e = 0%N)
           then set_me_manifest_size_bytes (N.of_nat (length (me_body e))) e else e in
  let e := if bool_decide (me_stored_size_bytes e = 0%N)
           then match from_slice (me_body e) with
                | Some value => set_me_stored_size_bytes (stored_size_bytes value) e
                | None => e
                end
           else e in
  let e := if bool_decide (me_created_at e = 0%N) then set_me_created_at now e else e in
  if bool_decide (me_last_modified e = 0%N) then set_me_last_modified (me_created_at e) e else e.

Definition rebuild_blob_ref_counts (d : StateMachineData) : StateMachineData :=
  set_sm_blob_ref_counts
    (foldl (λ counts repo, foldl increment_blob_refs counts (btree_values repo)) ∅
       (btree_values (sm_manifests d))) d.

Definition normalize_restored_metadata (now : N) (d : StateMachineData) : StateMachineData :=
  rebuild_blob_ref_counts
    (set_sm_manifests (fmap (M := gmap string) (fmap (M := gmap string) (normalize_entry now))
       (sm_manifests d)) d).

Definition serialize_snapshot (d : StateMachineData) : option (list Byte.byte) :=
  payload ← to_vec d; Some (to_le_bytes 4 SNAPSHOT_VERSION ++ payload).

(** The header and payload checks shared by both readers. *)
Definition read_payload (bytes : list Byte.byte) : SnapshotFailure + StateMachineData :=
  if bool_decide (length bytes < SNAPSHOT_HEADER_LEN) then inl TooShort
  else
    let version := from_le_bytes (take 4 bytes) in
    let payload := drop 4 bytes in
    if bool_decide (version = SNAPSHOT_VERSION) then
      match state_from_slice payload with Some d => inr d | None => inl DecodeFailed end
    else inl (UnsupportedVersion version).

Definition deserialize_snapshot (now : N) (bytes : list Byte.byte)
    : SnapshotFailure + StateMachineData :=
  match read_payload bytes with
  | inl e => inl e
  | inr d => inr (normalize_restored_metadata now d)
  end.

Definition build_snapshot (d : StateMachineData)
    : SnapshotFailure + (SnapshotMeta * list Byte.byte) :=
  match to_vec d with
  | None => inl EncodeFailed
  | Some payload =>
      let bytes := to_le_bytes 4 SNAPSHOT_VERSION ++ payload in
      let last_applied_log := sm_last_applied_log d in
      let snapshot_id := match last_applied_log with
                         | Some id => leader_id_display id +:+ "-" +:+ Str.of_u64 (log_index id)
                         | None => "empty"
                         end in
      inr (MkSnapshotMeta last_applied_log (sm_last_membership d) snapshot_id, bytes)
  end.

Definition install_snapshot (now : N) (meta : SnapshotMeta) (bytes : list Byte.byte)
    (s : StateMachine) : StateMachine * (SnapshotFailure + ()) :=
  match read_payload bytes with
  | inl e => (s, inl e)
  | inr new_data =>
      let d := normalize_restored_metadata now new_data in
      let d := set_sm_last_applied_log (meta_last_log_id meta) d in
      let d := set_sm_last_membership (meta_last_membership meta) d in
      (MkStateMachine d (Some (meta, bytes)), inr ())
  end.

Definition get_current_snapshot (s : StateMachine) : option (SnapshotMeta * list Byte.byte) :=
  st_snapshot s.
Definition applied_state (s : StateMachine) : option LogId * StoredMembership :=
  (sm_last_applied_log (st_data s), sm_last_membership (st_data s)).

(** * Lemmas *)

Implicit Types (d : StateMachineData) (e : ManifestEntry).

Lemma normalize_entry_refs now e :
  me_referenced_blobs (normalize_entry now e) =
    normalize_refs (refs_or_body (me_referenced_blobs e) (me_body e)).
Proof.
  unfold normalize_entry, normalize_refs, refs_or_body. destruct e as [? ? b refs]; simpl.
  destruct refs as [|r refs], (from_slice b) as [v|] eqn:Eb; simpl;
    repeat case_bool_decide; simpl; rewrite ?Eb; done.
Qed.

Lemma normalize_entry_body now e :
  me_body (normalize_entry now e) = me_body e ∧ me_digest (normalize_entry now e) = me_digest e.
Proof.
  unfold normalize_entry. destruct e as [? ? b refs]; simpl.
  destruct refs as [|r refs], (from_slice b) as [v|] eqn:Eb; simpl;
    repeat case_bool_decide; simpl; rewrite ?Eb; done.
Qed.

Lemma increment_all_agree (es : list ManifestEntry) c f :
  counts_agree c f → Forall (λ e, NoDup (ref_keys e)) es →
  (∀ k, (f k + foldr (λ e n, ref_weight k e + n) 0 es < U64.modulus)%N) →
  counts_agree (foldl increment_blob_refs c es)
    (λ k, f k + foldr (λ e n, ref_weight k e + n) 0 es)%N.
Proof.
  revert c f. induction es as [|e es IH]; intros c f Hc Hnd Hb; simpl in *.
  { eapply counts_agree_ext; [|done]. intros k. simpl. lia. }
  apply Forall_cons in Hnd as [He Hes].
  eapply counts_agree_ext; [|apply (IH _ (λ k, f k + ref_weight k e)%N); [|done|]].
  - intros k. simpl. lia.
  - apply increment_blob_refs_agree; [done..|]. intros k. specialize (Hb k). lia.
  - intros k. specialize (Hb k). lia.
Qed.

Lemma rebuild_flat (repos : list (gmap string ManifestEntry)) c :
  foldl (λ counts repo, foldl increment_blob_refs counts (btree_values repo)) c repos =
  foldl increment_blob_refs c (repos ≫= btree_values).
Proof.
  revert c. induction repos as [|repo repos IH]; intros c; csimpl; [done|].
  by rewrite foldl_app, IH.
Qed.

Lemma foldr_sum_app {A} (g : A → N) l1 l2 :
  foldr (λ x n, g x + n)%N 0%N (l1 ++ l2) =
    (foldr (λ x n, g x + n) 0 l1 + foldr (λ x n, g x + n) 0 l2)%N.
Proof. induction l1 as [|x l1 IH]; simpl; [done|]. rewrite IH. lia. Qed.

Lemma flat_sum k (ms : gmap string (gmap string ManifestEntry)) :
  foldr (λ e n, ref_weight k e + n)%N 0%N (btree_values ms ≫= btree_values) = manifest_refs k ms.
Proof.
  transitivity (foldr (λ repo n, map_sum (ref_weight k) repo + n)%N 0%N (btree_values ms)).
  - induction (btree_values ms) as [|repo l IH]; csimpl; [done|].
    by rewrite foldr_sum_app, IH, foldr_values_sum.
  - unfold manifest_refs, map_sum at 2, btree_values. rewrite map_fold_foldr.
    rewrite (foldr_sum_perm _ _ ((map_to_list ms).*2)) by by rewrite btree_entries_perm.
    induction (map_to_list ms) as [|[n r] l IH]; csimpl; [done|]. by rewrite IH.
Qed.

(** Rebuilding from scratch gives the exact counts. *)
Lemma rebuild_inv d :
  refs_nodup (sm_manifests d) → U64.fits (manifest_total (sm_manifests d)) →
  ref_inv (rebuild_blob_ref_counts d).
Proof.
  intros Hnd Hfit. split; [done|]. simpl. rewrite rebuild_flat.
  eapply counts_agree_ext; [|apply (increment_all_agree _ ∅ (λ _, 0%N))].
  - intros k. simpl. apply flat_sum.
  - intros k. by rewrite lookup_empty.
  - apply Forall_forall. intros e (repo & He & Hr)%list_elem_of_bind.
    apply elem_of_btree_values in He as [key He], Hr as [name Hr]. by eapply Hnd.
  - intros k. rewrite flat_sum. pose proof (manifest_refs_le k (sm_manifests d)).
    unfold U64.fits in Hfit. lia.
Qed.

Lemma normalized_refs_nodup now d :
  refs_nodup (fmap (M := gmap string) (fmap (M := gmap string) (normalize_entry now)) (sm_manifests d)).
Proof.
  intros name repo key e. rewrite lookup_fmap. intros (r & _ & ->)%fmap_Some.
  rewrite lookup_fmap. intros (e0 & _ & ->)%fmap_Some.
  unfold ref_keys. rewrite normalize_entry_refs. apply normalize_refs_nodup.
Qed.

Lemma normalized_total now (ms : gmap string (gmap string ManifestEntry)) :
  manifest_total (fmap (M := gmap string) (fmap (M := gmap string) (normalize_entry now)) ms)
    = manifest_total ms.
Proof.
  unfold manifest_total. rewrite map_sum_fmap. apply map_sum_ext. intros name repo _.
  unfold compose. by rewrite map_size_fmap.
Qed.

(** ** Entries that need no repair *)

Definition refs_settled e : Prop :=
  normalize_refs (refs_or_body (me_referenced_blobs e) (me_body e)) = me_referenced_blobs e.
Definition entry_complete e : Prop :=
  me_manifest_size_bytes e ≠ 0%N ∧ me_stored_size_bytes e ≠ 0%N ∧
  me_created_at e ≠ 0%N ∧ me_last_modified e ≠ 0%N.

Lemma normalize_refs_settled refs body :
  let rs := normalize_refs (refs_or_body refs body) in normalize_refs (refs_or_body rs body) = rs.
Proof.
  cbn zeta. set (rs := normalize_refs (refs_or_body refs body)).
  destruct rs as [|r rs'] eqn:E.
  - unfold rs in E. apply sort_dedup_nil in E. unfold refs_or_body in *.
    destruct refs; [|done]. by rewrite E.
  - rewrite <-E. simpl. replace (refs_or_body rs body) with rs by (by rewrite E).
    apply sort_dedup_idemp.
Qed.

Lemma normalize_entry_id now e : refs_settled e → entry_complete e → normalize_entry now e = e.
Proof.
  intros Hrefs (H1 & H2 & H3 & H4).
  assert (∀ e', me_referenced_blobs e' = me_referenced_blobs e → e' = set_me_referenced_blobs (me_referenced_blobs e') e → e' = e) as Heq.
  { intros e' E ->. rewrite E. by destruct e. }
  apply Heq; [by rewrite normalize_entry_refs|].
  unfold normalize_entry. destruct e as [dg ct b refs sub aty an ss ms ca lm cs]. simpl in *.
  destruct refs as [|r refs], (from_slice b) as [v|] eqn:Eb; simpl;
    rewrite (bool_decide_eq_false_2 (ms = 0%N)) by done; simpl;
    rewrite (bool_decide_eq_false_2 (ss = 0%N)) by done; simpl;
    rewrite (bool_decide_eq_false_2 (ca = 0%N)) by done; simpl;
    rewrite (bool_decide_eq_false_2 (lm = 0%N)) by done; done.
Qed.

Definition settled d : Prop := ∀ name key e, manifest_at d name key = Some e → refs_settled e.

Lemma spec_manifest_settled req (c : Content) :
  (∀ n k e, c_manifest c n k = Some e → refs_settled e) →
  ∀ n k e, c_manifest (spec_manifest req c) n k = Some e → refs_settled e.
Proof.
  intros Hc n k e. destruct req; simpl; try apply Hc; (case_decide; [|apply Hc]); [|done..].
  intros [= <-]. unfold refs_settled. simpl. apply normalize_refs_settled.
Qed.

Lemma reachable_settled d : reachable d → settled d.
Proof.
  revert d. apply (reachable_invariant settled); [|done|done|].
  - intros name key e. unfold manifest_at. simpl. by rewrite lookup_empty.
  - intros now d req Hd _ name key e.
    destruct (apply_request_content now d req) as [[Hm _]|(r & -> & Hm & _)]; simpl in Hm; rewrite Hm.
    + apply Hd.
    + by apply (spec_manifest_settled r (content_of d)).
Qed.

Lemma counts_agree_unique c c' f : counts_agree c f → counts_agree c' f → c = c'.
Proof. intros H H'. apply map_eq. intros k. by rewrite H, H'. Qed.

(** Repairing a reachable state whose entries are complete is the identity. *)
Lemma normalize_id now d :
  reachable d → U64.fits (manifest_total (sm_manifests d)) →
  (∀ name key e, manifest_at d name key = Some e → entry_complete e) →
  normalize_restored_metadata now d = d.
Proof.
  intros Hd Hfit Hc. unfold normalize_restored_metadata.
  assert (fmap (M := gmap string) (fmap (M := gmap string) (normalize_entry now)) (sm_manifests d)
    = sm_manifests d) as ->.
  { apply map_eq. intros name. rewrite lookup_fmap.
    destruct (sm_manifests d !! name) as [repo|] eqn:E; simpl; [|done]. f_equal.
    apply map_eq. intros key. rewrite lookup_fmap.
    destruct (repo !! key) as [e|] eqn:Ee; simpl; [|done]. f_equal.
    assert (manifest_at d name key = Some e) as Hat by (unfold manifest_at; by rewrite E).
    apply normalize_entry_id; [by eapply reachable_settled|by eapply Hc]. }
  destruct (reachable_ref_inv d Hd) as [Hnd Hagree].
  replace (set_sm_manifests (sm_manifests d) d) with d by by destruct d.
  pose proof (proj2 (rebuild_inv d Hnd Hfit)) as Hre. simpl in Hre.
  pose proof (counts_agree_unique _ _ _ Hre Hagree) as E.
  unfold rebuild_blob_ref_counts. rewrite E. by destruct d.
Qed.

Lemma header_version payload :
  from_le_bytes (take 4 (to_le_bytes 4 SNAPSHOT_VERSION ++ payload)) = SNAPSHOT_VERSION ∧
  drop 4 (to_le_bytes 4 SNAPSHOT_VERSION ++ payload) = payload.
Proof. done. Qed.

(** * Properties *)

(** C4: a snapshot restores the state it was taken of: for a reachable state
    whose entries carry their sizes and times, building a snapshot and installing
    it on any node gives back exactly that state, reference counts included, at
    any later clock; the node then serves that snapshot. *)
Theorem snapshot_roundtrip d (payload : list Byte.byte)
    (Hd : reachable d) (Hfit : U64.fits (manifest_total (sm_manifests d)))
    (Hcomplete : ∀ name key e, manifest_at d name key = Some e → entry_complete e)
    (Hencode : to_vec d = Some payload) (Hdecode : state_from_slice payload = Some d) :
  ∃ meta bytes, build_snapshot d = inr (meta, bytes) ∧
    ∀ now s, install_snapshot now meta bytes s = (MkStateMachine d (Some (meta, bytes)), inr ()) ∧
      deserialize_snapshot now bytes = inr d.
Proof.
  unfold build_snapshot. rewrite Hencode. do 2 eexists. split; [done|]. intros now s.
  unfold install_snapshot, deserialize_snapshot, read_payload.
  rewrite bool_decide_false by (rewrite length_app, length_to_le_bytes; unfold SNAPSHOT_HEADER_LEN; lia).
  destruct (header_version payload) as [-> ->]. rewrite bool_decide_true by done.
  rewrite Hdecode, normalize_id by done. split; [|done]. simpl. by destruct d.
Qed.

(** Whatever payload a snapshot had, a node that restored it counts blob
    references exactly, so garbage collection after a restore deletes no blob
    that a restored manifest references. *)
Theorem restored_counts_exact now meta bytes s s'
    (Hinstall : install_snapshot now meta bytes s = (s', inr ()))
    (Hfit : U64.fits (manifest_total (sm_manifests (st_data s')))) (digest : string) :
  blob_ref_count_str (st_data s') digest = manifest_refs digest (sm_manifests (st_data s')).
Proof.
  unfold install_snapshot in Hinstall. destruct (read_payload bytes) as [|d]; [done|].
  injection Hinstall as <-. simpl in *.
  assert (ref_inv (normalize_restored_metadata now d)) as [_ Hagree]
    by (apply rebuild_inv; [apply normalized_refs_nodup|done]).
  unfold blob_ref_count_str. simpl. by rewrite (counts_agree_default _ _ _ Hagree).
Qed.

(** A snapshot that cannot be read is refused and leaves the node as it was:
    a short header, another format version, and an undecodable payload are told
    apart; and the cold-start reader accepts exactly what the Raft installer
    accepts. *)
Theorem bad_snapshots_refused now meta bytes s :
  (length bytes < 4 → install_snapshot now meta bytes s = (s, inl TooShort)) ∧
  (4 ≤ length bytes → from_le_bytes (take 4 bytes) ≠ SNAPSHOT_VERSION →
     install_snapshot now meta bytes s = (s, inl (UnsupportedVersion (from_le_bytes (take 4 bytes))))) ∧
  (4 ≤ length bytes → from_le_bytes (take 4 bytes) = SNAPSHOT_VERSION →
     state_from_slice (drop 4 bytes) = None → install_snapshot now meta bytes s = (s, inl DecodeFailed)) ∧
  match deserialize_snapshot now bytes, install_snapshot now meta bytes s with
  | inr d, (s', inr ()) =>
      st_data s' = set_sm_last_membership (meta_last_membership meta)
                     (set_sm_last_applied_log (meta_last_log_id meta) d)
  | inl e, (s', inl e') => e = e' ∧ s' = s
  | _, _ => False
  end.
Proof.
  unfold install_snapshot, deserialize_snapshot, read_payload, SNAPSHOT_HEADER_LEN. split; [|split; [|split]].
  - intros H. by rewrite bool_decide_true.
  - intros H1 H2. by rewrite bool_decide_false, bool_decide_false by lia || done.
  - intros H1 H2 H3. rewrite bool_decide_false, bool_decide_true by lia || done. by rewrite H3.
  - repeat (case_match; simplify_eq/=); done.
Qed.
End snapshot.

(** * Witnesses *)

(** A codec that knows one state. *)
Definition sample_codec : StateCodec := {|
  to_vec _ := Some [Byte.x2a];
  state_from_slice bs := match bs with [Byte.x2a] => Some sample_state | _ => None end;
|}.

Lemma sample_complete name key e :
  manifest_at sample_state name key = Some e → entry_complete e.
Proof.
  unfold manifest_at. intros (repo & Hr & He)%bind_Some.
  assert (map_Forall (λ _ r, map_Forall (λ _ e, entry_complete e) r) (sm_manifests sample_state)) as H.
  { apply (bool_decide_unpack _). vm_compute. exact I. }
  exact (H name repo Hr key e He).
Qed.

Lemma snapshot_roundtrip_witness :
  ∃ meta bytes, build_snapshot (SC := sample_codec) sample_state = inr (meta, bytes) ∧
    deserialize_snapshot (SC := sample_codec) 5000 bytes = inr sample_state.
Proof.
  destruct (snapshot_roundtrip (SC := sample_codec) sample_state [Byte.x2a] sample_reachable
    ltac:(vm_compute; reflexivity) sample_complete eq_refl eq_refl) as (meta & bytes & Hb & Hi).
  exists meta, bytes. split; [exact Hb|].
  exact (proj2 (Hi 5000%N (MkStateMachine StateMachineData_default None))).
Defined.

Definition sample_bytes : list Byte.byte := to_le_bytes 4 SNAPSHOT_VERSION ++ [Byte.x2a].
Definition restored : StateMachine * (SnapshotFailure + ()) :=
  install_snapshot (SC := sample_codec) 5000 (MkSnapshotMeta None default_membership "empty") sample_bytes
    (MkStateMachine StateMachineData_default None).

Lemma restored_counts_exact_witness :
  blob_ref_count_str (st_data restored.1) blob_a =
    manifest_refs blob_a (sm_manifests (st_data restored.1)) ∧
  blob_ref_count_str (st_data restored.1) blob_a = 2%N.
Proof.
  assert (restored.2 = inr ()) as Hr by (vm_compute; reflexivity).
  assert (restored = (restored.1, inr ())) as Hi by (rewrite <-Hr; apply surjective_pairing).
  split; [|vm_compute; reflexivity].
  apply (restored_counts_exact (SC := sample_codec) 5000 (MkSnapshotMeta None default_membership "empty")
    sample_bytes (MkStateMachine StateMachineData_default None) restored.1 Hi).
  vm_compute. reflexivity.
Defined.
