(* ===== verification/Gc.v ===== *)
(** Garbage collection of blobs (crates/layerhouse-server/src/gc.rs): the sweep
    over the object store, which deletes the objects whose reference count is
    zero and whose age is past the grace period.

    Object storage is outside the repository: its list and delete calls are the
    operations of [ObjectStore], and what a theorem needs of them is a named
    hypothesis. The state machine moves on while a sweep runs: the sweep reads
    the counts twice, in two states [d1] and [d2]. Times are nanoseconds. *)

From Stdlib Require Import Ascii.
From stdpp Require Import options.
From S2P Require Import Prelude Errors Digests Manifests Permissions Principals Handles.
From S2P Require Import SyncRuns Types StateMachine RefCounts Samples Reach Content Namespaces.

#[local] Open Scope lh_scope.

(** * Data *)

Record GcBlobObject := MkGcBlobObject {
  ob_key : string;
  ob_digest : string;
  ob_last_modified : option N;
}.
#[global] Instance GcBlobObject_eq_dec : EqDecision GcBlobObject.
Proof. solve_decision. Defined.

Record GcDeleteOutcome := MkGcDeleteOutcome {
  out_deleted : nat;
  out_errors : nat;
}.

Record GcConfig := MkGcConfig {
  gc_interval_secs : N;
  gc_grace_period_secs : N;
  gc_dry_run : bool;
}.

Record GcStatus := MkGcStatus {
  gs_last_run_at : N;
  gs_duration_ms : N;
  gs_scanned : nat;
  gs_candidates : nat;
  gs_deleted : nat;
  gs_skipped_referenced : nat;
  gs_skipped_young : nat;
  gs_delete_errors : nat;
  gs_dry_run : bool;
  gs_leadership_lost : bool;
  gs_last_error : option message;
}.

(** * The object store *)

(** One page of a listing: keys with their modification times in seconds. *)
Record ListPage := MkListPage {
  lp_contents : list (option string * option Z);
  lp_is_truncated : option bool;
  lp_next_continuation_token : option string;
}.

Class ObjectStore := {
  Store : Type;
  list_objects_v2 : Store → option string → result ListPage;
  (** The number of objects the batch deletion reported as failed. *)
  delete_objects : Store → list string → Store * result nat;
}.

Section sweep.
Context `{SJ : SerdeJson, OR : Openraft, EX : Externals, OS : ObjectStore}.

(** The body of the page loop: objects without a key, or with a key that is not
    a blob's, are skipped; a time before the epoch is dropped. *)
Definition page_objects (page : ListPage) : list GcBlobObject :=
  omap (λ '(key, modified),
          key ← key; digest ← s3_key_to_digest key;
          Some (MkGcBlobObject key digest
                  (secs ← modified;
                   if bool_decide (0 ≤ secs)%Z then Some (Z.to_N secs * 1000000000)%N else None)))
       (lp_contents page).

(** The page loop, with one unit of fuel per page; [None] when it ran out. *)
Fixpoint list_pages (fuel : nat) (s : Store) (token : option string) (objects : list GcBlobObject)
    : option (result (list GcBlobObject)) :=
  match fuel with
  | 0 => None
  | S fuel' =>
      match list_objects_v2 s token with
      | Err e => Some (Err e)
      | Panic => Some Panic
      | Ok page =>
          let objects := objects ++ page_objects page in
          if bool_decide (lp_is_truncated page = Some true)
          then list_pages fuel' s (lp_next_continuation_token page) objects
          else Some (Ok objects)
      end
  end.

Definition list_blob_objects (fuel : nat) (s : Store) : option (result (list GcBlobObject)) :=
  list_pages fuel s None [].

Definition delete_blob_batch (s : Store) (keys : list string) : Store * result GcDeleteOutcome :=
  match delete_objects s keys with
  | (s, Ok errors) => (s, Ok (MkGcDeleteOutcome (length keys - errors) errors))
  | (s, Err e) => (s, Err e)
  | (s, Panic) => (s, Panic)
  end.

(** * The sweep *)

(** [now.duration_since(modified).ok().map(|age| age >= grace).unwrap_or(false)]. *)
Definition old_enough (now grace_period : N) (modified : option N) : bool :=
  match modified with
  | Some modified => bool_decide (modified ≤ now)%N && bool_decide (grace_period ≤ now - modified)%N
  | None => false
  end.

(** The classification loop: counters of referenced and young objects, and the
    objects to delete in order. *)
Definition classify (now grace_period : N) (counts : gmap string N) (objects : list GcBlobObject)
    : nat * nat * list GcBlobObject :=
  foldl (λ '(referenced, young, to_delete) object,
           if bool_decide (0 < default 0 (counts !! ob_digest object))%N
           then (S referenced, young, to_delete)
           else if negb (old_enough now grace_period (ob_last_modified object))
           then (referenced, S young, to_delete)
           else (referenced, young, to_delete ++ [object]))
    (0, 0, []) objects.

(** [chunks(1000)]. *)
Fixpoint chunks_fuel {A} (fuel n : nat) (l : list A) : list (list A) :=
  match fuel, l with
  | S fuel', _ :: _ => take n l :: chunks_fuel fuel' n (drop n l)
  | _, _ => []
  end.
Definition chunks {A} (n : nat) (l : list A) : list (list A) := chunks_fuel (length l) n l.

(** The deletion loop over the chunks; [leader i] is what the [i]-th call of
    [still_leader] returns. *)
Fixpoint delete_chunks (s : Store) (leader : nat → bool) (cs : list (list GcBlobObject))
    (deleted errors : nat) : Store * result (nat * nat * bool) :=
  match cs with
  | [] => (s, Ok (deleted, errors, false))
  | chunk :: cs' =>
      if negb (leader 0) then (s, Ok (deleted, errors, true))
      else
        match delete_blob_batch s (ob_key <$> chunk) with
        | (s, Ok outcome) =>
            delete_chunks s (λ i, leader (S i)) cs' (deleted + out_deleted outcome)
              (errors + out_errors outcome)
        | (s, Err e) => (s, Err e)
        | (s, Panic) => (s, Panic)
        end
  end.

(** [run_gc_sweep]: [epoch] and [now] are the clock at the start, [duration] the
    elapsed time at the end, [d1] and [d2] the states of the two reads. *)
Definition run_gc_sweep (fuel : nat) (epoch now duration : N) (d1 d2 : StateMachineData)
    (config : GcConfig) (leader : nat → bool) (s : Store) : Store * option (result GcStatus) :=
  let grace_period := (gc_grace_period_secs config * 1000000000)%N in
  match list_blob_objects fuel s with
  | None => (s, None)
  | Some (Err e) => (s, Some (Err e))
  | Some Panic => (s, Some Panic)
  | Some (Ok objects) =>
      let '(referenced, young, to_delete) :=
        classify now grace_period (sm_blob_ref_counts d1) objects in
      let before_final_check := length to_delete in
      let to_delete := filter (λ object,
        default 0%N (sm_blob_ref_counts d2 !! ob_digest object) = 0%N) to_delete in
      let referenced := referenced + (before_final_check - length to_delete) in
      let stats deleted errors lost :=
        MkGcStatus epoch duration (length objects) (length to_delete) deleted referenced young errors
          (gc_dry_run config) lost None in
      if gc_dry_run config then (s, Some (Ok (stats 0 0 false)))
      else
        match delete_chunks s leader (chunks 1000 to_delete) 0 0 with
        | (s, Ok (deleted, errors, lost)) => (s, Some (Ok (stats deleted errors lost)))
        | (s, Err e) => (s, Some (Err e))
        | (s, Panic) => (s, Some Panic)
        end
  end.

(** * Specification *)

(** The pages the store returns when asked with [token] and then with the token of
    each page: a listing that ends. *)
Inductive listing (s : Store) : option string → list ListPage → Prop :=
  | listing_last token page :
      list_objects_v2 s token = Ok page → lp_is_truncated page ≠ Some true → listing s token [page]
  | listing_more token page pages :
      list_objects_v2 s token = Ok page → lp_is_truncated page = Some true →
      listing s (lp_next_continuation_token page) pages → listing s token (page :: pages).

(** No stored manifest references the blob. *)
Definition unreferenced (d : StateMachineData) (digest : string) : Prop :=
  ∀ name key e, manifest_at d name key = Some e → digest ∉ ref_keys e.

(** * Lemmas *)

Lemma chunks_fuel_concat {A} fuel n (l : list A) :
  0 < n → length l ≤ fuel → concat (chunks_fuel fuel n l) = l.
Proof.
  intros Hn. revert l. induction fuel as [|fuel IH]; intros l Hl; [by destruct l; simpl in *; [|lia]|].
  destruct l as [|x l]; [done|]. cbn [chunks_fuel concat].
  rewrite IH; [apply take_drop|]. rewrite length_drop. simpl in *. lia.
Qed.

(** The chunks, in order, are the list; none is longer than [n]. *)
Lemma chunks_concat {A} n (l : list A) : 0 < n → concat (chunks n l) = l.
Proof. intros Hn. by apply chunks_fuel_concat. Qed.

Lemma chunks_length {A} n (l : list A) : Forall (λ c, length c ≤ n) (chunks n l).
Proof.
  unfold chunks. generalize (length l) as fuel. intros fuel. revert l.
  induction fuel as [|fuel IH]; intros l; [constructor|]. destruct l; [constructor|].
  constructor; [rewrite length_take; lia|apply IH].
Qed.

Lemma classify_spec now grace counts objects :
  let '(referenced, young, to_delete) := classify now grace counts objects in
  referenced + young + length to_delete = length objects ∧
  to_delete = filter (λ o, default 0%N (counts !! ob_digest o) = 0%N ∧
                           old_enough now grace (ob_last_modified o) = true) objects.
Proof.
  induction objects as [|o objects IH] using rev_ind; [done|].
  unfold classify in *. rewrite foldl_snoc.
  destruct (foldl _ (0, 0, []) objects) as [[r y] td]. destruct IH as [IH1 IH2].
  rewrite filter_app, length_app. simpl. rewrite filter_cons, filter_nil.
  case_bool_decide as Hc; [|destruct (old_enough now grace (ob_last_modified o)) eqn:Ho]; simpl.
  - rewrite decide_False by (intros [? _]; lia). rewrite app_nil_r. split; [lia|done].
  - rewrite decide_True by (split; [lia|done]). rewrite length_app. simpl.
    split; [lia|]. by rewrite IH2.
  - rewrite decide_False by (intros [_ ?]; done). rewrite app_nil_r. split; [lia|done].
Qed.

Lemma page_objects_digest page o :
  o ∈ page_objects page → s3_key_to_digest (ob_key o) = Some (ob_digest o).
Proof.
  unfold page_objects. intros ([key modified] & _ & Ho)%list_elem_of_omap.
  destruct key as [key|]; [|done]. simpl in Ho.
  destruct (s3_key_to_digest key) as [dg|] eqn:E; [|done]. simpl in Ho. by injection Ho as <-.
Qed.

Lemma list_pages_digest fuel s token acc objects o :
  list_pages fuel s token acc = Some (Ok objects) → o ∈ objects →
  o ∈ acc ∨ s3_key_to_digest (ob_key o) = Some (ob_digest o).
Proof.
  revert token acc. induction fuel as [|fuel IH]; intros token acc; simpl; [done|].
  destruct (list_objects_v2 s token) as [page|e|]; [|done..].
  case_bool_decide.
  - intros Hl Ho. destruct (IH _ _ Hl Ho) as [[Ha|Hp]%elem_of_app|Hd]; [by left| |by right].
    right. by eapply page_objects_digest.
  - intros [= <-] [Ha|Hp]%elem_of_app; [by left|]. right. by eapply page_objects_digest.
Qed.

(** One round of [run_gc_loop] after its sleep: only the leader sweeps; the
    status is replaced by a finished sweep's, and keeps the last error. *)
Definition set_gs_last_error (v : option message) (g : GcStatus) : GcStatus :=
  MkGcStatus (gs_last_run_at g) (gs_duration_ms g) (gs_scanned g) (gs_candidates g) (gs_deleted g)
    (gs_skipped_referenced g) (gs_skipped_young g) (gs_delete_errors g) (gs_dry_run g)
    (gs_leadership_lost g) v.
Definition gc_round (fuel : nat) (epoch now duration : N) (d1 d2 : StateMachineData)
    (config : GcConfig) (leader : nat → bool) (s : Store) (status : GcStatus) : Store * GcStatus :=
  if negb (leader 0) then (s, status)
  else match run_gc_sweep fuel epoch now duration d1 d2 config (λ i, leader (S i)) s with
       | (s, Some (Ok stats)) => (s, stats)
       | (s, Some (Err e)) => (s, set_gs_last_error (Some (error_to_string e)) status)
       | (s, _) => (s, status)
       end.

(** ** Digests stored in reachable states are well-formed *)

Definition refs_wf (d : StateMachineData) : Prop :=
  ∀ name key e, manifest_at d name key = Some e → Forall digest_wf (me_referenced_blobs e).

Lemma normalized_wf refs body :
  Forall digest_wf refs → Forall digest_wf (normalize_refs (refs_or_body refs body)).
Proof.
  intros Hrefs. assert (Forall digest_wf (refs_or_body refs body)) as H.
  { unfold refs_or_body. destruct refs; [|done]. destruct (from_slice body); [|constructor].
    apply extract_referenced_digests_wf. }
  rewrite Forall_forall in *. intros x Hx%sort_dedup_subset. by apply H.
Qed.

Lemma reachable_refs_wf d : reachable d → refs_wf d.
Proof.
  revert d. apply (reachable_invariant refs_wf); [|done|done|].
  - intros name key e. unfold manifest_at. simpl. by rewrite lookup_empty.
  - intros now d req Hd _ name key e.
    destruct (apply_request_content now d req) as [[Hm _]|(r & -> & Hm & _)]; simpl in Hm; rewrite Hm;
      [apply Hd|].
    destruct r; simpl; try apply Hd; (case_decide; [|apply Hd]); [|done..].
    intros [= <-]. apply normalized_wf, Forall_forall.
    intros x (str & _ & Hx%from_str_checked_Some)%list_elem_of_omap. by destruct Hx.
Qed.

(** ** What the deletion loop touches *)

Lemma delete_chunks_keeps (has_object : Store → string → Prop) s leader cs deleted errors k :
  (∀ s ks k, k ∉ ks → has_object s k → has_object (delete_objects s ks).1 k) →
  (∀ c o, c ∈ cs → o ∈ c → ob_key o ≠ k) →
  has_object s k → has_object (delete_chunks s leader cs deleted errors).1 k.
Proof.
  intros Hdel. revert s leader deleted errors.
  induction cs as [|c cs IH]; intros s leader deleted errors Hk Hhas; simpl; [done|].
  destruct (leader 0); simpl; [|done]. unfold delete_blob_batch.
  assert (has_object (delete_objects s (ob_key <$> c)).1 k) as Hhas'.
  { apply Hdel; [|done]. intros (o & -> & Ho)%list_elem_of_fmap. refine (Hk c o _ Ho eq_refl). by left. }
  destruct (delete_objects s (ob_key <$> c)) as [s' [n|e|]]; simpl in *; [|done..].
  apply IH; [|done]. intros c' o Hc. apply Hk. by right.
Qed.

Lemma elem_of_chunks {A} n (l c : list A) x : 0 < n → c ∈ chunks n l → x ∈ c → x ∈ l.
Proof.
  intros Hn Hc Hx. rewrite <-(chunks_concat n l) by done. apply list_elem_of_In, in_concat.
  exists c. by rewrite <-!list_elem_of_In.
Qed.

Lemma list_pages_complete s token pages fuel acc :
  listing s token pages → length pages ≤ fuel →
  list_pages fuel s token acc = Some (Ok (acc ++ concat (page_objects <$> pages))).
Proof.
  intros Hl. revert fuel acc.
  induction Hl as [token page Hp Ht|token page pages Hp Ht _ IH]; intros [|fuel] acc Hf; simpl in *; try lia;
    rewrite Hp.
  - rewrite bool_decide_eq_false_2 by done. by rewrite app_nil_r.
  - rewrite bool_decide_eq_true_2 by done. rewrite IH by lia. by rewrite app_assoc.
Qed.

Lemma unreferenced_count d digest :
  reachable d → unreferenced d digest ↔ default 0%N (sm_blob_ref_counts d !! digest) = 0%N.
Proof.
  intros Hd. destruct (reachable_ref_inv d Hd) as [_ Hagree].
  rewrite (counts_agree_default _ _ _ Hagree).
  assert ((0 < manifest_refs digest (sm_manifests d))%N ↔
          ∃ name key e, manifest_at d name key = Some e ∧ digest ∈ ref_keys e) as Hpos.
  { unfold manifest_refs. rewrite map_sum_pos. setoid_rewrite map_sum_pos.
    unfold manifest_at, ref_weight, key_weight. setoid_rewrite bind_Some. split.
    - intros (name & repo & Hrepo & key & e & He & Hw). exists name, key, e.
      split; [by exists repo|]. by destruct (decide (digest ∈ ref_keys e)); [|lia].
    - intros (name & key & e & (repo & Hrepo & He) & Hin). exists name, repo. split; [done|].
      exists key, e. split; [done|]. rewrite decide_True by done. lia. }
  unfold unreferenced. split; [|naive_solver lia].
  intros Hu. destruct (decide (manifest_refs digest (sm_manifests d) = 0)%N) as [|Hn]; [done|].
  destruct Hpos as [(name & key & e & He & Hin) _]; [lia|]. by destruct (Hu name key e).
Qed.

(** With a store that deletes what it is told to and no change of leader, the
    deletion loop removes every object of every chunk. *)
Lemma delete_chunks_all (has_object : Store → string → Prop) cs :
  (∀ s ks, ∃ s', delete_objects s ks = (s', Ok 0) ∧ ∀ k, has_object s' k → has_object s k ∧ k ∉ ks) →
  ∀ s leader deleted errors, (∀ i, leader i = true) →
  ∃ s', delete_chunks s leader cs deleted errors =
      (s', Ok (deleted + length (concat cs), errors, false)) ∧
    ∀ k, has_object s' k → has_object s k ∧ k ∉ ob_key <$> concat cs.
Proof.
  intros Hdel. induction cs as [|c cs IH]; intros s leader deleted errors Hl; simpl.
  - exists s. rewrite Nat.add_0_r. set_solver.
  - rewrite Hl. simpl. unfold delete_blob_batch.
    destruct (Hdel s (ob_key <$> c)) as (s1 & -> & H1). cbn [out_deleted out_errors].
    destruct (IH s1 (λ i, leader (S i)) (deleted + (length (ob_key <$> c) - 0)) (errors + 0))
      as (s2 & -> & H2); [by intros i|].
    exists s2. rewrite length_fmap, length_app, Nat.sub_0_r, Nat.add_0_r, Nat.add_assoc. split; [done|].
    intros k [Hk Hn]%H2. apply H1 in Hk as [Hk Hc]. split; [done|]. rewrite fmap_app. set_solver.
Qed.

(** * Properties *)

(** What a sweep may delete: an object that the listing names, under a blob's key,
    modified no later than the grace period before the sweep began, whose digest no
    manifest references at either read of the counts. *)
Definition collectable fuel (s : Store) (now : N) config (d1 d2 : StateMachineData) (k : string) : Prop :=
  ∃ objects digest modified, list_blob_objects fuel s = Some (Ok objects) ∧
    MkGcBlobObject k digest (Some modified) ∈ objects ∧ s3_key_to_digest k = Some digest ∧
    (modified + gc_grace_period_secs config * 1000000000 ≤ now)%N ∧
    unreferenced d1 digest ∧ unreferenced d2 digest ∧ gc_dry_run config = false.

(** Every object that is not deleted stays. *)
Lemma sweep_keeps (has_object : Store → string → Prop) (d1 d2 : StateMachineData)
    fuel epoch now duration config leader (s : Store) k :
  (∀ s ks k, k ∉ ks → has_object s k → has_object (delete_objects s ks).1 k) →
  reachable d1 → reachable d2 → has_object s k →
  has_object (run_gc_sweep fuel epoch now duration d1 d2 config leader s).1 k ∨
  collectable fuel s now config d1 d2 k.
Proof.
  intros Hdel Hd1 Hd2 Hhas. unfold run_gc_sweep.
  destruct (list_blob_objects fuel s) as [[objects|err|]|] eqn:El; [|by left..].
  pose proof (classify_spec now (gc_grace_period_secs config * 1000000000)
    (sm_blob_ref_counts d1) objects) as Hcl.
  destruct (classify _ _ _ _) as [[referenced young] td]. destruct Hcl as [_ ->].
  destruct (gc_dry_run config) eqn:Edry; [by left|].
  match goal with |- context [chunks 1000 ?l] => set (td := l) end.
  destruct (decide (k ∈ ob_key <$> td)) as [(o & -> & Ho)%list_elem_of_fmap|Hk]; [right|left].
  - apply list_elem_of_filter in Ho as [H2 [[H1 Hold] Hobj]%list_elem_of_filter].
    destruct (list_pages_digest fuel s None [] objects o El Hobj) as [Hn|Hdig]; [by apply not_elem_of_nil in Hn|].
    destruct o as [key digest [modified|]]; simpl in *; [|done].
    apply andb_true_iff in Hold as [Hm%bool_decide_eq_true Hg%bool_decide_eq_true].
    exists objects, digest, modified. split_and!; try done; [lia|by apply unreferenced_count..].
  - assert (has_object (delete_chunks s leader (chunks 1000 td) 0 0).1 k) as Hgoal.
    { apply (delete_chunks_keeps has_object); [done| |done]. intros c o Hc Ho <-.
      apply Hk, list_elem_of_fmap. exists o. split; [done|]. by eapply (elem_of_chunks 1000); [lia|..]. }
    destruct (delete_chunks s leader (chunks 1000 td) 0 0) as [s' [[[? ?] ?]|err|]]; exact Hgoal.
Qed.

(** C23: a sweep deletes nothing but garbage. However it ends (a failed listing or
    deletion, a dry run or lost leadership included), every object of the store is
    still there unless it was listed, is older than the grace period, and belongs to
    no manifest stored at the first or at the second read of the counts; so every blob
    of every manifest stored at the second read is still there if it was. The store's
    batch deletion is assumed to remove nothing but the keys it is given. *)
Theorem gc_keeps_referenced (has_object : Store → string → Prop)
    (delete_only : ∀ s ks k, k ∉ ks → has_object s k → has_object (delete_objects s ks).1 k)
    (d1 d2 : StateMachineData) (Hd1 : reachable d1) (Hd2 : reachable d2)
    fuel epoch now duration config leader (s : Store) :
  let s' := (run_gc_sweep fuel epoch now duration d1 d2 config leader s).1 in
  (∀ k, has_object s k → has_object s' k ∨ collectable fuel s now config d1 d2 k) ∧
  (∀ name key e r k, manifest_at d2 name key = Some e → r ∈ me_referenced_blobs e → s3_key r = Ok k →
     has_object s k → has_object s' k).
Proof.
  assert (∀ k, has_object s k →
    has_object (run_gc_sweep fuel epoch now duration d1 d2 config leader s).1 k ∨
    collectable fuel s now config d1 d2 k) as Hkeep by (intros k; by apply sweep_keeps).
  split; [done|]. intros name key e r k Hm Hr Hk Hhas.
  destruct (Hkeep k Hhas) as [|(objects & digest & modified & _ & _ & Hdig & _ & _ & Hu & _)]; [done|].
  pose proof (reachable_refs_wf d2 Hd2 name key e Hm) as Hwf. rewrite Forall_forall in Hwf.
  destruct (s3_key_roundtrip r (Hwf r Hr)) as (k' & Hk' & Hdig').
  destruct (Hu name key e Hm). apply list_elem_of_fmap. exists r. by split; [congruence|].
Qed.

(** C24: a sweep that is not a dry run, of a node that stays the leader, over a store
    whose listing ends and whose batch deletions all succeed without a failed key,
    removes the garbage: it ends with a report and without errors, and every listed
    object that no manifest references at either read and that is older than the grace
    period is gone. *)
Theorem gc_collects_garbage (has_object : Store → string → Prop)
    (delete_all : ∀ s ks, ∃ s', delete_objects s ks = (s', Ok 0) ∧
       ∀ k, has_object s' k → has_object s k ∧ k ∉ ks)
    (s : Store) pages (Hlist : listing s None pages) fuel (Hfuel : length pages ≤ fuel)
    (d1 d2 : StateMachineData) (Hd1 : reachable d1) (Hd2 : reachable d2)
    epoch now duration config (Hdry : gc_dry_run config = false)
    leader (Hleader : ∀ i, leader i = true) :
  ∃ s' stats, run_gc_sweep fuel epoch now duration d1 d2 config leader s = (s', Some (Ok stats)) ∧
    gs_deleted stats = gs_candidates stats ∧ gs_delete_errors stats = 0 ∧
    gs_leadership_lost stats = false ∧
    ∀ o, o ∈ concat (page_objects <$> pages) → unreferenced d1 (ob_digest o) →
      unreferenced d2 (ob_digest o) →
      old_enough now (gc_grace_period_secs config * 1000000000) (ob_last_modified o) = true →
      ¬ has_object s' (ob_key o).
Proof.
  unfold run_gc_sweep, list_blob_objects. rewrite (list_pages_complete _ _ _ _ _ Hlist Hfuel), app_nil_l.
  pose proof (classify_spec now (gc_grace_period_secs config * 1000000000) (sm_blob_ref_counts d1)
    (concat (page_objects <$> pages))) as Hcl.
  destruct (classify _ _ _ _) as [[referenced young] td]. destruct Hcl as [_ ->]. rewrite Hdry.
  match goal with |- context [chunks 1000 ?l] => set (td := l) end.
  destruct (delete_chunks_all has_object (chunks 1000 td) delete_all s leader 0 0 Hleader)
    as (s' & -> & Hs'). rewrite chunks_concat in Hs' |- * by lia.
  eexists s', _. split; [reflexivity|]. split; [done|]. split; [done|]. split; [done|].
  intros o Ho H1 H2 Hold [_ Hn]%Hs'. apply Hn, list_elem_of_fmap. exists o. split; [done|].
  apply list_elem_of_filter. split; [by apply unreferenced_count|].
  apply list_elem_of_filter. split; [|done]. split; [by apply unreferenced_count|done].
Qed.

Lemma delete_chunks_counts s leader cs deleted errors s' dl er lost :
  (∀ s ks s' n, delete_objects s ks = (s', Ok n) → n ≤ length ks) →
  delete_chunks s leader cs deleted errors = (s', Ok (dl, er, lost)) →
  dl + er ≤ deleted + errors + length (concat cs) ∧
  (lost = false → dl + er = deleted + errors + length (concat cs)).
Proof.
  intros Hn. revert s leader deleted errors.
  induction cs as [|c cs IH]; intros s leader deleted errors; simpl.
  { intros [= <- <- <- <-]. lia. }
  rewrite length_app. destruct (leader 0); simpl; [|intros [= <- <- <- <-]; split; [lia|done]].
  unfold delete_blob_batch.
  destruct (delete_objects s (ob_key <$> c)) as [s1 [n|e|]] eqn:E; [|done..]. intros H.
  apply Hn in E. rewrite length_fmap in E. apply IH in H. simpl in H. rewrite length_fmap in H.
  destruct H as [H1 H2]. split; [lia|]. intros Hl. specialize (H2 Hl). lia.
Qed.

(** The report of a sweep adds up: every scanned object is referenced, young
    or a candidate; the candidates are exactly the listed objects that both reads
    count as unreferenced and that are old enough; deletions and failures account
    for all candidates unless leadership was lost, and a dry run touches nothing. *)
Theorem gc_report_exact
    (errors_bounded : ∀ s ks s' n, delete_objects s ks = (s', Ok n) → n ≤ length ks)
    fuel epoch now duration (d1 d2 : StateMachineData) config leader (s s' : Store)
    (objects : list GcBlobObject) (stats : GcStatus)
    (Hlist : list_blob_objects fuel s = Some (Ok objects))
    (Hrun : run_gc_sweep fuel epoch now duration d1 d2 config leader s = (s', Some (Ok stats))) :
  gs_scanned stats = gs_skipped_referenced stats + gs_skipped_young stats + gs_candidates stats ∧
  gs_candidates stats = length (filter (λ o,
    default 0%N (sm_blob_ref_counts d1 !! ob_digest o) = 0%N ∧
    default 0%N (sm_blob_ref_counts d2 !! ob_digest o) = 0%N ∧
    old_enough now (gc_grace_period_secs config * 1000000000) (ob_last_modified o) = true) objects) ∧
  gs_deleted stats + gs_delete_errors stats ≤ gs_candidates stats ∧
  (gc_dry_run config = false → gs_leadership_lost stats = false →
     gs_deleted stats + gs_delete_errors stats = gs_candidates stats) ∧
  (gc_dry_run config = true → s' = s).
Proof.
  unfold run_gc_sweep in Hrun. rewrite Hlist in Hrun.
  pose proof (classify_spec now (gc_grace_period_secs config * 1000000000)
    (sm_blob_ref_counts d1) objects) as Hcl.
  destruct (classify _ _ _ _) as [[referenced young] td]. destruct Hcl as [Hsum Htd].
  set (td2 := filter (λ o, default 0%N (sm_blob_ref_counts d2 !! ob_digest o) = 0%N) td) in *.
  assert (length td2 ≤ length td) as Hle by apply length_filter.
  assert (length td2 = length (filter (λ o,
    default 0%N (sm_blob_ref_counts d1 !! ob_digest o) = 0%N ∧
    default 0%N (sm_blob_ref_counts d2 !! ob_digest o) = 0%N ∧
    old_enough now (gc_grace_period_secs config * 1000000000) (ob_last_modified o) = true) objects)) as Hc.
  { unfold td2. rewrite Htd, list_filter_filter. f_equal. apply list_filter_iff. naive_solver. }
  rewrite <-Hc. clear Hc Htd. destruct (gc_dry_run config).
  - injection Hrun as <- <-. simpl. repeat split; try done; lia.
  - destruct (delete_chunks s leader (chunks 1000 td2) 0 0) as [s1 [[[dl er] lost]|e|]] eqn:E; [|done..].
    injection Hrun as <- <-. simpl.
    apply delete_chunks_counts in E as [E1 E2]; [|done]. rewrite chunks_concat in E1, E2 by lia.
    simpl in *. split; [lia|]. split; [done|]. split; [lia|]. split; [|done].
    intros _ Hl. specialize (E2 Hl). lia.
Qed.
End sweep.

(** * Witnesses *)

(** A store that lists its keys on one page, written at time 0. *)
#[export] Instance sample_store : ObjectStore := {|
  Store := gset string;
  list_objects_v2 s _ := Ok (MkListPage ((λ k, (Some k, Some 0%Z)) <$> elements s) (Some false) None);
  delete_objects s ks := (s ∖ list_to_set ks, Ok 0);
|}.

Definition key_a : string := "blobs/sha256/aa/" +:+ hex_a.
Definition key_d : string := "blobs/sha256/dd/" +:+ repeat_string 64 "d".
Definition sample_objects : @Store sample_store := ({[ key_a; key_d ]} : gset string).
Definition sweep : gset string * option (result GcStatus) :=
  run_gc_sweep 2 9 (10000 * 1000000000) 1 sample_state sample_state (MkGcConfig 60 3600 false)
    (λ _, true) sample_objects.

Definition sample_blob : Digest := MkDigest "sha256" hex_a.

Lemma gc_keeps_referenced_witness : key_a ∈ sweep.1 ∧ key_d ∉ sweep.1.
Proof.
  split; [|apply (bool_decide_eq_true_1 _); vm_compute; reflexivity].
  destruct (manifest_at sample_state "acme/app" manifest_digest) as [e|] eqn:Ee;
    [|vm_compute in Ee; discriminate].
  refine (proj2 (gc_keeps_referenced (OS := sample_store) (λ s k, k ∈ (s : gset string)) _ sample_state sample_state
    sample_reachable sample_reachable 2 9 (10000 * 1000000000) 1 (MkGcConfig 60 3600 false) (λ _, true) sample_objects)
    "acme/app" manifest_digest e sample_blob key_a Ee _ _ _).
  - intros s ks k Hk Hs. simpl. set_solver.
  - assert (bool_decide (digest_to_string sample_blob ∈
      default [] (ref_keys <$> manifest_at sample_state "acme/app" manifest_digest)) = true) as Hin
      by (vm_compute; reflexivity).
    apply bool_decide_eq_true_1 in Hin. rewrite Ee in Hin. simpl in Hin.
    apply list_elem_of_fmap in Hin as (r & Hr & Hin).
    pose proof (reachable_refs_wf sample_state sample_reachable _ _ _ Ee) as Hwf.
    rewrite Forall_forall in Hwf.
    replace sample_blob with r; [exact Hin|]. symmetry. apply digest_to_string_inj; [|by apply Hwf|exact Hr].
    apply (bool_decide_unpack _). vm_compute. exact I.
  - reflexivity.
  - unfold sample_objects. set_solver.
Defined.

Lemma gc_report_exact_witness :
  ∃ stats, sweep.2 = Some (Ok stats) ∧ gs_deleted stats + gs_delete_errors stats = gs_candidates stats ∧
    gs_candidates stats = 1.
Proof.
  assert (∃ stats, sweep.2 = Some (Ok stats) ∧ gs_candidates stats = 1 ∧ gs_leadership_lost stats = false)
    as (stats & Hs & Hc & Hl) by (vm_compute; eauto).
  exists stats. split; [exact Hs|]. split; [|exact Hc].
  destruct (list_blob_objects 2 sample_objects) as [[objects|e|]|] eqn:El;
    [|vm_compute in El; discriminate..].
  refine (proj1 (proj2 (proj2 (proj2 (gc_report_exact (OS := sample_store) _ 2 9 (10000 * 1000000000) 1 sample_state
    sample_state (MkGcConfig 60 3600 false) (λ _, true) sample_objects sweep.1 objects
    stats El _)))) eq_refl Hl).
  - intros s ks s' n. simpl. intros [= _ <-]. lia.
  - rewrite <-Hs. apply surjective_pairing.
Defined.

Lemma gc_collects_garbage_witness :
  ∃ s' stats, sweep = (s', Some (Ok stats)) ∧ gs_deleted stats = gs_candidates stats ∧ key_d ∉ s'.
Proof.
  set (d := repeat_string 64 "d").
  destruct (gc_collects_garbage (OS := sample_store) (λ s k, k ∈ (s : gset string))) with
    (s := sample_objects) (pages := [MkListPage ((λ k, (Some k, Some 0%Z)) <$>
      elements (sample_objects : gset string)) (Some false) None]) (fuel := 2) (d1 := sample_state)
    (d2 := sample_state) (epoch := 9%N) (now := (10000 * 1000000000)%N) (duration := 1%N)
    (config := MkGcConfig 60 3600 false) (leader := λ _ : nat, true)
    as (s' & stats & Hrun & Hd & _ & _ & Hgone).
  - intros s ks. eexists. split; [reflexivity|]. simpl. set_solver.
  - apply listing_last; [reflexivity|discriminate].
  - simpl. lia.
  - exact sample_reachable.
  - exact sample_reachable.
  - reflexivity.
  - reflexivity.
  - exists s', stats. split; [exact Hrun|]. split; [exact Hd|].
    apply (Hgone (MkGcBlobObject key_d ("sha256:" +:+ d) (Some 0%N))).
    + apply (bool_decide_eq_true_1 _). vm_compute. reflexivity.
    + apply unreferenced_count; [exact sample_reachable|vm_compute; reflexivity].
    + apply unreferenced_count; [exact sample_reachable|vm_compute; reflexivity].
    + vm_compute. reflexivity.
Defined.
