(* ===== verification/LogStore.v ===== *)
(** The Raft log store (crates/layerhouse-server/src/raft/log_store.rs): an actor
    that owns an embedded database with a table of log entries and a table of
    metadata, and serves openraft's log storage contract.

    The database is the [redb] crate: a table is an ordered map that may not
    exist yet, and a write transaction takes effect only when it commits. Each
    fallible step has the label the source reports; [io l = Some m] says that
    the step with label [l] fails with text [m] during this command. The codec
    is [serde_json]'s. *)

From Stdlib Require Import Ascii.
From stdpp Require Import options.
From S2P Require Import Prelude Errors Digests Manifests Permissions Principals Handles.
From S2P Require Import SyncRuns Types StateMachine RefCounts Samples.

#[local] Open Scope lh_scope.

(** * Ordered tables of 64-bit keys *)

Section ranges.
Context {A : Type}.
Implicit Types m : gmap N A.

Definition table_keys m : list N := merge_sort N.le (elements (dom m)).

(** [table.range(..)]: the entries whose key is in the range, in key order. *)
Definition table_range (inside : N → bool) m : list (N * A) :=
  omap (λ k, x ← m !! k; Some (k, x)) (filter (λ k, inside k = true) (table_keys m)).

Definition table_last m : option (N * A) := last (table_range (λ _, true) m).

Definition remove_keys (keys : list N) m : gmap N A := foldl (λ m k, delete k m) m keys.

Lemma elem_of_table_keys m k : k ∈ table_keys m ↔ is_Some (m !! k).
Proof. unfold table_keys. rewrite merge_sort_Permutation, elem_of_elements. apply elem_of_dom. Qed.

Lemma table_keys_sorted m : StronglySorted N.le (table_keys m).
Proof. apply (StronglySorted_merge_sort N.le). Qed.

Lemma table_keys_nodup m : NoDup (table_keys m).
Proof. unfold table_keys. rewrite merge_sort_Permutation. apply NoDup_elements. Qed.

Lemma elem_of_table_range f m k x : (k, x) ∈ table_range f m ↔ f k = true ∧ m !! k = Some x.
Proof.
  unfold table_range. rewrite list_elem_of_omap. split.
  - intros (k' & Hk & Hx). apply list_elem_of_filter in Hk as [Hf _].
    apply bind_Some in Hx as (y & Hy & [= -> ->]). done.
  - intros [Hf Hm]. exists k. rewrite list_elem_of_filter, elem_of_table_keys, Hm. by split; [split|].
Qed.

Lemma sorted_keys_strict (l : list N) :
  StronglySorted N.le l → NoDup l → StronglySorted N.lt l.
Proof.
  induction 1 as [|x l Hl IH Hx]; intros Hnd; [constructor|].
  apply NoDup_cons in Hnd as [Hni Hnd]. constructor; [by apply IH|].
  rewrite Forall_forall in *. intros y Hy. specialize (Hx y Hy).
  assert (x ≠ y) by (intros ->; done). lia.
Qed.

Lemma sorted_filter (P : N → Prop) `{∀ x, Decision (P x)} (R : relation N) l :
  StronglySorted R l → StronglySorted R (filter P l).
Proof.
  induction 1 as [|x l Hl IH Hx]; [constructor|]. rewrite filter_cons. case_decide; [|done].
  constructor; [done|]. rewrite Forall_forall in *. intros y [_ Hy]%list_elem_of_filter. by apply Hx.
Qed.

(** A range is read in strictly increasing order of the keys. *)
Lemma table_range_sorted f m : StronglySorted N.lt (table_range f m).*1.
Proof.
  assert ((table_range f m).*1 = filter (λ k, f k = true) (table_keys m)) as ->.
  { unfold table_range. assert (∀ l : list N, (∀ k, k ∈ l → is_Some (m !! k)) →
      (omap (λ k, x ← m !! k; Some (k, x)) l).*1 = l) as Hl.
    { induction l as [|k l IH]; intros Hin; [done|]. csimpl.
      destruct (Hin k) as [x Hx]; [by left|]. rewrite Hx. csimpl. rewrite IH; [done|].
      intros k' Hk'. apply Hin. by right. }
    apply Hl. intros k [_ Hk]%list_elem_of_filter. by apply elem_of_table_keys. }
  apply sorted_filter, sorted_keys_strict; [apply table_keys_sorted|apply table_keys_nodup].
Qed.

Lemma lookup_remove_keys keys m k :
  remove_keys keys m !! k = if decide (k ∈ keys) then None else m !! k.
Proof.
  unfold remove_keys. revert m. induction keys as [|x keys IH]; intros m; simpl; [done|].
  rewrite IH, lookup_delete. repeat case_decide; set_solver.
Qed.

(** Removing the keys of a range is keeping the rest. *)
Lemma remove_range f m :
  remove_keys (table_range f m).*1 m = filter (λ p, f p.1 = false) m.
Proof.
  apply map_eq. intros k. rewrite lookup_remove_keys, map_lookup_filter.
  destruct (m !! k) as [x|] eqn:E; simpl; [|by case_decide].
  destruct (f k) eqn:Ef; simpl.
  - rewrite decide_True; [done|]. apply list_elem_of_fmap. exists (k, x). split; [done|].
    by apply elem_of_table_range.
  - rewrite decide_False; [done|]. intros ([k' x'] & -> & Hk)%list_elem_of_fmap.
    apply elem_of_table_range in Hk as [Hf _]. simpl in *. congruence.
Qed.
End ranges.

Lemma table_range_fmap {A B} (g : A → B) f (m : gmap N A) :
  table_range f (g <$> m) = prod_map id g <$> table_range f m.
Proof.
  unfold table_range, table_keys. rewrite dom_fmap_L.
  generalize (filter (λ k, f k = true) (merge_sort N.le (elements (dom m)))) as l.
  induction l as [|k l IH]; [done|]. csimpl. rewrite lookup_fmap.
  destruct (m !! k) as [x|]; csimpl; by rewrite IH.
Qed.

(** * Data *)

Abbreviation bytes := (list Byte.byte) (only parsing).

(** [storage_io_err(op, e)]. *)
Record StorageError := MkStorageError {
  se_op : string;
  se_text : message;
}.

Definition io_result (A : Type) : Type := StorageError + A.
#[global] Instance io_ret : MRet io_result := λ A a, inr a.
#[global] Instance io_bind : MBind io_result := λ A B f r,
  match r with inl e => inl e | inr a => f a end.

Section log_store.
Context `{SJ : SerdeJson, OR : Openraft, EX : Externals}.

(** [serde_json] on the three types the store writes, and openraft's order on
    votes ([vote_ge a b] is [a >= b]). *)
Class LogCodec := {
  Vote : Type;
  encode_entry : Entry → message + bytes;
  decode_entry : bytes → message + Entry;
  encode_log_id : LogId → message + bytes;
  decode_log_id : bytes → message + LogId;
  encode_vote : Vote → message + bytes;
  decode_vote : bytes → message + Vote;
  vote_ge : Vote → Vote → bool;
}.
Context `{LC : LogCodec}.

(** The database: its two tables, which exist once something was written. *)
Record Database := MkDatabase {
  db_logs : option (gmap N bytes);
  db_meta : option (gmap string bytes);
}.
Definition META_VOTE : string := "vote".
Definition META_LAST_PURGED : string := "last_purged".

Record LogState := MkLogState {
  ls_last_purged_log_id : option LogId;
  ls_last_log_id : option LogId;
}.

Inductive Command :=
  | GetLogState
  | GetEntries (start end_ : N)
  | Append (entries : list Entry)
  | Truncate (log_id : LogId)
  | Purge (log_id : LogId)
  | SaveVote (vote : Vote)
  | SeedVote (vote : Vote)
  | ReadVote
  | Compact.

(** What a command sends back; the flush callback of an append hears only
    whether it worked. *)
Inductive Reply :=
  | RepLogState (r : io_result LogState)
  | RepEntries (r : io_result (list Entry))
  | RepFlushed (ok : bool)
  | RepUnit (r : io_result ())
  | RepVote (r : io_result (option Vote)).

(** * Operations *)

Context (io : string → option message).

Definition attempt (op : string) : io_result () :=
  match io op with Some text => inl (MkStorageError op text) | None => inr () end.
Definition lift {A} (op : string) (r : message + A) : io_result A :=
  match r with inl text => inl (MkStorageError op text) | inr a => inr a end.

Definition get_log_state_sync (db : Database) : io_result LogState :=
  _ ← attempt "begin_read";
  _ ← attempt "open_meta_table";
  last_purged_log_id ←
    match db_meta db with
    | None => mret None
    | Some table =>
        _ ← attempt "read_last_purged";
        match table !! META_LAST_PURGED with
        | None => mret None
        | Some v => l ← lift "deserialize_last_purged" (decode_log_id v); mret (Some l)
        end
    end;
  _ ← attempt "open_logs_table";
  last_log_id ←
    match db_logs db with
    | None => mret None
    | Some table =>
        _ ← attempt "last_log";
        match table_last table with
        | None => mret None
        | Some (_, v) =>
            e ← lift "deserialize_last_entry" (decode_entry v); mret (Some (entry_log_id e))
        end
    end;
  mret (MkLogState last_purged_log_id
    (match last_log_id with Some l => Some l | None => last_purged_log_id end)).

Fixpoint decode_all (vs : list bytes) : io_result (list Entry) :=
  match vs with
  | [] => mret []
  | v :: vs' =>
      _ ← attempt "range_iter";
      e ← lift "deserialize_entry" (decode_entry v);
      es ← decode_all vs';
      mret (e :: es)
  end.

Definition get_entries_sync (db : Database) (start end_ : N) : io_result (list Entry) :=
  _ ← attempt "begin_read";
  _ ← attempt "open_logs_table";
  match db_logs db with
  | None => mret []
  | Some table =>
      _ ← attempt "range";
      decode_all (table_range (λ k, (start <=? k)%N && (k <? end_)%N) table).*2
  end.

Fixpoint insert_all (table : gmap N bytes) (entries : list Entry) : io_result (gmap N bytes) :=
  match entries with
  | [] => mret table
  | entry :: entries' =>
      b ← lift "serialize_entry" (encode_entry entry);
      _ ← attempt "insert_entry";
      insert_all (<[log_index (entry_log_id entry) := b]> table) entries'
  end.

(** [begin_write .. commit]: the new database, or the error that dropped the
    transaction. *)
Definition append_sync (db : Database) (entries : list Entry) : io_result Database :=
  _ ← attempt "begin_write";
  _ ← attempt "open_logs_table";
  table ← insert_all (default ∅ (db_logs db)) entries;
  _ ← attempt "commit_append";
  mret (MkDatabase (Some table) (db_meta db)).

(** Collect the keys of a range, then remove them one by one. *)
Definition remove_in_range (inside : N → bool) (table : gmap N bytes) : io_result (gmap N bytes) :=
  _ ← attempt "range";
  _ ← attempt "range_iter";
  let keys_to_remove := (table_range inside table).*1 in
  _ ← (if bool_decide (keys_to_remove = []) then mret () else attempt "remove_entry");
  mret (remove_keys keys_to_remove table).

Definition truncate_sync (db : Database) (log_id : LogId) : io_result Database :=
  _ ← attempt "begin_write";
  _ ← attempt "open_logs_table";
  table ← remove_in_range (λ k, log_index log_id <=? k)%N (default ∅ (db_logs db));
  _ ← attempt "commit_truncate";
  mret (MkDatabase (Some table) (db_meta db)).

Definition purge_sync (db : Database) (log_id : LogId) : io_result Database :=
  _ ← attempt "begin_write";
  _ ← attempt "open_logs_table";
  table ← remove_in_range (λ k, k <=? log_index log_id)%N (default ∅ (db_logs db));
  _ ← attempt "open_meta_table";
  b ← lift "serialize_purged" (encode_log_id log_id);
  _ ← attempt "insert_purged";
  _ ← attempt "commit_purge";
  mret (MkDatabase (Some table) (Some (<[META_LAST_PURGED := b]> (default ∅ (db_meta db))))).

Definition save_vote_sync (db : Database) (vote : Vote) : io_result Database :=
  _ ← attempt "begin_write";
  _ ← attempt "open_meta_table";
  b ← lift "serialize_vote" (encode_vote vote);
  _ ← attempt "insert_vote";
  _ ← attempt "commit_vote";
  mret (MkDatabase (db_logs db) (Some (<[META_VOTE := b]> (default ∅ (db_meta db))))).

Definition read_vote_sync (db : Database) : io_result (option Vote) :=
  _ ← attempt "begin_read";
  _ ← attempt "open_meta_table";
  match db_meta db with
  | None => mret None
  | Some table =>
      _ ← attempt "read_vote";
      match table !! META_VOTE with
      | None => mret None
      | Some v => x ← lift "deserialize_vote" (decode_vote v); mret (Some x)
      end
  end.

Definition seed_vote_sync (db : Database) (vote : Vote) : io_result Database :=
  current ← read_vote_sync db;
  if match current with Some current => vote_ge current vote | None => false end
  then mret db
  else save_vote_sync db vote.

Definition commit (db : Database) (r : io_result Database) : Database * io_result () :=
  match r with inr db' => (db', inr ()) | inl e => (db, inl e) end.

(** One iteration of [run_actor]. *)
Definition run_command (db : Database) (cmd : Command) : Database * Reply :=
  match cmd with
  | GetLogState => (db, RepLogState (get_log_state_sync db))
  | GetEntries start end_ => (db, RepEntries (get_entries_sync db start end_))
  | Append entries =>
      let '(db, r) := commit db (append_sync db entries) in
      (db, RepFlushed (match r with inr _ => true | inl _ => false end))
  | Truncate log_id => let '(db, r) := commit db (truncate_sync db log_id) in (db, RepUnit r)
  | Purge log_id => let '(db, r) := commit db (purge_sync db log_id) in (db, RepUnit r)
  | SaveVote vote => let '(db, r) := commit db (save_vote_sync db vote) in (db, RepUnit r)
  | SeedVote vote => let '(db, r) := commit db (seed_vote_sync db vote) in (db, RepUnit r)
  | ReadVote => (db, RepVote (read_vote_sync db))
  | Compact => (db, RepUnit (attempt "compact"))
  end.
End log_store.

Section actor.
Context `{SJ : SerdeJson, OR : Openraft, EX : Externals, LC : !LogCodec}.

(** The actor loop over the commands it receives, each with its I/O faults. *)
Fixpoint run_actor (db : Database) (cmds : list ((string → option message) * Command))
    : Database * list Reply :=
  match cmds with
  | [] => (db, [])
  | (io, cmd) :: cmds' =>
      let '(db, reply) := run_command io db cmd in
      let '(db, replies) := run_actor db cmds' in
      (db, reply :: replies)
  end.

(** [try_get_log_entries]: the bounds of a range as a half-open interval; the
    additions wrap. *)
Inductive Bound := Included (v : N) | Excluded (v : N) | Unbounded.
Definition range_start (b : Bound) : N :=
  match b with Included v => v | Excluded v => U64.add v 1 | Unbounded => 0 end.
Definition range_end (b : Bound) : N :=
  match b with Included v => U64.add v 1 | Excluded v => v | Unbounded => U64.max end.
Definition try_get_log_entries (start end_ : Bound) : Command :=
  GetEntries (range_start start) (range_end end_).
End actor.

(** * Specification: a log, a purge mark and a vote *)

Section refinement.
Context `{SJ : SerdeJson, OR : Openraft, EX : Externals, LC : !LogCodec}.

Record Log := MkLog {
  log_entries : gmap N Entry;
  log_purged : option LogId;
  log_vote : option Vote;
}.

Definition entry_index (e : Entry) : N := log_index (entry_log_id e).
Definition add_entries (m : gmap N Entry) (es : list Entry) : gmap N Entry :=
  foldl (λ m e, <[entry_index e := e]> m) m es.

Definition spec_step (a : Log) (cmd : Command) : Log :=
  match cmd with
  | Append es => MkLog (add_entries (log_entries a) es) (log_purged a) (log_vote a)
  | Truncate l =>
      MkLog (filter (λ p, (p.1 < log_index l)%N) (log_entries a)) (log_purged a) (log_vote a)
  | Purge l => MkLog (filter (λ p, (log_index l < p.1)%N) (log_entries a)) (Some l) (log_vote a)
  | SaveVote v => MkLog (log_entries a) (log_purged a) (Some v)
  | SeedVote v =>
      if match log_vote a with Some c => vote_ge c v | None => false end then a
      else MkLog (log_entries a) (log_purged a) (Some v)
  | GetLogState | GetEntries _ _ | ReadVote | Compact => a
  end.

Definition spec_range (a : Log) (start end_ : N) : list Entry :=
  (table_range (λ k, (start <=? k)%N && (k <? end_)%N) (log_entries a)).*2.

Definition spec_reply (a : Log) (cmd : Command) : Reply :=
  match cmd with
  | GetLogState =>
      RepLogState (inr (MkLogState (log_purged a)
        (match table_last (log_entries a) with
         | Some (_, e) => Some (entry_log_id e)
         | None => log_purged a
         end)))
  | GetEntries start end_ => RepEntries (inr (spec_range a start end_))
  | Append _ => RepFlushed true
  | ReadVote => RepVote (inr (log_vote a))
  | Truncate _ | Purge _ | SaveVote _ | SeedVote _ | Compact => RepUnit (inr ())
  end.

Definition is_error_reply (r : Reply) : bool :=
  match r with
  | RepLogState (inl _) | RepEntries (inl _) | RepUnit (inl _) | RepVote (inl _)
  | RepFlushed false => true
  | _ => false
  end.

(** [t] holds the encodings of [m]. *)
Definition decodes {K A} `{Countable K} (dec : bytes → message + A) (t : gmap K bytes) (m : gmap K A)
    : Prop :=
  ∀ k, dec <$> t !! k = inr <$> m !! k.

Definition represents (db : Database) (a : Log) : Prop :=
  decodes decode_entry (default ∅ (db_logs db)) (log_entries a) ∧
  decode_log_id <$> default ∅ (db_meta db) !! META_LAST_PURGED = inr <$> log_purged a ∧
  decode_vote <$> default ∅ (db_meta db) !! META_VOTE = inr <$> log_vote a.

(** What the codec promises: decoding an encoding gives the value back. Of [serde_json]
    this holds for every entry but one: annotations that are [Some(Value::Null)] (of a
    manifest that says [null]) are read back as [None]; such an entry counts as one that
    the codec does not encode. *)
Class CodecLaws := {
  entry_codec : ∀ e b, encode_entry e = inr b → decode_entry b = inr e;
  log_id_codec : ∀ l b, encode_log_id l = inr b → decode_log_id b = inr l;
  vote_codec : ∀ v b, encode_vote v = inr b → decode_vote b = inr v;
}.
Context `{CL : !CodecLaws}.

Lemma io_bind_inr {A B} (r : io_result A) (f : A → io_result B) b :
  r ≫= f = inr b ↔ ∃ a, r = inr a ∧ f a = inr b.
Proof. destruct r; simpl; naive_solver. Qed.

Lemma lift_inr {A} op (r : message + A) a : lift op r = inr a ↔ r = inr a.
Proof. destruct r; simpl; split; congruence. Qed.

Lemma decodes_range dec f (t : gmap N bytes) (m : gmap N Entry) :
  decodes dec t m → (λ p, dec p.2) <$> table_range f t = (λ p, inr p.2) <$> table_range f m.
Proof.
  intros Hd. assert (dec <$> t = inr <$> m) as E by (apply map_eq; intros k; rewrite !lookup_fmap; apply Hd).
  pose proof (table_range_fmap dec f t) as H1. pose proof (table_range_fmap (@inr message Entry) f m) as H2.
  rewrite E, H2 in H1. apply (f_equal (fmap snd)) in H1. by rewrite <-!list_fmap_compose in H1.
Qed.

Lemma decode_all_range io f (t : gmap N bytes) (m : gmap N Entry) es :
  decodes decode_entry t m → decode_all io (table_range f t).*2 = inr es → es = (table_range f m).*2.
Proof.
  intros Hd%(decodes_range _ f). revert es Hd.
  generalize (table_range f t) as lt, (table_range f m) as lm. induction lt as [|[k v] lt IH];
    intros [|[k' e] lm] es Hd; try done; csimpl in *.
  - by intros [= <-].
  - injection Hd as Hv Hd. rewrite Hv. simpl.
    destruct (attempt io "range_iter"); [done|]. simpl.
    intros (es' & Hes & [= <-])%io_bind_inr. f_equal. by apply (IH lm).
Qed.

Lemma decodes_insert {K A} `{Countable K} (dec : bytes → message + A) t m (k : K) b x :
  decodes dec t m → dec b = inr x → decodes dec (<[k := b]> t) (<[k := x]> m).
Proof. intros Hd Hb i. rewrite !lookup_insert. case_decide; [by csimpl; rewrite Hb|apply Hd]. Qed.

Lemma decodes_filter (t : gmap N bytes) (m : gmap N Entry) (P Q : N → Prop)
    `{∀ k, Decision (P k), ∀ k, Decision (Q k)} :
  decodes decode_entry t m → (∀ k, P k ↔ Q k) →
  decodes decode_entry (filter (λ p, P p.1) t) (filter (λ p, Q p.1) m).
Proof.
  intros Hd Hpq k. rewrite !map_lookup_filter. specialize (Hd k). specialize (Hpq k).
  destruct (t !! k), (m !! k); simpl in *; try done. repeat case_guard; naive_solver.
Qed.

Lemma insert_all_decodes io t m es t' :
  decodes decode_entry t m → insert_all io t es = inr t' → decodes decode_entry t' (add_entries m es).
Proof using CL.
  revert t m. induction es as [|e es IH]; intros t m Hd; simpl; [by intros [= <-]|].
  intros (b & Hb%lift_inr & (_ & _ & Hk)%io_bind_inr)%io_bind_inr.
  apply (IH _ _ (decodes_insert _ _ _ _ _ _ Hd (entry_codec _ _ Hb)) Hk).
Qed.

Lemma remove_in_range_inr io f t t' :
  remove_in_range io f t = inr t' → t' = filter (λ p, f p.1 = false) t.
Proof.
  unfold remove_in_range. intros (_ & _ & (_ & _ & (_ & _ & Hk)%io_bind_inr)%io_bind_inr)%io_bind_inr.
  injection Hk as <-. apply remove_range.
Qed.

(** ** Each command *)

Lemma append_refines io db a es db' :
  represents db a → append_sync io db es = inr db' → represents db' (spec_step a (Append es)).
Proof using CL.
  intros (Hl & Hp & Hv). unfold append_sync.
  intros (_ & _ & (_ & _ & (t & Ht & (_ & _ & Hk)%io_bind_inr)%io_bind_inr)%io_bind_inr)%io_bind_inr.
  injection Hk as <-. split; [|done]. by eapply insert_all_decodes.
Qed.

Lemma truncate_refines io db a l db' :
  represents db a → truncate_sync io db l = inr db' → represents db' (spec_step a (Truncate l)).
Proof.
  intros (Hl & Hp & Hv). unfold truncate_sync.
  intros (_ & _ & (_ & _ & (t & Ht & (_ & _ & Hk)%io_bind_inr)%io_bind_inr)%io_bind_inr)%io_bind_inr.
  injection Hk as <-. apply remove_in_range_inr in Ht as ->. split; [|done]. simpl.
  exact (decodes_filter (default ∅ (db_logs db)) (log_entries a) (λ k, (log_index l <=? k)%N = false)
    (λ k, (k < log_index l)%N) Hl (λ k, N.leb_gt _ _)).
Qed.

Lemma purge_refines io db a l db' :
  represents db a → purge_sync io db l = inr db' → represents db' (spec_step a (Purge l)).
Proof using CL.
  intros (Hl & Hp & Hv). unfold purge_sync.
  intros (_ & _ & (_ & _ & (t & Ht & Hk)%io_bind_inr)%io_bind_inr)%io_bind_inr.
  apply io_bind_inr in Hk as (_ & _ & Hk). apply io_bind_inr in Hk as (b & Hb%lift_inr & Hk).
  apply io_bind_inr in Hk as (_ & _ & Hk). apply io_bind_inr in Hk as (_ & _ & Hk).
  injection Hk as <-. apply remove_in_range_inr in Ht as ->. split; [|split]; simpl.
  - exact (decodes_filter (default ∅ (db_logs db)) (log_entries a) (λ k, (k <=? log_index l)%N = false)
      (λ k, (log_index l < k)%N) Hl (λ k, N.leb_gt _ _)).
  - rewrite lookup_insert_eq. simpl. by rewrite (log_id_codec _ _ Hb).
  - by rewrite lookup_insert_ne.
Qed.

Lemma save_vote_refines io db a v db' :
  represents db a → save_vote_sync io db v = inr db' → represents db' (spec_step a (SaveVote v)).
Proof using CL.
  intros (Hl & Hp & Hv). unfold save_vote_sync.
  intros (_ & _ & (_ & _ & (b & Hb%lift_inr & (_ & _ & (_ & _ & Hk)%io_bind_inr)%io_bind_inr)%io_bind_inr)%io_bind_inr)%io_bind_inr.
  injection Hk as <-. split; [done|split]; simpl.
  - by rewrite lookup_insert_ne.
  - rewrite lookup_insert_eq. simpl. by rewrite (vote_codec _ _ Hb).
Qed.

Lemma read_vote_refines io db a r :
  represents db a → read_vote_sync io db = inr r → r = log_vote a.
Proof.
  intros (_ & _ & Hv). unfold read_vote_sync.
  intros (_ & _ & (_ & _ & Hk)%io_bind_inr)%io_bind_inr.
  destruct (db_meta db) as [t|]; simpl in Hv.
  - apply io_bind_inr in Hk as (_ & _ & Hk). destruct (t !! META_VOTE) as [b|]; simpl in *.
    + apply io_bind_inr in Hk as (x & Hx%lift_inr & [= <-]). destruct (log_vote a); simpl in Hv; congruence.
    + injection Hk as <-. by destruct (log_vote a).
  - injection Hk as <-. rewrite lookup_empty in Hv. by destruct (log_vote a).
Qed.

Lemma get_entries_refines io db a start end_ es :
  represents db a → get_entries_sync io db start end_ = inr es → es = spec_range a start end_.
Proof.
  intros (Hl & _). unfold get_entries_sync.
  intros (_ & _ & (_ & _ & Hk)%io_bind_inr)%io_bind_inr. destruct (db_logs db) as [t|]; simpl in Hl.
  - apply io_bind_inr in Hk as (_ & _ & Hk). by eapply decode_all_range.
  - injection Hk as <-. unfold spec_range.
    pose proof (decodes_range _ (λ k, (start <=? k)%N && (k <? end_)%N) _ _ Hl) as Hr.
    by destruct (table_range _ (log_entries a)).
Qed.

Lemma log_state_refines io db a s :
  represents db a → get_log_state_sync io db = inr s → RepLogState (inr s) = spec_reply a GetLogState.
Proof.
  intros (Hl & Hp & _). unfold get_log_state_sync.
  intros (_ & _ & (_ & _ & (p & Hpu & (_ & _ & (l & Hla & Hk)%io_bind_inr)%io_bind_inr)%io_bind_inr)%io_bind_inr)%io_bind_inr.
  injection Hk as <-. simpl.
  assert (p = log_purged a) as ->.
  { destruct (db_meta db) as [t|]; simpl in Hp.
    - apply io_bind_inr in Hpu as (_ & _ & Hpu). destruct (t !! META_LAST_PURGED) as [b|]; simpl in *.
      + apply io_bind_inr in Hpu as (x & Hx%lift_inr & [= <-]).
        destruct (log_purged a); simpl in Hp; congruence.
      + injection Hpu as <-. by destruct (log_purged a).
    - injection Hpu as <-. rewrite lookup_empty in Hp. by destruct (log_purged a). }
  assert (l = (λ p, entry_log_id p.2) <$> table_last (log_entries a)) as ->;
    [|by destruct (table_last (log_entries a)) as [[]|]].
  pose proof (decodes_range _ (λ _, true) _ _ Hl) as Hr. apply (f_equal last) in Hr.
  rewrite !fmap_last in Hr. change (last (table_range (λ _, true) ?m)) with (table_last m) in Hr.
  destruct (db_logs db) as [t|]; simpl in Hr.
  - apply io_bind_inr in Hla as (_ & _ & Hla).
    destruct (table_last t) as [[k v]|], (table_last (log_entries a)) as [[k' e]|]; simpl in *; try done.
    + injection Hr as Hr. rewrite Hr in Hla. simpl in Hla. by injection Hla as <-.
    + by injection Hla as <-.
  - injection Hla as <-. by destruct (table_last (log_entries a)).
Qed.

Lemma run_command_refines io db a cmd db' rep :
  represents db a → run_command io db cmd = (db', rep) →
  (is_error_reply rep = true ∧ db' = db) ∨
  (represents db' (spec_step a cmd) ∧ rep = spec_reply a cmd).
Proof using CL.
  intros Ha. destruct cmd; simpl.
  - intros [= <- <-]. destruct (get_log_state_sync io db) eqn:E; [by left|right].
    split; [done|]. by eapply log_state_refines.
  - intros [= <- <-]. destruct (get_entries_sync io db start end_) eqn:E; [by left|right].
    split; [done|]. by rewrite (get_entries_refines _ _ _ _ _ _ Ha E).
  - destruct (append_sync io db entries) eqn:E; intros [= <- <-]; [by left|right].
    split; [by eapply append_refines|done].
  - destruct (truncate_sync io db log_id) eqn:E; intros [= <- <-]; [by left|right].
    split; [by eapply truncate_refines|done].
  - destruct (purge_sync io db log_id) eqn:E; intros [= <- <-]; [by left|right].
    split; [by eapply purge_refines|done].
  - destruct (save_vote_sync io db vote) eqn:E; intros [= <- <-]; [by left|right].
    split; [by eapply save_vote_refines|done].
  - destruct (seed_vote_sync io db vote) eqn:E; intros [= <- <-]; [by left|right].
    split; [|done]. unfold seed_vote_sync in E. apply io_bind_inr in E as (c & Hc & E).
    rewrite (read_vote_refines _ _ _ _ Ha Hc) in E.
    destruct (match log_vote a with Some _ => _ | None => _ end); [by injection E as <-|].
    by apply (save_vote_refines io db a).
  - intros [= <- <-]. destruct (read_vote_sync io db) eqn:E; [by left|right].
    split; [done|]. by rewrite (read_vote_refines _ _ _ _ Ha E).
  - intros [= <- <-]. unfold attempt. destruct (io "compact"); [by left|by right].
Qed.

(** ** Without faults every command succeeds *)

(** The values the command writes can be serialized. *)
Definition encodable (cmd : Command) : Prop :=
  match cmd with
  | Append entries => Forall (λ e, ∃ b, encode_entry e = inr b) entries
  | Purge log_id => ∃ b, encode_log_id log_id = inr b
  | SaveVote vote | SeedVote vote => ∃ b, encode_vote vote = inr b
  | _ => True
  end.

Section no_faults.
Context (io : string → option message) (Hio : ∀ op, io op = None).
Implicit Types (db : Database) (a : Log).

Lemma attempt_ok op : attempt io op = inr ().
Proof using Hio. unfold attempt. by rewrite Hio. Qed.

Lemma decode_all_ok f (t : gmap N bytes) (m : gmap N Entry) :
  decodes decode_entry t m → ∃ es, decode_all io (table_range f t).*2 = inr es.
Proof using Hio.
  intros Hd%(decodes_range _ f). revert Hd.
  generalize (table_range f t) as lt, (table_range f m) as lm. induction lt as [|[k v] lt IH];
    intros [|[k' e] lm] Hd; try done; csimpl in *; [by eexists|].
  injection Hd as Hv Hd. rewrite Hv, attempt_ok. simpl.
  destruct (IH lm Hd) as [es Hes]. rewrite Hes. by eexists.
Qed.

Lemma insert_all_ok t es :
  Forall (λ e, ∃ b, encode_entry e = inr b) es → ∃ t', insert_all io t es = inr t'.
Proof using Hio.
  intros Hes. revert t. induction Hes as [|e es [b Hb] _ IH]; intros t; simpl; [by eexists|].
  rewrite Hb, attempt_ok. simpl. apply IH.
Qed.

Lemma remove_in_range_ok f t : ∃ t', remove_in_range io f t = inr t'.
Proof using Hio. unfold remove_in_range. rewrite !attempt_ok. simpl. case_match; by eexists. Qed.

Lemma save_vote_ok db v : (∃ b, encode_vote v = inr b) → ∃ db', save_vote_sync io db v = inr db'.
Proof using Hio.
  intros [b Hb]. unfold save_vote_sync. rewrite !attempt_ok, Hb. simpl. by eexists.
Qed.

Lemma read_vote_ok db a : represents db a → ∃ r, read_vote_sync io db = inr r.
Proof using Hio.
  intros (_ & _ & Hv). unfold read_vote_sync. rewrite !attempt_ok. simpl.
  destruct (db_meta db) as [t|]; [|by eexists]. simpl in Hv. destruct (t !! META_VOTE) as [b|]; [|by eexists].
  destruct (log_vote a); simpl in Hv; [|done]. injection Hv as ->. by eexists.
Qed.

Lemma log_state_ok db a : represents db a → ∃ s, get_log_state_sync io db = inr s.
Proof using Hio.
  intros (Hl & Hp & _). unfold get_log_state_sync. rewrite !attempt_ok. simpl.
  set (purged := match db_meta db with None => _ | Some _ => _ end).
  assert (∃ p, purged = inr p) as [p ->].
  { unfold purged. destruct (db_meta db) as [t|]; [|by eexists]. simpl in *.
    destruct (t !! META_LAST_PURGED) as [b|]; [|by eexists].
    destruct (log_purged a); simpl in Hp; [|done]. injection Hp as ->. by eexists. }
  simpl. set (lst := match db_logs db with None => _ | Some _ => _ end).
  assert (∃ l, lst = inr l) as [l ->]; [|simpl; by eexists].
  unfold lst. pose proof (decodes_range _ (λ _, true) _ _ Hl) as Hr. apply (f_equal last) in Hr.
  rewrite !fmap_last in Hr. change (last (table_range (λ _, true) ?m)) with (table_last m) in Hr.
  destruct (db_logs db) as [t|]; [|by eexists]. simpl in *.
  destruct (table_last t) as [[k v]|]; [|by eexists].
  destruct (table_last (log_entries a)) as [[k' e]|]; simpl in Hr; [|done]. injection Hr as ->.
  by eexists.
Qed.

Lemma run_command_ok db a cmd :
  represents db a → encodable cmd → is_error_reply (run_command io db cmd).2 = false.
Proof using Hio.
  intros Ha Henc. destruct cmd; simpl in *.
  - by destruct (log_state_ok db a Ha) as [? ->].
  - unfold get_entries_sync. rewrite !attempt_ok. simpl. destruct Ha as [Hl _].
    destruct (db_logs db) as [t|]; [|done]. simpl in Hl.
    by destruct (decode_all_ok (λ k, (start <=? k)%N && (k <? end_)%N) t _ Hl) as [? ->].
  - unfold append_sync. rewrite !attempt_ok. simpl.
    by destruct (insert_all_ok (default ∅ (db_logs db)) entries Henc) as [? ->].
  - unfold truncate_sync. rewrite !attempt_ok. simpl.
    by destruct (remove_in_range_ok (λ k, log_index log_id <=? k)%N (default ∅ (db_logs db))) as [? ->].
  - unfold purge_sync. rewrite !attempt_ok. simpl.
    destruct (remove_in_range_ok (λ k, k <=? log_index log_id)%N (default ∅ (db_logs db))) as [? ->]. simpl.
    by destruct Henc as [b ->].
  - by destruct (save_vote_ok db vote Henc) as [? ->].
  - unfold seed_vote_sync. destruct (read_vote_ok db a Ha) as [r ->]. simpl.
    destruct (match r with Some _ => _ | None => _ end); [done|].
    by destruct (save_vote_ok db vote Henc) as [? ->].
  - by destruct (read_vote_ok db a Ha) as [? ->].
  - by rewrite attempt_ok.
Qed.
End no_faults.

(** How a sequence of replies is explained: each command either failed and had no
    effect, or had its specified effect and reply, in the order of the commands. *)
Inductive explains : Log → list Command → list Reply → Log → Prop :=
  | explains_nil a : explains a [] [] a
  | explains_fail a cmd rep cmds reps a' :
      is_error_reply rep = true → explains a cmds reps a' → explains a (cmd :: cmds) (rep :: reps) a'
  | explains_ok a cmd cmds reps a' :
      explains (spec_step a cmd) cmds reps a' →
      explains a (cmd :: cmds) (spec_reply a cmd :: reps) a'.

(** C25: the log store implements openraft's log storage: whatever sequence of
    commands its actor receives and whatever I/O faults occur, every reply is
    that of the specified log after exactly the commands that succeeded so far;
    a command that failed left no trace, and a run without I/O or serialization
    failures has no failed command. *)
Theorem log_store_refines (db : Database) (a : Log) (Ha : represents db a)
    (cmds : list ((string → option message) * Command)) :
  (∃ a', explains a cmds.*2 (run_actor db cmds).2 a' ∧ represents (run_actor db cmds).1 a') ∧
  (Forall (λ c, (∀ op, c.1 op = None) ∧ encodable c.2) cmds →
     Forall (λ r, is_error_reply r = false) (run_actor db cmds).2).
Proof using CL.
  revert db a Ha. induction cmds as [|[io cmd] cmds IH]; intros db a Ha; simpl.
  { split; [exists a; split; [constructor|done]|by constructor]. }
  destruct (run_command io db cmd) as [db1 rep] eqn:E.
  assert ((∀ op, io op = None) ∧ encodable cmd → is_error_reply rep = false) as Hok.
  { intros [Hio Ht]. pose proof (run_command_ok io Hio db a cmd Ha Ht) as H. by rewrite E in H. }
  destruct (run_command_refines _ _ _ _ _ _ Ha E) as [[Herr ->]|[Ha1 ->]].
  - destruct (IH db a Ha) as [(a' & Hex & Hrep) Hf]. destruct (run_actor db cmds) as [db2 reps].
    split; [exists a'; split; [by constructor|done]|].
    intros [Hio Hios]%Forall_cons. constructor; [by apply Hok|by apply Hf].
  - destruct (IH db1 _ Ha1) as [(a' & Hex & Hrep) Hf]. destruct (run_actor db1 cmds) as [db2 reps].
    split; [exists a'; split; [by constructor|done]|].
    intros [Hio Hios]%Forall_cons. constructor; [by apply Hok|by apply Hf].
Qed.

(** ** Reading ranges *)

Definition keyed (a : Log) : Prop := ∀ k e, log_entries a !! k = Some e → entry_index e = k.

Lemma add_entries_keyed m es :
  (∀ k e, m !! k = Some e → entry_index e = k) →
  ∀ k e, add_entries m es !! k = Some e → entry_index e = k.
Proof.
  revert m. induction es as [|x es IH]; intros m Hm; simpl; [done|]. apply IH.
  intros k e. rewrite lookup_insert. case_decide; [by intros [= <-]|apply Hm].
Qed.

Lemma spec_step_keyed a cmd : keyed a → keyed (spec_step a cmd).
Proof.
  intros Ha. destruct cmd; simpl; try done.
  - exact (add_entries_keyed (log_entries a) entries Ha).
  - intros k e. simpl. intros [? _]%map_lookup_filter_Some. by apply Ha.
  - intros k e. simpl. intros [? _]%map_lookup_filter_Some. by apply Ha.
  - by case_match.
Qed.

Lemma explains_keyed a cmds reps a' : explains a cmds reps a' → keyed a → keyed a'.
Proof. induction 1; [done|done|]. intros Ha. by apply IHexplains, spec_step_keyed. Qed.

Definition above (b : Bound) (k : N) : Prop :=
  match b with Included v => (v ≤ k)%N | Excluded v => (v < k)%N | Unbounded => True end.
Definition below (b : Bound) (k : N) : Prop :=
  match b with Included v => (k ≤ v)%N | Excluded v => (k < v)%N | Unbounded => True end.
(** The bound can be turned into a half-open one without overflow. *)
Definition bound_fits (b : Bound) : Prop :=
  match b with Included v | Excluded v => (v + 1 < U64.modulus)%N | Unbounded => True end.

Lemma run_read io db a start end_ :
  (∀ op, io op = None) → represents db a →
  run_command io db (try_get_log_entries start end_) =
  (db, RepEntries (inr (spec_range a (range_start start) (range_end end_)))).
Proof using CL.
  intros Hio Ha. pose proof (run_command_ok io Hio db a (try_get_log_entries start end_) Ha I) as Hok.
  destruct (run_command _ _ _) as [db' rep] eqn:E. simpl in Hok.
  destruct (run_command_refines _ _ _ _ _ _ Ha E) as [[Herr _]|[_ ->]]; [congruence|].
  simpl in E. by injection E as <- _.
Qed.

(** A range read returns exactly the stored entries whose index is in the
    range, in strictly increasing order of index, for every way of giving the
    bounds, as long as the bounds and the stored indices are below the largest
    64-bit integer. *)
Theorem log_read_exact (db : Database) (a : Log) (Ha : represents db a) (Hk : keyed a)
    (start end_ : Bound) (Hs : bound_fits start) (He : bound_fits end_)
    (Hidx : ∀ k e, log_entries a !! k = Some e → (k < U64.max)%N)
    (io : string → option message) (Hio : ∀ op, io op = None) :
  ∃ es, run_command io db (try_get_log_entries start end_) = (db, RepEntries (inr es)) ∧
    StronglySorted N.lt (entry_index <$> es) ∧
    ∀ e, e ∈ es ↔ log_entries a !! entry_index e = Some e ∧
      above start (entry_index e) ∧ below end_ (entry_index e).
Proof using CL.
  exists (spec_range a (range_start start) (range_end end_)). split; [by apply run_read|].
  unfold spec_range. set (f := λ k, (range_start start <=? k)%N && (k <? range_end end_)%N).
  assert (∀ k e, log_entries a !! k = Some e → f k = true ↔ above start k ∧ below end_ k) as Hf.
  { intros k e Hl. apply Hidx in Hl. unfold f. rewrite andb_true_iff, N.leb_le, N.ltb_lt.
    unfold U64.max, U64.modulus in *.
    destruct start, end_; simpl in *; unfold U64.max; rewrite ?U64.add_small by done;
      unfold U64.modulus in *; lia. }
  split.
  - assert (entry_index <$> (table_range f (log_entries a)).*2 = (table_range f (log_entries a)).*1) as ->.
    { rewrite <-list_fmap_compose. apply list_fmap_ext. intros i [k e] Hi. simpl.
      apply list_elem_of_lookup_2 in Hi. apply elem_of_table_range in Hi as [_ Hl]. by apply Hk. }
    apply table_range_sorted.
  - intros e. rewrite list_elem_of_fmap. split.
    + intros ([k e'] & -> & [Hfk Hl]%elem_of_table_range). simpl. rewrite (Hk k e' Hl).
      split; [done|]. by apply (Hf k e').
    + intros (Hl & Hb). exists (entry_index e, e). split; [done|].
      apply elem_of_table_range. split; [|done]. by apply (Hf _ e).
Qed.

(** Seeding keeps the larger vote, if votes are totally ordered. *)
Lemma seed_vote_monotone (a : Log) (v : Vote) :
  (∀ x, vote_ge x x = true) → (∀ x y, vote_ge x y = false → vote_ge y x = true) →
  ∃ w, log_vote (spec_step a (SeedVote v)) = Some w ∧ vote_ge w v = true ∧
    ∀ c, log_vote a = Some c → vote_ge w c = true.
Proof.
  intros Hrefl Htotal. simpl. destruct (log_vote a) as [c|] eqn:E.
  - destruct (vote_ge c v) eqn:G.
    + exists c. rewrite E. split; [done|]. split; [done|]. intros c' [= <-]. apply Hrefl.
    + exists v. split; [done|]. split; [apply Hrefl|]. intros c' [= <-]. by apply Htotal.
  - exists v. split; [done|]. split; [apply Hrefl|done].
Qed.
End refinement.

(** * Witnesses *)

(** A codec that writes blank entries, log ids and votes in unary. *)
Definition unary (n : N) : bytes := repeat Byte.x2a (N.to_nat n).
Definition of_unary (b : bytes) : N := N.of_nat (length b).

#[export] Instance sample_log_codec : LogCodec := {|
  Vote := N;
  encode_entry e := match entry_payload e with
                    | Blank => inr (unary (entry_log_id e : N))
                    | _ => inl [Lit "unsupported"]
                    end;
  decode_entry b := inr (MkEntry (of_unary b : LogId) Blank);
  encode_log_id l := inr (unary l);
  decode_log_id b := inr (of_unary b : LogId);
  encode_vote v := inr (unary v);
  decode_vote b := inr (of_unary b);
  vote_ge a b := (b <=? a)%N;
|}.

Lemma of_to_unary n : of_unary (unary n) = n.
Proof. unfold of_unary, unary. rewrite repeat_length. lia. Qed.

#[export] Instance sample_codec_laws : CodecLaws.
Proof.
  split; simpl.
  - intros [l [| |]] b; simpl; [|done..]. intros [= <-]. by rewrite of_to_unary.
  - intros l b [= <-]. by rewrite of_to_unary.
  - intros v b [= <-]. by rewrite of_to_unary.
Qed.

Definition blank (i : N) : Entry := MkEntry (i : LogId) Blank.
Definition no_faults (op : string) : option message := None.
Definition empty_log : Log := MkLog ∅ None None.
Definition sample_commands : list ((string → option message) * Command) :=
  [(no_faults, Append [blank 3; blank 4; blank 5]);
   (λ op, if bool_decide (op = "commit_purge") then Some [Lit "disk full"] else None,
    Purge (3%N : LogId));
   (no_faults, Truncate (5%N : LogId)); (no_faults, GetEntries 0 10)].

Definition empty_db : Database := MkDatabase None None.

Lemma empty_represents : represents empty_db empty_log.
Proof. split; [|split]; simpl; [intros k|..]; by rewrite !lookup_empty. Qed.

Lemma log_store_refines_witness :
  last (run_actor empty_db sample_commands).2 = Some (RepEntries (inr [blank 3; blank 4])) ∧
  (∃ a', explains empty_log sample_commands.*2 (run_actor empty_db sample_commands).2 a') ∧
  Forall (λ r, is_error_reply r = false)
    (run_actor empty_db [(no_faults, Append [blank 3]); (no_faults, SaveVote (7%N : Vote))]).2.
Proof.
  split; [vm_compute; reflexivity|]. split.
  - destruct (proj1 (log_store_refines empty_db empty_log empty_represents sample_commands)) as (a' & Ha & _).
    exists a'. exact Ha.
  - apply (log_store_refines empty_db empty_log empty_represents).
    repeat constructor; by eexists.
Defined.

Definition sample_log : Log := spec_step empty_log (Append [blank 3; blank 4; blank 5]).
Definition sample_db : Database := (run_command no_faults empty_db (Append [blank 3; blank 4; blank 5])).1.

Lemma sample_represents : represents sample_db sample_log.
Proof.
  destruct (run_command no_faults empty_db (Append [blank 3; blank 4; blank 5])) as [db rep] eqn:E.
  assert (sample_db = db) as -> by (unfold sample_db; by rewrite E).
  destruct (run_command_refines _ _ _ _ _ _ empty_represents E) as [[Herr _]|[H _]]; [|exact H].
  pose proof (run_command_ok no_faults (λ _, eq_refl) empty_db empty_log
    (Append [blank 3; blank 4; blank 5]) empty_represents) as Hok.
  rewrite E in Hok. simpl in Hok. rewrite Hok in Herr; [done|].
  repeat constructor; by eexists.
Qed.

Lemma log_read_exact_witness :
  ∃ es, run_command no_faults sample_db (try_get_log_entries (Excluded 3) (Included 5)) =
      (sample_db, RepEntries (inr es)) ∧
    blank 4 ∈ es.
Proof.
  assert (keyed sample_log) as Hk by (apply spec_step_keyed; intros k e; simpl; by rewrite lookup_empty).
  destruct (log_read_exact sample_db sample_log sample_represents Hk (Excluded 3) (Included 5)
    ltac:(vm_compute; reflexivity) ltac:(vm_compute; reflexivity)) with (io := no_faults) as (es & Hes & _ & Hin).
  - intros k e He. pose proof (Hk k e He) as Hi. simpl in He.
    rewrite !lookup_insert in He. repeat case_decide; simplify_eq; by vm_compute.
  - reflexivity.
  - exists es. split; [exact Hes|]. apply Hin. split; [reflexivity|]. vm_compute. split; [reflexivity|discriminate].
Defined.
