(* ===== verification/Authorization.v ===== *)
(** Repository authorization
    (crates/layerhouse-server/src/auth/authorization.rs, cedar_authorizer.rs and
    the authorization part of auth/mod.rs): the Cedar policy text the server
    assembles for a request, the checks it makes itself before asking Cedar, and
    the permission check the HTTP layer calls.

    The Cedar engine is an interface ([Cedar]): texts go in, a decision comes
    out. What the server relies on, that a policy of [permit] lines allows
    exactly what one of its lines matches, is the class [CedarLaws]. *)

From Stdlib Require Import Ascii.
From stdpp Require Import options.
From S2P Require Import Prelude Errors Digests Manifests Permissions Principals Handles.
From S2P Require Import SyncRuns Types StateMachine RefCounts Samples Reach Content Namespaces.

(** * Identities and requests *)

Inductive TokenType := OidcAccess | PersonalAccess | OciBearer | Session.

Record Actor := MkActor {
  ac_principal : ProviderQualifiedId;
  ac_username : option string;
  ac_display_name : option string;
  ac_email : option string;
  ac_group_ids : list ProviderQualifiedId;
  ac_display_groups : list string;
  ac_scopes : list string;
  ac_namespace_epochs : list NamespaceEpoch;
  ac_token_type : TokenType;
}.

Record AuthIdentity := MkAuthIdentity {
  id_subject : Subject;
  id_principal : ProviderQualifiedId;
  id_username : option string;
  id_display_name : option string;
  id_email : option string;
  id_groups : list string;
  id_group_ids : list ProviderQualifiedId;
  id_scopes : list string;
  id_namespace_epochs : list NamespaceEpoch;
  id_token_type : TokenType;
}.

Definition identity_actor (i : AuthIdentity) : Actor :=
  MkActor (id_principal i) (id_username i) (id_display_name i) (id_email i) (id_group_ids i)
    (id_groups i) (id_scopes i) (id_namespace_epochs i) (id_token_type i).

(** Personal access tokens and OCI bearer tokens carry explicit scopes. *)
Definition uses_explicit_scopes (t : TokenType) : bool :=
  match t with PersonalAccess | OciBearer => true | _ => false end.

Record RepositoryResource := MkRepositoryResource {
  rr_epoch : NamespaceEpoch;
  rr_relative_path : string;
}.

Definition from_repository (repository : string) (namespace : Namespace) : result RepositoryResource :=
  handle ← handle_of repository;
  if negb (bool_decide (handle = ns_handle namespace)) then
    Err (NameInvalid [Lit "repository "; Dbg repository; Lit " is not under namespace ";
           Dbg (ns_handle namespace)])
  else
    relative_path ← ok_or (NameInvalid [Lit "repository "; Dbg repository;
                             Lit " is not under namespace "; Dbg handle])
      (Str.strip_prefix (handle +:+ "/") repository);
    Ok (MkRepositoryResource (epoch_from_namespace namespace) relative_path).

Definition resource_entity_id (r : RepositoryResource) : string :=
  epoch_entity_id (rr_epoch r) +:+ "/" +:+ rr_relative_path r.

Record AuthzRequest := MkAuthzRequest {
  ar_actor : Actor;
  ar_repository : string;
  ar_resource : option RepositoryResource;
  ar_action : OciAction;
}.

Record AuthorizedRepositoryAccess := MkAccess {
  aa_repository : string;
  aa_action : OciAction;
  aa_expected_namespace : option NamespaceEpoch;
}.

Definition record_expected_namespace (access : AuthorizedRepositoryAccess)
    (epochs : list NamespaceEpoch) : list NamespaceEpoch :=
  match aa_expected_namespace access with
  | None => epochs
  | Some epoch => if existsb (λ e, bool_decide (e = epoch)) epochs then epochs else epochs ++ [epoch]
  end.

Inductive AuthzDecision := Allow | Deny.

(** * Cedar entities

    [CedarPrincipal], [CedarGroup], [CedarNamespace] and [CedarRegistry] wrap one
    [CedarEntityId] each. *)

Inductive CedarEntityType := TUser | TGroup | TNamespace | TRepository | TRegistry | TAction.

Definition type_as_str (t : CedarEntityType) : string :=
  match t with
  | TUser => "User" | TGroup => "Group" | TNamespace => "Namespace"
  | TRepository => "Repository" | TRegistry => "Registry" | TAction => "Action"
  end.

Record CedarEntityId := MkEntityId { ce_type : CedarEntityType; ce_id : string }.

#[global] Instance CedarEntityType_eq_dec : EqDecision CedarEntityType.
Proof. solve_decision. Defined.
#[global] Instance CedarEntityId_eq_dec : EqDecision CedarEntityId.
Proof. solve_decision. Defined.

(** [CedarAction::from_oci] and [as_str]. *)
Definition cedar_action_str (a : OciAction) : string :=
  match a with
  | Pull => "pull" | Create => "create" | Update => "update" | Delete => "delete"
  | Admin => "admin"
  end.

Definition from_principal (id : ProviderQualifiedId) : result CedarEntityId :=
  kind ← pqi_kind id;
  Ok (MkEntityId (match kind with KUser => TUser | KGroup => TGroup end) id).

Definition cedar_namespace (epoch : NamespaceEpoch) : CedarEntityId :=
  MkEntityId TNamespace (epoch_entity_id epoch).

Inductive CedarResource :=
  | CRepository (entity : CedarEntityId) (namespace : option CedarEntityId)
  | CRegistry (entity : CedarEntityId).

Definition resource_entity (r : CedarResource) : CedarEntityId :=
  match r with CRepository e _ | CRegistry e => e end.

Definition cedar_repository (r : RepositoryResource) : CedarResource :=
  CRepository (MkEntityId TRepository (epoch_entity_id (rr_epoch r) +:+ "/" +:+ rr_relative_path r))
    (Some (cedar_namespace (rr_epoch r))).

Definition resource_from_request (request : AuthzRequest) : CedarResource :=
  if bool_decide (ar_repository request = "*") && bool_decide (ar_resource request = None) then
    CRegistry (MkEntityId TRegistry "root")
  else match ar_resource request with
  | Some resource => cedar_repository resource
  | None => CRepository (MkEntityId TRepository (ar_repository request)) None
  end.

(** One object of the entity list; its attributes are always empty. *)
Record EntityJson := MkEntityJson { ej_uid : CedarEntityId; ej_parents : list CedarEntityId }.

Record ContextJson := MkContextJson {
  cx_repository : string;
  cx_resource_id : string;
  cx_namespace_id : string;
  cx_token_type : string;
  cx_username : string;
  cx_display_name : string;
  cx_email : string;
  cx_scope_count : N;
  cx_namespace_epoch_count : N;
}.

(** * The Cedar engine, as an interface *)

Class Cedar := {
  Schema : Type;
  Policies : Type;
  Uid : Type;
  Entities : Type;
  CedarContext : Type;
  CedarRequest : Type;
  (** [AUTHORIZATION_SCHEMA.parse()]. *)
  authorization_schema : option Schema;
  (** [serde_json::to_string] of a string. *)
  string_literal : string → option string;
  (** Parsing and strict validation of a policy text. *)
  parse_policies : Schema → string → option Policies;
  parse_uid : string → option Uid;
  entities_from_json : Schema → list EntityJson → option Entities;
  context_from_json : Schema → Uid → ContextJson → option CedarContext;
  request_new : Schema → Uid → Uid → Uid → CedarContext → option CedarRequest;
  is_authorized : CedarRequest → Policies → Entities → bool;
}.

(** [config.policy_sets]. *)
Record ConfigPolicySet := MkConfigPolicySet {
  cps_id : string;
  cps_name : string;
  cps_enabled : bool;
  cps_cedar_text : string;
}.

(** * Checks made before Cedar is asked *)

Definition cross_user_personal_namespace (request : AuthzRequest) : bool :=
  match in_personal_namespace_of (ar_repository request) with
  | None => false
  | Some namespace_user =>
      match ac_username (ar_actor request) with
      | None => true
      | Some username => negb (bool_decide (username = namespace_user))
      end
  end.

Definition unclaimed_write (request : AuthzRequest) : bool :=
  if bool_decide (ar_action request = Pull) || bool_decide (is_Some (ar_resource request))
     || bool_decide (ar_repository request = "*") then false
  else match handle_of (ar_repository request) with
       | Ok handle => negb (is_handle_reserved handle)
       | _ => false
       end.

Definition scope_matches_namespace_epoch (actor_epochs : list NamespaceEpoch) (repo_pattern : string)
    (expected : option NamespaceEpoch) : bool :=
  match expected with
  | None => true
  | Some expected =>
      match handle_of repo_pattern with
      | Ok handle =>
          if is_handle_reserved handle || negb (bool_decide (handle = ep_handle expected)) then true
          else existsb (λ epoch, bool_decide (epoch = expected)) actor_epochs
      | _ => bool_decide (repo_pattern = "*")
      end
  end.

Definition explicit_scope_guard_allows (request : AuthzRequest) : bool :=
  let actor := ar_actor request in
  if negb (uses_explicit_scopes (ac_token_type actor)) then true
  else match matching_scope (ac_scopes actor) (ar_repository request) (ar_action request) with
       | Some (repo_pattern, _) =>
           scope_matches_namespace_epoch (ac_namespace_epochs actor) repo_pattern
             (rr_epoch <$> ar_resource request)
       | None => false
       end.

(** [implied_actions]: the repository actions an allowed one covers. *)
Definition implied_actions (allowed : OciAction) : list OciAction :=
  filter (λ requested, action_matches allowed requested = true) [Pull; Create; Update; Delete].

Definition token_type_name (t : TokenType) : string :=
  match t with
  | OidcAccess => "oidc_access" | PersonalAccess => "personal_access"
  | OciBearer => "oci_bearer" | Session => "session"
  end.

(** [i64::try_from(len).unwrap_or(i64::MAX)]. *)
Definition len_as_i64 (len : nat) : N :=
  if bool_decide (N.of_nat len < 2 ^ 63)%N then N.of_nat len else (2 ^ 63 - 1)%N.

Definition namespace_context_id (resource : CedarResource) : string :=
  match resource with
  | CRepository _ (Some namespace) => ce_id namespace
  | _ => ""
  end.

Definition context_json (request : AuthzRequest) : ContextJson :=
  let resource := resource_from_request request in
  let actor := ar_actor request in
  MkContextJson (ar_repository request) (ce_id (resource_entity resource))
    (namespace_context_id resource) (token_type_name (ac_token_type actor))
    (default "" (ac_username actor)) (default "" (ac_display_name actor))
    (default "" (ac_email actor)) (len_as_i64 (length (ac_scopes actor)))
    (len_as_i64 (length (ac_namespace_epochs actor))).

(** * Entities of a request *)

Definition group_parents (group_ids : list ProviderQualifiedId) : result (list CedarEntityId) :=
  foldl (λ acc id,
    parents ← acc;
    kind ← pqi_kind id;
    if bool_decide (kind = KGroup) then
      group ← from_principal id;
      Ok (if bool_decide (group ∈ parents) then parents else parents ++ [group])
    else Ok parents) (Ok []) group_ids.

(** [CedarEntitySet::from_request] and [build], up to the JSON decoder. *)
Definition entity_list (request : AuthzRequest) (resource : CedarResource)
    : result (list EntityJson) :=
  principal ← from_principal (ac_principal (ar_actor request));
  parents ← group_parents (ac_group_ids (ar_actor request));
  let resources :=
    match resource with
    | CRepository entity (Some namespace) =>
        [MkEntityJson namespace []; MkEntityJson entity [namespace]]
    | CRepository entity None => [MkEntityJson entity []]
    | CRegistry entity => [MkEntityJson entity []]
    end in
  Ok (MkEntityJson principal parents :: ((λ g, MkEntityJson g []) <$> parents) ++ resources).

(** * Policies and decisions *)

Section decisions.
Context `{SJ : SerdeJson, OR : Openraft, EX : Externals, CE : !Cedar}.

(** The [String] errors of this layer only reach the log; they are
    kept as internal errors. *)
Definition or_failed {A} (what : string) (o : option A) : result A :=
  ok_or (Internal [Lit what]) o.

Definition cedar_string_literal (value : string) : result string :=
  or_failed "invalid Cedar string literal" (string_literal value).

Definition policy_ref (e : CedarEntityId) : result string :=
  lit ← cedar_string_literal (ce_id e); Ok (type_as_str (ce_type e) +:+ "::" +:+ lit).

Definition entity_uid (e : CedarEntityId) : result Uid :=
  text ← policy_ref e; or_failed "invalid Cedar entity uid" (parse_uid text).

Definition newline : string := String "010" "".

Definition append_permit (policy principal : string) (action : OciAction) (resource : string)
    : result string :=
  action ← cedar_string_literal (cedar_action_str action);
  Ok (policy +:+ "permit(" +:+ principal +:+ ", action == Action::" +:+ action +:+ ", " +:+ resource
        +:+ ");" +:+ newline).

Definition append_permits_for_actions (policy principal : string) (allowed : OciAction)
    (resource : string) : result string :=
  foldl (λ acc action, policy ← acc; append_permit policy principal action resource) (Ok policy)
    (implied_actions allowed).

Definition namespace_policy_expr (epoch : NamespaceEpoch) : result string :=
  r ← policy_ref (cedar_namespace epoch); Ok ("resource in " +:+ r).

Definition append_namespace_owner_policies (policy provider : string) (owner : Owner)
    (epoch : NamespaceEpoch) : result string :=
  match owner with
  | OwnerOrg _ => Ok policy
  | OwnerUser subject =>
      id ← ProviderQualifiedId_new provider KUser subject;
      entity ← from_principal id;
      r ← policy_ref entity;
      resource ← namespace_policy_expr epoch;
      append_permits_for_actions policy ("principal == " +:+ r) Delete resource
  end.

Definition append_namespace_grant_policies (policy : string) (grant : NamespaceGrant)
    (epoch : NamespaceEpoch) : result string :=
  match ng_grantee grant with
  | GranteeGroup id =>
      entity ← from_principal id;
      r ← policy_ref entity;
      resource ← namespace_policy_expr epoch;
      append_permits_for_actions policy ("principal in " +:+ r) (ng_action grant) resource
  | GranteeUser id =>
      entity ← from_principal id;
      r ← policy_ref entity;
      resource ← namespace_policy_expr epoch;
      append_permits_for_actions policy ("principal == " +:+ r) (ng_action grant) resource
  | GranteePublic => Ok policy
  end.

Definition append_explicit_scope_policies (policy : string) (request : AuthzRequest)
    (resource : CedarResource) : result string :=
  let actor := ar_actor request in
  if negb (uses_explicit_scopes (ac_token_type actor)) then Ok policy
  else match matching_scope (ac_scopes actor) (ar_repository request) (ar_action request) with
       | None => Ok policy
       | Some (_, allowed_action) =>
           entity ← from_principal (ac_principal actor);
           r ← policy_ref entity;
           resource ← policy_ref (resource_entity resource);
           append_permits_for_actions policy ("principal == " +:+ r) allowed_action
             ("resource == " +:+ resource)
       end.

Definition end_line (policy : string) : string :=
  if Str.ends_with newline policy then policy else policy +:+ newline.

Definition append_enabled_policy_texts (policy : string) (texts : list string) : string :=
  foldl (λ policy text, end_line (end_line policy +:+ text)) policy texts.

(** The states of the store at the reads of one authorization. *)
Record Reads := MkReads {
  rd_namespace : StateMachineData;
  rd_repository : StateMachineData;
  rd_policy_namespace : StateMachineData;
  rd_grants : StateMachineData;
  rd_policy_sets : StateMachineData;
}.
Definition at_once (d : StateMachineData) : Reads := MkReads d d d d d.

Definition list_namespace_grants (d : StateMachineData) (handle : string) : list NamespaceGrant :=
  from_option btree_values [] (sm_namespace_grants d !! handle).
Definition list_policy_sets (d : StateMachineData) : list PolicySet :=
  btree_values (sm_policy_sets d).

Definition policy_for_request (config : list ConfigPolicySet) (request : AuthzRequest) (rd : Reads)
    : result string :=
  let resource := resource_from_request request in
  policy ←
    match ar_resource request with
    | None => Ok ""
    | Some repository_resource =>
        let epoch := rr_epoch repository_resource in
        match sm_namespaces (rd_policy_namespace rd) !! ep_handle epoch with
        | None => Ok ""
        | Some namespace =>
            if bool_decide (epoch_from_namespace namespace = epoch) then
              policy ← append_namespace_owner_policies "" (pqi_provider (ac_principal (ar_actor request)))
                         (ns_owner namespace) epoch;
              foldl (λ acc grant, policy ← acc; append_namespace_grant_policies policy grant epoch)
                (Ok policy) (list_namespace_grants (rd_grants rd) (ep_handle epoch))
            else Ok ""
        end
    end;
  let policy := append_enabled_policy_texts policy
    (cps_cedar_text <$> filter (λ p, cps_enabled p = true) config) in
  policy ← append_explicit_scope_policies policy request resource;
  Ok (append_enabled_policy_texts policy
    (ps_cedar_text <$> filter (λ p, ps_enabled p = true) (list_policy_sets (rd_policy_sets rd)))).

(** [cedar_decision_with_schema]. *)
Definition cedar_decision_with_schema (policy_src : string) (request : AuthzRequest)
    : result AuthzDecision :=
  schema ← or_failed "invalid Cedar authorization schema" authorization_schema;
  policy_set ← or_failed "invalid Cedar authorization policy" (parse_policies schema policy_src);
  if cross_user_personal_namespace request then Ok Deny
  else if unclaimed_write request then Ok Deny
  else if negb (explicit_scope_guard_allows request) then Ok Deny
  else if in_personal_namespace (ac_username (ar_actor request)) (ar_repository request) then Ok Allow
  else
    let resource := resource_from_request request in
    objects ← entity_list request resource;
    entities ← or_failed "invalid Cedar authorization entities" (entities_from_json schema objects);
    principal ← from_principal (ac_principal (ar_actor request));
    principal_uid ← entity_uid principal;
    action_uid ← entity_uid (MkEntityId TAction (cedar_action_str (ar_action request)));
    resource_uid ← entity_uid (resource_entity resource);
    context ← or_failed "invalid Cedar authorization context"
                (context_from_json schema action_uid (context_json request));
    cedar_request ← or_failed "invalid Cedar authorization request"
                (request_new schema principal_uid action_uid resource_uid context);
    Ok (if is_authorized cedar_request policy_set entities then Allow else Deny).

(** [cedar_decision]: every failure denies. *)
Definition cedar_decision (policy_src : string) (request : AuthzRequest) : result AuthzDecision :=
  match cedar_decision_with_schema policy_src request with
  | Ok d => Ok d
  | Err _ => Ok Deny
  | Panic => Panic
  end.

(** [CedarRepositoryAuthorizer::authorize]. *)
Definition authorize (config : list ConfigPolicySet) (request : AuthzRequest) (rd : Reads)
    : result AuthzDecision :=
  policy ← policy_for_request config request rd; cedar_decision policy request.

Definition cedar_authorization_decision (config : list ConfigPolicySet) (request : AuthzRequest)
    (rd : Reads) : result AuthzDecision :=
  match authorize config request rd with
  | Ok d => Ok d
  | Err _ => Ok Deny
  | Panic => Panic
  end.

(** * [AuthService]: permission checks *)

Definition repository_resource_context (repository : string) (action : OciAction) (rd : Reads)
    : result (option NamespaceEpoch * option RepositoryResource) :=
  match handle_of repository with
  | Ok handle =>
      if is_handle_reserved handle then Ok (None, None)
      else match sm_namespaces (rd_namespace rd) !! handle with
      | None =>
          if negb (bool_decide (action = Pull))
          then Err (Denied [Lit "namespace "; Dbg handle; Lit " is not claimed"])
          else Ok (None, None)
      | Some ns =>
          resource ← from_repository repository ns;
          Ok (Some (epoch_from_namespace ns), Some resource)
      end
  | _ => Ok (None, None)
  end.

Definition is_public_pull (d : StateMachineData) (repository : string) : bool :=
  match sm_repositories d !! repository with
  | Some repo => match repo_visibility repo with PublicPull => true | Private => false end
  | None => false
  end.

Definition authorize_repository (config : list ConfigPolicySet) (identity : AuthIdentity)
    (repository : string) (action : OciAction) (rd : Reads)
    : result (AuthzDecision * AuthorizedRepositoryAccess) :=
  '(expected_namespace, resource) ← repository_resource_context repository action rd;
  if bool_decide (action = Pull) && is_public_pull (rd_repository rd) repository then
    Ok (Allow, MkAccess repository action expected_namespace)
  else
    let request := MkAuthzRequest (identity_actor identity) repository resource action in
    decision ← cedar_authorization_decision config request rd;
    Ok (decision, MkAccess repository action expected_namespace).

Definition check_permission (config : list ConfigPolicySet) (identity : AuthIdentity)
    (repository : string) (action : OciAction) (rd : Reads) : result AuthorizedRepositoryAccess :=
  '(decision, access) ← authorize_repository config identity repository action rd;
  match decision with
  | Allow => Ok access
  | Deny => Err (Denied [Lit "access denied for repository "; Disp repository])
  end.

Definition check_admin_access (config : list ConfigPolicySet) (identity : AuthIdentity) (rd : Reads)
    : result () :=
  _ ← check_permission config identity "*" Admin rd; Ok ().

Definition check_public_pull (repository : string) (d : StateMachineData) : result () :=
  _ ← handle_of repository;
  if is_public_pull d repository then Ok ()
  else Err (Denied [Lit "repository "; Dbg repository; Lit " is not public"]).

End decisions.

(** * What an allowed access implies *)

Section guards.
Context `{SJ : SerdeJson, OR : Openraft, EX : Externals, CE : !Cedar}.
Implicit Types (rd : Reads) (request : AuthzRequest).

Lemma cedar_decision_Allow policy request :
  cedar_decision policy request = Ok Allow →
  cross_user_personal_namespace request = false ∧ unclaimed_write request = false ∧
  explicit_scope_guard_allows request = true.
Proof.
  unfold cedar_decision. destruct (cedar_decision_with_schema policy request) as [[]| |] eqn:E;
    try done. intros _. unfold cedar_decision_with_schema in E.
  apply result_bind_Ok in E as (s & _ & E). apply result_bind_Ok in E as (p & _ & E).
  destruct (cross_user_personal_namespace request); [done|].
  destruct (unclaimed_write request); [done|].
  by destruct (explicit_scope_guard_allows request).
Qed.

Lemma authorization_Allow config request rd :
  cedar_authorization_decision config request rd = Ok Allow →
  cross_user_personal_namespace request = false ∧ explicit_scope_guard_allows request = true.
Proof.
  unfold cedar_authorization_decision. destruct (authorize config request rd) as [[]| |] eqn:E; try done.
  intros _. apply result_bind_Ok in E as (p & _ & (? & _ & ?)%cedar_decision_Allow). done.
Qed.

Lemma check_permission_Ok config identity repository action rd access :
  check_permission config identity repository action rd = Ok access ↔
  ∃ expected resource,
    repository_resource_context repository action rd = Ok (expected, resource) ∧
    access = MkAccess repository action expected ∧
    (action = Pull ∧ is_public_pull (rd_repository rd) repository = true ∨
     ¬ (action = Pull ∧ is_public_pull (rd_repository rd) repository = true) ∧
     cedar_authorization_decision config
       (MkAuthzRequest (identity_actor identity) repository resource action) rd = Ok Allow).
Proof.
  unfold check_permission, authorize_repository. split.
  - intros ([dec acc] & ([ex res] & Hc & E)%result_bind_Ok & Hd)%result_bind_Ok.
    exists ex, res. split; [done|]. simpl in E.
    destruct (bool_decide (action = Pull) && is_public_pull (rd_repository rd) repository) eqn:Hp.
    + apply andb_true_iff in Hp as [Ha%bool_decide_eq_true Hp]. simplify_eq/=. auto.
    + apply result_bind_Ok in E as (dec' & Hdec & [= <- <-]). destruct dec'; [|done].
      injection Hd as <-. split; [done|]. right. split; [|done].
      intros [Ha Hv]. by rewrite (bool_decide_eq_true_2 _ Ha), Hv in Hp.
  - intros (ex & res & -> & -> & [[Ha Hv]|[Hn Hd]]); simpl.
    + by rewrite (bool_decide_eq_true_2 _ Ha), Hv.
    + destruct (bool_decide (action = Pull) && is_public_pull (rd_repository rd) repository) eqn:Hp;
        [done|]. by rewrite Hd.
Qed.

(** The namespace context of a repository under an unreserved handle. *)
Lemma resource_context_Ok repository action rd expected resource h :
  repository_resource_context repository action rd = Ok (expected, resource) →
  handle_of repository = Ok h → is_handle_reserved h = false →
  (action ≠ Pull → is_Some (sm_namespaces (rd_namespace rd) !! h)) ∧
  expected = epoch_from_namespace <$> sm_namespaces (rd_namespace rd) !! h ∧
  rr_epoch <$> resource = expected ∧
  ∀ n, sm_namespaces (rd_namespace rd) !! h = Some n → ns_handle n = h.
Proof.
  unfold repository_resource_context. intros E Hh Hr. rewrite Hh, Hr in E.
  destruct (sm_namespaces (rd_namespace rd) !! h) as [n|] eqn:En.
  - apply result_bind_Ok in E as (r & Hf & [= <- <-]). unfold from_repository in Hf.
    rewrite Hh in Hf. simpl in Hf. case_bool_decide as Hn; [|done]. simpl in Hf.
    apply result_bind_Ok in Hf as (path & _ & [= <-]). simpl.
    split; [by eexists|]. split; [done|]. split; [done|]. by intros n' [= <-].
  - case_bool_decide as Ha; [|done]. simpl in E. injection E as <- <-. done.
Qed.

(** A token with explicit scopes needs one of them that covers the access, and, if
    that scope names the namespace, its live generation. *)
Lemma explicit_scope_needed config identity repository action rd access :
  check_permission config identity repository action rd = Ok access →
  ¬ (action = Pull ∧ is_public_pull (rd_repository rd) repository = true) →
  uses_explicit_scopes (id_token_type identity) = true →
  ∃ scope p a, scope ∈ id_scopes identity ∧ parse_scope scope = Some (p, a) ∧
    pattern_covers p repository ∧ covers a action ∧
    ∀ h n, handle_of repository = Ok h → is_handle_reserved h = false →
      sm_namespaces (rd_namespace rd) !! h = Some n → handle_of p = Ok h →
      epoch_from_namespace n ∈ id_namespace_epochs identity.
Proof.
  intros (ex & res & Hc & -> & [?|[_ [_ Hguard]%authorization_Allow]])%check_permission_Ok Hn Hs; [done|].
  unfold explicit_scope_guard_allows in Hguard. simpl in Hguard. rewrite Hs in Hguard.
  simpl in Hguard. destruct (matching_scope (id_scopes identity) repository action) as [[p a]|] eqn:E;
    [|done]. apply matching_scope_Some in E as (scope & Hin & Hp & Hr%match_repository_covers & Ha).
  exists scope, p, a. repeat (split; [by auto using matches_covers|]).
  intros h n Hh Hres Hns Hhp. destruct (resource_context_Ok _ _ _ _ _ _ Hc Hh Hres) as (_ & -> & Hep & Hnh).
  rewrite Hep, Hns in Hguard. simpl in Hguard. rewrite Hhp, Hres, (Hnh n Hns) in Hguard.
  rewrite bool_decide_eq_true_2 in Hguard by done. simpl in Hguard.
  apply existsb_exists in Hguard as (e & He & <-%bool_decide_eq_true). by apply list_elem_of_In.
Qed.

(** An access is granted only to those the server's own rules admit,
    whatever the policies say. It names the namespace generation that was live
    when it was granted, and a write needs one; unless the repository is public
    and the action a pull, a repository of a user's personal tree is that user's,
    and a token with explicit scopes has one that covers the repository and the
    action and, if that scope names the namespace, the token records its live
    generation. *)
Theorem access_guarded config identity repository action rd access
    (Hok : check_permission config identity repository action rd = Ok access) :
  aa_repository access = repository ∧ aa_action access = action ∧
  (∀ h, handle_of repository = Ok h → is_handle_reserved h = false →
     aa_expected_namespace access = epoch_from_namespace <$> sm_namespaces (rd_namespace rd) !! h ∧
     (action ≠ Pull → is_Some (sm_namespaces (rd_namespace rd) !! h))) ∧
  (action = Pull ∧ is_public_pull (rd_repository rd) repository = true ∨
   (∀ u, in_personal_namespace_of repository = Some u → id_username identity = Some u) ∧
   (uses_explicit_scopes (id_token_type identity) = true →
    ∃ scope p a, scope ∈ id_scopes identity ∧ parse_scope scope = Some (p, a) ∧
      pattern_covers p repository ∧ covers a action ∧
      ∀ h n, handle_of repository = Ok h → is_handle_reserved h = false →
        sm_namespaces (rd_namespace rd) !! h = Some n → handle_of p = Ok h →
        epoch_from_namespace n ∈ id_namespace_epochs identity)).
Proof.
  pose proof (explicit_scope_needed config identity repository action rd access Hok) as Hscope.
  apply check_permission_Ok in Hok as (ex & res & Hc & -> & Hd). simpl.
  split; [done|]. split; [done|]. split.
  { intros h Hh Hr. by destruct (resource_context_Ok _ _ _ _ _ _ Hc Hh Hr) as (? & ? & _). }
  destruct Hd as [?|[Hn [Hcross Hguard]%authorization_Allow]]; [by left|right]. split; [|by apply Hscope].
  intros u Hu. unfold cross_user_personal_namespace in Hcross. simpl in Hcross. rewrite Hu in Hcross.
  destruct (id_username identity) as [v|]; [|done]. by case_bool_decide; simplify_eq/=.
Qed.

(** C6: authorization and commit agree: a write that is committed, however many
    log entries after it was authorized, is committed under the very claim it was
    authorized for, with the same generation and owner; if the handle was released
    in between, even if it was claimed again, the write fails. *)
Theorem write_commits_under_authorized_claim config identity repository action rd access d1 h now req d2 resp
    (Hauth : check_permission config identity repository action rd = Ok access)
    (Hh : handle_of repository = Ok h) (Hr : is_handle_reserved h = false)
    (H0 : rtc step StateMachineData_default (rd_namespace rd))
    (H1 : rtc step (rd_namespace rd) d1)
    (Htarget : content_target req = Some (repository, aa_expected_namespace access))
    (Happ : apply_request now d1 req = (d2, Some resp)) (Hresp : is_error_response resp = false) :
  ∃ n, sm_namespaces (rd_namespace rd) !! h = Some n ∧ sm_namespaces d1 !! h = Some n ∧
    aa_expected_namespace access = Some (epoch_from_namespace n).
Proof.
  apply check_permission_Ok in Hauth as (ex & res & Hc & -> & _). simpl in *.
  destruct (resource_context_Ok _ _ _ _ _ _ Hc Hh Hr) as (_ & -> & _ & Hnh).
  destruct (steps_ns _ _ H0 init_ns_inv) as [Hinv0 _].
  destruct (require_expected_namespace d1 repository
    (epoch_from_namespace <$> sm_namespaces (rd_namespace rd) !! h)) as [[]|err|] eqn:G.
  - apply require_expected_namespace_Ok in G as (h' & Hh' & G). rewrite Hh in Hh'. injection Hh' as <-.
    destruct G as [?|(_ & n' & Hn' & Hex)]; [congruence|].
    destruct (sm_namespaces (rd_namespace rd) !! h) as [n|] eqn:En; [|done]. simpl in Hex.
    exists n. split; [done|]. split; [|done].
    destruct (steps_claim _ _ h n H1 Hinv0 En) as [?|[_ Hdead]]; [done|].
    destruct (Hdead n' Hn'). unfold epoch_from_namespace in Hex. by injection Hex.
  - rewrite (content_request_guard now d1 req _ _ _ Htarget G) in Happ. injection Happ as _ <-.
    by destruct err.
  - by apply require_expected_namespace_no_panic in G.
Qed.
End guards.
