(* ===== verification/Decisions.v ===== *)
(** Who may do what, when only the server's own policies apply
    (crates/layerhouse-server/src/auth/cedar_authorizer.rs): the policy text
    assembled for a request is read back as a list of permits, and, with Cedar's
    documented meaning of permits, the permission check is characterised by
    ownership, grants and token scopes. *)

From Stdlib Require Import Ascii.
From stdpp Require Import options.
From S2P Require Import Prelude Errors Digests Manifests Permissions Principals Handles.
From S2P Require Import SyncRuns Types StateMachine RefCounts Samples Reach Content Namespaces.
From S2P Require Import Authorization.

(** * Permits *)

Inductive PrincipalScope := PrincipalIs (e : CedarEntityId) | PrincipalIn (e : CedarEntityId).
Inductive ResourceScope := ResourceIs (e : CedarEntityId) | ResourceIn (e : CedarEntityId).

Record Permit := MkPermit {
  pm_principal : PrincipalScope;
  pm_action : OciAction;
  pm_resource : ResourceScope;
}.

(** Visible ASCII without quote and backslash: JSON and Cedar agree on how to
    write such a string. *)
Definition plain_char (a : ascii) : bool :=
  graphic a && negb (bool_decide (a = ascii_of_nat 34)) && negb (bool_decide (a = ascii_of_nat 92)).
Definition plain (s : string) : bool := Str.all plain_char s.
Definition entity_wf (t : CedarEntityType) (e : CedarEntityId) : Prop :=
  ce_type e = t ∧ plain (ce_id e) = true.

Definition permit_wf (p : Permit) : Prop :=
  match pm_principal p with
  | PrincipalIs e => entity_wf TUser e
  | PrincipalIn e => entity_wf TGroup e
  end ∧
  pm_action p ≠ Admin ∧
  match pm_resource p with
  | ResourceIs e => entity_wf TRepository e
  | ResourceIn e => entity_wf TNamespace e
  end.

(** Cedar's [==] and [in]: an entity is in itself and in its parents. *)
Definition permit_matches (principal : CedarEntityId) (groups : list CedarEntityId)
    (action : OciAction) (resource namespace : CedarEntityId) (p : Permit) : bool :=
  match pm_principal p with
  | PrincipalIs e => bool_decide (e = principal)
  | PrincipalIn e => bool_decide (e = principal ∨ e ∈ groups)
  end &&
  bool_decide (pm_action p = action) &&
  match pm_resource p with
  | ResourceIs e => bool_decide (e = resource)
  | ResourceIn e => bool_decide (e = resource ∨ e = namespace)
  end.

Section laws.
Context `{CE : Cedar}.

Definition entity_text (e : CedarEntityId) : string :=
  type_as_str (ce_type e) +:+ "::" +:+ default "" (string_literal (ce_id e)).
Definition principal_text (p : PrincipalScope) : string :=
  match p with
  | PrincipalIs e => "principal == " +:+ entity_text e
  | PrincipalIn e => "principal in " +:+ entity_text e
  end.
Definition resource_text (r : ResourceScope) : string :=
  match r with
  | ResourceIs e => "resource == " +:+ entity_text e
  | ResourceIn e => "resource in " +:+ entity_text e
  end.
Definition permit_text (p : Permit) : string :=
  "permit(" +:+ principal_text (pm_principal p) +:+ ", action == Action::"
    +:+ default "" (string_literal (cedar_action_str (pm_action p))) +:+ ", "
    +:+ resource_text (pm_resource p) +:+ ");" +:+ newline.
Definition policy_text (ps : list Permit) : string := foldr (λ p acc, permit_text p +:+ acc) "" ps.

(** The entities of a request for a repository of a namespace. *)
Definition request_objects (principal : CedarEntityId) (groups : list CedarEntityId)
    (resource namespace : CedarEntityId) : list EntityJson :=
  MkEntityJson principal groups :: ((λ g, MkEntityJson g []) <$> groups) ++
    [MkEntityJson namespace []; MkEntityJson resource [namespace]].

(** The engine accepts the texts and answers [b]. *)
Definition evaluates (schema : Schema) (text : string) (principal : CedarEntityId)
    (action : OciAction) (resource : CedarEntityId) (objects : list EntityJson) (c : ContextJson)
    (b : bool) : Prop :=
  ∃ policies entities pu au ru ctx req,
    parse_policies schema text = Some policies ∧
    entities_from_json schema objects = Some entities ∧
    entity_uid principal = Ok pu ∧
    entity_uid (MkEntityId TAction (cedar_action_str action)) = Ok au ∧
    entity_uid resource = Ok ru ∧
    context_from_json schema au c = Some ctx ∧
    request_new schema pu au ru ctx = Some req ∧
    is_authorized req policies entities = b.

(** Cedar's documented behaviour on the fragment the server generates: the schema
    parses, plain strings have a literal, and a policy made of permits allows a
    request exactly when one of them matches it. *)
Class CedarLaws := {
  law_schema : is_Some authorization_schema;
  law_literal s : plain s = true → is_Some (string_literal s);
  law_permits schema ps principal groups action resource namespace c :
    authorization_schema = Some schema → Forall permit_wf ps →
    entity_wf TUser principal → Forall (entity_wf TGroup) groups → action ≠ Admin →
    entity_wf TRepository resource → entity_wf TNamespace namespace →
    evaluates schema (policy_text ps) principal action resource
      (request_objects principal groups resource namespace) c
      (existsb (permit_matches principal groups action resource namespace) ps);
}.
End laws.

#[global] Arguments CedarLaws : clear implicits.
#[global] Arguments CedarLaws CE : rename.

(** * The assembled policy as a list of permits *)

Lemma plain_app s t : plain (s +:+ t) = plain s && plain t.
Proof. apply all_app. Qed.

Lemma qualified_plain p k id : provider_wf p → plain (qualified p k id) = true.
Proof.
  intros Hp%provider_wf_chars. unfold qualified. rewrite !plain_app.
  assert (plain p = true) as ->.
  { apply (all_impl provider_tail_char); [|done].
    intros [[] [] [] [] [] [] [] []]; intros E; try discriminate E; reflexivity. }
  assert (plain (escape_local_id id) = true) as ->.
  { apply (all_impl escaped_char); [|apply escape_chars].
    intros [[] [] [] [] [] [] [] []]; intros E; try discriminate E; reflexivity. }
  by destruct k.
Qed.

(** Principals as the server stores them: what [new] and [parse] return. *)
Definition principal_wf (k : PrincipalKind) (q : ProviderQualifiedId) : Prop :=
  ∃ p id, canonical q p k id.

Lemma principal_wf_kind k q : principal_wf k q → pqi_kind q = Ok k.
Proof.
  intros (p & id & -> & Hp & _). unfold pqi_kind. rewrite qualified_split by done. simpl.
  by rewrite kind_from_as_str.
Qed.

Definition kind_type (k : PrincipalKind) : CedarEntityType :=
  match k with KUser => TUser | KGroup => TGroup end.

Lemma principal_entity k q :
  principal_wf k q →
  from_principal q = Ok (MkEntityId (kind_type k) q) ∧ entity_wf (kind_type k) (MkEntityId (kind_type k) q).
Proof.
  intros Hq. unfold from_principal. rewrite (principal_wf_kind k q Hq). split; [by destruct k|].
  split; [done|]. destruct Hq as (p & id & -> & Hp & _). simpl. by apply qualified_plain.
Qed.

Section texts.
Context `{SJ : SerdeJson, OR : Openraft, EX : Externals, CE : !Cedar, CL : !CedarLaws CE}.

Lemma policy_text_app ps qs : policy_text (ps ++ qs) = policy_text ps +:+ policy_text qs.
Proof. induction ps as [|p ps IH]; [done|]. simpl. by rewrite IH, app_assoc_str. Qed.

Lemma literal_ok s : plain s = true → cedar_string_literal s = Ok (default "" (string_literal s)).
Proof using CL.
  intros [x Hx]%law_literal. unfold cedar_string_literal, or_failed. by rewrite Hx.
Qed.

Lemma policy_ref_ok t e : entity_wf t e → policy_ref e = Ok (entity_text e).
Proof using CL. intros [_ Hp]. unfold policy_ref. by rewrite literal_ok. Qed.

Lemma append_permit_text policy p :
  append_permit policy (principal_text (pm_principal p)) (pm_action p) (resource_text (pm_resource p)) =
    Ok (policy +:+ permit_text p).
Proof using CL. unfold append_permit. rewrite literal_ok; [done|]. by destruct (pm_action p). Qed.

Definition ladder (who : PrincipalScope) (allowed : OciAction) (what : ResourceScope) : list Permit :=
  (λ a, MkPermit who a what) <$> implied_actions allowed.

Lemma append_permits_text policy who allowed what :
  append_permits_for_actions policy (principal_text who) allowed (resource_text what) =
    Ok (policy +:+ policy_text (ladder who allowed what)).
Proof using CL.
  unfold append_permits_for_actions, ladder. generalize (implied_actions allowed) as l. intros l.
  revert policy. induction l as [|a l IH]; intros policy; simpl; [by rewrite app_nil_r_str|].
  pose proof (append_permit_text policy (MkPermit who a what)) as Hp. simpl in Hp.
  rewrite Hp, IH. by rewrite app_assoc_str.
Qed.

(** ** Owner, grants and scopes *)

Definition owner_permits (provider : string) (owner : Owner) (epoch : NamespaceEpoch) : list Permit :=
  match owner with
  | OwnerOrg _ => []
  | OwnerUser s => ladder (PrincipalIs (MkEntityId TUser (qualified provider KUser s))) Delete
                     (ResourceIn (cedar_namespace epoch))
  end.

Definition grant_permits (epoch : NamespaceEpoch) (g : NamespaceGrant) : list Permit :=
  match ng_grantee g with
  | GranteeGroup id => ladder (PrincipalIn (MkEntityId TGroup id)) (ng_action g)
                         (ResourceIn (cedar_namespace epoch))
  | GranteeUser id => ladder (PrincipalIs (MkEntityId TUser id)) (ng_action g)
                        (ResourceIn (cedar_namespace epoch))
  | GranteePublic => []
  end.

Definition scope_permits (request : AuthzRequest) (resource : CedarResource) : list Permit :=
  let actor := ar_actor request in
  if negb (uses_explicit_scopes (ac_token_type actor)) then []
  else match matching_scope (ac_scopes actor) (ar_repository request) (ar_action request) with
       | None => []
       | Some (_, allowed) => ladder (PrincipalIs (MkEntityId TUser (ac_principal actor))) allowed
                                (ResourceIs (resource_entity resource))
       end.

(** The grantee of a stored grant is a parsed id of the right kind. *)
Definition grantee_wf (g : NamespaceGrant) : Prop :=
  match ng_grantee g with
  | GranteeGroup id => principal_wf KGroup id
  | GranteeUser id => principal_wf KUser id
  | GranteePublic => True
  end.

Lemma owner_text policy provider owner epoch :
  provider_wf provider → (∀ s, owner = OwnerUser s → s ≠ "") →
  entity_wf TNamespace (cedar_namespace epoch) →
  append_namespace_owner_policies policy provider owner epoch =
    Ok (policy +:+ policy_text (owner_permits provider owner epoch)).
Proof using CL.
  intros Hp Ho He. destruct owner as [s|o]; simpl; [|by rewrite app_nil_r_str].
  unfold ProviderQualifiedId_new. rewrite ProviderId_new_wf by done. simpl.
  assert (PrincipalLocalId_new s = Ok s) as ->.
  { unfold PrincipalLocalId_new. pose proof (Ho s eq_refl). by destruct s. }
  assert (principal_wf KUser (qualified provider KUser s)) as Hq by by exists provider, s; split; [|auto].
  destruct (principal_entity KUser _ Hq) as [Ef Hwf]. simpl in *. rewrite Ef. simpl.
  unfold namespace_policy_expr. rewrite (policy_ref_ok _ _ Hwf), (policy_ref_ok _ _ He). simpl.
  apply (append_permits_text policy (PrincipalIs _) Delete (ResourceIn _)).
Qed.

Lemma grant_text policy g epoch :
  grantee_wf g → entity_wf TNamespace (cedar_namespace epoch) →
  append_namespace_grant_policies policy g epoch =
    Ok (policy +:+ policy_text (grant_permits epoch g)).
Proof using CL.
  intros Hg He. unfold append_namespace_grant_policies, grant_permits, grantee_wf in *.
  destruct (ng_grantee g) as [id|id|]; [..|by rewrite app_nil_r_str];
    destruct (principal_entity _ _ Hg) as [Ef Hwf]; rewrite Ef; simpl in *;
    unfold namespace_policy_expr; rewrite (policy_ref_ok _ _ Hwf), (policy_ref_ok _ _ He); simpl.
  - apply (append_permits_text policy (PrincipalIn _) _ (ResourceIn _)).
  - apply (append_permits_text policy (PrincipalIs _) _ (ResourceIn _)).
Qed.

Lemma grants_text policy gs epoch :
  Forall grantee_wf gs → entity_wf TNamespace (cedar_namespace epoch) →
  foldl (λ acc grant, policy ← acc; append_namespace_grant_policies policy grant epoch) (Ok policy) gs =
    Ok (policy +:+ policy_text (gs ≫= grant_permits epoch)).
Proof using CL.
  intros Hgs He. revert policy. induction Hgs as [|g gs Hg _ IH]; intros policy;
    [by rewrite app_nil_r_str|].
  rewrite bind_cons, policy_text_app. cbn [foldl mbind result_bind].
  rewrite grant_text, IH by done. by rewrite app_assoc_str.
Qed.

Lemma scope_text policy request resource :
  principal_wf KUser (ac_principal (ar_actor request)) →
  entity_wf TRepository (resource_entity resource) →
  append_explicit_scope_policies policy request resource =
    Ok (policy +:+ policy_text (scope_permits request resource)).
Proof using CL.
  intros Hp Hr. unfold append_explicit_scope_policies, scope_permits.
  destruct (uses_explicit_scopes _); simpl; [|by rewrite app_nil_r_str].
  destruct (matching_scope _ _ _) as [[p a]|]; [|by rewrite app_nil_r_str].
  destruct (principal_entity _ _ Hp) as [Ef Hwf]. rewrite Ef. simpl in *.
  rewrite (policy_ref_ok _ _ Hwf), (policy_ref_ok _ _ Hr). simpl.
  apply (append_permits_text policy (PrincipalIs _) _ (ResourceIs _)).
Qed.
End texts.

(** * Matching permits *)

Lemma ladder_matches principal groups action resource namespace who allowed what :
  action ≠ Admin →
  existsb (permit_matches principal groups action resource namespace) (ladder who allowed what) = true ↔
  covers allowed action ∧
  permit_matches principal groups action resource namespace (MkPermit who action what) = true.
Proof.
  intros Ha. rewrite existsb_exists. unfold ladder, implied_actions. split.
  - intros (p & (a & -> & Hin)%list_elem_of_In%list_elem_of_fmap & Hm).
    apply list_elem_of_filter in Hin as [Hin _].
    assert (a = action) as ->.
    { unfold permit_matches in Hm. simpl in Hm. rewrite !andb_true_iff in Hm.
      by destruct Hm as [[_ ?%bool_decide_eq_true] _]. }
    split; [by apply matches_covers|done].
  - intros [Hc%covers_matches Hm]. eexists. split; [|exact Hm].
    apply list_elem_of_In, list_elem_of_fmap. exists action. split; [done|].
    apply list_elem_of_filter. split; [done|]. destruct action; try done; set_solver.
Qed.

Lemma ladder_wf who allowed what :
  match who with PrincipalIs e => entity_wf TUser e | PrincipalIn e => entity_wf TGroup e end →
  match what with ResourceIs e => entity_wf TRepository e | ResourceIn e => entity_wf TNamespace e end →
  Forall permit_wf (ladder who allowed what).
Proof.
  intros Hwho Hwhat. apply Forall_forall. intros p (a & -> & Ha)%list_elem_of_fmap.
  apply list_elem_of_filter in Ha as [_ Ha]. split; [done|]. split; [simpl; set_solver|done].
Qed.

Lemma group_parents_ok ids :
  Forall (principal_wf KGroup) ids →
  ∃ l, group_parents ids = Ok l ∧ ∀ e, e ∈ l ↔ ∃ id, id ∈ ids ∧ e = MkEntityId TGroup id.
Proof.
  intros Hids. unfold group_parents.
  assert (∀ acc, ∃ l, foldl (λ acc id, parents ← acc; kind ← pqi_kind id;
      if bool_decide (kind = KGroup) then group ← from_principal id;
        Ok (if bool_decide (group ∈ parents) then parents else parents ++ [group])
      else Ok parents) (Ok acc) ids = Ok l ∧
    ∀ e, e ∈ l ↔ e ∈ acc ∨ ∃ id, id ∈ ids ∧ e = MkEntityId TGroup id) as H.
  { induction Hids as [|id ids Hid _ IH]; intros acc; [exists acc; set_solver|]. cbn [foldl mbind result_bind].
    rewrite (principal_wf_kind _ _ Hid). simpl. rewrite (proj1 (principal_entity _ _ Hid)). simpl.
    destruct (IH (if bool_decide (MkEntityId TGroup id ∈ acc) then acc else acc ++ [MkEntityId TGroup id]))
      as (l & Hl & He). exists l. split; [done|]. intros e. rewrite He. case_bool_decide; set_solver. }
  destruct (H []) as (l & Hl & He). exists l. split; [done|]. intros e. rewrite He. set_solver.
Qed.

Lemma pretty_go_plain x s : plain s = true → plain (pretty_N_go x s) = true.
Proof.
  revert s. induction (N.lt_wf_0 x) as [x _ IH]. intros s Hs.
  destruct (decide (x = 0%N)) as [->|Hx]; [by rewrite pretty_N_go_0|].
  rewrite pretty_N_go_step by lia. apply IH; [apply N.div_lt; lia|]. unfold plain in *. cbn [Str.all].
  rewrite Hs, andb_true_r. unfold pretty_N_char. repeat case_match; reflexivity.
Qed.

Lemma of_u64_plain n : plain (Str.of_u64 n) = true.
Proof.
  unfold Str.of_u64, pretty, pretty_N. case_decide; [reflexivity|]. by apply pretty_go_plain.
Qed.

Lemma epoch_plain e : plain (ep_handle e) = true → entity_wf TNamespace (cedar_namespace e).
Proof.
  intros H. split; [done|]. simpl. unfold epoch_entity_id. rewrite !plain_app, H.
  by rewrite of_u64_plain.
Qed.

(** Repositories under an unreserved handle are in nobody's personal tree. *)
Lemma unreserved_not_personal repository h :
  handle_of repository = Ok h → is_handle_reserved h = false →
  in_personal_namespace_of repository = None ∧ ∀ u, in_personal_namespace u repository = false.
Proof.
  intros (rest & -> & _ & Hc)%handle_of_Ok Hr.
  assert (∀ r, h +:+ "/" +:+ rest ≠ "users/" +:+ r) as Hne.
  { intros r Heq. assert (h = "users") as ->; [|done].
    assert (Str.split_once "/" (h +:+ "/" +:+ rest) = Some (h, rest)) as E1
      by by apply split_once_Some.
    assert (Str.split_once "/" ("users/" +:+ r) = Some ("users", r)) as E2
      by by apply split_once_Some.
    rewrite Heq, E2 in E1. by injection E1. }
  split.
  - unfold in_personal_namespace_of. destruct (Str.strip_prefix "users/" _) as [r|] eqn:E; [|done].
    apply strip_prefix_Some in E. by destruct (Hne r).
  - intros u. unfold in_personal_namespace. destruct (nonempty_username u) as [v|]; [|done].
    destruct (Str.starts_with _ _) eqn:E; [|done]. apply starts_with_true in E as [r Hs].
    destruct (Hne (v +:+ "/" +:+ r)). rewrite Hs. by rewrite !app_assoc_str.
Qed.

Lemma filter_none {A} (P : A → Prop) `{∀ x, Decision (P x)} (l : list A) :
  (∀ x, x ∈ l → ¬ P x) → filter P l = [].
Proof.
  induction l as [|x l IH]; intros Hl; [done|]. rewrite filter_cons_False by (apply Hl; set_solver).
  apply IH. set_solver.
Qed.

(** * The decision *)

(** Only the server's own policies are in force. *)
Definition no_extra_policies `{SJ : SerdeJson, OR : Openraft} (config : list ConfigPolicySet)
    (d : StateMachineData) : Prop :=
  Forall (λ p, cps_enabled p = false) config ∧
  ∀ id p, sm_policy_sets d !! id = Some p → ps_enabled p = false.

(** Identities as the token validation builds them. *)
Definition identity_wf (i : AuthIdentity) : Prop :=
  principal_wf KUser (id_principal i) ∧ Forall (principal_wf KGroup) (id_group_ids i).

(** A namespace as claims and grants build it. *)
Definition namespace_wf `{SJ : SerdeJson, OR : Openraft} (d : StateMachineData) (h : string)
    (n : Namespace) : Prop :=
  sm_namespaces d !! h = Some n ∧ ns_handle n = h ∧ is_handle_reserved h = false ∧
  (∀ s, ns_owner n = OwnerUser s → s ≠ "") ∧
  ∀ id g, grant_at d h id = Some g → grantee_wf g.

(** The rule for what is not public: the first scope of a token with explicit scopes that
    covers the request must be the full wildcard or be backed by the live
    generation among the token's; any other identity must own the namespace or
    hold a grant that covers the action. *)
Definition may_access `{SJ : SerdeJson, OR : Openraft} (d : StateMachineData) (h : string)
    (n : Namespace) (i : AuthIdentity) (repository : string) (action : OciAction) : Prop :=
  if uses_explicit_scopes (id_token_type i) then
    ∃ p, first_scope (id_scopes i) repository action p ∧
      (p = "*" ∨ epoch_from_namespace n ∈ id_namespace_epochs i)
  else
    (∃ s, ns_owner n = OwnerUser s ∧ id_principal i = qualified (pqi_provider (id_principal i)) KUser s) ∨
    (∃ id g, grant_at d h id = Some g ∧ covers (ng_action g) action ∧
       (ng_grantee g = GranteeUser (id_principal i) ∨
        ∃ gid, gid ∈ id_group_ids i ∧ ng_grantee g = GranteeGroup gid)).

(** A pattern that covers a repository is the full wildcard or names its namespace. *)
Lemma pattern_handle p repo h :
  pattern_covers p repo → handle_of repo = Ok h → p = "*" ∨ handle_of p = Ok h.
Proof.
  intros Hp%match_repository_covers%match_repository_iff Hh.
  destruct Hp as [->|[[-> _]|(q & -> & Hq)]]; [by left|by right|]. right.
  apply handle_of_Ok in Hh as (rest & Hrepo & Hne & Hh). apply handle_of_Ok. destruct Hq as [->|[r ->]].
  - exists (rest +:+ "/*"). subst q. rewrite !app_assoc_str. split; [done|]. by destruct rest.
  - assert (Str.split_once "/" (q +:+ "/" +:+ r) = Some (h, rest)) as E by (by apply split_once_Some).
    destruct (Str.split_once "/" q) as [[x y]|] eqn:Eq.
    + apply split_once_Some in Eq as [-> Hx].
      rewrite (proj2 (split_once_Some "/" _ x (y +:+ "/" +:+ r))) in E
        by (split; [by rewrite !app_assoc_str|done]).
      injection E as <- _. exists (y +:+ "/*"). rewrite !app_assoc_str. split; [done|]. by destruct y.
    + apply split_once_None in Eq. rewrite (proj2 (split_once_Some "/" _ q r)) in E by done.
      injection E as <- _. by exists "*".
Qed.

(** On a scope that covers a request, the guard on generations is as simple as this. *)
Lemma scope_epoch_iff epochs p repo h n :
  pattern_covers p repo → handle_of repo = Ok h → ns_handle n = h → is_handle_reserved h = false →
  scope_matches_namespace_epoch epochs p (Some (epoch_from_namespace n)) = true ↔
  p = "*" ∨ epoch_from_namespace n ∈ epochs.
Proof.
  intros Hp Hh Hn Hr. unfold scope_matches_namespace_epoch.
  destruct (pattern_handle p repo h Hp Hh) as [->|Ehp]; [by split; [left|]|]. rewrite Ehp, Hr.
  rewrite (bool_decide_eq_true_2 (h = _)) by done. cbn [negb orb].
  rewrite existsb_exists. setoid_rewrite bool_decide_eq_true. setoid_rewrite <-list_elem_of_In.
  split; [intros (e & ? & <-); by right|]. intros [->|?]; [done|by eauto].
Qed.

Section exact.
Context `{SJ : SerdeJson, OR : Openraft, EX : Externals, CE : !Cedar, CL : !CedarLaws CE}.
Context (d : StateMachineData) (config : list ConfigPolicySet) (identity : AuthIdentity).
Context (repository : string) (action : OciAction) (h : string) (n : Namespace).
Context (Hext : no_extra_policies config d) (Hid : identity_wf identity) (Hns : namespace_wf d h n).
Context (Hh : handle_of repository = Ok h) (Hplain : plain repository = true) (Hact : action ≠ Admin).

Definition the_resource : RepositoryResource :=
  MkRepositoryResource (epoch_from_namespace n)
    (default "" (Str.strip_prefix (h +:+ "/") repository)).
Definition the_request : AuthzRequest :=
  MkAuthzRequest (identity_actor identity) repository (Some the_resource) action.
Definition the_namespace : CedarEntityId := cedar_namespace (epoch_from_namespace n).
Definition the_repository : CedarEntityId := resource_entity (cedar_repository the_resource).
Definition the_permits : list Permit :=
  owner_permits (pqi_provider (id_principal identity)) (ns_owner n) (epoch_from_namespace n) ++
  (list_namespace_grants d h ≫= grant_permits (epoch_from_namespace n)) ++
  scope_permits the_request (cedar_repository the_resource).

Lemma the_strip : Str.strip_prefix (h +:+ "/") repository = Some (rr_relative_path the_resource).
Proof using Hh.
  apply handle_of_Ok in Hh as (rest & E & _). simpl. rewrite E.
  by rewrite <-app_assoc_str, strip_prefix_app.
Qed.

Lemma the_path : repository = h +:+ "/" +:+ rr_relative_path the_resource.
Proof using Hh. pose proof the_strip as H%strip_prefix_Some. by rewrite app_assoc_str in H. Qed.

Lemma resource_context_is :
  repository_resource_context repository action (at_once d) =
    Ok (Some (epoch_from_namespace n), Some the_resource).
Proof using Hh Hns.
  destruct Hns as (Hn & Hnh & Hr & _). unfold repository_resource_context.
  rewrite Hh, Hr. simpl. rewrite Hn. unfold from_repository. rewrite Hh. simpl.
  rewrite bool_decide_eq_true_2 by done. simpl.
  by rewrite the_strip.
Qed.

Lemma handle_plain : plain h = true ∧ plain (rr_relative_path the_resource) = true.
Proof using Hh Hplain.
  pose proof the_path as Hp. rewrite Hp, !plain_app, !andb_true_iff in Hplain. tauto.
Qed.

Lemma the_namespace_wf : entity_wf TNamespace the_namespace.
Proof using Hh Hplain Hns.
  destruct Hns as (_ & Hnh & _). apply epoch_plain. simpl. rewrite Hnh. apply handle_plain.
Qed.

Lemma the_repository_wf : entity_wf TRepository the_repository.
Proof using Hh Hplain Hns.
  split; [done|]. simpl. rewrite !plain_app. destruct the_namespace_wf as [_ Hw]. simpl in Hw.
  rewrite Hw. simpl. apply handle_plain.
Qed.

Lemma provider_of_identity : provider_wf (pqi_provider (id_principal identity)).
Proof using Hid.
  destruct Hid as [(p & s & -> & Hp & _) _]. unfold pqi_provider. by rewrite qualified_split.
Qed.

Lemma elem_of_grants g : g ∈ list_namespace_grants d h ↔ ∃ id, grant_at d h id = Some g.
Proof.
  unfold list_namespace_grants, grant_at, nm_grant_at. simpl.
  destruct (sm_namespace_grants d !! h) as [gs|]; simpl; [apply elem_of_btree_values|].
  split; [intros []%not_elem_of_nil|by intros [? ?]].
Qed.

Lemma grants_wf_list : Forall grantee_wf (list_namespace_grants d h).
Proof using Hns.
  apply Forall_forall. intros g [id Hg]%elem_of_grants. destruct Hns as (_ & _ & _ & _ & Hw).
  by apply (Hw id).
Qed.

Lemma no_stored_texts : filter (λ p, ps_enabled p = true) (list_policy_sets d) = [].
Proof using Hext.
  destruct Hext as [_ Hs]. apply filter_none. intros p [id Hp]%elem_of_btree_values.
  by rewrite (Hs id p Hp).
Qed.

Lemma no_config_texts : filter (λ p, cps_enabled p = true) config = [].
Proof using Hext.
  destruct Hext as [Hc _]. apply filter_none. intros p Hp. rewrite Forall_forall in Hc.
  by rewrite (Hc p Hp).
Qed.

Lemma resource_is : resource_from_request the_request = cedar_repository the_resource.
Proof.
  unfold resource_from_request. cbn [ar_resource the_request].
  rewrite (bool_decide_eq_false_2 (Some _ = None)) by done. by rewrite andb_false_r.
Qed.

Lemma policy_is : policy_for_request config the_request (at_once d) = Ok (policy_text the_permits).
Proof using Hext Hid Hns Hh Hplain CL.
  unfold policy_for_request. cbn [ar_resource the_request rr_epoch the_resource at_once
    rd_policy_namespace rd_grants rd_policy_sets].
  pose proof Hns as (Hn & Hnh & _ & Ho & _).
  assert (ep_handle (epoch_from_namespace n) = h) as -> by exact Hnh. rewrite Hn.
  rewrite bool_decide_eq_true_2 by done.
  rewrite (owner_text "" _ _ _ provider_of_identity Ho the_namespace_wf). cbn [mbind result_bind].
  rewrite (grants_text _ _ _ grants_wf_list the_namespace_wf). cbn [mbind result_bind].
  rewrite no_config_texts, no_stored_texts. cbn [fmap list_fmap append_enabled_policy_texts foldl].
  rewrite resource_is.
  unfold append_enabled_policy_texts. cbn [foldl]. rewrite scope_text; [|exact (proj1 Hid)|apply the_repository_wf].
  cbn [mbind result_bind]. unfold the_permits. by rewrite !policy_text_app, !app_assoc_str.
Qed.

Lemma permits_wf : Forall permit_wf the_permits.
Proof using Hid Hns Hh Hplain.
  unfold the_permits. rewrite !Forall_app. split; [|split].
  - pose proof provider_of_identity as Hp. unfold owner_permits. destruct (ns_owner n) as [s|]; [|by constructor].
    apply ladder_wf; [|apply the_namespace_wf]. split; [done|]. by apply qualified_plain.
  - apply Forall_bind. eapply Forall_impl; [apply grants_wf_list|]. intros g Hg.
    change (Forall permit_wf (grant_permits (epoch_from_namespace n) g)).
    unfold grant_permits, grantee_wf in *. destruct (ng_grantee g) as [id|id|]; [..|by constructor];
      (apply ladder_wf; [|apply the_namespace_wf]); by destruct (principal_entity _ _ Hg) as [_ ?].
  - unfold scope_permits. destruct (uses_explicit_scopes _); cbn [negb]; [|by constructor].
    destruct (matching_scope _ _ _) as [[p a]|]; [|by constructor]. apply ladder_wf; [|apply the_repository_wf].
    by destruct (principal_entity _ _ (proj1 Hid)) as [_ ?].
Qed.

Lemma decision_is groups :
  group_parents (id_group_ids identity) = Ok groups →
  (∀ e, e ∈ groups ↔ ∃ id, id ∈ id_group_ids identity ∧ e = MkEntityId TGroup id) →
  cedar_authorization_decision config the_request (at_once d) =
    Ok (if explicit_scope_guard_allows the_request &&
           existsb (permit_matches (MkEntityId TUser (id_principal identity)) groups action
                      the_repository the_namespace) the_permits
        then Allow else Deny).
Proof using Hext Hid Hns Hh Hplain Hact CL.
  intros Hg Hgs. pose proof Hns as (_ & _ & Hr & _).
  destruct (unreserved_not_personal repository h Hh Hr) as [Hpers Hpers'].
  destruct (principal_entity KUser _ (proj1 Hid)) as [Hprin Hprinwf].
  destruct law_schema as [s Hs].
  assert (Forall (entity_wf TGroup) groups) as Hgwf.
  { apply Forall_forall. intros e (id & Hin & ->)%Hgs. destruct Hid as [_ Hids].
    rewrite Forall_forall in Hids. by destruct (principal_entity _ _ (Hids id Hin)) as [_ ?]. }
  destruct (law_permits s the_permits _ groups action _ _ (context_json the_request) Hs permits_wf
    Hprinwf Hgwf Hact the_repository_wf the_namespace_wf)
    as (pol & ents & pu & au & ru & ctx & req & E1 & E2 & E3 & E4 & E5 & E6 & E7 & E8).
  unfold cedar_authorization_decision, authorize. rewrite policy_is. cbn [mbind result_bind].
  unfold cedar_decision, cedar_decision_with_schema, or_failed. rewrite Hs. cbn [ok_or mbind result_bind].
  rewrite E1. cbn [ok_or mbind result_bind].
  assert (cross_user_personal_namespace the_request = false) as ->
    by (unfold cross_user_personal_namespace; simpl; by rewrite Hpers).
  assert (unclaimed_write the_request = false) as ->.
  { unfold unclaimed_write. cbn [ar_resource the_request].
    rewrite (bool_decide_eq_true_2 (is_Some _)) by by eexists. by rewrite orb_true_r. }
  destruct (explicit_scope_guard_allows the_request); [|done]. cbn [negb andb].
  cbn [ar_actor the_request ar_repository identity_actor ac_username]. rewrite Hpers'.
  rewrite resource_is.
  unfold entity_list. cbn [ar_actor the_request identity_actor ac_principal ac_group_ids].
  rewrite Hprin, Hg. cbn [mbind result_bind cedar_repository].
  change (MkEntityJson _ groups :: _) with
    (request_objects (MkEntityId (kind_type KUser) (id_principal identity)) groups the_repository the_namespace).
  rewrite E2. cbn [ok_or mbind result_bind]. rewrite E3. cbn [mbind result_bind].
  change (ar_action the_request) with action. rewrite E4. cbn [mbind result_bind].
  change (resource_entity _) with the_repository. rewrite E5. cbn [mbind result_bind].
  rewrite E6. cbn [ok_or mbind result_bind]. rewrite E7. cbn [ok_or mbind result_bind].
  rewrite E8. cbn [kind_type]. by destruct (existsb _ _).
Qed.

Lemma namespace_matches groups who :
  permit_matches (MkEntityId TUser (id_principal identity)) groups action the_repository the_namespace
    (MkPermit who action (ResourceIn the_namespace)) =
  match who with
  | PrincipalIs e => bool_decide (e = MkEntityId TUser (id_principal identity))
  | PrincipalIn e => bool_decide (e = MkEntityId TUser (id_principal identity) ∨ e ∈ groups)
  end.
Proof.
  unfold permit_matches. simpl. rewrite (bool_decide_eq_true_2 (action = action)) by done.
  rewrite (bool_decide_eq_true_2 (_ ∨ _)) by by right. by rewrite !andb_true_r.
Qed.

Lemma owner_matches groups :
  existsb (permit_matches (MkEntityId TUser (id_principal identity)) groups action the_repository
    the_namespace) (owner_permits (pqi_provider (id_principal identity)) (ns_owner n)
      (epoch_from_namespace n)) = true ↔
  ∃ s, ns_owner n = OwnerUser s ∧
    id_principal identity = qualified (pqi_provider (id_principal identity)) KUser s.
Proof using Hact.
  unfold owner_permits. destruct (ns_owner n) as [s|o]; [|split; [done|by intros (? & ? & _)]].
  rewrite (ladder_matches _ _ _ _ _ _ _ _ Hact), namespace_matches, bool_decide_eq_true. split.
  - intros [_ [= Hq]]. by exists s.
  - intros (s' & [= <-] & Hq). split; [|by rewrite <-Hq].
    apply matches_covers. clear -Hact. by destruct action.
Qed.

Lemma grants_match groups :
  (∀ e, e ∈ groups ↔ ∃ id, id ∈ id_group_ids identity ∧ e = MkEntityId TGroup id) →
  existsb (permit_matches (MkEntityId TUser (id_principal identity)) groups action the_repository
    the_namespace) (list_namespace_grants d h ≫= grant_permits (epoch_from_namespace n)) = true ↔
  ∃ id g, grant_at d h id = Some g ∧ covers (ng_action g) action ∧
    (ng_grantee g = GranteeUser (id_principal identity) ∨
     ∃ gid, gid ∈ id_group_ids identity ∧ ng_grantee g = GranteeGroup gid).
Proof using Hact.
  intros Hgs. rewrite existsb_exists.
  assert (∀ g, existsb (permit_matches (MkEntityId TUser (id_principal identity)) groups action
      the_repository the_namespace) (grant_permits (epoch_from_namespace n) g) = true ↔
    covers (ng_action g) action ∧ (ng_grantee g = GranteeUser (id_principal identity) ∨
      ∃ gid, gid ∈ id_group_ids identity ∧ ng_grantee g = GranteeGroup gid)) as Hg.
  { intros g. unfold grant_permits. destruct (ng_grantee g) as [gid|gid|];
      [rewrite (ladder_matches _ _ _ _ _ _ _ _ Hact), namespace_matches, bool_decide_eq_true..|].
    - rewrite Hgs. naive_solver.
    - naive_solver.
    - simpl. naive_solver. }
  split.
  - intros (p & Hp%list_elem_of_In & Hm). apply list_elem_of_bind in Hp as (g & Hin & Hgin).
    apply elem_of_grants in Hgin as [id Hid']. exists id, g. split; [done|]. apply Hg.
    apply existsb_exists. exists p. split; [by apply list_elem_of_In|done].
  - intros (id & g & Hid' & Hc). apply Hg, existsb_exists in Hc as (p & Hin%list_elem_of_In & Hm).
    exists p. split; [|done]. apply list_elem_of_In, list_elem_of_bind. exists g.
    split; [done|]. apply elem_of_grants. by exists id.
Qed.

Lemma decision_matches groups :
  (∀ e, e ∈ groups ↔ ∃ id, id ∈ id_group_ids identity ∧ e = MkEntityId TGroup id) →
  explicit_scope_guard_allows the_request &&
  existsb (permit_matches (MkEntityId TUser (id_principal identity)) groups action the_repository
    the_namespace) the_permits = true ↔ may_access d h n identity repository action.
Proof using Hact Hh Hns.
  intros Hgs. unfold the_permits, may_access, explicit_scope_guard_allows, scope_permits.
  cbn [ar_actor the_request identity_actor ac_token_type ac_scopes ar_repository ar_action
    ac_namespace_epochs ar_resource fmap option_fmap option_map rr_epoch the_resource ac_principal].
  rewrite andb_true_iff, !existsb_app, !orb_true_iff, owner_matches, (grants_match groups Hgs).
  destruct (uses_explicit_scopes (id_token_type identity)); cbn [negb existsb].
  - destruct (matching_scope (id_scopes identity) repository action) as [[p a]|] eqn:E.
    + rewrite (ladder_matches _ _ _ _ _ _ _ _ Hact).
      pose proof E as (_ & _ & _ & Hp%match_repository_covers & Ha%matches_covers)%matching_scope_Some.
      destruct Hns as (_ & Hnh & Hres & _).
      rewrite (scope_epoch_iff _ p repository h n Hp Hh Hnh Hres). setoid_rewrite <-matching_scope_first.
      split; [intros [Hs _]; by eauto|]. intros (p' & [a' E'] & Hs). rewrite E in E'. simplify_eq.
      split; [done|]. right. right. split; [done|].
      unfold permit_matches. simpl. by rewrite !bool_decide_eq_true_2.
    + setoid_rewrite <-matching_scope_first. rewrite E. naive_solver.
  - naive_solver.
Qed.

Lemma permission_is :
  is_ok (check_permission config identity repository action (at_once d)) = true ↔
  action = Pull ∧ is_public_pull d repository = true ∨
  cedar_authorization_decision config the_request (at_once d) = Ok Allow.
Proof using Hns Hh.
  pose proof resource_context_is as Hctx. split.
  - destruct (check_permission config identity repository action (at_once d)) as [access| |] eqn:E;
      [intros _|done..]. apply check_permission_Ok in E as (ex & res & Hc & _ & [Hp|[_ Hd]]); [by left|].
    rewrite Hctx in Hc. injection Hc as <- <-. by right.
  - intros Hd. assert (check_permission config identity repository action (at_once d) =
      Ok (MkAccess repository action (Some (epoch_from_namespace n)))) as ->; [|done].
    apply check_permission_Ok. eexists _, _. split; [exact Hctx|]. split; [done|].
    destruct (decide (action = Pull ∧ is_public_pull d repository = true)); [by left|].
    destruct Hd; [done|by right].
Qed.
End exact.

(** C5: with only the server's own policies in force, on a repository of a live,
    unreserved namespace whose name needs no quoting in policy text, the check of a
    repository action allows nothing but pulls of public repositories and what the rule
    allows: to a token with explicit scopes only what a scope of it covers, and then only
    if that scope is the full wildcard or the token records the live generation of the
    namespace; to any other identity only what it has as the namespace's owner or by a
    grant, to itself or a group of it, that covers the action. It does allow all of that to
    identities without explicit scopes, and all pulls to tokens with them. *)
Theorem builtin_authorization_exact `{SJ : SerdeJson, OR : Openraft, EX : Externals, CE : !Cedar,
      CL : !CedarLaws CE}
    (d : StateMachineData) (config : list ConfigPolicySet) (identity : AuthIdentity)
    (repository : string) (action : OciAction) (h : string) (n : Namespace)
    (Hext : no_extra_policies config d) (Hid : identity_wf identity) (Hns : namespace_wf d h n)
    (Hh : handle_of repository = Ok h) (Hplain : plain repository = true) (Hact : action ≠ Admin) :
  let allowed := is_ok (check_permission config identity repository action (at_once d)) = true in
  let rule := action = Pull ∧ is_public_pull d repository = true ∨ may_access d h n identity repository action in
  (allowed → rule) ∧
  (uses_explicit_scopes (id_token_type identity) = false ∨ action = Pull → rule → allowed).
Proof.
  cbn zeta. destruct (group_parents_ok _ (proj2 Hid)) as (groups & Hg & Hgs).
  pose proof (decision_is d config identity repository action h n Hext Hid Hns Hh Hplain Hact groups Hg Hgs)
    as Hdec.
  rewrite (permission_is d config identity repository action h n Hns Hh), Hdec.
  rewrite <-(decision_matches d identity repository action h n Hns Hh Hact groups Hgs).
  destruct (_ && _); naive_solver.
Qed.

(** * A concrete engine for the fragment *)

Definition quote_char : ascii := ascii_of_nat 34.
Definition newline_char : ascii := "010"%char.

Definition parse_action (s : string) : option OciAction :=
  if bool_decide (s = "pull") then Some Pull
  else if bool_decide (s = "create") then Some Create
  else if bool_decide (s = "update") then Some Update
  else if bool_decide (s = "delete") then Some Delete
  else None.

Definition parse_permit (line : string) : option Permit :=
  match Str.split quote_char line with
  | [a; pid; b; act; c; rid; e] =>
      who ← (if bool_decide (a = "permit(principal == User::")
             then Some (PrincipalIs (MkEntityId TUser pid))
             else if bool_decide (a = "permit(principal in Group::")
             then Some (PrincipalIn (MkEntityId TGroup pid)) else None);
      action ← parse_action act;
      what ← (if bool_decide (c = ", resource in Namespace::")
              then Some (ResourceIn (MkEntityId TNamespace rid))
              else if bool_decide (c = ", resource == Repository::")
              then Some (ResourceIs (MkEntityId TRepository rid)) else None);
      if bool_decide (b = ", action == Action::") && bool_decide (e = ");")
      then Some (MkPermit who action what) else None
  | _ => None
  end.

Definition parse_entity (text : string) : option CedarEntityId :=
  match Str.split quote_char text with
  | [t; id; _] =>
      if bool_decide (t = "User::") then Some (MkEntityId TUser id)
      else if bool_decide (t = "Repository::") then Some (MkEntityId TRepository id)
      else if bool_decide (t = "Action::") then Some (MkEntityId TAction id)
      else None
  | _ => None
  end.

(** The lines that are not blank. *)
Definition policy_lines (text : string) : list string := filter (λ l, l ≠ "") (Str.split newline_char text).

Definition parents_of (objects : list EntityJson) (e : CedarEntityId) : list CedarEntityId :=
  from_option ej_parents [] (head (filter (λ o, ej_uid o = e) objects)).

#[export] Instance sample_cedar : Cedar := {|
  Schema := ();
  Policies := list Permit;
  Uid := CedarEntityId;
  Entities := list EntityJson;
  CedarContext := ();
  CedarRequest := CedarEntityId * CedarEntityId * CedarEntityId;
  authorization_schema := Some ();
  string_literal s := Some (quote +:+ s +:+ quote);
  parse_policies _ text := mapM parse_permit (policy_lines text);
  parse_uid := parse_entity;
  entities_from_json _ objects := Some objects;
  context_from_json _ _ _ := Some ();
  request_new _ p a r _ := Some (p, a, r);
  is_authorized req policies objects :=
    let '(p, a, r) := req in
    match parse_action (ce_id a) with
    | Some action =>
        existsb (permit_matches p (parents_of objects p) action r (default r (head (parents_of objects r))))
          policies
    | None => false
    end;
|}.

Lemma plain_no_quote s : plain s = true → Str.contains_char quote_char s = false.
Proof. by apply all_not_contains. Qed.
Lemma plain_no_newline s : plain s = true → Str.contains_char newline_char s = false.
Proof. by apply all_not_contains. Qed.

Definition permit_line (p : Permit) : string :=
  "permit(" +:+ principal_text (pm_principal p) +:+ ", action == Action::"
    +:+ default "" (string_literal (cedar_action_str (pm_action p))) +:+ ", "
    +:+ resource_text (pm_resource p) +:+ ");".

Lemma permit_text_line p : permit_text p = permit_line p +:+ String newline_char "".
Proof. unfold permit_text, permit_line, newline. by rewrite !app_assoc_str. Qed.

Lemma split_quoted x id y :
  Str.contains_char quote_char x = false → plain id = true →
  Str.split quote_char (x +:+ quote +:+ id +:+ quote +:+ y) = x :: id :: Str.split quote_char y.
Proof.
  intros Hx Hid%plain_no_quote. change quote with (String quote_char "").
  etrans; [apply (split_app quote_char x (id +:+ String quote_char y) Hx)|].
  f_equal. exact (split_app quote_char id y Hid).
Qed.

Definition who_prefix (w : PrincipalScope) : string :=
  match w with PrincipalIs _ => "permit(principal == User::" | PrincipalIn _ => "permit(principal in Group::" end.
Definition what_prefix (w : ResourceScope) : string :=
  match w with ResourceIs _ => ", resource == Repository::" | ResourceIn _ => ", resource in Namespace::" end.
Definition who_id (w : PrincipalScope) : string := match w with PrincipalIs e | PrincipalIn e => ce_id e end.
Definition what_id (w : ResourceScope) : string := match w with ResourceIs e | ResourceIn e => ce_id e end.

Lemma permit_line_pieces p :
  permit_wf p →
  permit_line p = who_prefix (pm_principal p) +:+ quote +:+ who_id (pm_principal p) +:+ quote
    +:+ ", action == Action::" +:+ quote +:+ cedar_action_str (pm_action p) +:+ quote
    +:+ what_prefix (pm_resource p) +:+ quote +:+ what_id (pm_resource p) +:+ quote +:+ ");".
Proof.
  destruct p as [who a what]. intros (Hw & _ & Hr). simpl in Hw, Hr.
  unfold permit_line, principal_text, resource_text, entity_text. simpl.
  destruct who as [[tw w]|[tw w]], what as [[tr r]|[tr r]]; destruct Hw as [Ht _], Hr as [Ht' _];
    simpl in *; subst; simpl; by rewrite !app_assoc_str.
Qed.

Lemma parse_permit_line p : permit_wf p → parse_permit (permit_line p) = Some p.
Proof.
  intros Hwf. unfold parse_permit. rewrite permit_line_pieces by done.
  destruct p as [who a what]. destruct Hwf as (Hw & Ha & Hr). simpl in *.
  assert (plain (who_id who) = true) as Hpw by by destruct who; destruct Hw.
  assert (plain (what_id what) = true) as Hpr by by destruct what; destruct Hr.
  rewrite split_quoted; [|by destruct who|done].
  rewrite split_quoted; [|done|by destruct a].
  rewrite split_quoted; [|by destruct what|done]. cbn -[parse_action bool_decide].
  assert (parse_action (cedar_action_str a) = Some a) as -> by by destruct a.
  destruct who as [[tw w]|[tw w]], what as [[tr r]|[tr r]]; destruct Hw as [Ht _], Hr as [Ht' _];
    simpl in *; subst; reflexivity.
Qed.

Lemma permit_line_no_newline p : permit_wf p → Str.contains_char newline_char (permit_line p) = false.
Proof.
  intros Hwf. rewrite permit_line_pieces by done. destruct p as [who a what].
  destruct Hwf as (Hw & _ & Hr). simpl in *. rewrite !contains_char_app.
  rewrite (plain_no_newline (who_id who)) by by destruct who; destruct Hw.
  rewrite (plain_no_newline (what_id what)) by by destruct what; destruct Hr.
  by destruct who, a, what.
Qed.

Lemma parse_policy_text ps :
  Forall permit_wf ps → mapM parse_permit (policy_lines (policy_text ps)) = Some ps.
Proof.
  induction 1 as [|p ps Hp _ IH]; [done|]. unfold policy_lines in *.
  change (policy_text (p :: ps)) with (permit_text p +:+ policy_text ps).
  rewrite permit_text_line, app_assoc_str.
  change (String newline_char "" +:+ policy_text ps) with (String newline_char (policy_text ps)).
  rewrite (split_app newline_char (permit_line p) (policy_text ps) (permit_line_no_newline p Hp)).
  rewrite filter_cons_True by done. revert IH. generalize (filter (λ l, l ≠ "") (Str.split newline_char (policy_text ps))).
  intros m IH. simpl. rewrite parse_permit_line by done. simpl. by rewrite IH.
Qed.

Lemma parse_entity_ok e :
  plain (ce_id e) = true → ce_type e = TUser ∨ ce_type e = TRepository ∨ ce_type e = TAction →
  entity_uid e = Ok e.
Proof.
  intros Hp Ht. unfold entity_uid, policy_ref. simpl. unfold parse_entity.
  assert (Str.split quote_char (type_as_str (ce_type e) +:+ "::" +:+ quote +:+ ce_id e +:+ quote) =
    [type_as_str (ce_type e) +:+ "::"; ce_id e; ""]) as Hs.
  { rewrite <-(app_nil_r_str quote) at 2. rewrite <-app_assoc_str. rewrite split_quoted; [done| |done].
    by destruct (ce_type e). }
  simpl in Hs |- *. rewrite Hs. destruct e as [t id]. simpl in *. by destruct Ht as [->|[->| ->]].
Qed.

Lemma parents_of_request principal groups resource namespace :
  entity_wf TUser principal → Forall (entity_wf TGroup) groups →
  entity_wf TRepository resource → entity_wf TNamespace namespace →
  let objects := request_objects principal groups resource namespace in
  parents_of objects principal = groups ∧ parents_of objects resource = [namespace].
Proof.
  intros [Hp _] Hg [Hr _] [Hn _]. unfold parents_of, request_objects. cbn zeta. split.
  - by rewrite filter_cons_True.
  - rewrite filter_cons_False by (simpl; intros ->; congruence). rewrite filter_app.
    rewrite (filter_none _ (_ <$> groups)).
    + simpl. rewrite filter_cons_False by (simpl; intros ->; congruence). by rewrite filter_cons_True.
    + intros o (g & -> & Hin)%list_elem_of_fmap. simpl. intros ->. rewrite Forall_forall in Hg.
      destruct (Hg _ Hin) as [Ht _]. congruence.
Qed.

#[export] Instance sample_cedar_laws : CedarLaws sample_cedar.
Proof.
  split.
  - by eexists.
  - intros s _. by eexists.
  - intros [] ps principal groups action resource namespace c _ Hps Hp Hg Ha Hr Hn.
    destruct (parents_of_request principal groups resource namespace Hp Hg Hr Hn) as [Ep Er].
    eexists ps, _, principal, (MkEntityId TAction (cedar_action_str action)), resource, (), _.
    split; [by apply parse_policy_text|]. split; [reflexivity|].
    split; [apply parse_entity_ok; destruct Hp; auto|].
    split; [apply parse_entity_ok; [by destruct action|auto]|].
    split; [apply parse_entity_ok; destruct Hr; auto|]. split; [done|]. split; [reflexivity|].
    cbn [is_authorized sample_cedar ce_id].
    assert (parse_action (cedar_action_str action) = Some action) as -> by by destruct action.
    by rewrite Ep, Er.
Qed.

(** * Tokens and revoked grants *)

Definition bob : ProviderQualifiedId := "keycloak:user:sub-2".
Definition bob_grant : NamespaceGrant :=
  MkNamespaceGrant "g1" "acme" (GranteeUser bob) Update "bob" "sub-1" 10 "sub-1" 10.
Definition bob_session : AuthIdentity :=
  MkAuthIdentity "sub-2" bob (Some "bob") None None [] [] [] [] Session.
Definition bob_token : AuthIdentity :=
  MkAuthIdentity "sub-2" bob (Some "bob") None None [] [] ["repository:acme/app:pull,push"]
    [MkNamespaceEpoch "acme" 1] PersonalAccess.
Definition granted : StateMachineData :=
  (apply_request 0 claimed (ReqNamespace (PutGrant bob_grant "alice" "why" "a1"))).1.
Definition revoked : StateMachineData :=
  (apply_request 0 granted (ReqNamespace (DeleteGrant "acme" "g1" "sub-1" "alice" "why" 20 "a2"))).1.

(** A personal access token keeps its scopes when the grant behind them is
    revoked: with the grant, a member may push with a session and with the token;
    after the grant is deleted the session is refused and the token still
    accepted, although the token documentation says write scopes are usable only
    while the actor is authorized for the namespace. *)
Theorem token_outlives_grant :
  is_ok (check_permission [] bob_session "acme/app" Update (at_once granted)) = true ∧
  is_ok (check_permission [] bob_token "acme/app" Update (at_once granted)) = true ∧
  grant_at revoked "acme" "g1" = None ∧
  is_ok (check_permission [] bob_session "acme/app" Update (at_once revoked)) = false ∧
  is_ok (check_permission [] bob_token "acme/app" Update (at_once revoked)) = true.
Proof. repeat split; vm_compute; reflexivity. Qed.

Lemma bob_wf : identity_wf bob_session.
Proof.
  split; [|by constructor]. exists "keycloak", "sub-2". split; [reflexivity|]. split; [|done].
  split; [vm_compute; lia|by vm_compute].
Qed.

Lemma acme_wf : namespace_wf granted "acme" (MkNamespace "acme" 1 (OwnerUser "sub-1") "alice" 100).
Proof.
  split; [vm_compute; reflexivity|]. split; [reflexivity|]. split; [reflexivity|]. split.
  - by intros s [= <-].
  - intros id g Hg.
    assert (sm_namespace_grants granted = {[ "acme" := {[ "g1" := bob_grant ]} ]}) as E
      by (vm_compute; reflexivity).
    unfold grant_at, nm_grant_at in Hg. cbn [nm_namespace_grants namespace_maps] in Hg.
    rewrite E, lookup_singleton_eq in Hg. cbn [mbind option_bind] in Hg.
    apply lookup_singleton_Some in Hg as [_ <-].
    unfold grantee_wf. simpl. exact (proj1 bob_wf).
Qed.

Lemma builtin_authorization_exact_witness :
  is_ok (check_permission [] bob_session "acme/app" Create (at_once granted)) = true ∧
  may_access granted "acme" (MkNamespace "acme" 1 (OwnerUser "sub-1") "alice" 100) bob_session
    "acme/app" Create.
Proof.
  assert (may_access granted "acme" (MkNamespace "acme" 1 (OwnerUser "sub-1") "alice" 100) bob_session
    "acme/app" Create) as H.
  { right. exists "g1", bob_grant. split; [vm_compute; reflexivity|]. split; [constructor|by left]. }
  split; [|exact H].
  apply (builtin_authorization_exact granted [] bob_session "acme/app" Create "acme"
    (MkNamespace "acme" 1 (OwnerUser "sub-1") "alice" 100)).
  - split; [constructor|]. assert (sm_policy_sets granted = ∅) as -> by (vm_compute; reflexivity).
    intros id p Hp. by rewrite lookup_empty in Hp.
  - exact bob_wf.
  - exact acme_wf.
  - reflexivity.
  - reflexivity.
  - discriminate.
  - by left.
  - right. exact H.
Defined.

(** * Witnesses of the guard theorems *)

Lemma access_guarded_witness :
  ∃ access, check_permission [] bob_token "acme/app" Update (at_once granted) = Ok access ∧
    aa_expected_namespace access = Some (MkNamespaceEpoch "acme" 1).
Proof.
  destruct (check_permission [] bob_token "acme/app" Update (at_once granted)) as [access| |] eqn:E;
    [|vm_compute in E; discriminate E..].
  exists access. split; [reflexivity|].
  destruct (access_guarded [] bob_token "acme/app" Update (at_once granted) access E) as (_ & _ & H & _).
  exact (proj1 (H "acme" eq_refl eq_refl)).
Defined.

Definition alice_session : AuthIdentity :=
  MkAuthIdentity "sub-1" "keycloak:user:sub-1" (Some "alice") None None [] [] [] [] Session.

Definition later : StateMachineData := run claimed [push "acme/web" "v1" manifest_digest].

Lemma write_commits_under_authorized_claim_witness :
  ∃ n access d2 resp,
    check_permission [] alice_session "acme/app" Create (at_once claimed) = Ok access ∧
    apply_request 0 later (push "acme/app" "latest" manifest_digest) = (d2, Some resp) ∧
    is_error_response resp = false ∧
    sm_namespaces claimed !! "acme" = Some n ∧ sm_namespaces later !! "acme" = Some n.
Proof.
  destruct (check_permission [] alice_session "acme/app" Create (at_once claimed)) as [access| |] eqn:E;
    [|vm_compute in E; discriminate E..].
  assert (aa_expected_namespace access = acme_epoch) as Hex.
  { pose proof (f_equal (λ r, match r with Ok a => Some (aa_expected_namespace a) | _ => None end) E) as H.
    destruct access as [r a ex]. vm_compute in H. injection H as <-. reflexivity. }
  destruct (apply_request 0 later (push "acme/app" "latest" manifest_digest)) as [d2 [resp|]] eqn:Ea;
    [|apply (f_equal snd) in Ea; vm_compute in Ea; discriminate Ea].
  assert (is_error_response resp = false) as Hok.
  { apply (f_equal snd) in Ea. vm_compute in Ea. injection Ea as <-. reflexivity. }
  destruct (write_commits_under_authorized_claim [] alice_session "acme/app" Create (at_once claimed)
    access later "acme" 0 (push "acme/app" "latest" manifest_digest) d2 resp E) as (n & H0 & H1 & _).
  - reflexivity.
  - reflexivity.
  - apply apply_steps. by eexists.
  - apply apply_steps. by eexists.
  - simpl. by rewrite Hex.
  - exact Ea.
  - exact Hok.
  - exists n, access, d2, resp. by split_and!.
Defined.
