(* ===== verification/Middleware.v ===== *)
(** Routing of registry requests (crates/layerhouse-server/src/routes/mod.rs) and
    the authentication middleware in front of it (auth/middleware.rs): which
    repository a path addresses, which repository and action are authorized for
    it, and which requests reach a handler.

    Token validation and session decryption are an interface ([Authentication]). *)

From Stdlib Require Import Ascii.
From stdpp Require Import options.
From S2P Require Import Prelude Errors Digests Manifests Permissions Principals Handles.
From S2P Require Import SyncRuns Types StateMachine RefCounts Samples Reach Content Namespaces.
From S2P Require Import Authorization Decisions.

(** * Strings *)

(** [rsplit_once] and [rfind] with a string pattern: the last occurrence. *)
Fixpoint rsplit_str (p s : string) : option (string * string) :=
  match (match s with
         | EmptyString => None
         | String a s' => '(x, y) ← rsplit_str p s'; Some (String a x, y)
         end) with
  | Some r => Some r
  | None => r ← Str.strip_prefix p s; Some ("", r)
  end.

(** [trim_end_matches('/')]. *)
Fixpoint trim_start_slashes (s : string) : string :=
  match s with
  | String a s' => if bool_decide (a = "/"%char) then trim_start_slashes s' else s
  | EmptyString => ""
  end.
Definition trim_end_slashes (s : string) : string := Str.rev (trim_start_slashes (Str.rev s)).

(** [u8::from_str_radix(two bytes, 16)]: it accepts a leading plus sign. *)
Definition hex_pair (a b : ascii) : option N :=
  match hex_value a, hex_value b with
  | Some x, Some y => Some (16 * x + y)%N
  | None, Some y => if bool_decide (a = "+"%char) then Some y else None
  | _, None => None
  end.

Fixpoint percent_bytes (s : string) : string :=
  match s with
  | EmptyString => ""
  | String a s1 =>
      let plain := String a (percent_bytes s1) in
      if bool_decide (a = "%"%char) then
        match s1 with
        | String b (String c s3) =>
            match hex_pair b c with
            | Some v => String (ascii_of_N v) (percent_bytes s3)
            | None => plain
            end
        | _ => plain
        end
      else plain
  end.

Definition percent_decode (s : string) : string :=
  let result := percent_bytes s in if utf8_valid result then result else s.

(** [query_params]: later pairs overwrite earlier ones. *)
Definition query_params (query : option string) : gmap string string :=
  match query with
  | None => ∅
  | Some q =>
      foldl (λ m pair, match Str.split_once "=" pair with
                       | Some (key, value) => <[percent_decode key := percent_decode value]> m
                       | None => m
                       end) ∅ (Str.split "&" q)
  end.

(** * The dispatcher *)

Definition split_at (path : string) (segments : list string) : option (string * string) :=
  rsplit_str (foldl (λ needle seg, needle +:+ seg +:+ "/") "/" segments) path.

Inductive Route :=
  | RUploadSession (name session_id : string)
  | RUploadStart (name : string)
  | RManifest (name reference : string)
  | RTags (name : string)
  | RReferrers (name digest : string)
  | RBlob (name digest : string)
  | RNotFound.

(** [dispatch], given the path parameter axum extracted. *)
Definition dispatch_route (path : string) : Route :=
  let path := trim_end_slashes path in
  match split_at path ["blobs"; "uploads"] with
  | Some (name, session_id) => RUploadSession name session_id
  | None =>
  match Str.strip_suffix "/blobs/uploads" path with
  | Some name => RUploadStart name
  | None =>
  match split_at path ["manifests"] with
  | Some (name, reference) => RManifest name reference
  | None =>
  match Str.strip_suffix "/tags/list" path with
  | Some name => RTags name
  | None =>
  match split_at path ["referrers"] with
  | Some (name, digest) => RReferrers name digest
  | None =>
  match split_at path ["blobs"] with
  | Some (name, digest) => RBlob name digest
  | None => RNotFound
  end end end end end end.

Definition route_repository (r : Route) : option string :=
  match r with
  | RUploadSession name _ | RUploadStart name | RManifest name _ | RTags name | RReferrers name _
  | RBlob name _ => Some name
  | RNotFound => None
  end.

(** * Path predicates of the middleware *)

Definition is_namespace_self_service (path : string) : bool :=
  Str.starts_with "/api/v1/admin/namespaces/" path
    && (Str.ends_with "/claim" path || Str.ends_with "/release" path).

Definition is_public_path (path : string) : bool :=
  bool_decide (path ∈ ["/healthz"; "/readyz"; "/metrics"; "/v2/"; "/v2/token"; "/favicon.svg";
                       "/api/v1/session/logout"])
    || Str.starts_with "/assets/" path || Str.starts_with "/brand/" path
    || Str.starts_with "/oauth2/" path.

Definition is_dashboard_request_path (path : string) : bool :=
  negb (Str.starts_with "/api/" path) && negb (Str.starts_with "/v2/" path)
    && negb (Str.starts_with "/raft/" path).

Definition or_else {A} (x y : option A) : option A := match x with Some _ => x | None => y end.

Definition extract_repository_from_path (path : string) : string :=
  let raw :=
    rest ← Str.strip_prefix "/v2/" path;
    name ← or_else (fst <$> rsplit_str "/blobs/uploads/" rest)
             (or_else (Str.strip_suffix "/blobs/uploads" rest)
             (or_else (fst <$> rsplit_str "/manifests/" rest)
             (or_else (Str.strip_suffix "/tags/list" rest)
             (or_else (fst <$> rsplit_str "/referrers/" rest)
                      (fst <$> rsplit_str "/blobs/" rest)))));
    if Str.is_empty name then None else Some name in
  percent_decode (default "" raw).

Definition manifest_put_target (path : string) : option (string * string) :=
  rest ← Str.strip_prefix "/v2/" path;
  '(name, reference) ← rsplit_str "/manifests/" rest;
  if Str.is_empty name || Str.is_empty reference || Str.contains_char "/" reference then None
  else Some (name, reference).

(** * The middleware *)

Record HttpRequest := MkHttpRequest {
  rq_method : Method;
  rq_path : string;
  rq_query : option string;
  rq_host : option string;
  rq_authorization : option string;
  (** One value per [Cookie] header; [None] if it is not visible ASCII. *)
  rq_cookies : list (option string);
}.

Record DashboardSession := MkDashboardSession {
  ds_subject : string;
  ds_principal : string;
  ds_username : option string;
  ds_display_name : option string;
  ds_email : option string;
  ds_groups : list string;
  ds_group_ids : list string;
  ds_expires_at : N;
}.

(** Credential checks, on a node whose clock reads a given time. *)
Class Authentication := {
  validate_token : string → result AuthIdentity;
  decrypt_session : string → option DashboardSession;
}.

Inductive RequestCredential := Bearer (token : string) | SessionCookies (values : list string).

(** Where a request goes: to its handler, with what is attached to it, or back
    to the client. *)
Inductive Outcome :=
  | Forward (identity : option AuthIdentity) (access : option AuthorizedRepositoryAccess)
  | Respond (e : LayerhouseError)
  | RespondClearCookie (e : LayerhouseError)
  | RedirectToLogin (clear_cookie : bool)
  | Aborted.

Definition extract_cookies (req : HttpRequest) (name : string) : list string :=
  cookie ← omap id (rq_cookies req);
  omap (λ part, '(key, value) ← Str.split_once "=" (Str.trim part);
                if bool_decide (key = name) then Some value else None) (Str.split ";" cookie).

Definition extract_credential (req : HttpRequest) : option RequestCredential :=
  match (h ← rq_authorization req; Str.strip_prefix "Bearer " h) with
  | Some token => Some (Bearer token)
  | None =>
      match extract_cookies req "layerhouse_session" with
      | [] => None
      | values => Some (SessionCookies values)
      end
  end.

Definition has_oauth_error_query (req : HttpRequest) : bool :=
  from_option (Str.contains "oauth_error=") false (rq_query req).
Definition has_logged_out_marker (req : HttpRequest) : bool :=
  from_option (Str.contains "layerhouse_logged_out=1") false (head (rq_cookies req) ≫= id).

Definition unauthorized (m : string) : LayerhouseError := Unauthorized [Lit m] None None None.

Fixpoint parse_group_ids (l : list string) : result (list ProviderQualifiedId) :=
  match l with
  | [] => Ok []
  | x :: l' => id ← ProviderQualifiedId_parse x; ids ← parse_group_ids l'; Ok (id :: ids)
  end.

(** The part of [AuthService] the middleware uses. *)
Record AuthServiceConfig := MkAuthServiceConfig {
  as_policy_sets : list ConfigPolicySet;
  as_token_endpoint_url : string;
}.

Section middleware.
Context `{SJ : SerdeJson, OR : Openraft, EX : Externals, CE : !Cedar, AU : !Authentication}.

(** The loop of [authenticate_session_cookies]. *)
Fixpoint session_loop (now : N) (last_error : string) (cookies : list string) : result AuthIdentity :=
  match cookies with
  | [] => Err (unauthorized last_error)
  | cookie :: cookies' =>
      match decrypt_session cookie with
      | None => session_loop now "invalid session" cookies'
      | Some session =>
          if bool_decide (ds_expires_at session ≤ now)%N
          then session_loop now "session expired" cookies'
          else
            principal ← ProviderQualifiedId_parse (ds_principal session);
            group_ids ← parse_group_ids (ds_group_ids session);
            Ok (MkAuthIdentity (ds_subject session) principal (ds_username session)
                  (ds_display_name session) (ds_email session) (ds_groups session) group_ids
                  [] [] Session)
      end
  end.

Definition authenticate_request (now : N) (credential : option RequestCredential)
    : result (option AuthIdentity) :=
  match credential with
  | None => Ok None
  | Some (Bearer token) => Some <$> validate_token token
  | Some (SessionCookies values) => Some <$> session_loop now "invalid session" values
  end.

(** [resolve_oci_action]: [lookup] is the store at the manifest lookup, or its error. *)
Definition resolve_oci_action (lookup : result StateMachineData) (path : string) (method : Method) : OciAction :=
  let base := from_method method in
  if negb (bool_decide (base = Create)) then base
  else match manifest_put_target path with
  | None => Create
  | Some (name, reference) =>
      match lookup with
      | Ok d => match get_manifest d name reference with Some _ => Update | None => Create end
      | _ => Update
      end
  end.

Definition auth_required_response (auth : AuthServiceConfig) (req : HttpRequest)
    (oci_action : option OciAction) : Outcome :=
  let path := rq_path req in
  if is_dashboard_request_path path then RedirectToLogin false
  else if negb (Str.starts_with "/v2/" path) then Respond (unauthorized "authentication required")
  else
    let repository := extract_repository_from_path path in
    let service := default "registry" (rq_host req) in
    let scope_action := scope_token (default Pull oci_action) in
    let scope := if Str.is_empty repository then None
                 else Some ("repository:" +:+ repository +:+ ":" +:+ scope_action) in
    Respond (Unauthorized [Lit "authentication required"] (Some (as_token_endpoint_url auth))
               (Some service) scope).

Definition session_cookie_auth_error_response (req : HttpRequest) (e : LayerhouseError) : Outcome :=
  if is_dashboard_request_path (rq_path req) then RedirectToLogin true else RespondClearCookie e.

(** The states of the store at the reads of the middleware. *)
Record MiddlewareReads := MkMiddlewareReads {
  mr_action : result StateMachineData;
  mr_public : StateMachineData;
  mr_permission : Reads;
  mr_admin : Reads;
}.

(** The checks after authentication. *)
Definition authorize_request (auth : AuthServiceConfig) (rd : MiddlewareReads) (path : string)
    (oci_action : option OciAction) (identity : AuthIdentity) : Outcome :=
  let admin access :=
    if Str.starts_with "/api/v1/admin/" path && negb (is_namespace_self_service path) then
      match check_admin_access (as_policy_sets auth) identity (mr_admin rd) with
      | Ok _ => Forward (Some identity) access
      | Err e => Respond e
      | Panic => Aborted
      end
    else Forward (Some identity) access in
  if Str.starts_with "/v2/" path then
    match check_permission (as_policy_sets auth) identity (extract_repository_from_path path)
            (default Pull oci_action) (mr_permission rd) with
    | Ok access => admin (Some access)
    | Err e => Respond e
    | Panic => Aborted
    end
  else admin None.

Definition auth_middleware (auth : option AuthServiceConfig) (now : N) (rd : MiddlewareReads)
    (req : HttpRequest) : Outcome :=
  let path := rq_path req in
  if is_public_path path then Forward None None
  else if has_oauth_error_query req && is_dashboard_request_path path then Forward None None
  else if has_logged_out_marker req && is_dashboard_request_path path then Forward None None
  else match auth with
  | None => Forward None None
  | Some auth =>
      let oci_action := if Str.starts_with "/v2/" path
                        then Some (resolve_oci_action (mr_action rd) path (rq_method req)) else None in
      let credential := extract_credential req in
      let repository := extract_repository_from_path path in
      if bool_decide (credential = None) && Str.starts_with "/v2/" path
         && bool_decide (oci_action = Some Pull)
         && match rq_method req with GET | HEAD => true | _ => false end
         && negb (Str.is_empty repository) && is_ok (check_public_pull repository (mr_public rd))
      then Forward None None
      else match authenticate_request now credential with
      | Ok (Some who) => authorize_request auth rd path oci_action who
      | Ok None =>
          if bool_decide (path = "/api/v1/session") then Forward None None
          else auth_required_response auth req oci_action
      | Err e =>
          match credential with
          | Some (SessionCookies _) => session_cookie_auth_error_response req e
          | _ => Respond e
          end
      | Panic => Aborted
      end
  end.
End middleware.

(** * Lemmas *)

Lemma rsplit_str_Some p s x y : rsplit_str p s = Some (x, y) → s = x +:+ p +:+ y.
Proof.
  revert x y. induction s as [|a s IH]; intros x y; cbn [rsplit_str].
  - intros (r & Hr%strip_prefix_Some & [= <- <-])%bind_Some. done.
  - destruct (rsplit_str p s) as [[x' y']|]; cbn [mbind option_bind].
    + intros [= <- <-]. by rewrite (IH x' y' eq_refl).
    + intros (r & Hr%strip_prefix_Some & [= <- <-])%bind_Some. done.
Qed.

Lemma trim_end_slashes_id s : Str.ends_with "/" s = false → trim_end_slashes s = s.
Proof.
  intros Hs. unfold trim_end_slashes. rewrite <-(rev_involutive_str s) at 2. f_equal.
  unfold Str.ends_with in Hs. destruct (Str.rev s) as [|a r]; [done|]. simpl.
  case_bool_decide; [|done]. subst.
  change (Str.starts_with "/" ("/" +:+ r) = false) in Hs. by rewrite starts_with_app in Hs.
Qed.

Lemma percent_decode_plain s : Str.contains_char "%" s = false → percent_decode s = s.
Proof.
  intros Hs. unfold percent_decode.
  assert (percent_bytes s = s) as ->; [|by destruct (utf8_valid s)].
  induction s as [|a s IH]; [done|]. rewrite contains_char_cons in Hs.
  apply orb_false_iff in Hs as [Ha Hs]. simpl. rewrite (IH Hs).
  apply bool_decide_eq_false in Ha. by rewrite bool_decide_eq_false_2 by congruence.
Qed.

Lemma route_is_extracted p name :
  Str.contains_char "%" p = false → Str.ends_with "/" p = false →
  route_repository (dispatch_route p) = Some name → name ≠ "" →
  extract_repository_from_path ("/v2/" +:+ p) = name.
Proof.
  intros Hpct Hslash Hroute Hne.
  assert (∃ rest, p = name +:+ rest) as [rest Hp].
  { unfold dispatch_route in Hroute. rewrite trim_end_slashes_id in Hroute by done.
    repeat (case_match; simplify_eq/=; match goal with
      | H : split_at _ _ = Some (name, _) |- _ => apply rsplit_str_Some in H; by eexists
      | H : Str.strip_suffix _ _ = Some name |- _ => apply strip_suffix_Some in H; by eexists
      | _ => idtac
      end). }
  unfold extract_repository_from_path. rewrite strip_prefix_app. cbn [mbind option_bind].
  assert (or_else (fst <$> rsplit_str "/blobs/uploads/" p)
    (or_else (Str.strip_suffix "/blobs/uploads" p) (or_else (fst <$> rsplit_str "/manifests/" p)
    (or_else (Str.strip_suffix "/tags/list" p) (or_else (fst <$> rsplit_str "/referrers/" p)
      (fst <$> rsplit_str "/blobs/" p))))) = Some name) as ->.
  { rewrite <-Hroute. unfold dispatch_route. rewrite trim_end_slashes_id by done.
    change (split_at p ["blobs"; "uploads"]) with (rsplit_str "/blobs/uploads/" p).
    change (split_at p ["manifests"]) with (rsplit_str "/manifests/" p).
    change (split_at p ["referrers"]) with (rsplit_str "/referrers/" p).
    change (split_at p ["blobs"]) with (rsplit_str "/blobs/" p).
    repeat (match goal with
      | |- context [match ?x with Some _ => _ | None => _ end] => destruct x as [[? ?]|] eqn:?
      | |- context [match ?x with Some _ => _ | None => _ end] => destruct x eqn:?
      | |- context [or_else ?x _] => destruct x as [[? ?]|] eqn:?
      end; simpl); done. }
  cbn [mbind option_bind]. destruct (Str.is_empty name) eqn:E; [by destruct name|]. simpl.
  apply percent_decode_plain. rewrite Hp, contains_char_app in Hpct. by apply orb_false_iff in Hpct as [? _].
Qed.

Section mediation.
Context `{SJ : SerdeJson, OR : Openraft, EX : Externals, CE : !Cedar, AU : !Authentication}.

(** What reaching a handler took, once no exemption applies. *)
Lemma forwarded auth now rd req i access :
  is_public_path (rq_path req) = false → is_dashboard_request_path (rq_path req) = false →
  auth_middleware (Some auth) now rd req = Forward i access →
  let path := rq_path req in
  let action := if Str.starts_with "/v2/" path
                then Some (resolve_oci_action (mr_action rd) path (rq_method req)) else None in
  (i = None ∧ access = None ∧ extract_credential req = None ∧ Str.starts_with "/v2/" path = true ∧
   action = Some Pull ∧ is_public_pull (mr_public rd) (extract_repository_from_path path) = true) ∨
  (i = None ∧ access = None ∧ path = "/api/v1/session") ∨
  ∃ who, authenticate_request now (extract_credential req) = Ok (Some who) ∧
    authorize_request auth rd path action who = Forward i access.
Proof.
  intros Hpub Hdash. unfold auth_middleware. rewrite Hpub, Hdash, !andb_false_r. cbn zeta.
  set (action := if Str.starts_with "/v2/" (rq_path req) then _ else None).
  destruct (bool_decide _ && _ && _ && _ && _ && _) eqn:E.
  { intros [= <- <-]. left. rewrite !andb_true_iff, !bool_decide_eq_true in E.
    destruct E as [[[[[Hc Hv] Ha] _] _] Hp]. repeat (split; [done|]).
    unfold check_public_pull in Hp. destruct (handle_of _); [simpl in Hp|done..].
    by destruct (is_public_pull (mr_public rd) _). }
  destruct (authenticate_request now (extract_credential req)) as [[who|]|e|]; [..|done].
  - intros Hf. right. right. exists who. done.
  - destruct (bool_decide (rq_path req = "/api/v1/session")) eqn:Hs.
    { apply bool_decide_eq_true in Hs. intros [= <- <-]. right. left. done. }
    unfold auth_required_response. rewrite Hdash.
    destruct (Str.starts_with "/v2/" (rq_path req)); cbn; intros H; discriminate H.
  - destruct (extract_credential req) as [[]|]; [done| |done].
    unfold session_cookie_auth_error_response. by rewrite Hdash.
Qed.

Lemma path_families path :
  (Str.starts_with "/v2/" path = true → is_dashboard_request_path path = false ∧
     Str.starts_with "/api/v1/admin/" path = false ∧ path ≠ "/api/v1/session") ∧
  (Str.starts_with "/api/v1/admin/" path = true → is_dashboard_request_path path = false ∧
     Str.starts_with "/v2/" path = false ∧ path ≠ "/api/v1/session" ∧
     is_public_path path = false).
Proof.
  split.
  - intros [r ->]%starts_with_true. unfold is_dashboard_request_path.
    rewrite starts_with_app. split; [by rewrite andb_false_r|]. split; [done|]. by intros [=].
  - intros [r ->]%starts_with_true. unfold is_dashboard_request_path. split; [done|].
    split; [done|]. split; [by intros [=]|]. unfold is_public_path.
    rewrite bool_decide_eq_false_2; [done|]. set_solver.
Qed.

(** A registry path that is routed to a repository is no public path. *)
Lemma v2_not_public p : p ≠ "" → p ≠ "token" → is_public_path ("/v2/" +:+ p) = false.
Proof.
  intros Hp Ht. unfold is_public_path. rewrite bool_decide_eq_false_2; [done|]. intros Hin. simpl in Hin.
  repeat (apply elem_of_cons in Hin as [Hin|Hin];
    [first [discriminate Hin | injection Hin as Hin; contradiction]|]). by apply not_elem_of_nil in Hin.
Qed.

Lemma routed_not_public p name :
  route_repository (dispatch_route p) = Some name → is_public_path ("/v2/" +:+ p) = false.
Proof. intros Hr. apply v2_not_public; by intros ->. Qed.

(** What it took to reach a registry handler. *)
Lemma v2_forwarded auth now rd req i access :
  auth_middleware (Some auth) now rd req = Forward i access →
  Str.starts_with "/v2/" (rq_path req) = true → is_public_path (rq_path req) = false →
  let repository := extract_repository_from_path (rq_path req) in
  let action := resolve_oci_action (mr_action rd) (rq_path req) (rq_method req) in
  (i = None ∧ access = None ∧ extract_credential req = None ∧ action = Pull ∧
   is_public_pull (mr_public rd) repository = true) ∨
  ∃ who granted, i = Some who ∧ access = Some granted ∧
    authenticate_request now (extract_credential req) = Ok (Some who) ∧
    check_permission (as_policy_sets auth) who repository action (mr_permission rd) = Ok granted.
Proof.
  intros Hf Hv Hpub. cbn zeta. destruct (path_families (rq_path req)) as [Hv2 _].
  destruct (Hv2 Hv) as (Hd & Ha & Hs).
  destruct (forwarded auth now rd req i access Hpub Hd Hf)
    as [(-> & -> & Hc & _ & Hact & Hp)|[(_ & _ & ?)|(who & Hw & Hz)]]; [|done|].
  - rewrite Hv in Hact. injection Hact as Hact. left. by rewrite Hact.
  - right. unfold authorize_request in Hz. rewrite Hv, Ha in Hz. cbn [default andb] in Hz.
    destruct (check_permission _ who _ _ _) as [g| |] eqn:E; [|done..]. injection Hz as <- <-.
    by exists who, g.
Qed.

(** The repository whose access is checked, or that is found public, is the one that is
    served, for a path without percent-escapes that does not end in a slash and that the
    dispatcher hands to the handler of some repository. *)
Lemma served_is_authorized auth now rd req i access p name :
  auth_middleware (Some auth) now rd req = Forward i access → rq_path req = "/v2/" +:+ p →
  Str.contains_char "%" p = false → Str.ends_with "/" p = false →
  route_repository (dispatch_route p) = Some name → name ≠ "" →
  (i = None ∧ is_public_pull (mr_public rd) name = true) ∨
  ∃ granted, access = Some granted ∧ aa_repository granted = name.
Proof.
  intros Hf Hpath Hpct Hslash Hroute Hne.
  assert (Str.starts_with "/v2/" (rq_path req) = true) as Hv by (rewrite Hpath; apply starts_with_app).
  assert (extract_repository_from_path (rq_path req) = name) as He
    by (rewrite Hpath; by apply route_is_extracted).
  assert (is_public_path (rq_path req) = false) as Hpub
    by (rewrite Hpath; by eapply routed_not_public).
  destruct (v2_forwarded auth now rd req i access Hf Hv Hpub)
    as [(-> & _ & _ & _ & Hp)|(who & g & _ & -> & _ & Hc)]; [left; by rewrite <-He|].
  right. exists g. split; [done|].
  apply check_permission_Ok in Hc as (ex & res & _ & -> & _). exact He.
Qed.

(** C7: with authentication enabled, a request to [/v2/] that is not to the version check
    or the token endpoint reaches its handler only if the repository the middleware reads
    from its path is public, the request carries no credential and only pulls, or if its
    credential was accepted and the access attached to it was granted to that identity for
    that repository and for the action the request needs. For a path without
    percent-escapes and without a slash at its end that repository is the one the
    dispatcher serves. A request to [/api/v1/admin/] reaches its handler only for an
    identity that passed the administrator check, unless it claims or releases a
    namespace. *)
Theorem requests_mediated auth now rd req i access
    (Hf : auth_middleware (Some auth) now rd req = Forward i access) :
  let path := rq_path req in
  (Str.starts_with "/v2/" path = true → path ∉ ["/v2/"; "/v2/token"] →
   let repository := extract_repository_from_path path in
   let action := resolve_oci_action (mr_action rd) path (rq_method req) in
   (i = None ∧ access = None ∧ extract_credential req = None ∧ action = Pull ∧
    is_public_pull (mr_public rd) repository = true) ∨
   ∃ who granted, i = Some who ∧ access = Some granted ∧
     authenticate_request now (extract_credential req) = Ok (Some who) ∧
     check_permission (as_policy_sets auth) who repository action (mr_permission rd) = Ok granted) ∧
  (∀ p name, path = "/v2/" +:+ p → Str.contains_char "%" p = false → Str.ends_with "/" p = false →
   route_repository (dispatch_route p) = Some name → name ≠ "" →
   (i = None ∧ is_public_pull (mr_public rd) name = true) ∨
   ∃ granted, access = Some granted ∧ aa_repository granted = name) ∧
  (Str.starts_with "/api/v1/admin/" path = true → is_namespace_self_service path = false →
   ∃ who, i = Some who ∧ authenticate_request now (extract_credential req) = Ok (Some who) ∧
     check_admin_access (as_policy_sets auth) who (mr_admin rd) = Ok ()).
Proof.
  cbn zeta. destruct (path_families (rq_path req)) as [_ Hadm]. split_and!.
  - intros Hv Hnot. apply (v2_forwarded auth now rd req i access Hf Hv).
    apply starts_with_true in Hv as [r E]. rewrite E in Hnot |- *. apply v2_not_public; intros ->; set_solver.
  - intros p name. exact (served_is_authorized auth now rd req i access p name Hf).
  - intros Ha Hself. destruct (Hadm Ha) as (Hd & Hv & Hs & Hpub).
    destruct (forwarded auth now rd req i access Hpub Hd Hf)
      as [(_ & _ & _ & ? & _)|[(_ & _ & ?)|(who & Hw & Hz)]]; [congruence|done|].
    unfold authorize_request in Hz. rewrite Hv, Ha, Hself in Hz. cbn [andb negb] in Hz.
    destruct (check_admin_access _ who _) as [[]| |] eqn:E; [|done..]. injection Hz as <- <-.
    by exists who.
Qed.
End mediation.

(** * Concrete requests *)

#[export] Instance sample_authentication : Authentication := {|
  validate_token token := if bool_decide (token = "alice-token") then Ok alice_session
                          else Err (unauthorized "invalid token");
  decrypt_session _ := None;
|}.

Definition sample_auth : AuthServiceConfig := MkAuthServiceConfig [] "https://registry/v2/token".
Definition all_reads (d : StateMachineData) : MiddlewareReads :=
  MkMiddlewareReads (Ok d) d (at_once d) (at_once d).
Definition get (path : string) (authorization : option string) : HttpRequest :=
  MkHttpRequest GET path None (Some "registry") authorization [].

(** [acme/pub] can be pulled by everybody, [acme/pub/blobs/priv] is private. *)
Definition half_public : StateMachineData :=
  run claimed [ReqRepository (PutRepository (MkRepository "acme/pub" "" None PublicPull 100) acme_epoch);
               push "acme/pub/blobs/priv" "v1" manifest_digest].

(** A trailing slash separates what is authorized from what is served: the
    dispatcher drops it before it looks for the repository, the middleware does
    not. An anonymous request for the tags of a private repository whose name
    continues a public one with [/blobs/] is refused, but with a slash appended it
    is let through as a pull of the public repository and served for the private
    one. *)
Theorem trailing_slash_misauthorized :
  let path := "/v2/acme/pub/blobs/priv/tags/list" in
  is_public_pull half_public "acme/pub/blobs/priv" = false ∧
  is_Some (get_manifest half_public "acme/pub/blobs/priv" "v1") ∧
  auth_middleware (Some sample_auth) 0 (all_reads half_public) (get path None) ≠ Forward None None ∧
  auth_middleware (Some sample_auth) 0 (all_reads half_public) (get (path +:+ "/") None) = Forward None None ∧
  dispatch_route "acme/pub/blobs/priv/tags/list/" = RTags "acme/pub/blobs/priv" ∧
  extract_repository_from_path (path +:+ "/") = "acme/pub".
Proof.
  cbn zeta. split; [vm_compute; reflexivity|].
  split; [apply (bool_decide_eq_true_1 _); vm_compute; reflexivity|].
  split; [vm_compute; discriminate|]. repeat split; vm_compute; reflexivity.
Qed.

(** * Witnesses *)

Definition alice_get : HttpRequest := get "/v2/acme/app/manifests/latest" (Some "Bearer alice-token").

Lemma requests_mediated_witness :
  ∃ access, auth_middleware (Some sample_auth) 0 (all_reads claimed) alice_get =
      Forward (Some alice_session) (Some access) ∧
    check_permission [] alice_session "acme/app" Pull (at_once claimed) = Ok access.
Proof.
  destruct (auth_middleware (Some sample_auth) 0 (all_reads claimed) alice_get) as [i a| | | |] eqn:E;
    [|vm_compute in E; discriminate E..].
  destruct (proj1 (requests_mediated sample_auth 0 (all_reads claimed) alice_get i a E)
    eq_refl ltac:(apply (bool_decide_eq_true_1 _); vm_compute; reflexivity)) as [(-> & _)|(who & g & -> & -> & Hw & Hc)]; [vm_compute in E; discriminate E|].
  assert (who = alice_session) as -> by (vm_compute in Hw; injection Hw as <-; reflexivity).
  exists g. split; [reflexivity|exact Hc].
Defined.
