(* ===== verification/Router.v ===== *)
(** The replicated metadata store (crates/layerhouse-server/src/raft/router.rs):
    the methods the HTTP layer calls, each of which commits one request through
    Raft and reads its result out of the response.

    [Commit] says what became of the write: it was applied, here or after
    forwarding to the leader, to the state [d] on a node whose clock reads [now],
    consensus failed, or, for the statements about which request a caller sends, it is
    answered by an arbitrary function of the request. Errors travel as response
    variants; the text [{:?}] prints for an unexpected response is left out. *)

From Stdlib Require Import Ascii.
From stdpp Require Import options.
From S2P Require Import Prelude Errors Digests Manifests Permissions Principals Handles.
From S2P Require Import SyncRuns Types StateMachine RefCounts Samples Reach Content Namespaces.

Section router.
Context `{SJ : SerdeJson, OR : Openraft, EX : Externals}.

Inductive Commit :=
  | CommitAt (now : N) (d : StateMachineData)
  | CommitFailed (m : message)
  | CommitAnswered (answer : Request → result Response).

(** The state after the write. *)
Definition committed (c : Commit) (req : Request) : option StateMachineData :=
  match c with CommitAt now d => Some (apply_request now d req).1 | _ => None end.

Definition response_error (resp : Response) : option LayerhouseError :=
  match resp with
  | RespNameUnknown msg => Some (NameUnknown msg)
  | RespDenied msg => Some (Denied msg)
  | RespConflict msg => Some (Conflict msg)
  | RespNameInvalid msg => Some (NameInvalid msg)
  | RespInternalError msg => Some (Internal msg)
  | _ => None
  end.

Definition write (c : Commit) (req : Request) : result Response :=
  match c with
  | CommitFailed m => Err (Consensus m)
  | CommitAt now d =>
      match (apply_request now d req).2 with
      | None => Panic
      | Some resp => match response_error resp with Some e => Err e | None => Ok resp end
      end
  | CommitAnswered answer => answer req
  end.

(** [h] sends the request [req] and no other: what it returns is a function of the answer
    to [req], whatever answers are given to requests, and it does depend on that answer. *)
Definition sends {A} (h : Commit → A) (req : Request) : Prop :=
  ∃ k : result Response → A, (∃ r r', k r ≠ k r') ∧ ∀ c, h c = k (write c req).

Definition unexpected {A} (what : string) : result A := Err (Internal [Lit what]).

Definition write_manifest (c : Commit) (req : ManifestRequest) : result ManifestResponse :=
  resp ← write c (ReqManifest req);
  match resp with RespManifest r => Ok r | _ => unexpected "unexpected manifest response: " end.
Definition write_mirror_config (c : Commit) (req : MirrorConfigRequest) : result MirrorConfigResponse :=
  resp ← write c (ReqMirrorConfig req);
  match resp with RespMirrorConfig r => Ok r | _ => unexpected "unexpected mirror config response: " end.
Definition write_job (c : Commit) (req : JobRequest) : result JobResponse :=
  resp ← write c (ReqJob req);
  match resp with RespJob r => Ok r | _ => unexpected "unexpected job response: " end.
Definition write_token (c : Commit) (req : TokenRequest) : result TokenResponse :=
  resp ← write c (ReqToken req);
  match resp with RespToken r => Ok r | _ => unexpected "unexpected token response: " end.
Definition write_policy (c : Commit) (req : PolicyRequest) : result PolicyResponse :=
  resp ← write c (ReqPolicy req);
  match resp with RespPolicy r => Ok r | _ => unexpected "unexpected policy response: " end.
Definition write_repository (c : Commit) (req : RepositoryRequest) : result RepositoryResponse :=
  resp ← write c (ReqRepository req);
  match resp with RespRepository r => Ok r | _ => unexpected "unexpected repository response: " end.
Definition write_namespace (c : Commit) (req : NamespaceRequest) : result NamespaceResponse :=
  resp ← write c (ReqNamespace req);
  match resp with RespNamespace r => Ok r | _ => unexpected "unexpected namespace response: " end.

(** The epoch the node's own state knows for a repository. *)
Definition expected_namespace_for_repository (local : StateMachineData) (repository : string)
    : option NamespaceEpoch :=
  match handle_of repository with
  | Ok handle => if is_handle_reserved handle then None
                 else epoch_from_namespace <$> sm_namespaces local !! handle
  | _ => None
  end.

(** ** [ManifestStore] *)

Definition put_manifest_request (name reference : string) (entry : ManifestEntry)
    (expected_namespace : option NamespaceEpoch) (require_reference_absent : bool) : ManifestRequest :=
  PutManifest name expected_namespace reference require_reference_absent
    (digest_to_string (me_digest entry)) (me_content_type entry) (me_body entry)
    (digest_to_string <$> me_subject entry) (me_artifact_type entry) (me_annotations entry)
    (me_stored_size_bytes entry) (me_manifest_size_bytes entry) (me_created_at entry)
    (me_last_modified entry) (me_config_summary entry) (digest_to_string <$> me_referenced_blobs entry).

Definition put_manifest_with_expected_namespace (c : Commit) (name reference : string)
    (entry : ManifestEntry) (expected_namespace : option NamespaceEpoch)
    (require_reference_absent : bool) : result () :=
  _ ← write_manifest c (put_manifest_request name reference entry expected_namespace require_reference_absent);
  Ok ().
Definition put_manifest (c : Commit) (local : StateMachineData) (name reference : string)
    (entry : ManifestEntry) : result () :=
  put_manifest_with_expected_namespace c name reference entry
    (expected_namespace_for_repository local name) false.

Definition delete_manifest_with_expected_namespace (c : Commit) (name : string) (digest : Digest)
    (expected_namespace : option NamespaceEpoch) : result () :=
  _ ← write_manifest c (DeleteManifest name expected_namespace (digest_to_string digest)); Ok ().
Definition delete_manifest (c : Commit) (local : StateMachineData) (name : string) (digest : Digest)
    : result () :=
  delete_manifest_with_expected_namespace c name digest (expected_namespace_for_repository local name).

Definition delete_tag_with_expected_namespace (c : Commit) (name : string) (digest : Digest)
    (tag : string) (expected_namespace : option NamespaceEpoch) : result bool :=
  resp ← write_manifest c (DeleteTag name expected_namespace (digest_to_string digest) tag);
  match resp with ManifestBool b => Ok b | _ => unexpected "unexpected response for delete_tag" end.
Definition delete_tag (c : Commit) (local : StateMachineData) (name : string) (digest : Digest)
    (tag : string) : result bool :=
  delete_tag_with_expected_namespace c name digest tag (expected_namespace_for_repository local name).

Definition delete_repository_with_expected_namespace (c : Commit) (name : string)
    (expected_namespace : option NamespaceEpoch) : result DeleteCounts :=
  resp ← write_manifest c (DeleteRepository name expected_namespace);
  match resp with
  | ManifestDeleteCounts counts => Ok counts
  | _ => unexpected "unexpected response for delete_repository"
  end.
Definition delete_repository (c : Commit) (local : StateMachineData) (name : string)
    : result DeleteCounts :=
  delete_repository_with_expected_namespace c name (expected_namespace_for_repository local name).

Definition delete_manifests_with_expected_namespace (c : Commit) (name : string)
    (digests : list Digest) (expected_namespace : option NamespaceEpoch) : result DeleteCounts :=
  resp ← write_manifest c (DeleteManifests name expected_namespace (digest_to_string <$> digests));
  match resp with
  | ManifestDeleteCounts counts => Ok counts
  | _ => unexpected "unexpected response for delete_manifests"
  end.
Definition delete_manifests (c : Commit) (local : StateMachineData) (name : string)
    (digests : list Digest) : result DeleteCounts :=
  delete_manifests_with_expected_namespace c name digests (expected_namespace_for_repository local name).

Definition mount_blob_with_expected_namespace (c : Commit) (source_repo dest_repo : string)
    (digest : Digest) (expected_namespace : option NamespaceEpoch) : result () :=
  _ ← write_manifest c (MountBlob source_repo dest_repo expected_namespace (digest_to_string digest)); Ok ().
Definition mount_blob (c : Commit) (local : StateMachineData) (source_repo dest_repo : string)
    (digest : Digest) : result () :=
  mount_blob_with_expected_namespace c source_repo dest_repo digest
    (expected_namespace_for_repository local dest_repo).

(** [requested_at] is [now_epoch()] on the node that receives the request. *)
Definition record_blob_delete_request (c : Commit) (digest : Digest) (requested_at : N)
    : result BlobDeleteStatus :=
  resp ← write_manifest c (RecordBlobDelete (digest_to_string digest) requested_at);
  match resp with
  | ManifestBlobDeleteStatus status => Ok status
  | _ => unexpected "unexpected blob delete response"
  end.
Definition clear_blob_delete_request (c : Commit) (digest : Digest) : result () :=
  _ ← write_manifest c (ClearBlobDelete (digest_to_string digest)); Ok ().

(** ** [MirrorConfigStore] *)

Definition put_mirror_rule (c : Commit) (rule : MirrorRule) : result () :=
  _ ← write_mirror_config c (PutMirrorRule rule); Ok ().
Definition delete_mirror_rule (c : Commit) (id : string) : result () :=
  _ ← write_mirror_config c (DeleteMirrorRule id); Ok ().
Definition trigger_mirror_rule (c : Commit) (id : string) : result (option SyncJob) :=
  resp ← write_mirror_config c (TriggerMirrorRule id);
  match resp with
  | MirrorSyncJob job => Ok job
  | MirrorBool false => Err (Conflict [Lit "Rule is already running"])
  | _ => Ok None
  end.
Definition put_proxy_cache (c : Commit) (cache : ProxyCache) : result () :=
  _ ← write_mirror_config c (PutProxyCache cache); Ok ().
Definition delete_proxy_cache (c : Commit) (id : string) : result () :=
  _ ← write_mirror_config c (DeleteProxyCache id); Ok ().
Definition trigger_proxy_cache_warm (c : Commit) (id : string) : result (option SyncJob) :=
  resp ← write_mirror_config c (TriggerProxyCacheWarm id);
  match resp with
  | MirrorSyncJob job => Ok job
  | MirrorBool false => Err (Conflict [Lit "Proxy cache warm-up is already running"])
  | _ => Ok None
  end.
Definition put_tag_validation (c : Commit) (validation : ProxyCacheTagValidation) : result () :=
  _ ← write_mirror_config c (PutProxyCacheTagValidation validation); Ok ().
Definition put_warm_image (c : Commit) (image : WarmImage) : result () :=
  _ ← write_mirror_config c (PutWarmImage image); Ok ().
Definition delete_warm_image (c : Commit) (id : string) : result () :=
  _ ← write_mirror_config c (DeleteWarmImage id); Ok ().

(** ** [JobStore], [TokenStore], [PolicyStore] and [RepositoryStore] *)

Definition put_sync_job (c : Commit) (job : SyncJob) : result () :=
  _ ← write_job c (PutSyncJob job); Ok ().
Definition delete_sync_job (c : Commit) (id : string) : result () :=
  _ ← write_job c (DeleteSyncJob id); Ok ().
Definition claim_sync_job (c : Commit) (id node_id : string) : result bool :=
  resp ← write_job c (ClaimSyncJob id node_id);
  Ok (match resp with JobBool b => b | JobOk => false end).
Definition trigger_sync_job (c : Commit) (id : string) : result bool :=
  resp ← write_job c (TriggerSyncJob id);
  Ok (match resp with JobBool b => b | JobOk => false end).
Definition put_sync_job_run (c : Commit) (run : SyncJobRun) : result () :=
  _ ← write_job c (PutSyncJobRun run); Ok ().

Definition put_personal_access_token (c : Commit) (token : PersonalAccessToken) : result () :=
  _ ← write_token c (PutPersonalAccessToken token); Ok ().
Definition delete_personal_access_token (c : Commit) (id subject : string) : result bool :=
  resp ← write_token c (DeletePersonalAccessToken id subject);
  match resp with
  | TokenBool deleted => Ok deleted
  | TokenOk => unexpected "unexpected response for delete_personal_access_token"
  end.

Definition put_policy_set (c : Commit) (policy : PolicySet) : result () :=
  _ ← write_policy c (PutPolicySet policy); Ok ().
Definition delete_policy_set (c : Commit) (id : string) : result bool :=
  resp ← write_policy c (DeletePolicySet id);
  match resp with
  | PolicyBool deleted => Ok deleted
  | PolicyOk => unexpected "unexpected response for delete_policy_set"
  end.

Definition put_repository_with_expected_namespace (c : Commit) (repo : Repository)
    (expected_namespace : option NamespaceEpoch) : result () :=
  _ ← write_repository c (PutRepository repo expected_namespace); Ok ().
Definition put_repository (c : Commit) (local : StateMachineData) (repo : Repository) : result () :=
  put_repository_with_expected_namespace c repo (expected_namespace_for_repository local (repo_name repo)).
Definition delete_repository_meta_with_expected_namespace (c : Commit) (name : string)
    (expected_namespace : option NamespaceEpoch) : result bool :=
  resp ← write_repository c (DeleteRepositoryObject name expected_namespace);
  Ok (match resp with RepositoryBool deleted => deleted | RepositoryOk => false end).
Definition delete_repository_meta (c : Commit) (local : StateMachineData) (name : string) : result bool :=
  delete_repository_meta_with_expected_namespace c name (expected_namespace_for_repository local name).

(** ** [NamespaceStore]; audit ids are fresh UUIDs *)

Definition claim_namespace (c : Commit) (handle : string) (owner : Owner) (owner_label : string)
    (actor : Subject) (admin_override : bool) (now : N) : result () :=
  _ ← write_namespace c (Claim handle owner owner_label actor admin_override now); Ok ().
Definition release_namespace (c : Commit) (handle : string) (actor : Subject) (reason : ReleaseReason)
    (now : N) : result () :=
  _ ← write_namespace c (DeleteNamespace handle actor reason now); Ok ().
Definition admin_revoke_namespace (c : Commit) (handle : string) (actor : Subject) (now : N) : result () :=
  _ ← write_namespace c (AdminRevoke handle actor now); Ok ().
Definition put_namespace_grant (c : Commit) (grant : NamespaceGrant)
    (actor_label reason audit_id : string) : result NamespaceGrant :=
  resp ← write_namespace c (PutGrant grant actor_label reason audit_id);
  match resp with
  | NamespaceGrantResp grant => Ok grant
  | _ => unexpected "unexpected namespace grant response"
  end.
Definition delete_namespace_grant (c : Commit) (handle grant_id : string) (actor : Subject)
    (actor_label reason : string) (now : N) (audit_id : string) : result bool :=
  resp ← write_namespace c (DeleteGrant handle grant_id actor actor_label reason now audit_id);
  match resp with
  | NamespaceBool deleted => Ok deleted
  | _ => unexpected "unexpected namespace grant delete response"
  end.
Definition put_observed_identity (c : Commit) (identity : ObservedIdentity) : result () :=
  _ ← write_namespace c (PutObservedIdentity identity); Ok ().

(** * What a caller sends *)

(** There is one such request. *)
Lemma sends_unique {A} (h : Commit → A) req req' `{Hdec : !∀ q, Decision (q = req)} :
  sends h req → sends h req' → req' = req.
Proof.
  intros (k & (r & r' & Hk) & H) (k' & _ & H'). destruct (decide (req' = req)) as [|Hn]; [done|].
  set (f x := CommitAnswered (λ q, if decide (q = req) then x else Panic)).
  assert (∀ x, k x = k' Panic) as E.
  { intros x. transitivity (h (f x)); [rewrite H|rewrite H']; unfold f, write;
      [by rewrite decide_True|by rewrite decide_False]. }
  by rewrite !E in Hk.
Qed.

(** A caller that passes the errors of its write on. *)
Definition passes {A} (h : Commit → result A) (req : Request) : Prop :=
  ∃ k, ∀ c, h c = (r ← write c req; k r).

Lemma passes_sends {A} (h : Commit → result A) req : passes h req → sends h req.
Proof.
  intros [k H]. exists (λ r, r ≫= k). split; [|done].
  by exists Panic, (Err (Internal [])).
Qed.
Lemma passes_write req : passes (λ c, write c req) req.
Proof. exists Ok. intros c. by destruct (write c req). Qed.
(** Before the write there is work that does not depend on it; after it, its result is used. *)
Lemma passes_after {A B} (p : result A) (a : A) (h : A → Commit → result B) req :
  p = Ok a → passes (h a) req → passes (λ c, x ← p; h x c) req.
Proof. by intros ->. Qed.
Lemma passes_bind {A B} (h : Commit → result A) (g : A → result B) req :
  passes h req → passes (λ c, x ← h c; g x) req.
Proof. intros [k H]. exists (λ r, x ← k r; g x). intros c. rewrite H. by destruct (write c req). Qed.
Lemma passes_fmap {A B} (f : A → B) (h : Commit → result A) req :
  passes h req → passes (λ c, f <$> h c) req.
Proof. intros [k H]. exists (λ r, f <$> k r). intros c. rewrite H. by destruct (write c req). Qed.
Lemma passes_ext {A} (h h' : Commit → result A) req : (∀ c, h' c = h c) → passes h req → passes h' req.
Proof. intros E [k H]. exists k. intros c. by rewrite E. Qed.

(** What the caller got is what the write gave, made of its answer. *)
Lemma passes_Ok {A} (h : Commit → result A) req c a :
  passes h req → h c = Ok a → ∃ resp, write c req = Ok resp.
Proof. intros [k H]. rewrite H. intros (r & Hr & _)%result_bind_Ok. by exists r. Qed.

(** * Errors survive the trip *)

(** The errors that have a response variant of their own; [Internal] also does. *)
Definition transported (e : LayerhouseError) : bool :=
  match e with NameUnknown _ | Denied _ | Conflict _ | NameInvalid _ => true | _ => false end.
Definition only_transported {A} (r : result A) : Prop := ∀ e, r = Err e → transported e = true.

Lemma transported_back e : transported e = true → response_error (error_to_response e) = Some e.
Proof. by destruct e. Qed.

Lemma only_transported_bind {A B} (r : result A) (k : A → result B) :
  only_transported r → (∀ a, r = Ok a → only_transported (k a)) → only_transported (r ≫= k).
Proof. intros Hr Hk e. destruct r; simpl; [by apply Hk|intros [= <-]; by apply Hr|done]. Qed.

Lemma only_transported_try {S A B} (s : S) (r : result A) (k : A → S * result B) :
  only_transported r → (∀ a, only_transported (k a).2) → only_transported (try_with s r k).2.
Proof. intros Hr Hk e. destruct r; simpl; [apply Hk|intros [= <-]; by apply Hr|done]. Qed.

Lemma handle_of_transported s : only_transported (handle_of s).
Proof.
  intros e. unfold handle_of. destruct (Str.split_once "/" s) as [[x y]|]; simpl; [|by intros [= <-]].
  destruct (Str.is_empty y); [by intros [= <-]|done].
Qed.

Lemma validate_handle_transported s : only_transported (validate_handle s).
Proof.
  intros e. unfold validate_handle. case_match; [by intros [= <-]|].
  generalize (String.length s) at 1; generalize 0; generalize false; generalize s at 2.
  induction s0 as [|b s' IH]; intros prev idx len; [done|]. cbn [validate_handle_bytes].
  repeat (case_match; try (by intros [= <-])). apply IH.
Qed.

Lemma require_transported d name exp : only_transported (require_expected_namespace d name exp).
Proof.
  apply only_transported_bind; [apply handle_of_transported|]. intros h _ e.
  repeat (case_match; try done); by intros [= <-].
Qed.

Lemma ensure_kind_transported id k : only_transported (ensure_kind id k).
Proof.
  apply only_transported_bind.
  - intros e. unfold pqi_kind. by case_match.
  - intros k' _ e. case_match; [by intros [= <-]|done].
Qed.

Lemma grant_transported ns g : only_transported (validate_namespace_grant ns g).
Proof.
  apply only_transported_bind; [apply validate_handle_transported|]. intros _ _.
  case_match; [intros e; by intros [= <-]|].
  destruct (ng_grantee g); [| |intros e; case_match; [by intros [= <-]|done]];
    apply only_transported_bind; try done; apply only_transported_bind; try done;
    apply ensure_kind_transported.
Qed.

Lemma apply_manifest_transported d r : only_transported (apply_manifest d r).2.
Proof.
  destruct r; simpl; try (by intros e); try (apply only_transported_try; [apply require_transported|]);
    try (by intros [] e).
  - intros []. case_match; [intros e; by intros [= <-]|by intros e].
  - intros [] e. cbn zeta. by repeat case_match.
  - intros [] e. cbn zeta. by repeat case_match.
  - intros [] e. cbn zeta. by repeat case_match.
Qed.

Lemma apply_policy_transported d r : only_transported (apply_policy d r).2.
Proof.
  destruct r; simpl; [|by intros e]. apply only_transported_try; [|by intros [] e].
  intros e. unfold validate_policy_set. repeat case_match; try done; by intros [= <-].
Qed.

Lemma apply_repository_transported d r : only_transported (apply_repository d r).2.
Proof. destruct r; simpl; (apply only_transported_try; [apply require_transported|by intros [] e]). Qed.

Lemma core_claim_transported m h o l a now : only_transported (core_claim m h o l a now).2.
Proof.
  apply only_transported_try; [apply validate_handle_transported|]. intros [].
  case_match; [intros e; by intros [= <-]|]. case_match; [intros e; by intros [= <-]|].
  apply only_transported_try; [|by intros g e]. intros e. repeat case_match; try (by intros [= <-]); try done.
  unfold ok_or. case_match; [done|by intros [= <-]].
Qed.

Lemma apply_namespace_transported d r : only_transported (apply_namespace d r).2.
Proof.
  unfold apply_namespace. destruct (apply_namespace_core _ r _) as [m res] eqn:E. simpl.
  apply (f_equal snd) in E. simpl in E. subst res. destruct r; simpl.
  - apply core_claim_transported.
  - unfold core_delete. intros e. repeat case_match; try done; by intros [= <-].
  - unfold core_admin_revoke. intros e. repeat case_match; try done; by intros [= <-].
  - apply only_transported_try; [apply grant_transported|by intros [] e].
  - apply only_transported_try; [apply validate_handle_transported|]. intros [].
    case_match; [intros e; by intros [= <-]|]. intros e. cbn zeta. by repeat case_match.
  - by intros e.
Qed.

Lemma write_respond {A} now d req (wrap : A → Response) (dr : StateMachineData * result A)
    (unwrap : Response → result A) :
  apply_request now d req = respond wrap dr → only_transported dr.2 →
  (∀ a, response_error (wrap a) = None ∧ unwrap (wrap a) = Ok a) →
  write (CommitAt now d) req ≫= unwrap = dr.2.
Proof.
  intros E Ht Hw. unfold write. rewrite E. destruct dr as [d' [a|e|]]; simpl in *;
    [|by rewrite transported_back by (by apply Ht)|done].
  destruct (Hw a) as [-> ?]. done.
Qed.

Lemma write_manifest_at now d r : write_manifest (CommitAt now d) r = (apply_manifest d r).2.
Proof.
  apply (write_respond now d _ RespManifest (apply_manifest d r));
    [done|apply apply_manifest_transported|done].
Qed.

(** The store is transparent: the answer a caller gets for a committed write
    is exactly the outcome of applying it, with the same value or the very same
    error, for every family of requests; none of the unexpected-response errors
    can occur. *)
Theorem writes_transparent (now : N) (d : StateMachineData) :
  (∀ r, write_manifest (CommitAt now d) r = (apply_manifest d r).2) ∧
  (∀ r, write_policy (CommitAt now d) r = (apply_policy d r).2) ∧
  (∀ r, write_repository (CommitAt now d) r = (apply_repository d r).2) ∧
  (∀ r, write_namespace (CommitAt now d) r = (apply_namespace d r).2) ∧
  (∀ r, write_mirror_config (CommitAt now d) r = Ok (apply_mirror_config now d r).2) ∧
  (∀ r, write_job (CommitAt now d) r = Ok (apply_job now d r).2) ∧
  (∀ r, write_token (CommitAt now d) r = Ok (apply_token d r).2).
Proof.
  split_and!; intros r.
  - apply write_manifest_at.
  - apply (write_respond now d _ RespPolicy (apply_policy d r)); [done|apply apply_policy_transported|done].
  - apply (write_respond now d _ RespRepository (apply_repository d r)); [done|apply apply_repository_transported|done].
  - apply (write_respond now d _ RespNamespace (apply_namespace d r)); [done|apply apply_namespace_transported|done].
  - unfold write_mirror_config, write. simpl. by destruct (apply_mirror_config now d r).
  - unfold write_job, write. simpl. by destruct (apply_job now d r).
  - unfold write_token, write. simpl. by destruct (apply_token d r).
Qed.

End router.
