(* ===== verification/Push.v ===== *)
(** The manifest write handlers (crates/layerhouse-server/src/routes/manifests.rs:
    [put_manifest] and [delete_manifest]) between the middleware, the permission
    check and the replicated store. *)

From Stdlib Require Import Ascii.
From stdpp Require Import options.
From S2P Require Import Prelude Errors Digests Manifests Permissions Principals Handles.
From S2P Require Import SyncRuns Types StateMachine RefCounts Samples Reach Content Namespaces.
From S2P Require Import Authorization Decisions Middleware Router.

Section push.
Context `{SJ : SerdeJson, OR : Openraft, EX : Externals, CE : !Cedar, AU : !Authentication}.

(** What a push handler finds in its request and its environment: the attached
    identity and access, the body ([None] if it cannot be read within 10 MiB), the
    blob store's answers, the header syntax check, the clock, the states of the
    store at its reads, and what becomes of the write. *)
Record PushContext := MkPushContext {
  px_auth : option AuthServiceConfig;
  px_identity : option AuthIdentity;
  px_access : option AuthorizedRepositoryAccess;
  px_content_type : option string;
  px_body : option (list Byte.byte);
  px_has_blob : Digest → bool;
  px_header_ok : string → bool;
  px_now : N;
  px_recheck : StateMachineData;
  px_update_reads : Reads;
  px_local : StateMachineData;
}.

Record PushResponse := MkPushResponse {
  pr_location : string;
  pr_digest : string;
  pr_subject : option string;
}.

(** The blob checks: the first referenced blob that is missing. *)
Fixpoint check_blobs (has_blob : Digest → bool) (digests : list Digest) : result () :=
  match digests with
  | [] => Ok ()
  | d :: ds => if has_blob d then check_blobs has_blob ds
               else Err (ManifestBlobUnknown [Disp (digest_to_string d)])
  end.

(** [filter(|digest| seen.insert(digest.to_string()))]. *)
Fixpoint unique_digests (seen : list string) (digests : list Digest) : list Digest :=
  match digests with
  | [] => []
  | d :: ds =>
      if bool_decide (digest_to_string d ∈ seen) then unique_digests seen ds
      else d :: unique_digests (digest_to_string d :: seen) ds
  end.

(** The write-time action re-check: the epoch to commit under, and whether the
    reference must be absent. *)
Definition recheck (px : PushContext) (name reference : string)
    : result (option NamespaceEpoch * bool) :=
  let expected_namespace := px_access px ≫= aa_expected_namespace in
  let require_reference_absent :=
    bool_decide (is_Some (px_auth px)) &&
    match px_access px with Some access => bool_decide (aa_action access = Create) | None => true end in
  match px_auth px with
  | None => Ok (expected_namespace, require_reference_absent)
  | Some auth =>
      match get_manifest (px_recheck px) name reference with
      | None => Ok (expected_namespace, require_reference_absent)
      | Some _ =>
          who ← ok_or (unauthorized "authentication required") (px_identity px);
          update_access ← check_permission (as_policy_sets auth) who name Update (px_update_reads px);
          Ok (match expected_namespace with
              | Some e => Some e
              | None => aa_expected_namespace update_access
              end, false)
      end
  end.

(** [put_manifest] up to the write. *)
Definition prepare_put (px : PushContext) (name reference : string)
    : result (ManifestEntry * option NamespaceEpoch * bool) :=
  body ← ok_or (ManifestInvalid [Lit "cannot read body"]) (px_body px);
  let content_type := default "application/vnd.oci.image.manifest.v1+json" (px_content_type px) in
  if negb (is_manifest_media_type content_type) then
    Err (ManifestInvalid [Lit "unsupported media type: "; Disp content_type])
  else
    parsed ← ok_or (ManifestInvalid [Lit "invalid JSON: "]) (from_slice body);
    let digests := extract_referenced_digests parsed in
    _ ← check_blobs (px_has_blob px) digests;
    '(expected_namespace, require_reference_absent) ← recheck px name reference;
    Ok (from_parsed_json sha256_hex (px_now px) parsed content_type body (unique_digests [] digests),
        expected_namespace, require_reference_absent).

Definition header_value (px : PushContext) (v : string) : result string :=
  if px_header_ok px v then Ok v else Err (Serialization [Lit "invalid header value"]).

Definition put_manifest_handler (px : PushContext) (c : Commit) (name reference : string)
    : result PushResponse :=
  '(entry, expected_namespace, require_reference_absent) ← prepare_put px name reference;
  _ ← (if bool_decide (is_Some (px_auth px)) then
         put_manifest_with_expected_namespace c name reference entry expected_namespace
           require_reference_absent
       else put_manifest c (px_local px) name reference entry);
  let digest := digest_to_string (me_digest entry) in
  location ← header_value px ("/v2/" +:+ name +:+ "/manifests/" +:+ digest);
  digest ← header_value px digest;
  subject ← match me_subject entry with
            | Some s => Some <$> header_value px (digest_to_string s)
            | None => Ok None
            end;
  Ok (MkPushResponse location digest subject).

Definition delete_manifest_handler (px : PushContext) (c : Commit) (name reference : string) : result () :=
  let expected_namespace := px_access px ≫= aa_expected_namespace in
  digest ← ok_or (Unsupported [Lit "tag deletion not supported"]) (from_str_checked reference);
  if bool_decide (is_Some (px_auth px)) then
    delete_manifest_with_expected_namespace c name digest expected_namespace
  else delete_manifest c (px_local px) name digest.

(** * Lemmas *)

Lemma prepare_put_Ok px name reference entry exp absent :
  prepare_put px name reference = Ok (entry, exp, absent) →
  recheck px name reference = Ok (exp, absent).
Proof.
  unfold prepare_put. intros (body & _ & H)%result_bind_Ok. cbn zeta in H.
  destruct (negb _); [done|]. apply result_bind_Ok in H as (v & _ & H).
  apply result_bind_Ok in H as (u & _ & H). apply result_bind_Ok in H as ([e a] & Hr & H).
  injection H as _ <- <-. done.
Qed.

Lemma put_Ok px t d name reference resp :
  put_manifest_handler px (CommitAt t d) name reference = Ok resp → is_Some (px_auth px) →
  ∃ entry exp absent, recheck px name reference = Ok (exp, absent) ∧
    is_ok (apply_manifest d (put_manifest_request name reference entry exp absent)).2 = true.
Proof.
  intros H Ha. apply result_bind_Ok in H as ([[entry exp] absent] & Hp%prepare_put_Ok & H).
  exists entry, exp, absent. split; [done|].
  rewrite bool_decide_eq_true_2 in H by done. apply result_bind_Ok in H as (u & H & _).
  apply result_bind_Ok in H as (r & H & _). rewrite write_manifest_at in H. by rewrite H.
Qed.

(** A push that must find its tag absent fails where the tag exists. *)
Lemma absent_push_fails d name reference entry exp :
  Str.contains_char ":" reference = false → is_Some (get_manifest d name reference) →
  is_ok (apply_manifest d (put_manifest_request name reference entry exp true)).2 = false.
Proof.
  intros Hr Hm. unfold put_manifest_request. simpl. unfold apply_put_manifest. rewrite Hr.
  destruct (require_expected_namespace d name exp); simpl; [|done..].
  by rewrite bool_decide_eq_true_2.
Qed.

(** What an accepted overwrite rests on: the re-check of the handler, or an access that the
    middleware attached and that is for more than creating. *)
Lemma overwrite_access px name reference t d resp auth :
  px_auth px = Some auth → put_manifest_handler px (CommitAt t d) name reference = Ok resp →
  Str.contains_char ":" reference = false → is_Some (get_manifest d name reference) →
  (∃ who granted, px_identity px = Some who ∧
     check_permission (as_policy_sets auth) who name Update (px_update_reads px) = Ok granted) ∨
  ∃ granted, px_access px = Some granted ∧ aa_action granted ≠ Create.
Proof.
  intros Hauth Hok Htag Hover.
  destruct (put_Ok _ _ _ _ _ _ Hok) as (entry & exp & absent & Hre & Happ); [by rewrite Hauth|].
  destruct absent; [by rewrite (absent_push_fails _ _ _ _ _ Htag Hover) in Happ|].
  unfold recheck in Hre. rewrite Hauth in Hre. destruct (get_manifest (px_recheck px) name reference).
  - left. apply result_bind_Ok in Hre as (who & Hw%ok_or_Ok & Hre).
    apply result_bind_Ok in Hre as (u & Hu & _). by exists who, u.
  - right. injection Hre as _ Hre. destruct (px_access px) as [g|]; [|done]. simpl in Hre.
    apply bool_decide_eq_false in Hre. by exists g.
Qed.

(** The middleware attaches an access only to requests to the registry. *)
Lemma attached_access auth now rd req i granted :
  auth_middleware (Some auth) now rd req = Forward i (Some granted) →
  ∃ who, i = Some who ∧
    check_permission (as_policy_sets auth) who (extract_repository_from_path (rq_path req))
      (resolve_oci_action (mr_action rd) (rq_path req) (rq_method req)) (mr_permission rd) = Ok granted.
Proof.
  unfold auth_middleware. destruct (is_public_path _); [done|]. destruct (_ && _); [done|].
  destruct (_ && _); [done|]. destruct (_ && _); [done|]. destruct (authenticate_request _ _) as [[who|]|e|].
  - unfold authorize_request. destruct (Str.starts_with "/v2/" (rq_path req)) eqn:Hv; cbn [default].
    + destruct (check_permission _ who _ _ _) as [g| |] eqn:Hc; [|done..].
      intros H. exists who. destruct (_ && _); [|by simplify_eq].
      destruct (check_admin_access _ _ _); by simplify_eq.
    + destruct (_ && _); [destruct (check_admin_access _ _ _)|]; done.
  - destruct (bool_decide _); [done|]. unfold auth_required_response. by repeat case_match.
  - unfold session_cookie_auth_error_response. by repeat case_match.
  - done.
Qed.

Lemma contains_char_rev c s : Str.contains_char c (Str.rev s) = Str.contains_char c s.
Proof. unfold Str.contains_char. by rewrite all_rev. Qed.

(** A PUT that the middleware takes for an overwrite names, on a path without escapes, the
    repository that is served. *)
Lemma overwrite_path rd path p name reference :
  resolve_oci_action (mr_action rd) path PUT = Update → path = "/v2/" +:+ p →
  dispatch_route p = RManifest name reference → Str.contains_char "%" p = false →
  extract_repository_from_path path = name.
Proof.
  intros Ha -> Hroute Hpct. unfold resolve_oci_action in Ha. simpl in Ha.
  destruct (manifest_put_target _) as [[n r]|] eqn:E; [|done]. unfold manifest_put_target in E.
  rewrite strip_prefix_app in E. cbn [mbind option_bind] in E.
  destruct (rsplit_str "/manifests/" p) as [[n' r']|] eqn:Er; [|done]. cbn [mbind option_bind] in E.
  destruct (Str.is_empty n') eqn:En; [done|]. destruct (Str.is_empty r') eqn:Ee; [done|].
  destruct (Str.contains_char "/" r') eqn:Ec; [done|]. simplify_eq/=.
  pose proof (rsplit_str_Some _ _ _ _ Er) as Hp.
  assert (Str.ends_with "/" p = false) as Hslash.
  { destruct (Str.ends_with "/" p) eqn:Hs; [|done]. apply ends_with_true in Hs as [q Hq].
    exfalso. apply (f_equal Str.rev) in Hq. rewrite Hp, !rev_app in Hq.
    destruct (Str.rev r) as [|a x] eqn:Ex; [by rewrite <-(rev_involutive_str r), Ex in Ee|].
    rewrite <-contains_char_rev, Ex, contains_char_cons in Ec. apply orb_false_iff in Ec as [Ec%bool_decide_eq_false _].
    by injection Hq as Hq _. }
  apply route_is_extracted; [done..|by rewrite Hroute|].
  intros ->. unfold dispatch_route in Hroute. rewrite trim_end_slashes_id in Hroute by done.
  change (split_at p ["manifests"]) with (rsplit_str "/manifests/" p) in Hroute. rewrite Er in Hroute.
  by repeat (case_match; simplify_eq/=).
Qed.

(** C8: overwriting needs the update permission, whatever happens between the checks and
    the commit and however the path is spelled. If a push to a tag was let through by the
    middleware, with whatever identity and access it attached, was handed to the manifest
    handler and was committed in a state where the tag already existed, then its identity
    was granted [Update] on that very repository by the handler's re-check at write time,
    or by the middleware on the repository it reads from the path, which is that very
    repository unless the path has percent-escapes. [decode] is the path decoding in front
    of the dispatcher. *)
Theorem overwrite_needs_update (decode : string → option string)
    (Hdecode : ∀ p, Str.contains_char "%" p = false → decode p = Some p)
    auth now rd req p param name reference px t d resp
    (Hf : auth_middleware (Some auth) now rd req = Forward (px_identity px) (px_access px))
    (Hput : rq_method req = PUT) (Hpath : rq_path req = "/v2/" +:+ p) (Hparam : decode p = Some param)
    (Hroute : dispatch_route param = RManifest name reference)
    (Hauth : px_auth px = Some auth)
    (Hok : put_manifest_handler px (CommitAt t d) name reference = Ok resp)
    (Htag : Str.contains_char ":" reference = false)
    (Hover : is_Some (get_manifest d name reference)) :
  ∃ who granted, px_identity px = Some who ∧
    (check_permission (as_policy_sets auth) who name Update (px_update_reads px) = Ok granted ∨
     ∃ repository, check_permission (as_policy_sets auth) who repository Update (mr_permission rd) = Ok granted ∧
       repository = extract_repository_from_path (rq_path req) ∧
       (Str.contains_char "%" p = false → repository = name)).
Proof.
  destruct (overwrite_access px name reference t d resp auth Hauth Hok Htag Hover)
    as [(who & g & Hw & Hc)|(g & Hacc & Hg)]; [exists who, g; auto|].
  rewrite Hacc in Hf. destruct (attached_access _ _ _ _ _ _ Hf) as (who & Hw & Hc). rewrite Hput in Hc.
  assert (resolve_oci_action (mr_action rd) (rq_path req) PUT = Update) as Ha.
  { pose proof Hc as (ex & res & _ & -> & _)%check_permission_Ok. simpl in Hg. revert Hg.
    unfold resolve_oci_action. simpl. by repeat case_match. }
  rewrite Ha in Hc. exists who, g. split; [done|]. right. eexists. split; [exact Hc|]. split; [done|].
  intros Hpct. rewrite (Hdecode p Hpct) in Hparam. injection Hparam as <-. by eapply overwrite_path.
Qed.
End push.

(** * A race on a tag, evaluated *)

(** The middleware saw no tag and asked for [Create]; the tag is there when the
    handler looks again. *)
Definition taken : StateMachineData := run claimed [push "acme/app" "latest" manifest_digest].
Definition alice_put : HttpRequest :=
  MkHttpRequest PUT "/v2/acme/app/manifests/latest" None (Some "registry") (Some "Bearer alice-token") [].
Definition racing_push (i : option AuthIdentity) (a : option AuthorizedRepositoryAccess) : PushContext :=
  MkPushContext (Some sample_auth) i a None (Some body) (λ _, true) (λ _, true) 100 taken
    (at_once taken) taken.

Lemma overwrite_needs_update_witness :
  ∃ who granted, auth_middleware (Some sample_auth) 0 (all_reads claimed) alice_put =
      Forward (Some who) (Some granted) ∧ aa_action granted = Create ∧
    ∃ reads update, check_permission [] who "acme/app" Update reads = Ok update.
Proof.
  destruct (auth_middleware (Some sample_auth) 0 (all_reads claimed) alice_put) as [i a| | | |] eqn:E;
    [|vm_compute in E; discriminate E..].
  pose proof E as E'. vm_compute in E'. injection E' as Hi Ha.
  destruct (put_manifest_handler (racing_push i a) (CommitAt 0 taken) "acme/app" "latest")
    as [resp| |] eqn:Ep; [|rewrite <-Hi, <-Ha in Ep; vm_compute in Ep; discriminate Ep..].
  destruct (overwrite_needs_update (λ p, Some (percent_decode p))
    ltac:(intros p Hp; cbv beta; by rewrite percent_decode_plain) sample_auth 0 (all_reads claimed) alice_put
    "acme/app/manifests/latest" "acme/app/manifests/latest" "acme/app" "latest" (racing_push i a) 0 taken resp E)
    as (who & u & Hw & Hu).
  - reflexivity.
  - reflexivity.
  - reflexivity.
  - reflexivity.
  - reflexivity.
  - exact Ep.
  - reflexivity.
  - apply (bool_decide_eq_true_1 _). vm_compute. reflexivity.
  - cbn in Hw. rewrite Hw, <-Ha. exists who. eexists.
    split; [reflexivity|]. split; [reflexivity|].
    destruct Hu as [Hu|(repository & Hu & _ & Hr)]; [by eexists _, u|].
    rewrite (Hr eq_refl) in Hu. by eexists _, u.
Defined.
