(* ===== verification/Queries.v ===== *)
(** The read side of the store (crates/layerhouse-server/src/raft/state_machine.rs,
    the listing methods of [StateMachineData]) and the read-only registry routes
    on top of it (routes/tags.rs, routes/catalog.rs, routes/referrers.rs,
    oci/referrers.rs). *)

From Stdlib Require Import Ascii.
From stdpp Require Import options.
From S2P Require Import Prelude Errors Digests Manifests Permissions Principals Handles.
From S2P Require Import SyncRuns Types StateMachine RefCounts Samples Reach Content Middleware.

(** The body the two paged listings share: the keys after [last], in order, at
    most [n] of them. *)
Definition list_keys {A} (m : gmap string A) (n : option N) (last : option string) : list string :=
  let keys := match last with
              | Some last => filter (λ k, Str.gt k last = true) (btree_keys m)
              | None => btree_keys m
              end in
  let keys := merge_sort String.le keys in
  match n with Some n => take (N.to_nat n) keys | None => keys end.

Section queries.
Context `{SJ : SerdeJson, OR : Openraft}.
Implicit Types d : StateMachineData.

Definition blob_lifecycle_status d (digest : Digest) : BlobLifecycleStatus :=
  let digest := digest_to_string digest in
  let ref_count := blob_ref_count_str d digest in
  MkBlobLifecycleStatus digest (bool_decide (0 < ref_count)%N) ref_count
    (bool_decide (is_Some (sm_blob_delete_requests d !! digest))).

Definition list_tags d (name : string) (n : option N) (last : option string) : list string :=
  match sm_tags d !! name with
  | None => []
  | Some repo_tags => list_keys repo_tags n last
  end.

Definition list_repositories d (n : option N) (last : option string) : list string :=
  list_keys (sm_manifests d) n last.

(** [values().map(|m| m.last_modified).max().unwrap_or(0)]. *)
Definition last_modified (repo_manifests : gmap string ManifestEntry) : N :=
  foldl N.max 0%N (me_last_modified <$> btree_values repo_manifests).

Definition pushed_summary d (p : string * gmap string ManifestEntry) : RepositorySummary :=
  let '(name, repo_manifests) := p in
  let meta := sm_repositories d !! name in
  MkRepositorySummary name (default 0 (size <$> sm_tags d !! name)) (size repo_manifests)
    (repository_stored_size_bytes repo_manifests) (repository_manifest_size_bytes repo_manifests)
    (last_modified repo_manifests)
    (default "" (repo_description <$> meta)) (r ← meta; repo_created_by r)
    (default Private (repo_visibility <$> meta)).

(** Repositories that exist as objects and have no pushed manifests. *)
Definition shadow_summary (p : string * Repository) : RepositorySummary :=
  let '(name, repo) := p in
  MkRepositorySummary name 0 0 0 0 (repo_created_at repo) (repo_description repo)
    (repo_created_by repo) (repo_visibility repo).

Definition list_repository_summaries d : list RepositorySummary :=
  (pushed_summary d <$> btree_entries (sm_manifests d)) ++
  (shadow_summary <$>
     filter (λ p, sm_manifests d !! p.1 = None) (btree_entries (sm_repositories d))).

Definition list_manifest_summaries d (name : string) : list ManifestSummary :=
  match sm_manifests d !! name with
  | None => []
  | Some repo_manifests => build_manifest_summaries repo_manifests (sm_tags d !! name)
  end.

Definition referrer_entry (e : ManifestEntry) : ReferrerEntry :=
  MkReferrerEntry (me_digest e) (me_content_type e) (N.of_nat (length (me_body e)))
    (me_artifact_type e) (me_annotations e).

Definition list_referrers d (name subject_digest : string) (artifact_type : option string)
    : list ReferrerEntry :=
  match sm_manifests d !! name with
  | None => []
  | Some repo_manifests =>
      omap (λ e,
        if bool_decide (digest_to_string <$> me_subject e = Some subject_digest) then
          let re := referrer_entry e in
          match artifact_type with
          | Some filter => if bool_decide (re_artifact_type re = Some filter) then Some re else None
          | None => Some re
          end
        else None) (btree_values repo_manifests)
  end.

Definition list_mirror_rules d : list MirrorRule := btree_values (sm_mirror_rules d).
Definition list_proxy_caches d : list ProxyCache := btree_values (sm_proxy_caches d).
Definition list_warm_images d : list WarmImage := btree_values (sm_warm_images d).
Definition list_sync_jobs d : list SyncJob := btree_values (sm_sync_jobs d).

(** The last [limit] runs of a job. *)
Definition list_sync_job_runs d (job_id : string) (limit : nat) : list SyncJobRun :=
  let runs := default [] (sm_sync_job_runs d !! job_id) in
  drop (length runs - limit) runs.

Definition list_namespace_grant_audit d (handle : string) : list NamespaceGrantAuditEvent :=
  default [] (sm_namespace_grant_audit d !! handle).

Definition list_personal_access_tokens d (subject : string) : list PersonalAccessToken :=
  filter (λ t, pat_subject t = subject) (btree_values (sm_personal_access_tokens d)).

Definition get_personal_access_token_by_hash d (token_hash : string) : option PersonalAccessToken :=
  list_find (λ t, pat_token_hash t = token_hash) (btree_values (sm_personal_access_tokens d))
    ≫= λ p, Some p.2.

(** Searching observed identities, for any case folding [to_lowercase]. *)
Section search.
Context (to_lowercase : string → string).

Definition identity_matches (query : string) (i : ObservedIdentity) : bool :=
  let hit v := Str.contains query (to_lowercase v) in
  let opt_hit o := match o with Some v => hit v | None => false end in
  Str.is_empty query || hit (oi_subject i) || opt_hit (oi_username i)
    || opt_hit (oi_display_name i) || opt_hit (oi_email i).

(** Most recently seen first, then by subject. *)
Definition identity_le (a b : ObservedIdentity) : Prop :=
  (oi_last_seen_at b < oi_last_seen_at a)%N ∨
  (oi_last_seen_at a = oi_last_seen_at b ∧ String.le (oi_subject a) (oi_subject b)).
#[global] Instance identity_le_dec a b : Decision (identity_le a b).
Proof. apply _. Defined.

Definition search_observed_identities d (query : string) (limit : nat) : list ObservedIdentity :=
  let query := to_lowercase (Str.trim query) in
  take limit (merge_sort identity_le
    (filter (λ i, identity_matches query i = true) (btree_values (sm_observed_identities d)))).
End search.

(** * Routes *)

(** [routes/tags.rs]: [dispatch] and [list_tags], up to the JSON encoding. *)
Definition tags_dispatch d (method : Method) (name : string) (query : option string)
    : result (string * list string) :=
  if negb (bool_decide (method = GET)) then Err (Unsupported [Lit "method not allowed"])
  else
    let query := query_params query in
    let n := v ← query !! "n"; Str.parse_u64 v in
    let last := query !! "last" in
    Ok (name, list_tags d name n last).

(** [routes/catalog.rs]: [catalog], on the decoded query. *)
Definition catalog d (n : option N) (last : option string) : result (list string) :=
  Ok (list_repositories d n last).

Record ReferrerDescriptor := MkReferrerDescriptor {
  rd_media_type : string;
  rd_digest : string;
  rd_size : N;
  rd_artifact_type : option string;
  rd_annotations : option Value;
}.
Record ReferrerIndex := MkReferrerIndex {
  ri_schema_version : N;
  ri_media_type : string;
  ri_manifests : list ReferrerDescriptor;
}.
Definition ReferrerIndex_empty : ReferrerIndex :=
  MkReferrerIndex 2 "application/vnd.oci.image.index.v1+json" [].

(** [routes/referrers.rs]: the index and whether the filter header is set. *)
Definition referrer_descriptor (e : ReferrerEntry) : ReferrerDescriptor :=
  MkReferrerDescriptor (re_media_type e) (digest_to_string (re_digest e)) (re_size e)
    (re_artifact_type e) (re_annotations e).
Definition referrers_dispatch d (method : Method) (name digest_str : string) (query : option string)
    : result (ReferrerIndex * bool) :=
  if negb (bool_decide (method = GET)) then Err (Unsupported [Lit "method not allowed"])
  else
    let query := query_params query in
    digest ← digest_try_from digest_str;
    let artifact_type := query !! "artifactType" in
    let entries := list_referrers d name (digest_to_string digest) artifact_type in
    let index := ReferrerIndex_empty in
    Ok (MkReferrerIndex (ri_schema_version index) (ri_media_type index)
          (referrer_descriptor <$> entries),
        bool_decide (is_Some artifact_type)).
End queries.

(** * Paging *)

(** [a] comes strictly before [b]. *)
Definition slt (a b : string) : Prop := Str.gt b a = true.

Lemma slt_iff a b : slt a b ↔ String.le a b ∧ a ≠ b.
Proof.
  unfold slt, Str.gt. rewrite negb_true_iff, bool_decide_eq_false. split.
  - intros Hn. split; [by destruct (total String.le a b)|]. by intros ->; apply Hn.
  - intros [Hle Hne] Hle'. by apply Hne, (anti_symm String.le).
Qed.

#[local] Instance slt_trans : Transitive slt.
Proof.
  intros a b c [H1 N1]%slt_iff [H2 N2]%slt_iff. apply slt_iff. split; [by etrans|].
  intros ->. by apply N1, (anti_symm String.le).
Qed.
#[local] Instance slt_irrefl : Irreflexive slt.
Proof. intros a [_ ?]%slt_iff. done. Qed.

Lemma strictly_sorted l : StronglySorted String.le l → NoDup l → StronglySorted slt l.
Proof.
  induction 1 as [|a l _ IH Ha]; intros Hn; constructor; apply NoDup_cons in Hn as [Hin Hn]; [by auto|].
  apply Forall_forall. intros b Hb. rewrite Forall_forall in Ha. apply slt_iff. split; [auto|]. by intros ->.
Qed.

Lemma sorted_NoDup l : StronglySorted slt l → NoDup l.
Proof.
  induction 1 as [|a l _ IH Ha]; constructor; [|done]. intros Hin. rewrite Forall_forall in Ha.
  by apply (irreflexivity slt a), Ha.
Qed.

Lemma strongly_sorted_app (R : relation string) l1 l2 :
  StronglySorted R l1 → StronglySorted R l2 → (∀ a b, a ∈ l1 → b ∈ l2 → R a b) →
  StronglySorted R (l1 ++ l2).
Proof.
  induction 1 as [|a l1 _ IH Ha]; intros Hl2 HR; simpl; [done|]. constructor; [apply IH; set_solver|].
  apply Forall_app. split; [done|]. apply Forall_forall. set_solver.
Qed.

(** In a sorted list the last element of a prefix is above the prefix and below the rest. *)
Lemma sorted_last_max (l : list string) x : StronglySorted slt l → last l = Some x →
  ∀ y, y ∈ l → y = x ∨ slt y x.
Proof.
  intros Hs Hl y Hy. apply last_Some in Hl as [l' ->].
  apply elem_of_app in Hy as [Hy|?%list_elem_of_singleton]; [right|by left].
  induction l' as [|a l' IH]; [by apply elem_of_nil in Hy|]. simpl in Hs. inversion Hs as [|? ? Hs' Ha]; subst.
  apply elem_of_cons in Hy as [->|Hy]; [|by apply IH]. rewrite Forall_forall in Ha. apply Ha. set_solver.
Qed.

Lemma sorted_take_drop (l : list string) n : StronglySorted slt l →
  StronglySorted slt (take n l) ∧ ∀ a b, a ∈ take n l → b ∈ drop n l → slt a b.
Proof.
  revert n. induction l as [|x l IH]; intros [|n] Hs; simpl; try (split; [constructor|set_solver]).
  inversion Hs as [|? ? Hs' Hx]; subst. destruct (IH n Hs') as [H1 H2].
  rewrite Forall_forall in Hx. split.
  - constructor; [done|]. apply Forall_forall. intros y Hy. by apply Hx, (subseteq_take n).
  - intros a b [->|Ha]%elem_of_cons Hb; [by apply Hx, (subseteq_drop n)|by apply H2].
Qed.

(** The keys after [last]. *)
Definition after (last : option string) (k : string) : Prop :=
  match last with Some l => slt l k | None => True end.

Section list_keys.
Context {A : Type}.
Implicit Types m : gmap string A.

Lemma list_keys_all m last :
  StronglySorted slt (list_keys m None last) ∧
  ∀ k, k ∈ list_keys m None last ↔ is_Some (m !! k) ∧ after last k.
Proof.
  unfold list_keys. split.
  - apply strictly_sorted; [apply (StronglySorted_merge_sort _)|].
    rewrite merge_sort_Permutation. destruct last; [apply NoDup_filter|]; apply NoDup_btree_keys.
  - intros k. rewrite merge_sort_Permutation. destruct last as [l|]; simpl.
    + rewrite list_elem_of_filter, elem_of_btree_keys. unfold slt. tauto.
    + rewrite elem_of_btree_keys. tauto.
Qed.

Lemma list_keys_take m n last :
  list_keys m (Some n) last = take (N.to_nat n) (list_keys m None last).
Proof. done. Qed.

(** Going on after the last key of a page leaves strictly fewer keys. *)
Lemma list_keys_shrinks m n last l :
  list.last (list_keys m (Some n) last) = Some l →
  length (list_keys m None (Some l)) < length (list_keys m None last).
Proof.
  intros Hl. destruct (list_keys_all m last) as [Hs1 H1]. destruct (list_keys_all m (Some l)) as [Hs2 H2].
  assert (l ∈ list_keys m None last) as Hin.
  { rewrite list_keys_take in Hl. apply (subseteq_take (N.to_nat n)). apply last_Some in Hl as [l' ->]. set_solver. }
  assert (l :: list_keys m None (Some l) ⊆+ list_keys m None last) as Hsub.
  { apply NoDup_submseteq.
    - apply NoDup_cons. split; [|by apply sorted_NoDup]. rewrite H2. intros [_ ?].
      by apply (irreflexivity slt l).
    - intros k [->|[Hk Hlk]%H2]%elem_of_cons; [done|]. apply H1. split; [done|].
      apply H1 in Hin as [_ Hin]. destruct last as [l0|]; simpl in *; [by etrans|done]. }
  apply submseteq_length in Hsub. cbn [length] in Hsub. lia.
Qed.
End list_keys.

(** A client that walks through the pages of a listing: each request is answered
    in the state the store has at that time, and asks for what comes after the
    last name it has seen, until a page is empty. [None]: the walk is not over. *)
Fixpoint walk {D} (page : D → option string → list string) (ds : list D) (after : option string)
    : option (list string) :=
  match ds with
  | [] => None
  | d :: ds' =>
      match page d after with
      | [] => Some []
      | names => app names <$> walk page ds' (last names)
      end
  end.

Section walk.
Context {D A : Type} (keys : D → gmap string A) (n : N) (Hn : (0 < n)%N).
Let page (d : D) (last : option string) := list_keys (keys d) (Some n) last.

Lemma walk_spec ds start names :
  walk page ds start = Some names →
  StronglySorted slt names ∧ (∀ k, k ∈ names → after start k ∧ ∃ d, d ∈ ds ∧ is_Some (keys d !! k)) ∧
  (∀ k, (∀ d, d ∈ ds → is_Some (keys d !! k)) → after start k → k ∈ names).
Proof using Hn.
  revert start names. induction ds as [|d ds IH]; intros start names; simpl; [done|].
  destruct (list_keys_all (keys d) start) as [Hs Hk].
  set (all := list_keys (keys d) None start) in *.
  assert (page d start = take (N.to_nat n) all) as Hpage by done.
  destruct (sorted_take_drop all (N.to_nat n) Hs) as [Hst Hsd].
  destruct (page d start) as [|x xs] eqn:E.
  - intros [= <-]. split; [constructor|]. split; [set_solver|]. intros k Hall Haft. exfalso.
    assert (k ∈ all) as Hin by (apply Hk; split; [apply Hall; by left|done]).
    destruct all as [|y all']; [by apply elem_of_nil in Hin|]. destruct (N.to_nat n) eqn:En; [lia|done].
  - intros (names' & Hw & ->)%fmap_Some. change (x :: xs ++ names') with ((x :: xs) ++ names').
    rewrite Hpage in Hw |- *.
    destruct (last (take (N.to_nat n) all)) as [l|] eqn:El;
      [|apply last_None in El; congruence].
    apply IH in Hw as (Hs' & Hk' & Hall').
    pose proof (sorted_last_max _ _ Hst El) as Hmax.
    assert (∀ k, k ∈ take (N.to_nat n) all → k ∈ all) as Hsub by (intros k; apply subseteq_take).
    split; [|split].
    + apply strongly_sorted_app; [done..|]. intros a b Ha [Hb _]%Hk'. simpl in Hb.
      destruct (Hmax a Ha) as [->|?]; [done|by etrans].
    + intros k [Hin|Hin]%elem_of_app.
      * apply Hsub, Hk in Hin as [? ?]. split; [done|]. exists d. split; [by left|done].
      * apply Hk' in Hin as [Hlk (d' & ? & ?)]. split; [|exists d'; by split; [right|]].
        assert (l ∈ all) as [_ Hl]%Hk by (apply Hsub; apply last_Some in El as [? ->]; set_solver).
        destruct start; simpl in *; [by etrans|done].
    + intros k Hall Haft. assert (k ∈ all) as Hin by (apply Hk; split; [apply Hall; by left|done]).
      apply elem_of_app. rewrite <-(take_drop (N.to_nat n) all) in Hin.
      apply elem_of_app in Hin as [Hin|Hin]; [by left|right]. apply Hall'; [by intros d' ?; apply Hall; right|].
      apply Hsd; [|done]. apply last_Some in El as [? ->]. set_solver.
Qed.

Lemma walk_ends d k start :
  length (list_keys (keys d) None start) < k → is_Some (walk page (replicate k d) start).
Proof using Type.
  clear Hn. revert start. induction k as [|k IH]; intros start Hk; [lia|]. simpl.
  destruct (page d start) as [|x xs] eqn:E; [by eexists|].
  apply fmap_is_Some. destruct (last (x :: xs)) as [l|] eqn:El; [|by apply last_None in El].
  apply IH. pose proof (list_keys_shrinks (keys d) n start l) as Hsh. rewrite <-E in El.
  specialize (Hsh El). lia.
Qed.
End walk.

Section properties.
Context `{SJ : SerdeJson, OR : Openraft}.

(** The tags and the repositories as the maps their listings walk over. *)
Definition tags_in (d : StateMachineData) (name : string) : gmap string string :=
  default ∅ (sm_tags d !! name).

Lemma list_keys_empty {A} n last : list_keys (∅ : gmap string A) n last = [].
Proof.
  unfold list_keys, btree_keys. rewrite dom_empty_L, elements_empty. simpl.
  by destruct last, n as [n|]; [destruct (N.to_nat n)| |destruct (N.to_nat n)|].
Qed.

Lemma list_tags_keys d name n last : list_tags d name n last = list_keys (tags_in d name) n last.
Proof.
  unfold list_tags, tags_in. destruct (sm_tags d !! name); [done|]. simpl. by rewrite list_keys_empty.
Qed.

(** Paging through the tags of a repository is complete. A client that asks
    for pages of [n > 0] tags, each after the last tag it has seen, until a page
    is empty, sees names in strictly increasing order, each of them a tag at the
    time of some page, and every tag that exists during the whole walk exactly
    once, whatever is pushed and deleted meanwhile; and if nothing changes the
    walk is over after one request more than there are tags at the latest. *)
Theorem tag_paging_complete (name : string) (n : N) (Hn : (0 < n)%N) :
  (∀ ds names, walk (λ d, list_tags d name (Some n)) ds None = Some names →
     StronglySorted slt names ∧ NoDup names ∧
     (∀ t, t ∈ names → ∃ d, d ∈ ds ∧ is_Some (tags_in d name !! t)) ∧
     (∀ t, (∀ d, d ∈ ds → is_Some (tags_in d name !! t)) → t ∈ names)) ∧
  (∀ d, is_Some (walk (λ d, list_tags d name (Some n)) (replicate (S (size (tags_in d name))) d) None)).
Proof.
  assert (∀ ds start, walk (λ d, list_tags d name (Some n)) ds start =
    walk (λ d, list_keys (tags_in d name) (Some n)) ds start) as Hw.
  { induction ds as [|d ds IH]; intros start; cbn [walk]; [done|]. rewrite list_tags_keys.
    destruct (list_keys (tags_in d name) (Some n) start); [done|]. by rewrite IH. }
  split.
  - intros ds names. rewrite Hw. intros (Hs & Hk & Hall)%(walk_spec (λ d, tags_in d name) n Hn).
    split; [done|]. split; [by apply sorted_NoDup|]. split.
    + intros t Ht. by apply Hk.
    + intros t Ht. by apply Hall.
  - intros d. rewrite Hw. apply (walk_ends (λ d, tags_in d name) n). unfold list_keys.
    rewrite merge_sort_Permutation, btree_keys_perm.
    change (length (elements (dom ?m))) with (size (dom m)). rewrite size_dom. lia.
Qed.
(** The referrers index is exact. For a valid digest it lists the descriptors
    of exactly the manifests of the repository whose subject is that digest, and
    of the asked artifact type if the query names one, which the answer then says;
    for any other digest, or method, the request is refused. *)
Theorem referrers_exact (d : StateMachineData) (name digest_str : string) (query : option string) :
  let artifact_type := query_params query !! "artifactType" in
  match referrers_dispatch d GET name digest_str query with
  | Ok (index, filtered) =>
      is_Some (from_str_checked digest_str) ∧ filtered = bool_decide (is_Some artifact_type) ∧
      ri_manifests index ≡ₚ
        (referrer_descriptor ∘ referrer_entry <$>
           filter (λ e, digest_to_string <$> me_subject e = Some digest_str ∧
                        (artifact_type = None ∨ me_artifact_type e = artifact_type))
             (map_to_list (default ∅ (sm_manifests d !! name))).*2)
  | Err e => e = DigestInvalid [Disp digest_str] ∧ from_str_checked digest_str = None
  | Panic => False
  end ∧
  (∀ m, m ≠ GET → referrers_dispatch d m name digest_str query = Err (Unsupported [Lit "method not allowed"])).
Proof.
  cbn zeta. split; [|intros m Hm; unfold referrers_dispatch; by rewrite bool_decide_eq_false_2].
  unfold referrers_dispatch, digest_try_from. cbn [negb].
  destruct (from_str_checked digest_str) as [dg|] eqn:E; [|done]. cbn [ok_or mbind result_bind negb bool_decide].
  split; [done|]. split; [done|]. apply from_str_checked_Some in E as [-> _]. cbn [ri_manifests].
  rewrite list_fmap_compose. apply fmap_Permutation. unfold list_referrers.
  destruct (sm_manifests d !! name) as [repo|]; cbn [default from_option id];
    [|rewrite map_to_list_empty; apply perm_nil].
  unfold btree_values. rewrite <-btree_entries_perm.
  generalize (btree_entries repo).*2. intros es.
  induction es as [|e es IH]; [apply perm_nil|]. rewrite filter_cons. simpl.
  case_bool_decide as Hs; [destruct (_ !! "artifactType") as [t|]; [case_bool_decide as Ht|]|];
    case_decide; simpl; rewrite <-?IH; naive_solver.
Qed.
End properties.

Lemma tag_paging_complete_witness :
  (0 < 1)%N ∧
  walk (λ d, list_tags d "acme/app" (Some 1%N)) [sample_state; sample_state] None = Some ["latest"] ∧
  NoDup ["latest"] ∧ is_Some (walk (λ d, list_tags d "acme/app" (Some 1%N))
    (replicate (S (size (tags_in sample_state "acme/app"))) sample_state) None).
Proof.
  assert (0 < 1)%N as H by lia.
  destruct (tag_paging_complete "acme/app" 1 H) as [H1 H2].
  assert (walk (λ d, list_tags d "acme/app" (Some 1%N)) [sample_state; sample_state] None = Some ["latest"])
    as Hw by (vm_compute; reflexivity).
  split; [exact H|]. split; [exact Hw|]. split; [exact (proj1 (proj2 (H1 _ _ Hw)))|apply H2].
Defined.
