(* ===== verification/InMemory.v ===== *)
(** The in-memory metadata store (crates/layerhouse-server/src/store/metadata/in_memory.rs),
    the second implementation of the store's traits, on which the tests of the
    server run. Each method holds the lock of the state from beginning to end, so
    a call is one step from a state to a state; [now] is [now_epoch()].

    [Stores] compares it with the replicated store. *)

From Stdlib Require Import Ascii.
From stdpp Require Import options.
From S2P Require Import Prelude Errors Digests Manifests Permissions Principals Handles.
From S2P Require Import SyncRuns Types StateMachine Queries.

Section in_memory.
Context `{SJ : SerdeJson, EX : Externals}.

Record InMemoryState := MkInMemoryState {
  im_manifests : gmap string (gmap string ManifestEntry);
  im_tags : gmap string (gmap string Digest);
  im_blob_ref_counts : gmap string N;
  im_blob_delete_requests : gmap string N;
  im_mirror_rules : gmap string MirrorRule;
  im_proxy_caches : gmap string ProxyCache;
  im_proxy_cache_tag_validations : ProxyCacheTagValidations;
  im_warm_images : gmap string WarmImage;
  im_sync_jobs : gmap string SyncJob;
  im_sync_job_runs : gmap string (list SyncJobRun);
  im_personal_access_tokens : gmap string PersonalAccessToken;
  im_policy_sets : gmap string PolicySet;
  im_repositories : gmap string Repository;
  im_namespaces : gmap string Namespace;
  im_released_handles : gmap string ReleasedHandle;
  im_namespace_grants : gmap string (gmap string NamespaceGrant);
  im_observed_identities : gmap Subject ObservedIdentity;
  im_namespace_grant_audit : gmap string (list NamespaceGrantAuditEvent);
}.

Definition set_im_manifests (v : gmap string (gmap string ManifestEntry)) (s : InMemoryState) : InMemoryState :=
  MkInMemoryState v (im_tags s) (im_blob_ref_counts s) (im_blob_delete_requests s)
    (im_mirror_rules s) (im_proxy_caches s) (im_proxy_cache_tag_validations s)
    (im_warm_images s) (im_sync_jobs s) (im_sync_job_runs s) (im_personal_access_tokens s)
    (im_policy_sets s) (im_repositories s) (im_namespaces s) (im_released_handles s)
    (im_namespace_grants s) (im_observed_identities s) (im_namespace_grant_audit s).
Definition set_im_tags (v : gmap string (gmap string Digest)) (s : InMemoryState) : InMemoryState :=
  MkInMemoryState (im_manifests s) v (im_blob_ref_counts s) (im_blob_delete_requests s)
    (im_mirror_rules s) (im_proxy_caches s) (im_proxy_cache_tag_validations s)
    (im_warm_images s) (im_sync_jobs s) (im_sync_job_runs s) (im_personal_access_tokens s)
    (im_policy_sets s) (im_repositories s) (im_namespaces s) (im_released_handles s)
    (im_namespace_grants s) (im_observed_identities s) (im_namespace_grant_audit s).
Definition set_im_blob_ref_counts (v : gmap string N) (s : InMemoryState) : InMemoryState :=
  MkInMemoryState (im_manifests s) (im_tags s) v (im_blob_delete_requests s)
    (im_mirror_rules s) (im_proxy_caches s) (im_proxy_cache_tag_validations s)
    (im_warm_images s) (im_sync_jobs s) (im_sync_job_runs s) (im_personal_access_tokens s)
    (im_policy_sets s) (im_repositories s) (im_namespaces s) (im_released_handles s)
    (im_namespace_grants s) (im_observed_identities s) (im_namespace_grant_audit s).
Definition set_im_blob_delete_requests (v : gmap string N) (s : InMemoryState) : InMemoryState :=
  MkInMemoryState (im_manifests s) (im_tags s) (im_blob_ref_counts s) v (im_mirror_rules s)
    (im_proxy_caches s) (im_proxy_cache_tag_validations s) (im_warm_images s)
    (im_sync_jobs s) (im_sync_job_runs s) (im_personal_access_tokens s) (im_policy_sets s)
    (im_repositories s) (im_namespaces s) (im_released_handles s) (im_namespace_grants s)
    (im_observed_identities s) (im_namespace_grant_audit s).
Definition set_im_mirror_rules (v : gmap string MirrorRule) (s : InMemoryState) : InMemoryState :=
  MkInMemoryState (im_manifests s) (im_tags s) (im_blob_ref_counts s)
    (im_blob_delete_requests s) v (im_proxy_caches s) (im_proxy_cache_tag_validations s)
    (im_warm_images s) (im_sync_jobs s) (im_sync_job_runs s) (im_personal_access_tokens s)
    (im_policy_sets s) (im_repositories s) (im_namespaces s) (im_released_handles s)
    (im_namespace_grants s) (im_observed_identities s) (im_namespace_grant_audit s).
Definition set_im_proxy_caches (v : gmap string ProxyCache) (s : InMemoryState) : InMemoryState :=
  MkInMemoryState (im_manifests s) (im_tags s) (im_blob_ref_counts s)
    (im_blob_delete_requests s) (im_mirror_rules s) v (im_proxy_cache_tag_validations s)
    (im_warm_images s) (im_sync_jobs s) (im_sync_job_runs s) (im_personal_access_tokens s)
    (im_policy_sets s) (im_repositories s) (im_namespaces s) (im_released_handles s)
    (im_namespace_grants s) (im_observed_identities s) (im_namespace_grant_audit s).
Definition set_im_proxy_cache_tag_validations (v : ProxyCacheTagValidations) (s : InMemoryState) : InMemoryState :=
  MkInMemoryState (im_manifests s) (im_tags s) (im_blob_ref_counts s)
    (im_blob_delete_requests s) (im_mirror_rules s) (im_proxy_caches s) v (im_warm_images s)
    (im_sync_jobs s) (im_sync_job_runs s) (im_personal_access_tokens s) (im_policy_sets s)
    (im_repositories s) (im_namespaces s) (im_released_handles s) (im_namespace_grants s)
    (im_observed_identities s) (im_namespace_grant_audit s).
Definition set_im_warm_images (v : gmap string WarmImage) (s : InMemoryState) : InMemoryState :=
  MkInMemoryState (im_manifests s) (im_tags s) (im_blob_ref_counts s)
    (im_blob_delete_requests s) (im_mirror_rules s) (im_proxy_caches s)
    (im_proxy_cache_tag_validations s) v (im_sync_jobs s) (im_sync_job_runs s)
    (im_personal_access_tokens s) (im_policy_sets s) (im_repositories s) (im_namespaces s)
    (im_released_handles s) (im_namespace_grants s) (im_observed_identities s)
    (im_namespace_grant_audit s).
Definition set_im_sync_jobs (v : gmap string SyncJob) (s : InMemoryState) : InMemoryState :=
  MkInMemoryState (im_manifests s) (im_tags s) (im_blob_ref_counts s)
    (im_blob_delete_requests s) (im_mirror_rules s) (im_proxy_caches s)
    (im_proxy_cache_tag_validations s) (im_warm_images s) v (im_sync_job_runs s)
    (im_personal_access_tokens s) (im_policy_sets s) (im_repositories s) (im_namespaces s)
    (im_released_handles s) (im_namespace_grants s) (im_observed_identities s)
    (im_namespace_grant_audit s).
Definition set_im_sync_job_runs (v : gmap string (list SyncJobRun)) (s : InMemoryState) : InMemoryState :=
  MkInMemoryState (im_manifests s) (im_tags s) (im_blob_ref_counts s)
    (im_blob_delete_requests s) (im_mirror_rules s) (im_proxy_caches s)
    (im_proxy_cache_tag_validations s) (im_warm_images s) (im_sync_jobs s) v
    (im_personal_access_tokens s) (im_policy_sets s) (im_repositories s) (im_namespaces s)
    (im_released_handles s) (im_namespace_grants s) (im_observed_identities s)
    (im_namespace_grant_audit s).
Definition set_im_personal_access_tokens (v : gmap string PersonalAccessToken) (s : InMemoryState) : InMemoryState :=
  MkInMemoryState (im_manifests s) (im_tags s) (im_blob_ref_counts s)
    (im_blob_delete_requests s) (im_mirror_rules s) (im_proxy_caches s)
    (im_proxy_cache_tag_validations s) (im_warm_images s) (im_sync_jobs s)
    (im_sync_job_runs s) v (im_policy_sets s) (im_repositories s) (im_namespaces s)
    (im_released_handles s) (im_namespace_grants s) (im_observed_identities s)
    (im_namespace_grant_audit s).
Definition set_im_policy_sets (v : gmap string PolicySet) (s : InMemoryState) : InMemoryState :=
  MkInMemoryState (im_manifests s) (im_tags s) (im_blob_ref_counts s)
    (im_blob_delete_requests s) (im_mirror_rules s) (im_proxy_caches s)
    (im_proxy_cache_tag_validations s) (im_warm_images s) (im_sync_jobs s)
    (im_sync_job_runs s) (im_personal_access_tokens s) v (im_repositories s)
    (im_namespaces s) (im_released_handles s) (im_namespace_grants s)
    (im_observed_identities s) (im_namespace_grant_audit s).
Definition set_im_repositories (v : gmap string Repository) (s : InMemoryState) : InMemoryState :=
  MkInMemoryState (im_manifests s) (im_tags s) (im_blob_ref_counts s)
    (im_blob_delete_requests s) (im_mirror_rules s) (im_proxy_caches s)
    (im_proxy_cache_tag_validations s) (im_warm_images s) (im_sync_jobs s)
    (im_sync_job_runs s) (im_personal_access_tokens s) (im_policy_sets s) v
    (im_namespaces s) (im_released_handles s) (im_namespace_grants s)
    (im_observed_identities s) (im_namespace_grant_audit s).
Definition set_im_namespaces (v : gmap string Namespace) (s : InMemoryState) : InMemoryState :=
  MkInMemoryState (im_manifests s) (im_tags s) (im_blob_ref_counts s)
    (im_blob_delete_requests s) (im_mirror_rules s) (im_proxy_caches s)
    (im_proxy_cache_tag_validations s) (im_warm_images s) (im_sync_jobs s)
    (im_sync_job_runs s) (im_personal_access_tokens s) (im_policy_sets s)
    (im_repositories s) v (im_released_handles s) (im_namespace_grants s)
    (im_observed_identities s) (im_namespace_grant_audit s).
Definition set_im_released_handles (v : gmap string ReleasedHandle) (s : InMemoryState) : InMemoryState :=
  MkInMemoryState (im_manifests s) (im_tags s) (im_blob_ref_counts s)
    (im_blob_delete_requests s) (im_mirror_rules s) (im_proxy_caches s)
    (im_proxy_cache_tag_validations s) (im_warm_images s) (im_sync_jobs s)
    (im_sync_job_runs s) (im_personal_access_tokens s) (im_policy_sets s)
    (im_repositories s) (im_namespaces s) v (im_namespace_grants s)
    (im_observed_identities s) (im_namespace_grant_audit s).
Definition set_im_namespace_grants (v : gmap string (gmap string NamespaceGrant)) (s : InMemoryState) : InMemoryState :=
  MkInMemoryState (im_manifests s) (im_tags s) (im_blob_ref_counts s)
    (im_blob_delete_requests s) (im_mirror_rules s) (im_proxy_caches s)
    (im_proxy_cache_tag_validations s) (im_warm_images s) (im_sync_jobs s)
    (im_sync_job_runs s) (im_personal_access_tokens s) (im_policy_sets s)
    (im_repositories s) (im_namespaces s) (im_released_handles s) v
    (im_observed_identities s) (im_namespace_grant_audit s).
Definition set_im_observed_identities (v : gmap Subject ObservedIdentity) (s : InMemoryState) : InMemoryState :=
  MkInMemoryState (im_manifests s) (im_tags s) (im_blob_ref_counts s)
    (im_blob_delete_requests s) (im_mirror_rules s) (im_proxy_caches s)
    (im_proxy_cache_tag_validations s) (im_warm_images s) (im_sync_jobs s)
    (im_sync_job_runs s) (im_personal_access_tokens s) (im_policy_sets s)
    (im_repositories s) (im_namespaces s) (im_released_handles s) (im_namespace_grants s) v
    (im_namespace_grant_audit s).
Definition set_im_namespace_grant_audit (v : gmap string (list NamespaceGrantAuditEvent)) (s : InMemoryState) : InMemoryState :=
  MkInMemoryState (im_manifests s) (im_tags s) (im_blob_ref_counts s)
    (im_blob_delete_requests s) (im_mirror_rules s) (im_proxy_caches s)
    (im_proxy_cache_tag_validations s) (im_warm_images s) (im_sync_jobs s)
    (im_sync_job_runs s) (im_personal_access_tokens s) (im_policy_sets s)
    (im_repositories s) (im_namespaces s) (im_released_handles s) (im_namespace_grants s)
    (im_observed_identities s) v.

Definition InMemoryState_default : InMemoryState :=
  MkInMemoryState ∅ ∅ ∅ ∅ ∅ ∅ ∅ ∅ ∅ ∅ ∅ ∅ ∅ ∅ ∅ ∅ ∅ ∅.

(** * Reference counters *)

(** Sort and deduplicate a list of digest strings. *)
Definition unique_blob_refs (digests : list Digest) : list string :=
  dedup_by_key id (merge_sort String.le (digest_to_string <$> digests)).

Definition increment_count (counts : gmap string N) (digest : string) : gmap string N :=
  <[digest := U64.add (default 0%N (counts !! digest)) 1]> counts.
Definition decrement_count (counts : gmap string N) (digest : string) : gmap string N :=
  match counts !! digest with
  | Some count =>
      let count' := U64.saturating_sub count 1 in
      if bool_decide (count' = 0%N) then delete digest counts else <[digest := count']> counts
  | None => counts
  end.

Definition mem_increment_blob_refs (s : InMemoryState) (entry : ManifestEntry) : InMemoryState :=
  set_im_blob_ref_counts
    (foldl increment_count (im_blob_ref_counts s) (unique_blob_refs (me_referenced_blobs entry))) s.
Definition mem_decrement_blob_refs (s : InMemoryState) (entry : ManifestEntry) : InMemoryState :=
  set_im_blob_ref_counts
    (foldl decrement_count (im_blob_ref_counts s) (unique_blob_refs (me_referenced_blobs entry))) s.

(** * [ManifestStore] *)

Definition mem_get_manifest (s : InMemoryState) (name reference : string) : result (option ManifestEntry) :=
  if Str.starts_with "sha256:" reference || Str.starts_with "sha512:" reference then
    match im_manifests s !! name with
    | Some repo_manifests => Ok (repo_manifests !! reference)
    | None => Ok None
    end
  else
    match im_tags s !! name with
    | Some repo_tags =>
        match repo_tags !! reference with
        | Some digest =>
            match im_manifests s !! name with
            | Some repo_manifests => Ok (repo_manifests !! digest_to_string digest)
            | None => Ok None
            end
        | None => Ok None
        end
    | None => Ok None
    end.

Definition mem_put_manifest (s : InMemoryState) (name reference : string) (entry : ManifestEntry)
    : InMemoryState * result () :=
  let digest_str := digest_to_string (me_digest entry) in
  let digest := me_digest entry in
  let previous := repo ← im_manifests s !! name; repo !! digest_str in
  let s := set_im_manifests (insert_nested (im_manifests s) name digest_str entry) s in
  let s := match previous with Some previous => mem_decrement_blob_refs s previous | None => s end in
  let s := mem_increment_blob_refs s entry in
  let is_digest := Str.contains_char ":" reference in
  if negb is_digest then
    let s := set_im_proxy_cache_tag_validations
      (clear_proxy_cache_tag_validations_for_tag (im_proxy_cache_tag_validations s) name reference) s in
    (set_im_tags (insert_nested (im_tags s) name reference digest) s, Ok ())
  else (s, Ok ()).

(** [repo_tags.retain(..)] and the loop over the removed tags, with their number. *)
Definition mem_retain_tags (s : InMemoryState) (name : string) (removed : string → bool)
    : InMemoryState * nat :=
  let '(s, removed_tags, count) :=
    match im_tags s !! name with
    | Some repo_tags =>
        let before := size repo_tags in
        let kept := filter (λ p, removed (digest_to_string p.2) = false) repo_tags in
        (set_im_tags (<[name := kept]> (im_tags s)) s,
         (filter (λ p, removed (digest_to_string p.2) = true) (btree_entries repo_tags)).*1,
         before - size kept)
    | None => (s, [], 0)
    end in
  (set_im_proxy_cache_tag_validations
     (foldl (λ v tag, clear_proxy_cache_tag_validations_for_tag v name tag)
        (im_proxy_cache_tag_validations s) removed_tags) s, count).

Definition mem_delete_manifest (s : InMemoryState) (name : string) (digest : Digest)
    : InMemoryState * result () :=
  let digest_str := digest_to_string digest in
  let removed := repo ← im_manifests s !! name; repo !! digest_str in
  let s := set_im_manifests (alter (delete digest_str) name (im_manifests s)) s in
  let s := match removed with Some entry => mem_decrement_blob_refs s entry | None => s end in
  let '(s, _) := mem_retain_tags s name (λ d, bool_decide (d = digest_str)) in
  (s, Ok ()).

Definition mem_list_tags (s : InMemoryState) (name : string) (n : option N) (last : option string)
    : result (list string) :=
  match im_tags s !! name with
  | None => Ok []
  | Some repo_tags => Ok (list_keys repo_tags n last)
  end.

Definition mem_list_repositories (s : InMemoryState) (n : option N) (last : option string)
    : result (list string) := Ok (list_keys (im_manifests s) n last).

Definition repository_summary (s : InMemoryState) (p : string * gmap string ManifestEntry)
    : RepositorySummary :=
  let '(name, repo_manifests) := p in
  let tag_count := default 0 (size <$> im_tags s !! name) in
  let meta := im_repositories s !! name in
  MkRepositorySummary name tag_count (size repo_manifests)
    (repository_stored_size_bytes repo_manifests) (repository_manifest_size_bytes repo_manifests)
    (last_modified repo_manifests) (default "" (repo_description <$> meta))
    (r ← meta; repo_created_by r) (default Private (repo_visibility <$> meta)).

Definition mem_list_repository_summaries (s : InMemoryState) : result (list RepositorySummary) :=
  Ok ((repository_summary s <$> btree_entries (im_manifests s)) ++
      (shadow_summary <$>
         filter (λ p, im_manifests s !! p.1 = None) (btree_entries (im_repositories s)))).

Definition mem_list_manifest_summaries (s : InMemoryState) (name : string) : result (list ManifestSummary) :=
  match im_manifests s !! name with
  | None => Ok []
  | Some repo_manifests =>
      let tag_strings := (λ tags : gmap string Digest, digest_to_string <$> tags) <$> im_tags s !! name in
      Ok (build_manifest_summaries repo_manifests tag_strings)
  end.

Definition mem_delete_tag (s : InMemoryState) (name : string) (digest : Digest) (tag : string)
    : InMemoryState * result bool :=
  match im_tags s !! name with
  | None => (s, Ok false)
  | Some repo_tags =>
      let matches := match repo_tags !! tag with
                     | Some existing => bool_decide (digest_to_string existing = digest_to_string digest)
                     | None => false
                     end in
      if matches then
        let s := set_im_tags (<[name := delete tag repo_tags]> (im_tags s)) s in
        (set_im_proxy_cache_tag_validations
           (clear_proxy_cache_tag_validations_for_tag (im_proxy_cache_tag_validations s) name tag) s,
         Ok true)
      else (s, Ok false)
  end.

Definition mem_delete_repository (s : InMemoryState) (name : string) : InMemoryState * result DeleteCounts :=
  let removed := im_manifests s !! name in
  let s := set_im_manifests (delete name (im_manifests s)) s in
  let s := match removed with
           | Some manifests => foldl mem_decrement_blob_refs s (btree_values manifests)
           | None => s
           end in
  let deleted_manifests := default 0 (size <$> removed) in
  let deleted_tags := default 0 (size <$> im_tags s !! name) in
  let s := set_im_tags (delete name (im_tags s)) s in
  let s := set_im_proxy_cache_tag_validations
    (clear_proxy_cache_tag_validations_for_repository (im_proxy_cache_tag_validations s) name) s in
  (s, Ok (MkDeleteCounts deleted_manifests deleted_tags)).

Definition mem_delete_manifests (s : InMemoryState) (name : string) (digests : list Digest)
    : InMemoryState * result DeleteCounts :=
  let digest_set : gset string := list_to_set (digest_to_string <$> digests) in
  let '(s, removed) :=
    match im_manifests s !! name with
    | Some repo =>
        let '(repo', removed) := remove_each repo (merge_sort String.le (elements digest_set)) in
        (set_im_manifests (<[name := repo']> (im_manifests s)) s, removed)
    | None => (s, [])
    end in
  let s := foldl mem_decrement_blob_refs s removed in
  let '(s, deleted_tags) := mem_retain_tags s name (λ d, bool_decide (d ∈ digest_set)) in
  (s, Ok (MkDeleteCounts (length removed) deleted_tags)).

Definition mem_list_referrers (s : InMemoryState) (name : string) (subject_digest : Digest)
    (artifact_type : option string) : result (list ReferrerEntry) :=
  match im_manifests s !! name with
  | None => Ok []
  | Some repo_manifests =>
      let subject_str := digest_to_string subject_digest in
      Ok (omap (λ e,
        if bool_decide (digest_to_string <$> me_subject e = Some subject_str) then
          let re := referrer_entry e in
          match artifact_type with
          | Some filter => if bool_decide (re_artifact_type re = Some filter) then Some re else None
          | None => Some re
          end
        else None) (btree_values repo_manifests))
  end.

Definition mem_mount_blob (s : InMemoryState) (source_repo dest_repo : string) (digest : Digest)
    : InMemoryState * result () := (s, Ok ()).

Definition mem_record_blob_delete_request (now : N) (s : InMemoryState) (digest : Digest)
    : InMemoryState * result BlobDeleteStatus :=
  let digest := digest_to_string digest in
  let ref_count := default 0%N (im_blob_ref_counts s !! digest) in
  (set_im_blob_delete_requests (<[digest := now]> (im_blob_delete_requests s)) s,
   Ok (MkBlobDeleteStatus digest (bool_decide (0 < ref_count)%N) ref_count)).

Definition mem_blob_lifecycle_status (s : InMemoryState) (digest : Digest) : result BlobLifecycleStatus :=
  let digest := digest_to_string digest in
  let ref_count := default 0%N (im_blob_ref_counts s !! digest) in
  Ok (MkBlobLifecycleStatus digest (bool_decide (0 < ref_count)%N) ref_count
        (bool_decide (is_Some (im_blob_delete_requests s !! digest)))).

Definition mem_clear_blob_delete_request (s : InMemoryState) (digest : Digest) : InMemoryState * result () :=
  (set_im_blob_delete_requests (delete (digest_to_string digest) (im_blob_delete_requests s)) s, Ok ()).

Definition mem_blob_ref_counts (s : InMemoryState) : result (gmap string N) := Ok (im_blob_ref_counts s).

(** * [MirrorConfigStore] *)

Definition mem_list_mirror_rules (s : InMemoryState) : result (list MirrorRule) :=
  Ok (btree_values (im_mirror_rules s)).
Definition mem_get_mirror_rule (s : InMemoryState) (id : string) : result (option MirrorRule) :=
  Ok (im_mirror_rules s !! id).
Definition mem_put_mirror_rule (s : InMemoryState) (rule : MirrorRule) : InMemoryState * result () :=
  (set_im_mirror_rules (<[mr_id rule := rule]> (im_mirror_rules s)) s, Ok ()).
Definition mem_delete_mirror_rule (s : InMemoryState) (id : string) : InMemoryState * result () :=
  (set_im_mirror_rules (delete id (im_mirror_rules s)) s, Ok ()).

Definition insert_sync_job (s : InMemoryState) (job : SyncJob) : InMemoryState :=
  set_im_sync_jobs (<[job_id job := job]> (im_sync_jobs s)) s.

Definition mem_trigger_mirror_rule (now : N) (s : InMemoryState) (id : string)
    : InMemoryState * result (option SyncJob) :=
  match im_mirror_rules s !! id with
  | None => (s, Ok None)
  | Some rule =>
      if existsb (λ job, sync_job_blocks_trigger job MirrorJob id now) (btree_values (im_sync_jobs s))
      then (s, Err (Conflict [Lit "Rule is already running"]))
      else
        let job := mirror_rule_job rule (mr_id rule +:+ "-" +:+ Str.of_u64 now) now 0 in
        (insert_sync_job s job, Ok (Some job))
  end.

Definition mem_list_proxy_caches (s : InMemoryState) : result (list ProxyCache) :=
  Ok (btree_values (im_proxy_caches s)).
Definition mem_get_proxy_cache (s : InMemoryState) (id : string) : result (option ProxyCache) :=
  Ok (im_proxy_caches s !! id).
Definition mem_put_proxy_cache (s : InMemoryState) (cache : ProxyCache) : InMemoryState * result () :=
  let s := set_im_proxy_cache_tag_validations
    (clear_proxy_cache_tag_validations_for_cache (im_proxy_cache_tag_validations s) (pc_id cache)) s in
  (set_im_proxy_caches (<[pc_id cache := cache]> (im_proxy_caches s)) s, Ok ()).
Definition mem_delete_proxy_cache (s : InMemoryState) (id : string) : InMemoryState * result () :=
  let s := set_im_proxy_caches (delete id (im_proxy_caches s)) s in
  (set_im_proxy_cache_tag_validations
     (clear_proxy_cache_tag_validations_for_cache (im_proxy_cache_tag_validations s) id) s, Ok ()).

Definition mem_trigger_proxy_cache_warm (now : N) (s : InMemoryState) (id : string)
    : InMemoryState * result (option SyncJob) :=
  match im_proxy_caches s !! id with
  | None => (s, Ok None)
  | Some cache =>
      if existsb (λ job, sync_job_blocks_trigger job ProxyCacheJob id now) (btree_values (im_sync_jobs s))
      then (s, Err (Conflict [Lit "Proxy cache warm-up is already running"]))
      else
        let job := proxy_cache_warm_job cache now in
        (insert_sync_job s job, Ok (Some job))
  end.

Definition mem_get_tag_validation (s : InMemoryState) (cache_id repository tag : string)
    : result (option ProxyCacheTagValidation) :=
  Ok (get_proxy_cache_tag_validation (im_proxy_cache_tag_validations s) cache_id repository tag).
Definition mem_put_tag_validation (s : InMemoryState) (validation : ProxyCacheTagValidation)
    : InMemoryState * result () :=
  (set_im_proxy_cache_tag_validations
     (put_proxy_cache_tag_validation (im_proxy_cache_tag_validations s) validation) s, Ok ()).

Definition mem_list_warm_images (s : InMemoryState) : result (list WarmImage) :=
  Ok (btree_values (im_warm_images s)).
Definition mem_get_warm_image (s : InMemoryState) (id : string) : result (option WarmImage) :=
  Ok (im_warm_images s !! id).
Definition mem_put_warm_image (s : InMemoryState) (image : WarmImage) : InMemoryState * result () :=
  (set_im_warm_images (<[wi_id image := image]> (im_warm_images s)) s, Ok ()).
Definition mem_delete_warm_image (s : InMemoryState) (id : string) : InMemoryState * result () :=
  (set_im_warm_images (delete id (im_warm_images s)) s, Ok ()).

(** * [JobStore] *)

Definition mem_list_sync_jobs (s : InMemoryState) : result (list SyncJob) :=
  Ok (btree_values (im_sync_jobs s)).
Definition mem_get_sync_job (s : InMemoryState) (id : string) : result (option SyncJob) :=
  Ok (im_sync_jobs s !! id).
Definition mem_put_sync_job (s : InMemoryState) (job : SyncJob) : InMemoryState * result () :=
  (insert_sync_job s job, Ok ()).
Definition mem_delete_sync_job (s : InMemoryState) (id : string) : InMemoryState * result () :=
  let s := set_im_sync_jobs (delete id (im_sync_jobs s)) s in
  (set_im_sync_job_runs (delete id (im_sync_job_runs s)) s, Ok ()).

Definition mem_claim_sync_job (now : N) (s : InMemoryState) (id node_id : string)
    : InMemoryState * result bool :=
  match im_sync_jobs s !! id with
  | None => (s, Ok false)
  | Some job =>
      if negb (bool_decide (job_status job = Idle)) then (s, Ok false)
      else
        let job := set_job_status Running job in
        let job := set_job_claimed_by (Some node_id) job in
        let job := set_job_claimed_at (Some now) job in
        (set_im_sync_jobs (<[id := job]> (im_sync_jobs s)) s, Ok true)
  end.

Definition mem_trigger_sync_job (now : N) (s : InMemoryState) (id : string) : InMemoryState * result bool :=
  match im_sync_jobs s !! id with
  | None => (s, Ok false)
  | Some job =>
      if bool_decide (job_status job = Running) then (s, Ok false)
      else
        let job := set_job_status Idle job in
        let job := set_job_claimed_by None job in
        let job := set_job_claimed_at None job in
        let job := set_job_last_error None job in
        let job := set_job_next_run_at now job in
        (set_im_sync_jobs (<[id := job]> (im_sync_jobs s)) s, Ok true)
  end.

Definition mem_list_sync_job_runs (s : InMemoryState) (job_id : string) (limit : nat)
    : result (list SyncJobRun) :=
  let runs := default [] (im_sync_job_runs s !! job_id) in
  Ok (drop (length runs - limit) runs).

Definition mem_put_sync_job_run (s : InMemoryState) (run : SyncJobRun) : InMemoryState * result () :=
  let runs := default [] (im_sync_job_runs s !! run_job_id run) in
  let runs := match list_find (λ r, run_id r = run_id run) runs with
              | Some (pos, _) => <[pos := run]> runs
              | None =>
                  let runs := runs ++ [run] in
                  if bool_decide (50 < length runs) then drop (length runs - 50) runs else runs
              end in
  (set_im_sync_job_runs (<[run_job_id run := runs]> (im_sync_job_runs s)) s, Ok ()).

(** * [HelmStore], [TokenStore], [PolicyStore] and [RepositoryStore] *)

Definition mem_list_helm_charts (s : InMemoryState) : result (list HelmChart) := Ok [].
Definition mem_list_helm_chart_versions (s : InMemoryState) (name : string)
    : result (option (list HelmChartVersion)) := Ok None.

Definition mem_list_personal_access_tokens (s : InMemoryState) (subject : string)
    : result (list PersonalAccessToken) :=
  Ok (filter (λ t, pat_subject t = subject) (btree_values (im_personal_access_tokens s))).
Definition mem_get_personal_access_token_by_hash (s : InMemoryState) (token_hash : string)
    : result (option PersonalAccessToken) :=
  Ok (list_find (λ t, pat_token_hash t = token_hash) (btree_values (im_personal_access_tokens s))
        ≫= λ p, Some p.2).
Definition mem_put_personal_access_token (s : InMemoryState) (token : PersonalAccessToken)
    : InMemoryState * result () :=
  (set_im_personal_access_tokens (<[pat_id token := token]> (im_personal_access_tokens s)) s, Ok ()).
Definition mem_delete_personal_access_token (s : InMemoryState) (id subject : string)
    : InMemoryState * result bool :=
  let should_delete := match im_personal_access_tokens s !! id with
                       | Some t => bool_decide (pat_subject t = subject)
                       | None => false
                       end in
  (if should_delete
   then set_im_personal_access_tokens (delete id (im_personal_access_tokens s)) s else s,
   Ok should_delete).

Definition mem_list_policy_sets (s : InMemoryState) : result (list PolicySet) :=
  Ok (btree_values (im_policy_sets s)).
Definition mem_get_policy_set (s : InMemoryState) (id : string) : result (option PolicySet) :=
  Ok (im_policy_sets s !! id).
Definition mem_put_policy_set (s : InMemoryState) (policy : PolicySet) : InMemoryState * result () :=
  match cedar_policy_error (ps_cedar_text policy) with
  | Some m => (s, Err (NameInvalid m))
  | None => (set_im_policy_sets (<[ps_id policy := policy]> (im_policy_sets s)) s, Ok ())
  end.
Definition mem_delete_policy_set (s : InMemoryState) (id : string) : InMemoryState * result bool :=
  (set_im_policy_sets (delete id (im_policy_sets s)) s,
   Ok (bool_decide (is_Some (im_policy_sets s !! id)))).

Definition mem_get_repository (s : InMemoryState) (name : string) : result (option Repository) :=
  Ok (im_repositories s !! name).
Definition mem_put_repository (s : InMemoryState) (repo : Repository) : InMemoryState * result () :=
  (set_im_repositories (<[repo_name repo := repo]> (im_repositories s)) s, Ok ()).
Definition mem_delete_repository_meta (s : InMemoryState) (name : string) : InMemoryState * result bool :=
  (set_im_repositories (delete name (im_repositories s)) s,
   Ok (bool_decide (is_Some (im_repositories s !! name)))).

(** * [NamespaceStore] *)

(** Drives a namespace mutation through the core the replicated store uses. *)
Definition mem_apply_namespace (s : InMemoryState) (req : NamespaceRequest)
    : InMemoryState * result NamespaceResponse :=
  let '(m, r) :=
    apply_namespace_core
      (MkNamespaceMaps (im_namespaces s) (im_released_handles s) (im_namespace_grants s)
         (im_namespace_grant_audit s) (im_observed_identities s)) req
      (λ handle,
         let prefix := handle +:+ "/" in
         existsb (Str.starts_with prefix) (btree_keys (im_manifests s))
         || existsb (Str.starts_with prefix) (btree_keys (im_tags s))
         || existsb (Str.starts_with prefix) (btree_keys (im_repositories s))) in
  (set_im_namespaces (nm_namespaces m)
     (set_im_released_handles (nm_released_handles m)
        (set_im_namespace_grants (nm_namespace_grants m)
           (set_im_namespace_grant_audit (nm_namespace_grant_audit m)
              (set_im_observed_identities (nm_observed_identities m) s)))), r).

(** [state.apply_namespace(req)?; Ok(())]. *)
Definition namespace_done (sr : InMemoryState * result NamespaceResponse) : InMemoryState * result () :=
  (sr.1, _ ← sr.2; Ok ()).

Definition mem_get_namespace (s : InMemoryState) (handle : string) : result (option Namespace) :=
  Ok (im_namespaces s !! handle).
Definition mem_list_namespaces (s : InMemoryState) : result (list Namespace) :=
  Ok (btree_values (im_namespaces s)).
Definition mem_get_released_handle (s : InMemoryState) (handle : string) : result (option ReleasedHandle) :=
  Ok (im_released_handles s !! handle).

Definition mem_claim_namespace (s : InMemoryState) (handle : string) (owner : Owner) (owner_label : string)
    (actor : Subject) (admin_override : bool) (now : N) : InMemoryState * result () :=
  namespace_done (mem_apply_namespace s (Claim handle owner owner_label actor admin_override now)).
Definition mem_release_namespace (s : InMemoryState) (handle : string) (actor : Subject)
    (reason : ReleaseReason) (now : N) : InMemoryState * result () :=
  namespace_done (mem_apply_namespace s (DeleteNamespace handle actor reason now)).
Definition mem_admin_revoke_namespace (s : InMemoryState) (handle : string) (actor : Subject) (now : N)
    : InMemoryState * result () :=
  namespace_done (mem_apply_namespace s (AdminRevoke handle actor now)).

Definition mem_list_namespace_grants (s : InMemoryState) (handle : string) : result (list NamespaceGrant) :=
  Ok (default [] (btree_values <$> im_namespace_grants s !! handle)).
Definition mem_get_namespace_grant (s : InMemoryState) (handle grant_id : string)
    : result (option NamespaceGrant) :=
  Ok (grants ← im_namespace_grants s !! handle; grants !! grant_id).

(** [audit_id] is the fresh UUID. *)
Definition mem_put_namespace_grant (s : InMemoryState) (grant : NamespaceGrant)
    (actor_label reason audit_id : string) : InMemoryState * result NamespaceGrant :=
  let '(s, r) := mem_apply_namespace s (PutGrant grant actor_label reason audit_id) in
  (s, resp ← r;
      match resp with
      | NamespaceGrantResp grant => Ok grant
      | NamespaceOk | NamespaceBool _ => Err (Internal [Lit "unexpected namespace grant response"])
      end).
Definition mem_delete_namespace_grant (s : InMemoryState) (handle grant_id : string) (actor : Subject)
    (actor_label reason : string) (now : N) (audit_id : string) : InMemoryState * result bool :=
  let '(s, r) :=
    mem_apply_namespace s (DeleteGrant handle grant_id actor actor_label reason now audit_id) in
  (s, resp ← r;
      match resp with
      | NamespaceBool deleted => Ok deleted
      | NamespaceOk | NamespaceGrantResp _ =>
          Err (Internal [Lit "unexpected namespace grant delete response"])
      end).

Definition mem_list_namespace_grant_audit (s : InMemoryState) (handle : string)
    : result (list NamespaceGrantAuditEvent) :=
  Ok (default [] (im_namespace_grant_audit s !! handle)).
Definition mem_put_observed_identity (s : InMemoryState) (identity : ObservedIdentity)
    : InMemoryState * result () :=
  namespace_done (mem_apply_namespace s (PutObservedIdentity identity)).

(** For any case folding [to_lowercase]. *)
Definition mem_search_observed_identities (to_lowercase : string → string) (s : InMemoryState)
    (query : string) (limit : nat) : result (list ObservedIdentity) :=
  let query := to_lowercase (Str.trim query) in
  Ok (take limit (merge_sort identity_le
    (filter (λ i, identity_matches to_lowercase query i = true)
       (btree_values (im_observed_identities s))))).

End in_memory.
