(* ===== verification/S3Client.v ===== *)
(** Programs that talk to object storage. The S3 service and its client library are
    outside the repository: a program is a tree of calls, what a call may answer
    and do to the stored objects is the interface [S3Service], and the documented
    behaviour the code relies on is [S3Laws]. A call may fail at any time, and a
    failed call may or may not have taken effect.

    Programs are run alone ([exec]) or side by side, interleaved call by call
    ([sys_step]); [safe] is a discipline on a single program that keeps the
    content of a set of keys consistent in every interleaving. *)

From Stdlib Require Import Ascii.
From stdpp Require Import options.
From S2P Require Import Prelude Errors.

Abbreviation bytes := (list Byte.byte).

(** * Calls and programs *)

Inductive call :=
  | PutObject (key : string) (body : bytes)
  | GetObject (key : string)
  | GetObjectRange (key : string) (first last : N)
  | HeadObject (key : string)
  | DeleteObject (key : string)
  | CreateMultipartUpload (key : string)
  | UploadPart (key upload_id : string) (part_number : Z) (body : bytes)
  | CompleteMultipartUpload (key upload_id : string) (parts : list (Z * option string))
  | AbortMultipartUpload (key upload_id : string).

(** A read fails because there is no such key, or for another reason. *)
Inductive read_error := NoSuchKey (m : message) | ReadFailed (m : message).
Definition read_error_text (e : read_error) : message :=
  match e with NoSuchKey m | ReadFailed m => m end.

Definition resp (c : call) : Type :=
  match c with
  | GetObject _ => read_error + bytes
  | GetObjectRange _ _ _ => read_error + bytes
  | HeadObject _ => read_error + option Z
  | CreateMultipartUpload _ => message + option string
  | UploadPart _ _ _ _ => message + option string
  | _ => message + ()
  end.

Inductive prog (A : Type) :=
  | Ret (r : result A)
  | Call (c : call) (k : resp c → prog A).
Arguments Ret {_} _.
Arguments Call {_} _ _.

Fixpoint pbind {A B} (p : prog A) (f : result A → prog B) : prog B :=
  match p with
  | Ret r => f r
  | Call c k => Call c (λ r, pbind (k r) f)
  end.

(** [p.await?] followed by the rest. *)
#[global] Instance prog_bind : MBind prog := λ A B f p,
  pbind p (λ r, match r with Ok a => f a | Err e => Ret (Err e) | Panic => Ret Panic end).

(** [p.await.map_err(f)]. *)
Definition map_err {A} (f : LayerhouseError → LayerhouseError) (p : prog A) : prog A :=
  pbind p (λ r, Ret (match r with Err e => Err (f e) | r => r end)).

Definition done {A} (a : A) : prog A := Ret (Ok a).
Definition fail {A} (e : LayerhouseError) : prog A := Ret (Err e).

(** One call whose failure is [LayerhouseError::S3(e.to_string())]. *)
Definition s3_err {A} (r : message + A) : result A :=
  match r with inl m => Err (S3 m) | inr a => Ok a end.
Definition put_object (key : string) (body : bytes) : prog () :=
  Call (PutObject key body) (λ r, Ret (s3_err r)).
Definition delete_object (key : string) : prog () :=
  Call (DeleteObject key) (λ r, Ret (s3_err r)).
Definition get_object (key : string) : prog bytes :=
  Call (GetObject key) (λ r, Ret (match r with inl e => Err (S3 (read_error_text e)) | inr b => Ok b end)).
Definition create_multipart_upload (key : string) : prog string :=
  Call (CreateMultipartUpload key) (λ r, Ret (match r with
    | inl m => Err (S3 m)
    | inr None => Err (S3 [Lit "no upload_id returned"])
    | inr (Some u) => Ok u
    end)).

(** * The service *)

(** The parts of a multipart upload named by [numbers], joined in that order. *)
Definition assemble (parts : gmap Z bytes) (numbers : list Z) : option bytes :=
  (λ l, concat l) <$> mapM (λ n, parts !! n) numbers.

Class S3Service := {
  Bucket : Type;
  s3_call : ∀ c : call, Bucket → resp c → Bucket → Prop;
  (** The objects and the open multipart uploads a bucket holds, and all the
      upload ids it ever gave out. *)
  objects : Bucket → gmap string bytes;
  uploads : Bucket → gmap string (string * gmap Z bytes);
  issued : Bucket → gset string;
}.

Class S3Laws `{S3Service} := {
  law_issued c s r s' : s3_call c s r s' → issued s ⊆ issued s';
  law_put key body s r s' : s3_call (PutObject key body) s r s' →
    uploads s' = uploads s ∧
    (objects s' = <[key := body]> (objects s) ∨ ((∃ m, r = inl m) ∧ objects s' = objects s));
  law_get key s r s' : s3_call (GetObject key) s r s' →
    uploads s' = uploads s ∧ objects s' = objects s ∧
    (∀ b, r = inr b → objects s !! key = Some b) ∧
    (∀ m, r = inl (NoSuchKey m) → objects s !! key = None);
  law_range key i j s r s' : s3_call (GetObjectRange key i j) s r s' →
    uploads s' = uploads s ∧ objects s' = objects s ∧
    (∀ b, r = inr b → (i ≤ j)%N → ∃ whole, objects s !! key = Some whole ∧
       b = take (N.to_nat (j - i + 1)) (drop (N.to_nat i) whole));
  law_head key s r s' : s3_call (HeadObject key) s r s' →
    uploads s' = uploads s ∧ objects s' = objects s ∧
    (∀ n, r = inr n → ∃ b, objects s !! key = Some b ∧ (∀ z, n = Some z → z = Z.of_nat (length b))) ∧
    (∀ m, r = inl (NoSuchKey m) → objects s !! key = None);
  law_delete key s r s' : s3_call (DeleteObject key) s r s' →
    uploads s' = uploads s ∧
    (objects s' = delete key (objects s) ∨ (∃ m, r = inl m) ∧ objects s' = objects s);
  law_create key s r s' : s3_call (CreateMultipartUpload key) s r s' →
    objects s' = objects s ∧
    match r with
    | inr (Some u) =>
        (u ∉ issued s) ∧ (u ∈ issued s') ∧ uploads s !! u = None ∧
        uploads s' = <[u := (key, ∅)]> (uploads s)
    | _ => uploads s ⊆ uploads s'
    end;
  law_part key u n body s r s' ps : s3_call (UploadPart key u n body) s r s' →
    uploads s !! u = Some (key, ps) →
    objects s' = objects s ∧
    (∀ etag, r = inr etag → (1 ≤ n ≤ 10000)%Z) ∧
    (uploads s' = <[u := (key, <[n := body]> ps)]> (uploads s) ∨
     (∃ m, r = inl m) ∧ uploads s' = uploads s);
  law_complete key u parts s r s' ps : s3_call (CompleteMultipartUpload key u parts) s r s' →
    uploads s !! u = Some (key, ps) →
    (uploads s' = uploads s ∨ uploads s' = delete u (uploads s)) ∧
    ((∃ body, assemble ps parts.*1 = Some body ∧ objects s' = <[key := body]> (objects s)) ∨
     (∃ m, r = inl m) ∧ objects s' = objects s);
  law_abort key u s r s' : s3_call (AbortMultipartUpload key u) s r s' →
    objects s' = objects s ∧ (uploads s' = uploads s ∨ uploads s' = delete u (uploads s));
}.

(** A service that answers every call, and fails none that makes sense. *)
Class S3Reliable `{S3Service} := {
  rel_answers c s : ∃ r s', s3_call c s r s';
  rel_put key body s r s' : s3_call (PutObject key body) s r s' → r = inr ();
  rel_get key b s r s' : s3_call (GetObject key) s r s' → objects s !! key = Some b → r = inr b;
  rel_delete key s r s' : s3_call (DeleteObject key) s r s' → r = inr ();
  rel_create key s r s' : s3_call (CreateMultipartUpload key) s r s' → ∃ u, r = inr (Some u);
  rel_part key u n body s r s' ps : s3_call (UploadPart key u n body) s r s' →
    uploads s !! u = Some (key, ps) → (1 ≤ n ≤ 10000)%Z → ∃ e, r = inr e;
  rel_complete key u parts s r s' ps body : s3_call (CompleteMultipartUpload key u parts) s r s' →
    uploads s !! u = Some (key, ps) → assemble ps parts.*1 = Some body → r = inr ();
}.

(** * Running programs *)

Section running.
Context `{S3 : S3Service}.

(** One program, alone: [exec p s r s'] says that it may end with [r] in [s']. *)
Fixpoint exec {A} (p : prog A) (s : Bucket) (res : result A) (s' : Bucket) : Prop :=
  match p with
  | Ret r => res = r ∧ s' = s
  | Call c k => ∃ r s1, s3_call c s r s1 ∧ exec (k r) s1 res s'
  end.

Lemma exec_pbind {A B} (p : prog A) (f : result A → prog B) s res s' :
  exec (pbind p f) s res s' ↔ ∃ r s1, exec p s r s1 ∧ exec (f r) s1 res s'.
Proof.
  revert s. induction p as [r|c k IH]; intros s; simpl.
  - split; [by eauto|]. by intros (? & ? & [-> ->] & ?).
  - split.
    + intros (r & s1 & Hc & (r' & s2 & H1 & H2)%IH). eauto 10.
    + intros (r' & s2 & (r & s1 & Hc & H1) & H2). exists r, s1. split; [done|]. apply IH. eauto.
Qed.

Lemma exec_bind {A B} (f : A → prog B) (p : prog A) s r s' :
  exec (p ≫= f) s r s' ↔ ∃ r0 s1, exec p s r0 s1 ∧
    match r0 with
    | Ok a => exec (f a) s1 r s'
    | Err e => r = Err e ∧ s' = s1
    | Panic => r = Panic ∧ s' = s1
    end.
Proof.
  unfold mbind, prog_bind. rewrite exec_pbind.
  split; intros ([a|e|] & s1 & H1 & H2); by eexists _, s1.
Qed.

Lemma exec_bind_Ok {A B} (f : A → prog B) (p : prog A) s b s' :
  exec (p ≫= f) s (Ok b) s' ↔ ∃ a s1, exec p s (Ok a) s1 ∧ exec (f a) s1 (Ok b) s'.
Proof.
  unfold mbind, prog_bind. rewrite exec_pbind. split.
  - intros ([a|e|] & s1 & H1 & H2); [by eauto|by destruct H2..].
  - intros (a & s1 & H1 & H2). by exists (Ok a), s1.
Qed.

(** Programs side by side. *)
Inductive thread := Thread (A : Type) (p : prog A).
#[global] Arguments Thread {_} _.

Section system.
Context (spawned : thread → Prop).

Inductive sys_step : Bucket * list thread → Bucket * list thread → Prop :=
  | step_call s s' ts1 ts2 A c (k : resp c → prog A) r :
      s3_call c s r s' →
      sys_step (s, ts1 ++ Thread (Call c k) :: ts2) (s', ts1 ++ Thread (k r) :: ts2)
  | step_spawn s ts t : spawned t → sys_step (s, ts) (s, t :: ts).
End system.
End running.

(** * A discipline for consistent content *)

Section discipline.
Context `{S3 : S3Service, SL : !S3Laws}.

(** What may be stored under a key. *)
Context (good : string → bytes → Prop).

(** The multipart upload a program owns: its id, its key, and the parts it sent,
    [None] once it cannot know what the upload holds. *)
Abbreviation owned := (option (string * string * option (gmap Z bytes))).

Definition may_call (o : owned) (c : call) : Prop :=
  match c with
  | PutObject key body => good key body
  | UploadPart key u _ _ => ∃ ps, o = Some (u, key, Some ps)
  | CompleteMultipartUpload key u parts =>
      ∃ ps, o = Some (u, key, Some ps) ∧ ∀ b, assemble ps parts.*1 = Some b → good key b
  | AbortMultipartUpload key u => ∃ ps, o = Some (u, key, ps)
  | _ => True
  end.

Definition owned_after (o : owned) (c : call) : resp c → owned :=
  match c with
  | CreateMultipartUpload key => λ r,
      match r with inr (Some u) => Some (u, key, Some ∅) | _ => o end
  | UploadPart key u n body => λ r,
      match r, o with
      | inr _, Some (_, _, Some ps) => Some (u, key, Some (<[n := body]> ps))
      | _, _ => Some (u, key, None)
      end
  | CompleteMultipartUpload key u _ | AbortMultipartUpload key u => λ _, Some (u, key, None)
  | _ => λ _, o
  end.

(** The service accepts no part number out of range. *)
Definition may_answer (c : call) : resp c → Prop :=
  match c with
  | UploadPart _ _ n _ => λ r, ∀ etag, r = inr etag → (1 ≤ n ≤ 10000)%Z
  | _ => λ _, True
  end.

(** The program makes only such calls, and ends with a result and an ownership
    that satisfy [Q]. *)
Fixpoint safe_to {A} (o : owned) (p : prog A) (Q : result A → owned → Prop) : Prop :=
  match p with
  | Ret r => Q r o
  | Call c k => may_call o c ∧ ∀ r, may_answer c r → safe_to (owned_after o c r) (k r) Q
  end.
Definition safe {A} (o : owned) (p : prog A) : Prop := safe_to o p (λ _ _, True).

Lemma safe_to_pbind {A B} (p : prog A) (f : result A → prog B) o Q :
  safe_to o (pbind p f) Q ↔ safe_to o p (λ r o', safe_to o' (f r) Q).
Proof. revert o. induction p as [r|c k IH]; intros o; simpl; [done|]. by setoid_rewrite IH. Qed.

Lemma safe_to_impl {A} (p : prog A) o (Q Q' : result A → owned → Prop) :
  safe_to o p Q → (∀ r o', Q r o' → Q' r o') → safe_to o p Q'.
Proof.
  intros H HQ. revert o H. induction p as [r|c k IH]; intros o; simpl; [apply HQ|].
  intros [? H]. split; [done|]. intros r Hr. by apply IH, H.
Qed.

Lemma safe_to_bind {A B} (p : prog A) (f : A → prog B) o (Q : result B → owned → Prop) :
  safe_to o p (λ r o', match r with
    | Ok a => safe_to o' (f a) Q | Err e => Q (Err e) o' | Panic => Q Panic o' end) →
  safe_to o (p ≫= f) Q.
Proof.
  intros H. unfold mbind, prog_bind. apply safe_to_pbind. eapply safe_to_impl; [done|]. by intros [a|e|] o'.
Qed.

Definition consistent (s : Bucket) : Prop := ∀ key b, objects s !! key = Some b → good key b.

(** Every program follows the discipline, the uploads they own are open with the
    parts they sent, and no two programs own the same upload. *)
Definition safe_thread (o : owned) (t : thread) : Prop := match t with Thread p => safe o p end.
Definition holds (s : Bucket) (o : owned) : Prop :=
  ∀ u key ps, o = Some (u, key, ps) → u ∈ issued s ∧
    ∀ ps', ps = Some ps' → uploads s !! u = Some (key, ps').
Definition sys_inv (st : Bucket * list thread) : Prop :=
  consistent st.1 ∧ ∃ os : list owned, Forall2 safe_thread os st.2 ∧ Forall (holds st.1) os ∧
    (∀ i j u key ps key' ps', os !! i = Some (Some (u, key, ps)) → os !! j = Some (Some (u, key', ps')) → i = j).

Lemma consistent_insert s s' key body :
  consistent s → good key body → objects s' = <[key := body]> (objects s) → consistent s'.
Proof. intros Hs Hg E k b. rewrite E. intros [[<- <-]|[_ ?]]%lookup_insert_Some; [done|by apply Hs]. Qed.

Lemma consistent_same s s' : consistent s → objects s' = objects s → consistent s'.
Proof. intros Hs E k b. rewrite E. apply Hs. Qed.

(** One call of a program that follows the discipline. *)
Lemma call_preserves c o s r s' :
  s3_call c s r s' → may_call o c → consistent s → holds s o →
  consistent s' ∧ may_answer c r ∧ holds s' (owned_after o c r) ∧
  (∀ u, (∀ k p, o ≠ Some (u, k, p)) → is_Some (uploads s !! u) → uploads s' !! u = uploads s !! u) ∧
  (∀ u key ps, owned_after o c r = Some (u, key, ps) → (∃ k p, o = Some (u, k, p)) ∨ u ∉ issued s).
Proof using SL.
  unfold holds. intros Hc Hm Hs Ho. pose proof (law_issued c s r s' Hc) as Hiss.
  assert (∀ u key ps, o = Some (u, key, ps) → u ∈ issued s') as Ho' by (intros; eapply Hiss, Ho; done).
  destruct c as [key body|key|key i j|key|key|key|key u n body|key u parts|key u]; simpl in r, Hm |- *.
  - apply law_put in Hc as [-> Hob]. split_and!; [|done|naive_solver..].
    destruct Hob as [E|[_ E]]; [by eapply consistent_insert|by eapply consistent_same].
  - apply law_get in Hc as (-> & E & _). split_and!; [by eapply consistent_same|done|naive_solver..].
  - apply law_range in Hc as (-> & E & _). split_and!; [by eapply consistent_same|done|naive_solver..].
  - apply law_head in Hc as (-> & E & _). split_and!; [by eapply consistent_same|done|naive_solver..].
  - apply law_delete in Hc as [-> Hob]. split_and!; [|done|naive_solver..].
    destruct Hob as [E|[_ E]]; [|by eapply consistent_same].
    intros k b. rewrite E. intros [_ ?]%lookup_delete_Some. by apply Hs.
  - apply law_create in Hc as [E Hu]. split; [by eapply consistent_same|]. split; [done|].
    assert (uploads s ⊆ uploads s') as Hsub.
    { destruct r as [m|[u|]]; [done| |done]. destruct Hu as (_ & _ & Hn & ->). by apply insert_subseteq. }
    split; [|split].
    + intros u' k ps Hr. destruct r as [m|[u|]]; [..|]; simpl in Hr.
      1, 3: split; [by eapply Ho'|]; intros ps' ->; eapply lookup_weaken; [by eapply Ho|done].
      destruct Hu as (_ & Hi & _ & ->). injection Hr as <- <- <-. split; [done|].
      intros ps' [= <-]. by rewrite lookup_insert_eq.
    + intros u' _ [x Hx]. rewrite Hx. by eapply lookup_weaken.
    + intros u' k ps Hr. destruct r as [m|[u|]]; simpl in Hr; [by eauto| |by eauto].
      injection Hr as <- <- <-. right. apply Hu.
  - destruct Hm as [ps ->]. destruct (Ho u key (Some ps) eq_refl) as [Hi Hup].
    destruct (law_part _ _ _ _ _ _ _ ps Hc (Hup ps eq_refl)) as (E & Hn & Hu).
    split; [by eapply consistent_same|]. split; [done|]. split; [|split].
    + intros u' k ps' Hr. destruct r as [m|e]; injection Hr as <- <- <-; (split; [by eapply Ho'|]).
      * done.
      * intros ps' [= <-]. destruct Hu as [->|[[? ?] _]]; [by rewrite lookup_insert_eq|done].
    + intros u' Hne _. assert (u ≠ u') by (intros <-; by eapply Hne).
      destruct Hu as [->|[_ ->]]; [by rewrite lookup_insert_ne|done].
    + intros u' k ps' Hr. left. destruct r; injection Hr as <- <- <-; by eauto.
  - destruct Hm as (ps & -> & Hg). destruct (Ho u key (Some ps) eq_refl) as [Hi Hup].
    destruct (law_complete _ _ _ _ _ _ ps Hc (Hup ps eq_refl)) as [Hu Hob].
    split; [|split; [done|split; [|split]]].
    + destruct Hob as [(b & Hb & E)|[_ E]]; [|by eapply consistent_same].
      eapply consistent_insert; [done|by apply Hg|done].
    + intros u' k ps' [= <- <- <-]. split; [by eapply Ho'|done].
    + intros u' Hne _. assert (u ≠ u') by (intros <-; by eapply Hne).
      destruct Hu as [->| ->]; [done|by rewrite lookup_delete_ne].
    + intros u' k ps' [= <- <- <-]. by eauto.
  - destruct Hm as [ps ->]. apply law_abort in Hc as [E Hu].
    split; [by eapply consistent_same|]. split; [done|]. split; [|split].
    + intros u' k ps' [= <- <- <-]. split; [by eapply Ho'|done].
    + intros u' Hne _. assert (u ≠ u') by (intros <-; by eapply Hne).
      destruct Hu as [->| ->]; [done|by rewrite lookup_delete_ne].
    + intros u' k ps' [= <- <- <-]. by eauto.
Qed.

Lemma sys_inv_step (spawned : thread → Prop) st st' :
  (∀ t, spawned t → safe_thread None t) → sys_step spawned st st' → sys_inv st → sys_inv st'.
Proof using SL.
  intros Hsp [s s' ts1 ts2 A c k r Hc|s ts t Ht]; intros [Hs (os & Hsafe & Hown & Hdis)]; simpl in *.
  - apply Forall2_app_inv_r in Hsafe as (os1 & os2' & H1 & H2 & ->).
    apply Forall2_cons_inv_r in H2 as (o & os2 & [Hm Hk] & H2 & ->).
    rewrite Forall_lookup in Hown.
    assert ((os1 ++ o :: os2) !! length os1 = Some o) as Hi by by apply list_lookup_middle.
    destruct (call_preserves c o s r s' Hc Hm Hs (Hown _ _ Hi)) as (Hs' & Hr & Ho' & Hframe & Hnew).
    assert (∀ j o', (os1 ++ owned_after o c r :: os2) !! j = Some o' →
      (j = length os1 ∧ o' = owned_after o c r) ∨ (j ≠ length os1 ∧ (os1 ++ o :: os2) !! j = Some o')) as Hlk.
    { intros j o' Hj. destruct (decide (j = length os1)) as [->|Hne].
      - left. split; [done|]. rewrite list_lookup_middle in Hj by done. by injection Hj.
      - right. split; [done|]. rewrite <-Hj. destruct (decide (j < length os1)).
        + by rewrite !lookup_app_l.
        + rewrite !lookup_app_r by lia. destruct (j - length os1) eqn:Ej; [lia|done]. }
    split; [done|]. exists (os1 ++ owned_after o c r :: os2). split; [|split].
    + apply Forall2_app; [done|]. constructor; [by apply Hk|done].
    + apply Forall_lookup. intros j o' [[_ ->]|[Hne Hj]]%Hlk; [done|].
      intros u key ps ->. destruct (Hown j _ Hj u key ps eq_refl) as [Hiss Hup].
      split; [by apply (law_issued c s r s' Hc)|]. intros ps' ->. rewrite Hframe; [by apply Hup|..].
      * intros k' p' ->. by eapply Hne, Hdis.
      * rewrite (Hup ps' eq_refl). by eexists.
    + intros i j u key ps key' ps' [[-> Ei]|[Hne Hi']]%Hlk [[-> Ej]|[Hne' Hj']]%Hlk; [done|..|by eapply Hdis].
      * destruct (Hnew u key ps (eq_sym Ei)) as [(k' & p' & ->)|Hn]; [by eapply Hdis|].
        by destruct (Hown j _ Hj' u key' ps' eq_refl).
      * destruct (Hnew u key' ps' (eq_sym Ej)) as [(k' & p' & ->)|Hn]; [by eapply Hdis|].
        by destruct (Hown i _ Hi' u key ps eq_refl).
  - split; [done|]. exists (None :: os). split; [by constructor; [apply Hsp|]|].
    split; [by constructor|].
    intros [|i] [|j] u key ps key' ps'; simpl; [done..|]. intros ? ?. f_equal. by eapply Hdis.
Qed.

(** In every interleaving of programs that follow the discipline, the stored
    content stays consistent. *)
Lemma interleaving_consistent (spawned : thread → Prop) s ts s' ts' :
  (∀ t, spawned t → safe_thread None t) → consistent s → Forall (safe_thread None) ts →
  rtc (sys_step spawned) (s, ts) (s', ts') → consistent s'.
Proof using SL.
  intros Hsp Hs Hts Hrun. assert (sys_inv (s, ts)) as Hinv.
  { split; [done|]. exists (replicate (length ts) None). split; [|split].
    - simpl. clear -Hts. induction Hts; constructor; done.
    - by apply Forall_replicate.
    - intros i j u key ps key' ps' [? _]%lookup_replicate_1. done. }
  remember (s, ts) as st eqn:E. remember (s', ts') as st' eqn:E'. clear E Hs Hts.
  revert Hinv. induction Hrun as [|st0 st1 st2 Hst _ IH]; intros Hinv; [subst; apply Hinv|].
  apply IH; [done|]. by eapply sys_inv_step.
Qed.

(** Running such a program alone. *)
Lemma exec_safe {A} (p : prog A) o Q s r s' :
  safe_to o p Q → exec p s r s' → consistent s → holds s o →
  ∃ o', Q r o' ∧ holds s' o' ∧ consistent s'.
Proof using SL.
  revert o s. induction p as [r0|c k IH]; intros o s; simpl.
  - intros HQ [-> ->] Hs Ho. by eauto.
  - intros [Hm Hk] (r1 & s1 & Hc & Hrun) Hs Ho.
    destruct (call_preserves c o s r1 s1 Hc Hm Hs Ho) as (Hs1 & Hr & Ho1 & _).
    by eapply IH; [apply Hk| | |].
Qed.

(** Programs that store and delete objects under the keys in [K] only. *)
Definition confined_call (K : string → Prop) (c : call) : Prop :=
  match c with
  | PutObject key _ | DeleteObject key | CompleteMultipartUpload key _ _ => K key
  | _ => True
  end.
Fixpoint confined {A} (K : string → Prop) (p : prog A) : Prop :=
  match p with Ret _ => True | Call c k => confined_call K c ∧ ∀ r, confined K (k r) end.

Lemma confined_objects {A} (K : string → Prop) (p : prog A) o Q s r s' :
  safe_to o p Q → confined K p → exec p s r s' → consistent s → holds s o →
  ∀ key, ¬ K key → objects s' !! key = objects s !! key.
Proof using SL.
  intros Hp HK Hrun Hs Ho key Hkey. revert o s Hp HK Hrun Hs Ho.
  induction p as [r0|c k IH]; intros o s; simpl; [by intros _ _ [_ ->]|].
  intros [Hm Hk] [Hq Hkq] (r1 & s1 & Hc & Hrun) Hs Ho.
  destruct (call_preserves c o s r1 s1 Hc Hm Hs Ho) as (Hs1 & Hr & Ho1 & _).
  assert (objects s1 !! key = objects s !! key) as <-; [|by eapply IH; [apply Hk|apply Hkq|..]].
  destruct c as [k0 body|k0|k0 i j|k0|k0|k0|k0 u n body|k0 u parts|k0 u]; simpl in Hq, Hm, Hc.
  - apply law_put in Hc as [_ [->|[_ ->]]]; [|done]. apply lookup_insert_ne. by intros ->.
  - by apply law_get in Hc as (_ & -> & _).
  - by apply law_range in Hc as (_ & -> & _).
  - by apply law_head in Hc as (_ & -> & _).
  - apply law_delete in Hc as [_ [->|[_ ->]]]; [|done]. apply lookup_delete_ne. by intros ->.
  - by apply law_create in Hc as [-> _].
  - destruct Hm as [ps ->]. destruct (Ho _ _ _ eq_refl) as [_ Hup].
    by destruct (law_part _ _ _ _ _ _ _ ps Hc (Hup ps eq_refl)) as (-> & _).
  - destruct Hm as (ps & -> & _). destruct (Ho _ _ _ eq_refl) as [_ Hup].
    destruct (law_complete _ _ _ _ _ _ ps Hc (Hup ps eq_refl)) as [_ [(b & _ & ->)|[_ ->]]]; [|done].
    apply lookup_insert_ne. by intros ->.
  - by apply law_abort in Hc as [-> _].
Qed.

Definition nowhere (key : string) : Prop := False.
Lemma quiet_objects {A} (p : prog A) o Q s r s' :
  safe_to o p Q → confined nowhere p → exec p s r s' → consistent s → holds s o → objects s' = objects s.
Proof using SL.
  intros Hp Hq Hrun Hs Ho. apply map_eq. intros key.
  by apply (confined_objects nowhere p o Q s r s'); [..|intros []].
Qed.

Lemma confined_bind {A B} K (p : prog A) (f : A → prog B) :
  confined K p → (∀ a, confined K (f a)) → confined K (p ≫= f).
Proof.
  intros Hp Hf. unfold mbind, prog_bind. induction p as [[a|e|]|c k IH]; simpl; [apply Hf|done..|].
  destruct Hp as [Hc Hk]. split; [done|]. intros r. by apply IH.
Qed.
End discipline.

Lemma may_call_mono (good good' : string → bytes → Prop) o c :
  (∀ k b, good k b → good' k b) → may_call good o c → may_call good' o c.
Proof. intros Hg. destruct c; simpl; naive_solver. Qed.

Lemma safe_to_mono (good good' : string → bytes → Prop) {A} (p : prog A) o Q :
  (∀ k b, good k b → good' k b) → safe_to good o p Q → safe_to good' o p Q.
Proof.
  intros Hg. revert o. induction p as [r|c k IH]; intros o; simpl; [done|].
  intros [Hm Hk]. split; [by eapply may_call_mono|]. intros r Hr. by apply IH, Hk.
Qed.

Lemma exec_map_err {S : S3Service} {A} f (p : prog A) s r s' :
  exec (map_err f p) s r s' ↔
  ∃ r0, exec p s r0 s' ∧ r = match r0 with Err e => Err (f e) | r0 => r0 end.
Proof.
  unfold map_err. rewrite exec_pbind. simpl. split.
  - intros (r0 & s1 & H & -> & ->). by eauto.
  - intros (r0 & H & ->). by eauto.
Qed.

(** On a service that answers, every program ends. *)
Lemma exec_total `{SR : S3Reliable} {A} (p : prog A) s : ∃ r s', exec p s r s'.
Proof.
  revert s. induction p as [r|c k IH]; intros s; simpl; [by eauto|].
  destruct (rel_answers c s) as (r & s1 & Hc). destruct (IH r s1) as (res & s2 & ?). eauto 10.
Qed.
