(* ===== verification/Blobs.v ===== *)
(** The blob store over object storage (crates/layerhouse-server/src/store/s3.rs):
    uploads staged chunk by chunk and assembled into a content-addressed object,
    and streamed downloads from an upstream registry.

    [staged] is the abstract upload: the bytes received so far. Every operation is
    shown to implement its effect on it, with failures at any call; and whatever
    operations run side by side, an object under a blob key always has the content
    its digest names. *)

From Stdlib Require Import Ascii.
From stdpp Require Import options.
From S2P Require Import Prelude Errors Digests Manifests StateMachine Samples S3Client.

(** [i32] addition wraps in a release build. *)
Definition i32_add (a b : Z) : Z := ((a + b + 2 ^ 31) `mod` 2 ^ 32 - 2 ^ 31)%Z.

Definition MIN_PART_SIZE : N := 5 * 1024 * 1024.

Record StagedUploadPart := MkStagedUploadPart {
  sp_number : Z;
  sp_key : string;
  sp_size : N;
}.
Record StagedUploadState := MkStagedUploadState {
  su_parts : list StagedUploadPart;
  su_next_part_number : Z;
  su_total_bytes : N;
}.

Definition part_le (p q : StagedUploadPart) : Prop := (sp_number p ≤ sp_number q)%Z.
#[global] Instance part_le_dec p q : Decision (part_le p q).
Proof. unfold part_le. apply _. Defined.
#[global] Instance part_le_trans : Transitive part_le.
Proof. unfold part_le. intros ???. lia. Qed.
#[global] Instance part_le_total : Total part_le.
Proof. unfold part_le. intros p q. lia. Qed.

(** [serde_json]'s codec for the upload state. *)
Class UploadCodec := {
  encode_state : StagedUploadState → message + bytes;
  decode_state : bytes → message + StagedUploadState;
}.

Definition zeros (n : nat) : string := String.string_of_list_ascii (replicate n "0"%char).

(** [format!("{part_number:020}")]. *)
Definition pad20 (n : Z) : string :=
  let digits := Str.of_u64 (Z.abs_N n) in
  if (n <? 0)%Z then "-" +:+ zeros (19 - String.length digits) +:+ digits
  else zeros (20 - String.length digits) +:+ digits.

Definition upload_state_key (session_id : string) : string :=
  "uploads/" +:+ session_id +:+ "/blob-state.json".
Definition upload_part_key (session_id : string) (part_number : Z) : string :=
  "uploads/" +:+ session_id +:+ "/parts/" +:+ pad20 part_number.

Section blobs.
Context `{EX : Externals, UC : UploadCodec}.

Definition write_upload_state (session_id : string) (state : StagedUploadState) : prog () :=
  match encode_state state with
  | inl m => fail (S3 (Lit "encode upload state: " :: m))
  | inr b => put_object (upload_state_key session_id) b
  end.

Definition read_upload_state (session_id : string) : prog (option StagedUploadState) :=
  Call (GetObject (upload_state_key session_id)) (λ r,
    match r with
    | inl (NoSuchKey _) => done None
    | inl (ReadFailed m) => fail (S3 m)
    | inr b =>
        match decode_state b with
        | inl m => fail (S3 (Lit "decode upload state: " :: m))
        | inr state => done (Some state)
        end
    end).

Fixpoint delete_parts (parts : list StagedUploadPart) : prog () :=
  match parts with
  | [] => done ()
  | part :: parts' => _ ← delete_object (sp_key part); delete_parts parts'
  end.
Definition delete_staged_upload (state : StagedUploadState) : prog () := delete_parts (su_parts state).

Definition upload_final_part (key upload_id : string) (part_number : Z) (data : bytes)
    : prog (Z * option string) :=
  Call (UploadPart key upload_id part_number data) (λ r,
    Ret (match r with inl m => Err (S3 m) | inr e_tag => Ok (part_number, e_tag) end)).

Definition stat (digest : Digest) : prog N :=
  key ← Ret (s3_key digest);
  Call (HeadObject key) (λ r, Ret (match r with
    | inl (NoSuchKey _) => Err (BlobUnknown [Disp (digest_to_string digest)])
    | inl (ReadFailed m) => Err (S3 m)
    | inr n => Ok (Z.to_N (default 0 n `mod` 2 ^ 64)%Z)
    end)).

Definition get (digest : Digest) : prog bytes :=
  key ← Ret (s3_key digest); get_object key.

(** The range header is ["bytes={start}-{end}"]. *)
Definition get_range (digest : Digest) (start end_ : N) : prog bytes :=
  key ← Ret (s3_key digest);
  Call (GetObjectRange key start end_) (λ r,
    Ret (match r with inl e => Err (S3 (read_error_text e)) | inr b => Ok b end)).

Definition start_upload (session_id : string) : prog () :=
  write_upload_state session_id (MkStagedUploadState [] 1 0).

Definition no_upload_session {A} (session_id : string) : prog A :=
  fail (S3 [Lit "no upload session: "; Disp session_id]).

Definition push_chunk (session_id : string) (data : bytes) : prog N :=
  state ← read_upload_state session_id;
  match state with
  | None => no_upload_session session_id
  | Some state =>
      match data with
      | [] => done (su_total_bytes state)
      | _ =>
          let part_number := su_next_part_number state in
          let key := upload_part_key session_id part_number in
          let size := N.of_nat (length data) in
          _ ← put_object key data;
          let state := MkStagedUploadState
            (su_parts state ++ [MkStagedUploadPart part_number key size])
            (i32_add part_number 1) (U64.add (su_total_bytes state) size) in
          _ ← write_upload_state session_id state;
          done (su_total_bytes state)
      end
  end.

(** The variables of the assembly loop: what was hashed, what is buffered, the
    multipart upload and the parts sent to it. *)
Record Assembly := MkAssembly {
  as_hashed : bytes;
  as_buffer : bytes;
  as_upload : option string;
  as_parts : list (Z * option string);
  as_number : Z;
}.
Definition no_assembly : Assembly := MkAssembly [] [] None [] 0.

(** [while buffer.len() >= MIN_PART_SIZE]; each round takes bytes off the buffer. *)
Fixpoint drain (fuel : nat) (key : string) (a : Assembly) : prog Assembly :=
  match fuel with
  | 0 => done a
  | S fuel' =>
      if bool_decide (N.of_nat (length (as_buffer a)) < MIN_PART_SIZE)%N then done a
      else
        upload_id ← match as_upload a with Some u => done u | None => create_multipart_upload key end;
        let number := i32_add (as_number a) 1 in
        let size := N.to_nat MIN_PART_SIZE in
        part ← upload_final_part key upload_id number (take size (as_buffer a));
        drain fuel' key (MkAssembly (as_hashed a) (drop size (as_buffer a)) (Some upload_id)
                           (as_parts a ++ [part]) number)
  end.

Definition absorb (a : Assembly) (b : bytes) : Assembly :=
  MkAssembly (as_hashed a ++ b) (as_buffer a ++ b) (as_upload a) (as_parts a) (as_number a).
Definition drain_all (key : string) (a : Assembly) : prog Assembly := drain (length (as_buffer a)) key a.

(** [for part in &state.parts]. *)
Fixpoint gather (key : string) (parts : list StagedUploadPart) (a : Assembly) : prog Assembly :=
  match parts with
  | [] => done a
  | part :: parts' =>
      b ← get_object (sp_key part);
      if negb (bool_decide (N.of_nat (length b) = sp_size part)) then
        fail (S3 [Lit "staged upload part size changed: "; Disp (sp_key part)])
      else
        a ← drain_all key (absorb a b);
        gather key parts' a
  end.

Definition digest_mismatch {A} (expected actual : Digest) : prog A :=
  fail (S3 [Lit "digest mismatch: expected "; Disp (digest_to_string expected); Lit ", got ";
            Disp (digest_to_string actual)]).

(** [abort_multipart_upload], whose outcome is ignored. *)
Definition abort_upload {A} (key upload_id : string) (then_ : prog A) : prog A :=
  Call (AbortMultipartUpload key upload_id) (λ _, then_).

Definition finish_assembly (key : string) (a : Assembly) : prog () :=
  match as_upload a with
  | Some upload_id =>
      parts ← match as_buffer a with
              | [] => done (as_parts a)
              | b => part ← upload_final_part key upload_id (i32_add (as_number a) 1) b;
                     done (as_parts a ++ [part])
              end;
      Call (CompleteMultipartUpload key upload_id parts) (λ r, Ret (s3_err r))
  | None => put_object key (as_buffer a)
  end.

Definition sort_parts (parts : list StagedUploadPart) : list StagedUploadPart :=
  merge_sort part_le parts.

Definition complete_upload (session_id : string) (expected_digest : Digest) : prog () :=
  state ← read_upload_state session_id;
  match state with
  | None => no_upload_session session_id
  | Some state =>
      let state := MkStagedUploadState (sort_parts (su_parts state)) (su_next_part_number state)
                     (su_total_bytes state) in
      final_key ← Ret (s3_key expected_digest);
      a ← gather final_key (su_parts state) no_assembly;
      let actual_digest := digest_sha256 sha256_hex (as_hashed a) in
      if negb (bool_decide (digest_to_string actual_digest = digest_to_string expected_digest)) then
        match as_upload a with
        | Some upload_id => abort_upload final_key upload_id (digest_mismatch expected_digest actual_digest)
        | None => digest_mismatch expected_digest actual_digest
        end
      else
        _ ← finish_assembly final_key a;
        _ ← delete_object (upload_state_key session_id);
        delete_staged_upload state
  end.

Definition delete_upload (session_id : string) : prog () :=
  state ← read_upload_state session_id;
  _ ← match state with Some state => delete_staged_upload state | None => done () end;
  delete_object (upload_state_key session_id).

(** ** Streaming *)

(** [upload_part] of [put_streaming], which aborts the upload when it fails. *)
Definition stream_part {A} (key upload_id : string) (number : Z) (data : bytes)
    (k : Z * option string → prog A) : prog A :=
  Call (UploadPart key upload_id number data) (λ r, match r with
    | inl m => abort_upload key upload_id (fail (S3 m))
    | inr e_tag => k (number, e_tag)
    end).

(** The loops of [put_streaming]: over the chunks, and over the full parts of the buffer. *)
Fixpoint stream_drain {A} (fuel : nat) (key upload_id : string) (a : Assembly) (k : Assembly → prog A)
    : prog A :=
  match fuel with
  | 0 => k a
  | S fuel' =>
      if bool_decide (N.of_nat (length (as_buffer a)) < MIN_PART_SIZE)%N then k a
      else
        let number := i32_add (as_number a) 1 in
        let size := N.to_nat MIN_PART_SIZE in
        stream_part key upload_id number (take size (as_buffer a)) (λ part,
          stream_drain fuel' key upload_id
            (MkAssembly (as_hashed a) (drop size (as_buffer a)) (as_upload a) (as_parts a ++ [part]) number) k)
  end.
Fixpoint stream_chunks {A} (key upload_id : string) (stream : list (message + bytes)) (a : Assembly)
    (k : Assembly → prog A) : prog A :=
  match stream with
  | [] => k a
  | inl m :: _ => abort_upload key upload_id (fail (S3 m))
  | inr chunk :: stream' =>
      let a := absorb a chunk in
      stream_drain (length (as_buffer a)) key upload_id a (λ a, stream_chunks key upload_id stream' a k)
  end.

Definition stream_complete (key upload_id : string) (parts : list (Z * option string)) : prog () :=
  Call (CompleteMultipartUpload key upload_id parts) (λ r, match r with
    | inl m => abort_upload key upload_id (fail (S3 m))
    | inr _ => done ()
    end).

(** [stream] is what the upstream body yields, chunk by chunk. *)
Definition put_streaming (digest : Digest) (stream : list (message + bytes)) : prog () :=
  key ← Ret (s3_key digest);
  upload_id ← create_multipart_upload key;
  stream_chunks key upload_id stream (MkAssembly [] [] (Some upload_id) [] 0) (λ a,
    let actual_digest := digest_sha256 sha256_hex (as_hashed a) in
    if negb (bool_decide (digest_to_string actual_digest = digest_to_string digest)) then
      abort_upload key upload_id (digest_mismatch digest actual_digest)
    else match as_buffer a, as_parts a with
    | [], _ :: _ => stream_complete key upload_id (as_parts a)
    | b, _ => stream_part key upload_id (i32_add (as_number a) 1) b (λ part,
                stream_complete key upload_id (as_parts a ++ [part]))
    end).
End blobs.

(** * Integrity *)

Section integrity.
Context `{EX : Externals, UC : UploadCodec}.

(** What may be stored under a key: under the key of a digest, only content with
    that digest. *)
Definition blob_content (key : string) (b : bytes) : Prop :=
  ∀ dg, digest_wf dg → s3_key dg = Ok key →
    digest_to_string dg = digest_to_string (digest_sha256 sha256_hex b).

Lemma s3_key_blobs dg key : s3_key dg = Ok key → ∃ r, key = "blobs/" +:+ r.
Proof. intros (p & _ & [= <-])%result_bind_Ok. by eexists. Qed.

Lemma staging_content key b : Str.starts_with "uploads/" key = true → blob_content key b.
Proof. intros [r ->]%starts_with_true dg _ (r' & E)%s3_key_blobs. discriminate E. Qed.

Lemma matching_content dg key b :
  digest_wf dg → s3_key dg = Ok key →
  digest_to_string (digest_sha256 sha256_hex b) = digest_to_string dg → blob_content key b.
Proof.
  intros Hd Hk Hb dg' Hd' Hk'. rewrite Hb.
  destruct (s3_key_roundtrip dg Hd) as (k & E & H1). destruct (s3_key_roundtrip dg' Hd') as (k' & E' & H2).
  rewrite Hk in E. rewrite Hk' in E'. simplify_eq. congruence.
Qed.

Abbreviation ok := (safe_to blob_content).

(** Programs that touch no multipart upload and store only staging objects. *)
Definition staging_call (c : call) : Prop :=
  match c with
  | PutObject key _ => Str.starts_with "uploads/" key = true
  | GetObject _ | GetObjectRange _ _ _ | HeadObject _ | DeleteObject _ => True
  | _ => False
  end.
Fixpoint staging {A} (p : prog A) : Prop :=
  match p with Ret _ => True | Call c k => staging_call c ∧ ∀ r, staging (k r) end.

Lemma staging_ok {A} (p : prog A) o (Q : result A → _ → Prop) :
  staging p → (∀ r, Q r o) → ok o p Q.
Proof.
  intros Hp HQ. induction p as [r|c k IH]; simpl; [apply HQ|]. destruct Hp as [Hc Hk].
  destruct c; simpl in Hc |- *; try done; (split; [try done; by apply staging_content|]);
    intros r _; by apply IH.
Qed.

Lemma staging_bind {A B} (p : prog A) (f : A → prog B) :
  staging p → (∀ a, staging (f a)) → staging (p ≫= f).
Proof.
  intros Hp Hf. unfold mbind, prog_bind. induction p as [[a|e|]|c k IH]; simpl; [apply Hf|done..|].
  destruct Hp as [Hc Hk]. split; [done|]. intros r. by apply IH.
Qed.

Lemma staging_match {A B} (x : option A) (f : A → prog B) (p : prog B) :
  (∀ a, staging (f a)) → staging p → staging (match x with Some a => f a | None => p end).
Proof. by destruct x. Qed.

Lemma state_key_staging sid : Str.starts_with "uploads/" (upload_state_key sid) = true.
Proof. apply starts_with_app. Qed.
Lemma part_key_staging sid n : Str.starts_with "uploads/" (upload_part_key sid n) = true.
Proof. apply starts_with_app. Qed.

Lemma read_state_staging sid : staging (read_upload_state sid).
Proof. split; [done|]. intros [[]|b]; simpl; [done..|]. by destruct (decode_state b). Qed.
Lemma write_state_staging sid st : staging (write_upload_state sid st).
Proof.
  unfold write_upload_state. destruct (encode_state st); [done|].
  split; [apply state_key_staging|]. by intros [].
Qed.
Lemma delete_parts_staging parts : staging (delete_parts parts).
Proof. induction parts; [done|]. apply staging_bind; [|done]. by split. Qed.

Lemma start_upload_staging sid : staging (start_upload sid).
Proof. apply write_state_staging. Qed.

Lemma push_chunk_staging sid data : staging (push_chunk sid data).
Proof.
  apply staging_bind; [apply read_state_staging|]. intros [st|]; [|done]. destruct data as [|x data]; [done|].
  apply staging_bind; [split; [apply part_key_staging|by intros []]|]. intros _.
  apply staging_bind; [apply write_state_staging|done].
Qed.

Lemma delete_upload_staging sid : staging (delete_upload sid).
Proof.
  apply staging_bind; [apply read_state_staging|]. intros st. apply staging_bind.
  - apply staging_match; [|done]. intros. apply delete_parts_staging.
  - intros _. split; [done|]. by intros [].
Qed.

Lemma stat_staging d : staging (stat d).
Proof. apply staging_bind; [done|]. intros key. by split. Qed.
Lemma get_staging d : staging (get d).
Proof. apply staging_bind; [done|]. intros key. by split. Qed.
Lemma get_range_staging d i j : staging (get_range d i j).
Proof. apply staging_bind; [done|]. intros key. by split. Qed.

(** ** Assembling *)

Lemma assemble_snoc ps ns n b up :
  n ∉ ns → assemble ps ns = Some up → assemble (<[n := b]> ps) (ns ++ [n]) = Some (up ++ b).
Proof.
  intros Hn Hup. unfold assemble in *.
  assert (∀ l, n ∉ l → mapM (λ m, <[n := b]> ps !! m) l = mapM (λ m, ps !! m) l) as Heq.
  { induction l as [|m l IH]; intros Hl; simpl; [done|].
    rewrite lookup_insert_ne by set_solver. rewrite IH by set_solver. done. }
  apply fmap_Some in Hup as (bs & Hbs & ->). apply fmap_Some. exists (bs ++ [b]).
  split; [|by rewrite concat_app, concat_cons, app_nil_r]. apply mapM_Some, Forall2_app.
  - apply mapM_Some. by rewrite Heq.
  - repeat constructor. by rewrite lookup_insert_eq.
Qed.

(** The loop variables agree with the upload the program owns: what was hashed is
    what was sent followed by the buffer. *)
Definition assembled (key : string) (a : Assembly) (o : option (string * string * option (gmap Z bytes)))
    : Prop :=
  match as_upload a with
  | None => o = None ∧ as_parts a = [] ∧ as_number a = 0%Z ∧ as_hashed a = as_buffer a
  | Some u => ∃ ps up, o = Some (u, key, Some ps) ∧ (0 ≤ as_number a ≤ 10000)%Z ∧
      (as_parts a).*1 = seqZ 1 (as_number a) ∧ assemble ps (as_parts a).*1 = Some up ∧
      as_hashed a = up ++ as_buffer a
  end.

(** The next part sent to the upload. *)
Definition next_part (a : Assembly) (u : string) (rest : bytes) (etag : option string) : Assembly :=
  MkAssembly (as_hashed a) rest (Some u) (as_parts a ++ [(i32_add (as_number a) 1, etag)])
    (i32_add (as_number a) 1).

Lemma as_opened a u :
  as_upload a = Some u → MkAssembly (as_hashed a) (as_buffer a) (Some u) (as_parts a) (as_number a) = a.
Proof. destruct a. by intros [= ->]. Qed.

Lemma sent_assembled key a u ps etag d rest :
  assembled key (MkAssembly (as_hashed a) (as_buffer a) (Some u) (as_parts a) (as_number a))
    (Some (u, key, Some ps)) →
  (1 ≤ i32_add (as_number a) 1 ≤ 10000)%Z → as_buffer a = d ++ rest →
  assembled key (next_part a u rest etag) (Some (u, key, Some (<[i32_add (as_number a) 1 := d]> ps))).
Proof.
  intros (ps' & up & [= <-] & Hn & Hp & Has & Hh) Hr Hb. simpl in *.
  assert (i32_add (as_number a) 1 = as_number a + 1)%Z as Ei.
  { unfold i32_add. rewrite Z.mod_small; lia. }
  rewrite Ei in *. unfold assembled. cbn [as_upload next_part]. exists (<[as_number a + 1 := d]> ps)%Z, (up ++ d).
  cbn [as_hashed as_buffer as_parts as_number next_part]. rewrite Ei, fmap_app, Hp. cbn [fmap list_fmap fst].
  split; [done|]. split; [lia|]. split.
  - rewrite seqZ_app by lia. f_equal. unfold seqZ. simpl. f_equal. lia.
  - split.
    + apply assemble_snoc; [|by rewrite <-Hp]. intros Hin%elem_of_seqZ. lia.
    + by rewrite Hh, Hb, app_assoc.
Qed.

Lemma open_assembled key a u :
  assembled key a None → as_upload a = None →
  assembled key (MkAssembly (as_hashed a) (as_buffer a) (Some u) (as_parts a) (as_number a))
    (Some (u, key, Some ∅)).
Proof.
  unfold assembled. intros H Hu. rewrite Hu in H. destruct H as (_ & Hp & Hn & Hh). simpl.
  exists ∅, []. by rewrite Hp, Hn, Hh.
Qed.

Lemma final_part_ok key u ps a d rest (Q : result (Z * option string) → _ → Prop) :
  assembled key (MkAssembly (as_hashed a) (as_buffer a) (Some u) (as_parts a) (as_number a))
    (Some (u, key, Some ps)) → as_buffer a = d ++ rest →
  (∀ etag o, assembled key (next_part a u rest etag) o → Q (Ok (i32_add (as_number a) 1, etag)) o) →
  (∀ e o, Q (Err e) o) →
  ok (Some (u, key, Some ps)) (upload_final_part key u (i32_add (as_number a) 1) d) Q.
Proof.
  intros Ha Hb HQ He. split; [by eexists|]. intros [m|etag] Hr; simpl; [apply He|].
  apply HQ. apply sent_assembled; [done|by eapply Hr|done].
Qed.

Lemma drain_ok fuel key a o :
  assembled key a o → ok o (drain fuel key a) (λ r o', match r with
    | Ok a' => assembled key a' o' ∧ as_hashed a' = as_hashed a | Err _ => True | Panic => False end).
Proof.
  revert a o. induction fuel as [|fuel IH]; intros a o Ha; simpl; [done|].
  case_bool_decide as Hlen; [done|].
  assert (as_buffer a = take (N.to_nat MIN_PART_SIZE) (as_buffer a) ++ drop (N.to_nat MIN_PART_SIZE) (as_buffer a))
    as Hb by by rewrite take_drop.
  generalize dependent (take (N.to_nat MIN_PART_SIZE) (as_buffer a)). intros d.
  generalize dependent (drop (N.to_nat MIN_PART_SIZE) (as_buffer a)). intros rest Hb.
  assert (∀ u ps, assembled key (MkAssembly (as_hashed a) (as_buffer a) (Some u) (as_parts a) (as_number a))
      (Some (u, key, Some ps)) →
    ok (Some (u, key, Some ps)) (part ← upload_final_part key u (i32_add (as_number a) 1) d;
      drain fuel key (MkAssembly (as_hashed a) rest (Some u) (as_parts a ++ [part]) (i32_add (as_number a) 1)))
      (λ r o', match r with
       | Ok a' => assembled key a' o' ∧ as_hashed a' = as_hashed a | Err _ => True | Panic => False end)) as Hgo.
  { intros u ps Hu. apply safe_to_bind. eapply final_part_ok; [done..| |done].
    intros etag o' Ho'. apply (IH _ _ Ho'). }
  destruct (as_upload a) as [u|] eqn:Eu.
  - pose proof Ha as Ha'. unfold assembled in Ha'. rewrite Eu in Ha'.
    destruct Ha' as (ps & up & -> & _). apply Hgo. by rewrite as_opened.
  - pose proof Ha as Ha'. unfold assembled in Ha'. rewrite Eu in Ha'. destruct Ha' as [-> _].
    apply safe_to_bind. split; [done|]. intros [m|[u|]] _; [done| |done]. simpl. apply Hgo.
    by apply open_assembled.
Qed.

Lemma absorb_assembled key a b o : assembled key a o → assembled key (absorb a b) o.
Proof.
  unfold assembled. simpl. destruct (as_upload a).
  - intros (ps & up & -> & ? & ? & ? & ->). exists ps, up. by rewrite app_assoc.
  - by intros (-> & ? & ? & ->).
Qed.

Lemma gather_ok key parts a o :
  assembled key a o → ok o (gather key parts a) (λ r o', match r with
    | Ok a' => assembled key a' o' | Err _ => True | Panic => False end).
Proof.
  revert a o. induction parts as [|part parts IH]; intros a o Ha; cbn [gather]; [done|].
  apply safe_to_bind. split; [done|]. intros [e|b] _; cbn [safe_to]; [done|].
  case_bool_decide; cbn [negb]; [|done]. apply safe_to_bind.
  eapply safe_to_impl; [by apply drain_ok, absorb_assembled|]. intros [a'|e|] o'; [|done..]. intros [Ho' _]. by apply IH.
Qed.

Lemma completed_content key a u o :
  assembled key a o → as_upload a = Some u → as_buffer a = [] → blob_content key (as_hashed a) →
  may_call blob_content o (CompleteMultipartUpload key u (as_parts a)).
Proof.
  unfold assembled. intros Ha Hu Hb Hg. rewrite Hu in Ha. destruct Ha as (ps & up & -> & _ & _ & Has & Hh).
  exists ps. split; [done|]. intros b. rewrite Has. intros [= <-]. by rewrite Hh, Hb, app_nil_r in Hg.
Qed.

Lemma finish_assembly_ok key a o :
  assembled key a o → blob_content key (as_hashed a) → ok o (finish_assembly key a) (λ _ _, True).
Proof.
  intros Ha Hg. unfold finish_assembly. destruct (as_upload a) as [u|] eqn:Eu.
  - apply safe_to_bind. pose proof Ha as Ha'. unfold assembled in Ha'. rewrite Eu in Ha'.
    destruct Ha' as (ps & up & -> & _).
    destruct (as_buffer a) as [|x buf] eqn:Eb.
    + simpl. split; [|by intros []]. by apply completed_content.
    + apply safe_to_bind. eapply (final_part_ok key u ps a (x :: buf) []).
      * by rewrite as_opened.
      * by rewrite Eb, app_nil_r.
      * intros etag o' Ho'. simpl. split; [|by intros []].
        by apply (completed_content key (next_part a u [] etag)).
      * done.
  - unfold assembled in Ha. rewrite Eu in Ha. destruct Ha as (-> & _ & _ & Hh). rewrite Hh in Hg.
    split; [done|]. by intros [].
Qed.

Lemma complete_upload_ok sid dg : digest_wf dg → safe blob_content None (complete_upload sid dg).
Proof.
  intros Hd. apply safe_to_bind. apply staging_ok; [apply read_state_staging|]. intros [[st|]|e|]; [|done..].
  apply safe_to_bind. simpl. destruct (s3_key dg) as [key|e|] eqn:Ek; [|done..].
  apply safe_to_bind. eapply safe_to_impl; [apply (gather_ok key _ no_assembly); done|].
  intros [a|e|] o Ha; [|done..]. case_bool_decide as Hdig; simpl.
  - apply safe_to_bind. eapply safe_to_impl.
    + apply finish_assembly_ok; [done|]. by apply (matching_content dg).
    + intros [[]|e|] o' _; [|done..]. apply staging_ok; [|done]. apply staging_bind; [by split|].
      intros. apply delete_parts_staging.
  - destruct (as_upload a) as [u|] eqn:Eu; [|done]. unfold assembled in Ha. rewrite Eu in Ha.
    destruct Ha as (ps & up & -> & _). split; [by eexists|done].
Qed.

(** ** Streaming *)

Lemma stream_part_ok {A} key u ps a d rest (k : Z * option string → prog A) :
  assembled key a (Some (u, key, Some ps)) → as_upload a = Some u → as_buffer a = d ++ rest →
  (∀ etag o, assembled key (next_part a u rest etag) o → safe blob_content o (k (i32_add (as_number a) 1, etag))) →
  safe blob_content (Some (u, key, Some ps)) (stream_part key u (i32_add (as_number a) 1) d k).
Proof.
  intros Ha Hu Hb Hk. split; [by eexists|]. intros [m|etag] Hr; simpl.
  - split; [by eexists|done].
  - apply Hk. apply sent_assembled; [by rewrite as_opened|by eapply Hr|done].
Qed.

Lemma assembled_owned key a u o :
  assembled key a o → as_upload a = Some u → ∃ ps, o = Some (u, key, Some ps).
Proof. unfold assembled. intros Ha Hu. rewrite Hu in Ha. destruct Ha as (ps & ? & ? & _). by exists ps. Qed.

Lemma stream_drain_ok {A} fuel key u a o (k : Assembly → prog A) :
  assembled key a o → as_upload a = Some u →
  (∀ a' o', assembled key a' o' → as_upload a' = Some u → safe blob_content o' (k a')) →
  safe blob_content o (stream_drain fuel key u a k).
Proof.
  revert a o. induction fuel as [|fuel IH]; intros a o Ha Hu Hk; simpl; [by apply Hk|].
  case_bool_decide; [by apply Hk|]. destruct (assembled_owned _ _ _ _ Ha Hu) as [ps ->].
  eapply stream_part_ok; [done..|by rewrite take_drop|]. intros etag o Ho. rewrite Hu. by apply (IH _ _ Ho).
Qed.

Lemma stream_chunks_ok {A} key u stream a o (k : Assembly → prog A) :
  assembled key a o → as_upload a = Some u →
  (∀ a' o', assembled key a' o' → as_upload a' = Some u → safe blob_content o' (k a')) →
  safe blob_content o (stream_chunks key u stream a k).
Proof.
  revert a o. induction stream as [|[m|b] stream IH]; intros a o Ha Hu Hk; simpl; [by apply Hk|..].
  - destruct (assembled_owned _ _ _ _ Ha Hu) as [ps ->]. split; [by eexists|done].
  - eapply stream_drain_ok; [by apply absorb_assembled|done|by intros; apply IH].
Qed.

Lemma stream_complete_ok key a u o :
  assembled key a o → as_upload a = Some u → as_buffer a = [] → blob_content key (as_hashed a) →
  safe blob_content o (stream_complete key u (as_parts a)).
Proof.
  intros Ha Hu Hb Hg. split; [by apply completed_content|]. intros [m|[]] _; simpl; [|done].
  split; [by eexists|done].
Qed.

Lemma put_streaming_ok dg stream : digest_wf dg → safe blob_content None (put_streaming dg stream).
Proof.
  intros Hd. apply safe_to_bind. cbn [safe_to]. destruct (s3_key dg) as [key|e|] eqn:Ek; [|done..].
  apply safe_to_bind. split; [done|]. intros [m|[u|]] _; [done| |done]. cbn [safe_to].
  apply stream_chunks_ok; [by exists ∅, []|done|].
  intros a o Ha Hu. destruct (assembled_owned _ _ _ _ Ha Hu) as [ps ->].
  case_bool_decide as Hdig; simpl; [|split; [by eexists|done]].
  assert (blob_content key (as_hashed a)) as Hg by by apply (matching_content dg).
  assert (safe blob_content (Some (u, key, Some ps)) (stream_part key u (i32_add (as_number a) 1) (as_buffer a)
    (λ part, stream_complete key u (as_parts a ++ [part])))) as Hlast.
  { eapply (stream_part_ok _ _ _ a (as_buffer a) []); [done..|by rewrite app_nil_r|].
    intros etag o Ho. by apply (stream_complete_ok key (next_part a u [] etag)). }
  destruct (as_buffer a) as [|x buf] eqn:Eb; [|exact Hlast].
  destruct (as_parts a) as [|part parts] eqn:Ep; [exact Hlast|]. rewrite <-Ep. by apply stream_complete_ok.
Qed.

(** What the server runs against the bucket that can touch blobs: the store's
    operations with checked digests, and the collector's deletions. *)
Inductive blob_op : thread → Prop :=
  | op_start sid : blob_op (Thread (start_upload sid))
  | op_push sid data : blob_op (Thread (push_chunk sid data))
  | op_complete sid dg : digest_wf dg → blob_op (Thread (complete_upload sid dg))
  | op_cancel sid : blob_op (Thread (delete_upload sid))
  | op_stream dg stream : digest_wf dg → blob_op (Thread (put_streaming dg stream))
  | op_stat dg : blob_op (Thread (stat dg))
  | op_get dg : blob_op (Thread (get dg))
  | op_get_range dg i j : blob_op (Thread (get_range dg i j))
  | op_delete key : blob_op (Thread (delete_object key)).

Lemma blob_op_safe t : blob_op t → safe_thread blob_content None t.
Proof.
  destruct 1 as [sid|sid data|sid dg Hd|sid|dg stream Hd|dg|dg|dg i j|key].
  3: by apply complete_upload_ok.
  4: by apply put_streaming_ok.
  all: apply staging_ok; [|done].
  - apply start_upload_staging.
  - apply push_chunk_staging.
  - apply delete_upload_staging.
  - apply stat_staging.
  - apply get_staging.
  - apply get_range_staging.
  - by split.
Qed.
End integrity.
