(* ===== verification/Staging.v ===== *)
(** Uploads to the blob store as an abstract data type: an upload in progress is
    the list of chunks received so far. Each operation of [Blobs], run on its
    own, implements its effect on that list, with failures of the service at any
    call; and the content of blobs stays right in every interleaving. *)

From Stdlib Require Import Ascii.
From stdpp Require Import options.
From S2P Require Import Prelude Errors Digests Manifests StateMachine Samples S3Client Blobs.

(** * Keys *)

Lemma parse_zeros n s : Str.parse_digits 0 (zeros n +:+ s) = Str.parse_digits 0 s.
Proof. induction n as [|n IH]; [done|]. exact IH. Qed.

Lemma pad20_inj a b :
  (0 ≤ a < 2 ^ 64)%Z → (0 ≤ b < 2 ^ 64)%Z → pad20 a = pad20 b → a = b.
Proof.
  intros Ha Hb. unfold pad20.
  assert ((a <? 0)%Z = false) as -> by lia. assert ((b <? 0)%Z = false) as -> by lia. intros E.
  assert (∀ z : Z, (0 ≤ z < 2 ^ 64)%Z → (Z.abs_N z < U64.modulus)%N) as Hm by (intros; unfold U64.modulus; lia).
  apply (f_equal (Str.parse_digits 0)) in E. rewrite !parse_zeros, !parse_digits_of_u64 in E by auto.
  injection E. lia.
Qed.

Lemma app_inv_head_str (p x y : string) : p +:+ x = p +:+ y → x = y.
Proof. induction p as [|c p IH]; [done|]. intros [= ?]. auto. Qed.

Lemma upload_part_key_inj sid a b :
  (0 ≤ a < 2 ^ 64)%Z → (0 ≤ b < 2 ^ 64)%Z → upload_part_key sid a = upload_part_key sid b → a = b.
Proof.
  intros Ha Hb E. apply pad20_inj; [done..|]. unfold upload_part_key in E.
  by do 3 apply app_inv_head_str in E.
Qed.

Lemma state_part_key sid n : upload_state_key sid ≠ upload_part_key sid n.
Proof. unfold upload_state_key, upload_part_key. intros E. by do 2 apply app_inv_head_str in E. Qed.

Section staging.
Context `{EX : Externals, UC : UploadCodec, S3 : S3Service, SL : !S3Laws}.

(** What the codec promises. *)
Class UploadCodecLaws := upload_codec st b : encode_state st = inr b → decode_state b = inr st.

(** * The abstract upload *)

Definition part_of (sid : string) (i : nat) (c : bytes) : StagedUploadPart :=
  MkStagedUploadPart (Z.of_nat i + 1) (upload_part_key sid (Z.of_nat i + 1)) (N.of_nat (length c)).
Definition state_of (sid : string) (chunks : list bytes) : StagedUploadState :=
  MkStagedUploadState (imap (part_of sid) chunks) (Z.of_nat (length chunks) + 1)
    (N.of_nat (length (concat chunks))).

(** The bucket holds the chunks of the upload, in order. *)
Definition staged (s : Bucket) (sid : string) (chunks : list bytes) : Prop :=
  (∃ b, objects s !! upload_state_key sid = Some b ∧ decode_state b = inr (state_of sid chunks)) ∧
  ∀ i c, chunks !! i = Some c → objects s !! upload_part_key sid (Z.of_nat i + 1) = Some c.

(** Within the machine integers that count chunks and bytes. *)
Definition fits (chunks : list bytes) : Prop :=
  (Z.of_nat (length chunks) + 1 < 2 ^ 31)%Z ∧ (N.of_nat (length (concat chunks)) < 2 ^ 64)%N.

(** No operation touches an object outside the upload's own staging area. *)
Definition staging_key (sid key : string) : Prop :=
  key = upload_state_key sid ∨ ∃ n, key = upload_part_key sid n.
Definition same_elsewhere (sid : string) (s s' : Bucket) : Prop :=
  ∀ key, ¬ staging_key sid key → objects s' !! key = objects s !! key.

Lemma exec_put key b s r s' :
  exec (put_object key b) s r s' →
  (objects s' = <[key := b]> (objects s) ∧ (r = Ok () ∨ ∃ e, r = Err e)) ∨
  (objects s' = objects s ∧ ∃ e, r = Err e).
Proof using SL.
  intros (r0 & s1 & Hc & -> & ->). apply law_put in Hc as [_ Hob]. simpl in r0.
  destruct r0 as [m|[]]; simpl; destruct Hob as [->|[[m' ?] ->]]; naive_solver.
Qed.

Lemma exec_delete key s r s' :
  exec (delete_object key) s r s' →
  (objects s' = delete key (objects s) ∧ (r = Ok () ∨ ∃ e, r = Err e)) ∨
  (objects s' = objects s ∧ ∃ e, r = Err e).
Proof using SL.
  intros (r0 & s1 & Hc & -> & ->). apply law_delete in Hc as [_ Hob]. simpl in r0.
  destruct r0 as [m|[]]; simpl; destruct Hob as [->|[[m' ?] ->]]; naive_solver.
Qed.

Lemma exec_read_state sid s r s' :
  exec (read_upload_state sid) s r s' → objects s' = objects s ∧
  match r with
  | Ok None => objects s !! upload_state_key sid = None
  | Ok (Some st) => ∃ b, objects s !! upload_state_key sid = Some b ∧ decode_state b = inr st
  | Err _ => True
  | Panic => False
  end.
Proof using SL.
  intros (r0 & s1 & Hc & Hr). apply law_get in Hc as (_ & Ho & Hb & Hn). simpl in r0.
  destruct r0 as [[m|m]|b]; simpl in Hr.
  - destruct Hr as [-> ->]. split; [done|]. by eapply Hn.
  - by destruct Hr as [-> ->].
  - destruct (decode_state b) as [m|st] eqn:Ed; destruct Hr as [-> ->]; [done|].
    split; [done|]. exists b. split; [by apply Hb|done].
Qed.

(** * Start and push *)

Context `{CL : UploadCodecLaws}.

Lemma state_key_own sid : staging_key sid (upload_state_key sid).
Proof. by left. Qed.
Lemma part_key_own sid n : staging_key sid (upload_part_key sid n).
Proof. right. by exists n. Qed.

Lemma same_elsewhere_insert sid s s' key b :
  staging_key sid key → objects s' = <[key := b]> (objects s) → same_elsewhere sid s s'.
Proof. intros Hk E key' Hk'. rewrite E. apply lookup_insert_ne. by intros ->. Qed.
Lemma same_elsewhere_delete sid s s' key :
  staging_key sid key → objects s' = delete key (objects s) → same_elsewhere sid s s'.
Proof. intros Hk E key' Hk'. rewrite E. apply lookup_delete_ne. by intros ->. Qed.
Lemma same_elsewhere_same sid s s' : objects s' = objects s → same_elsewhere sid s s'.
Proof. intros E key _. by rewrite E. Qed.
Lemma same_elsewhere_trans sid s1 s2 s3 :
  same_elsewhere sid s1 s2 → same_elsewhere sid s2 s3 → same_elsewhere sid s1 s3.
Proof. intros H1 H2 key Hk. by rewrite H2, H1. Qed.

(** Writing the state: it is stored, or the write failed and nothing changed. *)
Lemma exec_write_state sid st s r s' :
  exec (write_upload_state sid st) s r s' →
  (∃ b, decode_state b = inr st ∧ objects s' = <[upload_state_key sid := b]> (objects s) ∧
     (r = Ok () ∨ ∃ e, r = Err e)) ∨
  (objects s' = objects s ∧ ∃ e, r = Err e).
Proof using SL CL.
  unfold write_upload_state. destruct (encode_state st) as [m|b] eqn:E.
  - intros [-> ->]. right. by eauto.
  - intros [[Ho Hr]|?]%exec_put; [left|by right]. exists b. split; [by apply CL|done].
Qed.

Lemma start_upload_spec sid s r s' :
  exec (start_upload sid) s r s' →
  same_elsewhere sid s s' ∧ r ≠ Panic ∧ (r = Ok () → staged s' sid []).
Proof using SL CL.
  intros [(b & Hb & Ho & Hr)|(Ho & e & ->)]%exec_write_state.
  - split; [by eapply same_elsewhere_insert; [apply state_key_own|]|]. split; [naive_solver|].
    intros _. split; [|done]. exists b. by rewrite Ho, lookup_insert_eq.
  - split; [by apply same_elsewhere_same|done].
Qed.

Lemma staged_decode s sid chunks b :
  staged s sid chunks → objects s !! upload_state_key sid = Some b →
  decode_state b = inr (state_of sid chunks).
Proof. intros [(b' & Hb' & Hd) _] Hb. by simplify_eq. Qed.

Lemma staged_frame s s' sid chunks :
  staged s sid chunks →
  objects s' !! upload_state_key sid = objects s !! upload_state_key sid →
  (∀ i, i < length chunks →
     objects s' !! upload_part_key sid (Z.of_nat i + 1) = objects s !! upload_part_key sid (Z.of_nat i + 1)) →
  staged s' sid chunks.
Proof.
  intros [H1 H2] Hst Hp. split; [by rewrite Hst|]. intros i c Hi.
  rewrite Hp; [by apply H2|]. by eapply lookup_lt_Some.
Qed.

Lemma staged_same s s' sid chunks : staged s sid chunks → objects s' = objects s → staged s' sid chunks.
Proof. intros H E. eapply staged_frame; [done|by rewrite E|]. intros. by rewrite E. Qed.

Lemma state_of_snoc sid chunks data :
  fits (chunks ++ [data]) →
  MkStagedUploadState (su_parts (state_of sid chunks) ++
      [MkStagedUploadPart (su_next_part_number (state_of sid chunks))
         (upload_part_key sid (su_next_part_number (state_of sid chunks))) (N.of_nat (length data))])
    (i32_add (su_next_part_number (state_of sid chunks)) 1)
    (U64.add (su_total_bytes (state_of sid chunks)) (N.of_nat (length data))) =
  state_of sid (chunks ++ [data]).
Proof.
  unfold fits, state_of. cbn [su_parts su_next_part_number su_total_bytes].
  rewrite imap_app, length_app, concat_app, length_app. cbn [length concat]. rewrite app_nil_r.
  intros [Hc Hb]. f_equal.
  - f_equal. simpl. unfold part_of, compose. by rewrite Nat.add_0_r.
  - unfold i32_add. rewrite Z.mod_small; lia.
  - rewrite U64.add_small; [lia|]. unfold U64.modulus. lia.
Qed.

Lemma push_chunk_spec sid chunks data s r s' :
  staged s sid chunks → fits (chunks ++ [data]) → exec (push_chunk sid data) s r s' →
  same_elsewhere sid s s' ∧ r ≠ Panic ∧
  (staged s' sid chunks ∨ data ≠ [] ∧ staged s' sid (chunks ++ [data])) ∧
  (∀ n, r = Ok n → n = N.of_nat (length (concat chunks ++ data)) ∧
     staged s' sid (match data with [] => chunks | _ => chunks ++ [data] end)).
Proof using SL CL.
  intros Hst Hfit (r0 & s1 & [Hs1 Hr0]%exec_read_state & Hrest)%exec_bind.
  assert (staged s1 sid chunks) as Hst1 by (by eapply staged_same).
  destruct r0 as [[st|]|e|]; [|..|done].
  2: { destruct Hst as [(b & Hb & _) _]. congruence. }
  2: { destruct Hrest as [-> ->]. split; [by apply same_elsewhere_same|]. split_and!; [done|by left|done]. }
  destruct Hr0 as (b & Hb & Hd). rewrite (staged_decode _ _ _ _ Hst Hb) in Hd. injection Hd as <-.
  destruct data as [|x data].
  { destruct Hrest as [-> ->]. split; [by apply same_elsewhere_same|]. split; [done|]. split; [by left|].
    intros n [= <-]. split; [by rewrite app_nil_r|done]. }
  set (c := x :: data) in *.
  set (key := upload_part_key sid (su_next_part_number (state_of sid chunks))) in *.
  apply exec_bind in Hrest as (r1 & s2 & Hput%exec_put & Hrest).
  assert (∀ i, i < length chunks → key ≠ upload_part_key sid (Z.of_nat i + 1)) as Hkey.
  { intros i Hi E. destruct Hfit as [Hc _]. rewrite length_app in Hc. simpl in Hc.
    apply upload_part_key_inj in E; simpl in *; lia. }
  assert (same_elsewhere sid s s2 ∧ staged s2 sid chunks ∧ (r1 = Ok () → objects s2 !! key = Some c) ∧ r1 ≠ Panic)
    as (Hsame & Hst2 & Hkc & Hnp).
  { rewrite Hs1 in Hput. destruct Hput as [[Ho Hr1]|(Ho & e & ->)].
    - split; [by eapply same_elsewhere_insert; [apply part_key_own|]|]. split; [|split; [|naive_solver]].
      + apply (staged_frame s); [done| |intros i Hi]; rewrite Ho.
        * apply lookup_insert_ne. intros E. symmetry in E. by apply state_part_key in E.
        * by apply lookup_insert_ne, Hkey.
      + intros _. by rewrite Ho, lookup_insert_eq.
    - split; [by apply same_elsewhere_same|]. split; [|done]. eapply staged_same; [done|congruence]. }
  destruct r1 as [[]|e|]; [|destruct Hrest as [-> ->]; split_and!; [done..|by left|done]|done].
  apply exec_bind in Hrest as (r2 & s3 & Hw%exec_write_state & Hrest).
  rewrite state_of_snoc in Hw by done.
  destruct Hw as [(b' & Hb' & Ho & Hr2)|(Ho & e & ->)].
  - assert (staged s3 sid (chunks ++ [c])) as Hst3.
    { split; [by exists b'; rewrite Ho, lookup_insert_eq|]. intros i c' Hi.
      rewrite Ho, lookup_insert_ne by apply state_part_key.
      apply lookup_app_Some in Hi as [Hi|[Hlen Hi]]; [by apply Hst2|].
      destruct (i - length chunks) as [|j] eqn:Ei; [|by destruct j]. simpl in Hi. injection Hi as <-.
      rewrite <-(Hkc eq_refl). do 2 f_equal. simpl. lia. }
    assert (same_elsewhere sid s s3) as Hsame3.
    { eapply same_elsewhere_trans; [done|]. by eapply same_elsewhere_insert; [apply state_key_own|]. }
    destruct Hr2 as [->|[e ->]]; destruct Hrest as [-> ->]; (split; [done|]); (split; [done|]).
    + split; [by right|]. intros n [= <-]. split; [|done].
      etransitivity; [exact (f_equal su_total_bytes (state_of_snoc sid chunks c Hfit))|]. simpl.
      by rewrite concat_app, concat_cons, app_nil_r.
    + split; [by right|done].
  - destruct Hrest as [-> ->]. split; [by eapply same_elsewhere_trans; [|apply same_elsewhere_same]|].
    split; [done|]. split; [left|done]. by eapply staged_same.
Qed.

(** * Completion *)

Abbreviation anything := (λ (_ : string) (_ : bytes), True).

Lemma drain_quiet fuel key a : confined nowhere (drain fuel key a).
Proof.
  revert a. induction fuel as [|fuel IH]; intros a; simpl; [done|]. case_bool_decide; [done|].
  apply confined_bind; [|intros u; apply confined_bind; [by split; [|intros []]|by intros]].
  destruct (as_upload a); [done|]. split; [done|]. by intros [|[]].
Qed.

Lemma gather_quiet key parts a : confined nowhere (gather key parts a).
Proof.
  revert a. induction parts as [|p parts IH]; intros a; cbn [gather]; [done|].
  apply confined_bind; [by split|]. intros b. case_bool_decide; [|done].
  apply confined_bind; [apply drain_quiet|by intros].
Qed.

Lemma drain_exec key a o s a' s' :
  assembled key a o → holds s o → exec (drain_all key a) s (Ok a') s' →
  objects s' = objects s ∧ as_hashed a' = as_hashed a ∧ ∃ o', assembled key a' o' ∧ holds s' o'.
Proof using EX SL.
  intros Ha Ho Hrun.
  pose proof (safe_to_mono blob_content anything _ o _ ltac:(done) (drain_ok (length (as_buffer a)) key a o Ha))
    as Hsafe.
  destruct (exec_safe anything _ _ _ _ _ _ Hsafe Hrun) as (o' & [Ha' Hh] & Ho' & _); [done..|].
  split; [|by eauto]. by eapply (quiet_objects anything); [|apply drain_quiet|..].
Qed.

Lemma holds_frame s s' o : holds s o → uploads s' = uploads s → issued s ⊆ issued s' → holds s' o.
Proof. intros Ho Hu Hi u key ps E. destruct (Ho u key ps E) as [? ?]. rewrite Hu. auto. Qed.

Lemma gather_exec key parts chunks a o s a' s' :
  Forall2 (λ p c, objects s !! sp_key p = Some c) parts chunks →
  assembled key a o → holds s o → exec (gather key parts a) s (Ok a') s' →
  as_hashed a' = as_hashed a ++ concat chunks ∧ ∃ o', assembled key a' o' ∧ holds s' o'.
Proof using EX SL.
  revert chunks a o s. induction parts as [|p parts IH]; intros chunks a o s Hp Ha Ho.
  - apply Forall2_nil_inv_l in Hp as ->. intros [[= <-] ->]. rewrite app_nil_r. by eauto.
  - cbn [gather]. intros (b & s1 & Hget & Hrun)%exec_bind_Ok.
    destruct Hget as (r0 & s1' & Hc & Hr0 & ->). pose proof (law_issued _ _ _ _ Hc) as Hi.
    apply law_get in Hc as (Hu & Hob & Hb & _). simpl in r0.
    destruct r0 as [e|b']; [done|]. injection Hr0 as ->. specialize (Hb _ eq_refl).
    revert Hrun. case_bool_decide; [|by intros [? _]]. cbn [negb].
    intros (a1 & s2 & Hd & Hrun)%exec_bind_Ok.
    apply Forall2_cons_inv_l in Hp as (c & chunks' & Hc & Hp & ->). rewrite Hc in Hb. injection Hb as <-.
    apply (drain_exec key _ o) in Hd as (Hob2 & Hh & o1 & Ha1 & Ho1);
      [|by apply absorb_assembled|by eapply holds_frame].
    apply (IH chunks' _ o1) in Hrun as [Hh' ?]; [|by rewrite Hob2, Hob|done..].
    split; [|done]. rewrite Hh', Hh. simpl. by rewrite app_assoc.
Qed.

(** Finishing stores exactly what was hashed. *)
Lemma finish_exec key a o s s' :
  assembled key a o → holds s o → exec (finish_assembly key a) s (Ok ()) s' →
  objects s' = <[key := as_hashed a]> (objects s).
Proof using EX SL.
  intros Ha Ho. unfold finish_assembly. destruct (as_upload a) as [u|] eqn:Eu.
  - intros (parts & s1 & Hp & Hc)%exec_bind_Ok.
    assert (∃ ps, uploads s1 !! u = Some (key, ps) ∧ objects s1 = objects s ∧
      assemble ps parts.*1 = Some (as_hashed a)) as (ps & Hup & <- & Has).
    { destruct (assembled_owned _ _ _ _ Ha Eu) as [ps ->].
      destruct (Ho u key (Some ps) eq_refl) as [_ Hup]. specialize (Hup ps eq_refl).
      destruct (as_buffer a) as [|x buf] eqn:Eb.
      - destruct Hp as [[= ->] ->]. exists ps. split; [done|]. split; [done|].
        unfold assembled in Ha. rewrite Eu in Ha. destruct Ha as (ps' & up & [= <-] & _ & _ & Has & Hh).
        by rewrite Has, Hh, Eb, app_nil_r.
      - apply exec_bind_Ok in Hp as (part & s2 & Hpart & [= ->] & ->).
        destruct Hpart as (r & s3 & Hcall & Hr & ->). simpl in r.
        destruct (law_part _ _ _ _ _ _ _ ps Hcall Hup) as (Hob & Hn & Hu).
        destruct r as [m|etag]; [done|]. injection Hr as ->.
        destruct Hu as [Hu|[[? ?] _]]; [|done]. eexists. split; [by rewrite Hu, lookup_insert_eq|].
        split; [done|].
        pose proof (sent_assembled key a u ps etag (x :: buf) []) as Hs.
        destruct Hs as (ps' & up & [= <-] & _ & _ & Has & Hh).
        + by rewrite as_opened.
        + by eapply Hn.
        + by rewrite app_nil_r.
        + cbn [as_parts as_hashed as_buffer next_part] in Has, Hh. by rewrite Has, Hh, app_nil_r. }
    destruct Hc as (r & s2 & Hcall & Hr & ->). simpl in r.
    destruct (law_complete _ _ _ _ _ _ ps Hcall Hup) as [_ [(body & Hb & ->)|[[m ->] _]]]; [|done].
    by simplify_eq.
  - unfold assembled in Ha. rewrite Eu in Ha. destruct Ha as (_ & _ & _ & ->).
    by intros [[-> _]|[_ [e ?]]]%exec_put.
Qed.

Lemma imap_parts_sorted sid chunks k :
  StronglySorted part_le (imap (λ i c, part_of sid (k + i) c) chunks).
Proof.
  revert k. induction chunks as [|c chunks IH]; intros k; simpl; [constructor|].
  constructor.
  - eapply (eq_ind _ _ (IH (S k))). apply imap_ext. intros i x _. unfold compose. f_equal. lia.
  - apply Forall_forall. intros p Hp. apply elem_of_lookup_imap in Hp as (i & x & -> & _).
    unfold part_le, part_of, compose. simpl. lia.
Qed.

Lemma sort_parts_id sid chunks : sort_parts (imap (part_of sid) chunks) = imap (part_of sid) chunks.
Proof.
  pose proof (imap_parts_sorted sid chunks 0) as Hs. simpl in Hs.
  apply (StronglySorted_unique_strong part_le).
  - intros p q Hp Hq Hpq Hqp. unfold sort_parts in Hp. rewrite merge_sort_Permutation in Hp.
    apply elem_of_lookup_imap in Hp as (i & x & -> & Hi). apply elem_of_lookup_imap in Hq as (j & y & -> & Hj).
    assert (i = j) as -> by (unfold part_le, part_of in *; simpl in *; lia). by simplify_eq.
  - apply (StronglySorted_merge_sort _).
  - done.
  - apply merge_sort_Permutation.
Qed.

Lemma staged_parts_objects s sid chunks :
  staged s sid chunks → Forall2 (λ p c, objects s !! sp_key p = Some c) (imap (part_of sid) chunks) chunks.
Proof.
  intros [_ Hp]. apply Forall2_same_length_lookup_2; [by rewrite length_imap|].
  intros i p c Hi Hc. rewrite list_lookup_imap, Hc in Hi. injection Hi as <-. by apply Hp.
Qed.

Lemma exec_delete_parts parts s s' :
  exec (delete_parts parts) s (Ok ()) s' →
  ∀ key, objects s' !! key = if decide (key ∈ sp_key <$> parts) then None else objects s !! key.
Proof using SL.
  clear CL. revert s. induction parts as [|p parts IH]; intros s.
  - intros [_ ->] key. by rewrite decide_False by (intros []%not_elem_of_nil).
  - cbn [delete_parts]. intros ([] & s1 & [[Ho _]|[_ [e ?]]]%exec_delete & Hrun)%exec_bind_Ok key; [|done].
    rewrite (IH _ Hrun), Ho, fmap_cons. destruct (decide (key = sp_key p)) as [->|Hne].
    + rewrite (decide_True (P := sp_key p ∈ _ :: _)) by by left. rewrite lookup_delete_eq. by case_decide.
    + rewrite lookup_delete_ne by done. repeat case_decide; set_solver.
Qed.

Lemma finish_confined key a : confined (.= key) (finish_assembly key a).
Proof.
  unfold finish_assembly. destruct (as_upload a) as [u|]; [|by split].
  apply confined_bind; [|by split]. destruct (as_buffer a); [done|]. apply confined_bind; [by split|done].
Qed.

Lemma delete_parts_confined sid chunks : confined (staging_key sid) (delete_parts (imap (part_of sid) chunks)).
Proof.
  assert (∀ l, Forall (λ p, staging_key sid (sp_key p)) l → confined (staging_key sid) (delete_parts l)) as H.
  { induction 1; [done|]. apply confined_bind; [by split|done]. }
  apply H, Forall_forall. intros p (i & x & -> & _)%elem_of_lookup_imap. apply part_key_own.
Qed.

Lemma confined_weaken {A} (K K' : string → Prop) (p : prog A) :
  (∀ key, K key → K' key) → confined K p → confined K' p.
Proof.
  intros H. induction p as [r|c k IH]; simpl; [done|]. intros [Hc Hk]. split; [|by auto]. destruct c; simpl in *; auto.
Qed.

(** What follows the digest check of [complete_upload]. *)
Definition complete_tail (sid key : string) (a : Assembly) (chunks : list bytes) : prog () :=
  _ ← finish_assembly key a; _ ← delete_object (upload_state_key sid);
  delete_parts (imap (part_of sid) chunks).

Lemma tail_elsewhere sid key a o chunks s r s' k :
  assembled key a o → blob_content key (as_hashed a) → holds s o → exec (complete_tail sid key a chunks) s r s' →
  k ≠ key → ¬ staging_key sid k → objects s' !! k = objects s !! k.
Proof using EX SL.
  intros Ha Hg Ho Hrun Hne Hns.
  eapply (confined_objects anything (λ k, k = key ∨ staging_key sid k)); [| |exact Hrun|done|exact Ho|tauto].
  - apply (safe_to_mono blob_content anything _ _ (λ _ _, True)); [done|]. apply safe_to_bind.
    eapply safe_to_impl; [by apply finish_assembly_ok|]. intros [[]|e|] o' _; [|done..].
    apply staging_ok; [|done]. apply staging_bind; [by split|]. intros. apply delete_parts_staging.
  - apply confined_bind; [eapply confined_weaken; [|apply finish_confined]; by left|]. intros _.
    apply confined_bind; [split; [right; apply state_key_own|done]|]. intros _.
    eapply confined_weaken; [|apply delete_parts_confined]. by right.
Qed.

Lemma tail_Ok sid key a o chunks s s' :
  assembled key a o → holds s o → (∀ n, key ≠ upload_part_key sid n ∧ key ≠ upload_state_key sid) →
  exec (complete_tail sid key a chunks) s (Ok ()) s' →
  objects s' !! key = Some (as_hashed a) ∧ objects s' !! upload_state_key sid = None ∧
  ∀ i, i < length chunks → objects s' !! upload_part_key sid (Z.of_nat i + 1) = None.
Proof using EX SL.
  intros Ha Ho Hno Hrest. apply exec_bind_Ok in Hrest as ([] & s3 & Hf & Hrest).
  apply (finish_exec key a o) in Hf; [|done..].
  apply exec_bind_Ok in Hrest as ([] & s4 & [[Hdel _]|[_ [e ?]]]%exec_delete & Hrest); [|done].
  pose proof (exec_delete_parts _ _ _ Hrest) as Hfin. cbn [su_parts] in Hfin. split_and!.
  - rewrite Hfin, decide_False.
    + rewrite Hdel, lookup_delete_ne by (intros E; by destruct (Hno 0%Z)). by rewrite Hf, lookup_insert_eq.
    + intros (p & E & (i & x & -> & _)%elem_of_lookup_imap)%list_elem_of_fmap.
      by destruct (Hno (Z.of_nat i + 1)%Z).
  - rewrite Hfin. case_decide; [done|]. by rewrite Hdel, lookup_delete_eq.
  - intros i Hi. rewrite Hfin, decide_True; [done|]. apply list_elem_of_fmap.
    destruct (lookup_lt_is_Some_2 chunks i Hi) as [c Hc]. exists (part_of sid i c). split; [done|].
    apply elem_of_lookup_imap. by eauto.
Qed.

Lemma complete_upload_spec sid chunks dg key s r s' :
  staged s sid chunks → digest_wf dg → s3_key dg = Ok key → exec (complete_upload sid dg) s r s' →
  (r = Ok () →
     digest_to_string (digest_sha256 sha256_hex (concat chunks)) = digest_to_string dg ∧
     objects s' !! key = Some (concat chunks) ∧ objects s' !! upload_state_key sid = None ∧
     (∀ i, i < length chunks → objects s' !! upload_part_key sid (Z.of_nat i + 1) = None)) ∧
  (digest_to_string (digest_sha256 sha256_hex (concat chunks)) ≠ digest_to_string dg →
     objects s' = objects s) ∧
  (∀ k, k ≠ key → ¬ staging_key sid k → objects s' !! k = objects s !! k).
Proof using EX SL CL.
  intros Hst Hd Hk Hrun.
  apply exec_bind in Hrun as (r0 & s1 & [Hs1 Hr0]%exec_read_state & Hrest).
  assert (staged s1 sid chunks) as Hst1 by (by eapply staged_same).
  assert (Hno : ∀ n, key ≠ upload_part_key sid n ∧ key ≠ upload_state_key sid).
  { intros n. destruct (s3_key_blobs dg key Hk) as [x ->]. done. }
  assert (∀ s2, objects s2 = objects s → ∀ k, k ≠ key → ¬ staging_key sid k → objects s2 !! k = objects s !! k)
    as Hsame by (by intros s2 ->).
  destruct r0 as [[st|]|e|]; [|..|done].
  2: { destruct Hst as [(b & Hb & _) _]. congruence. }
  2: { destruct Hrest as [-> ->]. by split_and!; auto. }
  destruct Hr0 as (b & Hb & Hdec). rewrite (staged_decode _ _ _ _ Hst Hb) in Hdec. injection Hdec as <-.
  cbn [su_parts state_of] in Hrest. rewrite sort_parts_id in Hrest.
  apply exec_bind in Hrest as (r1 & s1' & [-> ->] & Hrest). rewrite Hk in Hrest.
  apply exec_bind in Hrest as (r2 & s2 & Hg & Hrest).
  assert (assembled key no_assembly None) as Hna by done.
  pose proof (safe_to_mono blob_content anything _ None _ ltac:(done) (gather_ok key (imap (part_of sid) chunks) _ _ Hna))
    as Hsafe.
  assert (objects s2 = objects s) as Hs2.
  { rewrite <-Hs1. by eapply (quiet_objects anything); [|apply gather_quiet|..]. }
  destruct r2 as [a|e|].
  2: { destruct Hrest as [-> ->]. by split_and!; auto. }
  2: { by destruct (exec_safe anything _ _ _ _ _ _ Hsafe Hg) as (? & [] & _). }
  apply (gather_exec key _ chunks _ None) in Hg as (Hh & o & Ha & Ho); [|by apply staged_parts_objects|done..].
  simpl in Hh. rewrite Hh in Hrest. revert Hrest. case_bool_decide as Hdig; cbn [negb]; intros Hrest.
  - split; [|split; [done|]].
    + intros ->. rewrite <-Hh. split; [by rewrite Hh|]. by apply (tail_Ok sid key a o chunks s2).
    + intros k Hne Hns. rewrite <-Hs2. eapply (tail_elsewhere sid key a o chunks); [done| |done|exact Hrest|done..].
      rewrite Hh. by apply (matching_content dg).
  - assert (objects s' = objects s2 ∧ ∃ e, r = Err e) as [Hs' [e ->]].
    { destruct (as_upload a).
      - destruct Hrest as (r3 & s3 & Hc & -> & ->). apply law_abort in Hc as [? _]. by eauto.
      - destruct Hrest as [-> ->]. by eauto. }
    assert (objects s' = objects s) by congruence. by split_and!; auto.
Qed.

(** * Completion succeeds on a reliable service *)

Section reliable.
Context `{SR : !S3Reliable}.

(** Every part sent so far is full. *)
Lemma part_size_Z : Z.of_nat (N.to_nat MIN_PART_SIZE) = Z.of_N MIN_PART_SIZE.
Proof. by rewrite N_nat_Z. Qed.
Lemma part_size_pos : (0 < Z.of_N MIN_PART_SIZE)%Z.
Proof. done. Qed.

Definition counted (a : Assembly) : Prop :=
  (as_number a * Z.of_N MIN_PART_SIZE + Z.of_nat (length (as_buffer a)) = Z.of_nat (length (as_hashed a)))%Z.
Definition sendable (n : nat) : Prop := (Z.of_nat n ≤ 10000 * Z.of_N MIN_PART_SIZE)%Z.

Lemma counted_absorb a c : counted a → counted (absorb a c).
Proof.
  unfold counted, absorb. cbn [as_number as_buffer as_hashed]. rewrite !length_app.
  generalize (Z.of_N MIN_PART_SIZE). lia.
Qed.

Lemma send_succeeds key a u ps s r s' d rest :
  assembled key (MkAssembly (as_hashed a) (as_buffer a) (Some u) (as_parts a) (as_number a))
    (Some (u, key, Some ps)) → holds s (Some (u, key, Some ps)) →
  as_buffer a = d ++ rest → (as_number a + 1 ≤ 10000)%Z →
  exec (upload_final_part key u (i32_add (as_number a) 1) d) s r s' →
  ∃ etag o, r = Ok (i32_add (as_number a) 1, etag) ∧ i32_add (as_number a) 1 = (as_number a + 1)%Z ∧
    assembled key (next_part a u rest etag) o ∧ holds s' o ∧ objects s' = objects s.
Proof using EX SL SR.
  intros Ha Ho Hb Hn (r0 & s1 & Hc & -> & ->). pose proof Ha as (ps' & up & [= <-] & Hnum & _). simpl in Hnum.
  assert (i32_add (as_number a) 1 = as_number a + 1)%Z as Ei by (unfold i32_add; rewrite Z.mod_small; lia).
  destruct (Ho u key (Some ps) eq_refl) as [_ Hup]. specialize (Hup ps eq_refl).
  destruct (rel_part _ _ _ _ _ _ _ ps Hc Hup) as [etag ->]; [lia|]. simpl.
  destruct (call_preserves anything _ (Some (u, key, Some ps)) _ _ _ Hc) as (_ & _ & Ho' & _); [by eexists|done..|].
  destruct (law_part _ _ _ _ _ _ _ ps Hc Hup) as (Hob & _ & _).
  exists etag. eexists. split; [done|]. split; [done|]. split; [|split; [exact Ho'|done]].
  apply sent_assembled; [done|lia|done].
Qed.

Lemma drain_succeeds fuel key a o s r s' :
  assembled key a o → holds s o → counted a → sendable (length (as_hashed a)) →
  exec (drain fuel key a) s r s' → ∃ a', r = Ok a' ∧ counted a' ∧ as_hashed a' = as_hashed a.
Proof using EX SL SR.
  revert a o s. induction fuel as [|fuel IH]; intros a o s Ha Ho Hct Hsend; cbn [drain].
  { intros [-> ->]. by eauto. }
  case_bool_decide as Hlen; [intros [-> ->]; by eauto|].
  pose proof (take_drop (N.to_nat MIN_PART_SIZE) (as_buffer a)) as Hb. symmetry in Hb.
  assert (length (take (N.to_nat MIN_PART_SIZE) (as_buffer a)) = N.to_nat MIN_PART_SIZE) as Hl
    by (rewrite length_take; lia).
  revert Hb Hl. generalize (take (N.to_nat MIN_PART_SIZE) (as_buffer a)). intros d.
  generalize (drop (N.to_nat MIN_PART_SIZE) (as_buffer a)). intros rest Hb Hl.
  assert (length (as_buffer a) = N.to_nat MIN_PART_SIZE + length rest) as Hbl by (rewrite Hb, length_app; lia).
  assert (∀ u ps s, assembled key (MkAssembly (as_hashed a) (as_buffer a) (Some u) (as_parts a) (as_number a))
      (Some (u, key, Some ps)) → holds s (Some (u, key, Some ps)) →
    exec (part ← upload_final_part key u (i32_add (as_number a) 1) d;
      drain fuel key (MkAssembly (as_hashed a) rest (Some u) (as_parts a ++ [part]) (i32_add (as_number a) 1)))
      s r s' → ∃ a', r = Ok a' ∧ counted a' ∧ as_hashed a' = as_hashed a) as Hgo.
  { intros u ps s0 Hu Hu' (r0 & s1 & Hp & Hrest)%exec_bind. unfold counted, sendable in *.
    pose proof part_size_Z as HM. pose proof part_size_pos as HM'.
    generalize dependent (Z.of_N MIN_PART_SIZE). generalize dependent (N.to_nat MIN_PART_SIZE). intros.
    apply (send_succeeds key a u ps _ _ _ d rest) in Hp as (etag & o' & -> & Ei & Ha' & Ho' & _); [|done..|nia].
    apply (IH _ o') in Hrest; [done..| |done]. cbn [as_number as_buffer as_hashed]. rewrite Ei. nia. }
  intros (r0 & s1 & Hu & Hrest)%exec_bind.
  destruct (as_upload a) as [u|] eqn:Eu.
  - destruct Hu as [-> ->]. destruct (assembled_owned _ _ _ _ Ha Eu) as [ps ->].
    apply (Hgo u ps s); [by rewrite as_opened|done..].
  - pose proof Ha as Ha'. unfold assembled in Ha'. rewrite Eu in Ha'. destruct Ha' as [-> _].
    destruct Hu as (r1 & s2 & Hc & -> & ->). destruct (rel_create _ _ _ _ Hc) as [u ->]. simpl in Hrest.
    destruct (call_preserves anything _ None _ _ _ Hc) as (_ & _ & Ho' & _); [done..|].
    apply (Hgo u ∅ s2); [by apply open_assembled|exact Ho'|done].
Qed.

Lemma gather_succeeds key parts chunks a o s r s' :
  Forall2 (λ p c, objects s !! sp_key p = Some c ∧ sp_size p = N.of_nat (length c)) parts chunks →
  assembled key a o → holds s o → counted a → sendable (length (as_hashed a ++ concat chunks)) →
  exec (gather key parts a) s r s' → ∃ a', r = Ok a' ∧ counted a'.
Proof using EX SL SR.
  revert chunks a o s. induction parts as [|p parts IH]; intros chunks a o s Hp Ha Ho Hct Hsend.
  { intros [-> ->]. by eauto. }
  apply Forall2_cons_inv_l in Hp as (c & chunks' & [Hc Hsz] & Hp & ->).
  cbn [gather]. intros (r0 & s1 & Hget & Hrest)%exec_bind.
  destruct Hget as (r1 & s1' & Hcall & -> & ->). rewrite (rel_get _ _ _ _ _ Hcall Hc) in Hrest.
  pose proof (law_issued _ _ _ _ Hcall) as Hi. apply law_get in Hcall as (Hu & Hob & _).
  rewrite bool_decide_eq_true_2 in Hrest by done. cbn [negb] in Hrest.
  apply exec_bind in Hrest as (r2 & s2 & Hd & Hrest). cbn [concat] in Hsend.
  assert (sendable (length (as_hashed (absorb a c)))) as Hs1.
  { revert Hsend. unfold sendable, absorb. cbn [as_hashed]. rewrite !length_app.
    generalize (10000 * Z.of_N MIN_PART_SIZE)%Z. lia. }
  assert (holds s1' o) as Ho1 by (by eapply holds_frame).
  assert (counted (absorb a c)) as Hct1 by by apply counted_absorb.
  pose proof (absorb_assembled key a c o Ha) as Ha1.
  destruct (drain_succeeds _ _ _ o _ _ _ Ha1 Ho1 Hct1 Hs1 Hd) as (a' & -> & Hct' & Hh').
  destruct (drain_exec _ _ _ _ _ _ Ha1 Ho1 Hd) as (Hob2 & _ & o' & Ha' & Ho').
  eapply (IH chunks' a' o'); [|done..| |done].
  - by rewrite Hob2, Hob.
  - rewrite Hh'. simpl. by rewrite <-app_assoc.
Qed.

Lemma delete_parts_succeeds parts s r s' : exec (delete_parts parts) s r s' → r = Ok ().
Proof using SR.
  revert s. induction parts as [|p parts IH]; intros s; [by intros [-> _]|]. cbn [delete_parts].
  intros (r0 & s1 & (r1 & s1' & Hc & -> & ->) & Hrest)%exec_bind.
  rewrite (rel_delete _ _ _ _ Hc) in Hrest. exact (IH _ Hrest).
Qed.

Lemma finish_succeeds key a o s r s' :
  assembled key a o → holds s o → counted a → sendable (length (as_hashed a)) →
  exec (finish_assembly key a) s r s' → r = Ok ().
Proof using EX SL SR.
  intros Ha Ho Hct Hsend. unfold finish_assembly. destruct (as_upload a) as [u|] eqn:Eu.
  - destruct (assembled_owned _ _ _ _ Ha Eu) as [ps ->].
    assert (∀ parts s1 ps1, uploads s1 !! u = Some (key, ps1) → is_Some (assemble ps1 parts.*1) →
      exec (Call (CompleteMultipartUpload key u parts) (λ r, Ret (s3_err r))) s1 r s' → r = Ok ()) as Hcomp.
    { intros parts s1 ps1 Hup [body Hb] (r1 & s2 & Hc & -> & ->).
      by rewrite (rel_complete _ _ _ _ _ _ _ _ Hc Hup Hb). }
    intros (r0 & s1 & Hp & Hrest)%exec_bind. destruct (as_buffer a) as [|x buf] eqn:Eb.
    + destruct Hp as [-> ->]. destruct (Ho u key (Some ps) eq_refl) as [_ Hup].
      eapply Hcomp; [by apply Hup| |done]. unfold assembled in Ha. rewrite Eu in Ha.
      destruct Ha as (ps' & up & [= <-] & _ & _ & -> & _). by eexists.
    + apply exec_bind in Hp as (r1 & s2 & Hp & Hdone).
      assert (as_number a + 1 ≤ 10000)%Z as Hn.
      { pose proof part_size_pos as HM. revert Hct Hsend HM. unfold counted, sendable. rewrite Eb. cbn [length].
        generalize (Z.of_N MIN_PART_SIZE). nia. }
      apply (send_succeeds key a u ps _ _ _ (x :: buf) []) in Hp as (etag & o' & -> & _ & Ha' & Ho' & _);
        [|by rewrite as_opened|done|by rewrite app_nil_r|done].
      destruct Hdone as [-> ->]. destruct (assembled_owned key _ u o' Ha' eq_refl) as [ps' ->].
      destruct (Ho' u key (Some ps') eq_refl) as [_ Hup]. eapply Hcomp; [by apply Hup| |done].
      destruct Ha' as (ps2 & up & [= <-] & _ & _ & Has & _). cbn [as_parts next_part] in Has. by rewrite Has.
  - intros (r1 & s2 & Hc & -> & ->). by rewrite (rel_put _ _ _ _ _ Hc).
Qed.

Lemma complete_upload_succeeds sid chunks dg s r s' :
  staged s sid chunks → digest_wf dg → sendable (length (concat chunks)) →
  digest_to_string (digest_sha256 sha256_hex (concat chunks)) = digest_to_string dg →
  exec (complete_upload sid dg) s r s' → r = Ok ().
Proof using EX SL CL SR.
  intros Hst Hd Hsend Hdig (r0 & s1 & Hread & Hrest)%exec_bind.
  pose proof Hread as [Hs1 _]%exec_read_state. pose proof Hst as [(b & Hb & Hdec) _].
  destruct Hread as (rr & s1' & Hc & Hr0). rewrite (rel_get _ _ _ _ _ Hc Hb) in Hr0. simpl in Hr0.
  rewrite Hdec in Hr0. destruct Hr0 as [-> ->].
  assert (staged s1' sid chunks) as Hst1 by (by eapply staged_same).
  cbn [su_parts state_of] in Hrest. rewrite sort_parts_id in Hrest.
  destruct (s3_key_roundtrip dg Hd) as (key & Hk & _).
  apply exec_bind in Hrest as (r1 & s2 & [-> ->] & Hrest). rewrite Hk in Hrest.
  apply exec_bind in Hrest as (r2 & s3 & Hg & Hrest).
  assert (Forall2 (λ p c, objects s1' !! sp_key p = Some c) (imap (part_of sid) chunks) chunks) as Hp
    by by apply staged_parts_objects.
  destruct (gather_succeeds key (imap (part_of sid) chunks) chunks no_assembly None s1' r2 s3) as (a & -> & Hct);
    [|done..|].
  { apply Forall2_same_length_lookup_2; [by rewrite length_imap|]. intros i p c Hi Hci.
    rewrite Forall2_lookup in Hp. specialize (Hp i). rewrite Hi, Hci in Hp. inversion Hp as [? ? Hpc|]; subst.
    split; [done|]. rewrite list_lookup_imap, Hci in Hi. by injection Hi as <-. }
  apply (gather_exec key _ chunks _ None) in Hg as (Hh & o & Ha & Ho); [|done..]. simpl in Hh.
  rewrite Hh, bool_decide_eq_true_2 in Hrest by done. cbn [negb] in Hrest.
  apply exec_bind in Hrest as (r3 & s4 & Hf & Hrest).
  apply (finish_succeeds key a o) in Hf as ->; [|done..|by rewrite Hh].
  apply exec_bind in Hrest as (r4 & s5 & (r5 & s5' & Hdel & -> & ->) & Hrest).
  rewrite (rel_delete _ _ _ _ Hdel) in Hrest. exact (delete_parts_succeeds _ _ _ _ Hrest).
Qed.
End reliable.
End staging.
