(* ===== verification/BlobStore.v ===== *)
(** What the blob store promises: integrity of stored blobs in every
    interleaving, refinement of an abstract upload, and success on a service
    that does not fail; with an in-memory service that satisfies the laws. *)

From Stdlib Require Import Ascii.
From stdpp Require Import countable options.
From S2P Require Import Prelude Errors Digests Manifests StateMachine Samples S3Client Blobs Staging.

(** * An abstract upload *)

(** No upload, one in progress with its chunks, or one that a failure in the
    middle of its removal left in an unknown state. *)
Inductive upload := NoUpload | Open (chunks : list bytes) | Lost.
Inductive upload_cmd := CmdStart | CmdPush (data : bytes) | CmdComplete (dg : Digest) | CmdCancel.

Section specification.
Context `{EX : Externals, UC : UploadCodec}.

Definition run_cmd (sid : string) (c : upload_cmd) : prog () :=
  match c with
  | CmdStart => start_upload sid
  | CmdPush data => _ ← push_chunk sid data; done ()
  | CmdComplete dg => complete_upload sid dg
  | CmdCancel => delete_upload sid
  end.

Definition append_chunk (chunks : list bytes) (data : bytes) : list bytes :=
  match data with [] => chunks | _ => chunks ++ [data] end.
Definition matches (chunks : list bytes) (dg : Digest) : Prop :=
  digest_to_string (digest_sha256 sha256_hex (concat chunks)) = digest_to_string dg.

#[global] Instance matches_dec chunks dg : Decision (matches chunks dg).
Proof. unfold matches. apply _. Defined.

(** The upload before, the command, whether it succeeded, the upload after and
    the blob it stored. A failed push may still have stored its chunk; a
    completion that does not match keeps the upload. *)
Inductive upload_effect : upload → upload_cmd → bool → upload → option bytes → Prop :=
  | eff_start u : upload_effect u CmdStart true (Open []) None
  | eff_start_failed u u' : u' = u ∨ u' = Open [] → upload_effect u CmdStart false u' None
  | eff_push chunks data :
      upload_effect (Open chunks) (CmdPush data) true (Open (append_chunk chunks data)) None
  | eff_push_failed chunks data chunks' : chunks' = chunks ∨ chunks' = append_chunk chunks data →
      upload_effect (Open chunks) (CmdPush data) false (Open chunks') None
  | eff_complete chunks dg : matches chunks dg →
      upload_effect (Open chunks) (CmdComplete dg) true NoUpload (Some (concat chunks))
  | eff_mismatch chunks dg : ¬ matches chunks dg →
      upload_effect (Open chunks) (CmdComplete dg) false (Open chunks) None
  | eff_complete_failed chunks dg : matches chunks dg →
      upload_effect (Open chunks) (CmdComplete dg) false Lost None
  | eff_cancel u : u ≠ Lost → upload_effect u CmdCancel true NoUpload None
  | eff_cancel_failed chunks : upload_effect (Open chunks) CmdCancel false Lost None
  | eff_no_upload c : c ≠ CmdStart → upload_effect NoUpload c false NoUpload None.

(** The whole upload of a blob in chunks. *)
Fixpoint push_chunks (sid : string) (chunks : list bytes) : prog () :=
  match chunks with [] => done () | c :: chunks' => _ ← push_chunk sid c; push_chunks sid chunks' end.
Definition upload_session (sid : string) (chunks : list bytes) (dg : Digest) : prog () :=
  _ ← start_upload sid; _ ← push_chunks sid chunks; complete_upload sid dg.
End specification.

(** * A service in memory *)

Record Memory := MkMemory {
  mem_objects : gmap string bytes;
  mem_uploads : gmap string (string * gmap Z bytes);
  mem_issued : gset string;
}.
Definition no_memory : Memory := MkMemory ∅ ∅ ∅.

Definition mem_reply (c : call) (s : Memory) : resp c * Memory :=
  let '(MkMemory ob up iss) := s in
  match c return resp c * Memory with
  | PutObject key body => (inr (), MkMemory (<[key := body]> ob) up iss)
  | GetObject key =>
      (match ob !! key with Some b => inr b | None => inl (NoSuchKey [Lit "no such key"]) end, s)
  | GetObjectRange key i j =>
      (match ob !! key with
       | Some b => inr (take (N.to_nat (j - i + 1)) (drop (N.to_nat i) b))
       | None => inl (NoSuchKey [Lit "no such key"])
       end, s)
  | HeadObject key =>
      (match ob !! key with
       | Some b => inr (Some (Z.of_nat (length b)))
       | None => inl (NoSuchKey [Lit "no such key"])
       end, s)
  | DeleteObject key => (inr (), MkMemory (delete key ob) up iss)
  | CreateMultipartUpload key =>
      let u := fresh (iss ∪ dom up) in
      (inr (Some u), MkMemory ob (<[u := (key, ∅)]> up) ({[u]} ∪ iss))
  | UploadPart key u n body =>
      match up !! u with
      | Some (k, ps) =>
          if bool_decide (1 ≤ n ≤ 10000)%Z then
            (inr (Some "etag"), MkMemory ob (<[u := (k, <[n := body]> ps)]> up) iss)
          else (inl [Lit "part number"], s)
      | None => (inl [Lit "no such upload"], s)
      end
  | CompleteMultipartUpload key u parts =>
      match up !! u with
      | Some (k, ps) =>
          match assemble ps parts.*1 with
          | Some b => (inr (), MkMemory (<[key := b]> ob) (delete u up) iss)
          | None => (inl [Lit "invalid part"], s)
          end
      | None => (inl [Lit "no such upload"], s)
      end
  | AbortMultipartUpload key u => (inr (), MkMemory ob (delete u up) iss)
  end.

#[export] Instance memory_s3 : S3Service := {|
  Bucket := Memory;
  s3_call c s r s' := mem_reply c s = (r, s');
  objects := mem_objects;
  uploads := mem_uploads;
  issued := mem_issued;
|}.

#[export] Instance memory_laws : S3Laws.
Proof.
  split; simpl.
  - intros [key body|key|key i j|key|key|key|key u n body|key u parts|key u] [ob up iss] r s'; simpl;
      repeat case_match; intros; simplify_eq/=; set_solver.
  - intros key body [ob up iss] r s' E; simplify_eq/=. auto.
  - intros key [ob up iss] r s' E; simpl in *. destruct (ob !! key) eqn:Ek; simplify_eq/=; naive_solver.
  - intros key i j [ob up iss] r s' E; simpl in *. destruct (ob !! key) eqn:Ek; simplify_eq/=; naive_solver.
  - intros key [ob up iss] r s' E; simpl in *. destruct (ob !! key) eqn:Ek; simplify_eq/=; naive_solver.
  - intros key [ob up iss] r s' E; simplify_eq/=. auto.
  - intros key [ob up iss] r s' E; simplify_eq/=. split; [done|].
    pose proof (is_fresh (iss ∪ dom up)) as Hf. apply not_elem_of_union in Hf as [H1 H2].
    split_and!; [done|set_solver|by apply not_elem_of_dom|done].
  - intros key u n body [ob up iss] r s' ps E Hu; simpl in *. rewrite Hu in E.
    case_bool_decide; simplify_eq/=; [|naive_solver]. auto.
  - intros key u parts [ob up iss] r s' ps E Hu; simpl in *. rewrite Hu in E.
    destruct (assemble ps parts.*1) as [b|] eqn:Ea; simplify_eq/=; naive_solver.
  - intros key u [ob up iss] r s' E; simplify_eq/=. auto.
Qed.

#[export] Instance memory_reliable : S3Reliable.
Proof.
  split; simpl.
  - intros c s. destruct (mem_reply c s) as [r s']. by eauto.
  - intros key body [ob up iss] r s' E; by simplify_eq/=.
  - intros key b [ob up iss] r s' E Hb; simpl in *. rewrite Hb in E. by simplify_eq/=.
  - intros key [ob up iss] r s' E; by simplify_eq/=.
  - intros key [ob up iss] r s' E; simplify_eq/=. by eauto.
  - intros key u n body [ob up iss] r s' ps E Hu Hn; simpl in *.
    rewrite Hu, bool_decide_eq_true_2 in E by done. simplify_eq/=. by eauto.
  - intros key u parts [ob up iss] r s' ps b E Hu Ha; simpl in *. rewrite Hu, Ha in E. by simplify_eq/=.
Qed.

(** A codec: the state as a number, one byte per binary digit. *)
#[export] Instance StagedUploadPart_eq_dec : EqDecision StagedUploadPart.
Proof. solve_decision. Defined.
#[export] Instance StagedUploadPart_countable : Countable StagedUploadPart.
Proof.
  apply (inj_countable' (λ p, (sp_number p, sp_key p, sp_size p)) (λ '(n, k, s), MkStagedUploadPart n k s)).
  by intros [].
Defined.
#[export] Instance StagedUploadState_eq_dec : EqDecision StagedUploadState.
Proof. solve_decision. Defined.
#[export] Instance StagedUploadState_countable : Countable StagedUploadState.
Proof.
  apply (inj_countable' (λ s, (su_parts s, su_next_part_number s, su_total_bytes s))
    (λ '(p, n, t), MkStagedUploadState p n t)). by intros [].
Defined.

Fixpoint bits_of (p : positive) : bytes :=
  match p with xH => [] | xO p' => Byte.x00 :: bits_of p' | xI p' => Byte.x01 :: bits_of p' end.
Fixpoint of_bits (b : bytes) : positive :=
  match b with [] => xH | x :: b' => (if Byte.eqb x Byte.x00 then xO else xI) (of_bits b') end.
Lemma of_bits_of p : of_bits (bits_of p) = p.
Proof. induction p as [p IH|p IH|]; simpl; by rewrite ?IH. Qed.

#[export] Instance bits_codec : UploadCodec := {|
  encode_state st := inr (bits_of (encode st));
  decode_state b := match decode (of_bits b) with Some st => inr st | None => inl [Lit "invalid"] end;
|}.
Lemma bits_encodes st : ∃ b, encode_state st = inr b.
Proof. by eexists. Qed.
#[export] Instance bits_codec_laws : UploadCodecLaws.
Proof. intros st b [= <-]. simpl. by rewrite of_bits_of, decode_encode. Qed.

(** * Refinement *)

Section refinement.
Context `{EX : Externals, UC : UploadCodec, S3 : S3Service, SL : !S3Laws, CL : !UploadCodecLaws}.

Definition represents (s : Bucket) (sid : string) (u : upload) : Prop :=
  match u with
  | NoUpload => objects s !! upload_state_key sid = None
  | Open chunks => staged s sid chunks
  | Lost => True
  end.

Definition fits_cmd (u : upload) (c : upload_cmd) : Prop :=
  match u, c with
  | Open chunks, CmdPush data => fits (chunks ++ [data])
  | _, CmdComplete dg => digest_wf dg
  | _, _ => True
  end.

(** The key of the blob a completion names. *)
Definition blob_key_of (c : upload_cmd) : option string :=
  match c with
  | CmdComplete dg => match s3_key dg with Ok key => Some key | _ => None end
  | _ => None
  end.

(** Where a command may write outside its staging area: the blob of the completion of
    an upload with that digest, and nowhere else. *)
Definition may_store (u : upload) (c : upload_cmd) (k : string) : Prop :=
  match u, c with
  | Open chunks, CmdComplete dg => matches chunks dg ∧ s3_key dg = Ok k
  | _, _ => False
  end.
(** A completion whose digest does not match. *)
Definition mismatched (u : upload) (c : upload_cmd) : Prop :=
  match u, c with Open chunks, CmdComplete dg => ¬ matches chunks dg | _, _ => False end.

Definition simulates (sid : string) (u : upload) (c : upload_cmd) (s : Bucket) (r : result ()) (s' : Bucket)
    : Prop :=
  ∃ (ok : bool) u' stored, upload_effect u c ok u' stored ∧ (ok = true ↔ r = Ok ()) ∧ represents s' sid u' ∧
    (∀ b key, stored = Some b → blob_key_of c = Some key → objects s' !! key = Some b) ∧
    (mismatched u c → objects s' = objects s) ∧
    ∀ k, ¬ staging_key sid k → ¬ may_store u c k → objects s' !! k = objects s !! k.

(** A command that found no upload. *)
Lemma refused sid c s e s' :
  represents s sid NoUpload → c ≠ CmdStart → objects s' = objects s →
  simulates sid NoUpload c s (Err e) s'.
Proof.
  intros Hn Hc E. exists false, NoUpload, None. split; [by apply eff_no_upload|]. split; [done|]. simpl in *.
  by rewrite E.
Qed.

Lemma start_refines sid u s r s' :
  represents s sid u → exec (start_upload sid) s r s' → simulates sid u CmdStart s r s'.
Proof using SL CL.
  intros Hu Hrun. pose proof Hrun as [Helse [Hnp Hok]]%start_upload_spec.
  destruct r as [[]|e|]; [|..|done].
  - exists true, (Open []), None. split; [constructor|]. split; [done|]. split; [by apply Hok|].
    split; [done|]. split; [by destruct u|]. intros k Hk _. by apply Helse.
  - assert (∃ u', (u' = u ∨ u' = Open []) ∧ represents s' sid u') as (u' & Hu' & Hr).
    { apply exec_write_state in Hrun as [(b & Hb & Ho & _)|[Ho _]].
      - exists (Open []). split; [by right|]. split; [|done]. exists b. by rewrite Ho, lookup_insert_eq.
      - exists u. split; [by left|]. destruct u; simpl in *; [by rewrite Ho|by eapply staged_same|done]. }
    exists false, u', None. split; [by apply eff_start_failed|]. split; [done|]. split; [done|]. split; [done|].
    split; [by destruct u|]. intros k Hk _. by apply Helse.
Qed.

Lemma push_refines sid u data s r s' :
  u ≠ Lost → represents s sid u → fits_cmd u (CmdPush data) → exec (run_cmd sid (CmdPush data)) s r s' →
  simulates sid u (CmdPush data) s r s'.
Proof using SL CL.
  intros Hl Hu Hfit (r0 & s0 & Hrun & Hr)%exec_bind. destruct u as [|chunks|]; [| |done].
  - apply exec_bind in Hrun as (r1 & s1 & [Hs1 Hr1]%exec_read_state & Hrest). simpl in Hu.
    destruct r1 as [[st|]|e|]; [|..|done].
    + destruct Hr1 as (b & Hb & _). congruence.
    + destruct Hrest as [-> ->]. destruct Hr as [-> ->]. by apply refused.
    + destruct Hrest as [-> ->]. destruct Hr as [-> ->]. by apply refused.
  - apply (push_chunk_spec sid chunks) in Hrun as (Helse & Hnp & Hst & Hok); [|done..].
    destruct r0 as [n|e|]; [|..|done]; destruct Hr as [-> ->].
    + exists true, (Open (append_chunk chunks data)), None. split; [constructor|]. split; [done|].
      split; [|split; [done|split; [done|]]]; [|intros k Hk _; by apply Helse]. by destruct (Hok n eq_refl) as [_ ?]; destruct data.
    + assert (∃ c', (c' = chunks ∨ c' = append_chunk chunks data) ∧ staged s0 sid c') as (c' & Hc' & Hs0).
      { destruct Hst as [?|[? ?]]; [by eauto|]. exists (chunks ++ [data]). split; [|done]. by destruct data; [|right]. }
      exists false, (Open c'), None. split; [by apply eff_push_failed|]. split; [done|]. split; [done|].
      split; [done|]. split; [done|]. intros k Hk _. by apply Helse.
Qed.

Lemma complete_refines sid u dg s r s' :
  u ≠ Lost → represents s sid u → digest_wf dg → exec (complete_upload sid dg) s r s' →
  simulates sid u (CmdComplete dg) s r s'.
Proof using SL CL.
  intros Hl Hu Hd Hrun. destruct u as [|chunks|]; [| |done].
  - apply exec_bind in Hrun as (r1 & s1 & [Hs1 Hr1]%exec_read_state & Hrest). simpl in Hu.
    destruct r1 as [[st|]|e|]; [|..|done].
    + destruct Hr1 as (b & Hb & _). congruence.
    + destruct Hrest as [-> ->]. by apply refused.
    + destruct Hrest as [-> ->]. by apply refused.
  - destruct (s3_key_roundtrip dg Hd) as (key & Hk & _).
    destruct (complete_upload_spec sid chunks dg key s r s') as (Hok & Hmis & Helse); [done..|].
    assert (∀ k, ¬ staging_key sid k → ¬ may_store (Open chunks) (CmdComplete dg) k → objects s' !! k = objects s !! k)
      as Helse'.
    { simpl. intros k Hn Hne. destruct (decide (matches chunks dg)) as [Hm|Hm]; [|by rewrite Hmis].
      apply Helse; [|done]. intros ->. by destruct Hne. }
    assert (r = Ok () ∨ r ≠ Ok ()) as [->|Hr] by (destruct r as [[]|e|]; auto).
    + destruct (Hok eq_refl) as (Hm & Hb & Hst & _). exists true, NoUpload, (Some (concat chunks)).
      split; [by constructor|]. split; [done|]. split; [done|]. split; [|by split].
      simpl. rewrite Hk. by intros b key' [= <-] [= <-].
    + destruct (decide (matches chunks dg)) as [Hm|Hm].
      * exists false, Lost, None. split; [by constructor|]. by split_and!.
      * exists false, (Open chunks), None. split; [by constructor|]. split; [done|].
        split; [eapply staged_same; [done|by apply Hmis]|]. by split_and!.
Qed.

(** Removing the objects of an upload. *)
Lemma removal_spec sid chunks s r s' :
  exec (_ ← delete_parts (imap (part_of sid) chunks); delete_object (upload_state_key sid)) s r s' →
  (r = Ok () → objects s' !! upload_state_key sid = None) ∧
  ∀ k, ¬ staging_key sid k → objects s' !! k = objects s !! k.
Proof using EX SL.
  intros Hrun. split.
  - intros ->. apply exec_bind_Ok in Hrun as ([] & s2 & _ & [[-> _]|[_ [e ?]]]%exec_delete); [|done].
    apply lookup_delete_eq.
  - intros k Hk.
    eapply (confined_objects (λ _ _, True) (staging_key sid) _ None); [| |exact Hrun|done..].
    + apply (safe_to_mono blob_content _ _ None (λ _ _, True)); [done|]. apply staging_ok; [|done].
      apply staging_bind; [apply delete_parts_staging|]. intros _. by split.
    + apply confined_bind; [apply delete_parts_confined|]. intros _. split; [apply state_key_own|done].
Qed.

Lemma cancel_refines sid u s r s' :
  u ≠ Lost → represents s sid u → exec (delete_upload sid) s r s' → simulates sid u CmdCancel s r s'.
Proof using EX SL CL.
  intros Hl Hu (r1 & s1 & [Hs1 Hr1]%exec_read_state & Hrest)%exec_bind.
  assert (∀ ok u', upload_effect u CmdCancel ok u' None → (ok = true ↔ r = Ok ()) → represents s' sid u' →
    (∀ k, ¬ staging_key sid k → objects s' !! k = objects s1 !! k) → simulates sid u CmdCancel s r s') as Hsim.
  { intros ok u' He Hok Hr Helse. exists ok, u', None. split_and!; [done..|by destruct u|]. intros k Hk _. rewrite <-Hs1. auto. }
  assert (r = Ok () ∨ r ≠ Ok ()) as Hr by (destruct r as [[]|e'|]; auto).
  destruct u as [|chunks|]; [| |done].
  - destruct r1 as [[st|]|e|]; [|..|done].
    + destruct Hr1 as (b & Hb & _). simpl in Hu. congruence.
    + destruct (removal_spec sid [] s1 r s') as [Hok Helse]; [exact Hrest|].
      destruct Hr as [->|Hr]; [by apply (Hsim true NoUpload); [constructor|..|apply Hok|]|].
      apply (Hsim false NoUpload); [by apply eff_no_upload|done| |done]. simpl in *.
      apply exec_delete in Hrest as [[-> _]|[-> _]]; [apply lookup_delete_eq|congruence].
    + destruct Hrest as [-> ->]. by apply refused.
  - destruct r1 as [[st|]|e|]; [|..|done].
    + destruct Hr1 as (b & Hb & Hd). rewrite (staged_decode _ _ _ _ Hu Hb) in Hd. injection Hd as <-.
      destruct (removal_spec sid chunks s1 r s') as [Hok Helse]; [exact Hrest|].
      destruct Hr as [->|Hr]; [by apply (Hsim true NoUpload); [constructor|..|apply Hok|]|].
      by apply (Hsim false Lost); [constructor|..].
    + destruct Hu as [(b & Hb & _) _]. congruence.
    + destruct Hrest as [-> ->]. by apply (Hsim false Lost); [constructor|..].
Qed.

(** C28: every run of an upload operation against the service (start, push of a
    chunk, completion against a digest, cancellation), from a bucket that represents an
    abstract upload that is not lost, is a step of that upload, whatever calls fail. A
    completion that succeeds stores exactly the concatenation of the pushed chunks
    under the digest's key and removes the upload; one whose content has another digest
    fails and changes no object at all; and no operation changes an object outside its
    own staging area but the completion of an upload that has the digest, at the
    digest's key. The upload stays below 2^31 chunks and
    2^64 bytes, and a completion's digest is well-formed. *)
Theorem upload_refinement sid u c s r s' :
  u ≠ Lost → represents s sid u → fits_cmd u c → exec (run_cmd sid c) s r s' → simulates sid u c s r s'.
Proof using EX SL CL.
  intros Hl Hu Hf Hrun. destruct c as [|data|dg|].
  - by apply start_refines.
  - by apply push_refines.
  - apply complete_refines; [done..| |done]. by destruct u.
  - by apply cancel_refines.
Qed.

(** C29: whatever blob operations run side by side, interleaved call by call and
    with calls failing at any point, an object stored under the key of a digest
    has exactly the content that digest names. *)
Theorem blob_integrity s ts s' ts' dg key b :
  consistent blob_content s → Forall blob_op ts → rtc (sys_step blob_op) (s, ts) (s', ts') →
  digest_wf dg → s3_key dg = Ok key → objects s' !! key = Some b →
  digest_to_string (digest_sha256 sha256_hex b) = digest_to_string dg.
Proof using SL.
  intros Hs Hts Hrun Hd Hk Hb. symmetry.
  eapply (interleaving_consistent blob_content blob_op s ts s' ts'); [|done| |done..].
  - apply blob_op_safe.
  - eapply Forall_impl; [done|]. apply blob_op_safe.
Qed.

(** ** Success *)

Section success.
Context `{SR : !S3Reliable}.
Context (encodes : ∀ st, ∃ b, encode_state st = inr b).

Lemma write_state_succeeds sid st s r s' : exec (write_upload_state sid st) s r s' → r = Ok ().
Proof using SR encodes.
  unfold write_upload_state. destruct (encodes st) as [b ->]. intros (r0 & s1 & Hc & -> & _).
  by rewrite (rel_put _ _ _ _ _ Hc).
Qed.

Lemma push_chunk_succeeds sid chunks data s r s' :
  staged s sid chunks → exec (push_chunk sid data) s r s' → ∃ n, r = Ok n.
Proof using SR encodes.
  intros [(b & Hb & Hd) _] (r0 & s1 & (r1 & s2 & Hc & Hr1) & Hrest)%exec_bind.
  rewrite (rel_get _ _ _ _ _ Hc Hb) in Hr1. simpl in Hr1. rewrite Hd in Hr1. destruct Hr1 as [-> ->].
  destruct data as [|x data]; [destruct Hrest as [-> _]; by eauto|].
  apply exec_bind in Hrest as (r2 & s3 & (r3 & s4 & Hp & -> & ->) & Hrest).
  rewrite (rel_put _ _ _ _ _ Hp) in Hrest. apply exec_bind in Hrest as (r4 & s5 & Hw & Hrest).
  apply write_state_succeeds in Hw as ->. destruct Hrest as [-> _]. by eauto.
Qed.

Lemma fits_le l l' : length l ≤ length l' → length (concat l) ≤ length (concat l') → fits l' → fits l.
Proof. unfold fits. lia. Qed.

Lemma push_chunks_succeeds sid new chunks s r s' :
  staged s sid chunks → fits (chunks ++ new) → exec (push_chunks sid new) s r s' →
  r = Ok () ∧ ∃ chunks', staged s' sid chunks' ∧ concat chunks' = concat (chunks ++ new).
Proof using SL CL SR encodes.
  revert chunks s. induction new as [|c new IH]; intros chunks s Hst Hfit.
  - intros [-> ->]. split; [done|]. exists chunks. by rewrite app_nil_r.
  - cbn [push_chunks]. intros (r0 & s1 & Hp & Hrest)%exec_bind.
    destruct (push_chunk_succeeds _ _ _ _ _ _ Hst Hp) as [n ->].
    assert (fits (chunks ++ [c])) as Hfit1.
    { eapply fits_le; [| |exact Hfit]; rewrite ?concat_app, !length_app; simpl; rewrite ?length_app; simpl; lia. }
    destruct (push_chunk_spec _ _ _ _ _ _ Hst Hfit1 Hp) as (_ & _ & _ & Hok).
    destruct (Hok n eq_refl) as [_ Hst1]. destruct c as [|x c].
    + apply (IH chunks) in Hrest as [-> (l & Hl & E)]; [|done|].
      * split; [done|]. exists l. split; [done|]. rewrite E, !concat_app. done.
      * eapply fits_le; [| |exact Hfit]; rewrite ?concat_app, !length_app; simpl; lia.
    + apply (IH (chunks ++ [x :: c])) in Hrest as [-> (l & Hl & E)]; [|done|by rewrite <-app_assoc].
      split; [done|]. exists l. split; [done|]. by rewrite E, <-app_assoc.
Qed.

Lemma session_ends_stored sid chunks key s :
  let dg := digest_sha256 sha256_hex (concat chunks) in
  fits chunks → sendable (length (concat chunks)) → digest_wf dg → s3_key dg = Ok key →
  (∃ r s', exec (upload_session sid chunks dg) s r s') ∧
  ∀ r s', exec (upload_session sid chunks dg) s r s' → r = Ok () ∧ objects s' !! key = Some (concat chunks).
Proof using EX SL CL SR encodes.
  intros dg Hfit Hsend Hd Hk. split; [apply exec_total|].
  intros r s' (r0 & s1 & Hstart & Hrest)%exec_bind.
  pose proof (write_state_succeeds _ _ _ _ _ Hstart) as ->.
  apply start_upload_spec in Hstart as (_ & _ & Hst). specialize (Hst eq_refl).
  apply exec_bind in Hrest as (r1 & s2 & Hp & Hrest).
  apply (push_chunks_succeeds _ _ []) in Hp as [-> (l & Hl & E)]; [|done..]. simpl in E.
  assert (r = Ok ()) as ->.
  { eapply (complete_upload_succeeds sid l dg); [done..| |by rewrite E|done]. by rewrite E. }
  split; [done|]. rewrite <-E.
  by destruct (complete_upload_spec sid l dg key s2 (Ok ()) s') as [(_ & ? & _) _].
Qed.

(** C30: on a service that fails no call, an upload of any content in any chunks
    (within the part limit of the service) runs to its end and succeeds, and then
    the object under the digest of the content holds the content. *)
Theorem upload_session_succeeds sid chunks key s :
  let dg := digest_sha256 sha256_hex (concat chunks) in
  fits chunks → sendable (length (concat chunks)) → digest_wf dg → s3_key dg = Ok key →
  (∃ r s', exec (upload_session sid chunks dg) s r s') ∧
  ∀ r s', exec (upload_session sid chunks dg) s r s' → r = Ok () ∧ objects s' !! key = Some (concat chunks).
Proof using EX SL CL SR encodes. exact (session_ends_stored sid chunks key s). Qed.
End success.
End refinement.

(** * On the service in memory *)

Fixpoint mem_run {A} (p : prog A) (s : Memory) : result A * Memory :=
  match p with
  | Ret r => (r, s)
  | Call c k => let '(r, s') := mem_reply c s in mem_run (k r) s'
  end.
Lemma mem_run_exec {A} (p : prog A) s : exec p s (mem_run p s).1 (mem_run p s).2.
Proof.
  revert s. induction p as [r|c k IH]; intros s; simpl; [done|].
  destruct (mem_reply c s) as [r s1] eqn:E. exists r, s1. split; [done|]. apply IH.
Qed.

(** Side by side, one program after the other. *)
Lemma mem_run_steps {A} (p : prog A) s ts :
  rtc (sys_step blob_op) (s, Thread p :: ts) ((mem_run p s).2, Thread (Ret (mem_run p s).1) :: ts).
Proof.
  revert s. induction p as [r|c k IH]; intros s; simpl; [done|].
  destruct (mem_reply c s) as [r s1] eqn:E. eapply rtc_l; [|apply IH]. exact (step_call blob_op s s1 [] ts A c k r E).
Qed.

Lemma mem_spawn {A} (p : prog A) s ts : blob_op (Thread p) →
  rtc (sys_step blob_op) (s, ts) ((mem_run p s).2, Thread (Ret (mem_run p s).1) :: ts).
Proof. intros Hp. exact (rtc_l _ _ _ _ (step_spawn blob_op s ts _ Hp) (mem_run_steps p s ts)). Qed.

Definition one_chunk : Memory := (mem_run (_ ← start_upload "s1"; push_chunk "s1" body) no_memory).2.
Definition content_digest : Digest := digest_sha256 sha256_hex body.
Definition content_key : string := "blobs/sha256/dd/" +:+ repeat_string 64 "d".

Lemma one_chunk_staged : staged one_chunk "s1" [body].
Proof.
  split.
  - eexists. split; [vm_compute; reflexivity|]. vm_compute. reflexivity.
  - intros [|i] c Hc; [injection Hc as <-; vm_compute; reflexivity|discriminate Hc].
Qed.
Lemma content_digest_wf : digest_wf content_digest.
Proof. by apply (bool_decide_eq_true_1 (digest_wf content_digest)); vm_compute. Qed.

Lemma upload_refinement_witness :
  simulates "s1" (Open [body]) (CmdComplete content_digest) one_chunk (Ok ())
    (mem_run (complete_upload "s1" content_digest) one_chunk).2.
Proof.
  apply upload_refinement; [discriminate|apply one_chunk_staged|apply content_digest_wf|].
  replace (Ok ()) with (mem_run (run_cmd "s1" (CmdComplete content_digest)) one_chunk).1
    by (vm_compute; reflexivity).
  apply mem_run_exec.
Defined.

Lemma blob_integrity_witness :
  digest_to_string (digest_sha256 sha256_hex body) = digest_to_string content_digest.
Proof.
  apply (blob_integrity (S3 := memory_s3) no_memory [Thread (start_upload "s1")]
    (mem_run (complete_upload "s1" content_digest) one_chunk).2
    (Thread (Ret (mem_run (complete_upload "s1" content_digest) one_chunk).1) ::
     Thread (Ret (mem_run (push_chunk "s1" body) (mem_run (start_upload "s1") no_memory).2).1) ::
     [Thread (Ret (mem_run (start_upload "s1") no_memory).1)]) content_digest content_key body).
  - intros key b Hb. discriminate Hb.
  - repeat constructor.
  - etrans; [apply mem_run_steps|]. etrans; [apply (mem_spawn (push_chunk "s1" body)), op_push|].
    exact (mem_spawn (complete_upload "s1" content_digest) one_chunk _ (op_complete _ _ content_digest_wf)).
  - apply content_digest_wf.
  - vm_compute. reflexivity.
  - vm_compute. reflexivity.
Defined.

Lemma upload_session_succeeds_witness :
  let chunks := [body; []; body] in
  let run := upload_session "s1" chunks (digest_sha256 sha256_hex (concat chunks)) in
  (∃ r s', exec run no_memory r s') ∧
  ∀ r s', exec run no_memory r s' → r = Ok () ∧ objects s' !! content_key = Some (concat chunks).
Proof.
  refine (upload_session_succeeds (S3 := memory_s3) bits_encodes "s1" [body; []; body] content_key no_memory _ _ _ _).
  - split; vm_compute; reflexivity.
  - vm_compute. discriminate.
  - apply content_digest_wf.
  - vm_compute. reflexivity.
Defined.

(** ** With faults *)

(** The same service, except that any call may fail without effect. *)
Definition fault (c : call) : resp c :=
  match c return resp c with
  | GetObject _ | GetObjectRange _ _ _ | HeadObject _ => inl (ReadFailed [Lit "service unavailable"])
  | _ => inl [Lit "service unavailable"]
  end.

Definition faulty_s3 : S3Service := {|
  Bucket := Memory;
  s3_call c s r s' := mem_reply c s = (r, s') ∨ r = fault c ∧ s' = s;
  objects := mem_objects;
  uploads := mem_uploads;
  issued := mem_issued;
|}.

Lemma faulty_laws : @S3Laws faulty_s3.
Proof.
  split; simpl.
  - intros c s r s' [H|[_ ->]]; [exact (law_issued (H := memory_s3) c s r s' H)|done].
  - intros key body s r s' [H|[-> ->]]; [exact (law_put (H := memory_s3) key body s r s' H)|]. simpl. naive_solver.
  - intros key s r s' [H|[-> ->]]; [exact (law_get (H := memory_s3) key s r s' H)|]. by simpl.
  - intros key i j s r s' [H|[-> ->]]; [exact (law_range (H := memory_s3) key i j s r s' H)|]. by simpl.
  - intros key s r s' [H|[-> ->]]; [exact (law_head (H := memory_s3) key s r s' H)|]. by simpl.
  - intros key s r s' [H|[-> ->]]; [exact (law_delete (H := memory_s3) key s r s' H)|]. simpl. naive_solver.
  - intros key s r s' [H|[-> ->]]; [exact (law_create (H := memory_s3) key s r s' H)|]. by simpl.
  - intros key u n body s r s' ps [H|[-> ->]] Hu;
      [exact (law_part (H := memory_s3) key u n body s r s' ps H Hu)|]. simpl. naive_solver.
  - intros key u parts s r s' ps [H|[-> ->]] Hu;
      [exact (law_complete (H := memory_s3) key u parts s r s' ps H Hu)|]. simpl. naive_solver.
  - intros key u s r s' [H|[-> ->]]; [exact (law_abort (H := memory_s3) key u s r s' H)|]. simpl. naive_solver.
Qed.

(** The run in which the calls marked in [plan] fail. *)
Fixpoint fault_run {A} (plan : list bool) (p : prog A) (s : Memory) : result A * Memory :=
  match p with
  | Ret r => (r, s)
  | Call c k =>
      match plan with
      | true :: plan' => fault_run plan' (k (fault c)) s
      | _ => let '(r, s') := mem_reply c s in fault_run (tail plan) (k r) s'
      end
  end.
Lemma fault_run_exec {A} plan (p : prog A) s :
  exec (S3 := faulty_s3) p s (fault_run plan p s).1 (fault_run plan p s).2.
Proof.
  revert plan s. induction p as [r|c k IH]; intros plan s; simpl; [done|].
  assert (exec (S3 := faulty_s3) (Call c k) s (let '(r, s') := mem_reply c s in fault_run (tail plan) (k r) s').1
    (let '(r, s') := mem_reply c s in fault_run (tail plan) (k r) s').2) as Hok.
  { destruct (mem_reply c s) as [r s1] eqn:E. exists r, s1. split; [by left|]. apply IH. }
  destruct plan as [|[] plan]; [exact Hok| |exact Hok].
  exists (fault c), s. split; [by right|]. apply IH.
Qed.
