(* ===== verification/MemBlobs.v ===== *)
(** The blob store the tests of the server run on ([InMemoryBlobStore] of
    crates/layerhouse-server/src/store/blob.rs), and how it compares with the store on
    the object service: both implement the abstract upload, except for a completion with
    the wrong digest. *)

From Stdlib Require Import Ascii.
From stdpp Require Import options.
From S2P Require Import Prelude Errors Digests Manifests StateMachine Samples.
From S2P Require Import S3Client Blobs Staging BlobStore.

(** [expected_digest] and [digest] index both maps by their text. *)
Record InMemoryBlobStore := MkInMemoryBlobStore {
  mb_blobs : gmap string bytes;
  mb_uploads : gmap string bytes;
  mb_redirect_enabled : bool;
}.
Definition InMemoryBlobStore_default : InMemoryBlobStore := MkInMemoryBlobStore ∅ ∅ false.
Definition with_redirect_enabled : InMemoryBlobStore := MkInMemoryBlobStore ∅ ∅ true.

Definition mb_find (digest : Digest) (s : InMemoryBlobStore) : result bytes :=
  ok_or (BlobUnknown [Disp (digest_to_string digest)]) (mb_blobs s !! digest_to_string digest).

Definition mb_stat (digest : Digest) (s : InMemoryBlobStore) : result N :=
  bytes ← mb_find digest s; Ok (N.of_nat (length bytes)).
Definition mb_get (digest : Digest) (s : InMemoryBlobStore) : result bytes := mb_find digest s.

(** [usize] has 64 bits. *)
Definition mb_get_range (digest : Digest) (start end_ : N) (s : InMemoryBlobStore) : result bytes :=
  bytes ← mb_find digest s;
  let len := N.of_nat (length bytes) in
  let end_ := N.min (N.min (end_ + 1) U64.max) len in
  Ok (if bool_decide (start < end_)%N && bool_decide (start < len)%N
      then take (N.to_nat (end_ - start)) (drop (N.to_nat start) bytes) else []).

Definition mb_start_upload (session_id : string) (s : InMemoryBlobStore) : result () * InMemoryBlobStore :=
  (Ok (), MkInMemoryBlobStore (mb_blobs s) (<[session_id := []]> (mb_uploads s)) (mb_redirect_enabled s)).

Definition mb_push_chunk (session_id : string) (data : bytes) (s : InMemoryBlobStore)
    : result N * InMemoryBlobStore :=
  match mb_uploads s !! session_id with
  | None => (Err (BlobUploadUnknown [Disp session_id]), s)
  | Some upload =>
      let upload := upload ++ data in
      (Ok (N.of_nat (length upload)),
       MkInMemoryBlobStore (mb_blobs s) (<[session_id := upload]> (mb_uploads s)) (mb_redirect_enabled s))
  end.

Definition mb_delete_upload (session_id : string) (s : InMemoryBlobStore) : result () * InMemoryBlobStore :=
  (Ok (), MkInMemoryBlobStore (mb_blobs s) (delete session_id (mb_uploads s)) (mb_redirect_enabled s)).

Definition mb_presigned_url (digest : Digest) : result string :=
  Ok ("memory://" +:+ digest_to_string digest).

Section store.
Context `{EX : Externals}.

Definition mb_mismatch (expected actual : Digest) : LayerhouseError :=
  DigestInvalid [Lit "digest mismatch: expected "; Disp (digest_to_string expected); Lit ", got ";
                 Disp (digest_to_string actual)].

(** The upload is taken out before its digest is compared. *)
Definition mb_complete_upload (session_id : string) (expected_digest : Digest) (s : InMemoryBlobStore)
    : result () * InMemoryBlobStore :=
  match mb_uploads s !! session_id with
  | None => (Err (BlobUploadUnknown [Disp session_id]), s)
  | Some bytes =>
      let uploads := delete session_id (mb_uploads s) in
      let actual := digest_sha256 sha256_hex bytes in
      if negb (bool_decide (actual = expected_digest)) then
        (Err (mb_mismatch expected_digest actual), MkInMemoryBlobStore (mb_blobs s) uploads (mb_redirect_enabled s))
      else
        (Ok (), MkInMemoryBlobStore (<[digest_to_string expected_digest := bytes]> (mb_blobs s)) uploads
                  (mb_redirect_enabled s))
  end.

(** The loop over the stream: what was gathered, or the first error. *)
Fixpoint mb_gather (data : bytes) (stream : list (message + bytes)) : result bytes :=
  match stream with
  | [] => Ok data
  | inl m :: _ => Err (S3 m)
  | inr chunk :: stream => mb_gather (data ++ chunk) stream
  end.
Definition mb_put_streaming (digest : Digest) (stream : list (message + bytes)) (s : InMemoryBlobStore)
    : result () * InMemoryBlobStore :=
  match mb_gather [] stream with
  | Ok data =>
      let actual := digest_sha256 sha256_hex data in
      if negb (bool_decide (actual = digest)) then (Err (mb_mismatch digest actual), s)
      else (Ok (), MkInMemoryBlobStore (<[digest_to_string digest := data]> (mb_blobs s)) (mb_uploads s)
                     (mb_redirect_enabled s))
  | Err e => (Err e, s)
  | Panic => (Panic, s)
  end.

(** * Ranges *)

(** A range request gives the bytes of the blob from the first to the last position, as far
    as there are any. *)
Lemma mb_get_range_slice digest start end_ s b :
  mb_blobs s !! digest_to_string digest = Some b → (end_ + 1 < 2 ^ 64)%N →
  mb_get_range digest start end_ s = Ok (take (N.to_nat (end_ + 1 - start)) (drop (N.to_nat start) b)).
Proof.
  intros Hb He. unfold mb_get_range, mb_find. rewrite Hb. simpl. f_equal.
  rewrite (N.min_l (end_ + 1)) by (unfold U64.max, U64.modulus; lia).
  case_bool_decide as H1; simpl.
  - rewrite bool_decide_true by lia. destruct (decide (end_ + 1 ≤ N.of_nat (length b))%N) as [H|H].
    + by rewrite N.min_l.
    + rewrite N.min_r by lia. rewrite !take_ge; [done| |]; rewrite length_drop; lia.
  - destruct (decide (end_ + 1 ≤ start)%N) as [H|H].
    + by replace (end_ + 1 - start)%N with 0%N by lia.
    + rewrite drop_ge by lia. by rewrite take_nil.
Qed.

(** * Uploads *)

Definition mb_run_cmd (sid : string) (c : upload_cmd) (s : InMemoryBlobStore) : result () * InMemoryBlobStore :=
  match c with
  | CmdStart => mb_start_upload sid s
  | CmdPush data => let '(r, s') := mb_push_chunk sid data s in (_ ← r; Ok (), s')
  | CmdComplete dg => mb_complete_upload sid dg s
  | CmdCancel => mb_delete_upload sid s
  end.

(** The upload of a session in the maps. *)
Definition mb_represents (s : InMemoryBlobStore) (sid : string) (u : upload) : Prop :=
  match u with
  | NoUpload => mb_uploads s !! sid = None
  | Open chunks => mb_uploads s !! sid = Some (concat chunks)
  | Lost => False
  end.

Definition mb_stored (c : upload_cmd) (stored : option bytes) (s : InMemoryBlobStore) : gmap string bytes :=
  match c, stored with
  | CmdComplete dg, Some b => <[digest_to_string dg := b]> (mb_blobs s)
  | _, _ => mb_blobs s
  end.

Lemma concat_append_chunk (chunks : list bytes) data :
  concat (append_chunk chunks data) = concat chunks ++ data.
Proof. destruct data; simpl; [by rewrite app_nil_r|]. by rewrite concat_app; simpl; rewrite app_nil_r. Qed.

Lemma sha256_matches chunks dg :
  (∀ b, digest_wf (digest_sha256 sha256_hex b)) → digest_wf dg →
  (digest_sha256 sha256_hex (concat chunks) = dg ↔ matches chunks dg).
Proof. intros Hh Hd. split; [by intros <-|]. intros H. by apply digest_to_string_inj. Qed.

(** Every command of an upload has on the store of the tests an effect that the abstract
    upload allows, and none on other sessions; the one exception is a completion whose digest
    is wrong. *)
Theorem memory_upload_refines sid u c s
    (Hh : ∀ b, digest_wf (digest_sha256 sha256_hex b)) (Hu : mb_represents s sid u)
    (Hd : ∀ dg, c = CmdComplete dg → digest_wf dg)
    (Hm : ∀ dg chunks, c = CmdComplete dg → u = Open chunks → matches chunks dg) :
  let '(r, s') := mb_run_cmd sid c s in
  ∃ u' stored, upload_effect u c (is_ok r) u' stored ∧ mb_represents s' sid u' ∧
    mb_blobs s' = mb_stored c stored s ∧ ∀ sid', sid' ≠ sid → mb_uploads s' !! sid' = mb_uploads s !! sid'.
Proof.
  destruct c as [|data|dg|]; simpl.
  - exists (Open []), None. split_and!; [constructor|by apply lookup_insert_eq|done|].
    intros sid' Hn. by apply lookup_insert_ne.
  - unfold mb_push_chunk. destruct u as [|chunks|]; simpl in Hu; [| |done]; rewrite Hu; simpl.
    + exists NoUpload, None. split_and!; [by constructor|done..].
    + exists (Open (append_chunk chunks data)), None. split_and!; [constructor| |done|].
      * simpl. by rewrite lookup_insert_eq, concat_append_chunk.
      * intros sid' Hn. by apply lookup_insert_ne.
  - unfold mb_complete_upload. destruct u as [|chunks|]; simpl in Hu; [| |done]; rewrite Hu; simpl.
    + exists NoUpload, None. split_and!; [by constructor|done..].
    + assert (matches chunks dg) as Hc by by apply Hm. rewrite bool_decide_true by by apply sha256_matches; auto.
      simpl. exists NoUpload, (Some (concat chunks)). split_and!; [by constructor|by apply lookup_delete_eq|done|].
      intros sid' Hn. by apply lookup_delete_ne.
  - exists NoUpload, None. split_and!; [|by apply lookup_delete_eq|done|].
    + constructor. by destruct u.
    + intros sid' Hn. by apply lookup_delete_ne.
Qed.

(** A completion whose digest is wrong fails on both stores, but the store of the tests
    forgets the upload and the abstract one keeps it. *)
Theorem wrong_digest_forgets sid chunks dg s
    (Hu : mb_represents s sid (Open chunks)) (Hd : ¬ matches chunks dg) :
  is_ok (mb_complete_upload sid dg s).1 = false ∧
  mb_represents (mb_complete_upload sid dg s).2 sid NoUpload ∧
  ∀ ok u' stored, upload_effect (Open chunks) (CmdComplete dg) ok u' stored → u' = Open chunks.
Proof.
  unfold mb_complete_upload. simpl in Hu. rewrite Hu. rewrite bool_decide_false by by intros <-.
  simpl. split_and!; [done|by apply lookup_delete_eq|]. intros ok u' stored H. by inversion H.
Qed.

(** * Integrity and sessions *)

(** Every blob is under the digest of its content. *)
Definition mb_consistent (s : InMemoryBlobStore) : Prop :=
  map_Forall (λ key b, key = digest_to_string (digest_sha256 sha256_hex b)) (mb_blobs s).

Inductive mb_step (s : InMemoryBlobStore) : InMemoryBlobStore → Prop :=
  | mb_step_cmd sid c : mb_step s (mb_run_cmd sid c s).2
  | mb_step_stream dg stream : mb_step s (mb_put_streaming dg stream s).2.

Theorem memory_blob_integrity s s' (Hs : mb_consistent s) (Hrun : rtc mb_step s s') : mb_consistent s'.
Proof.
  revert Hs. induction Hrun as [s|s s1 s' Hstep _ IH]; [done|]. intros Hs. apply IH. clear IH.
  unfold mb_consistent in *. destruct Hstep as [sid [|data|dg|]|dg stream]; simpl; [done| | |done|].
  - unfold mb_push_chunk. by destruct (mb_uploads s !! sid).
  - unfold mb_complete_upload. destruct (mb_uploads s !! sid) as [b|]; [|done].
    case_bool_decide as E; simpl; [|done]. apply map_Forall_insert_2; [|done]. by rewrite E.
  - unfold mb_put_streaming. destruct (mb_gather [] stream) as [b| |]; [|done..].
    case_bool_decide as E; simpl; [|done]. apply map_Forall_insert_2; [|done]. by rewrite E.
Qed.

Fixpoint mb_push_chunks (sid : string) (chunks : list bytes) (s : InMemoryBlobStore)
    : result () * InMemoryBlobStore :=
  match chunks with
  | [] => (Ok (), s)
  | c :: chunks => match mb_push_chunk sid c s with
                   | (Ok _, s') => mb_push_chunks sid chunks s'
                   | (Err e, s') => (Err e, s')
                   | (Panic, s') => (Panic, s')
                   end
  end.
Definition mb_upload_session (sid : string) (chunks : list bytes) (dg : Digest) (s : InMemoryBlobStore)
    : result () * InMemoryBlobStore :=
  match mb_push_chunks sid chunks (mb_start_upload sid s).2 with
  | (Ok _, s') => mb_complete_upload sid dg s'
  | (r, s') => (r, s')
  end.

Lemma mb_push_chunks_all sid chunks s old : mb_uploads s !! sid = Some old →
  ∃ s', mb_push_chunks sid chunks s = (Ok (), s') ∧ mb_uploads s' !! sid = Some (old ++ concat chunks).
Proof.
  revert s old. induction chunks as [|c chunks IH]; intros s old Hs; simpl.
  { exists s. by rewrite app_nil_r. }
  unfold mb_push_chunk. rewrite Hs. rewrite app_assoc. apply IH. simpl. apply lookup_insert_eq.
Qed.
End store.

Section same_blob.
Context `{EX : Externals, UC : UploadCodec, S3 : S3Service, SL : !S3Laws, CL : !UploadCodecLaws, SR : !S3Reliable}.
Context (encodes : ∀ st, ∃ b, encode_state st = inr b).

(** The whole upload of a blob, in whatever chunks, succeeds on both stores, and they then
    have the same content under its digest. *)
Theorem sessions_store_same sid chunks key m s
    (Hfit : fits chunks) (Hsend : sendable (length (concat chunks)))
    (Hd : digest_wf (digest_sha256 sha256_hex (concat chunks)))
    (Hk : s3_key (digest_sha256 sha256_hex (concat chunks)) = Ok key) :
  let dg := digest_sha256 sha256_hex (concat chunks) in
  let '(r, m') := mb_upload_session sid chunks dg m in
  r = Ok () ∧
  (∃ r s', exec (upload_session sid chunks dg) s r s') ∧
  ∀ r s', exec (upload_session sid chunks dg) s r s' →
    r = Ok () ∧ ∃ b, mb_get dg m' = Ok b ∧ objects s' !! key = Some b.
Proof using EX SL CL SR encodes.
  intros dg. unfold mb_upload_session.
  destruct (mb_push_chunks_all sid chunks (mb_start_upload sid m).2 []) as (m1 & -> & Hm);
    [apply lookup_insert_eq|]. unfold mb_complete_upload. rewrite Hm. simpl.
  rewrite bool_decide_true by done. simpl.
  destruct (session_ends_stored encodes sid chunks key s Hfit Hsend Hd Hk) as [Hex Hall].
  split_and!; [done..|]. intros r s' Hrun. destruct (Hall r s' Hrun) as [-> Ho].
  split; [done|]. exists (concat chunks). split; [|done]. unfold mb_get, mb_find. simpl.
  by rewrite lookup_insert_eq.
Qed.
End same_blob.
