(* ===== verification/Uploads.v ===== *)
(** Upload sessions (crates/layerhouse-server/src/store/upload.rs) and the upload
    routes (routes/uploads.rs): a session ties an upload of the blob store to the
    repository it was started for and records how many bytes were received.

    The handlers are programs over the object store; a commit to the replicated
    store is a parameter, as in [Router]. *)

From Stdlib Require Import Ascii.
From stdpp Require Import countable options.
From S2P Require Import Prelude Errors Digests Manifests Permissions Principals Handles.
From S2P Require Import SyncRuns Types StateMachine Samples Namespaces Authorization Decisions Middleware Router.
From S2P Require Import S3Client Blobs Staging BlobStore.

(** * The tracker *)

Record UploadSession := MkUploadSession { us_repo : string; us_offset : N }.
Definition belongs_to (session : UploadSession) (repo : string) : bool := bool_decide (us_repo session = repo).

(** [serde_json]'s codec for sessions. *)
Class SessionCodec := {
  encode_session : UploadSession → message + bytes;
  decode_session : bytes → message + UploadSession;
}.
Class SessionCodecLaws `{SessionCodec} :=
  session_codec x b : encode_session x = inr b → decode_session b = inr x.

(** ** In memory *)

Module MemoryTracker.
Abbreviation sessions := (gmap string UploadSession).
Definition create (m : sessions) (session_id repo : string) : sessions * UploadSession :=
  let session := MkUploadSession repo 0 in (<[session_id := session]> m, session).
Definition get (m : sessions) (session_id : string) : option UploadSession := m !! session_id.
Definition update_offset (m : sessions) (session_id : string) (offset : N) : sessions :=
  alter (λ session, MkUploadSession (us_repo session) offset) session_id m.
Definition remove (m : sessions) (session_id : string) : sessions := delete session_id m.
End MemoryTracker.

(** ** In object storage *)

Module S3Tracker.
Section tracker.
Context `{SC : SessionCodec}.

Definition key (session_id : string) : string := "uploads/" +:+ session_id +:+ "/session.json".

Definition write (session_id : string) (session : UploadSession) : prog () :=
  match encode_session session with
  | inl m => fail (S3 (Lit "encode upload session: " :: m))
  | inr b => put_object (key session_id) b
  end.
Definition read (session_id : string) : prog (option UploadSession) :=
  Call (GetObject (key session_id)) (λ r,
    match r with
    | inl (NoSuchKey _) => done None
    | inl (ReadFailed m) => fail (S3 m)
    | inr b =>
        match decode_session b with
        | inl m => fail (S3 (Lit "decode upload session: " :: m))
        | inr session => done (Some session)
        end
    end).

Definition create (session_id repo : string) : prog UploadSession :=
  let session := MkUploadSession repo 0 in
  _ ← write session_id session; done session.
Definition get (session_id : string) : prog (option UploadSession) := read session_id.
Definition update_offset (session_id : string) (offset : N) : prog () :=
  session ← read session_id;
  match session with
  | Some session => write session_id (MkUploadSession (us_repo session) offset)
  | None => done ()
  end.
Definition remove (session_id : string) : prog () := delete_object (key session_id).
End tracker.
End S3Tracker.

(** * The routes *)

(** [axum::body::to_bytes]: the body stream failed, or is too long. *)
Definition to_bytes (body : message + bytes) (limit : N) : message + bytes :=
  match body with
  | inl m => inl m
  | inr b => if bool_decide (limit < N.of_nat (length b))%N then inl [Lit "length limit exceeded"] else inr b
  end.
Definition body_limit : N := 1024 * 1024 * 1024.

Record Reply := MkReply { rp_status : N; rp_headers : list (string * string) }.

Definition parse_content_range_start (range : string) : option N :=
  let range := default range (Str.strip_prefix "bytes " range) in
  '(start, _) ← Str.split_once "-" range;
  Str.parse_u64 start.

Section routes.
Context `{SJ : SerdeJson, OR : Openraft, EX : Externals, CE : !Cedar, AU : !Authentication}.
Context `{UC : UploadCodec, SC : SessionCodec}.

(** What a handler finds in its request and its environment: the text of the
    query and of the [content-range] header, the body, the attached identity and
    access, the server's settings, a new UUID, which strings are header values,
    the states read by the permission check of a mount, and what becomes of the
    two writes. *)
Record UploadContext := MkUploadContext {
  ux_query : option string;
  ux_content_range : option string;
  ux_body : message + bytes;
  ux_identity : option AuthIdentity;
  ux_access : option AuthorizedRepositoryAccess;
  ux_auth : option AuthServiceConfig;
  ux_uuid : string;
  ux_header_ok : string → bool;
  ux_mount_reads : Reads;
  ux_local : StateMachineData;
  ux_mount_commit : Commit;
  ux_clear_commit : Commit;
}.
Implicit Types ux : UploadContext.

(** [(status, headers).into_response()]: an invalid header value gives status 500. *)
Definition reply ux (status : N) (headers : list (string * string)) : Reply :=
  if forallb (ux_header_ok ux) headers.*2 then MkReply status headers else MkReply 500 [].
Definition respond ux (status : N) (headers : list (string * string)) : prog Reply :=
  done (reply ux status headers).

Definition read_body ux : prog bytes :=
  Ret (match to_bytes (ux_body ux) body_limit with
       | inl m => Err (BlobUploadInvalid m)
       | inr b => Ok b
       end).

Definition unknown_upload (session_id : string) : LayerhouseError := BlobUploadUnknown [Disp session_id].

Definition upload_session (name session_id : string) : prog UploadSession :=
  session ← S3Tracker.get session_id;
  match session with
  | None => fail (unknown_upload session_id)
  | Some session => if negb (belongs_to session name) then fail (unknown_upload session_id) else done session
  end.

Definition upload_location (name session_id : string) : string :=
  "/v2/" +:+ name +:+ "/blobs/uploads/" +:+ session_id.
Definition range_to (offset : N) : string := "0-" +:+ Str.of_u64 (U64.saturating_sub offset 1).
Definition session_headers (name session_id range : string) : list (string * string) :=
  [("Location", upload_location name session_id); ("Docker-Upload-UUID", session_id); ("Range", range)].
Definition blob_headers (name : string) (digest : Digest) : list (string * string) :=
  [("Location", "/v2/" +:+ name +:+ "/blobs/" +:+ digest_to_string digest);
   ("Docker-Content-Digest", digest_to_string digest)].

Definition start_upload_session ux (name : string) : prog Reply :=
  let session_id := ux_uuid ux in
  _ ← start_upload session_id;
  _ ← S3Tracker.create session_id name;
  respond ux 202 (session_headers name session_id "0-0").

(** [complete_upload(..).await.map_err(|e| DigestInvalid(e.to_string()))] and the
    removal of a pending delete request. *)
Definition complete_and_clear ux (session_id : string) (digest : Digest) : prog () :=
  _ ← map_err (λ e, DigestInvalid (error_to_string e)) (complete_upload session_id digest);
  Ret (clear_blob_delete_request (ux_clear_commit ux) digest).

Definition push_if_any (session_id : string) (body : bytes) : prog () :=
  match body with [] => done () | _ => _ ← push_chunk session_id body; done () end.

Definition checked_digest (s : string) : result Digest :=
  ok_or (DigestInvalid [Disp s]) (from_str_checked s).

(** The three answers to a mount request once the blob is known to exist: the
    permission on the source repository decides, if authentication is on. *)
Definition may_mount ux (from_repo : string) : result bool :=
  match ux_auth ux with
  | None => Ok true
  | Some auth =>
      match ux_identity ux with
      | None => Ok false
      | Some who =>
          match check_permission (as_policy_sets auth) who from_repo Pull (ux_mount_reads ux) with
          | Ok _ => Ok true
          | Err (Denied _) => Ok false
          | Err e => Err e
          | Panic => Panic
          end
      end
  end.
Definition mount ux (name from_repo : string) (digest : Digest) : result () :=
  if bool_decide (is_Some (ux_auth ux)) then
    mount_blob_with_expected_namespace (ux_mount_commit ux) from_repo name digest
      (ux_access ux ≫= aa_expected_namespace)
  else mount_blob (ux_mount_commit ux) (ux_local ux) from_repo name digest.

Definition start_upload_handler ux (name : string) : prog Reply :=
  let query := query_params (ux_query ux) in
  match query !! "digest" with
  | Some digest_str =>
      digest ← Ret (checked_digest digest_str);
      body ← read_body ux;
      let session_id := ux_uuid ux in
      _ ← start_upload session_id;
      _ ← push_if_any session_id body;
      _ ← complete_and_clear ux session_id digest;
      respond ux 201 (blob_headers name digest)
  | None =>
      match query !! "mount", query !! "from" with
      | Some mount_digest, Some from_repo =>
          digest ← Ret (checked_digest mount_digest);
          pbind (stat digest) (λ found,
            if is_ok found then
              can_mount ← Ret (may_mount ux from_repo);
              if negb can_mount then start_upload_session ux name
              else
                _ ← Ret (mount ux name from_repo digest);
                _ ← Ret (clear_blob_delete_request (ux_clear_commit ux) digest);
                respond ux 201 (blob_headers name digest)
            else start_upload_session ux name)
      | _, _ => start_upload_session ux name
      end
  end.

(** [dispatch_start], with the number of free permits of the upload semaphore;
    the permit is held until the handler returns. *)
Definition dispatch_start ux (permits : nat) (method : Method) (name : string) : prog Reply :=
  if negb (bool_decide (method = POST)) then fail (Unsupported [Lit "method not allowed"])
  else match permits with
  | 0 => fail (TooManyRequests [Lit "upload limit reached"])
  | S _ => start_upload_handler ux name
  end.

(** A [content-range] that starts elsewhere than at the recorded offset. *)
Definition range_mismatch ux (session : UploadSession) : bool :=
  match range ← ux_content_range ux; parse_content_range_start range with
  | Some start => negb (bool_decide (start = us_offset session))
  | None => false
  end.

Definition patch_upload ux (name session_id : string) : prog Reply :=
  session ← upload_session name session_id;
  if range_mismatch ux session then
    respond ux 416 (session_headers name session_id (range_to (us_offset session)))
  else
    body ← read_body ux;
    new_offset ← push_chunk session_id body;
    _ ← S3Tracker.update_offset session_id new_offset;
    respond ux 202 (session_headers name session_id (range_to new_offset)).

Definition complete_upload_handler ux (name session_id : string) : prog Reply :=
  _ ← upload_session name session_id;
  digest_str ← Ret (ok_or (DigestInvalid [Lit "missing digest query param"])
                      (query_params (ux_query ux) !! "digest"));
  digest ← Ret (checked_digest digest_str);
  body ← read_body ux;
  _ ← push_if_any session_id body;
  _ ← complete_and_clear ux session_id digest;
  _ ← S3Tracker.remove session_id;
  respond ux 201 (blob_headers name digest).

Definition get_upload_status ux (name session_id : string) : prog Reply :=
  session ← upload_session name session_id;
  respond ux 204 (session_headers name session_id (range_to (us_offset session))).

Definition cancel_upload (name session_id : string) : prog Reply :=
  _ ← upload_session name session_id;
  _ ← delete_upload session_id;
  _ ← S3Tracker.remove session_id;
  done (MkReply 204 []).

Definition dispatch_session ux (method : Method) (name session_id : string) : prog Reply :=
  match method with
  | GET => get_upload_status ux name session_id
  | PATCH => patch_upload ux name session_id
  | PUT => complete_upload_handler ux name session_id
  | DELETE => cancel_upload name session_id
  | _ => fail (Unsupported [Lit "method not allowed"])
  end.
End routes.

(** * Sessions in the bucket *)

Section protocol.
Context `{SJ : SerdeJson, OR : Openraft, EX : Externals, CE : !Cedar, AU : !Authentication}.
Context `{UC : UploadCodec, SC : SessionCodec, SV : S3Service, SL : !S3Laws}.
Context `{CL : !UploadCodecLaws, SCL : !SessionCodecLaws}.
Implicit Types ux : UploadContext.

Definition tracked (s : Bucket) (sid : string) (x : UploadSession) : Prop :=
  ∃ b, objects s !! S3Tracker.key sid = Some b ∧ decode_session b = inr x.

(** A session of the repository [name] that received [chunks], and knows it. *)
Definition session_at (s : Bucket) (sid name : string) (chunks : list bytes) : Prop :=
  staged s sid chunks ∧ tracked s sid (MkUploadSession name (N.of_nat (length (concat chunks)))).
Definition no_session (s : Bucket) (sid : string) : Prop :=
  objects s !! S3Tracker.key sid = None ∧ objects s !! upload_state_key sid = None.

Lemma session_key_not_staging sid : ¬ staging_key sid (S3Tracker.key sid).
Proof.
  unfold staging_key, S3Tracker.key, upload_state_key, upload_part_key.
  intros [E|[n E]]; by do 2 apply app_inv_head_str in E.
Qed.

Lemma tracked_same s s' sid x :
  objects s' !! S3Tracker.key sid = objects s !! S3Tracker.key sid → tracked s sid x → tracked s' sid x.
Proof. intros E (b & Hb & Hd). exists b. by rewrite E. Qed.

Lemma tracked_elsewhere s s' sid x : same_elsewhere sid s s' → tracked s sid x → tracked s' sid x.
Proof. intros H. apply tracked_same, H, session_key_not_staging. Qed.

Lemma tracked_inj s sid x y : tracked s sid x → tracked s sid y → x = y.
Proof. intros (b & Hb & Hd) (b' & Hb' & Hd'). congruence. Qed.

(** Writing the session leaves the staged upload alone. *)
Lemma staged_session_write s s' sid chunks :
  (∀ k, k ≠ S3Tracker.key sid → objects s' !! k = objects s !! k) → staged s sid chunks → staged s' sid chunks.
Proof.
  intros H Hst. eapply staged_frame; [exact Hst|apply H|intros i _; apply H];
    intros E; apply (session_key_not_staging sid); rewrite <-E; [apply state_key_own|apply part_key_own].
Qed.

Lemma exec_session_read sid s r s' :
  exec (S3Tracker.read sid) s r s' → objects s' = objects s ∧
  match r with
  | Ok None => objects s !! S3Tracker.key sid = None
  | Ok (Some x) => tracked s sid x
  | Err e => ∃ m, e = S3 m
  | Panic => False
  end.
Proof using SL.
  intros (r0 & s1 & Hc & Hr). apply law_get in Hc as (_ & Ho & Hb & Hn). simpl in r0.
  destruct r0 as [[m|m]|b]; simpl in Hr.
  - destruct Hr as [-> ->]. split; [done|]. by eapply Hn.
  - destruct Hr as [-> ->]. by eauto.
  - destruct (decode_session b) as [m|x] eqn:Ed; destruct Hr as [-> ->]; [by eauto|].
    split; [done|]. exists b. split; [by apply Hb|done].
Qed.

Lemma exec_session_write sid x s r s' :
  exec (S3Tracker.write sid x) s r s' →
  (∀ k, k ≠ S3Tracker.key sid → objects s' !! k = objects s !! k) ∧
  ((tracked s' sid x ∧ (r = Ok () ∨ ∃ e, r = Err e)) ∨ (objects s' = objects s ∧ ∃ e, r = Err e)).
Proof using SL SCL.
  unfold S3Tracker.write. destruct (encode_session x) as [m|b] eqn:E.
  - intros [-> ->]. split; [done|]. right. by eauto.
  - intros [[Ho Hr]|[Ho Hr]]%exec_put.
    + split; [intros k Hk; rewrite Ho; by apply lookup_insert_ne|]. left. split; [|done].
      exists b. rewrite Ho, lookup_insert_eq. split; [done|]. by apply SCL.
    + split; [by rewrite Ho|]. by right.
Qed.

(** Every session route first looks the session up. *)
Lemma exec_upload_session name sid s r s' :
  exec (upload_session name sid) s r s' → objects s' = objects s ∧
  match r with
  | Ok x => tracked s sid x ∧ us_repo x = name
  | Err e => e = unknown_upload sid ∨ ∃ m, e = S3 m
  | Panic => False
  end.
Proof using SL.
  intros (r0 & s1 & [Ho Hr0]%exec_session_read & Hrest)%exec_bind.
  destruct r0 as [[x|]|e|]; [|..|done]; [|destruct Hrest as [-> ->]; simpl; by auto..].
  unfold belongs_to in Hrest. case_bool_decide; destruct Hrest as [-> ->]; simpl; by auto.
Qed.

Lemma upload_session_at name sid chunks s r s' :
  session_at s sid name chunks → exec (upload_session name sid) s r s' →
  objects s' = objects s ∧
  ((r = Ok (MkUploadSession name (N.of_nat (length (concat chunks)))) ∧ session_at s' sid name chunks) ∨
   ∃ m, r = Err (S3 m)).
Proof using SL.
  intros [Hst Ht] (r0 & s1 & [Ho Hr0]%exec_session_read & Hrest)%exec_bind.
  assert (session_at s1 sid name chunks) as Hs1.
  { split; [by eapply staged_same|]. eapply tracked_same; [by rewrite Ho|done]. }
  destruct r0 as [[x|]|e|]; [|..|done].
  - rewrite <-(tracked_inj _ _ _ _ Ht Hr0) in Hrest. unfold belongs_to in Hrest. simpl in Hrest. rewrite bool_decide_eq_true_2 in Hrest by done.
    destruct Hrest as [-> ->]. auto.
  - destruct Ht as (b & Hb & _). congruence.
  - destruct Hr0 as [m ->]. destruct Hrest as [-> ->]. by eauto.
Qed.

Lemma read_body_Ok ux s data s' :
  exec (read_body ux) s (Ok data) s' → s' = s ∧ ux_body ux = inr data.
Proof.
  intros [E ->]. split; [done|]. revert E. unfold to_bytes.
  destruct (ux_body ux) as [m|b]; [done|]. case_bool_decide; [done|]. by intros [= ->].
Qed.

Lemma push_appends sid chunks data s n s' :
  staged s sid chunks → fits (chunks ++ [data]) → exec (push_chunk sid data) s (Ok n) s' →
  same_elsewhere sid s s' ∧ n = N.of_nat (length (concat chunks ++ data)) ∧
  staged s' sid (append_chunk chunks data).
Proof using SL CL.
  intros Hst Hf Hrun. destruct (push_chunk_spec _ _ _ _ _ _ Hst Hf Hrun) as (Hs & _ & _ & Hok).
  destruct (Hok n eq_refl) as [-> H]. by destruct data.
Qed.

Lemma push_if_any_Ok sid chunks data s s' :
  staged s sid chunks → fits (chunks ++ [data]) → exec (push_if_any sid data) s (Ok ()) s' →
  same_elsewhere sid s s' ∧ staged s' sid (append_chunk chunks data).
Proof using SL CL.
  intros Hst Hf. destruct data as [|x data]; [by intros [_ ->]|].
  intros (n & s1 & Hp & [_ ->])%exec_bind_Ok. by apply (push_appends sid chunks) in Hp as (? & _ & ?).
Qed.

Lemma concat_append chunks data : concat (append_chunk chunks data) = concat chunks ++ data.
Proof. destruct data; simpl; [by rewrite app_nil_r|]. by rewrite concat_app, concat_cons, app_nil_r. Qed.

Lemma update_offset_Ok sid name n offset s s' chunks :
  staged s sid chunks → tracked s sid (MkUploadSession name n) →
  exec (S3Tracker.update_offset sid offset) s (Ok ()) s' →
  staged s' sid chunks ∧ tracked s' sid (MkUploadSession name offset).
Proof using SL SCL.
  intros Hst Ht (x & s1 & [Ho Hx]%exec_session_read & Hrest)%exec_bind_Ok. destruct x as [x|].
  - rewrite <-(tracked_inj _ _ _ _ Ht Hx) in Hrest.
    apply exec_session_write in Hrest as [Hk [[Hw _]|[_ [? ?]]]]; [|done]. split; [|done].
    eapply staged_session_write; [|by eapply staged_same]. done.
  - destruct Ht as (b & Hb & _). congruence.
Qed.

(** The start of a session. *)
Lemma start_session_Ok ux name s rp s' :
  exec (start_upload_session ux name) s (Ok rp) s' →
  session_at s' (ux_uuid ux) name [] ∧ rp = reply ux 202 (session_headers name (ux_uuid ux) "0-0").
Proof using SL CL SCL.
  intros ([] & s1 & (_ & _ & Hst)%start_upload_spec & Hrest)%exec_bind_Ok. specialize (Hst eq_refl).
  apply exec_bind_Ok in Hrest as (x & s2 & Hw & [= ->] & ->).
  apply exec_bind_Ok in Hw as ([] & s3 & [Hk [[Hw _]|[_ [? ?]]]]%exec_session_write & [_ ->]); [|done].
  split; [|done]. split; [by eapply staged_session_write|done].
Qed.

Lemma patch_Ok ux name sid chunks s rp s' :
  session_at s sid name chunks → (∀ data, ux_body ux = inr data → fits (chunks ++ [data])) →
  exec (patch_upload ux name sid) s (Ok rp) s' →
  let received := N.of_nat (length (concat chunks)) in
  if range_mismatch ux (MkUploadSession name received) then
    objects s' = objects s ∧ rp = reply ux 416 (session_headers name sid (range_to received))
  else ∃ data, ux_body ux = inr data ∧ session_at s' sid name (append_chunk chunks data) ∧
    rp = reply ux 202 (session_headers name sid (range_to (N.of_nat (length (concat chunks ++ data))))).
Proof using SL CL SCL.
  intros Hat Hfit (x & s1 & Hx & Hrest)%exec_bind_Ok.
  apply (upload_session_at _ _ chunks) in Hx as [Ho [[[= ->] [Hst Ht]]|[m ?]]]; [|done..].
  cbn zeta. destruct (range_mismatch ux _); [by destruct Hrest as [[= ->] ->]|].
  apply exec_bind_Ok in Hrest as (data & s2 & [-> Hb]%read_body_Ok & Hrest).
  apply exec_bind_Ok in Hrest as (n & s3 & Hp & Hrest).
  apply (push_appends _ chunks) in Hp as (Hs & -> & Hst3); [|by auto..].
  apply exec_bind_Ok in Hrest as ([] & s4 & Hu & [= ->] & ->).
  eapply update_offset_Ok in Hu as [Hst4 Ht4]; [|done|by eapply tracked_elsewhere].
  exists data. split; [done|]. split; [|done]. split; [done|]. by rewrite concat_append.
Qed.

Lemma session_removed sid s s' :
  exec (S3Tracker.remove sid) s (Ok ()) s' → objects s' = delete (S3Tracker.key sid) (objects s).
Proof using SL. by intros [[-> _]|[_ [? ?]]]%exec_delete. Qed.

Lemma no_session_removed sid s s' :
  objects s !! upload_state_key sid = None → objects s' = delete (S3Tracker.key sid) (objects s) →
  no_session s' sid.
Proof. intros Hs E. split; rewrite E; [apply lookup_delete_eq|]. by apply lookup_delete_None; right. Qed.

Lemma complete_handler_Ok ux name sid chunks s rp s' :
  session_at s sid name chunks → (∀ data, ux_body ux = inr data → fits (chunks ++ [data])) →
  exec (complete_upload_handler ux name sid) s (Ok rp) s' →
  ∃ dg data key, query_params (ux_query ux) !! "digest" = Some (digest_to_string dg) ∧
    ux_body ux = inr data ∧ s3_key dg = Ok key ∧ matches (append_chunk chunks data) dg ∧
    objects s' !! key = Some (concat chunks ++ data) ∧ no_session s' sid ∧
    clear_blob_delete_request (ux_clear_commit ux) dg = Ok () ∧ rp = reply ux 201 (blob_headers name dg).
Proof using EX SL CL.
  intros Hat Hfit (x & s1 & Hx & Hrest)%exec_bind_Ok.
  apply (upload_session_at _ _ chunks) in Hx as [Ho [[_ [Hst Ht]]|[m ?]]]; [|done..].
  apply exec_bind_Ok in Hrest as (ds & s2 & [Hq ->] & Hrest).
  apply exec_bind_Ok in Hrest as (dg & s3 & [Hd ->] & Hrest).
  apply exec_bind_Ok in Hrest as (data & s4 & [-> Hb]%read_body_Ok & Hrest).
  apply exec_bind_Ok in Hrest as ([] & s5 & [Hs5 Hst5]%(push_if_any_Ok sid chunks) & Hrest); [|by auto..].
  apply exec_bind_Ok in Hrest as ([] & s6 & Hc & Hrest).
  apply exec_bind_Ok in Hc as ([] & s7 & (r0 & Hc & Er)%exec_map_err & [Hclear ->]).
  assert (r0 = Ok ()) as -> by (by destruct r0 as [[]|e|]).
  apply exec_bind_Ok in Hrest as ([] & s8 & Hrm%session_removed & [= ->] & ->).
  unfold checked_digest, ok_or in Hd. destruct (from_str_checked ds) as [dg'|] eqn:Ed; [|done]. injection Hd as <-.
  apply from_str_checked_Some in Ed as [-> Hwf]. destruct (s3_key_roundtrip _ Hwf) as (key & Hk & _).
  destruct (complete_upload_spec sid _ dg key _ _ _ Hst5 Hwf Hk Hc) as [(Hm & Hob & Hn & _) _]; [done|].
  exists dg, data, key. rewrite concat_append in Hob.
  split_and!; [|done..| |by eapply no_session_removed|done|done].
  - unfold ok_or in Hq. destruct (_ !! "digest"); [|done]. congruence.
  - rewrite Hrm, lookup_delete_ne; [done|]. destruct (s3_key_blobs _ _ Hk) as [z ->]. done.
Qed.

Lemma status_Ok ux name sid chunks s rp s' :
  session_at s sid name chunks → exec (get_upload_status ux name sid) s (Ok rp) s' →
  objects s' = objects s ∧
  rp = reply ux 204 (session_headers name sid (range_to (N.of_nat (length (concat chunks))))).
Proof using SL.
  intros Hat (x & s1 & Hx & [= ->] & ->)%exec_bind_Ok.
  by apply (upload_session_at _ _ chunks) in Hx as [Ho [[[= ->] _]|[m ?]]].
Qed.

Lemma cancel_Ok name sid chunks s rp s' :
  session_at s sid name chunks → exec (cancel_upload name sid) s (Ok rp) s' → no_session s' sid.
Proof using EX SL CL.
  intros Hat (x & s1 & Hx & Hrest)%exec_bind_Ok.
  apply (upload_session_at _ _ chunks) in Hx as [Ho [[_ [Hst Ht]]|[m ?]]]; [|done..].
  apply exec_bind_Ok in Hrest as ([] & s2 & Hdel & Hrest).
  apply exec_bind_Ok in Hrest as ([] & s3 & Hrm%session_removed & [_ ->]).
  eapply no_session_removed; [|done].
  destruct (cancel_refines sid (Open chunks) _ _ _ ltac:(done) Hst Hdel) as (ok & u' & st & He & Hok & Hr & _).
  assert (ok = true) as -> by by apply Hok. inversion He; subst. done.
Qed.

(** ** The tracker in object storage implements the one in memory *)

Lemma session_key_inj sid sid' : S3Tracker.key sid = S3Tracker.key sid' → sid = sid'.
Proof.
  unfold S3Tracker.key. intros E%app_inv_head_str.
  assert (∀ x, Str.strip_suffix "/session.json" (x +:+ "/session.json") = Some x) as H
    by (intros x; by apply strip_suffix_Some).
  apply (f_equal (Str.strip_suffix "/session.json")) in E. rewrite !H in E. by injection E.
Qed.

Definition tracks (s : Bucket) (m : gmap string UploadSession) : Prop :=
  ∀ sid, match m !! sid with
         | Some x => tracked s sid x
         | None => objects s !! S3Tracker.key sid = None
         end.
(** What an operation that fails may have done. *)
Definition outcome {A} (m m' : gmap string UploadSession) (v : A) (r : result A) (s' : Bucket) : Prop :=
  (r = Ok v ∧ tracks s' m') ∨ ∃ e, r = Err e ∧ (tracks s' m ∨ tracks s' m').

Lemma tracks_frame s s' m m' sid :
  tracks s m → (∀ k, k ≠ S3Tracker.key sid → objects s' !! k = objects s !! k) →
  (∀ sid', sid' ≠ sid → m' !! sid' = m !! sid') →
  match m' !! sid with Some x => tracked s' sid x | None => objects s' !! S3Tracker.key sid = None end →
  tracks s' m'.
Proof.
  intros Ht Hk Hm Hsid sid'. destruct (decide (sid' = sid)) as [->|Hne]; [done|]. rewrite Hm by done.
  assert (objects s' !! S3Tracker.key sid' = objects s !! S3Tracker.key sid') as E
    by (apply Hk; by intros ?%session_key_inj).
  specialize (Ht sid'). destruct (m !! sid'); [by eapply tracked_same|by rewrite E].
Qed.

Lemma tracks_same s s' m : tracks s m → objects s' = objects s → tracks s' m.
Proof.
  intros H E sid. specialize (H sid). destruct (m !! sid); [|by rewrite E].
  eapply tracked_same; [by rewrite E|done].
Qed.

Lemma write_tracks sid x m s r s' :
  tracks s m → exec (S3Tracker.write sid x) s r s' → outcome m (<[sid := x]> m) () r s'.
Proof using SL SCL.
  intros Hm [Hk Hw]%exec_session_write. destruct Hw as [[Ht Hr]|[Ho [e ->]]].
  - assert (tracks s' (<[sid := x]> m)) as Ht'.
    { apply (tracks_frame s s' m _ sid); [done..| |by rewrite lookup_insert_eq].
      intros. by rewrite lookup_insert_ne. }
    destruct Hr as [->|[e ->]]; [by left|right; by eauto].
  - right. exists e. split; [done|]. left. by eapply tracks_same.
Qed.

(** The session tracker kept in object storage implements the in-memory one:
    each of its operations answers what the in-memory tracker answers and has
    its effect, or fails, and then the sessions are as before or as after. *)
Theorem tracker_refines m s sid :
  tracks s m →
  (∀ repo r s', exec (S3Tracker.create sid repo) s r s' →
     let '(m', x) := MemoryTracker.create m sid repo in outcome m m' x r s') ∧
  (∀ r s', exec (S3Tracker.get sid) s r s' → outcome m m (MemoryTracker.get m sid) r s') ∧
  (∀ offset r s', exec (S3Tracker.update_offset sid offset) s r s' →
     outcome m (MemoryTracker.update_offset m sid offset) () r s') ∧
  (∀ r s', exec (S3Tracker.remove sid) s r s' → outcome m (MemoryTracker.remove m sid) () r s').
Proof using SL SCL.
  intros Hm.
  assert (∀ r s', exec (S3Tracker.read sid) s r s' → tracks s' m ∧ outcome m m (m !! sid) r s') as Hread.
  { intros r s' [Ho Hr]%exec_session_read. assert (tracks s' m) as Hm' by by eapply tracks_same.
    split; [done|]. specialize (Hm sid). destruct r as [[x|]|e|]; [| | |done].
    - left. split; [|done]. destruct (m !! sid) as [y|] eqn:E; [by rewrite (tracked_inj _ _ _ _ Hm Hr)|].
      destruct Hr as (b & Hb & _). congruence.
    - left. split; [|done]. destruct (m !! sid) as [y|]; [|done]. destruct Hm as (b & Hb & _). congruence.
    - right. by eauto. }
  split_and!.
  - intros repo r s' (r0 & s1 & Hw & Hrest)%exec_bind. apply (write_tracks _ _ m) in Hw; [|done].
    destruct Hw as [[-> Ht]|(e & -> & Ht)]; destruct Hrest as [-> ->]; [by left|right; by eauto].
  - intros r s' Hr. by apply Hread.
  - intros offset r s' (r0 & s1 & [Hm1 Hr]%Hread & Hrest)%exec_bind. unfold MemoryTracker.update_offset.
    destruct Hr as [[-> _]|(e & -> & _)]; [|destruct Hrest as [-> ->]; right; by eauto].
    destruct (m !! sid) as [x|] eqn:E.
    + apply (write_tracks _ _ m) in Hrest; [|done].
      replace (alter _ sid m) with (<[sid := MkUploadSession (us_repo x) offset]> m); [done|].
      apply map_eq. intros k. destruct (decide (k = sid)) as [->|Hne].
      * by rewrite lookup_insert_eq, lookup_alter_eq, E.
      * by rewrite lookup_insert_ne, lookup_alter_ne.
    + destruct Hrest as [-> ->]. left. split; [done|]. replace (alter _ sid m) with m; [done|].
      apply map_eq. intros k. destruct (decide (k = sid)) as [->|Hne]; [by rewrite lookup_alter_eq, E|by rewrite lookup_alter_ne].
  - intros r s' Hr%exec_delete. unfold MemoryTracker.remove.
    assert (∀ s', objects s' = delete (S3Tracker.key sid) (objects s) → tracks s' (delete sid m)) as Hd.
    { intros s2 E. apply (tracks_frame s s2 m _ sid); [done|intros; rewrite E; by apply lookup_delete_ne| |].
      - intros. by apply lookup_delete_ne.
      - by rewrite lookup_delete_eq, E, lookup_delete_eq. }
    destruct Hr as [[Ho%Hd [->|[e ->]]]|[Ho [e ->]]]; [by left|right; by eauto|].
    right. exists e. split; [done|]. left. by eapply tracks_same.
Qed.

(** The upload protocol. A started session has received nothing; a PATCH whose
    range starts elsewhere than at the received bytes is answered 416 with the
    true range and changes nothing, any other successful PATCH appends its body
    and answers with the new range; a successful PUT stores exactly the received
    bytes and its own body under the digest it names, which they hash to, clears a
    pending delete of that blob and ends the session; a status request reports
    the received range; a successful DELETE ends the session. *)
Theorem upload_protocol ux name sid chunks s rp s'
    (Hfit : ∀ data, ux_body ux = inr data → fits (chunks ++ [data])) :
  (exec (start_upload_session ux name) s (Ok rp) s' → session_at s' (ux_uuid ux) name []) ∧
  (session_at s sid name chunks →
    (exec (patch_upload ux name sid) s (Ok rp) s' →
      let received := N.of_nat (length (concat chunks)) in
      if range_mismatch ux (MkUploadSession name received) then
        objects s' = objects s ∧ rp = reply ux 416 (session_headers name sid (range_to received))
      else ∃ data, ux_body ux = inr data ∧ session_at s' sid name (append_chunk chunks data) ∧
        rp = reply ux 202 (session_headers name sid (range_to (N.of_nat (length (concat chunks ++ data)))))) ∧
    (exec (complete_upload_handler ux name sid) s (Ok rp) s' →
      ∃ dg data key, query_params (ux_query ux) !! "digest" = Some (digest_to_string dg) ∧
        ux_body ux = inr data ∧ s3_key dg = Ok key ∧ matches (append_chunk chunks data) dg ∧
        objects s' !! key = Some (concat chunks ++ data) ∧ no_session s' sid ∧
        clear_blob_delete_request (ux_clear_commit ux) dg = Ok () ∧ rp = reply ux 201 (blob_headers name dg)) ∧
    (exec (get_upload_status ux name sid) s (Ok rp) s' → objects s' = objects s ∧
      rp = reply ux 204 (session_headers name sid (range_to (N.of_nat (length (concat chunks)))))) ∧
    (exec (cancel_upload name sid) s (Ok rp) s' → no_session s' sid)).
Proof using EX SL CL SCL.
  split; [by intros [? _]%start_session_Ok|]. intros Hat. split_and!.
  - by apply patch_Ok.
  - by apply complete_handler_Ok.
  - by apply status_Ok.
  - by eapply cancel_Ok.
Qed.

(** A session belongs to its repository. Whatever the method, a request for a
    session that does not exist or was started for another repository is
    refused, as an unknown upload unless the session cannot be read, and changes
    nothing. *)
Theorem session_bound_to_repository ux method name sid s r s' :
  (∀ x, tracked s sid x → us_repo x ≠ name) → exec (dispatch_session ux method name sid) s r s' →
  objects s' = objects s ∧
  (r = Err (unknown_upload sid) ∨ (∃ m, r = Err (S3 m)) ∨
   method ∈ [POST; HEAD; OtherMethod] ∧ r = Err (Unsupported [Lit "method not allowed"])).
Proof using SL.
  intros Hno Hrun.
  assert (∀ f : UploadSession → prog Reply, exec (upload_session name sid ≫= f) s r s' →
    objects s' = objects s ∧ (r = Err (unknown_upload sid) ∨ ∃ m, r = Err (S3 m))) as Hgo.
  { intros f (r0 & s1 & [Ho Hr0]%exec_upload_session & Hrest)%exec_bind.
    destruct r0 as [x|e|]; [by destruct Hr0 as [?%Hno ?]| |done].
    destruct Hrest as [-> ->]. split; [done|]. destruct Hr0 as [->|[m ->]]; eauto. }
  destruct method; simpl in Hrun; try (apply Hgo in Hrun as [? [?|?]]; by auto).
  all: destruct Hrun as [-> ->]; split; [done|]; right; right; split; [by apply (bool_decide_eq_true_1 _)|done].
Qed.

(** A blob is mounted only for an identity that may pull from the source
    repository. With authentication on, a POST that is answered 201 without
    sending content names a blob the store has, and its identity was allowed to
    pull from the repository it names as the source; the mount was committed
    under the namespace generation the push was authorized for, and no object
    was written. *)
Theorem mount_needs_pull ux auth name s rp s' :
  ux_auth ux = Some auth → query_params (ux_query ux) !! "digest" = None →
  exec (start_upload_handler ux name) s (Ok rp) s' → rp_status rp = 201%N →
  ∃ dg key from_repo who access,
    query_params (ux_query ux) !! "mount" = Some (digest_to_string dg) ∧
    query_params (ux_query ux) !! "from" = Some from_repo ∧ ux_identity ux = Some who ∧
    check_permission (as_policy_sets auth) who from_repo Pull (ux_mount_reads ux) = Ok access ∧
    s3_key dg = Ok key ∧ is_Some (objects s !! key) ∧ objects s' = objects s ∧
    mount_blob_with_expected_namespace (ux_mount_commit ux) from_repo name dg
      (ux_access ux ≫= aa_expected_namespace) = Ok ().
Proof using SL CL SCL.
  intros Ha Hd Hrun Hst. unfold start_upload_handler in Hrun. cbn zeta in Hrun. rewrite Hd in Hrun.
  assert (∀ s1, exec (start_upload_session ux name) s1 (Ok rp) s' → False) as Hno.
  { intros s1 [_ ->]%start_session_Ok. unfold reply in Hst. by destruct (forallb _ _). }
  destruct (_ !! "mount") as [md|] eqn:Em; [|by destruct (Hno s)].
  destruct (_ !! "from") as [from|] eqn:Ef; [|by destruct (Hno s)].
  apply exec_bind_Ok in Hrun as (dg & s1 & [Hdg ->] & Hrun).
  apply exec_pbind in Hrun as (found & s2 & Hstat & Hrun).
  destruct found as [n|e|]; simpl in Hrun; [|by destruct (Hno s2)..].
  unfold checked_digest, ok_or in Hdg. destruct (from_str_checked md) as [dg'|] eqn:Ed; [|done]. injection Hdg as <-.
  apply from_str_checked_Some in Ed as [-> Hwf]. destruct (s3_key_roundtrip _ Hwf) as (key & Hk & _).
  apply exec_bind_Ok in Hstat as (key' & s3 & [Hk' ->] & (r0 & s4 & Hc & Hr0 & ->)).
  assert (key' = key) as -> by congruence.
  apply law_head in Hc as (_ & Hob & Hsome & _). simpl in r0. destruct r0 as [[]|z]; [done..|].
  destruct (Hsome z eq_refl) as (b & Hb & _).
  apply exec_bind_Ok in Hrun as (can & s5 & [Hcan ->] & Hrun). destruct can; [|by destruct (Hno s4)].
  apply exec_bind_Ok in Hrun as ([] & s6 & [Hmount ->] & Hrun).
  apply exec_bind_Ok in Hrun as ([] & s7 & [_ ->] & [_ ->]).
  unfold may_mount in Hcan. rewrite Ha in Hcan. unfold mount in Hmount.
  rewrite bool_decide_eq_true_2 in Hmount by by rewrite Ha.
  destruct (ux_identity ux) as [who|]; [|done].
  destruct (check_permission _ who from Pull _) as [access|e|] eqn:Ep; [|by destruct e|done].
  exists dg, key, from, who, access. by split_and!; eauto.
Qed.
End protocol.

(** * On the service in memory *)

#[export] Instance UploadSession_eq_dec : EqDecision UploadSession.
Proof. solve_decision. Defined.
#[export] Instance UploadSession_countable : Countable UploadSession.
Proof.
  apply (inj_countable' (λ x, (us_repo x, us_offset x)) (λ '(r, n), MkUploadSession r n)). by intros [].
Defined.
#[export] Instance session_bits : SessionCodec := {|
  encode_session x := inr (bits_of (encode x));
  decode_session b := match decode (of_bits b) with Some x => inr x | None => inl [Lit "invalid"] end;
|}.
#[export] Instance session_bits_laws : SessionCodecLaws.
Proof. intros x b [= <-]. simpl. by rewrite of_bits_of, decode_encode. Qed.

Definition upload_request (query range : option string) (body : bytes) : UploadContext :=
  MkUploadContext query range (inr body) None None None "s1" (λ _, true) (at_once sample_state) sample_state
    (CommitAt 0 sample_state) (CommitAt 0 sample_state).
Definition one_patch : Memory :=
  (mem_run (_ ← start_upload_session (upload_request None None []) "acme/app";
            patch_upload (upload_request None (Some "bytes 0-1") body) "acme/app" "s1") no_memory).2.
Lemma one_patch_at : session_at one_patch "s1" "acme/app" [body].
Proof.
  split; [|eexists; split; vm_compute; reflexivity].
  split; [eexists; split; vm_compute; reflexivity|].
  intros [|i] c Hc; [injection Hc as <-; vm_compute; reflexivity|discriminate Hc].
Qed.
Definition final_put : UploadContext :=
  upload_request (Some ("digest=" +:+ digest_to_string content_digest)) None body.
Definition after_put : result Reply * Memory := mem_run (complete_upload_handler final_put "acme/app" "s1") one_patch.

Lemma upload_protocol_witness : ∃ rp dg key,
  after_put.1 = Ok rp ∧ rp_status rp = 201%N ∧ digest_to_string dg = digest_to_string content_digest ∧
  s3_key dg = Ok key ∧ mem_objects after_put.2 !! key = Some (body ++ body) ∧ no_session after_put.2 "s1".
Proof.
  pose proof (mem_run_exec (complete_upload_handler final_put "acme/app" "s1") one_patch) as Hrun.
  fold after_put in Hrun. destruct after_put.1 as [rp|e|] eqn:E; [|vm_compute in E; discriminate E..].
  destruct (upload_protocol (SV := memory_s3) final_put "acme/app" "s1" [body] one_patch rp after_put.2) as (_ & H).
  - intros data [= <-]. split; vm_compute; reflexivity.
  - destruct H as (_ & H & _); [apply one_patch_at|].
    destruct (H Hrun) as (dg & data & key & Hq & [= <-] & Hk & _ & Hob & Hn & _). exists rp, dg, key.
    pose proof (f_equal (λ r, match r with Ok rp => rp_status rp | _ => 0%N end) E) as Es. vm_compute in Es.
    split; [reflexivity|]. split; [exact (eq_sym Es)|]. split; [|auto].
    assert (query_params (ux_query final_put) !! "digest" = Some (digest_to_string content_digest)) as Hq'
      by (vm_compute; reflexivity). congruence.
Defined.

Definition created : result UploadSession * Memory := mem_run (S3Tracker.create "s1" "acme/app") no_memory.
Lemma tracker_refines_witness :
  outcome (SV := memory_s3) ∅ (<["s1" := MkUploadSession "acme/app" 0]> ∅) (MkUploadSession "acme/app" 0)
    created.1 created.2.
Proof.
  refine (proj1 (tracker_refines (SV := memory_s3) ∅ no_memory "s1" _) "acme/app" created.1 created.2 _).
  - intros sid. rewrite lookup_empty. reflexivity.
  - apply mem_run_exec.
Defined.

Definition foreign_cancel : prog Reply :=
  dispatch_session (upload_request None None body) DELETE "acme/web" "s1".
Lemma session_bound_to_repository_witness :
  ∃ e, (mem_run foreign_cancel one_patch).1 = Err e.
Proof.
  destruct (session_bound_to_repository (SV := memory_s3) (upload_request None None body) DELETE "acme/web" "s1"
    one_patch (mem_run foreign_cancel one_patch).1 (mem_run foreign_cancel one_patch).2)
    as [_ [E|[[m E]|[_ E]]]]; [| |rewrite E; by eauto..].
  - intros x Hx. rewrite (tracked_inj (SV := memory_s3) _ _ _ _ Hx (proj2 one_patch_at)). discriminate.
  - apply mem_run_exec.
Defined.

(** A mount by the owner of the namespace. *)
Definition mounting : UploadContext :=
  MkUploadContext (Some ("mount=" +:+ digest_to_string content_digest +:+ "&from=acme/app")) None (inr [])
    (Some alice_session) (Some (MkAccess "acme/web" Create acme_epoch)) (Some sample_auth) "s1" (λ _, true)
    (at_once claimed) claimed (CommitAt 0 claimed) (CommitAt 0 claimed).
Definition stored : Memory := (mem_run (put_object content_key body) no_memory).2.

Lemma mount_needs_pull_witness :
  ∃ access, check_permission [] alice_session "acme/app" Pull (at_once claimed) = Ok access.
Proof.
  destruct (mem_run (start_upload_handler mounting "acme/web") stored).1 as [rp|e|] eqn:E;
    [|vm_compute in E; discriminate E..].
  pose proof (mem_run_exec (start_upload_handler mounting "acme/web") stored) as Hrun. rewrite E in Hrun.
  pose proof (f_equal (λ r, match r with Ok rp => rp_status rp | _ => 0%N end) E) as Es. vm_compute in Es.
  destruct (mount_needs_pull (SV := memory_s3) mounting sample_auth "acme/web" stored rp _ eq_refl eq_refl Hrun
    (eq_sym Es)) as (dg & key & from_repo & who & access & _ & Hf & [= <-] & Hc & _).
  assert (query_params (ux_query mounting) !! "from" = Some "acme/app") as Hf' by (vm_compute; reflexivity).
  assert (from_repo = "acme/app") as -> by congruence. exists access. exact Hc.
Defined.

(** * A patch that fails half-way *)

Definition started : Memory :=
  (mem_run (start_upload_session (upload_request None None []) "acme/app") no_memory).2.
Definition first_patch : prog Reply := patch_upload (upload_request None (Some "bytes 0-1") body) "acme/app" "s1".
Definition half_patched : result Reply * Memory :=
  fault_run [false; false; false; false; false; true] first_patch started.
Definition patched_twice : result Reply * Memory := fault_run [] first_patch half_patched.2.
Definition status_request : prog Reply := get_upload_status (upload_request None None []) "acme/app" "s1".

Lemma patched_twice_staged : staged (S3 := faulty_s3) patched_twice.2 "s1" [body; body].
Proof.
  split; [eexists; split; vm_compute; reflexivity|].
  intros [|[|i]] c Hc; [injection Hc as <-; vm_compute; reflexivity..|discriminate Hc].
Qed.

(** A PATCH that stores its chunk and then fails to record the new offset
    leaves a session whose reported range is short of what was received: a client
    that asks for the range and sends the chunk again from there is answered 202,
    and the upload holds the chunk twice. *)
Theorem failed_patch_duplicates :
  ∃ e s1 rp s2, exec (S3 := faulty_s3) first_patch started (Err e) s1 ∧
    exec (S3 := faulty_s3) status_request s1 (Ok (MkReply 204 (session_headers "acme/app" "s1" "0-0"))) s1 ∧
    exec (S3 := faulty_s3) first_patch s1 (Ok rp) s2 ∧ rp_status rp = 202%N ∧
    staged (S3 := faulty_s3) s2 "s1" [body; body].
Proof.
  pose proof (fault_run_exec [false; false; false; false; false; true] first_patch started) as H1.
  pose proof (fault_run_exec [] status_request half_patched.2) as H2.
  pose proof (fault_run_exec [] first_patch half_patched.2) as H3.
  fold half_patched in H1. fold patched_twice in H3.
  assert (∃ e, half_patched.1 = Err e) as [e E1] by (eexists; vm_compute; reflexivity).
  assert (fault_run [] status_request half_patched.2 =
    (Ok (MkReply 204 (session_headers "acme/app" "s1" "0-0")), half_patched.2)) as E2 by (vm_compute; reflexivity).
  assert (∃ rp, patched_twice.1 = Ok rp ∧ rp_status rp = 202%N) as (rp & E3 & Hs)
    by (eexists; split; vm_compute; reflexivity).
  rewrite E1 in H1. rewrite E2 in H2. rewrite E3 in H3.
  exists e, half_patched.2, rp, patched_twice.2. split_and!; [exact H1|exact H2|exact H3|exact Hs|].
  apply patched_twice_staged.
Qed.
