(* ===== verification/Io.v ===== *)
(** Programs of the mirror: trees of effects. The effects are requests to an
    upstream registry through the HTTP library, and calls of the interfaces the
    code is generic in: the blob store and the metadata store (the traits of
    store/blob.rs and store/metadata/traits.rs), the in-memory caches and the
    table of pulls in progress.

    [runs p tr r] says that [p] may end with [r] after the effects and answers
    in [tr]; theorems quantify over all answers. *)

From Stdlib Require Import Ascii.
From stdpp Require Import options.
From S2P Require Import Prelude Errors Digests Manifests Permissions SyncRuns Types S3Client.

(** * HTTP *)

Inductive Authorization := NoAuth | Basic (username password : string) | Bearer (token : string).

Record UpRequest := MkUpRequest {
  uq_method : Method;
  uq_url : string;
  uq_accept : option string;
  uq_content_type : option string;
  uq_auth : Authorization;
  uq_body : option bytes;
}.

(** A response: the headers that are valid strings, and the body chunk by chunk. *)
Record UpResponse := MkUpResponse {
  ur_status : N;
  ur_headers : gmap string string;
  ur_body : list (message + bytes);
}.

(** A failed send: connecting failed or timed out, or anything else. *)
Inductive send_error := Retryable (m : message) | Fatal (m : message).
Definition send_error_text (e : send_error) : message := match e with Retryable m | Fatal m => m end.

(** What the code asks of the HTTP library besides sending: whether it accepts a
    URL, a header value, a proxy URL and client settings, and the texts of its errors. *)
Class HttpLib := {
  url_error : string → option message;
  header_error : string → option message;
  proxy_error : OutboundProxyProtocol → string → option message;
  client_error : option OutboundProxy → bool → option message;
  status_error : N → message;
}.

(** * Effects *)

Section effects.
Context `{SJ : SerdeJson}.

Inductive event :=
  | Http (q : UpRequest)
  | Sleep (ms : N)
  | Now
  | TokenGet (key : string)
  | TokenPut (key token : string)
  | TokenRemove (key : string)
  | RulesCached
  | RulesCache (rules : list MirrorRule)
  | ProxiesCached
  | ProxiesCache (caches : list ProxyCache)
  | InflightEnter (key : string)
  | InflightLeave (key : string)
  | BlobStat (digest : Digest)
  | BlobGet (digest : Digest)
  | BlobPutStreaming (digest : Digest) (stream : list (message + bytes))
  | GetManifest (name reference : string)
  | MetaPutManifest (name reference : string) (entry : ManifestEntry)
  | ListMirrorRules
  | GetMirrorRule (id : string)
  | ListProxyCaches
  | GetProxyCache (id : string)
  | ListTags (name : string)
  | ListManifestSummaries (name : string)
  | GetTagValidation (cache_id repository tag : string)
  | PutTagValidation (validation : ProxyCacheTagValidation)
  | ListWarmImages
  | ListSyncJobs
  | PutSyncJob (job : SyncJob)
  | DeleteSyncJob (id : string)
  | ClaimSyncJob (id node_id : string)
  | PutSyncJobRun (run : SyncJobRun)
  | NewUuid
  | TryAcquire
  | ReleasePermit
  | BlobLifecycle (digest : Digest)
  | RecordBlobDelete (digest : Digest)
  | BlobGetRange (digest : Digest) (first last : N)
  | PresignedUrl (digest : Digest).

Definition answer (e : event) : Type :=
  match e with
  | Http _ => send_error + UpResponse
  | Sleep _ | TokenPut _ _ | TokenRemove _ | RulesCache _ | ProxiesCache _ | InflightLeave _ => ()
  | Now => N
  | TokenGet _ => option string
  (** The cached list and its age in seconds. *)
  | RulesCached => list MirrorRule * N
  | ProxiesCached => list ProxyCache * N
  (** Whether another pull with this key was in progress, which has then ended. *)
  | InflightEnter _ => bool
  | BlobStat _ => result N
  | BlobGet _ => result (list (message + bytes))
  | BlobPutStreaming _ _ => result ()
  | GetManifest _ _ => result (option ManifestEntry)
  | MetaPutManifest _ _ _ => result ()
  | ListMirrorRules => result (list MirrorRule)
  | GetMirrorRule _ => result (option MirrorRule)
  | ListProxyCaches => result (list ProxyCache)
  | GetProxyCache _ => result (option ProxyCache)
  | ListTags _ => result (list string)
  | ListManifestSummaries _ => result (list ManifestSummary)
  | GetTagValidation _ _ _ => result (option ProxyCacheTagValidation)
  | PutTagValidation _ => result ()
  | ListWarmImages => result (list WarmImage)
  | ListSyncJobs => result (list SyncJob)
  | PutSyncJob _ | DeleteSyncJob _ | PutSyncJobRun _ => result ()
  | ClaimSyncJob _ _ => result bool
  | NewUuid => string
  (** Whether a permit was free, and taken. *)
  | TryAcquire => bool
  | ReleasePermit => ()
  | BlobLifecycle _ => result BlobLifecycleStatus
  | RecordBlobDelete _ => result ()
  | BlobGetRange _ _ _ => result (list (message + bytes))
  | PresignedUrl _ => result string
  end.

Inductive io (A : Type) :=
  | Fin (r : result A)
  | Eff (e : event) (k : answer e → io A).
#[global] Arguments Fin {_} _.
#[global] Arguments Eff {_} _ _.

Fixpoint iobind {A B} (p : io A) (f : result A → io B) : io B :=
  match p with Fin r => f r | Eff e k => Eff e (λ a, iobind (k a) f) end.
#[global] Instance io_mbind : MBind io := λ A B f p,
  iobind p (λ r, match r with Ok a => f a | Err e => Fin (Err e) | Panic => Fin Panic end).

Definition ret {A} (a : A) : io A := Fin (Ok a).
Definition throw {A} (e : LayerhouseError) : io A := Fin (Err e).
(** An effect whose answer is the value, and one whose answer is a result. *)
Definition perform (e : event) : io (answer e) := Eff e (λ a, Fin (Ok a)).
Definition attempt {A} (e : event) (k : answer e → result A) : io A := Eff e (λ a, Fin (k a)).

(** * Traces *)

Definition trace : Type := list { e : event & answer e }.
Fixpoint runs {A} (p : io A) (tr : trace) (r : result A) : Prop :=
  match p with
  | Fin r0 => tr = [] ∧ r = r0
  | Eff e k => ∃ a tr', tr = existT e a :: tr' ∧ runs (k a) tr' r
  end.

Lemma runs_iobind {A B} (p : io A) (f : result A → io B) tr r :
  runs (iobind p f) tr r ↔ ∃ tr1 tr2 r1, tr = tr1 ++ tr2 ∧ runs p tr1 r1 ∧ runs (f r1) tr2 r.
Proof.
  revert tr. induction p as [r0|e k IH]; intros tr; simpl.
  - split; [by exists [], tr, r0|]. by intros (tr1 & tr2 & r1 & -> & [-> ->] & H2).
  - split.
    + intros (a & tr' & -> & (tr1 & tr2 & r1 & -> & H1 & H2)%IH).
      exists (existT e a :: tr1), tr2, r1. split; [done|]. by eauto 10.
    + intros (tr1 & tr2 & r1 & -> & (a & tr' & -> & H1) & H2).
      exists a, (tr' ++ tr2). split; [done|]. apply IH. by eauto 10.
Qed.

Lemma runs_bind {A B} (p : io A) (f : A → io B) tr r :
  runs (p ≫= f) tr r ↔ ∃ tr1 tr2 r1, tr = tr1 ++ tr2 ∧ runs p tr1 r1 ∧
    match r1 with
    | Ok a => runs (f a) tr2 r
    | Err e => tr2 = [] ∧ r = Err e
    | Panic => tr2 = [] ∧ r = Panic
    end.
Proof.
  unfold mbind, io_mbind. rewrite runs_iobind.
  split; intros (tr1 & tr2 & [a|e|] & -> & H1 & H2); exists tr1, tr2;
    eexists; (split; [done|]); (split; [exact H1|]); simpl in *; destruct tr2; naive_solver.
Qed.

Lemma runs_bind_Ok {A B} (p : io A) (f : A → io B) tr b :
  runs (p ≫= f) tr (Ok b) ↔ ∃ tr1 tr2 a, tr = tr1 ++ tr2 ∧ runs p tr1 (Ok a) ∧ runs (f a) tr2 (Ok b).
Proof.
  rewrite runs_bind. split.
  - intros (tr1 & tr2 & [a|e|] & -> & H1 & H2); [by eauto 10|by destruct H2..].
  - intros (tr1 & tr2 & a & -> & H1 & H2). by exists tr1, tr2, (Ok a).
Qed.

(** A run, with the answers of an oracle. *)
Fixpoint play {A} (oracle : ∀ e, answer e) (p : io A) : trace * result A :=
  match p with
  | Fin r => ([], r)
  | Eff e k => let '(tr, r) := play oracle (k (oracle e)) in (existT e (oracle e) :: tr, r)
  end.
Lemma play_runs {A} oracle (p : io A) : runs p (play oracle p).1 (play oracle p).2.
Proof.
  induction p as [r|e k IH]; simpl; [done|]. specialize (IH (oracle e)).
  destruct (play oracle (k (oracle e))) as [tr r]. by exists (oracle e), tr.
Qed.
Lemma play_bind {A B} oracle (p : io A) (f : A → io B) a :
  (play oracle p).2 = Ok a →
  play oracle (p ≫= f) = ((play oracle p).1 ++ (play oracle (f a)).1, (play oracle (f a)).2).
Proof.
  unfold mbind, io_mbind. induction p as [r|e k IH]; simpl.
  - intros ->. by destruct (play oracle (f a)).
  - specialize (IH (oracle e)). destruct (play oracle (k (oracle e))) as [tr r]. simpl in *.
    intros H. by rewrite (IH H).
Qed.
Lemma play_bind_inv {A B} oracle (p : io A) (f : A → io B) b :
  (play oracle (p ≫= f)).2 = Ok b → ∃ a, (play oracle p).2 = Ok a.
Proof.
  unfold mbind, io_mbind. induction p as [r|e k IH]; simpl.
  - destruct r; [by eexists|done..].
  - specialize (IH (oracle e)). destruct (play oracle (k (oracle e))) as [tr r].
    destruct (play oracle (iobind _ _)) as [tr' r']. done.
Qed.
End effects.
