(* ===== verification/Upstream.v ===== *)
(** The client for upstream registries
    (crates/layerhouse-server/src/mirror/client.rs): references, challenges,
    tokens, the retry loop and the registry requests, as programs over [Io]. *)

From Stdlib Require Import Ascii.
From stdpp Require Import options.
From S2P Require Import Prelude Errors Digests Manifests Permissions SyncRuns Types StateMachine S3Client Io.

(** * Strings *)

(** [trim_start_matches([',', ' '])]. *)
Fixpoint skip_separators (s : string) : string :=
  match s with
  | String a s' => if bool_decide (a = ","%char ∨ a = " "%char) then skip_separators s' else s
  | EmptyString => ""
  end.

Definition quote_char : ascii := ascii_of_nat 34.

(** * References *)

Inductive UpstreamScope := ScopePull | ScopePushPull.
Definition scope_as_str (s : UpstreamScope) : string :=
  match s with ScopePull => "pull" | ScopePushPull => "pull,push" end.

Record UpstreamRef := MkUpstreamRef {
  up_registry : string;
  up_repository : string;
  up_scheme : string;
  up_insecure_tls : bool;
  up_outbound_proxy : OutboundProxy;
  up_username : option string;
  up_password : option string;
}.

Definition UpstreamRef_new (registry repository : string) (plain_http insecure_tls : bool)
    (outbound_proxy : OutboundProxy) (username password : option string) : UpstreamRef :=
  let api_registry := if bool_decide (registry = "docker.io") then "registry-1.docker.io" else registry in
  let repository :=
    if bool_decide (registry = "docker.io" ∨ registry = "registry-1.docker.io")
         && negb (Str.contains_char "/" repository)
    then "library/" +:+ repository else repository in
  let scheme :=
    if plain_http then "http"
    else if insecure_tls then "https"
    else
      let hostname := default api_registry (head (Str.split ":" api_registry)) in
      if bool_decide (hostname ∈ ["localhost"; "127.0.0.1"; "[::1]"]) then "http" else "https" in
  MkUpstreamRef api_registry repository scheme insecure_tls outbound_proxy username password.

Definition base_url (u : UpstreamRef) : string := up_scheme u +:+ "://" +:+ up_registry u.

Definition absolute_location (upstream : UpstreamRef) (location : string) : string :=
  if Str.starts_with "http://" location || Str.starts_with "https://" location then location
  else if Str.starts_with "/" location then base_url upstream +:+ location
  else base_url upstream +:+ "/" +:+ location.

Definition append_query (url key value : string) : string :=
  url +:+ (if Str.contains_char "?" url then "&" else "?") +:+ key +:+ "=" +:+ value.

Definition redact_proxy_url (url : string) : string :=
  let parsed :=
    match Str.strip_prefix "http://" url with
    | Some rest => Some ("http", rest)
    | None => match Str.strip_prefix "https://" url with
    | Some rest => Some ("https", rest)
    | None => match Str.strip_prefix "socks5://" url with
    | Some rest => Some ("socks5", rest)
    | None => match Str.strip_prefix "socks4://" url with
    | Some rest => Some ("socks4", rest)
    | None => None
    end end end end in
  match parsed with
  | None => "<redacted>"
  | Some (scheme, rest) =>
      let host_port := default rest (head (Str.split "/" rest)) in
      let host := default host_port (last (Str.split "@" host_port)) in
      scheme +:+ "://" +:+ host
  end.

(** * Challenges *)

Record BearerChallenge := MkBearerChallenge { bc_realm : string; bc_service : option string }.

(** The value of a parameter and what follows it. *)
Definition param_value (rest : string) : string * string :=
  match Str.strip_prefix (String quote_char "") rest with
  | Some rest => match Str.split_once quote_char rest with Some (v, r) => (v, r) | None => (rest, "") end
  | None => match Str.split_once "," rest with Some (v, r) => (v, "," +:+ r) | None => (rest, "") end
  end.

(** The loop; every round consumes a parameter. *)
Fixpoint challenge_params (fuel : nat) (remaining : string) (realm service : option string)
    : option string * option string :=
  match fuel with
  | 0 => (realm, service)
  | S fuel' =>
      if Str.is_empty remaining then (realm, service)
      else match Str.split_once "=" (skip_separators remaining) with
      | None => (realm, service)
      | Some (key, rest) =>
          let key := Str.trim key in
          let '(value, rest) := param_value rest in
          let realm := if bool_decide (key = "realm") then Some value else realm in
          let service := if bool_decide (key = "service") then Some value else service in
          challenge_params fuel' rest realm service
      end
  end.

Definition parse_bearer_challenge (header : string) : result BearerChallenge :=
  let header := default header (Str.strip_prefix "Bearer " header) in
  let '(realm, service) := challenge_params (S (String.length header)) header None None in
  realm ← ok_or (Upstream [Lit "no realm in Bearer challenge"]) realm;
  Ok (MkBearerChallenge realm service).

(** * Requests *)

Definition MAX_RETRIES : nat := 5.
Definition INITIAL_BACKOFF_MS : N := 200.

Definition is_retryable (status : N) : bool := bool_decide (status ∈ [429; 500; 502; 503; 504; 408]%N).

Record ManifestData := MkManifestData { md_body : bytes; md_content_type : string; md_digest : string }.
Record ManifestHead := MkManifestHead {
  mh_digest : string;
  mh_content_type : string;
  mh_content_length : option N;
}.
Record BlobDescriptor := MkBlobDescriptor { bd_digest : string; bd_size : N }.

Definition is_index_manifest (content_type : string) : bool :=
  bool_decide (content_type ∈ ["application/vnd.oci.image.index.v1+json";
                               "application/vnd.docker.distribution.manifest.list.v2+json"]).

Definition MANIFEST_ACCEPT : string :=
  "application/vnd.oci.image.manifest.v1+json, application/vnd.oci.image.index.v1+json, " +:+
  "application/vnd.oci.artifact.manifest.v1+json, application/vnd.docker.distribution.manifest.v2+json, " +:+
  "application/vnd.docker.distribution.manifest.list.v2+json, */*".

Section client.
Context `{SJ : SerdeJson, HL : HttpLib, EX : Externals}.
(** [serde_json]'s decoder for [TagsListResponse]. *)
Context (decode_tags : bytes → message + option (list string)).

Definition extract_blob_descriptors (manifest : Value) : list BlobDescriptor :=
  (λ d, MkBlobDescriptor (digest_to_string (sd_digest d)) (sd_size d))
    <$> extract_sized_referenced_descriptors manifest.

Definition extract_child_manifests (index : Value) : list BlobDescriptor :=
  omap (λ m, digest ← json_get m "digest" ≫= json_as_str;
             size ← json_get m "size" ≫= json_as_u64;
             Some (MkBlobDescriptor digest size))
    (default [] (json_get index "manifests" ≫= json_as_array)).

Definition protocol_text (p : OutboundProxyProtocol) : string :=
  match p with
  | ProxyNone => "None" | ProxyHttp => "Http" | ProxyHttps => "Https" | ProxySocks4 => "Socks4"
  | ProxySocks5 => "Socks5"
  end.
Definition client_key (proxy : OutboundProxy) : string :=
  protocol_text (op_protocol proxy) +:+ "|" +:+ default "" (op_url proxy) +:+ "|" +:+ default "" (op_username proxy).
Definition bool_text (b : bool) : string := if b then "true" else "false".
Definition client_cache_key (proxy : OutboundProxy) (insecure_tls : bool) : string :=
  client_key proxy +:+ "|insecure_tls=" +:+ bool_text insecure_tls.
Definition cache_key (u : UpstreamRef) (scope : UpstreamScope) : string :=
  client_cache_key (up_outbound_proxy u) (up_insecure_tls u) +:+ "|" +:+ up_registry u +:+ "|repository:" +:+
  up_repository u +:+ ":" +:+ up_scheme u +:+ ":" +:+ bool_text (up_insecure_tls u) +:+ ":" +:+ scope_as_str scope.

Definition upstream_err {A} (m : message) : io A := throw (Upstream m).
Definition check {A} (e : option A) (f : A → LayerhouseError) : io () :=
  match e with Some m => throw (f m) | None => ret () end.

Definition proxy_settings (p : OutboundProxy) : io () :=
  match op_protocol p with
  | ProxyNone => ret ()
  | protocol =>
      match op_url p with
      | Some url =>
          if Str.is_empty (Str.trim url) then
            throw (NameInvalid [Lit "outbound_proxy.url is required when proxy protocol is not none"])
          else match protocol with
          | ProxyHttps =>
              throw (Unsupported [Lit "HTTPS outbound proxy is deferred until aioduct exposes HTTPS proxy support"])
          | _ => check (proxy_error protocol url) NameInvalid
          end
      | None => throw (NameInvalid [Lit "outbound_proxy.url is required when proxy protocol is not none"])
      end
  end.
Definition build_http_client (proxy : option OutboundProxy) (insecure_tls : bool) : io () :=
  _ ← from_option proxy_settings (ret ()) proxy;
  check (client_error proxy insecure_tls) (λ m, Upstream (Lit "HTTP client: " :: m)).

(** [http]: the client for an upstream. Clients are cached, which only saves
    building them again. *)
Definition http (u : UpstreamRef) : io () :=
  match op_protocol (up_outbound_proxy u) with
  | ProxyNone => if up_insecure_tls u then build_http_client None true else ret ()
  | _ => build_http_client (Some (up_outbound_proxy u)) (up_insecure_tls u)
  end.

Definition basic_auth (u : UpstreamRef) : Authorization :=
  match up_username u, up_password u with Some n, Some p => Basic n p | _, _ => NoAuth end.

(** A GET outside the retry loop; [what] prefixes its errors. *)
Definition plain_get (u : UpstreamRef) (url what : string) : io UpResponse :=
  _ ← http u;
  _ ← check (url_error url) (λ m, Upstream (Lit what :: m));
  attempt (Http (MkUpRequest GET url None None (basic_auth u) None)) (λ r,
    match r with inl e => Err (Upstream (Lit what :: send_error_text e)) | inr resp => Ok resp end).

(** [error_for_status]. *)
Definition error_for_status (resp : UpResponse) (prefix : message) : io UpResponse :=
  if bool_decide (400 ≤ ur_status resp < 600)%N then upstream_err (prefix ++ status_error (ur_status resp))
  else ret resp.

Fixpoint collect (chunks : list (message + bytes)) : message + bytes :=
  match chunks with
  | [] => inr []
  | inl m :: _ => inl m
  | inr b :: chunks' => match collect chunks' with inl m => inl m | inr rest => inr (b ++ rest) end
  end.

Definition token_response (resp : UpResponse) : io Value :=
  match collect (ur_body resp) with
  | inl m => upstream_err (Lit "token response: " :: m)
  | inr b => match from_slice b with
             | Some v => ret v
             | None => upstream_err [Lit "token response: "]
             end
  end.

Definition fetch_token (www_auth scope : string) (u : UpstreamRef) : io string :=
  challenge ← Fin (parse_bearer_challenge www_auth);
  let url := bc_realm challenge +:+ "?scope=" +:+ scope +:+
    match bc_service challenge with Some s => "&service=" +:+ s | None => "" end in
  resp ← plain_get u url "token fetch: ";
  resp ← error_for_status resp [Lit "token fetch: "];
  body ← token_response resp;
  let token := match json_get body "token" with Some v => Some v | None => json_get body "access_token" end in
  match token ≫= json_as_str with
  | Some t => ret t
  | None => upstream_err [Lit "no token in auth response"]
  end.

Definition ensure_auth_scope (u : UpstreamRef) (scope : UpstreamScope) : io () :=
  resp ← plain_get u (base_url u +:+ "/v2/") "auth probe: ";
  if negb (bool_decide (ur_status resp = 401%N)) then ret ()
  else match ur_headers resp !! "www-authenticate" with
  | None => upstream_err [Lit "401 without WWW-Authenticate from "; Disp (up_registry u)]
  | Some www_auth =>
      token ← fetch_token www_auth ("repository:" +:+ up_repository u +:+ ":" +:+ scope_as_str scope) u;
      perform (TokenPut (cache_key u scope) token)
  end.
Definition ensure_auth (u : UpstreamRef) : io () := ensure_auth_scope u ScopePull.
Definition ensure_push_auth (u : UpstreamRef) : io () := ensure_auth_scope u ScopePushPull.
Definition refresh_auth (u : UpstreamRef) (scope : UpstreamScope) : io () :=
  _ ← perform (TokenRemove (cache_key u scope)); ensure_auth_scope u scope.

Record RetryRequest := MkRetryRequest {
  rq_verb : Method;
  rq_target : string;
  rq_accept : option string;
  rq_content_type : option string;
  rq_payload : option bytes;
  rq_scope : UpstreamScope;
}.

(** [backoff] before attempt [attempt]. *)
Definition backoff (attempt : nat) : io () :=
  match attempt with 0 => ret () | S n => perform (Sleep (INITIAL_BACKOFF_MS * 2 ^ N.of_nat n)) end.

(** The authorization header of a cached token. *)
Definition apply_auth (key : string) : io Authorization :=
  token ← perform (TokenGet key); ret (match token with Some t => Bearer t | None => NoAuth end).

(** One round of the loop: a response to return, or the error to remember. *)
Definition retry_round (u : UpstreamRef) (q : RetryRequest) (attempt : nat)
    : io (LayerhouseError + UpResponse) :=
  let more := bool_decide (attempt < MAX_RETRIES) in
  _ ← backoff attempt;
  _ ← http u;
  _ ← check (url_error (rq_target q)) Upstream;
  _ ← check (rq_accept q ≫= header_error) Upstream;
  auth ← apply_auth (cache_key u (rq_scope q));
  _ ← check (rq_content_type q ≫= header_error) Upstream;
  sent ← perform (Http (MkUpRequest (rq_verb q) (rq_target q) (rq_accept q) (rq_content_type q) auth (rq_payload q)));
  match sent with
  | inl (Retryable m) => if more then ret (inl (Upstream m)) else upstream_err m
  | inl (Fatal m) => upstream_err m
  | inr resp =>
      if bool_decide (ur_status resp = 401%N) && more then
        iobind (refresh_auth u (rq_scope q)) (λ r,
          match r with Panic => Fin Panic | _ => ret (inl (Upstream [Lit "401 Unauthorized"])) end)
      else if is_retryable (ur_status resp) && more then
        ret (inl (Upstream [Lit "HTTP "; Num (ur_status resp)]))
      else ret (inr resp)
  end.

(** [for attempt in 0..=MAX_RETRIES], from [attempt] on. *)
Fixpoint retry_loop (rounds attempt : nat) (u : UpstreamRef) (q : RetryRequest)
    (last_err : option LayerhouseError) : io UpResponse :=
  match rounds with
  | 0 => throw (default (Upstream [Lit "max retries exceeded"]) last_err)
  | S rounds' =>
      r ← retry_round u q attempt;
      match r with
      | inr resp => ret resp
      | inl e => retry_loop rounds' (S attempt) u q (Some e)
      end
  end.
Definition retry_with_body (u : UpstreamRef) (q : RetryRequest) : io UpResponse :=
  retry_loop (S MAX_RETRIES) 0 u q None.
Definition retry (u : UpstreamRef) (method : Method) (url : string) (accept : option string) : io UpResponse :=
  retry_with_body u (MkRetryRequest method url accept None None ScopePull).

Definition manifest_url (u : UpstreamRef) (reference : string) : string :=
  base_url u +:+ "/v2/" +:+ up_repository u +:+ "/manifests/" +:+ reference.
Definition blob_url (u : UpstreamRef) (digest : string) : string :=
  base_url u +:+ "/v2/" +:+ up_repository u +:+ "/blobs/" +:+ digest.

Definition get_manifest (u : UpstreamRef) (reference : string) : io ManifestData :=
  resp ← retry u GET (manifest_url u reference) (Some MANIFEST_ACCEPT);
  resp ← error_for_status resp [Lit "GET manifest "; Disp reference; Lit ": "];
  match collect (ur_body resp) with
  | inl m => upstream_err (Lit "GET manifest body: " :: m)
  | inr body =>
      ret (MkManifestData body
             (default "application/vnd.oci.image.manifest.v1+json" (ur_headers resp !! "content-type"))
             (default "" (ur_headers resp !! "docker-content-digest")))
  end.

Definition head_manifest (u : UpstreamRef) (reference : string) : io (option ManifestHead) :=
  resp ← retry u HEAD (manifest_url u reference) (Some MANIFEST_ACCEPT);
  if bool_decide (ur_status resp = 200%N) then
    match d ← ur_headers resp !! "docker-content-digest"; if Str.is_empty d then None else Some d with
    | None =>
        manifest ← get_manifest u reference;
        ret (Some (MkManifestHead (digest_to_string (digest_sha256 sha256_hex (md_body manifest)))
                     (md_content_type manifest) (Some (N.of_nat (length (md_body manifest))))))
    | Some digest =>
        ret (Some (MkManifestHead digest
          (default "application/octet-stream" (ur_headers resp !! "content-type"))
          (ur_headers resp !! "content-length" ≫= Str.parse_u64)))
    end
  else if bool_decide (ur_status resp = 404%N) then ret None
  else upstream_err [Lit "HEAD manifest "; Disp reference; Lit " failed: "; Num (ur_status resp)].

(** [get_blob]: the response, whose body is read as a stream. *)
Definition get_blob (u : UpstreamRef) (digest : string) : io UpResponse :=
  resp ← retry u GET (blob_url u digest) None;
  error_for_status resp [Lit "GET blob "; Disp digest; Lit ": "].

Definition head_blob (u : UpstreamRef) (digest : string) : io bool :=
  resp ← retry u HEAD (blob_url u digest) None;
  if bool_decide (ur_status resp = 200%N) then ret true
  else if bool_decide (ur_status resp = 404%N) then ret false
  else upstream_err [Lit "HEAD blob "; Disp digest; Lit " failed: "; Num (ur_status resp)].

Definition put_manifest_upstream (u : UpstreamRef) (reference : string) (manifest : bytes)
    (content_type : string) : io () :=
  resp ← retry_with_body u
    (MkRetryRequest PUT (manifest_url u reference) None (Some content_type) (Some manifest) ScopePushPull);
  if bool_decide (ur_status resp ∈ [201; 202; 200]%N) then ret ()
  else upstream_err [Lit "PUT manifest "; Disp reference; Lit " failed: "; Num (ur_status resp)].

(** [stream] is what the local blob yields; a failed chunk fails the send. *)
Definition push_blob_stream (u : UpstreamRef) (digest : string) (size : N) (stream : list (message + bytes))
    : io () :=
  start ← retry_with_body u
    (MkRetryRequest POST (base_url u +:+ "/v2/" +:+ up_repository u +:+ "/blobs/uploads/") None None None
       ScopePushPull);
  if negb (bool_decide (ur_status start ∈ [202; 201]%N)) then
    upstream_err [Lit "POST blob upload "; Disp digest; Lit " failed: "; Num (ur_status start)]
  else match ur_headers start !! "location" with
  | None => upstream_err [Lit "blob upload response missing Location"]
  | Some location =>
      let upload_url := append_query (absolute_location u location) "digest" digest in
      _ ← http u;
      _ ← check (url_error upload_url) (λ m, Upstream (Lit "PUT blob upload: " :: m));
      _ ← check (header_error "application/octet-stream") Upstream;
      _ ← check (header_error (Str.of_u64 size)) Upstream;
      auth ← apply_auth (cache_key u ScopePushPull);
      match collect stream with
      | inl m => upstream_err (Lit "PUT blob upload " :: Disp digest :: Lit ": " :: m)
      | inr body =>
          sent ← perform (Http (MkUpRequest PUT upload_url None (Some "application/octet-stream") auth (Some body)));
          match sent with
          | inl e => upstream_err (Lit "PUT blob upload " :: Disp digest :: Lit ": " :: send_error_text e)
          | inr resp =>
              if bool_decide (ur_status resp ∈ [201; 202]%N) then ret ()
              else upstream_err [Lit "PUT blob upload "; Disp digest; Lit " failed: "; Num (ur_status resp)]
          end
      end
  end.

(** The loop of [list_tags]: pages of 100. An upstream may go on for ever, so the
    number of pages is bounded by [pages]; running out is a panic. *)
Fixpoint tag_pages (pages : nat) (u : UpstreamRef) (last_tag : option string) (tags : list string)
    : io (list string) :=
  match pages with
  | 0 => Fin Panic
  | S pages' =>
      let base := base_url u +:+ "/v2/" +:+ up_repository u +:+ "/tags/list?n=100" in
      let url := match last_tag with Some l => base +:+ "&last=" +:+ l | None => base end in
      resp ← retry u GET url None;
      resp ← error_for_status resp [Lit "GET tags list: "];
      body ← match collect (ur_body resp) with
             | inl m => upstream_err (Lit "tags list response: " :: m)
             | inr b => match decode_tags b with
                        | inl m => upstream_err (Lit "tags list response: " :: m)
                        | inr t => ret t
                        end
             end;
      let page := default [] body in
      match page with
      | [] => ret tags
      | _ =>
          if bool_decide (length page = 100) then tag_pages pages' u (last page) (tags ++ page)
          else ret (tags ++ page)
      end
  end.

(** [sort] and [dedup]. *)
Definition sort_dedup (l : list string) : list string :=
  dedup_by (λ a b, bool_decide (a = b)) (merge_sort String.le l).
Definition list_tags_upstream (pages : nat) (u : UpstreamRef) : io (list string) :=
  _ ← ensure_auth u;
  tags ← tag_pages pages u None [];
  ret (sort_dedup tags).
End client.
