(* ===== verification/Mirror.v ===== *)
(** Mirroring and the pull-through cache
    (crates/layerhouse-server/src/mirror/mod.rs): which rule or cache answers for
    a repository, which tags a job selects, and the pulls and pushes as programs
    over [Io]. *)

From Stdlib Require Import Ascii.
From stdpp Require Import options.
From S2P Require Import Prelude Errors Digests Manifests Permissions SyncRuns Types StateMachine S3Client Io Upstream.

(** * Matching *)

(** [trim_matches('/')]. *)
Fixpoint trim_start_char (c : ascii) (s : string) : string :=
  match s with
  | String a s' => if bool_decide (a = c) then trim_start_char c s' else s
  | EmptyString => ""
  end.
Definition trim_matches (c : ascii) (s : string) : string :=
  Str.rev (trim_start_char c (Str.rev (trim_start_char c s))).

Definition normalize_upstream_prefix (prefix : option string) : option string :=
  prefix ← prefix;
  let trimmed := trim_matches "/" (Str.trim prefix) in
  if Str.is_empty trimmed then None else Some trimmed.

Definition upstream_repo_from_prefix (prefix : option string) (suffix : string) : option string :=
  match normalize_upstream_prefix prefix, Str.is_empty suffix with
  | Some prefix, true => Some prefix
  | Some prefix, false => Some (prefix +:+ "/" +:+ suffix)
  | None, true => None
  | None, false => Some suffix
  end.

Definition prefix_suffix (repo_name prefix : string) : option string :=
  if bool_decide (repo_name = prefix) then Some ""
  else suffix ← Str.strip_prefix prefix repo_name; Str.strip_prefix "/" suffix.

(** The loop [match_rule] and [match_proxy_cache] share: the longest local prefix
    wins, the first one among equals. [eligible] are the entries looked at. *)
Fixpoint best_match {A} (eligible : A → bool) (local_prefix : A → string) (upstream_prefix : A → option string)
    (repo_name : string) (l : list A) (best : option (A * string)) : option (A * string) :=
  match l with
  | [] => best
  | x :: l' =>
      let candidate :=
        if eligible x then
          suffix ← prefix_suffix repo_name (local_prefix x);
          upstream_repo_from_prefix (upstream_prefix x) suffix
        else None in
      let best := match candidate with
                  | None => best
                  | Some upstream_repo =>
                      match best with
                      | Some (existing, _) =>
                          if bool_decide (String.length (local_prefix existing) < String.length (local_prefix x))
                          then Some (x, upstream_repo) else best
                      | None => Some (x, upstream_repo)
                      end
                  end in
      best_match eligible local_prefix upstream_prefix repo_name l' best
  end.

Definition is_pull_rule (r : MirrorRule) : bool := match mr_direction r with DirPull => true | DirPush => false end.
Definition match_rule (rules : list MirrorRule) (repo_name : string) : option (MirrorRule * string) :=
  best_match is_pull_rule mr_local_prefix mr_upstream_prefix repo_name rules None.
Definition match_proxy_cache (caches : list ProxyCache) (repo_name : string) : option (ProxyCache * string) :=
  best_match (λ _, true) pc_local_prefix pc_upstream_prefix repo_name caches None.

Definition make_upstream_ref (rule : MirrorRule) (upstream_repo : string) : UpstreamRef :=
  UpstreamRef_new (mr_upstream_registry rule) upstream_repo (mr_plain_http rule) (mr_insecure_tls rule)
    (mr_outbound_proxy rule) (mr_username rule) (mr_password rule).
Definition make_proxy_upstream_ref (cache : ProxyCache) (upstream_repo : string) : UpstreamRef :=
  UpstreamRef_new (pc_upstream_registry cache) upstream_repo (pc_plain_http cache) (pc_insecure_tls cache)
    (pc_outbound_proxy cache) (pc_username cache) (pc_password cache).
Definition default_mirror_upstream_repo (rule : MirrorRule) : string :=
  default (mr_local_prefix rule) (normalize_upstream_prefix (mr_upstream_prefix rule)).
Definition default_proxy_upstream_repo (cache : ProxyCache) : string :=
  default (pc_local_prefix cache) (normalize_upstream_prefix (pc_upstream_prefix cache)).

(** * Globs *)

(** [&rest[rest.find(part)? + part.len()..]]. *)
Fixpoint after_first (part s : string) : option string :=
  match Str.strip_prefix part s with
  | Some r => Some r
  | None => match s with EmptyString => None | String _ s' => after_first part s' end
  end.

Fixpoint find_parts (parts : list string) (rest : string) : option string :=
  match parts with
  | [] => Some rest
  | part :: parts' => rest ← after_first part rest; find_parts parts' rest
  end.

Definition glob_matches (pattern value : string) : bool :=
  if bool_decide (pattern = "*") then true
  else if negb (Str.contains_char "*" pattern) then bool_decide (pattern = value)
  else
    let parts := filter (λ p, p ≠ "") (Str.split "*" pattern) in
    match parts with
    | [] => true
    | first :: _ =>
        if negb (Str.starts_with "*" pattern) && negb (Str.starts_with first value) then false
        else match find_parts parts value with
        | None => false
        | Some _ =>
            match last parts with
            | Some last => if negb (Str.ends_with "*" pattern) then Str.ends_with last value else true
            | None => true
            end
        end
    end.

(** * Cached tags *)

Definition is_digest_reference (reference : string) : bool :=
  bool_decide (is_Some (from_str_checked reference)).

Record ProxyCacheValidationTarget := MkValidationTarget {
  vt_cache_id : string;
  vt_repository : string;
  vt_tag : string;
}.
Definition for_reference (cache_id repository reference : string) : option ProxyCacheValidationTarget :=
  if is_digest_reference reference then None else Some (MkValidationTarget cache_id repository reference).

Definition RULES_CACHE_TTL_SECS : N := 30.
Definition PROXY_CACHE_TAG_VALIDATION_INTERVAL_SECS : N := 24 * 60 * 60.
Definition proxy_cache_tag_validation_is_fresh (v : ProxyCacheTagValidation) (local_digest : string) (now : N) : bool :=
  bool_decide (pv_upstream_digest v = local_digest)
    && bool_decide (U64.saturating_sub now (pv_last_validated_at v) < PROXY_CACHE_TAG_VALIDATION_INTERVAL_SECS)%N.

Inductive PullMode := Eager | Lazy.
Definition dedup_segment (m : PullMode) : string := match m with Eager => "eager" | Lazy => "lazy" end.

Section mirror.
Context `{SJ : SerdeJson, HL : HttpLib, EX : Externals}.
Context (decode_tags : bytes → message + option (list string)).
(** Bounds on the pages of an upstream's tag list and on the manifests below an index. *)
Context (pages rounds : nat).

(** The calls of the two stores. *)
Definition blob_stat (digest : Digest) : io N := Eff (BlobStat digest) Fin.
Definition blob_exists (digest : Digest) : io bool := Eff (BlobStat digest) (λ r, Fin (Ok (is_ok r))).
Definition blob_get (digest : Digest) : io (list (message + bytes)) := Eff (BlobGet digest) Fin.
Definition stored_manifest (name reference : string) : io (option ManifestEntry) := Eff (GetManifest name reference) Fin.
Definition local_tags (name : string) : io (list string) := Eff (ListTags name) Fin.
Definition local_summaries (name : string) : io (list ManifestSummary) := Eff (ListManifestSummaries name) Fin.
Definition mirror_rule (id : string) : io (option MirrorRule) := Eff (GetMirrorRule id) Fin.
Definition mirror_rules : io (list MirrorRule) := Eff ListMirrorRules Fin.
Definition proxy_cache (id : string) : io (option ProxyCache) := Eff (GetProxyCache id) Fin.
Definition proxy_caches : io (list ProxyCache) := Eff ListProxyCaches Fin.
Definition tag_validation (cache_id repository tag : string) : io (option ProxyCacheTagValidation) :=
  Eff (GetTagValidation cache_id repository tag) Fin.
Definition store_entry (name reference : string) (entry : ManifestEntry) : io () :=
  Eff (MetaPutManifest name reference entry) Fin.

Definition unless (b : bool) (p : io ()) : io () := if b then ret () else p.

(** * Selecting tags *)

Abbreviation list_upstream := (list_tags_upstream decode_tags pages).

Definition latest_tags (u : UpstreamRef) (count : N) : io (list string) :=
  tags ← list_upstream u;
  ret (take (N.to_nat count) (reverse (merge_sort String.le tags))).

Definition resolve_mirror_strategy_tags (strategy : MirrorStrategy) (u : UpstreamRef) : io (list string) :=
  match strategy with
  | StrategyAll => list_upstream u
  | StrategyLatest count => latest_tags u count
  | StrategyPattern pattern =>
      tags ← list_upstream u; ret (filter (λ tag, glob_matches pattern tag = true) tags)
  end.

(** Most recently modified first, then by tag. *)
Definition tagged_le (a b : string * N) : Prop := (b.2 < a.2)%N ∨ (a.2 = b.2 ∧ String.le a.1 b.1).
#[global] Instance tagged_le_dec a b : Decision (tagged_le a b).
Proof. unfold tagged_le. apply _. Defined.

Definition resolve_local_strategy_tags (strategy : MirrorStrategy) (local_repo : string) : io (list string) :=
  match strategy with
  | StrategyAll => local_tags local_repo
  | StrategyLatest count =>
      summaries ← local_summaries local_repo;
      let tagged := s ← summaries; (λ tag, (tag, ms_last_modified s)) <$> ms_tags s in
      ret (take (N.to_nat count) (merge_sort tagged_le tagged)).*1
  | StrategyPattern pattern =>
      tags ← local_tags local_repo;
      ret (filter (λ tag, glob_matches pattern tag = true) tags)
  end.

(** [all_tags]: the list is fetched once. *)
Definition fetch_once (u : UpstreamRef) (all_tags : option (list string)) : io (list string) :=
  match all_tags with Some tags => ret tags | None => list_upstream u end.
Fixpoint resolve_filters (filters : list WarmFilter) (u : UpstreamRef) (all_tags : option (list string))
    (selected : gset string) : io (list string) :=
  match filters with
  | [] => ret (merge_sort String.le (elements selected))
  | WarmNone :: fs => resolve_filters fs u all_tags selected
  | WarmAll :: fs =>
      tags ← fetch_once u all_tags;
      resolve_filters fs u (Some tags) (selected ∪ list_to_set tags)
  | WarmLatest count _ :: fs =>
      tags ← latest_tags u count;
      resolve_filters fs u all_tags (selected ∪ list_to_set tags)
  | WarmPattern pattern :: fs =>
      tags ← fetch_once u all_tags;
      resolve_filters fs u (Some tags)
        (selected ∪ list_to_set (filter (λ tag, glob_matches pattern tag = true) tags))
  end.
Definition resolve_warm_filter_tags (filters : list WarmFilter) (u : UpstreamRef) : io (list string) :=
  resolve_filters filters u None ∅.

Record ResolvedMirrorJob := MkResolvedMirrorJob {
  rj_direction : MirrorDirection;
  rj_local_repo : string;
  rj_tags : list string;
}.

Definition resolve_mirror_job (rule_id : string) : io ResolvedMirrorJob :=
  rule ← mirror_rule rule_id;
  match rule with
  | None => throw (NameUnknown [Disp rule_id])
  | Some rule =>
      match mr_direction rule with
      | DirPush =>
          tags ← resolve_local_strategy_tags (mr_strategy rule) (mr_local_prefix rule);
          ret (MkResolvedMirrorJob DirPush (mr_local_prefix rule) tags)
      | DirPull =>
          let u := make_upstream_ref rule (default_mirror_upstream_repo rule) in
          tags ← resolve_mirror_strategy_tags (mr_strategy rule) u;
          _ ← perform (RulesCache []);
          ret (MkResolvedMirrorJob DirPull (mr_local_prefix rule) tags)
      end
  end.

Definition resolve_proxy_cache_job (cache_id : string) : io (string * list string) :=
  cache ← proxy_cache cache_id;
  match cache with
  | None => throw (NameUnknown [Disp cache_id])
  | Some cache =>
      let u := make_proxy_upstream_ref cache (default_proxy_upstream_repo cache) in
      tags ← resolve_warm_filter_tags (pc_warm_filters cache) u;
      _ ← perform (ProxiesCache []);
      ret (pc_local_prefix cache, tags)
  end.

(** * Rules and caches in memory *)

Definition get_rules : io (list MirrorRule) :=
  cached ← perform RulesCached;
  if bool_decide (cached.1 ≠ [] ∧ (cached.2 < RULES_CACHE_TTL_SECS)%N) then ret cached.1
  else
    rules ← mirror_rules;
    _ ← perform (RulesCache rules);
    ret rules.
Definition get_proxy_caches : io (list ProxyCache) :=
  cached ← perform ProxiesCached;
  if bool_decide (cached.1 ≠ [] ∧ (cached.2 < RULES_CACHE_TTL_SECS)%N) then ret cached.1
  else
    caches ← proxy_caches;
    _ ← perform (ProxiesCache caches);
    ret caches.

(** * Pulling *)

(** [into_bytes_stream] and [put_streaming]. *)
Definition store_blob (digest : Digest) (resp : UpResponse) : io () :=
  Eff (BlobPutStreaming digest (ur_body resp)) Fin.

Fixpoint pull_blobs (descs : list BlobDescriptor) (u : UpstreamRef) : io () :=
  match descs with
  | [] => ret ()
  | blob :: descs' =>
      match from_str_checked (bd_digest blob) with
      | None => pull_blobs descs' u
      | Some digest =>
          found ← blob_exists digest;
          _ ← unless found (resp ← get_blob u (bd_digest blob); store_blob digest resp);
          pull_blobs descs' u
      end
  end.

Definition put_manifest_entry (repo_name reference : string) (data : ManifestData) (parsed : Value) : io () :=
  let digest_ref := digest_to_string (digest_sha256 sha256_hex (md_body data)) in
  now ← perform Now;
  let entry := from_parsed_json sha256_hex now parsed (md_content_type data) (md_body data)
                 (extract_referenced_digests parsed) in
  _ ← store_entry repo_name reference entry;
  if bool_decide (reference = digest_ref) then ret ()
  else store_entry repo_name digest_ref entry.

Definition parse_upstream (body : bytes) : io Value :=
  match from_slice body with
  | Some v => ret v
  | None => throw (Upstream [Lit "invalid manifest JSON: "])
  end.

Definition store_manifest_only (repo_name reference : string) (data : ManifestData) : io () :=
  parsed ← parse_upstream (md_body data); put_manifest_entry repo_name reference data parsed.

Inductive Frame :=
  | Process (reference : string) (data : ManifestData)
  | Store (reference : string) (data : ManifestData) (parsed : Value).

(** [for child in children.into_iter().rev()]. *)
Fixpoint push_children (repo_name : string) (u : UpstreamRef) (children : list BlobDescriptor) (stack : list Frame)
    : io (list Frame) :=
  match children with
  | [] => ret stack
  | child :: children' =>
      existing ← stored_manifest repo_name (bd_digest child);
      data ← match existing with
             | Some e => ret (MkManifestData (me_body e) (me_content_type e) (digest_to_string (me_digest e)))
             | None => get_manifest u (bd_digest child)
             end;
      push_children repo_name u children' (Process (bd_digest child) data :: stack)
  end.

(** [while let Some(frame) = stack.pop()], at most [n] times; more is a panic. *)
Fixpoint store_loop (n : nat) (repo_name : string) (u : UpstreamRef) (stack : list Frame) (visited : gset string)
    : io () :=
  match n with
  | 0 => Fin Panic
  | S n' =>
      match stack with
      | [] => ret ()
      | Process reference data :: stack =>
          let manifest_digest := digest_to_string (digest_sha256 sha256_hex (md_body data)) in
          if bool_decide (manifest_digest ∈ visited) then store_loop n' repo_name u stack visited
          else
            let visited := {[manifest_digest]} ∪ visited in
            parsed ← parse_upstream (md_body data);
            if is_index_manifest (md_content_type data) then
              stack ← push_children repo_name u (reverse (extract_child_manifests parsed))
                        (Store reference data parsed :: stack);
              store_loop n' repo_name u stack visited
            else
              _ ← pull_blobs (extract_blob_descriptors parsed) u;
              _ ← put_manifest_entry repo_name reference data parsed;
              store_loop n' repo_name u stack visited
      | Store reference data parsed :: stack =>
          _ ← put_manifest_entry repo_name reference data parsed;
          store_loop n' repo_name u stack visited
      end
  end.
Definition store_manifest_recursive (repo_name reference : string) (data : ManifestData) (u : UpstreamRef) : io () :=
  store_loop rounds repo_name u [Process reference data] ∅.

Definition record_proxy_cache_tag_validation (target : option ProxyCacheValidationTarget) (upstream_digest : string)
    : io () :=
  match target with
  | None => ret ()
  | Some t =>
      now ← perform Now;
      Eff (PutTagValidation (MkProxyCacheTagValidation (vt_cache_id t) (vt_repository t) (vt_tag t)
                               upstream_digest now)) Fin
  end.

(** The manifest is not here yet, or not the one the upstream has now. *)
Definition pull_fresh (repo_name reference : string) (u : UpstreamRef) (mode : PullMode)
    (target : option ProxyCacheValidationTarget) (head : ManifestHead) : io (option ManifestEntry) :=
  data ← get_manifest u reference;
  _ ← match mode with
      | Eager => store_manifest_recursive repo_name reference data u
      | Lazy => store_manifest_only repo_name reference data
      end;
  entry ← stored_manifest repo_name reference;
  _ ← match entry with
      | Some _ => record_proxy_cache_tag_validation target (mh_digest head)
      | None => ret ()
      end;
  ret entry.

Definition do_pull_after_head (repo_name reference : string) (u : UpstreamRef) (mode : PullMode)
    (target : option ProxyCacheValidationTarget) (head : ManifestHead) : io (option ManifestEntry) :=
  local ← Eff (GetManifest repo_name reference) (λ r,
            Fin (match r with Ok l => Ok l | Err _ => Ok None | Panic => Panic end));
  match local with
  | Some local =>
      if bool_decide (digest_to_string (me_digest local) = mh_digest head) then
        _ ← match mode with
            | Eager => store_manifest_recursive repo_name reference
                (MkManifestData (me_body local) (me_content_type local) (digest_to_string (me_digest local))) u
            | Lazy => ret ()
            end;
        _ ← record_proxy_cache_tag_validation target (mh_digest head);
        ret (Some local)
      else pull_fresh repo_name reference u mode target head
  | None => pull_fresh repo_name reference u mode target head
  end.

Definition do_pull (repo_name reference : string) (u : UpstreamRef) (mode : PullMode)
    (target : option ProxyCacheValidationTarget) : io (option ManifestEntry) :=
  _ ← ensure_auth u;
  head ← head_manifest u reference;
  match head with
  | None => ret None
  | Some head => do_pull_after_head repo_name reference u mode target head
  end.

(** Only one pull per key at a time: a second one waits for the first to end and
    then does [after_wait]. The entry is removed when the pull has ended. *)
Definition deduplicated {A} (key : string) (after_wait : io A) (pull : io A) : io A :=
  Eff (InflightEnter key) (λ waited : bool,
    if waited then after_wait
    else iobind pull (λ r,
      match r with Panic => Fin Panic | _ => _ ← perform (InflightLeave key); Fin r end)).

Definition pull_manifest_from_proxy_cache (repo_name reference : string) (mode : PullMode)
    : io (option ManifestEntry) :=
  caches ← get_proxy_caches;
  match match_proxy_cache caches repo_name with
  | None => ret None
  | Some (cache, upstream_repo) =>
      deduplicated ("proxy-cache:" +:+ dedup_segment mode +:+ ":" +:+ repo_name +:+ ":" +:+ reference)
        (stored_manifest repo_name reference)
        (do_pull repo_name reference (make_proxy_upstream_ref cache upstream_repo) mode
           (for_reference (pc_id cache) repo_name reference))
  end.

Definition pull_manifest_from_mirror_rule (repo_name reference : string) (mode : PullMode)
    : io (option ManifestEntry) :=
  rules ← get_rules;
  match match_rule rules repo_name with
  | None => ret None
  | Some (rule, upstream_repo) =>
      deduplicated (dedup_segment mode +:+ ":" +:+ repo_name +:+ ":" +:+ reference)
        (stored_manifest repo_name reference)
        (do_pull repo_name reference (make_upstream_ref rule upstream_repo) mode None)
  end.

Definition pull_manifest_with_mode (repo_name reference : string) (mode : PullMode) : io (option ManifestEntry) :=
  result ← pull_manifest_from_proxy_cache repo_name reference mode;
  match result with
  | Some e => ret (Some e)
  | None => pull_manifest_from_mirror_rule repo_name reference mode
  end.
Definition pull_manifest (repo_name reference : string) : io (option ManifestEntry) :=
  pull_manifest_with_mode repo_name reference Eager.
Definition pull_manifest_lazy (repo_name reference : string) : io (option ManifestEntry) :=
  pull_manifest_with_mode repo_name reference Lazy.

Definition head_manifest_from_proxy_cache (repo_name reference : string) : io (option ManifestHead) :=
  caches ← get_proxy_caches;
  match match_proxy_cache caches repo_name with
  | None => ret None
  | Some (cache, upstream_repo) =>
      let u := make_proxy_upstream_ref cache upstream_repo in
      _ ← ensure_auth u; head_manifest u reference
  end.
Definition head_manifest_from_mirror_rule (repo_name reference : string) : io (option ManifestHead) :=
  rules ← get_rules;
  match match_rule rules repo_name with
  | None => ret None
  | Some (rule, upstream_repo) =>
      let u := make_upstream_ref rule upstream_repo in
      _ ← ensure_auth u; head_manifest u reference
  end.
Definition mirror_head_manifest (repo_name reference : string) : io (option ManifestHead) :=
  head ← head_manifest_from_proxy_cache repo_name reference;
  match head with
  | Some head => ret (Some head)
  | None => head_manifest_from_mirror_rule repo_name reference
  end.

Definition do_pull_blob (digest : Digest) (u : UpstreamRef) : io () :=
  _ ← ensure_auth u;
  resp ← get_blob u (digest_to_string digest);
  store_blob digest resp.

(** [do_pull_blob(..).map(|()| true)], or whether the pull waited for stored it. *)
Definition pull_blob_once (key : string) (digest : Digest) (u : UpstreamRef) : io bool :=
  deduplicated key (blob_exists digest) (_ ← do_pull_blob digest u; ret true).
Definition pull_blob_from_proxy_cache (repo_name : string) (digest : Digest) : io bool :=
  caches ← get_proxy_caches;
  match match_proxy_cache caches repo_name with
  | None => ret false
  | Some (cache, upstream_repo) =>
      pull_blob_once ("proxy-cache:blob:" +:+ repo_name +:+ ":" +:+ digest_to_string digest) digest
        (make_proxy_upstream_ref cache upstream_repo)
  end.
Definition pull_blob_from_mirror_rule (repo_name : string) (digest : Digest) : io bool :=
  rules ← get_rules;
  match match_rule rules repo_name with
  | None => ret false
  | Some (rule, upstream_repo) =>
      pull_blob_once ("blob:" +:+ digest_to_string digest) digest (make_upstream_ref rule upstream_repo)
  end.
Definition pull_blob (repo_name : string) (digest : Digest) : io bool :=
  pulled ← pull_blob_from_proxy_cache repo_name digest;
  match pulled with true => ret true | false => pull_blob_from_mirror_rule repo_name digest end.

(** * Validating cached tags *)

Definition validate_cached_proxy_tag_inner (local : ManifestEntry) (repo_name reference : string) (u : UpstreamRef)
    (target : ProxyCacheValidationTarget) : io ManifestEntry :=
  _ ← ensure_auth u;
  head ← head_manifest u reference;
  match head with
  | None => throw (ManifestUnknown [Disp reference])
  | Some head =>
      if bool_decide (digest_to_string (me_digest local) = mh_digest head) then
        _ ← record_proxy_cache_tag_validation (Some target) (mh_digest head);
        ret local
      else
        refreshed ← do_pull_after_head repo_name reference u Lazy (Some target) head;
        match refreshed with Some e => ret e | None => throw (ManifestUnknown [Disp reference]) end
  end.

(** The stored manifest, or else the one the request found. *)
Definition stored_or (local : ManifestEntry) (repo_name reference : string) : io (option ManifestEntry) :=
  e ← stored_manifest repo_name reference; ret (Some (default local e)).

Definition validate_cached_proxy_tag (repo_name reference : string) (local : ManifestEntry)
    : io (option ManifestEntry) :=
  caches ← get_proxy_caches;
  match match_proxy_cache caches repo_name with
  | None => ret None
  | Some (cache, upstream_repo) =>
      match for_reference (pc_id cache) repo_name reference with
      | None => ret None
      | Some target =>
          validation ← tag_validation (pc_id cache) repo_name reference;
          now ← match validation with Some _ => perform Now | None => ret 0%N end;
          if from_option (λ v, proxy_cache_tag_validation_is_fresh v (digest_to_string (me_digest local)) now)
               false validation
          then ret (Some local)
          else
            Eff (InflightEnter ("proxy-cache:validate:" +:+ vt_cache_id target +:+ ":" +:+ repo_name
                                  +:+ ":" +:+ reference)) (λ waited : bool,
            if waited then stored_or local repo_name reference
            else
              iobind (validate_cached_proxy_tag_inner local repo_name reference
                        (make_proxy_upstream_ref cache upstream_repo) target) (λ r,
                match r with
                | Panic => Fin Panic
                | _ =>
                    _ ← perform (InflightLeave ("proxy-cache:validate:" +:+ vt_cache_id target +:+ ":" +:+ repo_name
                                                  +:+ ":" +:+ reference));
                    match r with
                    | Ok entry => ret (Some entry)
                    | _ => stored_or local repo_name reference
                    end
                end))
      end
  end.

(** * Pushing *)

Fixpoint push_blobs (descs : list BlobDescriptor) (u : UpstreamRef) : io () :=
  match descs with
  | [] => ret ()
  | blob :: descs' =>
      match from_str_checked (bd_digest blob) with
      | None => push_blobs descs' u
      | Some digest =>
          found ← head_blob u (bd_digest blob);
          _ ← unless found
                (size ← blob_stat digest;
                 stream ← blob_get digest;
                 push_blob_stream u (bd_digest blob) size stream);
          push_blobs descs' u
      end
  end.

(** Children first, at most [depth] levels of indexes; more is a panic. *)
Fixpoint push_manifest_recursive (depth : nat) (repo_name reference : string) (entry : ManifestEntry)
    (u : UpstreamRef) : io () :=
  match depth with
  | 0 => Fin Panic
  | S depth' =>
      parsed ← match from_slice (me_body entry) with
               | Some v => ret v
               | None => throw (ManifestInvalid [Lit "invalid manifest JSON: "])
               end;
      _ ← (if is_index_manifest (me_content_type entry) then
             (fix children (l : list BlobDescriptor) : io () :=
                match l with
                | [] => ret ()
                | child :: l' =>
                    e ← stored_manifest repo_name (bd_digest child);
                    e ← Fin (ok_or (ManifestUnknown [Disp (bd_digest child)]) e);
                    _ ← push_manifest_recursive depth' repo_name (bd_digest child) e u;
                    children l'
                end) (extract_child_manifests parsed)
           else push_blobs (extract_blob_descriptors parsed) u);
      put_manifest_upstream u reference (me_body entry) (me_content_type entry)
  end.

Definition push_manifest_for_rule (rule_id reference : string) : io bool :=
  rule ← mirror_rule rule_id;
  match rule with
  | None => throw (NameUnknown [Disp rule_id])
  | Some rule =>
      match mr_direction rule with
      | DirPull => throw (NameInvalid [Lit "mirror rule "; Disp rule_id; Lit " is not a push rule"])
      | DirPush =>
          entry ← stored_manifest (mr_local_prefix rule) reference;
          match entry with
          | None => ret false
          | Some entry =>
              let u := make_upstream_ref rule (default_mirror_upstream_repo rule) in
              _ ← ensure_push_auth u;
              _ ← push_manifest_recursive rounds (mr_local_prefix rule) reference entry u;
              ret true
          end
      end
  end.
End mirror.
