(* ===== verification/Globs.v ===== *)
(** Tag patterns: [glob_matches] of the mirror accepts exactly the values a
    pattern denotes when every [*] stands for an arbitrary string. *)

From Stdlib Require Import Ascii.
From stdpp Require Import options.
From S2P Require Import Prelude Errors Mirror.

Inductive glob : string → string → Prop :=
  | glob_nil : glob "" ""
  | glob_char a p v : a ≠ "*"%char → glob p v → glob (String a p) (String a v)
  | glob_star p v : glob p v → glob (String "*" p) v
  | glob_more a p v : glob (String "*" p) v → glob (String "*" p) (String a v).

(** * Patterns as lists of pieces *)

(** The pieces after a star, in order with anything before each; the last piece ends the value. *)
Fixpoint stars (l : list string) (v : string) : Prop :=
  match l with
  | [] => False
  | [s] => ∃ x, v = x +:+ s
  | s :: l' => ∃ x y, v = x +:+ s +:+ y ∧ stars l' y
  end.
Definition pieces (l : list string) (v : string) : Prop :=
  match l with
  | [] => False
  | [s] => v = s
  | s :: l' => ∃ r, v = s +:+ r ∧ stars l' r
  end.

Lemma stars_cons s l v : l ≠ [] → stars (s :: l) v ↔ ∃ x y, v = x +:+ s +:+ y ∧ stars l y.
Proof. by destruct l. Qed.
Lemma pieces_cons s l v : l ≠ [] → pieces (s :: l) v ↔ ∃ r, v = s +:+ r ∧ stars l r.
Proof. by destruct l. Qed.

Lemma stars_app l x v : stars l v → stars l (x +:+ v).
Proof.
  destruct l as [|s [|s' l]]; [done|..].
  - intros [y ->]. exists (x +:+ y). by rewrite app_assoc_str.
  - rewrite !stars_cons by done. intros (y & z & -> & H). exists (x +:+ y), z. by rewrite app_assoc_str.
Qed.

(** A star in front: the pieces of the rest may start anywhere. *)
Lemma stars_pieces l v : l ≠ [] → stars l v ↔ ∃ x r, v = x +:+ r ∧ pieces l r.
Proof.
  intros Hl. destruct l as [|s [|s' l]]; [done|..].
  - simpl. split; [intros [x ->]; by eauto|intros (x & r & -> & ->); by eauto].
  - rewrite stars_cons by done. setoid_rewrite pieces_cons; [|done]. split.
    + intros (x & y & -> & H). by eauto 10.
    + intros (x & r & -> & y & -> & H). by eauto.
Qed.

Lemma pieces_char a s l v :
  pieces (String a s :: l) v ↔ ∃ v', v = String a v' ∧ pieces (s :: l) v'.
Proof.
  destruct l as [|s' l].
  - simpl. naive_solver.
  - rewrite !pieces_cons by done. setoid_rewrite pieces_cons; [|done]. split.
    + intros (r & -> & H). exists (s +:+ r). rewrite app_cons. by eauto.
    + intros (v' & -> & r & -> & H). exists r. by rewrite app_cons.
Qed.

Lemma glob_star_inv p v : glob (String "*" p) v ↔ ∃ x r, v = x +:+ r ∧ glob p r.
Proof.
  split.
  - intros H. remember (String "*" p) as q eqn:E. revert p E.
    induction H as [|a p' v Ha H IH|p' v H IH|a p' v H IH]; intros p E; simplify_eq.
    + exists "", v. by rewrite app_nil_l_str.
    + destruct (IH p eq_refl) as (x & r & -> & Hr). exists (String a x), r. by rewrite app_cons.
  - intros (x & r & -> & H). induction x as [|a x IH].
    + rewrite app_nil_l_str. by apply glob_star.
    + rewrite app_cons. by apply glob_more.
Qed.

Lemma glob_pieces p v : glob p v ↔ pieces (Str.split "*" p) v.
Proof.
  revert v. induction p as [|a p IH]; intros v.
  - simpl. split; [by inversion 1|]. intros ->. constructor.
  - simpl. case_decide as Ha.
    + subst a. rewrite glob_star_inv, pieces_cons by apply split_nonempty.
      assert (∀ v, glob p v ↔ pieces (Str.split "*" p) v) as IH' by done. setoid_rewrite IH'.
      rewrite <-stars_pieces by apply split_nonempty. split.
      * intros H. exists v. by rewrite app_nil_l_str.
      * intros (r & -> & H). by rewrite app_nil_l_str.
    + destruct (Str.split "*" p) as [|s l] eqn:E; [by destruct (split_nonempty "*" p)|].
      rewrite pieces_char. setoid_rewrite <-IH. split.
      * inversion 1; subst; [by eauto|done..].
      * intros (v' & -> & H). by constructor.
Qed.

(** * The greedy search *)

(** [l] occurs in [v] in order, without overlaps. *)
Fixpoint loose (l : list string) (v : string) : Prop :=
  match l with [] => True | s :: l' => ∃ x y, v = x +:+ s +:+ y ∧ loose l' y end.

Lemma loose_app l x v : loose l v → loose l (x +:+ v).
Proof.
  destruct l as [|s l]; [done|]. intros (y & z & -> & H). exists (x +:+ y), z. by rewrite app_assoc_str.
Qed.

(** The first occurrence leaves the longest rest. *)
Lemma after_first_Some part v r : after_first part v = Some r → ∃ x, v = x +:+ part +:+ r.
Proof.
  revert r. induction v as [|a v IH]; intros r; simpl; destruct (Str.strip_prefix part _) as [r'|] eqn:E;
    try (apply strip_prefix_Some in E; intros [= <-]; exists ""; by rewrite app_nil_l_str); [done|].
  intros [x ->]%IH. exists (String a x). by rewrite app_cons.
Qed.

Lemma shorter_suffix p q u w : p +:+ u = q +:+ w → String.length w ≤ String.length u → ∃ z, u = z +:+ w.
Proof.
  revert q. induction p as [|b p IH]; intros q E Hl.
  - rewrite app_nil_l_str in E. by exists q.
  - destruct q as [|c q].
    + rewrite app_nil_l_str, app_cons in E. subst w. simpl in Hl. rewrite length_app_str in Hl. lia.
    + rewrite !app_cons in E. injection E as -> E. by apply (IH q).
Qed.

Lemma after_first_longest part x y : ∃ z, after_first part (x +:+ part +:+ y) = Some (z +:+ y).
Proof.
  induction x as [|a x IH].
  - rewrite app_nil_l_str. exists "". rewrite app_nil_l_str.
    destruct (part +:+ y) as [|b s] eqn:E; simpl; rewrite <-E, strip_prefix_app; done.
  - rewrite app_cons. simpl. destruct (Str.strip_prefix part (String a (x +:+ part +:+ y))) as [r|] eqn:E.
    + apply strip_prefix_Some in E.
      assert (String.length y ≤ String.length r) as Hlen.
      { apply (f_equal String.length) in E. simpl in E. rewrite !length_app_str in E. lia. }
      rewrite <-!app_cons, <-app_assoc_str in E. symmetry in E.
      apply shorter_suffix in E as [z ->]; [by eauto|done].
    + destruct IH as [z Hz]. by exists z.
Qed.

Lemma loose_length l v s : loose l v → s ∈ l → String.length s ≤ String.length v.
Proof.
  revert v. induction l as [|t l IH]; intros v; [by intros _ ?%not_elem_of_nil|].
  intros (x & y & -> & H) [->|Hs]%elem_of_cons; rewrite !length_app_str; [lia|].
  specialize (IH y H Hs). lia.
Qed.

Lemma find_parts_loose l v : is_Some (find_parts l v) ↔ loose l v.
Proof.
  revert v. induction l as [|s l IH]; intros v; simpl; [split; [done|by eexists]|]. split.
  - intros [r (w & Hw & Hr)%bind_Some]. apply after_first_Some in Hw as [x ->]. exists x, w. split; [done|].
    apply IH. by eexists.
  - intros (x & y & -> & H). destruct (after_first_longest s x y) as [z ->]. simpl.
    by apply IH, loose_app.
Qed.

(** * Pieces without the empty ones *)

Abbreviation nonempty := (filter (λ p : string, p ≠ "")).

Lemma filter_nonempty_cons s l : nonempty (s :: l) = if decide (s = "") then nonempty l else s :: nonempty l.
Proof. rewrite filter_cons. repeat case_decide; naive_solver. Qed.

Lemma stars_nonempty l v : l ≠ [] →
  stars l v ↔ loose (nonempty l) v ∧ (last l = Some "" ∨ ∃ s x, last l = Some s ∧ v = x +:+ s).
Proof.
  revert v. induction l as [|s l IH]; intros v Hl; [done|]. rewrite filter_nonempty_cons.
  destruct l as [|s' l].
  - simpl. case_decide as Hs.
    + subst s. split; [by intros _; split; [|left]|]. intros _. exists v. by rewrite app_nil_r_str.
    + split.
      * intros [x ->]. split; [|by right; eauto]. exists x, "". by rewrite app_nil_r_str.
      * intros [_ [[= E]|(t & x & [= <-] & ->)]]; [done|by eauto].
  - rewrite stars_cons by done. change (last (s :: s' :: l)) with (last (s' :: l)).
    setoid_rewrite IH; [|done]. case_decide as Hs.
    + subst s. split.
      * intros (x & y & -> & Hy & Hend). rewrite app_nil_l_str. split; [by apply loose_app|].
        destruct Hend as [?|(t & z & ? & ->)]; [by left|right]. exists t, (x +:+ z). by rewrite app_assoc_str.
      * intros [Hv Hend]. exists "", v. by rewrite !app_nil_l_str.
    + split.
      * intros (x & y & -> & Hy & Hend). split; [by exists x, y|].
        destruct Hend as [?|(t & z & ? & ->)]; [by left|right]. exists t, (x +:+ s +:+ z).
        by rewrite !app_assoc_str.
      * intros [(x & y & -> & Hy) Hend]. exists x, y. split; [done|]. split; [done|].
        destruct Hend as [?|(t & z & Ht & E)]; [by left|].
        destruct (decide (t = "")) as [->|Hne]; [by left|]. right. exists t.
        rewrite <-app_assoc_str in E. apply shorter_suffix in E as [w ->]; [by eauto|].
        apply (loose_length (nonempty (s' :: l))); [done|]. apply list_elem_of_filter. split; [done|].
        by apply last_Some_elem_of.
Qed.


(** * The theorem *)

Lemma last_sep c p :
  Str.contains_char c p = true → ∃ x y, p = x +:+ String c y ∧ Str.contains_char c y = false.
Proof.
  induction p as [|a p IH]; [done|]. intros H. destruct (Str.contains_char c p) eqn:E.
  - destruct (IH eq_refl) as (x & y & -> & Hy). exists (String a x), y. by rewrite app_cons.
  - rewrite contains_char_cons, E, orb_false_r in H. apply bool_decide_eq_true in H as ->.
    exists "", p. by rewrite app_nil_l_str.
Qed.

Lemma split_first c p s l : Str.split c p = s :: l → p ≠ "" → Str.starts_with (String c "") p = bool_decide (s = "").
Proof.
  destruct p as [|a p]; [done|]. intros E _. rewrite starts_with_strip. simpl in E |- *. case_decide as Ha.
  - subst. injection E as <- _. rewrite decide_True by done. by rewrite !bool_decide_eq_true_2.
  - rewrite decide_False by congruence. rewrite bool_decide_eq_false_2 by (by intros [? ?]).
    destruct (Str.split c p); injection E as <- _; by rewrite bool_decide_eq_false_2.
Qed.

Lemma ends_with_sep c x y :
  Str.contains_char c y = false → Str.ends_with (String c "") (x +:+ String c y) = bool_decide (y = "").
Proof.
  intros Hy. apply eq_true_iff_eq. rewrite ends_with_true, bool_decide_eq_true. split.
  - intros [r E]. pose proof (f_equal (Str.split c) E) as Es. rewrite !split_app_gen in Es.
    rewrite (split_no_sep c y) in Es by done. apply (f_equal last) in Es. rewrite last_snoc in Es.
    change (Str.split c "") with [""] in Es. rewrite last_snoc in Es. by injection Es.
  - intros ->. by exists x.
Qed.

Lemma last_nonempty l t : last l = Some t → t ≠ "" → last (nonempty l) = Some t.
Proof.
  intros [l' ->]%last_Some Ht. rewrite filter_app, filter_nonempty_cons, decide_False by done.
  apply last_snoc.
Qed.

Lemma after_first_front s r : after_first s (s +:+ r) = Some r.
Proof. destruct (s +:+ r) eqn:E; simpl; by rewrite <-E, strip_prefix_app. Qed.

(** The last two tests of [glob_matches]: the parts are found, and the last one
    ends the value unless the pattern ends with a star. *)
Lemma found_stars l v : l ≠ [] →
  (is_Some (find_parts (nonempty l) v) ∧ (last l ≠ Some "" → ∃ t, last (nonempty l) = Some t ∧ Str.ends_with t v = true))
  ↔ stars l v.
Proof.
  intros Hl. rewrite stars_nonempty, find_parts_loose by done.
  destruct (last l) as [t|] eqn:E; [|by apply last_None in E].
  split; intros [H1 H2]; (split; [done|]).
  - destruct (decide (t = "")) as [->|Ht]; [by left|]. right.
    destruct H2 as (t' & Ht' & Hend); [congruence|]. rewrite (last_nonempty l t) in Ht' by done.
    injection Ht' as <-. apply ends_with_true in Hend as [x ->]. by eauto.
  - intros Ht. destruct H2 as [?|(t' & x & [= <-] & ->)]; [done|]. exists t.
    rewrite (last_nonempty l t) by (done || congruence). split; [done|]. apply ends_with_true. by eauto.
Qed.

(** Tag patterns mean what they say. [glob_matches] accepts a value exactly if
    the pattern matches it with every [*] standing for an arbitrary string and
    every other character for itself. *)
Theorem glob_matches_exact pattern value : glob_matches pattern value = true ↔ glob pattern value.
Proof.
  rewrite glob_pieces. unfold glob_matches. case_bool_decide as Hstar.
  { subst pattern. split; [|done]. intros _. exists value. split; [done|]. exists value. by rewrite app_nil_r_str. }
  destruct (Str.contains_char "*" pattern) eqn:Hc; cbn [negb].
  2: { rewrite split_no_sep by done. rewrite bool_decide_eq_true. simpl. naive_solver. }
  assert (pattern ≠ "") as Hne by (by intros ->).
  destruct (last_sep "*" pattern Hc) as (x & y & Ep & Hy).
  assert (∃ s0 l, Str.split "*" pattern = s0 :: l ∧ l ≠ [] ∧ last l = Some y) as (s0 & l & Es & Hl & Hlast).
  { rewrite Ep, split_app_gen, (split_no_sep "*" y) by done. pose proof (split_nonempty "*" x) as Hx.
    destruct (Str.split "*" x) as [|s0 l0]; [done|]. exists s0, (l0 ++ [y]). split; [done|].
    split; [by destruct l0|apply last_snoc]. }
  rewrite Es, (split_first "*" pattern s0 l) by done.
  assert (Str.ends_with "*" pattern = bool_decide (y = "")) as -> by (rewrite Ep; by apply ends_with_sep).
  rewrite pieces_cons by done. rewrite filter_nonempty_cons.
  assert (y ≠ "" → last (nonempty l) = Some y) as Hln by (intros; by apply last_nonempty).
  case_decide as Hs0.
  - subst s0. rewrite bool_decide_eq_true_2 by done. cbn [negb andb].
    assert ((∃ r, value = "" +:+ r ∧ stars l r) ↔ stars l value) as -> by (split; [by intros (r & -> & ?)|by eauto]).
    rewrite <-found_stars, Hlast by done. destruct (nonempty l) as [|first ps] eqn:En.
    + destruct (decide (y = "")) as [->|Hy']; [|by specialize (Hln Hy')]. split; [|done]. intros _. split; [by eexists|done].
    + destruct (find_parts (first :: ps) value) as [w|] eqn:Ef; [|split; [done|by intros [[? ?] _]]].
      destruct (last (first :: ps)) as [t|] eqn:El; [|by apply last_None in El]. case_bool_decide as Hy'; cbn [negb].
      * subst y. split; [|done]. intros _. split; [by eexists|done].
      * specialize (Hln Hy'). injection Hln as ->. split.
        -- intros He. split; [by eexists|]. intros _. by exists y.
        -- intros [_ H]. destruct H as (t & [= <-] & H); [congruence|done].
  - rewrite (bool_decide_eq_false_2 (s0 = "")) by done. cbn [negb andb].
    destruct (Str.starts_with s0 value) eqn:Est; cbn [negb].
    2: { split; [done|]. intros (r & -> & _). by rewrite starts_with_app in Est. }
    apply starts_with_true in Est as [r ->].
    assert ((∃ r0, s0 +:+ r = s0 +:+ r0 ∧ stars l r0) ↔ stars l r) as ->.
    { split; [|by eauto]. intros (r0 & E & ?). apply (f_equal (Str.strip_prefix s0)) in E.
      rewrite !strip_prefix_app in E. by injection E as ->. }
    cbn [find_parts]. rewrite after_first_front. cbn [mbind option_bind].
    rewrite <-found_stars, Hlast by done.
    destruct (find_parts (nonempty l) r) as [w|] eqn:Ef; [|split; [done|by intros [[? ?] _]]].
    destruct (decide (y = "")) as [->|Hy'].
    + rewrite bool_decide_eq_true_2 by done. cbn [negb]. split; [intros _; split; [by eexists|done]|].
      intros _. by destruct (last (s0 :: nonempty l)).
    + rewrite bool_decide_eq_false_2 by done. specialize (Hln Hy'). cbn [negb].
      assert (last (s0 :: nonempty l) = Some y) as ->.
      { destruct (nonempty l); [done|]. exact Hln. }
      rewrite Hln. split.
      * intros [z E]%ends_with_true. split; [by eexists|]. intros _. exists y. split; [done|].
        apply ends_with_true. apply shorter_suffix in E as [w' ->]; [by exists w'|].
        apply (loose_length (nonempty l)); [by apply find_parts_loose; eexists|]. by apply last_Some_elem_of.
      * intros [_ H]. destruct H as (t & [= <-] & He); [congruence|]. apply ends_with_true in He as [z ->].
        apply ends_with_true. exists (s0 +:+ z). by rewrite app_assoc_str.
Qed.
