(* ===== verification/Pulls.v ===== *)
(** What pulls from an upstream registry guarantee: which rule answers for a
    repository, how often a request is retried, that an image is recorded only
    after its blobs are stored, and that a cached tag survives an upstream that
    fails. *)

From Stdlib Require Import Ascii.
From stdpp Require Import options.
From S2P Require Import Prelude Errors Digests Manifests Permissions SyncRuns Types StateMachine Samples S3Client Io.
From S2P Require Import Upstream Mirror.

(** * Selection of a rule or cache *)

Section selection.
Context {A : Type} (eligible : A → bool) (local_prefix : A → string) (upstream_prefix : A → option string).
Context (repo : string).

(** [x] answers for the repository with the upstream repository [up]. *)
Definition answers_for (x : A) (up : string) : Prop :=
  eligible x = true ∧ ∃ suffix, (repo = local_prefix x ∧ suffix = "" ∨ repo = local_prefix x +:+ "/" +:+ suffix) ∧
    upstream_repo_from_prefix (upstream_prefix x) suffix = Some up.

Lemma prefix_suffix_Some prefix suffix :
  prefix_suffix repo prefix = Some suffix →
  repo = prefix ∧ suffix = "" ∨ repo = prefix +:+ "/" +:+ suffix.
Proof.
  unfold prefix_suffix. case_bool_decide; [intros [= <-]; by left|].
  intros (s & Hs & Hr)%bind_Some. apply strip_prefix_Some in Hs as ->. apply strip_prefix_Some in Hr as ->. by right.
Qed.
Lemma prefix_suffix_complete prefix suffix :
  repo = prefix ∧ suffix = "" ∨ repo = prefix +:+ "/" +:+ suffix → prefix_suffix repo prefix = Some suffix.
Proof.
  unfold prefix_suffix. intros [[-> ->]| ->]; [by rewrite bool_decide_eq_true_2|].
  rewrite bool_decide_eq_false_2.
  - rewrite strip_prefix_app. apply strip_prefix_app.
  - intros E. apply (f_equal String.length) in E. rewrite !length_app_str in E. simpl in E. lia.
Qed.

Definition candidate (x : A) : option string :=
  if eligible x then
    suffix ← prefix_suffix repo (local_prefix x); upstream_repo_from_prefix (upstream_prefix x) suffix
  else None.
Lemma candidate_Some x up : candidate x = Some up ↔ answers_for x up.
Proof.
  unfold candidate, answers_for. destruct (eligible x); [|naive_solver]. rewrite bind_Some. split.
  - intros (s & Hs%prefix_suffix_Some & Hu). by eauto.
  - intros [_ (s & Hs%prefix_suffix_complete & Hu)]. by eauto.
Qed.

(** [x] is the best of [l]: the longest prefix, the first among equals. *)
Definition best_of (l : list A) (x : A) (up : string) : Prop :=
  answers_for x up ∧ ∃ l1 l2, l = l1 ++ x :: l2 ∧
    (∀ y up', y ∈ l1 → answers_for y up' → String.length (local_prefix y) < String.length (local_prefix x)) ∧
    (∀ y up', y ∈ l2 → answers_for y up' → String.length (local_prefix y) ≤ String.length (local_prefix x)).

Lemma best_match_spec l best done :
  match best with
  | Some (x, up) => best_of done x up
  | None => ∀ y up, y ∈ done → ¬ answers_for y up
  end →
  match best_match eligible local_prefix upstream_prefix repo l best with
  | Some (x, up) => best_of (done ++ l) x up
  | None => ∀ y up, y ∈ done ++ l → ¬ answers_for y up
  end.
Proof.
  revert best done. induction l as [|x l IH]; intros best done Hb; [by rewrite app_nil_r|].
  rewrite (cons_middle x done l), app_assoc. cbn [best_match]. apply IH.
  fold (candidate x). destruct (candidate x) as [up|] eqn:Hc.
  - pose proof (proj1 (candidate_Some x up) Hc) as Hx. destruct best as [[y upy]|].
    + destruct Hb as (Hy & l1 & l2 & -> & H1 & H2). case_bool_decide as Hlt.
      * split; [done|]. exists (l1 ++ y :: l2), []. split; [done|]. split; [|by intros ? ? ?%not_elem_of_nil].
        intros z up' [Hz|[->|Hz]%elem_of_cons]%elem_of_app Hz'; [|done|].
        -- specialize (H1 z up' Hz Hz'). lia.
        -- specialize (H2 z up' Hz Hz'). lia.
      * split; [done|]. exists l1, (l2 ++ [x]). split; [by rewrite <-app_assoc|]. split; [done|].
        intros z up' [Hz|Hz]%elem_of_app Hz'; [by eauto|]. apply list_elem_of_singleton in Hz as ->. lia.
    + split; [done|]. exists done, []. split; [done|]. split; [by intros z up' Hz ?%(Hb z up' Hz)|].
      by intros ? ? ?%not_elem_of_nil.
  - assert (∀ up, ¬ answers_for x up) as Hx by (intros up H%candidate_Some; congruence).
    destruct best as [[y upy]|].
    + destruct Hb as (Hy & l1 & l2 & -> & H1 & H2). split; [done|]. exists l1, (l2 ++ [x]).
      split; [by rewrite <-app_assoc|]. split; [done|].
      intros z up' [Hz|Hz]%elem_of_app Hz'; [by eauto|]. apply list_elem_of_singleton in Hz as ->. by destruct (Hx up').
    + intros z up [Hz|Hz]%elem_of_app Hz'; [by eapply Hb|]. apply list_elem_of_singleton in Hz as ->. by eapply Hx.
Qed.
End selection.

(** The mirror rule or proxy cache that answers for a repository has a local
    prefix that is the repository itself or a leading sequence of its path
    segments, and an upstream repository for it; among those it has the longest
    prefix and comes first, push rules apart; and if none is chosen there is none. *)
Theorem longest_prefix_answers rules caches repo :
  match match_rule rules repo with
  | Some (rule, up) => best_of is_pull_rule mr_local_prefix mr_upstream_prefix repo rules rule up
  | None => ∀ rule up, rule ∈ rules → ¬ answers_for is_pull_rule mr_local_prefix mr_upstream_prefix repo rule up
  end ∧
  match match_proxy_cache caches repo with
  | Some (cache, up) => best_of (λ _, true) pc_local_prefix pc_upstream_prefix repo caches cache up
  | None => ∀ cache up, cache ∈ caches → ¬ answers_for (λ _, true) pc_local_prefix pc_upstream_prefix repo cache up
  end.
Proof.
  split.
  - apply (best_match_spec is_pull_rule mr_local_prefix mr_upstream_prefix repo rules None []).
    by intros ? ? ?%not_elem_of_nil.
  - apply (best_match_spec (λ _, true) pc_local_prefix pc_upstream_prefix repo caches None []).
    by intros ? ? ?%not_elem_of_nil.
Qed.

(** * Challenges *)

Definition quotable (s : string) : Prop := Str.contains_char quote_char s = false.

(** The value of a quoted parameter. *)
Lemma param_value_quoted v rest :
  quotable v → param_value (String quote_char (v +:+ String quote_char rest)) = (v, rest).
Proof.
  intros Hv. unfold param_value. cbn [Str.strip_prefix]. case_decide; [|done]. cbn iota beta.
  by rewrite (proj2 (split_once_Some quote_char _ v rest)).
Qed.
Lemma challenge_step fuel input key v rest r s :
  Str.is_empty input = false → quotable v →
  Str.split_once "=" (skip_separators input) = Some (key, String quote_char (v +:+ String quote_char rest)) →
  challenge_params (S fuel) input r s =
    challenge_params fuel rest (if bool_decide (Str.trim key = "realm") then Some v else r)
      (if bool_decide (Str.trim key = "service") then Some v else s).
Proof. intros He Hv Hk. cbn [challenge_params]. by rewrite He, Hk, (param_value_quoted v rest Hv). Qed.

(** A parameter of the header, as it is printed. *)
Definition printed (label : string) (v : option string) : string :=
  match v with Some x => label +:+ String quote_char (x +:+ String quote_char "") | None => "" end.
Lemma app_printed x rest : String quote_char (x +:+ String quote_char "") +:+ rest
  = String quote_char (x +:+ String quote_char rest).
Proof. by rewrite app_cons, app_assoc_str. Qed.

Lemma challenge_scope fuel v r s :
  from_option quotable True v → challenge_params (S (S fuel)) (printed ",scope=" v) r s = (r, s).
Proof. destruct v as [v|]; [|done]. intros Hv. by rewrite (challenge_step _ _ "scope" v "" r s). Qed.
Lemma challenge_service fuel v rest r :
  from_option quotable True v →
  challenge_params (S fuel) (printed ",service=" v +:+ rest) r None
  = challenge_params (if v is Some _ then fuel else S fuel) rest r v.
Proof.
  destruct v as [v|]; [|done]. intros Hv. unfold printed. rewrite app_assoc_str, app_printed.
  by rewrite (challenge_step _ _ "service" v rest r None).
Qed.

(** What the server asks for is what the client of another server reads: the
    challenge in the [WWW-Authenticate] header of an error is parsed back to its
    realm and service, as long as the parameters have no quote in them. *)
Theorem challenge_roundtrip m realm service scope :
  quotable realm → from_option quotable True service → from_option quotable True scope →
  ∃ header, www_authenticate (Unauthorized m (Some realm) service scope) = Some header ∧
    parse_bearer_challenge header = Ok (MkBearerChallenge realm service).
Proof.
  intros Hr Hs Hc. eexists. split; [done|].
  change (parse_bearer_challenge ("Bearer " +:+ ("realm=" +:+ String quote_char (realm +:+ String quote_char "")) +:+
    (printed ",service=" service +:+ printed ",scope=" scope)) = Ok (MkBearerChallenge realm service)).
  unfold parse_bearer_challenge. rewrite strip_prefix_app. cbn [default from_option].
  rewrite app_assoc_str, app_printed. set (tail := printed ",service=" service +:+ _).
  set (fuel := String.length _). assert (∃ n, fuel = S (S (S n))) as [n ->] by (eexists; reflexivity).
  rewrite (challenge_step _ _ "realm" realm tail) by done. subst tail.
  rewrite bool_decide_eq_true_2, bool_decide_eq_false_2 by done. rewrite challenge_service by done.
  destruct service; by rewrite challenge_scope.
Qed.

(** * Reasoning about programs *)

Section programs.
Context `{SJ : SerdeJson}.

(** What a program may do, given what it did: [allowed h e a] holds of every
    effect [e] after the history [h], provided the answers satisfy [calm]. *)
Section discipline.
Context (allowed : trace → event → Prop) (calm : ∀ e, answer e → Prop).

Fixpoint obeys {A} (h : trace) (p : io A) (Q : result A → trace → Prop) : Prop :=
  match p with
  | Fin r => Q r h
  | Eff e k => allowed h e ∧ ∀ a, calm e a → obeys (h ++ [existT e a]) (k a) Q
  end.

Lemma obeys_iobind {A B} (p : io A) (f : result A → io B) h Q :
  obeys h (iobind p f) Q ↔ obeys h p (λ r h', obeys h' (f r) Q).
Proof. revert h. induction p as [r|e k IH]; intros h; simpl; [done|]. by setoid_rewrite IH. Qed.

Lemma obeys_bind {A B} (p : io A) (f : A → io B) h (Q : result B → trace → Prop) :
  obeys h p (λ r h', match r with
    | Ok a => obeys h' (f a) Q | Err e => Q (Err e) h' | Panic => Q Panic h' end) →
  obeys h (p ≫= f) Q.
Proof.
  intros H. unfold mbind, io_mbind. apply obeys_iobind. revert h H.
  induction p as [r|e k IH]; intros h; simpl; [by destruct r|]. intros [? H]. split; [done|]. intros a Ha. by apply IH, H.
Qed.

Lemma obeys_impl {A} (p : io A) h (Q Q' : result A → trace → Prop) :
  obeys h p Q → (∀ r h', Q r h' → Q' r h') → obeys h p Q'.
Proof.
  intros H HQ. revert h H. induction p as [r|e k IH]; intros h; simpl; [apply HQ|].
  intros [? H]. split; [done|]. intros a Ha. by apply IH, H.
Qed.

Definition calm_trace (tr : trace) : Prop := ∀ i e a, tr !! i = Some (existT e a) → calm e a.

Lemma obeys_runs {A} (p : io A) h Q tr r :
  obeys h p Q → runs p tr r → calm_trace tr →
  Q r (h ++ tr) ∧ ∀ i e a, tr !! i = Some (existT e a) → allowed (h ++ take i tr) e.
Proof.
  revert h tr. induction p as [r0|e k IH]; intros h tr; simpl.
  - intros HQ [-> ->] _. rewrite app_nil_r. split; [done|]. by intros [].
  - intros [He Hk] (a & tr' & -> & Hrun) Hc.
    destruct (IH a (h ++ [existT e a]) tr') as [HQ Hall]; [|done|..].
    + apply Hk. by apply (Hc 0).
    + intros i. exact (Hc (S i)).
    + split; [by rewrite <-app_assoc in HQ|]. intros [|i] e' a' Hi; simpl in *.
      * injection Hi as <- _. by rewrite app_nil_r.
      * apply Hall in Hi. by rewrite <-app_assoc in Hi.
Qed.
End discipline.

(** The answers of stores that do not panic. *)
Definition calm_result {A} (r : result A) : Prop := r ≠ Panic.
Definition calm_answer (e : event) : answer e → Prop :=
  match e with
  | BlobStat _ | BlobGet _ | BlobPutStreaming _ _ | GetManifest _ _ | MetaPutManifest _ _ _ | ListMirrorRules
  | GetMirrorRule _ | ListProxyCaches | GetProxyCache _ | ListTags _ | ListManifestSummaries _
  | GetTagValidation _ _ _ | PutTagValidation _ | ListWarmImages | ListSyncJobs | PutSyncJob _ | DeleteSyncJob _
  | ClaimSyncJob _ _ | PutSyncJobRun _ | BlobLifecycle _ | RecordBlobDelete _ | BlobGetRange _ _ _
  | PresignedUrl _ => calm_result
  | _ => λ _, True
  end.

(** Programs of the client: HTTP, waiting and the token cache, and no panic. *)
Definition client_event (e : event) : Prop :=
  match e with Http _ | Sleep _ | TokenGet _ | TokenPut _ _ | TokenRemove _ => True | _ => False end.
Fixpoint client {A} (p : io A) : Prop :=
  match p with Fin r => r ≠ Panic | Eff e k => client_event e ∧ ∀ a, client (k a) end.

Lemma client_iobind {A B} (p : io A) (f : result A → io B) :
  client p → (∀ r, r ≠ Panic → client (f r)) → client (iobind p f).
Proof. intros Hp Hf. induction p as [r|e k IH]; simpl in *; [auto|]. destruct Hp as [? Hk]. split; [done|]. auto. Qed.
Lemma client_bind {A B} (p : io A) (f : A → io B) : client p → (∀ a, client (f a)) → client (p ≫= f).
Proof. intros Hp Hf. apply client_iobind; [done|]. by intros [a|e|] Hr; [apply Hf|..]. Qed.

Lemma client_obeys {A} allowed calm (p : io A) h :
  client p → (∀ h e, client_event e → allowed h e) →
  obeys allowed calm h p (λ r h', r ≠ Panic ∧ ∃ t, h' = h ++ t).
Proof.
  intros Hp Ha. revert h. induction p as [r|e k IH]; intros h; simpl in *.
  - split; [done|]. exists []. by rewrite app_nil_r.
  - destruct Hp as [He Hk]. split; [by apply Ha|]. intros a _. eapply obeys_impl; [by apply IH|].
    intros r h' [? [t ->]]. split; [done|]. exists (existT e a :: t). by rewrite <-app_assoc.
Qed.

(** What a program spends on its effects, at a price per effect, is at most [n]. *)
Section budget.
Context (price : event → N).

Fixpoint spends {A} (n : N) (p : io A) : Prop :=
  match p with
  | Fin _ => True
  | Eff e k => (price e ≤ n)%N ∧ ∀ a, spends (n - price e) (k a)
  end.
Fixpoint spent (tr : trace) : N :=
  match tr with [] => 0 | existT e _ :: tr' => price e + spent tr' end.

Lemma spends_mono {A} n m (p : io A) : (n ≤ m)%N → spends n p → spends m p.
Proof.
  revert n m. induction p as [r|e k IH]; intros n m Hle; simpl; [done|].
  intros [He Hk]. split; [lia|]. intros a. eapply IH; [|by apply Hk]. lia.
Qed.
Lemma spends_iobind {A B} n m (p : io A) (f : result A → io B) :
  spends n p → (∀ r, spends m (f r)) → spends (n + m) (iobind p f).
Proof.
  revert n. induction p as [r|e k IH]; intros n; simpl.
  - intros _ Hf. apply (spends_mono m); [lia|done].
  - intros [He Hk] Hf. split; [lia|]. intros a. apply (spends_mono (n - price e + m)); [lia|]. by apply IH.
Qed.
Lemma spends_bind {A B} n m (p : io A) (f : A → io B) :
  spends n p → (∀ a, spends m (f a)) → spends (n + m) (p ≫= f).
Proof. intros Hp Hf. apply spends_iobind; [done|]. by intros [a|e|]. Qed.
Lemma spends_then {A B} n (p : io A) (f : A → io B) :
  spends 0 p → (∀ a, spends n (f a)) → spends n (p ≫= f).
Proof. intros Hp Hf. by apply (spends_bind 0 n). Qed.
Lemma spends_eff {A} n e (k : answer e → io A) :
  (∀ a, spends n (k a)) → spends (price e + n) (Eff e k).
Proof. intros Hk. split; [lia|]. intros a. apply (spends_mono n); [lia|done]. Qed.

Lemma spends_runs {A} n (p : io A) tr r : spends n p → runs p tr r → (spent tr ≤ n)%N.
Proof.
  revert n tr. induction p as [r0|e k IH]; intros n tr; simpl.
  - intros _ [-> _]. simpl. lia.
  - intros [He Hk] (a & tr' & -> & Hrun). simpl. specialize (IH a _ tr' (Hk a) Hrun). lia.
Qed.
End budget.
End programs.

(** * The client *)

Section client.
Context `{SJ : SerdeJson, HL : HttpLib, EX : Externals}.

Lemma check_client {A} (e : option A) f : client (check e f).
Proof. by destruct e. Qed.
Lemma build_client proxy tls : client (build_http_client proxy tls).
Proof.
  apply client_bind; [|intros _; apply check_client]. destruct proxy as [p|]; simpl; [|done].
  unfold proxy_settings. destruct (op_protocol p); [done|..]; destruct (op_url p); try done;
    destruct (Str.is_empty _); try done; apply check_client.
Qed.
Lemma http_client u : client (http u).
Proof. unfold http. destruct (op_protocol _); [destruct (up_insecure_tls u); [|done]|..]; apply build_client. Qed.

Lemma plain_get_client u url what : client (plain_get u url what).
Proof.
  apply client_bind; [apply http_client|]. intros _. apply client_bind; [apply check_client|]. intros _.
  split; [done|]. by intros [].
Qed.
Lemma error_for_status_client resp prefix : client (error_for_status resp prefix).
Proof. unfold error_for_status. by case_bool_decide. Qed.

Lemma parse_challenge_calm h : parse_bearer_challenge h ≠ Panic.
Proof.
  unfold parse_bearer_challenge. destruct (challenge_params _ _ _ _) as [[r|] s]; simpl; done.
Qed.
Lemma token_response_client resp : client (token_response resp).
Proof. unfold token_response. destruct (collect _); [done|]. by destruct (from_slice _). Qed.
Lemma fetch_token_client w scope u : client (fetch_token w scope u).
Proof.
  apply client_bind; [apply parse_challenge_calm|]. intros c.
  apply client_bind; [apply plain_get_client|]. intros r1.
  apply client_bind; [apply error_for_status_client|]. intros r2.
  apply client_bind; [apply token_response_client|]. intros v. simpl. by destruct (mbind _ _).
Qed.
Lemma ensure_auth_scope_client u scope : client (ensure_auth_scope u scope).
Proof.
  apply client_bind; [apply plain_get_client|]. intros resp. case_bool_decide; [|done]. simpl.
  destruct (_ !! "www-authenticate"); [|done]. apply client_bind; [apply fetch_token_client|]. intros t. by split.
Qed.

Lemma retry_round_client u q n : client (retry_round u q n).
Proof.
  apply client_bind; [destruct n; by repeat split|]. intros _.
  apply client_bind; [apply http_client|]. intros _.
  do 2 (apply client_bind; [apply check_client|]; intros _).
  apply client_bind; [by split|]. intros auth. apply client_bind; [apply check_client|]. intros _.
  apply client_bind; [by split|]. intros [[m|m]|resp]; [by case_bool_decide|done|].
  destruct (_ && _).
  - apply client_iobind; [|by intros []]. apply client_bind; [by split|]. intros _. apply ensure_auth_scope_client.
  - by destruct (_ && _).
Qed.
Lemma retry_loop_client rounds n u q last : client (retry_loop rounds n u q last).
Proof.
  revert n last. induction rounds as [|rounds IH]; intros n last; simpl; [done|].
  apply client_bind; [apply retry_round_client|]. by intros [e|resp].
Qed.
Lemma get_manifest_client u ref : client (get_manifest u ref).
Proof.
  apply client_bind; [apply retry_loop_client|]. intros resp.
  apply client_bind; [apply error_for_status_client|]. intros r. by destruct (collect _).
Qed.
Lemma head_manifest_client u ref : client (head_manifest u ref).
Proof.
  apply client_bind; [apply retry_loop_client|]. intros resp. case_bool_decide; [|by case_bool_decide].
  case_match; [done|]. apply client_bind; [apply get_manifest_client|done].
Qed.
Lemma get_blob_client u dg : client (get_blob u dg).
Proof. apply client_bind; [apply retry_loop_client|]. intros resp. apply error_for_status_client. Qed.

(** ** Retries *)

(** One unit per request sent, and the milliseconds of the waits. *)
Definition request_price (e : event) : N := match e with Http _ => 1 | _ => 0 end.
Definition wait_price (e : event) : N := match e with Sleep ms => ms | _ => 0 end.
Definition requests : trace → N := spent request_price.
Definition waited : trace → N := spent wait_price.

Section prices.
Context (price : event → N) (send : N).
Context (Hsend : ∀ q, price (Http q) = send) (Hfree : ∀ e, client_event e →
  match e with Http _ | Sleep _ => True | _ => price e = 0%N end).

Lemma check_spends {A} (e : option A) f n : spends price n (check e f).
Proof. by destruct e. Qed.
Lemma http_spends u : spends price 0 (http u).
Proof.
  assert (∀ p t, spends price 0 (build_http_client p t)) as H.
  { intros p t. apply spends_then; [|intros; apply check_spends]. destruct p as [p|]; [|done]. simpl.
    unfold proxy_settings. destruct (op_protocol p); [done|..]; destruct (op_url p); try done;
      destruct (Str.is_empty _); try done; apply check_spends. }
  unfold http. destruct (op_protocol _); [destruct (up_insecure_tls u); [|done]|..]; apply H.
Qed.
Lemma plain_get_spends u url what : spends price send (plain_get u url what).
Proof using Hsend.
  apply spends_then; [apply http_spends|]. intros _. apply spends_then; [apply check_spends|]. intros _.
  simpl. rewrite Hsend. split; [lia|done].
Qed.
Lemma fetch_token_spends w scope u : spends price send (fetch_token w scope u).
Proof using Hsend.
  apply spends_then; [done|]. intros c.
  rewrite <-(N.add_0_r send). apply spends_bind; [apply plain_get_spends|]. intros r.
  apply spends_then; [unfold error_for_status; by case_bool_decide|]. intros r'.
  apply spends_then; [unfold token_response; destruct (collect _); [done|]; by destruct (from_slice _)|].
  intros v. simpl. by destruct (mbind _ _).
Qed.
Lemma refresh_spends u scope : spends price (send + send) (refresh_auth u scope).
Proof using Hsend Hfree.
  assert (∀ a b, price (TokenPut a b) = 0%N) as Hput by (intros a b; by apply (Hfree (TokenPut a b))).
  assert (∀ a, price (TokenRemove a) = 0%N) as Hrem by (intros a; by apply (Hfree (TokenRemove a))).
  apply spends_then; [simpl; by rewrite Hrem|]. intros _.
  apply spends_bind; [apply plain_get_spends|]. intros resp. case_bool_decide; [|done]. simpl.
  destruct (_ !! "www-authenticate"); [|done].
  rewrite <-(N.add_0_r send). apply spends_bind; [apply fetch_token_spends|].
  intros t. simpl. by rewrite Hput.
Qed.

(** A round: its wait, its request and, unless it is the last, a refresh. *)
Definition round_price (attempt : nat) : N :=
  match attempt with 0 => 0 | S n => price (Sleep (INITIAL_BACKOFF_MS * 2 ^ N.of_nat n)) end
  + (send + if bool_decide (attempt < MAX_RETRIES) then send + send else 0).
Lemma round_spends u q n : spends price (round_price n) (retry_round u q n).
Proof using Hsend Hfree.
  assert (∀ a, price (TokenGet a) = 0%N) as Hget by (intros a; by apply (Hfree (TokenGet a))).
  apply spends_bind; [destruct n as [|n]; [done|]; simpl; split; [lia|done]|]. intros _.
  apply spends_then; [apply http_spends|]. intros _.
  do 2 (apply spends_then; [apply check_spends|]; intros _).
  apply spends_then; [simpl; by rewrite Hget|]. intros auth. apply spends_then; [apply check_spends|]. intros _.
  apply spends_bind; [simpl; rewrite Hsend; split; [lia|done]|].
  intros [[m|m]|resp]; [by case_bool_decide|done|].
  destruct (bool_decide (n < MAX_RETRIES)); [rewrite !andb_true_r|by rewrite !andb_false_r].
  case_bool_decide; [|by destruct (is_retryable _)].
  rewrite <-(N.add_0_r (send + send)). apply spends_iobind; [apply refresh_spends|]. by intros [].
Qed.
Fixpoint rounds_price (rounds attempt : nat) : N :=
  match rounds with 0 => 0 | S rounds' => round_price attempt + rounds_price rounds' (S attempt) end.
Lemma loop_spends rounds n u q last : spends price (rounds_price rounds n) (retry_loop rounds n u q last).
Proof using Hsend Hfree.
  revert n last. induction rounds as [|rounds IH]; intros n last; simpl; [done|].
  apply spends_bind; [apply round_spends|]. by intros [e|resp].
Qed.
End prices.

(** C32: a request to an upstream, retried: whatever the upstream answers, the loop
    ends with a response or an error after at most 16 HTTP requests (6 attempts,
    and for each but the last a probe and a token fetch) and at most 6.2 seconds of
    waiting. *)
Theorem retry_bounded u q tr r :
  runs (retry_with_body u q) tr r → r ≠ Panic ∧ (requests tr ≤ 16)%N ∧ (waited tr ≤ 6200)%N.
Proof.
  intros Hrun. split_and!.
  - pose proof (client_obeys (λ _ _, True) (λ _ _, True) _ [] (retry_loop_client (S MAX_RETRIES) 0 u q None)
      (λ _ _ _, I)) as Ho.
    destruct (obeys_runs _ _ _ _ _ _ _ Ho Hrun) as [[? _] _]; [|done]. by intros ? ? ? ?.
  - apply (spends_runs request_price _ _ _ _ (loop_spends request_price 1 (λ _, eq_refl) ltac:(by intros []) _ _ u q None) Hrun).
  - apply (spends_runs wait_price _ _ _ _ (loop_spends wait_price 0 (λ _, eq_refl) ltac:(by intros []) _ _ u q None) Hrun).
Qed.
End client.

(** * Images are recorded after their blobs *)

Section order.
Context `{SJ : SerdeJson, HL : HttpLib, EX : Externals}.

(** The blob store said that it has the blob, or took it. *)
Definition blob_seen (h : trace) (dg : Digest) : Prop :=
  (∃ n, existT (BlobStat dg) (Ok n) ∈ h) ∨ (∃ s, existT (BlobPutStreaming dg s) (Ok tt) ∈ h).
Definition image_ready (h : trace) (parsed : Value) : Prop :=
  ∀ d dg, d ∈ extract_blob_descriptors parsed → from_str_checked (bd_digest d) = Some dg → blob_seen h dg.
Definition image_allowed (h : trace) (e : event) : Prop :=
  match e with
  | MetaPutManifest _ _ entry =>
      is_index_manifest (me_content_type entry) = false →
      ∀ parsed, from_slice (me_body entry) = Some parsed → image_ready h parsed
  | _ => True
  end.

Abbreviation keeps := (obeys image_allowed (λ _ _, True)).
Definition orderly {A} (p : io A) : Prop := ∀ h, keeps h p (λ _ _, True).

Lemma blob_seen_mono h h' dg : h ⊆ h' → blob_seen h dg → blob_seen h' dg.
Proof. intros Hs [[n ?]|[s ?]]; [left; exists n|right; exists s]; by apply Hs. Qed.
Lemma image_ready_mono h h' v : h ⊆ h' → image_ready h v → image_ready h' v.
Proof. intros Hs Hr d dg Hd Hdg. by eapply blob_seen_mono, Hr. Qed.

Lemma orderly_iobind {A B} (p : io A) (f : result A → io B) :
  orderly p → (∀ r, orderly (f r)) → orderly (iobind p f).
Proof. intros Hp Hf h. apply obeys_iobind. eapply obeys_impl; [apply Hp|]. intros r h' _. apply Hf. Qed.
Lemma orderly_bind {A B} (p : io A) (f : A → io B) : orderly p → (∀ a, orderly (f a)) → orderly (p ≫= f).
Proof. intros Hp Hf. apply orderly_iobind; [done|]. by intros [a|e|]. Qed.
Lemma orderly_eff {A} e (k : answer e → io A) :
  (∀ h, image_allowed h e) → (∀ a, orderly (k a)) → orderly (Eff e k).
Proof. intros He Hk h. split; [done|]. intros a _. apply Hk. Qed.
Lemma orderly_client {A} (p : io A) : client p → orderly p.
Proof. intros Hp h. eapply obeys_impl; [apply (client_obeys image_allowed _ _ h Hp)|done]. by intros ? []. Qed.

(** A program of the client, with what it leaves behind. *)
Lemma keeps_client {A} (p : io A) h (Q : result A → trace → Prop) :
  client p → (∀ r h', h ⊆ h' → Q r h') → keeps h p Q.
Proof.
  intros Hp HQ. eapply obeys_impl; [apply (client_obeys image_allowed _ _ h Hp); by intros ? []|].
  intros r h' [_ [t ->]]. apply HQ. intros x. rewrite elem_of_app. by left.
Qed.

Lemma sub_snoc (h : trace) x : h ⊆ h ++ [x].
Proof. intros y. rewrite elem_of_app. by left. Qed.
Lemma in_snoc (h : trace) x : x ∈ h ++ [x].
Proof. apply elem_of_app. right. by apply list_elem_of_singleton. Qed.

Lemma fetch_blob_keeps digest (found : bool) u url h :
  (found = true → blob_seen h digest) →
  keeps h (unless found (resp ← get_blob u url; store_blob digest resp))
    (λ r h', h ⊆ h' ∧ (r = Ok tt → blob_seen h' digest)).
Proof.
  intros Hf. destruct found; simpl; [by split; [|intros _; apply Hf]|].
  apply obeys_bind, keeps_client; [apply get_blob_client|].
  intros [resp|e|] h1 Hs; simpl; [|done..]. split; [done|]. intros r _.
  split; [etrans; [done|apply sub_snoc]|]. intros ->. right. exists (ur_body resp). apply in_snoc.
Qed.

Lemma pull_blobs_keeps descs u h :
  keeps h (pull_blobs descs u) (λ r h', h ⊆ h' ∧ (r = Ok tt →
    ∀ d dg, d ∈ descs → from_str_checked (bd_digest d) = Some dg → blob_seen h' dg)).
Proof.
  revert h. induction descs as [|blob descs IH]; intros h; simpl.
  { split; [done|]. by intros _ d dg ?%not_elem_of_nil. }
  destruct (from_str_checked (bd_digest blob)) as [digest|] eqn:Hb.
  2: { eapply obeys_impl; [apply IH|]. intros r h' [? Hr]. split; [done|]. intros Hok d dg Hd Hdg.
       apply elem_of_cons in Hd as [->|Hd]; [congruence|]. by eapply Hr. }
  apply obeys_bind. split; [done|]. intros a _. simpl. apply obeys_bind.
  eapply obeys_impl; [apply fetch_blob_keeps|].
  { destruct a as [n|e|]; [|done..]. intros _. left. exists n. apply in_snoc. }
  assert (h ⊆ h ++ [existT (BlobStat digest) a]) by apply sub_snoc.
  intros [[]|e|] h1 [Hs Hseen]; simpl; [|by split; [etrans|]..].
  eapply obeys_impl; [apply IH|]. intros r h' [Hs' Hr]. split; [by do 2 (etrans; [done|])|].
  intros Hok d dg Hd Hdg. apply elem_of_cons in Hd as [->|Hd]; [|by eapply Hr].
  simplify_eq. eapply blob_seen_mono; [done|]. by apply Hseen.
Qed.

(** Recording a manifest whose blobs are there, or an index. *)
Lemma put_entry_keeps repo reference data parsed h :
  (is_index_manifest (md_content_type data) = false → from_slice (md_body data) = Some parsed ∧ image_ready h parsed) →
  keeps h (put_manifest_entry repo reference data parsed) (λ _ _, True).
Proof.
  intros Hready. apply obeys_bind. split; [done|]. intros now _.
  set (entry := from_parsed_json sha256_hex now parsed (md_content_type data) (md_body data)
                  (extract_referenced_digests parsed)).
  assert (∀ name ref h', h ⊆ h' → image_allowed h' (MetaPutManifest name ref entry)) as Hput.
  { intros name ref h' Hs Hct v Hv. destruct (Hready Hct) as [Hp Hr].
    change (from_slice (md_body data) = Some v) in Hv. simplify_eq. by eapply image_ready_mono. }
  apply obeys_bind. split; [apply Hput, sub_snoc|]. intros [[]|e|] _; [|done..]. simpl. case_bool_decide; [done|].
  split; [|done]. apply Hput. etrans; apply sub_snoc.
Qed.

Lemma stored_manifest_orderly repo reference : orderly (stored_manifest repo reference).
Proof. by apply orderly_eff. Qed.

(** The frames that wait to be stored are indexes. *)
Definition frame_ok (f : Frame) : Prop :=
  match f with Process _ _ => True | Store _ data _ => is_index_manifest (md_content_type data) = true end.

Lemma push_children_keeps repo u children stack h :
  Forall frame_ok stack →
  keeps h (push_children repo u children stack) (λ r _, ∀ stack', r = Ok stack' → Forall frame_ok stack').
Proof.
  revert stack h. induction children as [|c cs IH]; intros stack h Hst; cbn [push_children].
  { by intros ? [= <-]. }
  apply obeys_bind. split; [done|]. intros [existing|e|] _; [|done..]. cbn iota beta. apply obeys_bind.
  assert (∀ (d : io ManifestData), client d → keeps (h ++ [existT (GetManifest repo (bd_digest c)) (Ok existing)]) d
    (λ r h', match r with Ok a => keeps h' (push_children repo u cs (Process (bd_digest c) a :: stack))
               (λ r _, ∀ stack', r = Ok stack' → Forall frame_ok stack')
             | Err e => ∀ stack', Err e = Ok stack' → Forall frame_ok stack'
             | Panic => ∀ stack', Panic = Ok stack' → Forall frame_ok stack' end)) as Hd.
  { intros d Hc. apply keeps_client; [done|]. intros [a|e|] h' _; [|done..]. apply IH. by constructor. }
  apply Hd. destruct existing; [done|apply get_manifest_client].
Qed.

Lemma store_loop_orderly n repo u stack visited :
  Forall frame_ok stack → orderly (store_loop n repo u stack visited).
Proof.
  revert stack visited. induction n as [|n IH]; intros stack visited Hst h; simpl; [done|].
  destruct stack as [|[reference data|reference data parsed] stack]; [done|..]; inversion_clear Hst as [|? ? Hf Hst'].
  - case_bool_decide; [by apply IH|]. unfold parse_upstream.
    destruct (from_slice (md_body data)) as [parsed|] eqn:Hp; [|done]. simpl.
    destruct (is_index_manifest _) eqn:Hix; simpl; apply obeys_bind.
    + eapply obeys_impl; [by apply push_children_keeps; constructor|].
      intros [st|e|] h' Hfr; [|done..]. by apply IH, Hfr.
    + eapply obeys_impl; [apply pull_blobs_keeps|]. intros [[]|e|] h' [_ Hready]; [|done..].
      apply obeys_bind. eapply obeys_impl; [apply put_entry_keeps; split; [done|]|].
      { intros d dg. by apply Hready. }
      intros [[]|e|] h'' _; [|done..]. by apply IH.
  - apply obeys_bind. eapply obeys_impl; [apply put_entry_keeps|].
    { simpl in Hf. by rewrite Hf. }
    intros [[]|e|] h'' _; [|done..]. by apply IH.
Qed.

Lemma get_proxy_caches_orderly : orderly get_proxy_caches.
Proof.
  apply orderly_eff; [done|]. intros cached. case_match; [done|].
  apply orderly_bind; [by apply orderly_eff|]. intros l. by apply orderly_eff.
Qed.
Lemma get_rules_orderly : orderly get_rules.
Proof.
  apply orderly_eff; [done|]. intros cached. case_match; [done|].
  apply orderly_bind; [by apply orderly_eff|]. intros l. by apply orderly_eff.
Qed.
Lemma record_orderly target digest : orderly (record_proxy_cache_tag_validation target digest).
Proof. destruct target as [t|]; [|done]. apply orderly_eff; [done|]. intros now. by apply orderly_eff. Qed.
Lemma deduplicated_orderly {A} key (after_wait pull : io A) :
  orderly after_wait → orderly pull → orderly (deduplicated key after_wait pull).
Proof.
  intros Hw Hp. apply orderly_eff; [done|]. intros [|]; [done|]. apply orderly_iobind; [done|].
  intros [a|e|]; [by apply orderly_eff..|done].
Qed.

Context (rounds : nat).
Lemma eager_pull_orderly repo reference u target : orderly (do_pull rounds repo reference u Eager target).
Proof.
  assert (∀ data, orderly (store_manifest_recursive rounds repo reference data u)) as Hstore.
  { intros data. apply store_loop_orderly. by repeat constructor. }
  apply orderly_bind; [apply orderly_client, ensure_auth_scope_client|]. intros _.
  apply orderly_bind; [apply orderly_client, head_manifest_client|]. intros [head|]; [|done].
  assert (orderly (pull_fresh rounds repo reference u Eager target head)) as Hfresh.
  { apply orderly_bind; [apply orderly_client, get_manifest_client|]. intros data.
    apply orderly_bind; [done|]. intros _. apply orderly_bind; [apply stored_manifest_orderly|]. intros entry.
    apply orderly_bind; [|done]. destruct entry; [apply record_orderly|done]. }
  apply orderly_bind; [by apply orderly_eff|]. intros [local|]; [|done]. case_bool_decide; [|done].
  apply orderly_bind; [done|]. intros _. apply orderly_bind; [apply record_orderly|done].
Qed.
Lemma pull_manifest_orderly repo reference : orderly (pull_manifest rounds repo reference).
Proof.
  apply orderly_bind.
  - apply orderly_bind; [apply get_proxy_caches_orderly|]. intros caches.
    destruct (match_proxy_cache _ _) as [[cache up]|]; [|done].
    apply deduplicated_orderly; [apply stored_manifest_orderly|apply eager_pull_orderly].
  - intros [e|]; [done|]. apply orderly_bind; [apply get_rules_orderly|]. intros rules.
    destruct (match_rule _ _) as [[rule up]|]; [|done].
    apply deduplicated_orderly; [apply stored_manifest_orderly|apply eager_pull_orderly].
Qed.

(** C31: an eager pull records an image only after the blobs it pulls: whenever it puts
    a manifest that is not an index into the metadata store, the blob store has already
    said, for every config, layer and blob descriptor of the manifest that has a valid
    digest and a size, that it has the blob or has just taken it. This holds whatever
    the upstream and the stores answer, and for the manifests below an index. A
    descriptor without a size is not pulled; see [unsized_layer_recorded]. *)
Theorem eager_pull_blobs_first repo reference tr r i name ref entry a parsed d dg :
  runs (pull_manifest rounds repo reference) tr r →
  tr !! i = Some (existT (MetaPutManifest name ref entry) a) →
  is_index_manifest (me_content_type entry) = false →
  from_slice (me_body entry) = Some parsed →
  d ∈ extract_blob_descriptors parsed → from_str_checked (bd_digest d) = Some dg →
  blob_seen (take i tr) dg.
Proof.
  intros Hrun Hi Hct Hv Hd Hdg.
  destruct (obeys_runs _ _ _ _ _ _ _ (pull_manifest_orderly repo reference []) Hrun) as [_ Hall]; [by intros ? ? ? ?|].
  by apply (Hall i _ _ Hi Hct parsed Hv d).
Qed.

(** A layer without a size is among the blobs that the recorded entry
    references, but not among those that are pulled. *)
Theorem unsized_layer_recorded parsed layer dg now ct body
    (Hconfig : json_get parsed "config" = None) (Hblobs : array_field parsed "blobs" = [])
    (Hlayers : array_field parsed "layers" = [layer])
    (Hdigest : descriptor_digest layer = Some dg) (Hsize : json_get layer "size" = None) :
  me_referenced_blobs (from_parsed_json sha256_hex now parsed ct body (extract_referenced_digests parsed)) = [dg] ∧
  extract_blob_descriptors parsed = [].
Proof.
  unfold extract_blob_descriptors, extract_sized_referenced_descriptors, from_parsed_json, extract_referenced_digests.
  rewrite Hconfig, Hblobs, Hlayers. simpl. unfold sized_descriptor.
  by rewrite Hdigest, Hsize.
Qed.
End order.

(** * A cached tag survives its upstream *)

Section stale.
Context `{SJ : SerdeJson, HL : HttpLib, EX : Externals}.
Context (rounds : nat).

(** The metadata store answers reads; other calls may fail, but do not panic. *)
Definition steady (e : event) : answer e → Prop :=
  match e with
  | ListProxyCaches | GetTagValidation _ _ _ | GetManifest _ _ => λ a, is_ok a = true
  | e' => calm_answer e'
  end.
Abbreviation may := (obeys (λ _ _, True) steady).

(** The entry is the one the request found, or one the metadata store returned. *)
Definition known_entry (repo reference : string) (local : ManifestEntry) (h : trace) (e : ManifestEntry) : Prop :=
  e = local ∨ existT (GetManifest repo reference) (Ok (Some e)) ∈ h.

Lemma known_mono repo reference local h h' e :
  h ⊆ h' → known_entry repo reference local h e → known_entry repo reference local h' e.
Proof. intros Hs [->|H]; [by left|right]. by apply Hs. Qed.

Lemma may_client {A} (p : io A) h (Q : result A → trace → Prop) :
  client p → (∀ r h', r ≠ Panic → h ⊆ h' → Q r h') → may h p Q.
Proof.
  intros Hp HQ. eapply obeys_impl; [by apply (client_obeys _ _ _ h Hp)|].
  intros r h' [? [t ->]]. apply HQ; [done|]. intros x. rewrite elem_of_app. by left.
Qed.

Lemma record_may target digest h :
  may h (record_proxy_cache_tag_validation target digest) (λ r h', r ≠ Panic ∧ h ⊆ h').
Proof.
  destruct target as [t|]; [|done]. split; [done|]. intros now _. split; [done|]. intros r Hr. split; [done|].
  etrans; apply sub_snoc.
Qed.
Lemma put_entry_may repo reference data parsed h :
  may h (put_manifest_entry repo reference data parsed) (λ r h', r ≠ Panic ∧ h ⊆ h').
Proof.
  split; [done|]. intros now _. split; [done|]. intros r Hr.
  assert (h ⊆ (h ++ [existT Now now]) ++ [existT (MetaPutManifest repo reference
    (from_parsed_json sha256_hex now parsed (md_content_type data) (md_body data)
       (extract_referenced_digests parsed))) r]) by (etrans; apply sub_snoc).
  destruct r as [[]|e|]; [|done..]. simpl. case_bool_decide; [done|].
  split; [done|]. intros r' Hr'. split; [done|]. etrans; [done|apply sub_snoc].
Qed.
Lemma store_only_may repo reference data h :
  may h (store_manifest_only repo reference data) (λ r h', r ≠ Panic ∧ h ⊆ h').
Proof.
  apply obeys_bind. unfold parse_upstream. destruct (from_slice _) as [v|]; [|done]. apply put_entry_may.
Qed.
Lemma pull_fresh_may repo reference u target head local h :
  may h (pull_fresh rounds repo reference u Lazy target head) (λ r h', r ≠ Panic ∧ h ⊆ h' ∧
    ∀ e, r = Ok (Some e) → known_entry repo reference local h' e).
Proof.
  apply obeys_bind, may_client; [apply get_manifest_client|]. intros [data|e|] h1 ? Hs1; [|done..].
  apply obeys_bind. eapply obeys_impl; [apply store_only_may|]. intros [[]|e|] h2 [? Hs2]; [|by split_and!; [|etrans|]|done].
  apply obeys_bind. split; [done|]. intros [entry|e|] Hok; [|done..]. simpl. apply obeys_bind.
  set (h3 := h2 ++ _). assert (h ⊆ h3) as Hs3 by (do 2 (etrans; [done|]); apply sub_snoc).
  assert (∀ e, entry = Some e → known_entry repo reference local h3 e) as Hk.
  { intros e ->. right. apply in_snoc. }
  destruct entry as [entry|]; [|by simpl; split_and!; [..|intros ? [= ?]]].
  eapply obeys_impl; [apply record_may|]. intros [[]|e|] h4 [? Hs4]; [|by split_and!; [|etrans|]|done].
  simpl. split_and!; [done|by etrans|]. intros ? [= <-]. eapply known_mono; [done|]. by apply Hk.
Qed.
Lemma after_head_may repo reference u target head local h :
  may h (do_pull_after_head rounds repo reference u Lazy target head) (λ r h', r ≠ Panic ∧ h ⊆ h' ∧
    ∀ e, r = Ok (Some e) → known_entry repo reference local h' e).
Proof.
  split; [done|]. intros [found|e|] Hok; [|done..].
  set (h1 := h ++ _). assert (h ⊆ h1) as Hs by apply sub_snoc.
  assert (may h1 (pull_fresh rounds repo reference u Lazy target head) (λ r h', r ≠ Panic ∧ h ⊆ h' ∧
    ∀ e, r = Ok (Some e) → known_entry repo reference local h' e)) as Hfresh.
  { eapply obeys_impl; [apply pull_fresh_may|]. intros r h' (? & ? & ?). split_and!; [done|by etrans|done]. }
  cbn iota beta. destruct found as [e|]; simpl; [|apply Hfresh]. case_bool_decide; [|apply Hfresh].
  apply obeys_bind. eapply obeys_impl; [apply record_may|]. intros [[]|e'|] h2 [? Hs2]; [|by split_and!; [|etrans|]|done].
  split_and!; [done|by etrans|]. intros ? [= <-]. right. apply Hs2, in_snoc.
Qed.
Lemma validate_inner_may local repo reference u target h :
  may h (validate_cached_proxy_tag_inner rounds local repo reference u target) (λ r h', r ≠ Panic ∧ h ⊆ h' ∧
    ∀ e, r = Ok e → known_entry repo reference local h' e).
Proof.
  apply obeys_bind, may_client; [apply ensure_auth_scope_client|]. intros [[]|e|] h1 ? Hs1; [|done..].
  apply obeys_bind, may_client; [apply head_manifest_client|].
  intros [[head|]|e|] h2 ? Hs2; [|by split_and!; [|etrans|]..|done].
  case_bool_decide; apply obeys_bind.
  - eapply obeys_impl; [apply record_may|]. intros [[]|e|] h3 [? Hs3];
      [|by split_and!; [|do 2 (etrans; [done|])|]|done].
    simpl. split_and!; [done|by do 2 (etrans; [done|])|]. intros ? [= <-]. by left.
  - eapply obeys_impl; [by apply (after_head_may _ _ _ _ _ local)|]. intros [[e|]|e|] h3 (? & Hs3 & Hk);
      [..|by split_and!; [|do 2 (etrans; [done|])|]|done].
    + simpl. split_and!; [done|by do 2 (etrans; [done|])|]. intros ? [= <-]. by apply Hk.
    + simpl. by split_and!; [|do 2 (etrans; [done|])|].
Qed.

Lemma get_proxy_caches_may : may [] get_proxy_caches (λ r h', (∃ l, r = Ok l) ∧ requests h' = 0%N).
Proof.
  split; [done|]. intros cached _. simpl. case_bool_decide; [by split; [eexists|]|]. split; [done|]. intros [l|e|] Hok; [|done..].
  split; [done|]. intros [] _. simpl. by split; [eexists|].
Qed.
Lemma stored_or_may local repo reference h :
  may h (stored_or local repo reference) (λ r h', ∃ e, r = Ok (Some e) ∧ known_entry repo reference local h' e).
Proof.
  split; [done|]. intros [[e|]|e|] Hok; [..|done|done]; simpl; eexists; (split; [done|]); [right; apply in_snoc|by left].
Qed.

(** The tag as served, or no cache answers for it and the upstream was not asked. *)
Definition tag_served (repo reference : string) (local : ManifestEntry) (r : result (option ManifestEntry)) (h : trace)
    : Prop :=
  r = Ok None ∧ requests h = 0%N ∨ ∃ e, r = Ok (Some e) ∧ known_entry repo reference local h e.

Lemma validate_may repo reference local :
  may [] (validate_cached_proxy_tag rounds repo reference local) (tag_served repo reference local).
Proof.
  apply obeys_bind. eapply obeys_impl; [apply get_proxy_caches_may|]. intros r h [[caches ->] Hreq].
  destruct (match_proxy_cache _ _) as [[cache up]|]; [|by left].
  destruct (for_reference _ _ _) as [target|]; [|by left].
  apply obeys_bind. split; [done|]. intros [v|e|] Hok; [|done..]. cbn iota beta.
  apply obeys_bind, (obeys_impl _ _ _ _ (λ r _, ∃ n, r = Ok n)); [destruct v; simpl; eauto|].
  intros ? h1 [now ->]. destruct (from_option _ _ _); [right; exists local; split; [done|by left]|].
  assert (∀ h2, may h2 (stored_or local repo reference) (tag_served repo reference local)) as Hstored.
  { intros h2. eapply obeys_impl; [apply stored_or_may|]. intros r' h' ?. by right. }
  split; [done|]. intros [|] _; [apply Hstored|].
  apply obeys_iobind. eapply obeys_impl; [apply validate_inner_may|]. intros [entry|e|] h2 (? & Hs & Hk); [..|done].
  - apply obeys_bind. split; [done|]. intros [] _. right. exists entry. split; [done|].
    eapply known_mono; [apply sub_snoc|]. by apply Hk.
  - apply obeys_bind. split; [done|]. intros [] _. apply Hstored.
Qed.

(** Validating a cached tag never fails on account of the upstream: as long as
    the metadata store answers its reads, whatever the upstream sends (errors,
    refusals, broken bodies) and whether or not writes succeed, the request gets the
    manifest it found or a manifest the metadata store holds for the tag; it gets
    none only if no cache answers for the tag, and then the upstream is not asked. *)
Theorem stale_tag_served repo reference local tr r :
  runs (validate_cached_proxy_tag rounds repo reference local) tr r → calm_trace steady tr →
  tag_served repo reference local r tr.
Proof. intros Hrun Hc. by apply (obeys_runs _ _ _ _ _ _ _ (validate_may repo reference local) Hrun). Qed.
End stale.

(** * Samples *)

#[export] Instance sample_http : HttpLib := {|
  url_error _ := None;
  header_error _ := None;
  proxy_error _ _ := None;
  client_error _ _ := None;
  status_error _ := [];
|}.

Definition sample_cache : ProxyCache :=
  MkProxyCache "hub" "hub" "docker.io" None [] None false false (MkOutboundProxy ProxyNone None None None) None None 100.

(** An upstream that has the sample manifest (or answers 500), before empty stores
    that take what they are given. *)
Definition sample_up (up : bool) (q : UpRequest) : send_error + UpResponse :=
  if up then inr (MkUpResponse 200 {["docker-content-digest" := manifest_digest]} [inr body])
  else inr (MkUpResponse 500 ∅ []).
Definition sample_oracle (up : bool) (e : event) : answer e :=
  match e with
  | Http q => sample_up up q
  | Sleep _ | TokenPut _ _ | TokenRemove _ | RulesCache _ | ProxiesCache _ | InflightLeave _ => tt
  | Now => 100%N
  | TokenGet _ => None
  | RulesCached => ([], 0%N)
  | ProxiesCached => ([sample_cache], 0%N)
  | InflightEnter _ => false
  | BlobStat _ => Err (BlobUnknown [])
  | BlobGet _ => Err (BlobUnknown [])
  | BlobPutStreaming _ _ | MetaPutManifest _ _ _ | PutTagValidation _ => Ok tt
  | ListMirrorRules => Ok []
  | GetMirrorRule _ => Ok None
  | ListProxyCaches => Ok []
  | GetProxyCache _ => Ok None
  | ListTags _ => Ok []
  | GetManifest _ _ => Ok None
  | ListManifestSummaries _ => Ok []
  | GetTagValidation _ _ _ => Ok None
  | ListWarmImages => Ok []
  | ListSyncJobs => Ok []
  | PutSyncJob _ | DeleteSyncJob _ | PutSyncJobRun _ | RecordBlobDelete _ => Ok tt
  | ClaimSyncJob _ _ => Ok true
  | NewUuid => "run"
  | TryAcquire => true
  | ReleasePermit => tt
  | BlobLifecycle dg => Ok (MkBlobLifecycleStatus (digest_to_string dg) false 0 false)
  | BlobGetRange _ _ _ => Err (BlobUnknown [])
  | PresignedUrl _ => Err (BlobUnknown [])
  end.

(** The trace of an oracle whose answers are steady. *)
Lemma play_calm {A} (calm : ∀ e : event, answer e → Prop) oracle (p : io A) :
  (∀ e, calm e (oracle e)) → calm_trace calm (play oracle p).1.
Proof.
  intros Ho i e a. change (calm e a) with (calm (projT1 (existT e a)) (projT2 (existT e a))).
  generalize (existT e a). clear e a. intros x. revert i. induction p as [r|e' k IH]; intros i; simpl; [by destruct i|].
  specialize (IH (oracle e')). destruct (play _ _) as [tr r].
  destruct i as [|i]; simpl; [|apply IH]. by intros [= <-].
Qed.

Lemma challenge_roundtrip_witness :
  ∃ header, www_authenticate (Unauthorized [] (Some "https://r.example/token") (Some "layerhouse") None) = Some header ∧
    parse_bearer_challenge header = Ok (MkBearerChallenge "https://r.example/token" (Some "layerhouse")).
Proof. by apply (challenge_roundtrip [] "https://r.example/token" (Some "layerhouse") None). Defined.

(** A HEAD for a manifest, of an upstream that answers 500 to everything: six
    attempts, and all the waiting there is. *)
Definition sample_retry : RetryRequest := MkRetryRequest HEAD "https://r.example/v2/a/manifests/x" None None None ScopePull.
Definition sample_upstream : UpstreamRef := make_proxy_upstream_ref sample_cache "app".
Definition sample_retries := play (sample_oracle false) (retry_with_body sample_upstream sample_retry).
Lemma retry_bounded_witness :
  requests sample_retries.1 = 6%N ∧ waited sample_retries.1 = 6200%N ∧ sample_retries.2 ≠ Panic ∧
  (requests sample_retries.1 ≤ 16)%N.
Proof.
  split; [reflexivity|]. split; [reflexivity|].
  destruct (retry_bounded sample_upstream sample_retry sample_retries.1 sample_retries.2 (play_runs _ _)) as (? & ? & _).
  by split.
Defined.

Definition sample_pull := play (sample_oracle true) (pull_manifest 10 "hub/app" "latest").
Lemma eager_pull_blobs_first_witness :
  ∃ i name ref entry a dg, sample_pull.1 !! i = Some (existT (MetaPutManifest name ref entry) a) ∧
    from_str_checked blob_a = Some dg ∧ blob_seen (take i sample_pull.1) dg.
Proof.
  eexists 21, _, _, _, _, _. split; [vm_compute; reflexivity|]. split; [vm_compute; reflexivity|].
  eapply (eager_pull_blobs_first 10 "hub/app" "latest" sample_pull.1 sample_pull.2 21); [apply play_runs|..].
  - vm_compute. reflexivity.
  - reflexivity.
  - reflexivity.
  - vm_compute. left.
  - reflexivity.
Defined.

Definition sample_local : ManifestEntry :=
  from_parsed_json sha256_hex 100 sample_manifest "application/vnd.oci.image.manifest.v1+json" body [].
Definition sample_validation := play (sample_oracle false) (validate_cached_proxy_tag 10 "hub/app" "latest" sample_local).
Lemma stale_tag_served_witness :
  sample_validation.2 = Ok (Some sample_local) ∧
  tag_served "hub/app" "latest" sample_local sample_validation.2 sample_validation.1.
Proof.
  split; [vm_compute; reflexivity|].
  apply (stale_tag_served 10); [apply play_runs|]. apply play_calm. by intros [].
Defined.
