(* ===== verification/Scheduler.v ===== *)
(** The scheduler of mirror and warm-up jobs
    (crates/layerhouse-server/src/mirror/scheduler.rs), as programs over [Io]: the
    jobs a configuration asks for, their reconciliation with the stored ones,
    the recovery of stale claims, the claiming of due jobs and the task that runs
    one. *)

From Stdlib Require Import Ascii.
From stdpp Require Import options.
From S2P Require Import Prelude Errors Digests Manifests Permissions SyncRuns Types StateMachine Samples S3Client Io.
From S2P Require Import Upstream Mirror Pulls.

(** * Schedules *)

Definition STALE_JOB_THRESHOLD_SECS : N := 300.
Definition FALLBACK_SCHEDULE_INTERVAL_SECS : N := 3600.

Definition parse_u8 (s : string) : option N :=
  n ← Str.parse_u64 s; if bool_decide (n < 256)%N then Some n else None.

Definition schedule_interval_secs (schedule : string) : option N :=
  match Str.split_whitespace schedule with
  | [minute; hour; _; _; _] =>
      if bool_decide (minute = "*") then Some 60%N
      else match Str.strip_prefix "*/" minute with
      | Some step =>
          step ← Str.parse_u64 step;
          if bool_decide (0 < step)%N then Some (U64.wrap (step * 60)) else None
      | None =>
          if bool_decide (is_Some (parse_u8 minute)) && bool_decide (hour = "*") then Some 3600%N
          else Some FALLBACK_SCHEDULE_INTERVAL_SECS
      end
  | _ => None
  end.

Definition scheduled_mirror_job (rule : MirrorRule) (now : N) : option SyncJob :=
  schedule ← mr_schedule rule;
  interval_secs ← schedule_interval_secs schedule;
  Some (mirror_rule_job rule ("mirror-rule-" +:+ mr_id rule) now interval_secs).

Definition set_job_id (v : string) (j : SyncJob) : SyncJob :=
  MkSyncJob v (job_kind j) (job_rule_id j) (job_rule_name j) (job_image j) (job_tags j)
    (job_interval_secs j) (job_status j) (job_claimed_by j) (job_claimed_at j) (job_last_run_at j)
    (job_next_run_at j) (job_last_error j).
(** The plan of a job: what it synchronizes and how often. *)
Definition set_job_plan (image : string) (tags : list string) (interval : N) (j : SyncJob) : SyncJob :=
  MkSyncJob (job_id j) (job_kind j) (job_rule_id j) (job_rule_name j) image tags
    interval (job_status j) (job_claimed_by j) (job_claimed_at j) (job_last_run_at j)
    (job_next_run_at j) (job_last_error j).

Definition scheduled_proxy_cache_job (cache : ProxyCache) (now : N) : option SyncJob :=
  schedule ← pc_warm_schedule cache;
  interval_secs ← schedule_interval_secs schedule;
  let job := proxy_cache_warm_job cache now in
  let job := set_job_id ("proxy-cache-" +:+ pc_id cache +:+ "-warm") job in
  Some (set_job_plan (job_image job) (job_tags job) interval_secs job).

Definition same_plan (a b : SyncJob) : bool :=
  bool_decide (job_kind a = job_kind b) && bool_decide (job_rule_id a = job_rule_id b)
  && bool_decide (job_rule_name a = job_rule_name b) && bool_decide (job_image a = job_image b)
  && bool_decide (job_tags a = job_tags b) && bool_decide (job_interval_secs a = job_interval_secs b).

Definition reconcile_job (existing desired : SyncJob) : option SyncJob :=
  if bool_decide (job_status existing = Running) then None
  else if same_plan existing desired then None
  else Some (MkSyncJob (job_id desired) (job_kind desired) (job_rule_id desired) (job_rule_name desired)
               (job_image desired) (job_tags desired) (job_interval_secs desired)
               (job_status existing) (job_claimed_by existing) (job_claimed_at existing)
               (job_last_run_at existing) (job_next_run_at existing `min` job_next_run_at desired)%N
               (job_last_error existing)).

Section scheduler.
Context `{SJ : SerdeJson, HL : HttpLib, EX : Externals}.
Context (decode_tags : bytes → message + option (list string)).
Context (pages rounds : nat).
(** The text of an error, as it is recorded. *)
Context (text : message → string).

(** * Calls *)

Definition now_epoch : io N := Eff Now (λ n : N, Fin (Ok n)).
Definition put_job (job : SyncJob) : io () := Eff (PutSyncJob job) Fin.
Definition remove_job (id : string) : io () := Eff (DeleteSyncJob id) Fin.
Definition sync_jobs : io (list SyncJob) := Eff ListSyncJobs Fin.
Definition warm_images : io (list WarmImage) := Eff ListWarmImages Fin.

(** [for x in l { f(x).await?; }]. *)
Fixpoint each {A} (f : A → io ()) (l : list A) : io () :=
  match l with [] => ret () | x :: l' => _ ← f x; each f l' end.

(** [if let Err(e) = p { warn!(..) }]. *)
Definition ignored (p : io ()) : io () := iobind p (λ r, match r with Panic => Fin Panic | _ => ret () end).
Definition caught {A} (p : io A) : io (LayerhouseError + A) :=
  iobind p (λ r, match r with Ok a => ret (inr a) | Err e => ret (inl e) | Panic => Fin Panic end).

(** * Reconciliation *)

(** [collect] into a [HashMap]: the last one wins. *)
Definition job_map (jobs : list SyncJob) : gmap string SyncJob :=
  list_to_map (reverse ((λ j, (job_id j, j)) <$> jobs)).

Definition reconcile_scheduled (existing_jobs : gmap string SyncJob) (job : SyncJob) : io () :=
  match existing_jobs !! job_id job with
  | Some existing => match reconcile_job existing job with Some updated => put_job updated | None => ret () end
  | None => put_job job
  end.

Definition reconcile_warm (existing_jobs : gmap string SyncJob) (warm : WarmImage) : io () :=
  match existing_jobs !! wi_id warm with
  | Some existing =>
      if bool_decide (job_status existing = Running) then ret ()
      else if bool_decide (job_image existing = wi_image warm) && bool_decide (job_tags existing = wi_tags warm)
                && bool_decide (job_interval_secs existing = wi_interval_secs warm) then ret ()
      else put_job (set_job_plan (wi_image warm) (wi_tags warm) (wi_interval_secs warm) existing)
  | None =>
      now ← now_epoch;
      put_job (MkSyncJob (wi_id warm) LegacyWarm (Some (wi_id warm)) (Some (wi_id warm)) (wi_image warm)
                 (wi_tags warm) (wi_interval_secs warm) Idle None None None now None)
  end.

Definition is_scheduled_kind (k : SyncJobKind) : bool := match k with LegacyWarm => false | _ => true end.
Definition drop_if_stale (warm_ids desired_scheduled : gset string) (job : SyncJob) : io () :=
  let stale_legacy := bool_decide (job_kind job = LegacyWarm) && negb (bool_decide (job_id job ∈ warm_ids)) in
  let stale_scheduled := is_scheduled_kind (job_kind job) && bool_decide (0 < job_interval_secs job)%N
                           && negb (bool_decide (job_id job ∈ desired_scheduled)) in
  if negb (bool_decide (job_status job = Running)) && (stale_legacy || stale_scheduled)
  then remove_job (job_id job) else ret ().

(** The jobs the configuration asks for at [now]. *)
Definition desired_jobs (rules : list MirrorRule) (caches : list ProxyCache) (now : N) : list SyncJob :=
  omap (λ r, scheduled_mirror_job r now) rules ++ omap (λ c, scheduled_proxy_cache_job c now) caches.

Definition reconcile_jobs : io () :=
  warm ← warm_images;
  rules ← mirror_rules;
  caches ← proxy_caches;
  existing_jobs ← sync_jobs;
  now ← now_epoch;
  let desired := desired_jobs rules caches now in
  _ ← each (reconcile_scheduled (job_map existing_jobs)) desired;
  _ ← each (reconcile_warm (job_map existing_jobs)) warm;
  each (drop_if_stale (list_to_set (wi_id <$> warm)) (list_to_set (job_id <$> desired))) existing_jobs.

(** * Stale claims *)

Definition is_stale (job : SyncJob) (now : N) : bool :=
  bool_decide (job_status job = Running)
  && bool_decide (U64.wrap (job_interval_secs job * 2) `max` STALE_JOB_THRESHOLD_SECS
                    < U64.saturating_sub now (default 0 (job_claimed_at job)))%N.
Definition recovered (now : N) (job : SyncJob) : SyncJob :=
  set_job_next_run_at now (set_job_claimed_at None (set_job_claimed_by None (set_job_status Idle job))).
Definition recover_stale_jobs : io () :=
  jobs ← sync_jobs;
  now ← now_epoch;
  each (λ job, if is_stale job now then put_job (recovered now job) else ret ()) jobs.

(** * Running a job *)

Definition persist_sync_run (run : SyncJobRun) : io () := ignored (Eff (PutSyncJobRun run) Fin).
(** A step of a run's record at the current time, persisted. *)
Definition progress (step : N → SyncJobRun → SyncJobRun) (run : SyncJobRun) : io SyncJobRun :=
  now ← now_epoch;
  let run := step now run in
  _ ← persist_sync_run run; ret run.

(** What a job synchronizes. *)
Definition resolve_job (job : SyncJob) : io (MirrorDirection * string * list string) :=
  match job_kind job, job_rule_id job with
  | MirrorJob, Some rule_id =>
      resolved ← resolve_mirror_job decode_tags pages rule_id;
      ret (rj_direction resolved, rj_local_repo resolved, rj_tags resolved)
  | ProxyCacheJob, Some cache_id =>
      resolved ← resolve_proxy_cache_job decode_tags pages cache_id;
      ret (DirPull, resolved.1, resolved.2)
  | _, _ => ret (DirPull, job_image job, job_tags job)
  end.

Definition error_text (e : LayerhouseError) : string := text (error_to_string e).

Definition sync_tag (rule_id : option string) (direction : MirrorDirection) (image tag : string) : io bool :=
  match direction with
  | DirPush =>
      match rule_id with
      | Some rule_id => push_manifest_for_rule rounds rule_id tag
      | None => throw (NameInvalid [Lit "push mirror job is missing rule_id"])
      end
  | DirPull => entry ← pull_manifest rounds image tag; ret (bool_decide (is_Some entry))
  end.

Definition tag_phase (direction : MirrorDirection) : string :=
  match direction with DirPush => "Pushing tag" | DirPull => "Pulling tag" end.
Definition missing_text (direction : MirrorDirection) : string :=
  match direction with DirPush => "not found locally" | DirPull => "not found upstream" end.

(** The record of a run and the tags so far. *)
Record TaskState := MkTaskState {
  ts_run : SyncJobRun;
  ts_synced : list string;
  ts_failed : list (string * string);
}.
Definition tag_done (tag : string) (kind : SyncRunEventKind) (msg : string) (s : TaskState) : io TaskState :=
  run ← progress (λ now, mark_tag_finished tag kind msg (length (ts_synced s) + length (ts_failed s)) now) (ts_run s);
  ret (MkTaskState run (ts_synced s) (ts_failed s)).
Definition sync_one (rule_id : option string) (direction : MirrorDirection) (image tag : string) (s : TaskState)
    : io TaskState :=
  run ← progress (λ now, mark_tag_started tag (tag_phase direction) now) (ts_run s);
  result ← caught (sync_tag rule_id direction image tag);
  match result with
  | inr true => tag_done tag EvSuccess "Synced tag" (MkTaskState run (ts_synced s ++ [tag]) (ts_failed s))
  | inr false =>
      tag_done tag EvWarning (missing_text direction)
        (MkTaskState run (ts_synced s) (ts_failed s ++ [(tag, missing_text direction)]))
  | inl e => tag_done tag EvError (error_text e) (MkTaskState run (ts_synced s) (ts_failed s ++ [(tag, error_text e)]))
  end.
Fixpoint sync_tags (rule_id : option string) (direction : MirrorDirection) (image : string) (tags : list string)
    (s : TaskState) : io TaskState :=
  match tags with
  | [] => ret s
  | tag :: tags' => s ← sync_one rule_id direction image tag s; sync_tags rule_id direction image tags' s
  end.

Definition run_outcome (s : TaskState) : SyncRunStatus * option string :=
  match ts_failed s, ts_synced s with
  | [], _ => (RunSucceeded, None)
  | (_, e) :: _, [] => (RunFailed, Some e)
  | (_, e) :: _, _ => (RunPartialFailure, Some e)
  end.

Definition next_run (interval now : N) : N :=
  if bool_decide (interval = 0)%N then U64.max else U64.add now interval.

(** The job as it is written back after a run. *)
Definition written_back (job : SyncJob) (image : string) (tags : list string) (now : N) (last_error : option string)
    : SyncJob :=
  MkSyncJob (job_id job) (job_kind job) (job_rule_id job) (job_rule_name job) image tags (job_interval_secs job)
    Idle None None (Some now) (next_run (job_interval_secs job) now) last_error.

Definition finish_job (job : SyncJob) (image : string) (tags : list string) (s : TaskState) : io () :=
  now ← now_epoch;
  let '(status, last_error) := run_outcome s in
  _ ← ignored (put_job (written_back job image tags now last_error));
  _ ← persist_sync_run (mark_finished status (ts_synced s) (ts_failed s) now (ts_run s));
  perform ReleasePermit.

(** The task of a claimed job. *)
Definition run_job (job : SyncJob) (run : SyncJobRun) : io () :=
  run ← progress mark_resolution_started run;
  resolved ← caught (resolve_job job);
  match resolved with
  | inl e =>
      run ← progress (λ now, mark_resolution_failed (error_text e) now) run;
      finish_job job (job_image job) [] (MkTaskState run [] [("resolve", error_text e)])
  | inr (direction, image, tags) =>
      run ← progress (λ now, mark_resolution_finished (length tags) now) run;
      s ← sync_tags (job_rule_id job) direction image tags (MkTaskState run [] []);
      finish_job job image tags s
  end.

(** * Claiming due jobs *)

(** The loop of [execute_due_jobs]; the tasks it spawns are returned. *)
Fixpoint start_due (node_id : string) (now : N) (jobs : list SyncJob) : io (list (SyncJob * SyncJobRun)) :=
  match jobs with
  | [] => ret []
  | job :: jobs' =>
      if negb (bool_decide (job_status job = Idle)) || bool_decide (now < job_next_run_at job)%N
      then start_due node_id now jobs'
      else Eff TryAcquire (λ free : bool,
        if free then
          Eff (ClaimSyncJob (job_id job) node_id) (λ claimed,
            match claimed with
            | Ok true =>
                id ← perform NewUuid;
                let run := SyncJobRun_running id (job_id job) node_id now in
                _ ← ignored (Eff (PutSyncJobRun run) Fin);
                tasks ← start_due node_id now jobs';
                ret ((job, run) :: tasks)
            | Panic => Fin Panic
            | _ => _ ← perform ReleasePermit; start_due node_id now jobs'
            end)
        else ret [])
  end.
Definition execute_due_jobs (node_id : string) : io (list (SyncJob * SyncJobRun)) :=
  Eff ListSyncJobs (λ r,
    match r with
    | Ok jobs => now ← now_epoch; start_due node_id now jobs
    | Err _ => ret []
    | Panic => Fin Panic
    end).

(** One tick of [run_scheduler], after its sleep. *)
Definition tick (node_id : string) : io (list (SyncJob * SyncJobRun)) :=
  iobind reconcile_jobs (λ r,
    match r with
    | Ok _ => _ ← ignored recover_stale_jobs; execute_due_jobs node_id
    | Err _ => ret []
    | Panic => Fin Panic
    end).
End scheduler.
