(* ===== verification/Schedules.v ===== *)
(** What the scheduler guarantees: it leaves running jobs alone, it releases
    every job it claimed, with a record that accounts for every tag; and what it
    does not: a mirror job that has run is due again at the next tick, whatever
    its schedule. *)

From Stdlib Require Import Ascii.
From stdpp Require Import options.
From S2P Require Import Prelude Errors Digests Manifests Permissions SyncRuns Types StateMachine Samples S3Client Io.
From S2P Require Import Upstream Mirror Pulls Scheduler.

(** * Running jobs *)

Section running.
Context `{SJ : SerdeJson, HL : HttpLib, EX : Externals}.

Definition not_running (jobs : list SyncJob) (id : string) : Prop :=
  ∀ j, j ∈ jobs → job_id j = id → job_status j ≠ Running.
Definition job_allowed (h : trace) (e : event) : Prop :=
  match e with
  | PutSyncJob j => ∃ jobs, existT ListSyncJobs (Ok jobs) ∈ h ∧ not_running jobs (job_id j)
  | DeleteSyncJob id => ∃ jobs, existT ListSyncJobs (Ok jobs) ∈ h ∧ not_running jobs id
  | _ => True
  end.
(** Jobs are stored under their ids. *)
Definition keyed (e : event) : answer e → Prop :=
  match e with
  | ListSyncJobs => λ a, ∀ jobs, a = Ok jobs → NoDup (job_id <$> jobs)
  | _ => λ _, True
  end.
Abbreviation may := (obeys job_allowed keyed).

Lemma job_map_Some jobs id j : job_map jobs !! id = Some j → j ∈ jobs ∧ job_id j = id.
Proof.
  intros H%elem_of_list_to_map_2. rewrite elem_of_reverse, list_elem_of_fmap in H. by destruct H as (? & [= -> ->] & ?).
Qed.
Lemma job_map_None jobs id : job_map jobs !! id = None → ∀ j, j ∈ jobs → job_id j ≠ id.
Proof.
  intros H%not_elem_of_list_to_map_2 j Hj <-. apply H. rewrite fmap_reverse, elem_of_reverse, <-list_fmap_compose.
  apply list_elem_of_fmap. by exists j.
Qed.
Lemma job_map_in jobs j : NoDup (job_id <$> jobs) → j ∈ jobs → job_map jobs !! job_id j = Some j.
Proof.
  intros Hnd Hj. apply elem_of_list_to_map_1.
  - rewrite fmap_reverse, (reverse_Permutation _), <-list_fmap_compose. done.
  - rewrite elem_of_reverse. apply list_elem_of_fmap. by exists j.
Qed.
Lemma not_running_map jobs id :
  NoDup (job_id <$> jobs) → (∀ j, job_map jobs !! id = Some j → job_status j ≠ Running) → not_running jobs id.
Proof. intros Hnd H j Hj <-. apply H. by apply job_map_in. Qed.

Lemma each_may {A} (f : A → io ()) l h (Q : result () → trace → Prop) :
  (∀ x h', x ∈ l → h ⊆ h' → may h' (f x) (λ _ h'', h' ⊆ h'')) → (∀ r h', h ⊆ h' → Q r h') →
  may h (each f l) Q.
Proof.
  revert h. induction l as [|x l IH]; intros h Hf HQ; simpl; [by apply HQ|].
  apply obeys_bind. eapply obeys_impl; [apply Hf; [left|done]|]. intros [[]|e|] h1 Hs; [|by apply HQ..].
  apply IH; [|intros; apply HQ; by etrans]. intros y h' Hy Hs'. apply Hf; [by right|by etrans].
Qed.

Section listed.
Context (jobs : list SyncJob) (Hnd : NoDup (job_id <$> jobs)).
Lemma put_may j h :
  existT ListSyncJobs (Ok jobs) ∈ h → (∀ e, job_map jobs !! job_id j = Some e → job_status e ≠ Running) →
  may h (put_job j) (λ _ h', h ⊆ h').
Proof using Hnd. intros Hl Hj. split; [exists jobs; split; [done|by apply not_running_map]|]. intros r _. apply sub_snoc. Qed.

Lemma reconcile_scheduled_may desired h :
  existT ListSyncJobs (Ok jobs) ∈ h → may h (reconcile_scheduled (job_map jobs) desired) (λ _ h', h ⊆ h').
Proof using Hnd.
  intros Hl. unfold reconcile_scheduled. destruct (job_map jobs !! job_id desired) as [existing|] eqn:He.
  - unfold reconcile_job. case_bool_decide; [by cbn|]. destruct (same_plan _ _); [by cbn|]. apply put_may; [done|].
    simpl. rewrite He. by intros ? [= <-].
  - apply put_may; [done|]. by rewrite He.
Qed.
Lemma reconcile_warm_may warm h :
  existT ListSyncJobs (Ok jobs) ∈ h → may h (reconcile_warm (job_map jobs) warm) (λ _ h', h ⊆ h').
Proof using Hnd.
  intros Hl. unfold reconcile_warm. destruct (job_map jobs !! wi_id warm) as [existing|] eqn:He.
  - case_bool_decide; [by cbn|]. destruct (_ && _); [by cbn|]. apply put_may; [done|].
    simpl. apply job_map_Some in He as He'. destruct He' as [_ ->]. rewrite He. by intros ? [= <-].
  - split; [done|]. intros now _. eapply obeys_impl; [apply put_may; [by apply sub_snoc|]|].
    + simpl. by rewrite He.
    + intros r h' Hs. etrans; [|exact Hs]. apply sub_snoc.
Qed.
Lemma drop_may warm desired job h :
  existT ListSyncJobs (Ok jobs) ∈ h → job ∈ jobs →
  may h (drop_if_stale warm desired job) (λ _ h', h ⊆ h').
Proof using Hnd.
  intros Hl Hj. unfold drop_if_stale. cbv zeta. destruct (bool_decide (job_status job = Running)) eqn:Hrun; [by cbn|].
  apply bool_decide_eq_false in Hrun. cbn [negb andb]. destruct (_ || _); [|by cbn].
  split; [exists jobs; split; [done|]|intros r _; apply sub_snoc].
  apply not_running_map; [done|]. rewrite (job_map_in jobs job) by done. by intros ? [= <-].
Qed.
End listed.

Lemma reconcile_may : may [] reconcile_jobs (λ _ _, True).
Proof.
  split; [done|]. intros [warm|e|] _; [|done..]. split; [done|]. intros [rules|e|] _; [|done..].
  split; [done|]. intros [caches|e|] _; [|done..]. split; [done|]. intros [jobs|e|] Hnd; [|done..].
  specialize (Hnd jobs eq_refl). split; [done|]. intros now _. set (h := _ ++ [existT Now now]).
  assert (existT ListSyncJobs (Ok jobs) ∈ h) as Hl by (apply elem_of_app; left; apply in_snoc).
  assert (∀ h', h ⊆ h' → existT ListSyncJobs (Ok jobs) ∈ h') as Hl' by (intros h' Hs; by apply Hs).
  apply obeys_bind, each_may; [intros; apply reconcile_scheduled_may; auto|]. intros [[]|e|] h1 Hs1; [|done..].
  apply obeys_bind, each_may; [intros x h' _ Hs'; apply reconcile_warm_may; [done|]; apply Hl'; by etrans|].
  intros [[]|e|] h2 Hs2; [|done..]. apply each_may; [|done].
  intros x h' Hx Hs'. apply (drop_may jobs); [done| |done]. apply Hl'. do 2 (etrans; [done|]). done.
Qed.

(** Reconciliation leaves running jobs alone: it writes or deletes a job only
    after reading the stored jobs, and only one that was not running then. *)
Theorem running_jobs_untouched tr r i e a :
  runs reconcile_jobs tr r → calm_trace keyed tr → tr !! i = Some (existT e a) → job_allowed (take i tr) e.
Proof. intros Hrun Hc Hi. destruct (obeys_runs _ _ _ _ _ _ _ reconcile_may Hrun Hc) as [_ H]. by eapply H. Qed.
End running.

(** * The end of a job *)

Section release.
Context `{SJ : SerdeJson, HL : HttpLib, EX : Externals}.
Context (decode_tags : bytes → message + option (list string)) (pages rounds : nat) (text : message → string).

Abbreviation ends := (obeys (λ _ _, True) (λ (_ : event) _, True)).

Lemma ends_any {A} (p : io A) h (Q : result A → trace → Prop) : (∀ r h', Q r h') → ends h p Q.
Proof. intros HQ. revert h. induction p as [r|e k IH]; intros h; simpl; auto. Qed.

(** Programs whose failures are caught: they end with a value or a panic. *)
Definition sturdy {A} (Q : A → Prop) (r : result A) : Prop :=
  match r with Ok a => Q a | Err _ => False | Panic => True end.
Lemma sturdy_bind {A B} (p : io A) (f : A → io B) h (P : A → Prop) (Q : result B → trace → Prop) :
  ends h p (λ r _, sturdy P r) → (∀ a h', P a → ends h' (f a) Q) → (∀ h', Q Panic h') → ends h (p ≫= f) Q.
Proof.
  intros Hp Hf HQ. apply obeys_bind. eapply obeys_impl; [apply Hp|]. intros [a|e|] h' H; [by apply Hf|done|apply HQ].
Qed.
Lemma progress_ends step run h : ends h (progress step run) (λ r _, sturdy (λ run', ∃ now, run' = step now run) r).
Proof. split; [done|]. intros now _. split; [done|]. intros [[]|e|] _; simpl; eauto. Qed.
Lemma caught_ends {A} (p : io A) h : ends h (caught p) (λ r _, sturdy (λ _, True) r).
Proof. apply obeys_iobind, ends_any. by intros [a|e|] h'. Qed.

(** Every tag is accounted for. *)
Definition accounted (tags : list string) (s : TaskState) : Prop := ts_synced s ++ (ts_failed s).*1 ≡ₚ tags.

Lemma tag_done_ends tag kind msg s h tags :
  accounted tags s → ends h (tag_done tag kind msg s) (λ r _, sturdy (accounted tags) r).
Proof.
  intros Hs. eapply sturdy_bind; [apply progress_ends| |done]. intros run h' _. done.
Qed.
Lemma sync_one_ends rule_id direction image tag s h tags :
  accounted tags s →
  ends h (sync_one rounds text rule_id direction image tag s) (λ r _, sturdy (accounted (tags ++ [tag])) r).
Proof.
  intros Hs. eapply sturdy_bind; [apply progress_ends| |done]. intros run h1 _.
  eapply sturdy_bind; [apply caught_ends| |done]. unfold accounted in Hs.
  intros [e|[|]] h2 _; apply tag_done_ends; unfold accounted; simpl;
    rewrite ?fmap_app; simpl; rewrite ?(assoc_L (++)), <-Hs; [done| |done]. solve_Permutation.
Qed.
Lemma sync_tags_ends rule_id direction image tags s h done_tags :
  accounted done_tags s →
  ends h (sync_tags rounds text rule_id direction image tags s) (λ r _, sturdy (accounted (done_tags ++ tags)) r).
Proof.
  revert s h done_tags. induction tags as [|tag tags IH]; intros s h done_tags Hs; cbn [sync_tags].
  { simpl. by rewrite app_nil_r. }
  eapply sturdy_bind; [by apply sync_one_ends| |done]. intros s' h' Hs'.
  rewrite cons_middle, (assoc_L (++)). by apply IH.
Qed.

(** The job as it was written back, and the record of the run. *)
Definition settled (job j : SyncJob) (run : SyncJobRun) : Prop :=
  job_id j = job_id job ∧ job_status j = Idle ∧ job_claimed_by j = None ∧ job_claimed_at j = None ∧
  (∃ now, job_last_run_at j = Some now ∧ job_next_run_at j = next_run (job_interval_secs job) now ∧
          run_finished_at run = Some now) ∧
  ((∃ m, run_tags_synced run = [] ∧ run_tags_failed run = [("resolve", m)]) ∨
   run_tags_synced run ++ (run_tags_failed run).*1 ≡ₚ job_tags j) ∧
  (run_status run = RunSucceeded ↔ run_tags_failed run = []) ∧
  (run_status run = RunFailed → run_tags_synced run = []) ∧
  (job_last_error j = None ↔ run_tags_failed run = []).
Definition released (job : SyncJob) (r : result ()) (h : trace) : Prop :=
  r = Ok tt ∧ ∃ h0 j a run b, settled job j run ∧
    h = h0 ++ [existT (PutSyncJob j) a; existT (PutSyncJobRun run) b; existT ReleasePermit tt].

Lemma outcome_settled job image tags s now status err :
  (∃ m, ts_synced s = [] ∧ ts_failed s = [("resolve", m)]) ∨ accounted tags s →
  run_outcome s = (status, err) →
  settled job (written_back job image tags now err)
    (mark_finished status (ts_synced s) (ts_failed s) now (ts_run s)).
Proof.
  intros Hs Ho. unfold settled. simpl. split_and!; [done..|by exists now|done| | |];
    unfold run_outcome in Ho; destruct (ts_failed s) as [|[??] ?], (ts_synced s); naive_solver.
Qed.

Lemma ignored_ends p h (Q : result () → trace → Prop) :
  ends h p (λ r h', match r with Panic => Q Panic h' | _ => Q (Ok tt) h' end) → ends h (ignored p) Q.
Proof. intros Hp. apply obeys_iobind. eapply obeys_impl; [apply Hp|]. by intros [a|e|] h'. Qed.

Lemma finish_ends job image tags s h :
  (∃ m, ts_synced s = [] ∧ ts_failed s = [("resolve", m)]) ∨ accounted tags s →
  ends h (finish_job job image tags s) (λ r h', r = Panic ∨ released job r h').
Proof.
  intros Hs. split; [done|]. intros now _. destruct (run_outcome s) as [status err] eqn:Ho.
  pose proof (outcome_settled job image tags s now status err Hs Ho) as Hset.
  set (h1 := h ++ _). apply obeys_bind, ignored_ends. split; [done|]. intros a _.
  assert (∀ b h', h' = h1 ++ [existT (PutSyncJob _) a; existT (PutSyncJobRun _) b; existT ReleasePermit tt] →
    released job (Ok tt) h') as Hrel by (intros b h' ->; split; [done|]; by do 5 eexists).
  destruct a as [[]|e|]; [..|by left]; apply obeys_bind, ignored_ends; (split; [done|]);
    intros [[]|e'|] _; try (by left); (split; [done|]); intros [] _; right; eapply Hrel;
    by rewrite <-!(assoc_L (++)).
Qed.

(** A claimed job is released: whatever the upstream and the stores answer,
    the task of a job, once it ends, writes the job back idle and unclaimed, with
    its next run set from its interval, records a run that accounts for every tag
    of the job exactly once as synchronized or failed (or says that resolving the
    tags failed), with a status that agrees, and gives up its permit; the task only
    ends otherwise by a panic. *)
Theorem claimed_job_released job run tr r :
  runs (run_job decode_tags pages rounds text job run) tr r → r = Panic ∨ released job r tr.
Proof.
  intros Hrun.
  assert (ends [] (run_job decode_tags pages rounds text job run) (λ r h, r = Panic ∨ released job r h)) as H.
  { eapply sturdy_bind; [apply progress_ends| |by left]. intros run1 h1 _.
    eapply sturdy_bind; [apply caught_ends| |by left]. intros [e|[[direction image] tags]] h2 _.
    - eapply sturdy_bind; [apply progress_ends| |by left]. intros run2 h3 _. apply finish_ends. left. by eexists.
    - eapply sturdy_bind; [apply progress_ends| |by left]. intros run2 h3 _.
      eapply sturdy_bind; [apply (sync_tags_ends _ _ _ _ _ _ []); unfold accounted; reflexivity| |by left].
      intros s h4 Hs. apply finish_ends. by right. }
  destruct (obeys_runs _ _ _ _ _ _ _ H Hrun) as [HQ _]; [by intros ? ? ? ?|done].
Qed.
End release.

(** * Schedules *)

Section schedules.
Context `{SJ : SerdeJson, HL : HttpLib, EX : Externals}.

Lemma each_plays {A} oracle (f : A → io ()) l x :
  (play oracle (each f l)).2 = Ok tt → x ∈ l → (play oracle (f x)).1 ⊆ (play oracle (each f l)).1.
Proof.
  induction l as [|y l IH]; intros Hp Hx; [by apply not_elem_of_nil in Hx|].
  cbn [each] in *. destruct (play_bind_inv _ _ _ _ Hp) as [[] Hy]. rewrite (play_bind _ _ _ _ Hy) in *.
  apply elem_of_cons in Hx as [->|Hx]; simpl.
  - by apply list_subseteq_app_l.
  - by apply list_subseteq_app_r, IH.
Qed.

(** Every desired job is reconciled. *)
Lemma reconcile_plays (oracle : ∀ e, answer e) (warm : list WarmImage) (rules : list MirrorRule)
    (caches : list ProxyCache) (jobs : list SyncJob) desired :
  oracle ListWarmImages = Ok warm → oracle ListMirrorRules = Ok rules → oracle ListProxyCaches = Ok caches →
  oracle ListSyncJobs = Ok jobs → (play oracle reconcile_jobs).2 = Ok tt →
  desired ∈ desired_jobs rules caches (oracle Now) →
  (play oracle (reconcile_scheduled (job_map jobs) desired)).1 ⊆ (play oracle reconcile_jobs).1.
Proof.
  intros Hw Hr Hc Hj Hok Hdesired. unfold reconcile_jobs in *.
  rewrite (play_bind oracle warm_images _ warm Hw) in Hok |- *.
  rewrite (play_bind oracle mirror_rules _ rules Hr) in Hok |- *.
  rewrite (play_bind oracle proxy_caches _ caches Hc) in Hok |- *.
  rewrite (play_bind oracle sync_jobs _ jobs Hj) in Hok |- *.
  rewrite (play_bind oracle now_epoch _ (oracle Now) eq_refl) in Hok |- *.
  cbn [fst snd] in *. destruct (play_bind_inv _ _ _ _ Hok) as [[] Heach].
  rewrite (play_bind _ _ _ _ Heach). do 5 apply list_subseteq_app_r. apply list_subseteq_app_l.
  by apply each_plays.
Qed.

(** A change of plan makes a job due. *)
Lemma reconcile_due existing desired :
  job_status existing = Idle → job_tags existing ≠ job_tags desired →
  ∃ u, reconcile_job existing desired = Some u ∧ job_id u = job_id desired ∧ job_status u = Idle ∧
    (job_next_run_at u ≤ job_next_run_at desired)%N.
Proof.
  intros Hidle Htags. unfold reconcile_job. rewrite bool_decide_eq_false_2 by (by rewrite Hidle).
  unfold same_plan. rewrite (bool_decide_eq_false_2 (job_tags _ = _)), andb_false_r by done.
  eexists. split; [done|]. split_and!; [done|done|]. simpl. lia.
Qed.

Lemma scheduled_rule rule now :
  is_Some (mr_schedule rule ≫= schedule_interval_secs) →
  ∃ interval, scheduled_mirror_job rule now
    = Some (mirror_rule_job rule ("mirror-rule-" +:+ mr_id rule) now interval).
Proof.
  intros [interval (schedule & Hs & Hi)%bind_Some]. exists interval. unfold scheduled_mirror_job.
  apply bind_Some. exists schedule. split; [done|]. apply bind_Some. by exists interval.
Qed.
Lemma update_plays oracle jobs existing desired u :
  NoDup (job_id <$> jobs) → existing ∈ jobs → job_id existing = job_id desired →
  reconcile_job existing desired = Some u →
  (play oracle (reconcile_scheduled (job_map jobs) desired)).1 = [existT (PutSyncJob u) (oracle (PutSyncJob u))].
Proof.
  intros Hnd Hin Hid Hu. unfold reconcile_scheduled. by rewrite <-Hid, (job_map_in _ _ Hnd Hin), Hu.
Qed.

(** A mirror job that has run is due again at the next tick, whatever its
    schedule: a run writes the job back with the tags it resolved, reconciliation
    compares them with the label of the rule's strategy, takes the difference for a
    change of the rule and moves the next run to now. So it is for every tick and
    every rule whose resolved tags are not literally its label. *)
Theorem finished_job_due_again (oracle : ∀ e, answer e) rule old image tags t err
    (warm : list WarmImage) (rules : list MirrorRule) (caches : list ProxyCache) (jobs : list SyncJob) :
  oracle ListWarmImages = Ok warm → oracle ListMirrorRules = Ok rules → oracle ListProxyCaches = Ok caches →
  oracle ListSyncJobs = Ok jobs → (play oracle reconcile_jobs).2 = Ok tt →
  rule ∈ rules → is_Some (mr_schedule rule ≫= schedule_interval_secs) →
  NoDup (job_id <$> jobs) → job_id old = "mirror-rule-" +:+ mr_id rule → written_back old image tags t err ∈ jobs →
  tags ≠ mirror_strategy_labels (mr_strategy rule) →
  ∃ u, existT (PutSyncJob u) (oracle (PutSyncJob u)) ∈ (play oracle reconcile_jobs).1 ∧
    job_id u = job_id old ∧ job_status u = Idle ∧ (job_next_run_at u ≤ oracle Now)%N.
Proof.
  intros Hw Hr Hc Hj Hok Hrule Hs Hnd Hid Hjob Htags.
  destruct (scheduled_rule rule (oracle Now) Hs) as [interval Hd].
  set (desired := mirror_rule_job _ _ _ _) in Hd.
  destruct (reconcile_due (written_back old image tags t err) desired eq_refl Htags) as (u & Hu & Huid & Hidle & Hnext).
  exists u. split_and!; [|by rewrite Huid, Hid|done|done].
  apply (reconcile_plays oracle warm rules caches jobs desired Hw Hr Hc Hj Hok).
  - apply elem_of_app. left. apply list_elem_of_omap. by exists rule.
  - rewrite (update_plays oracle jobs (written_back old image tags t err) desired u Hnd Hjob Hid Hu). left.
Qed.
End schedules.

(** * Samples *)

(** A rule that mirrors every tag at the start of every hour, and its job after a
    run at second 1000 that found one tag. *)
Definition hourly_rule : MirrorRule :=
  MkMirrorRule "m1" DirPull "hub" "docker.io" None (Some "0 * * * *") StrategyAll false false
    (MkOutboundProxy ProxyNone None None None) None None 100.
Definition hourly_job : SyncJob :=
  written_back (mirror_rule_job hourly_rule "mirror-rule-m1" 900 3600) "hub" ["v1"] 1000 None.
Definition tick_oracle (e : event) : answer e :=
  match e with
  | ListMirrorRules => Ok [hourly_rule]
  | ListSyncJobs => Ok [hourly_job]
  | Now => 1015%N
  | e' => sample_oracle true e'
  end.

(** The next run was at 4600, but is now at 1015. *)
Lemma finished_job_due_again_witness :
  job_next_run_at hourly_job = 4600%N ∧
  ∃ u, existT (PutSyncJob u) (tick_oracle (PutSyncJob u)) ∈ (play tick_oracle reconcile_jobs).1 ∧
    job_id u = job_id hourly_job ∧ job_status u = Idle ∧ (job_next_run_at u ≤ 1015)%N.
Proof.
  split; [reflexivity|].
  apply (finished_job_due_again tick_oracle hourly_rule (mirror_rule_job hourly_rule "mirror-rule-m1" 900 3600)
    "hub" ["v1"] 1000 None [] [hourly_rule] [] [hourly_job]); try reflexivity.
  - left.
  - vm_compute. by eexists.
  - apply NoDup_singleton.
  - left.
  - done.
Defined.

Lemma running_jobs_untouched_witness :
  ∃ j a, (play tick_oracle reconcile_jobs).1 !! 5 = Some (existT (PutSyncJob j) a) ∧
    job_allowed (take 5 (play tick_oracle reconcile_jobs).1) (PutSyncJob j).
Proof.
  do 2 eexists. split; [vm_compute; reflexivity|].
  eapply (running_jobs_untouched _ _ 5); [apply play_runs| |vm_compute; reflexivity].
  apply play_calm. intros []; try done. intros jobs [= <-]. apply NoDup_singleton.
Defined.

(** A run of the job with an upstream that fails. *)
Definition sample_task := play (sample_oracle false)
  (run_job (λ _, inr None) 1 10 (λ _, "error") hourly_job (SyncJobRun_running "r1" "mirror-rule-m1" "node-a" 1015)).
Lemma claimed_job_released_witness : sample_task.2 = Ok tt ∧ (sample_task.2 = Panic ∨ released hourly_job sample_task.2 sample_task.1).
Proof.
  split; [vm_compute; reflexivity|]. apply (claimed_job_released (λ _, inr None) 1 10 (λ _, "error") hourly_job
    (SyncJobRun_running "r1" "mirror-rule-m1" "node-a" 1015)). apply play_runs.
Defined.
