(* ===== verification/BlobRoutes.v ===== *)
(** The blob routes (crates/layerhouse-server/src/routes/blobs.rs) as programs
    over [Io]: a blob is looked up, pulled from an upstream if it is missing, and
    served whole, in part or by a redirect; a delete is a request that hides the
    blob until it is collected. *)

From Stdlib Require Import Ascii.
From stdpp Require Import options.
From S2P Require Import Prelude Errors Digests Manifests Permissions SyncRuns Types StateMachine Samples S3Client Io.
From S2P Require Import Upstream Mirror Pulls.

(** * Ranges *)

Definition parse_range (range_value : string) (total_size : N) : option (N * N) :=
  if bool_decide (total_size = 0)%N then None
  else
    range_value ← Str.strip_prefix "bytes=" range_value;
    '(start_str, end_str) ← Str.split_once "-" range_value;
    if Str.is_empty start_str then
      suffix_len ← Str.parse_u64 end_str;
      if bool_decide (suffix_len = 0)%N then None
      else Some (U64.saturating_sub total_size suffix_len, total_size - 1)%N
    else
      start ← Str.parse_u64 start_str;
      last ← (if Str.is_empty end_str then Some (total_size - 1)%N else Str.parse_u64 end_str);
      if bool_decide (last < start ∨ total_size ≤ start)%N then None
      else Some (start, last `min` (total_size - 1))%N.

(** * Handlers *)

Record BlobResponse := MkBlobResponse {
  br_status : N;
  br_headers : list (string * string);
  br_body : option (list (message + bytes));
}.

Section routes.
Context `{SJ : SerdeJson, HL : HttpLib, EX : Externals}.
(** [redirect_enabled] of the blob store. *)
Context (redirect_enabled : bool).

Definition blob_unknown (digest_str : string) : LayerhouseError := BlobUnknown [Disp digest_str].
(** [map_err(|_| BlobUnknown(..))]. *)
Definition or_unknown {A} (digest_str : string) (r : result A) : io A :=
  Fin (match r with Err _ => Err (blob_unknown digest_str) | r => r end).

Definition stat_or_pull (name : string) (digest : Digest) (digest_str : string) : io N :=
  Eff (BlobLifecycle digest) (λ r,
    match r with
    | Ok lifecycle =>
        if bl_delete_requested lifecycle && negb (bl_referenced lifecycle) then throw (blob_unknown digest_str)
        else Eff (BlobStat digest) (λ r,
          match r with
          | Err (BlobUnknown _) =>
              pulled ← pull_blob name digest;
              match pulled with
              | true => Eff (BlobStat digest) (or_unknown digest_str)
              | false => throw (blob_unknown digest_str)
              end
          | r => Fin r
          end)
    | Err e => throw e
    | Panic => Fin Panic
    end).

Definition octet_stream : string * string := ("Content-Type", "application/octet-stream").
Definition accept_ranges : string * string := ("Accept-Ranges", "bytes").

Definition head_blob_route (name digest_str : string) : io BlobResponse :=
  digest ← Fin (digest_try_from digest_str);
  size ← stat_or_pull name digest digest_str;
  ret (MkBlobResponse 200
         [("Content-Length", Str.of_u64 size); ("Docker-Content-Digest", digest_to_string digest);
          octet_stream; accept_ranges] None).

Definition get_blob_range (name : string) (digest : Digest) (range_value : string) : io BlobResponse :=
  let digest_str := digest_to_string digest in
  total_size ← stat_or_pull name digest digest_str;
  match parse_range range_value total_size with
  | None => throw (Unsupported [Lit "invalid range"])
  | Some (first, last) =>
      stream ← Eff (BlobGetRange digest first last) (or_unknown digest_str);
      ret (MkBlobResponse 206
             [octet_stream; ("Docker-Content-Digest", digest_str);
              ("Content-Length", Str.of_u64 (U64.wrap (last - first + 1)));
              ("Content-Range", "bytes " +:+ Str.of_u64 first +:+ "-" +:+ Str.of_u64 last +:+ "/" +:+
                                Str.of_u64 total_size);
              accept_ranges] (Some stream))
  end.

(** [range] is the value of the [Range] header, if it is a valid string. *)
Definition get_blob_route (name digest_str : string) (range : option string) : io BlobResponse :=
  digest ← Fin (digest_try_from digest_str);
  match range with
  | Some range_value => get_blob_range name digest range_value
  | None =>
      size ← stat_or_pull name digest digest_str;
      if redirect_enabled then
        location ← Eff (PresignedUrl digest) Fin;
        _ ← check (header_error location) Serialization;
        _ ← check (header_error (digest_to_string digest)) Serialization;
        ret (MkBlobResponse 307
               [("Location", location); octet_stream; ("Docker-Content-Digest", digest_to_string digest);
                ("Content-Length", "0"); accept_ranges] None)
      else
        stream ← Eff (BlobGet digest) (or_unknown digest_str);
        ret (MkBlobResponse 200
               [octet_stream; ("Docker-Content-Digest", digest_to_string digest);
                ("Content-Length", Str.of_u64 size); accept_ranges] (Some stream))
  end.

Definition delete_blob (digest_str : string) : io BlobResponse :=
  digest ← Fin (digest_try_from digest_str);
  _ ← Eff (RecordBlobDelete digest) Fin;
  ret (MkBlobResponse 202 [] None).

Definition blobs_dispatch (method : Method) (name digest_str : string) (range : option string) : io BlobResponse :=
  match method with
  | HEAD => head_blob_route name digest_str
  | GET => get_blob_route name digest_str range
  | DELETE => delete_blob digest_str
  | _ => throw (Unsupported [Lit "method not allowed"])
  end.
End routes.

(** * Theorems on ranges *)

Lemma parse_digits_all s acc n : Str.parse_digits acc s = Some n → Str.all Str.is_ascii_digit s = true.
Proof.
  revert acc. induction s as [|a s IH]; intros acc; cbn [Str.parse_digits Str.all]; [done|].
  intros (d & Hd & H)%bind_Some. unfold Str.digit_value in Hd. destruct (Str.is_ascii_digit a); [|done].
  case_bool_decide; [|done]. by eapply IH.
Qed.
Lemma of_u64_digits n : U64.fits n → Str.all Str.is_ascii_digit (Str.of_u64 n) = true.
Proof. intros Hn. by eapply parse_digits_all, parse_digits_of_u64. Qed.
Lemma of_u64_nonempty n : U64.fits n → Str.is_empty (Str.of_u64 n) = false.
Proof.
  intros Hn. pose proof (parse_digits_of_u64 n Hn) as Hp. destruct (Str.of_u64 n) as [|a s] eqn:He; [|done].
  injection Hp as <-. vm_compute in He. done.
Qed.
Lemma digits_no_char c s : Str.is_ascii_digit c = false → Str.all Str.is_ascii_digit s = true →
  Str.contains_char c s = false.
Proof.
  intros Hc. induction s as [|a s IH]; [done|]. cbn [Str.all]. intros [Ha Hs]%andb_true_iff.
  rewrite contains_char_cons, IH, bool_decide_eq_false_2 by (congruence || done). done.
Qed.
Lemma parse_of_u64 n : U64.fits n → Str.parse_u64 (Str.of_u64 n) = Some n.
Proof.
  intros Hn. pose proof (of_u64_digits n Hn) as Hd. pose proof (of_u64_nonempty n Hn) as He.
  unfold Str.parse_u64.
  assert (Str.strip_prefix "+" (Str.of_u64 n) = None) as ->.
  { destruct (Str.of_u64 n) as [|a s]; [done|]. cbn [Str.strip_prefix]. case_decide as Ha; [|done].
    subst. done. }
  cbn [default from_option]. rewrite He. by apply parse_digits_of_u64.
Qed.
Lemma split_range a s : U64.fits a → Str.split_once "-" (Str.of_u64 a +:+ String "-" s) = Some (Str.of_u64 a, s).
Proof. intros Ha. apply split_once_Some. split; [done|]. by apply digits_no_char, of_u64_digits. Qed.

(** What a [Range] header selects: the bytes from [a] to [b] inclusive, cut at
    the end of the blob, and none if [a] is past it or after [b]; from [a] on; or
    the last [n] bytes. Whatever the header says, an accepted range lies within the
    blob, so that its length is at least one and does not wrap around. *)
Theorem range_exact total :
  (∀ v first last, parse_range v total = Some (first, last) → first ≤ last ∧ last < total)%N ∧
  (∀ a b, U64.fits a → U64.fits b →
     parse_range ("bytes=" +:+ Str.of_u64 a +:+ "-" +:+ Str.of_u64 b) total
     = if bool_decide (a ≤ b ∧ a < total)%N then Some (a, b `min` (total - 1))%N else None) ∧
  (∀ a, U64.fits a →
     parse_range ("bytes=" +:+ Str.of_u64 a +:+ "-") total
     = if bool_decide (a < total)%N then Some (a, total - 1)%N else None) ∧
  (∀ n, U64.fits n →
     parse_range ("bytes=-" +:+ Str.of_u64 n) total
     = if bool_decide (0 < n ∧ 0 < total)%N then Some (total - n, total - 1)%N else None).
Proof.
  unfold parse_range. split_and!.
  - intros v first last. case_bool_decide as Hz; [done|]. intros (v' & _ & ([s e] & _ & H)%bind_Some)%bind_Some.
    destruct (Str.is_empty s).
    + apply bind_Some in H as (n & _ & H). case_bool_decide; [done|]. injection H as <- <-. unfold U64.saturating_sub. lia.
    + apply bind_Some in H as (f & _ & (l & _ & H)%bind_Some). case_bool_decide; [done|]. injection H as <- <-. lia.
  - intros a b Ha Hb. case_bool_decide; [rewrite bool_decide_eq_false_2 by lia; done|].
    rewrite strip_prefix_app. cbn [mbind option_bind].
    change ("-" +:+ Str.of_u64 b) with (String "-" (Str.of_u64 b)). rewrite split_range by done. cbn [mbind option_bind].
    rewrite !of_u64_nonempty, !parse_of_u64 by done. cbn [mbind option_bind]. repeat case_bool_decide; try done; lia.
  - intros a Ha. case_bool_decide; [rewrite bool_decide_eq_false_2 by lia; done|].
    rewrite strip_prefix_app. cbn [mbind option_bind].
    rewrite (split_range a "") by done. cbn [mbind option_bind].
    rewrite of_u64_nonempty, parse_of_u64 by done. cbn [mbind option_bind Str.is_empty].
    repeat case_bool_decide; try lia; [done|]. rewrite N.min_id. done.
  - intros n Hn. case_bool_decide; [rewrite bool_decide_eq_false_2 by lia; done|].
    change ("bytes=-" +:+ Str.of_u64 n) with ("bytes=" +:+ String "-" (Str.of_u64 n)).
    rewrite strip_prefix_app. cbn [mbind option_bind].
    change (String "-" (Str.of_u64 n)) with ("" +:+ String "-" (Str.of_u64 n)).
    rewrite (proj2 (split_once_Some "-" _ "" (Str.of_u64 n))) by done. cbn [mbind option_bind Str.is_empty].
    rewrite parse_of_u64 by done. cbn [mbind option_bind]. repeat case_bool_decide; try done; lia.
Qed.

(** * Theorems on the routes *)

Section serving.
Context `{SJ : SerdeJson, HL : HttpLib, EX : Externals}.
Context (redirect_enabled : bool).

(** The metadata store said that the blob's delete was requested and that nothing
    refers to it. *)
Definition hides (x : { e : event & answer e }) : bool :=
  match x with
  | existT (BlobLifecycle _) a =>
      match a with Ok l => bl_delete_requested l && negb (bl_referenced l) | _ => false end
  | _ => false
  end.
Definition hidden (h : trace) : Prop := Exists (λ x, hides x = true) h.
Definition still (h : trace) (e : event) : Prop := ¬ hidden h.
Definition not_found {A} (r : result A) (h : trace) : Prop := hidden h → ∃ m, r = Err (BlobUnknown m).
Abbreviation shows := (obeys still (λ (_ : event) _, True)).

Lemma hidden_snoc h x : hidden (h ++ [x]) ↔ hidden h ∨ hides x = true.
Proof. unfold hidden. rewrite Exists_app, Exists_cons, Exists_nil. naive_solver. Qed.

(** Programs that do not ask for the lifecycle of a blob. *)
Fixpoint unasked {A} (p : io A) : Prop :=
  match p with Fin _ => True | Eff e k => match e with BlobLifecycle _ => False | _ => True end ∧ ∀ a, unasked (k a) end.
Lemma unasked_iobind {A B} (p : io A) (f : result A → io B) :
  unasked p → (∀ r, unasked (f r)) → unasked (iobind p f).
Proof. intros Hp Hf. induction p as [r|e k IH]; simpl in *; [auto|]. destruct Hp. split; [done|]. auto. Qed.
Lemma unasked_bind {A B} (p : io A) (f : A → io B) : unasked p → (∀ a, unasked (f a)) → unasked (p ≫= f).
Proof. intros Hp Hf. apply unasked_iobind; [done|]. by intros [a|e|]. Qed.
Lemma unasked_client {A} (p : io A) : client p → unasked p.
Proof. induction p as [r|e k IH]; simpl; [done|]. intros [He Hk]. split; [by destruct e|]. auto. Qed.
Lemma unasked_shows {A} (p : io A) h (Q : result A → trace → Prop) :
  unasked p → ¬ hidden h → (∀ r h', ¬ hidden h' → Q r h') → shows h p Q.
Proof.
  intros Hp Hh HQ. revert h Hh. induction p as [r|e k IH]; intros h Hh; simpl in *; [by apply HQ|].
  destruct Hp as [He Hk]. split; [done|]. intros a _. apply IH; [done|].
  rewrite hidden_snoc. intros [?|Hx]; [done|]. by destruct e.
Qed.

Lemma deduplicated_unasked {A} key (after_wait pull : io A) :
  unasked after_wait → unasked pull → unasked (deduplicated key after_wait pull).
Proof.
  intros Hw Hp. split; [done|]. intros [|]; [done|]. apply unasked_iobind; [done|]. by intros [a|e|].
Qed.
Lemma pull_blob_once_unasked key dg u : unasked (pull_blob_once key dg u).
Proof.
  apply deduplicated_unasked; [by split|]. apply unasked_bind; [|done].
  apply unasked_bind; [apply unasked_client, ensure_auth_scope_client|]. intros _.
  apply unasked_bind; [apply unasked_client, get_blob_client|]. intros resp. by split.
Qed.
Lemma pull_blob_unasked name dg : unasked (pull_blob name dg).
Proof.
  apply unasked_bind.
  - apply unasked_bind.
    + split; [done|]. intros cached. simpl. case_bool_decide; [done|]. split; [done|]. by intros [l|e|].
    + intros caches. destruct (match_proxy_cache _ _) as [[cache up]|]; [|done]. apply pull_blob_once_unasked.
  - intros [|]; [done|]. apply unasked_bind.
    + split; [done|]. intros cached. simpl. case_bool_decide; [done|]. split; [done|]. by intros [l|e|].
    + intros rules. destruct (match_rule _ _) as [[rule up]|]; [|done]. apply pull_blob_once_unasked.
Qed.

Lemma hidden_nil : ¬ hidden [].
Proof. by intros ?%Exists_nil. Qed.

Lemma stat_or_pull_shows name dg dstr :
  shows [] (stat_or_pull name dg dstr) (λ r h, not_found r h ∧ (∀ n, r = Ok n → ¬ hidden h)).
Proof.
  assert (∀ (r : result N) h, ¬ hidden h → not_found r h ∧ (∀ n, r = Ok n → ¬ hidden h)) as HQ
    by (intros r h Hn; split; [by intros ?|done]).
  split; [apply hidden_nil|]. intros [l|e|] _.
  2, 3: apply HQ; rewrite hidden_snoc; by intros [?%hidden_nil|?].
  destruct (bl_delete_requested l && negb (bl_referenced l)) eqn:Hl.
  { simpl. split; [|done]. intros _. by eexists. }
  set (h := [] ++ _). assert (¬ hidden h) as Hh.
  { subst h. rewrite hidden_snoc. simpl. rewrite Hl. by intros [?%hidden_nil|?]. }
  apply unasked_shows; [|done|intros; by apply HQ].
  split; [done|]. intros [n|e|]; [done|destruct e; try done|done].
  apply unasked_bind; [apply pull_blob_unasked|]. intros [|]; [|done]. by split.
Qed.

(** A handler that looks the blob up first. *)
Lemma route_shows {B} name dg dstr (f : N → io B) :
  (∀ n, unasked (f n)) → shows [] (stat_or_pull name dg dstr ≫= f) not_found.
Proof.
  intros Hf. apply obeys_bind. eapply obeys_impl; [apply stat_or_pull_shows|].
  intros [n|e|] h [Hnf Hh].
  - apply unasked_shows; [done|by eapply Hh|]. by intros r h' ? ?.
  - intros Hhid. destruct (Hnf Hhid) as [m Hm]. exists m. congruence.
  - intros Hhid. by destruct (Hnf Hhid) as [m Hm].
Qed.

(** A blob whose delete was requested and that nothing refers to is hidden:
    HEAD and GET (whole, in part or by redirect) answer that it is unknown as soon
    as the metadata store says so, without touching the blob store or an upstream,
    so that it is not pulled back in. *)
Theorem deleted_blob_hidden method name dstr range tr r i x :
  runs (blobs_dispatch redirect_enabled method name dstr range) tr r → method ∈ [HEAD; GET] →
  tr !! i = Some x → hides x = true →
  length tr = S i ∧ ∃ m, r = Err (BlobUnknown m).
Proof.
  intros Hrun Hm Hi Hx.
  assert (shows [] (blobs_dispatch redirect_enabled method name dstr range) not_found) as H.
  { rewrite elem_of_cons, list_elem_of_singleton in Hm. destruct Hm as [->| ->]; apply obeys_bind; simpl;
      unfold digest_try_from; (destruct (from_str_checked dstr); simpl; [|by intros ?%hidden_nil]).
    - by apply route_shows.
    - destruct range as [v|]; apply route_shows; intros n.
      + destruct (parse_range v n) as [[f l]|]; [|done]. split; [done|]. by intros [s|e|].
      + destruct redirect_enabled; (split; [done|]); intros [s|e|]; try done.
        simpl. apply unasked_bind; [by destruct (header_error _)|]. intros _.
        apply unasked_bind; [by destruct (header_error _)|done]. }
  destruct (obeys_runs _ _ _ _ _ _ _ H Hrun) as [HQ Hall]; [by intros ? ? ? ?|].
  assert (∀ j, i < j → hidden (take j tr)) as Hhid.
  { intros j Hj. apply Exists_exists. exists x. split; [|done]. apply list_elem_of_lookup. exists i.
    by rewrite lookup_take_lt. }
  split.
  - apply lookup_lt_Some in Hi as Hlt. destruct (tr !! S i) as [[e a]|] eqn:Hn.
    + exfalso. eapply (Hall (S i) e a Hn). apply Hhid. lia.
    + apply lookup_ge_None in Hn. lia.
  - apply HQ. apply lookup_lt_Some in Hi as Hlt. rewrite <-(firstn_all tr). simpl. by apply Hhid.
Qed.
End serving.

Lemma range_exact_witness : parse_range "bytes=2-900" 10 = Some (2, 9)%N ∧ (2 ≤ 9 ∧ 9 < 10)%N.
Proof.
  split; [|apply (proj1 (range_exact 10) "bytes=2-900"); reflexivity].
  exact (proj1 (proj2 (range_exact 10)) 2%N 900%N eq_refl eq_refl).
Defined.

Definition deleted_oracle (e : event) : answer e :=
  match e with
  | BlobLifecycle dg => Ok (MkBlobLifecycleStatus (digest_to_string dg) false 0 true)
  | e' => sample_oracle true e'
  end.
Definition deleted_get := play deleted_oracle (blobs_dispatch false GET "hub/app" blob_a None).
Lemma deleted_blob_hidden_witness : length deleted_get.1 = 1 ∧ ∃ m, deleted_get.2 = Err (BlobUnknown m).
Proof.
  eapply (deleted_blob_hidden false GET "hub/app" blob_a None _ _ 0); [apply play_runs| |vm_compute; reflexivity|reflexivity].
  right. left.
Defined.
