(* ===== verification/Dedup.v ===== *)
(** The table of pulls in progress (crates/layerhouse-server/src/mirror/mod.rs:
    the [inflight] map of [MirrorManager] and the code around each pull that uses
    it), for one key, as a step relation over the requests that share it.

    A request that finds the key in the table clones its [Notify], drops the lock
    and then registers as a waiter; one that does not inserts a new [Notify] and
    pulls. When the pull has ended, the entry is removed under the lock and the
    waiters registered by then are notified. A request may be dropped at any of its
    waits, when its client goes away: the futures of the handlers are not
    detached. *)

From stdpp Require Import gmap relations options.
From S2P Require Import Prelude.

(** * Model *)

(** Where a request is; the number names a [Notify]. *)
Inductive phase :=
  | Cloned (n : nat)
  | Waiting (n : nat)
  | Pulling (n : nat)
  | Removed (n : nat)
  | Woken
  | Finished
  | Dropped.
#[global] Instance phase_eq_dec : EqDecision phase.
Proof. solve_decision. Defined.

Record table := MkTable {
  inflight : option nat;
  next_notify : nat;
  requests_of : gmap nat phase;
}.
Definition empty_table : table := MkTable None 0 ∅.

(** [notify_waiters]: the requests registered now. *)
Definition wake (n : nat) (p : phase) : phase := if bool_decide (p = Waiting n) then Woken else p.

Inductive step : table → table → Prop :=
  (** The lock is taken and the key is found. *)
  | enter_found i n k rs t :
      i = Some n → rs !! t = None → step (MkTable i k rs) (MkTable i k (<[t := Cloned n]> rs))
  (** The lock is taken and a new entry inserted. *)
  | enter_inserted i k rs t :
      i = None → rs !! t = None → step (MkTable i k rs) (MkTable (Some k) (S k) (<[t := Pulling k]> rs))
  (** [notify.notified()], after the lock was dropped. *)
  | register i k rs t n :
      rs !! t = Some (Cloned n) → step (MkTable i k rs) (MkTable i k (<[t := Waiting n]> rs))
  (** [inflight.lock().await.remove(&dedup_key)], after the pull. *)
  | remove i k rs t n :
      rs !! t = Some (Pulling n) → step (MkTable i k rs) (MkTable None k (<[t := Removed n]> rs))
  (** [notify.notify_waiters()]. *)
  | notify i k rs t n :
      rs !! t = Some (Removed n) → step (MkTable i k rs) (MkTable i k (<[t := Finished]> (wake n <$> rs)))
  (** A woken request reads the store and returns. *)
  | resume i k rs t :
      rs !! t = Some Woken → step (MkTable i k rs) (MkTable i k (<[t := Finished]> rs))
  (** The future is dropped, at an await point. *)
  | cancel i k rs t p :
      rs !! t = Some p → (∃ n, p = Waiting n ∨ p = Pulling n) →
      step (MkTable i k rs) (MkTable i k (<[t := Dropped]> rs)).

(** The cases of a step, by the request that takes it. *)
Ltac step_cases H :=
  destruct H as [i m k rs u Hi Hu|i k rs u Hi Hu|i k rs u m Hu|i k rs u m Hu|i k rs u m Hu|i k rs u Hu|i k rs u q Hu _];
  cbn [requests_of inflight next_notify] in *.

(** * One pull at a time *)

(** A request that pulls has its [Notify] in the table, under which nobody else
    pulls. *)
Definition table_ok (s : table) : Prop :=
  (∀ t n, requests_of s !! t = Some (Pulling n) → inflight s = Some n) ∧
  (∀ t t' n, requests_of s !! t = Some (Pulling n) → requests_of s !! t' = Some (Pulling n) → t = t') ∧
  (∀ t n, requests_of s !! t = Some (Pulling n) → n < next_notify s) ∧
  (∀ n, inflight s = Some n → n < next_notify s).

Lemma wake_Pulling n p m : wake n p = Pulling m ↔ p = Pulling m.
Proof. unfold wake. case_bool_decide; naive_solver. Qed.

Lemma step_ok s s' : step s s' → table_ok s → table_ok s'.
Proof.
  intros Hstep (H1 & H2 & H3 & H4).
  step_cases Hstep;
    unfold table_ok in *; cbn [requests_of inflight next_notify] in *; subst; split_and!;
    repeat setoid_rewrite lookup_insert_Some; try setoid_rewrite lookup_fmap_Some;
    try setoid_rewrite wake_Pulling; try naive_solver lia.
  (* The request that removed the entry was the only one that pulled. *)
  intros t0 n0 [[? ?]|[Hne Ht0]]; [done|]. pose proof (H1 _ _ Hu). pose proof (H1 _ _ Ht0). simplify_eq.
  by destruct Hne; eapply H2.
Qed.
Lemma reachable_ok s : rtc step empty_table s → table_ok s.
Proof.
  assert (table_ok empty_table) as H0 by (by split_and!). revert H0. generalize empty_table.
  induction 2 as [|s1 s2 s3 H12 _ IH]; [done|]. apply IH. by eapply step_ok.
Qed.

(** At most one request pulls for a key at a time, whatever the interleaving
    of the requests and whichever of them are dropped. *)
Theorem one_pull_per_key s t t' n n' :
  rtc step empty_table s →
  requests_of s !! t = Some (Pulling n) → requests_of s !! t' = Some (Pulling n') → t = t'.
Proof.
  intros (H1 & H2 & _)%reachable_ok Ht Ht'. pose proof (H1 _ _ Ht). pose proof (H1 _ _ Ht'). simplify_eq. by eapply H2.
Qed.

(** * Waiters that are never woken *)

(** Nobody is left to notify the waiters of [n]. *)
Definition orphaned (n : nat) (s : table) : Prop :=
  (n < next_notify s) ∧ ∀ t, requests_of s !! t ≠ Some (Pulling n) ∧ requests_of s !! t ≠ Some (Removed n).
(** Where a request that waits for [n] stays. *)
Definition waits_for (n : nat) (p : phase) : Prop := p = Cloned n ∨ p = Waiting n ∨ p = Dropped.

Lemma wake_Removed n p m : wake n p = Removed m ↔ p = Removed m.
Proof. unfold wake. case_bool_decide; naive_solver. Qed.

Lemma orphaned_step n s s' : step s s' → orphaned n s → orphaned n s'.
Proof.
  intros Hstep [Hlt Ho]. assert (∀ t p, requests_of s !! t = Some p → p ≠ Pulling n ∧ p ≠ Removed n) as Hp.
  { intros t p Ht. destruct (Ho t). naive_solver. }
  step_cases Hstep;
    (split; [cbn; lia|]); intros t0; cbn;
    rewrite lookup_insert, ?lookup_fmap; case_decide; subst; try (by naive_solver lia).
  - destruct (rs !! t0) as [p|] eqn:Ht0; [|done]. cbn. destruct (Hp t0 p Ht0).
    split; intros [= Hw]; [apply wake_Pulling in Hw|apply wake_Removed in Hw]; by subst.
Qed.

Lemma waiter_step n s s' t p :
  step s s' → orphaned n s → requests_of s !! t = Some p → waits_for n p →
  ∃ p', requests_of s' !! t = Some p' ∧ waits_for n p'.
Proof.
  intros Hstep [_ Ho] Ht Hp.
  assert (∀ m, requests_of s !! t = Some (Waiting m) → m = n) as Hm by (intros m Hm; unfold waits_for in Hp; naive_solver).
  step_cases Hstep;
    rewrite lookup_insert, ?lookup_fmap; case_decide; subst; simplify_eq;
    try (by destruct Hp as [?|[?|?]]); try (by eexists); try (by eexists; split; [done|]; unfold waits_for in *; naive_solver).
  rewrite Ht. eexists. split; [done|]. unfold wake. case_bool_decide as Hw; [|done].
  subst. rewrite (Hm _ Ht) in *. by destruct (Ho u).
Qed.

Lemma orphaned_forever n s s' t p :
  rtc step s s' → orphaned n s → requests_of s !! t = Some p → waits_for n p →
  orphaned n s' ∧ ∃ p', requests_of s' !! t = Some p' ∧ waits_for n p'.
Proof.
  intros Hsteps. revert p. induction Hsteps as [s|s1 s2 s3 H12 _ IH]; intros p Ho Ht Hp; [by eauto|].
  destruct (waiter_step n s1 s2 t p) as (p' & Ht' & Hp'); [done..|]. eapply IH; [by eapply orphaned_step|done..].
Qed.

(** The entry of a pull that was dropped: it stays, and everybody who comes waits. *)
Definition abandoned (n : nat) (s : table) : Prop := inflight s = Some n ∧ orphaned n s.
Lemma abandoned_step n s s' : table_ok s → step s s' → abandoned n s → abandoned n s'.
Proof.
  intros (H1 & _) Hstep [Hfl Ho]. split; [|by eapply orphaned_step].
  step_cases Hstep;
    cbn in *; subst; try done.
  pose proof (H1 _ _ Hu). simplify_eq. by destruct (proj2 Ho u).
Qed.
Lemma abandoned_newcomer n s s' t :
  rtc step s s' → table_ok s → abandoned n s → requests_of s !! t = None →
  match requests_of s' !! t with Some p => waits_for n p | None => True end.
Proof.
  intros Hsteps. induction Hsteps as [s|s1 s2 s3 H12 H23 IH]; intros Hok Ha Ht; [by rewrite Ht|].
  assert (table_ok s2) by (by eapply step_ok). assert (abandoned n s2) as Ha2 by (by apply (abandoned_step n s1 s2)).
  destruct (requests_of s2 !! t) as [p|] eqn:Ht2; [|by apply IH].
  assert (waits_for n p) as Hp.
  { destruct Ha as [Hfl _]. step_cases H12;
      cbn in *; simplify_eq; try rewrite lookup_insert in Ht2; rewrite ?lookup_fmap in Ht2;
      try (case_decide; subst); simplify_eq;
      try congruence; try (by rewrite Ht in Ht2); try by left. }
  destruct (orphaned_forever n s2 s3 t p H23 (proj2 Ha2) Ht2 Hp) as (_ & p' & -> & ?). done.
Qed.

(** The first request inserts the entry, the second finds it. *)
Definition pulling : table := MkTable (Some 0) 1 (<[0 := Pulling 0]> ∅).
Lemma pulling_reachable : rtc step empty_table pulling.
Proof. apply rtc_once. by apply enter_inserted. Qed.

Lemma step_eq s s' i k rs : step s (MkTable i k rs) → s' = MkTable i k rs → step s s'.
Proof. by intros ? ->. Qed.

(** A wakeup can be lost without any request being dropped: the second request
    clones the [Notify] and lets go of the lock, the first one ends its pull,
    removes the entry and notifies before the second has registered, which then
    waits for ever on a [Notify] nobody has. *)
Theorem wakeup_lost :
  ∃ s, rtc step empty_table s ∧ (∀ t, requests_of s !! t ≠ Some Dropped) ∧
    requests_of s !! 0 = Some Finished ∧ requests_of s !! 1 = Some (Waiting 0) ∧
    ∀ s', rtc step s s' → ∃ p, requests_of s' !! 1 = Some p ∧ waits_for 0 p.
Proof.
  set (s := MkTable None 1 (<[1 := Waiting 0]> (<[0 := Finished]> ∅))).
  assert (∀ t p, requests_of s !! t = Some p → p = Waiting 0 ∨ p = Finished) as Hs.
  { intros t p. cbn. rewrite !lookup_insert_Some, lookup_empty. naive_solver. }
  assert (rtc step empty_table s) as Hr.
  { apply (rtc_r _ (MkTable None 1 (<[1 := Cloned 0]> (<[0 := Finished]> ∅)))).
    2: by eapply step_eq; [by apply (register _ _ _ 1 0)|].
    apply (rtc_r _ (MkTable None 1 (<[1 := Cloned 0]> (<[0 := Removed 0]> ∅)))).
    2: by eapply step_eq; [by apply (notify _ _ _ 0 0)|].
    apply (rtc_r _ (MkTable (Some 0) 1 (<[1 := Cloned 0]> (<[0 := Pulling 0]> ∅)))).
    2: by eapply step_eq; [by apply (remove _ _ _ 0 0)|].
    eapply rtc_r; [apply pulling_reachable|]. by apply enter_found. }
  exists s. split_and!; [done|by intros t [?|?]%Hs|done|done|].
  intros s' Hsteps. apply (orphaned_forever 0 s s' 1 (Waiting 0)); [done| |done|by right; left].
  split; [cbn; lia|]. intros t. split; by intros [?|?]%Hs.
Qed.

(** A pull that is dropped blocks its key for good: its entry stays in the
    table, and no request that comes later ever pulls or returns. *)
Theorem dropped_pull_blocks_key :
  ∃ s, rtc step empty_table s ∧ ∀ s' t, rtc step s s' → requests_of s !! t = None →
    match requests_of s' !! t with
    | Some p => p = Cloned 0 ∨ p = Waiting 0 ∨ p = Dropped
    | None => True
    end.
Proof.
  exists (MkTable (Some 0) 1 (<[0 := Dropped]> (<[0 := Pulling 0]> ∅))).
  assert (rtc step empty_table (MkTable (Some 0) 1 (<[0 := Dropped]> (<[0 := Pulling 0]> ∅)))) as Hr.
  { eapply rtc_r; [apply pulling_reachable|]. eapply cancel; [done|]. exists 0. by right. }
  split; [done|]. intros s' t Hs Ht. apply (abandoned_newcomer 0 _ s' t Hs); [by apply reachable_ok| |done].
  split; [done|]. split; [cbn; lia|]. intros [|t']; [by cbn|]. cbn. by rewrite !lookup_insert_ne.
Qed.

Lemma one_pull_per_key_witness : 0 = 0.
Proof.
  apply (one_pull_per_key pulling 0 0 0 0); [apply pulling_reachable|reflexivity..].
Defined.
