(* ===== verification/ManifestRoutes.v ===== *)
(** Reading manifests (crates/layerhouse-server/src/routes/manifests.rs, GET and
    HEAD): a manifest that is stored is validated against its upstream if it is a
    cached tag, a missing one is pulled or looked up upstream. *)

From Stdlib Require Import Ascii.
From stdpp Require Import options.
From S2P Require Import Prelude Errors Digests Manifests Permissions SyncRuns Types StateMachine Samples S3Client Io.
From S2P Require Import Upstream Mirror Pulls.

(** * Handlers *)

Record ManifestResponseParts := MkManifestResponseParts {
  rp_content_type : string;
  rp_digest : string;
  rp_content_length : option N;
  rp_body : option bytes;
}.
Record ManifestResponse := MkManifestResponse {
  mp_status : N;
  mp_headers : list (string * string);
  mp_body : option bytes;
}.

Section routes.
Context `{SJ : SerdeJson, HL : HttpLib, EX : Externals}.
Context (rounds : nat).

Definition from_entry (entry : ManifestEntry) (include_body : bool) : ManifestResponseParts :=
  MkManifestResponseParts (me_content_type entry) (digest_to_string (me_digest entry))
    (Some (N.of_nat (length (me_body entry)))) (if include_body then Some (me_body entry) else None).
Definition from_head (head : ManifestHead) : ManifestResponseParts :=
  MkManifestResponseParts (mh_content_type head) (mh_digest head) (mh_content_length head) None.

(** [ok_or_else(ManifestUnknown)]. *)
Definition known {A} (reference : string) (o : option A) : io A :=
  match o with Some a => ret a | None => throw (ManifestUnknown [Disp reference]) end.

Definition pulled_manifest (name reference : string) : io ManifestResponseParts :=
  pulled ← pull_manifest_lazy rounds name reference;
  entry ← known reference pulled;
  ret (from_entry entry true).
Definition upstream_manifest (name reference : string) : io ManifestResponseParts :=
  head ← mirror_head_manifest name reference;
  head ← known reference head;
  ret (from_head head).

Definition resolve_manifest_for_response (name reference : string) (include_body : bool) : io ManifestResponseParts :=
  local ← stored_manifest name reference;
  match local with
  | Some entry =>
      validated ← validate_cached_proxy_tag rounds name reference entry;
      ret (from_entry (default entry validated) include_body)
  | None => if include_body then pulled_manifest name reference else upstream_manifest name reference
  end.
Definition resolve_manifest (name reference : string) : io ManifestResponseParts :=
  resolve_manifest_for_response name reference true.

(** [HeaderValue::from_str(..).map_err(Serialization)]. *)
Definition header_value (v : string) : io () := check (header_error v) Serialization.
Definition length_header (n : option N) : list (string * string) :=
  match n with Some n => [("content-length", Str.of_u64 n)] | None => [] end.

Definition respond_manifest (name reference : string) (include_body : bool) : io ManifestResponse :=
  parts ← (if include_body then resolve_manifest name reference
           else resolve_manifest_for_response name reference false);
  _ ← header_value (rp_content_type parts);
  _ ← header_value (rp_digest parts);
  _ ← from_option (λ n, header_value (Str.of_u64 n)) (ret ()) (rp_content_length parts);
  ret (MkManifestResponse 200
         (("content-type", rp_content_type parts) :: ("docker-content-digest", rp_digest parts)
            :: length_header (rp_content_length parts)) (rp_body parts)).

(** [dispatch] of the reading methods. *)
Definition manifests_read (method : Method) (name reference : string) : io ManifestResponse :=
  match method with
  | GET => respond_manifest name reference true
  | HEAD => respond_manifest name reference false
  | _ => throw (Unsupported [Lit "method not allowed"])
  end.
End routes.

(** * What is served is stored *)

Section served.
Context `{SJ : SerdeJson, HL : HttpLib, EX : Externals}.
Context (rounds : nat) (name reference : string).

Abbreviation ends := (obeys (λ _ _, True) (λ (_ : event) _, True)).

Definition stored_in (h : trace) (e : ManifestEntry) : Prop := existT (GetManifest name reference) (Ok (Some e)) ∈ h.
(** Programs that return only entries the metadata store answered with. *)
Definition tells (p : io (option ManifestEntry)) : Prop :=
  ∀ h, ends h p (λ r h', h ⊆ h' ∧ ∀ e, r = Ok (Some e) → stored_in h' e).

Lemma ends_grows {A} (p : io A) h : ends h p (λ _ h', h ⊆ h').
Proof.
  revert h. induction p as [r|e k IH]; intros h; simpl; [done|]. split; [done|]. intros a _.
  eapply obeys_impl; [apply IH|]. intros r h' Hs. etrans; [|exact Hs]. apply sub_snoc.
Qed.
Lemma stored_in_mono h h' e : h ⊆ h' → stored_in h e → stored_in h' e.
Proof. intros Hs He. by apply Hs. Qed.
Lemma ends_after {A} (p : io A) h (Q : result A → trace → Prop) : (∀ r h', h ⊆ h' → Q r h') → ends h p Q.
Proof. intros HQ. eapply obeys_impl; [apply ends_grows|auto]. Qed.

Lemma tells_bind {A} (p : io A) f : (∀ a, tells (f a)) → tells (p ≫= f).
Proof.
  intros Hf h. apply obeys_bind, ends_after. intros [a|e|] h1 Hs; [|done..].
  eapply obeys_impl; [apply Hf|]. intros r h2 [Hs2 Hr]. split; [by etrans|done].
Qed.
Lemma tells_keep {A} (p : io A) e : (∀ h, stored_in h e → ends h (_ ← p; ret (Some e))
  (λ r h', h ⊆ h' ∧ ∀ e', r = Ok (Some e') → stored_in h' e')).
Proof.
  intros h He. apply obeys_bind, ends_after. intros [a|e'|] h1 Hs; [|done..].
  simpl. split; [done|]. intros ? [= <-]. by eapply stored_in_mono.
Qed.
Lemma tells_stored : tells (stored_manifest name reference).
Proof. intros h. split; [done|]. intros r _. split; [apply sub_snoc|]. intros e ->. apply in_snoc. Qed.
Lemma tells_None : tells (ret None).
Proof. by intros h. Qed.

Lemma tells_fresh u mode target head : tells (pull_fresh rounds name reference u mode target head).
Proof.
  do 2 (apply tells_bind; intros ?). intros h. apply obeys_bind. eapply obeys_impl; [apply tells_stored|].
  intros [[e|]|e|] h1 [Hs He]; [|done..].
  eapply obeys_impl; [apply tells_keep; by apply He|]. intros r h2 [Hs2 Hr]. split; [by etrans|done].
Qed.
Lemma tells_after_head u mode target head : tells (do_pull_after_head rounds name reference u mode target head).
Proof.
  intros h. split; [done|]. intros a _. set (h1 := h ++ _). assert (h ⊆ h1) as Hs by apply sub_snoc.
  assert (ends h1 (pull_fresh rounds name reference u mode target head)
    (λ r h', h ⊆ h' ∧ ∀ e, r = Ok (Some e) → stored_in h' e)) as Hfresh.
  { eapply obeys_impl; [apply tells_fresh|]. intros r h2 [Hs2 Hr]. split; [by etrans|done]. }
  destruct a as [[e|]|e|]; [|exact Hfresh|exact Hfresh|done].
  cbn iota beta. simpl. case_bool_decide; [|exact Hfresh].
  apply obeys_bind, ends_after. intros [x|e'|] h2 Hs2; [|split; [by etrans|done]..].
  eapply obeys_impl; [apply (tells_keep _ e)|].
  - apply Hs2, in_snoc.
  - intros r h3 [Hs3 Hr]. split; [by do 2 (etrans; [done|])|done].
Qed.
Lemma tells_deduplicated key pull :
  tells pull → tells (deduplicated key (stored_manifest name reference) pull).
Proof.
  intros Hp h. split; [done|]. intros [|] _.
  - eapply obeys_impl; [apply tells_stored|]. intros r h1 [Hs Hr]. split; [etrans; [apply sub_snoc|done]|done].
  - apply obeys_iobind. eapply obeys_impl; [apply Hp|]. intros r h1 [Hs Hr].
    assert (h ⊆ h1) as Hs1 by (etrans; [apply sub_snoc|done]).
    destruct r as [e|e|]; [..|done]; (split; [done|]); intros [] _; simpl;
      (split; [etrans; [done|apply sub_snoc]|]); [|done].
    intros e' He. eapply stored_in_mono; [apply sub_snoc|]. by apply Hr.
Qed.
Lemma tells_pull mode : tells (pull_manifest_with_mode rounds name reference mode).
Proof.
  assert (∀ u target, tells (do_pull rounds name reference u mode target)) as Hdo.
  { intros u target. apply tells_bind. intros _. apply tells_bind. intros [head|]; [apply tells_after_head|apply tells_None]. }
  intros h. apply obeys_bind.
  eapply (obeys_impl _ _ _ _ (λ r h', h ⊆ h' ∧ ∀ e, r = Ok (Some e) → stored_in h' e)).
  { apply tells_bind. intros caches. destruct (match_proxy_cache _ _) as [[cache up]|]; [|apply tells_None].
    by apply tells_deduplicated. }
  intros [[e|]|e|] h1 [Hs He]; [| |done..].
  - simpl. split; [done|]. intros ? [= <-]. by apply He.
  - eapply obeys_impl; [eapply (tells_bind get_rules)|intros r h2 [Hs2 Hr]; split; [by etrans|done]].
    intros rules. destruct (match_rule _ _) as [[rule up]|]; [|apply tells_None]. by apply tells_deduplicated.
Qed.

(** With a stored entry at hand. *)
Section local.
Context (local : ManifestEntry).
Abbreviation serves h p :=
  (ends h p (λ r h', h ⊆ h' ∧ ∀ e, r = Ok (Some e) → stored_in h' e)).

Lemma serves_any {A} (p : io A) (f : A → io (option ManifestEntry)) h :
  (∀ a h', h ⊆ h' → serves h' (f a)) → serves h (p ≫= f).
Proof.
  intros Hf. apply obeys_bind, ends_after. intros [a|e|] h1 Hs; [|done..].
  eapply obeys_impl; [by apply Hf|]. intros r h2 [Hs2 Hr]. split; [by etrans|done].
Qed.
Lemma serves_stored_or h : stored_in h local → serves h (stored_or local name reference).
Proof.
  intros Hl. split; [done|]. intros [[e|]|e|] _; simpl; (split; [apply sub_snoc|]); [..|done|done].
  - intros ? [= <-]. apply in_snoc.
  - intros ? [= <-]. eapply stored_in_mono; [apply sub_snoc|done].
Qed.
Lemma inner_serves u target h :
  stored_in h local →
  ends h (validate_cached_proxy_tag_inner rounds local name reference u target)
    (λ r h', h ⊆ h' ∧ ∀ e, r = Ok e → stored_in h' e).
Proof.
  intros Hl. apply obeys_bind, ends_after. intros [a|e|] h1 Hs1; [|done..].
  apply obeys_bind, ends_after. intros [[head|]|e|] h2 Hs2; [|by split; [etrans|]..].
  assert (h ⊆ h2) as Hs by by etrans.
  case_bool_decide; apply obeys_bind.
  - apply ends_after. intros [x|e|] h3 Hs3; [|by split; [etrans|]..]. simpl. split; [by etrans|].
    intros ? [= <-]. eapply stored_in_mono; [|exact Hl]. by etrans.
  - eapply obeys_impl; [apply tells_after_head|]. intros [[e|]|e|] h3 [Hs3 Hr]; (split; [by etrans|]); [|done..].
    intros ? [= <-]. by apply Hr.
Qed.
Lemma validate_serves h : stored_in h local → serves h (validate_cached_proxy_tag rounds name reference local).
Proof.
  intros Hl. apply serves_any. intros caches h1 Hs1. destruct (match_proxy_cache _ _) as [[cache up]|]; [|done].
  destruct (for_reference _ _ _) as [target|]; [|done].
  apply serves_any. intros v h2 Hs2. apply serves_any. intros now h3 Hs3.
  assert (stored_in h3 local) as Hl3 by (eapply stored_in_mono; [|exact Hl]; by do 2 (etrans; [done|])).
  destruct (from_option _ _ _); [split; [done|]; by intros ? [= <-]|].
  split; [done|]. intros waited _. set (h4 := h3 ++ _). assert (h3 ⊆ h4) as Hs4 by apply sub_snoc.
  assert (∀ h5, h3 ⊆ h5 → ends h5 (stored_or local name reference)
    (λ r h', h3 ⊆ h' ∧ ∀ e, r = Ok (Some e) → stored_in h' e)) as Hst.
  { intros h5 Hs5. eapply obeys_impl; [apply serves_stored_or; by eapply stored_in_mono|].
    intros r h6 [Hs6 Hr]. split; [by etrans|done]. }
  destruct waited; [by apply Hst|].
  apply obeys_iobind. eapply obeys_impl; [apply inner_serves; by eapply stored_in_mono|].
  intros [e|e|] h5 [Hs5 Hr]; [..|split; [by etrans|done]]; apply obeys_bind; (split; [done|]); intros [] _.
  - simpl. split; [do 2 (etrans; [done|]); apply sub_snoc|]. intros ? [= <-].
    eapply stored_in_mono; [apply sub_snoc|]. by apply Hr.
  - apply Hst. do 2 (etrans; [done|]). apply sub_snoc.
Qed.
End local.

Definition of_entry (include_body : bool) (h : trace) (parts : ManifestResponseParts) : Prop :=
  ∃ e, stored_in h e ∧ parts = from_entry e include_body.
Lemma resolve_serves include_body h :
  ends h (resolve_manifest_for_response rounds name reference include_body) (λ r h', ∀ parts, r = Ok parts →
    of_entry include_body h' parts ∨ include_body = false ∧ rp_body parts = None).
Proof.
  apply obeys_bind. eapply obeys_impl; [apply tells_stored|]. intros [[e|]|e|] h1 [Hs He]; [..|done|done].
  - apply obeys_bind. eapply obeys_impl; [apply validate_serves; by apply He|].
    intros [v|e'|] h2 [Hs2 Hv]; [|done..]. simpl. intros ? [= <-]. left. destruct v as [v|]; eexists; (split; [|done]).
    + by apply Hv.
    + eapply stored_in_mono; [done|]. by apply He.
  - destruct include_body; apply obeys_bind.
    + eapply obeys_impl; [apply tells_pull|]. intros [[e|]|e|] h2 [Hs2 Hr]; [|done..].
      simpl. intros ? [= <-]. left. exists e. split; [by apply Hr|done].
    + apply ends_after. intros [[hd|]|e|] h2 Hs2; [|done..]. simpl. intros ? [= <-]. by right.
Qed.

(** A GET serves only what is stored: the body, media type and digest of a
    successful answer are those of an entry that the metadata store returned for
    the repository and reference, also when the manifest was just pulled, so that
    nothing an upstream sends reaches a client before it was accepted by the store
    under its own digest; a HEAD has the same headers and no body. *)
Theorem served_manifest_is_stored method tr resp :
  runs (manifests_read rounds method name reference) tr (Ok resp) →
  mp_status resp = 200%N ∧
  (method = GET ∧ (∃ e, stored_in tr e ∧ mp_body resp = Some (me_body e) ∧
     mp_headers resp = [("content-type", me_content_type e); ("docker-content-digest", digest_to_string (me_digest e));
                        ("content-length", Str.of_u64 (N.of_nat (length (me_body e))))])
   ∨ method = HEAD ∧ mp_body resp = None).
Proof.
  intros Hrun.
  assert (∀ include_body, ends [] (respond_manifest rounds name reference include_body) (λ r h, ∀ resp, r = Ok resp →
    mp_status resp = 200%N ∧ ∃ parts, mp_body resp = rp_body parts ∧
      mp_headers resp = ("content-type", rp_content_type parts) :: ("docker-content-digest", rp_digest parts)
        :: length_header (rp_content_length parts) ∧
      (of_entry include_body h parts ∨ include_body = false ∧ rp_body parts = None))) as H.
  { intros include_body. apply obeys_bind.
    eapply (obeys_impl _ _ _ _ (λ r h', ∀ parts, r = Ok parts →
      of_entry include_body h' parts ∨ include_body = false ∧ rp_body parts = None)).
    { destruct include_body; apply resolve_serves. }
    intros [parts|e|] h Hp; [|done..]. specialize (Hp parts eq_refl).
    unfold header_value, check. destruct (header_error (rp_content_type parts)); [done|].
    destruct (header_error (rp_digest parts)); [done|].
    destruct (rp_content_length parts) as [n|] eqn:Hn; simpl; [destruct (header_error _); [done|]|];
      simpl; intros ? [= <-]; (split; [done|]); exists parts; by rewrite Hn. }
  assert (∀ include_body, runs (respond_manifest rounds name reference include_body) tr (Ok resp) →
    mp_status resp = 200%N ∧ ∃ parts, mp_body resp = rp_body parts ∧
      mp_headers resp = ("content-type", rp_content_type parts) :: ("docker-content-digest", rp_digest parts)
        :: length_header (rp_content_length parts) ∧
      (of_entry include_body tr parts ∨ include_body = false ∧ rp_body parts = None)) as Hr.
  { intros b Hb. destruct (obeys_runs _ _ _ _ _ _ _ (H b) Hb) as [HQ _]; [by intros ? ? ? ?|]. by apply HQ. }
  destruct method; try by destruct Hrun.
  - apply Hr in Hrun as (? & parts & Hb & Hh & [(e & He & ->)|[? ?]]); [|done]. split; [done|]. left. split; [done|].
    by exists e.
  - apply Hr in Hrun as (? & parts & Hb & Hh & [(e & He & ->)|[_ Hn]]); (split; [done|]); right; (split; [done|]);
      by rewrite Hb.
Qed.
End served.

(** * Samples *)

(** The store has the manifest, the upstream fails. *)
Definition stored_oracle (e : event) : answer e :=
  match e with
  | GetManifest _ _ => Ok (Some sample_local)
  | e' => sample_oracle false e'
  end.
Definition stored_get := play stored_oracle (manifests_read 10 GET "hub/app" "latest").
Lemma served_manifest_is_stored_witness :
  ∃ resp, stored_get.2 = Ok resp ∧ mp_body resp = Some body ∧
    (mp_status resp = 200%N ∧
     (GET = GET ∧ (∃ e, stored_in "hub/app" "latest" stored_get.1 e ∧ mp_body resp = Some (me_body e) ∧
       mp_headers resp = [("content-type", me_content_type e); ("docker-content-digest", digest_to_string (me_digest e));
                          ("content-length", Str.of_u64 (N.of_nat (length (me_body e))))])
      ∨ GET = HEAD ∧ mp_body resp = None)).
Proof.
  eexists. split; [vm_compute; reflexivity|]. split; [reflexivity|].
  apply (served_manifest_is_stored 10 "hub/app" "latest" GET).
  exact (play_runs stored_oracle (manifests_read 10 GET "hub/app" "latest")).
Defined.
