(* ===== verification/Tokens.v ===== *)
(** Tokens (crates/layerhouse-server/src/auth/token.rs, token_endpoint.rs and the token
    part of auth/mod.rs): validation of personal access tokens, bearer tokens and access
    tokens of the identity provider, and the endpoint that mints bearer tokens.

    The JWT library is the class [Jwt]: it encodes claims with the server's key and
    decodes them while they have not expired. *)

From Stdlib Require Import Ascii.
From stdpp Require Import options.
From S2P Require Import Prelude Errors Digests Manifests Permissions Principals Handles.
From S2P Require Import SyncRuns Types StateMachine Samples Namespaces Authorization Decisions Queries.

(** * Claims *)

Section claims.
Context `{SJ : SerdeJson}.

Inductive AudienceClaim := One (audience : string) | Many (audiences : list string).

Record TokenClaims := MkTokenClaims {
  tc_subject : string;
  tc_exp : N;
  tc_aud : option AudienceClaim;
  tc_groups : option (list string);
  tc_name : option string;
  tc_preferred_username : option string;
  tc_email : option string;
  tc_scope : option string;
  tc_namespace_epochs : list NamespaceEpoch;
  tc_token_type : option string;
  tc_iat : option N;
  tc_iss : option string;
  tc_additional : option Value;
}.

Definition trimmed (value : option string) : option string :=
  v ← value; let v := Str.trim v in if Str.is_empty v then None else Some v.
Definition claims_display_name (c : TokenClaims) : option string := trimmed (tc_name c).
Definition claims_username (c : TokenClaims) : option string := trimmed (tc_preferred_username c).
Definition claims_email (c : TokenClaims) : option string := trimmed (tc_email c).

(** The strings at the end of a path. *)
Definition leaf_strings (v : Value) : list string :=
  match json_as_array v with
  | Some l => omap json_as_str l
  | None => match json_as_str v with Some s => [s] | None => [] end
  end.
Fixpoint follow (parts : list string) (current : Value) : list string :=
  match parts with
  | [] => []
  | part :: parts' =>
      match json_get current part with
      | None => []
      | Some v => match parts' with [] => leaf_strings v | _ => follow parts' v end
      end
  end.
(** [additional_claims] is [null] if it is absent. *)
Definition extract_groups (c : TokenClaims) (group_claim : string) : list string :=
  if bool_decide (group_claim = "groups") then default [] (tc_groups c)
  else from_option (follow (Str.split "." group_claim)) [] (tc_additional c).
End claims.

(** The JWT library with the server's own key, at a time in seconds; and with a key
    of the identity provider, for an audience. *)
Class Jwt `{SJ : SerdeJson} := {
  jwt_encode : TokenClaims → message + string;
  jwt_decode : N → string → option TokenClaims;
  jwt_header : string → option (option string);
  DecodingKey : Type;
  jwt_verify : DecodingKey → N → string → string → string → option TokenClaims;
}.

(** What the server relies on: its own tokens are decoded, up to the claims it did
    not set, until they expire, and are refused once they have been expired for
    longer than the leeway of [jsonwebtoken::Validation::default()]. *)
Definition JWT_LEEWAY : N := 60.
Definition own_claims `{SJ : SerdeJson} (c c' : TokenClaims) : Prop :=
  tc_subject c' = tc_subject c ∧ tc_exp c' = tc_exp c ∧ tc_groups c' = tc_groups c ∧ tc_name c' = tc_name c ∧
  tc_preferred_username c' = tc_preferred_username c ∧ tc_email c' = tc_email c ∧ tc_scope c' = tc_scope c ∧
  tc_namespace_epochs c' = tc_namespace_epochs c.
Class JwtLaws `{JW : Jwt} : Prop := {
  jwt_own c t now : jwt_encode c = inr t → (now ≤ tc_exp c)%N → ∃ c', jwt_decode now t = Some c' ∧ own_claims c c';
  jwt_expired c t now : jwt_encode c = inr t → (tc_exp c + JWT_LEEWAY < now)%N → jwt_decode now t = None;
}.

(** The settings the token code reads. *)
Record TokenConfig := MkTokenConfig {
  cf_provider_name : string;
  cf_client_id : string;
  cf_issuer_url : string;
  cf_group_claim : string;
  cf_access_token_audience : option string;
  cf_token_endpoint_url : string;
  cf_policy_sets : list ConfigPolicySet;
}.
Definition effective_access_token_audience (cf : TokenConfig) : option string :=
  trimmed (cf_access_token_audience cf).
Definition provider_name (cf : TokenConfig) : string := Str.trim (cf_provider_name cf).
Definition user_principal (cf : TokenConfig) (subject : string) : result ProviderQualifiedId :=
  ProviderQualifiedId_new (provider_name cf) KUser subject.

Definition unauthorized {A} (text : string) : result A := Err (Unauthorized [Lit text] None None None).

(** * Validation *)

Section validation.
Context `{SJ : SerdeJson, OR : Openraft, EX : Externals, JW : !Jwt}.
(** [uuid::Uuid::parse_str(s).is_ok()]. *)
Context (uuid_ok : string → bool).
Implicit Types (cf : TokenConfig) (d : StateMachineData).

(** [hex::encode(Sha256::digest(token.as_bytes()))]. *)
Definition token_hash (token : string) : string := sha256_hex (String.list_byte_of_string token).

Definition validate_pat cf d (now : N) (token : string) : result AuthIdentity :=
  match get_personal_access_token_by_hash d (token_hash token) with
  | None => unauthorized "invalid token"
  | Some pat =>
      if from_option (λ exp, bool_decide (exp < now)%N) false (pat_expires_at pat)
      then unauthorized "token expired"
      else
        principal ← user_principal cf (pat_subject pat);
        Ok (MkAuthIdentity (pat_subject pat) principal (pat_username pat) None None [] [] (pat_scopes pat)
              (pat_namespace_epochs pat) PersonalAccess)
  end.

(** The identity of the claims of a token the server minted. *)
Definition bearer_identity cf (claims : TokenClaims) : result AuthIdentity :=
  let groups := default [] (tc_groups claims) in
  principal ← user_principal cf (tc_subject claims);
  Ok (MkAuthIdentity (tc_subject claims) principal (claims_username claims) (claims_display_name claims)
        (claims_email claims) groups (stable_group_ids uuid_ok (provider_name cf) groups)
        (from_option (Str.split " ") [] (tc_scope claims)) (tc_namespace_epochs claims) OciBearer).
Definition validate_oci_token cf (now : N) (token : string) : result AuthIdentity :=
  match jwt_decode now token with
  | None => unauthorized "invalid token"
  | Some claims => bearer_identity cf claims
  end.

(** The key cache, and what it is after [refresh_jwks_once]. *)
Record KeyCache := MkKeyCache {
  kc_keys : list (string * DecodingKey);
  kc_refreshed : list (string * DecodingKey);
}.
Definition find_key (keys : list (string * DecodingKey)) (kid : string) : option DecodingKey :=
  snd <$> head (filter (λ p, p.1 = kid) keys).

Definition verify_token_claims cf (kc : KeyCache) (now : N) (token audience : string) : result TokenClaims :=
  match jwt_header token with
  | None => unauthorized "invalid token"
  | Some None => unauthorized "token missing kid"
  | Some (Some kid) =>
      match (match find_key (kc_keys kc) kid with Some key => Some key | None => find_key (kc_refreshed kc) kid end) with
      | None => unauthorized "unknown signing key"
      | Some key =>
          match jwt_verify key now audience (cf_issuer_url cf) token with
          | None => unauthorized "invalid token"
          | Some claims => Ok claims
          end
      end
  end.

Definition access_audience cf : string := default (cf_client_id cf) (effective_access_token_audience cf).
Definition verify_id_token cf kc now (id_token : string) : result TokenClaims :=
  verify_token_claims cf kc now id_token (cf_client_id cf).
Definition verify_access_token cf kc now (access_token : string) : result (list string * string * N) :=
  claims ← verify_token_claims cf kc now access_token (access_audience cf);
  Ok (extract_groups claims (cf_group_claim cf), tc_subject claims, tc_exp claims).

Definition validate_oidc_token cf kc now (token : string) : result AuthIdentity :=
  claims ← verify_token_claims cf kc now token (access_audience cf);
  let user_groups := extract_groups claims (cf_group_claim cf) in
  principal ← user_principal cf (tc_subject claims);
  Ok (MkAuthIdentity (tc_subject claims) principal (claims_username claims) (claims_display_name claims)
        (claims_email claims) user_groups (stable_group_ids uuid_ok (provider_name cf) user_groups) [] [] OidcAccess).

Definition validate_token cf kc d now (token : string) : result AuthIdentity :=
  if Str.starts_with "layerhouse-" token then validate_pat cf d now token
  else match validate_oci_token cf now token with
       | Ok identity => Ok identity
       | Err _ => validate_oidc_token cf kc now token
       | Panic => Panic
       end.

(** * Bearer tokens *)

Definition TOKEN_LIFETIME : N := 3600.
Definition minted_claims (identity : AuthIdentity) (scopes : string) (epochs : list NamespaceEpoch) (now : N)
    : TokenClaims :=
  MkTokenClaims (id_subject identity) (now + TOKEN_LIFETIME) None (Some (id_groups identity)) (id_display_name identity)
    (id_username identity) (id_email identity) (Some scopes) epochs (Some "oci_bearer") (Some now)
    (Some "layerhouse") None.
Definition mint_oci_token (identity : AuthIdentity) (scopes : string) (epochs : list NamespaceEpoch) (now : N)
    : result string :=
  match jwt_encode (minted_claims identity scopes epochs now) with
  | inl m => Err (Internal (Lit "failed to mint token: " :: m))
  | inr t => Ok t
  end.

(** * The token endpoint *)

Record TokenQuery := MkTokenQuery {
  tq_service : option string;
  tq_scope : list string;
  tq_account : option string;
  tq_client_id : option string;
}.
(** One pair of the query string. *)
Definition add_pair (query : TokenQuery) (pair : string * string) : TokenQuery :=
  let '(key, value) := pair in
  let 'MkTokenQuery service scope account client_id := query in
  if bool_decide (key = "service") then MkTokenQuery (Some value) scope account client_id
  else if bool_decide (key = "scope") then MkTokenQuery service (scope ++ [value]) account client_id
  else if bool_decide (key = "account") then MkTokenQuery service scope (Some value) client_id
  else if bool_decide (key = "client_id") then MkTokenQuery service scope account (Some value)
  else query.

(** [serde_urlencoded::from_str], and the base64 decoder. *)
Context (urlencoded_pairs : string → message + list (string * string)).
Context (base64_decode : string → option string).

Definition from_raw_query (raw_query : option string) : result TokenQuery :=
  pairs ← match raw_query with
          | None => Ok []
          | Some query =>
              match urlencoded_pairs query with
              | inl e => Err (NameInvalid (Lit "invalid token query: " :: e))
              | inr pairs => Ok pairs
              end
          end;
  Ok (foldl add_pair (MkTokenQuery None [] None None) pairs).

Definition scope_string (scopes : list string) : option string :=
  let value := Str.join " " (filter (λ scope, Str.is_empty (Str.trim scope) = false)
                               (scopes ≫= Str.split_whitespace)) in
  if Str.is_empty value then None else Some value.

(** [header] is the authorization header, if it is text. *)
Definition extract_basic_auth (header : option string) : option (string * string) :=
  h ← header;
  encoded ← Str.strip_prefix "Basic " h;
  creds ← base64_decode encoded;
  if utf8_valid creds then Str.split_once ":" creds else None.

Record TokenResponse := MkTokenResponse {
  tr_token : string;
  tr_access_token : string;
  tr_expires_in : N;
  tr_issued_at : N;
}.

(** What a request reads: the store while the credential is validated and at each
    permission check, and the clock there, when the token is minted and when the
    response is built. *)
Record TokenReads := MkTokenReads {
  tk_store : StateMachineData;
  tk_keys : KeyCache;
  tk_now : N;
  tk_checks : nat → Reads;
  tk_mint_now : N;
  tk_issued_now : N;
}.

(** The loop over the requested scopes: what was granted and the recorded epochs. *)
Context {CE : Cedar}.
Fixpoint grant_scopes cf (identity : AuthIdentity) (checks : nat → Reads) (k : nat) (requested : list string)
    (granted : list string) (epochs : list NamespaceEpoch) : result (list string * list NamespaceEpoch) :=
  match requested with
  | [] => Ok (granted, epochs)
  | scope :: requested' =>
      match parse_scope scope with
      | None => grant_scopes cf identity checks k requested' granted epochs
      | Some (repository, action) =>
          match check_permission (cf_policy_sets cf) identity repository action (checks k) with
          | Ok access =>
              grant_scopes cf identity checks (S k) requested' (granted ++ [scope])
                (record_expected_namespace access epochs)
          | Err (Denied _) => grant_scopes cf identity checks (S k) requested' granted epochs
          | Err e => Err e
          | Panic => Panic
          end
      end
  end.

Definition token_endpoint (auth : option TokenConfig) (rd : TokenReads) (raw_query header : option string)
    : result TokenResponse :=
  query ← from_raw_query raw_query;
  cf ← ok_or (Internal [Lit "auth not configured"]) auth;
  '(_, token) ← ok_or (Unauthorized [Lit "authentication required"] (Some (cf_token_endpoint_url cf))
                         (tq_service query) (scope_string (tq_scope query)))
                  (extract_basic_auth header);
  identity ← validate_token cf (tk_keys rd) (tk_store rd) (tk_now rd) token;
  '(granted, epochs) ← grant_scopes cf identity (tk_checks rd) 0
    (from_option Str.split_whitespace [] (scope_string (tq_scope query))) [] [];
  t ← mint_oci_token identity (Str.join " " granted) epochs (tk_mint_now rd);
  Ok (MkTokenResponse t t TOKEN_LIFETIME (tk_issued_now rd)).
End validation.

(** * What a minted token allows *)

Lemma record_expected_subseteq access epochs : epochs ⊆ record_expected_namespace access epochs.
Proof. unfold record_expected_namespace. repeat case_match; set_solver. Qed.
Lemma record_expected_elem access epochs e :
  aa_expected_namespace access = Some e → e ∈ record_expected_namespace access epochs.
Proof.
  unfold record_expected_namespace. intros ->. destruct (existsb _ epochs) eqn:E; [|set_solver].
  apply existsb_exists in E as (e' & Hin & ->%bool_decide_eq_true). by apply list_elem_of_In.
Qed.

Section minted.
Context `{SJ : SerdeJson, OR : Openraft, EX : Externals, CE : !Cedar, JW : !Jwt, JL : !JwtLaws}.
Context (uuid_ok : string → bool).
Context (urlencoded_pairs : string → message + list (string * string)).
Context (base64_decode : string → option string).

(** A scope the identity was allowed, with its namespace recorded in [epochs]. *)
Definition allowed_scope (cf : TokenConfig) (identity : AuthIdentity) (checks : nat → Reads)
    (epochs : list NamespaceEpoch) (scope : string) : Prop :=
  ∃ p a k access, parse_scope scope = Some (p, a) ∧
    check_permission (cf_policy_sets cf) identity p a (checks k) = Ok access ∧
    ∀ e, aa_expected_namespace access = Some e → e ∈ epochs.

Lemma allowed_scope_mono cf identity checks e1 e2 scope :
  e1 ⊆ e2 → allowed_scope cf identity checks e1 scope → allowed_scope cf identity checks e2 scope.
Proof. intros Hsub (p & a & k & access & Hp & Hc & He). exists p, a, k, access. eauto. Qed.

Lemma grant_scopes_allowed cf identity checks requested k granted epochs granted' epochs' :
  grant_scopes cf identity checks k requested granted epochs = Ok (granted', epochs') →
  Forall (allowed_scope cf identity checks epochs) granted →
  Forall (λ s, Str.contains_char " " s = false) (granted ++ requested) →
  Forall (allowed_scope cf identity checks epochs') granted' ∧
  Forall (λ s, Str.contains_char " " s = false) granted'.
Proof.
  revert k granted epochs. induction requested as [|scope requested IH]; intros k granted epochs; simpl.
  { intros [= -> ->] Ha Hs. rewrite app_nil_r in Hs. done. }
  intros E Ha Happ. pose proof Happ as [Hg [Hs Hr]%Forall_cons]%Forall_app.
  assert (Forall (λ s, Str.contains_char " " s = false) (granted ++ requested)) by (by apply Forall_app).
  destruct (parse_scope scope) as [[p a]|] eqn:Ep; [|by apply (IH _ _ _ E Ha)].
  destruct (check_permission _ _ _ _ _) as [access|e|] eqn:Ec; [|destruct e; try done; by apply (IH _ _ _ E Ha)|done].
  apply (IH _ _ _ E); [|rewrite <-app_assoc; exact Happ].
  apply Forall_app. split.
  - eapply Forall_impl; [exact Ha|]. intros s Hsc.
    eapply allowed_scope_mono; [apply record_expected_subseteq|exact Hsc].
  - apply Forall_singleton. exists p, a, k, access. split; [done|]. split; [done|].
    intros e. apply record_expected_elem.
Qed.

(** Every way of validating a token yields a user of the configured provider. *)
Lemma validate_token_principal cf kc d now token identity :
  validate_token uuid_ok cf kc d now token = Ok identity →
  user_principal cf (id_subject identity) = Ok (id_principal identity).
Proof.
  assert (∀ c, bearer_identity uuid_ok cf c = Ok identity →
    user_principal cf (id_subject identity) = Ok (id_principal identity)) as Hb.
  { intros c (q & Hq & [= <-])%result_bind_Ok. done. }
  unfold validate_token, validate_pat, validate_oci_token, validate_oidc_token. case_match.
  - case_match; [|done]. case_match; [done|]. by intros (q & Hq & [= <-])%result_bind_Ok.
  - destruct (jwt_decode now token) as [c|] eqn:Ed.
    + destruct (bearer_identity uuid_ok cf c) as [i|e|] eqn:Ei; [|..|done].
      * intros [= ->]. by eapply Hb.
      * by intros (cl & _ & (q & Hq & [= <-])%result_bind_Ok)%result_bind_Ok.
    + by intros (cl & _ & (q & Hq & [= <-])%result_bind_Ok)%result_bind_Ok.
Qed.

Lemma parse_scope_empty : parse_scope "" = None.
Proof. reflexivity. Qed.

(** The identity of a minted token, while it lasts. *)
Lemma minted_identity cf identity granted epochs now now' t :
  mint_oci_token identity (Str.join " " granted) epochs now = Ok t →
  user_principal cf (id_subject identity) = Ok (id_principal identity) →
  Forall (λ s, Str.contains_char " " s = false) granted →
  (now' ≤ now + TOKEN_LIFETIME)%N →
  ∃ i', validate_oci_token uuid_ok cf now' t = Ok i' ∧
    id_subject i' = id_subject identity ∧ id_principal i' = id_principal identity ∧
    id_groups i' = id_groups identity ∧ id_token_type i' = OciBearer ∧
    id_namespace_epochs i' = epochs ∧ (id_scopes i' = granted ∨ granted = [] ∧ id_scopes i' = [""]).
Proof using JL.
  unfold mint_oci_token. destruct (jwt_encode _) as [m|t'] eqn:E; [done|]. intros [= ->] Hp Hs Hnow.
  destruct (jwt_own _ _ now' E) as (c' & Hd & Hsub & _ & Hgr & _ & _ & _ & Hsc & Hep); [done|].
  simpl in *. unfold validate_oci_token. rewrite Hd. unfold bearer_identity. rewrite Hsub, Hp. simpl.
  eexists. split; [done|]. simpl. rewrite Hgr, Hep, Hsc. simpl. repeat (split; [done|]).
  destruct granted as [|s l]; [by right|left]. by apply split_join.
Qed.

(** A minted token is refused once its hour and the leeway have passed. *)
Lemma minted_expires cf identity scopes epochs now now' t :
  mint_oci_token identity scopes epochs now = Ok t → (now + TOKEN_LIFETIME + JWT_LEEWAY < now')%N →
  validate_oci_token uuid_ok cf now' t = unauthorized "invalid token".
Proof using JL.
  unfold mint_oci_token. destruct (jwt_encode _) as [m|t'] eqn:E; [done|]. intros [= ->] Hnow.
  unfold validate_oci_token. by rewrite (jwt_expired _ _ now' E).
Qed.

(** C9: a token of the token endpoint is worth no more than the credential it was
    exchanged for. The endpoint answers with a token that is valid for the hour
    after it was minted and refused once that hour and the sixty seconds of leeway of
    the JWT library are over, and stands for the same user; at any time, what it
    gives access to, a pull of a public repository apart (which needs no token), is
    covered by a scope that the credential's own identity was allowed when the token
    was minted, and the namespace generation of that scope is recorded in the
    token. *)
Theorem bearer_within_credential cf rd raw_query header resp
    (Hok : token_endpoint uuid_ok urlencoded_pairs base64_decode (Some cf) rd raw_query header = Ok resp) :
  ∃ user token identity,
    extract_basic_auth base64_decode header = Some (user, token) ∧
    validate_token uuid_ok cf (tk_keys rd) (tk_store rd) (tk_now rd) token = Ok identity ∧
    (∀ now', (tk_mint_now rd + 3600 + 60 < now')%N →
      validate_oci_token uuid_ok cf now' (tr_token resp) = unauthorized "invalid token") ∧
    ∀ now', (now' ≤ tk_mint_now rd + 3600)%N →
      ∃ bearer, validate_oci_token uuid_ok cf now' (tr_token resp) = Ok bearer ∧
        id_subject bearer = id_subject identity ∧ id_principal bearer = id_principal identity ∧
        ∀ config repository action reads access,
          check_permission config bearer repository action reads = Ok access →
          ¬ (action = Pull ∧ is_public_pull (rd_repository reads) repository = true) →
          ∃ p a k granted, pattern_covers p repository ∧ covers a action ∧
            check_permission (cf_policy_sets cf) identity p a (tk_checks rd k) = Ok granted ∧
            ∀ e, aa_expected_namespace granted = Some e → e ∈ id_namespace_epochs bearer.
Proof using JL.
  unfold token_endpoint in Hok. apply result_bind_Ok in Hok as (query & _ & Hok).
  apply result_bind_Ok in Hok as (cf' & [= <-]%ok_or_Ok & Hok).
  apply result_bind_Ok in Hok as ([user token] & Hbasic%ok_or_Ok & Hok).
  apply result_bind_Ok in Hok as (identity & Hid & Hok).
  apply result_bind_Ok in Hok as ([granted epochs] & Hg & Hok).
  apply result_bind_Ok in Hok as (t & Hmint & [= <-]). simpl.
  exists user, token, identity. split; [done|]. split; [done|]. split.
  { intros now' Hnow. by apply (minted_expires _ _ _ _ _ _ _ Hmint). }
  intros now' Hnow.
  apply grant_scopes_allowed in Hg as [Hallowed Hspace]; [|done|].
  2: { simpl. destruct (scope_string _); [|done]. apply Forall_forall. intros x.
       apply split_whitespace_no_space. }
  destruct (minted_identity cf _ _ _ _ now' _ Hmint (validate_token_principal _ _ _ _ _ _ Hid) Hspace)
    as (bearer & Hv & Hsub & Hprin & _ & Htype & Hep & Hscopes); [done|].
  exists bearer. split; [done|]. split; [done|]. split; [done|].
  intros config repository action reads access Hc Hpub.
  destruct (explicit_scope_needed _ _ _ _ _ _ Hc Hpub) as (scope & p & a & Hin & Hp & Hcov & Hact & _);
    [by rewrite Htype|].
  destruct Hscopes as [Hscopes|[-> Hscopes]]; rewrite Hscopes in Hin.
  2: { apply list_elem_of_singleton in Hin as ->. by rewrite parse_scope_empty in Hp. }
  rewrite Forall_forall in Hallowed. destruct (Hallowed scope Hin) as (p' & a' & k & access' & Hp' & Hc' & He).
  rewrite Hp in Hp'. injection Hp' as <- <-. exists p, a, k, access'. by rewrite Hep.
Qed.
End minted.

(** * A concrete JWT library

    The claims as lines of text, in a fixed order; a claim that does not survive the
    trip cannot be encoded. *)

Definition line_sep : ascii := "010"%char.
Definition item_sep : ascii := "031"%char.
Definition opt_text (o : option string) : string := from_option (λ s, "+" +:+ s) "-" o.
Definition text_opt (s : string) : option (option string) :=
  match s with
  | String "+" r => Some (Some r)
  | "-" => Some None
  | _ => None
  end.
Definition list_text (l : list string) : string := opt_text (if decide (l = []) then None else Some (Str.join (String item_sep "") l)).
Definition text_list (s : string) : option (list string) :=
  o ← text_opt s; Some (from_option (Str.split item_sep) [] o).
Definition epoch_text (e : NamespaceEpoch) : string := Str.of_u64 (ep_generation e) +:+ "/" +:+ ep_handle e.
Definition text_epoch (s : string) : option NamespaceEpoch :=
  '(n, h) ← Str.split_once "/" s; n ← Str.parse_u64 n; Some (MkNamespaceEpoch h n).

Section sample_jwt.
Context `{SJ : SerdeJson}.

Definition claims_text (c : TokenClaims) : string :=
  Str.join (String line_sep "")
    ["eyJ"; tc_subject c; Str.of_u64 (tc_exp c); list_text (default [] (tc_groups c)); opt_text (tc_name c);
     opt_text (tc_preferred_username c); opt_text (tc_email c); opt_text (tc_scope c);
     list_text (epoch_text <$> tc_namespace_epochs c)].
Definition text_claims (s : string) : option TokenClaims :=
  match Str.split line_sep s with
  | ["eyJ"; subject; exp; groups; name; username; email; scope; epochs] =>
      exp ← Str.parse_u64 exp; groups ← text_list groups; name ← text_opt name; username ← text_opt username;
      email ← text_opt email; scope ← text_opt scope; epochs ← text_list epochs; epochs ← mapM text_epoch epochs;
      Some (MkTokenClaims subject exp None (Some groups) name username email scope epochs None None None None)
  | _ => None
  end.
Definition sent (c : TokenClaims) :=
  (tc_subject c, tc_exp c, tc_groups c, tc_name c, tc_preferred_username c, tc_email c, tc_scope c,
   tc_namespace_epochs c).

#[export] Instance sample_jwt : Jwt := {|
  jwt_encode c := if decide (sent <$> text_claims (claims_text c) = Some (sent c)) then inr (claims_text c)
                  else inl [Lit "unsupported claims"];
  jwt_decode now t := c ← text_claims t; if bool_decide (now ≤ tc_exp c)%N then Some c else None;
  jwt_header _ := None;
  DecodingKey := ();
  jwt_verify _ _ _ _ _ := None;
|}.
#[export] Instance sample_jwt_laws : JwtLaws.
Proof.
  split; intros c t now; simpl; (case_decide as E; [|done]); intros [= <-] Hnow;
    apply fmap_Some in E as (c' & -> & E); unfold sent in E; injection E as E1 E2 E3 E4 E5 E6 E7 E8; simpl.
  - exists c'. rewrite <-E2, bool_decide_eq_true_2 by done. split; [done|]. by split_and!.
  - rewrite <-E2, bool_decide_eq_false_2; [done|]. unfold JWT_LEEWAY in Hnow. lia.
Qed.
End sample_jwt.

(** A state with a token of a member of the namespace, which expires at 5000. *)
Definition token_config : TokenConfig :=
  MkTokenConfig "keycloak" "layerhouse" "https://idp" "groups" None "https://registry/v2/token" [].
Definition bob_pat : PersonalAccessToken :=
  MkPersonalAccessToken "pat-1" "sub-2" (Some "bob") "ci" (token_hash "layerhouse-secret") "layerhouse-s"
    ["repository:acme/app:pull,push"] [MkNamespaceEpoch "acme" 1] 100 None (Some 5000%N).
Definition with_pat : StateMachineData :=
  (apply_request 0 granted (ReqToken (PutPersonalAccessToken bob_pat))).1.
Definition sample_pairs (query : string) : message + list (string * string) :=
  inr [("service", "layerhouse"); ("scope", query)].
Definition reads_at (d : StateMachineData) (now : N) : TokenReads :=
  MkTokenReads d (MkKeyCache [] []) now (λ _, at_once d) now now.
Definition exchange (d : StateMachineData) (now : N) (token scope : string) : result TokenResponse :=
  token_endpoint (λ _, false) sample_pairs Some (Some token_config) (reads_at d now) (Some scope)
    (Some ("Basic bob:" +:+ token)).

Lemma bearer_within_credential_witness :
  ∃ resp bearer, exchange with_pat 4000 "layerhouse-secret" "repository:acme/app:pull,push" = Ok resp ∧
    validate_oci_token (λ _, false) token_config 7600 (tr_token resp) = Ok bearer ∧ id_subject bearer = "sub-2" ∧
    validate_oci_token (λ _, false) token_config 7661 (tr_token resp) = unauthorized "invalid token".
Proof.
  destruct (exchange with_pat 4000 "layerhouse-secret" "repository:acme/app:pull,push") as [resp| |] eqn:E;
    [|vm_compute in E; discriminate E..].
  destruct (bearer_within_credential (λ _, false) sample_pairs Some token_config (reads_at with_pat 4000)
    (Some "repository:acme/app:pull,push") (Some "Basic bob:layerhouse-secret") resp E)
    as (user & token & identity & Hb & Hv & Hend & H).
  vm_compute in Hb. injection Hb as <- <-. vm_compute in Hv. injection Hv as <-.
  destruct (H 7600%N) as (bearer & Hbearer & Hsub & _); [vm_compute; discriminate|].
  exists resp, bearer. split_and!; [done..|]. apply Hend. vm_compute. reflexivity.
Defined.
