(* ===== verification/Pats.v ===== *)
(** Personal access tokens (crates/layerhouse-server/src/routes/pat_api.rs) and the
    ceiling on what a token may be given (max_grantable_action of auth/mod.rs and
    auth/cedar_authorizer.rs): creating, listing and revoking tokens, and the search
    over the repositories an actor may give access to. *)

From Stdlib Require Import Ascii.
From stdpp Require Import options.
From S2P Require Import Prelude Errors Digests Manifests Permissions Principals Handles.
From S2P Require Import SyncRuns Types StateMachine RefCounts Samples Reach Content Namespaces.
From S2P Require Import Authorization Decisions Router Queries Tokens.

(** * The ceiling *)

Section ceiling.
Context `{SJ : SerdeJson, OR : Openraft, EX : Externals, CE : !Cedar}.
Implicit Types (d : StateMachineData) (config : list ConfigPolicySet).

Definition repository_resource_for_authorization (repository : string) d : result (option RepositoryResource) :=
  match handle_of repository with
  | Ok handle =>
      if is_handle_reserved handle then Ok None
      else match sm_namespaces d !! handle with
           | None => Ok None
           | Some namespace => r ← from_repository repository namespace; Ok (Some r)
           end
  | _ => Ok None
  end.

(** The store when the repository, its namespace, the policies of each action and
    the source of the grant are read. *)
Record GrantReads := MkGrantReads {
  gr_repository : StateMachineData;
  gr_namespace : StateMachineData;
  gr_checks : OciAction → Reads;
  gr_source_repository : StateMachineData;
  gr_source_namespace : StateMachineData;
}.
Definition grant_at_once d : GrantReads := MkGrantReads d d (λ _, at_once d) d d.

(** [CedarRepositoryAuthorizer::max_grantable_action]. *)
Definition cedar_max_grantable_action config (actor : Actor) (repository : string) (rd : GrantReads)
    : result (option OciAction) :=
  resource ← repository_resource_for_authorization repository (gr_namespace rd);
  foldl (λ acc action,
      max ← acc;
      decision ← authorize config (MkAuthzRequest actor repository resource action) (gr_checks rd action);
      Ok (match decision with Allow => Some action | Deny => max end))
    (Ok None) [Pull; Create; Update; Delete].

Definition grant_source_for_authorized_action (identity : AuthIdentity) (repository : string)
    (action : OciAction) (rd : GrantReads) : GrantSource :=
  if bool_decide (action = Pull) && is_public_pull (gr_source_repository rd) repository then SrcPublic
  else if bool_decide (action = Delete) && in_personal_namespace (id_username identity) repository then SrcPersonal
  else if bool_decide (action = Delete) && negb (uses_explicit_scopes (id_token_type identity))
          && match handle_of repository with
             | Ok handle =>
                 negb (is_handle_reserved handle)
                 && match sm_namespaces (gr_source_namespace rd) !! handle with
                    | Some ns => bool_decide (ns_owner ns = OwnerUser (id_subject identity))
                    | None => false
                    end
             | _ => false
             end
  then SrcPersonal
  else SrcGroupGrant.

Definition max_grantable_action config (identity : AuthIdentity) (repository : string) (rd : GrantReads)
    : result (OciAction * GrantSource) :=
  let public_pull := is_public_pull (gr_repository rd) repository in
  let otherwise := if public_pull then Ok (Pull, SrcPublic)
                   else Err (Denied [Lit "access denied for repository "; Disp repository]) in
  match cedar_max_grantable_action config (identity_actor identity) repository rd with
  | Ok (Some action) => Ok (action, grant_source_for_authorized_action identity repository action rd)
  | Ok None | Err _ => otherwise
  | Panic => Panic
  end.
End ceiling.

(** * The token interface *)

Record PatScopeSelection := MkPatScopeSelection {
  sel_repository : string;
  sel_actions : list OciAction;
}.
Record CreatePatRequest := MkCreatePatRequest {
  cp_name : string;
  cp_scopes : list PatScopeSelection;
  cp_expires_in_days : option N;
}.
Record CreatePatResponse := MkCreatePatResponse {
  cpr_id : string;
  cpr_name : string;
  cpr_token : string;
  cpr_scopes : list string;
  cpr_created_at : N;
  cpr_expires_at : option N;
}.
Record PatListItem := MkPatListItem {
  pli_id : string;
  pli_name : string;
  pli_prefix : string;
  pli_scopes : list string;
  pli_created_at : N;
  pli_last_used_at : option N;
  pli_expires_at : option N;
}.

(** [hex::encode]. *)
Definition lower_hex_digit (i : N) : ascii := ascii_of_N (if bool_decide (i < 10)%N then 48 + i else 87 + i)%N.
Fixpoint hex_encode (bytes : list Byte.byte) : string :=
  match bytes with
  | [] => ""
  | b :: bytes' =>
      let n := Byte.to_N b in
      String (lower_hex_digit (n / 16)) (String (lower_hex_digit (n mod 16)) (hex_encode bytes'))
  end.

Section api.
Context `{SJ : SerdeJson, OR : Openraft, EX : Externals, CE : !Cedar}.
Implicit Types (d : StateMachineData) (identity : option AuthIdentity).

Definition required_identity identity : result AuthIdentity :=
  ok_or (Unauthorized [Lit "authentication required"] None None None) identity.

Definition pat_item (t : PersonalAccessToken) : PatListItem :=
  MkPatListItem (pat_id t) (pat_name t) (pat_token_prefix t) (pat_scopes t) (pat_created_at t)
    (pat_last_used_at t) (pat_expires_at t).
Definition list_tokens identity d : result (list PatListItem) :=
  identity ← required_identity identity;
  Ok (pat_item <$> list_personal_access_tokens d (id_subject identity)).

Definition record_scope_namespace_epoch (repo : string) d (epochs : list NamespaceEpoch) : list NamespaceEpoch :=
  match handle_of repo with
  | Ok handle =>
      if is_handle_reserved handle then epochs
      else match sm_namespaces d !! handle with
           | None => epochs
           | Some namespace =>
               let epoch := epoch_from_namespace namespace in
               if existsb (λ existing, bool_decide (existing = epoch)) epochs then epochs else epochs ++ [epoch]
           end
  | _ => epochs
  end.

Definition scope_of (repo : string) (actions : list OciAction) : string :=
  "repository:" +:+ repo +:+ ":" +:+ Str.join "," (scope_token <$> actions).

(** The store at the reads for one selection. *)
Record SelectionReads := MkSelectionReads { sr_grant : GrantReads; sr_epoch : StateMachineData }.

(** The check of one action against the ceiling. *)
Definition within_ceiling (repo : string) (max_action action : OciAction) : result () :=
  if action_matches max_action action then Ok ()
  else Err (Denied [Lit "cannot grant action "; Disp (scope_token action); Lit " on repository "; Dbg repo;
                    Lit ": your maximum grantable action is "; Disp (scope_token max_action)]).
Fixpoint all_within_ceiling (repo : string) (max_action : OciAction) (actions : list OciAction) : result () :=
  match actions with
  | [] => Ok ()
  | action :: actions' => _ ← within_ceiling repo max_action action; all_within_ceiling repo max_action actions'
  end.

(** One selection of the request: its scope, and the epochs after it. *)
Definition select_scope (auth : option (list ConfigPolicySet)) (identity : AuthIdentity) (rd : SelectionReads)
    (selection : PatScopeSelection) (epochs : list NamespaceEpoch) : result (string * list NamespaceEpoch) :=
  let repo := Str.trim (sel_repository selection) in
  if Str.is_empty repo then Err (NameInvalid [Lit "scope repository is required"])
  else if existsb (λ action, negb (is_repository_action action)) (sel_actions selection) then
    Err (NameInvalid [Lit "PAT scopes only support repository actions"])
  else
    let scope_str := scope_of repo (sel_actions selection) in
    _ ← pat_scope_allowed_for_identity scope_str (id_username identity);
    match auth with
    | None => Ok (scope_str, epochs)
    | Some config =>
        '(max_action, _) ← max_grantable_action config identity repo (sr_grant rd);
        _ ← all_within_ceiling repo max_action (sel_actions selection);
        Ok (scope_str, record_scope_namespace_epoch repo (sr_epoch rd) epochs)
    end.
Fixpoint select_scopes (auth : option (list ConfigPolicySet)) (identity : AuthIdentity)
    (rds : nat → SelectionReads) (k : nat) (selections : list PatScopeSelection) (scopes : list string)
    (epochs : list NamespaceEpoch) : result (list string * list NamespaceEpoch) :=
  match selections with
  | [] => Ok (scopes, epochs)
  | selection :: selections' =>
      '(scope, epochs) ← select_scope auth identity (rds k) selection epochs;
      select_scopes auth identity rds (S k) selections' (scopes ++ [scope]) epochs
  end.

(** The random bytes, the id, the clock, and what becomes of the write. *)
Record Generated := MkGenerated {
  gn_random : list Byte.byte;
  gn_uuid : string;
  gn_now : N;
}.
Definition raw_token (gn : Generated) : string := "layerhouse-" +:+ hex_encode (gn_random gn).
Definition SECONDS_PER_DAY : N := 86400.
Definition new_pat (identity : AuthIdentity) (gn : Generated) (req : CreatePatRequest) (scopes : list string)
    (epochs : list NamespaceEpoch) : PersonalAccessToken :=
  MkPersonalAccessToken (gn_uuid gn) (id_subject identity) (id_username identity) (cp_name req)
    (token_hash (raw_token gn)) (String.substring 0 12 (raw_token gn)) scopes epochs (gn_now gn) None
    ((λ days, gn_now gn + days * SECONDS_PER_DAY)%N <$> cp_expires_in_days req).

(** The checks, and the token they lead to. *)
Definition prepare_token (auth : option (list ConfigPolicySet)) identity (rds : nat → SelectionReads)
    (gn : Generated) (req : CreatePatRequest) : result PersonalAccessToken :=
  identity ← required_identity identity;
  if Str.is_empty (Str.trim (cp_name req)) then Err (NameInvalid [Lit "token name is required"])
  else
    '(scopes, epochs) ← select_scopes auth identity rds 0 (cp_scopes req) [] [];
    Ok (new_pat identity gn req scopes epochs).
Definition create_token (auth : option (list ConfigPolicySet)) identity (rds : nat → SelectionReads)
    (gn : Generated) (c : Commit) (req : CreatePatRequest) : result CreatePatResponse :=
  pat ← prepare_token auth identity rds gn req;
  _ ← put_personal_access_token c pat;
  Ok (MkCreatePatResponse (pat_id pat) (pat_name pat) (raw_token gn) (pat_scopes pat) (pat_created_at pat)
        (pat_expires_at pat)).

Definition revoke_token identity (c : Commit) (id : string) : result () :=
  identity ← required_identity identity;
  deleted ← delete_personal_access_token c id (id_subject identity);
  if (deleted : bool) then Ok () else Err (NameUnknown [Lit "token not found: "; Disp id]).

(** * The search over grantable repositories *)

Record GrantableScope := MkGrantableScope {
  gs_repository : string;
  gs_max_grantable : OciAction;
  gs_kind : list RepoKind;
  gs_grant_source : GrantSource;
}.
Record NamespacePatternScope := MkNamespacePatternScope {
  nps_pattern : string;
  nps_current_match_count : N;
  nps_max_grantable : OciAction;
  nps_grant_source : GrantSource;
}.
Record GrantableScopeListResponse := MkGrantableScopeListResponse {
  gl_scopes : list GrantableScope;
  gl_namespace_patterns : list NamespacePatternScope;
  gl_total_matches : N;
  gl_next_cursor : option string;
}.
Definition DEFAULT_PAGE_SIZE : nat := 50.
Definition MAX_PAGE_SIZE : nat := 200.

Context (to_lowercase : string → string).

(** The repositories the actor has access to, in the order of the summaries. *)
Fixpoint grantable_repositories (config : list ConfigPolicySet) (identity : AuthIdentity)
    (rds : string → GrantReads) (prefix : string) (repos : list string) : result (list GrantableScope) :=
  match repos with
  | [] => Ok []
  | repo :: repos' =>
      if negb (Str.is_empty prefix) && negb (Str.starts_with prefix (to_lowercase repo))
      then grantable_repositories config identity rds prefix repos'
      else match max_grantable_action config identity repo (rds repo) with
           | Ok (action, source) =>
               rest ← grantable_repositories config identity rds prefix repos';
               Ok (MkGrantableScope repo action [] source :: rest)
           | Err _ => grantable_repositories config identity rds prefix repos'
           | Panic => Panic
           end
  end.

(** [entry(pattern).and_modify(raise).or_insert(action)]. *)
Definition see_pattern (seen : gmap string OciAction) (p : string * OciAction) : gmap string OciAction :=
  let '(pattern, action) := p in
  match seen !! pattern with
  | None => <[pattern := action]> seen
  | Some existing =>
      if bool_decide (action_rank existing < action_rank action) then <[pattern := action]> seen else seen
  end.
Definition pattern_scope (grantable : list GrantableScope) (p : string * OciAction) : NamespacePatternScope :=
  let '(pattern, max_grantable) := p in
  let pattern_repo := default pattern (Str.strip_prefix "repository:" pattern) in
  let prefix_no_star := default pattern_repo (Str.strip_suffix "/*" pattern_repo) in
  let matches := filter (λ gs, gs_repository gs = prefix_no_star ∨
                           Str.starts_with (prefix_no_star +:+ "/") (gs_repository gs) = true) grantable in
  MkNamespacePatternScope pattern (N.of_nat (length matches)) max_grantable SrcGroupGrant.

(** A page after the cursor, and the cursor of the next. *)
Definition grantable_page (grantable : list GrantableScope) (n : nat) (cursor : option string)
    : list GrantableScope * option string :=
  let start := from_option (λ c, from_option (λ p, S p.1) 0 (list_find (λ gs, gs_repository gs = c) grantable))
                 0 cursor in
  let page := take n (drop start grantable) in
  (page, if bool_decide (start + n < length grantable) then gs_repository <$> last page else None).

Definition grantable_scopes (auth : option (list ConfigPolicySet)) identity (summaries : StateMachineData)
    (rds : string → GrantReads) (q : option string) (n : option nat) (cursor : option string)
    : result GrantableScopeListResponse :=
  identity ← required_identity identity;
  let prefix := to_lowercase (default "" q) in
  let n := (default DEFAULT_PAGE_SIZE n `max` 1) `min` MAX_PAGE_SIZE in
  grantable ← match auth with
              | None => Ok []
              | Some config =>
                  grantable_repositories config identity rds prefix
                    (rs_name <$> list_repository_summaries summaries)
              end;
  let seen := foldl see_pattern ∅ (derive_namespace_patterns (id_scopes identity) prefix) in
  let '(page, next_cursor) := grantable_page grantable n cursor in
  Ok (MkGrantableScopeListResponse page (pattern_scope grantable <$> btree_entries seen)
        (N.of_nat (length grantable)) next_cursor).
End api.

(** * The ceiling holds *)

Section ceiling_laws.
Context `{SJ : SerdeJson, OR : Openraft, EX : Externals, CE : !Cedar}.

Lemma all_within_ceiling_Ok repo m actions :
  all_within_ceiling repo m actions = Ok () → Forall (λ a, action_matches m a = true) actions.
Proof.
  induction actions as [|a actions IH]; simpl; [constructor|].
  intros ([] & H & ?)%result_bind_Ok. constructor; [|auto]. unfold within_ceiling in H.
  by destruct (action_matches m a).
Qed.

Lemma scope_token_parses a : is_repository_action a = true → parse_action_token (scope_token a) = Some a.
Proof. by destruct a. Qed.

(** The scope of a selection, read back: its repository, if it has no colon, and one
    of its actions. *)
Lemma scope_of_parses repo actions p a :
  Str.contains_char ":" repo = false → forallb is_repository_action actions = true →
  parse_scope (scope_of repo actions) = Some (p, a) → p = repo ∧ a ∈ actions.
Proof.
  intros Hr Ha. set (ts := Str.join "," (scope_token <$> actions)).
  assert (Str.contains_char ":" ts = false ∧
    omap parse_action_token (Str.split "," ts) = actions) as [Hts Hpieces].
  { unfold ts. clear ts. destruct actions as [|x actions]; [done|].
    assert (Forall (λ t, Str.contains_char "," t = false) (scope_token <$> x :: actions)) as Hc.
    { apply Forall_fmap, Forall_true. by intros []. }
    rewrite split_join by done. split.
    - clear. revert x. induction actions as [|y actions IH]; intros x; [by destruct x|].
      rewrite !fmap_cons, join_cons, !contains_char_app, <-fmap_cons, IH. by destruct x.
    - clear Hc. revert Ha. generalize (x :: actions). clear. induction l as [|a l IH]; [done|].
      simpl. intros [Ha Hl]%andb_true_iff. rewrite scope_token_parses by done. f_equal. by apply IH. }
  assert (Str.splitn 4 ":" (scope_of repo actions) = ["repository"; repo; ts]) as Hsplit.
  { unfold scope_of. fold ts. cbn [Str.splitn].
    rewrite (proj2 (split_once_Some ":" _ "repository" (repo +:+ ":" +:+ ts))) by done.
    rewrite (proj2 (split_once_Some ":" _ repo ts)) by done.
    by rewrite (proj2 (split_once_None ":" ts)). }
  unfold parse_scope. rewrite Hsplit. cbn -[Str.join Str.split]. rewrite Hpieces.
  intros (b & Hb & [= <- <-])%bind_Some. split; [done|]. by apply max_by_rank_elem.
Qed.

(** A selection whose repository has a colon has a pattern with a colon. *)
Lemma scope_of_colon repo actions p a :
  Str.contains_char ":" repo = true → parse_scope (scope_of repo actions) = Some (p, a) →
  Str.contains_char ":" p = true.
Proof.
  intros Hr. destruct (Str.split_once ":" repo) as [[x y]|] eqn:E.
  2: { apply split_once_None in E. congruence. }
  apply split_once_Some in E as [-> Hx]. unfold scope_of. set (ts := Str.join "," _).
  set (rest := y +:+ ":" +:+ ts).
  assert (∃ z w, Str.split_once ":" rest = Some (z, w)) as (z & w & Hz).
  { destruct (Str.split_once ":" rest) as [[z w]|] eqn:Er; [by eauto|]. apply split_once_None in Er.
    unfold rest in Er. rewrite !contains_char_app in Er. simpl in Er. by rewrite orb_true_r in Er. }
  assert (Str.splitn 4 ":" ("repository:" +:+ (x +:+ String ":" y) +:+ ":" +:+ ts) = ["repository"; x; z; w])
    as Hsplit.
  { cbn [Str.splitn].
    rewrite (proj2 (split_once_Some ":" _ "repository" ((x +:+ String ":" y) +:+ ":" +:+ ts))) by done.
    rewrite (proj2 (split_once_Some ":" _ x rest)) by (split; [by rewrite app_assoc_str|done]).
    by rewrite Hz. }
  unfold parse_scope. rewrite Hsplit. cbn -[Str.join Str.split].
  intros (b & _ & [= <- _])%bind_Some.
  change (Str.join ":" [x; z]) with (x +:+ ":" +:+ z). rewrite !contains_char_app. simpl.
  by rewrite orb_true_r.
Qed.

(** The reads of a permission check made of those of the ceiling. *)
Definition ceiling_reads (rd : GrantReads) (action : OciAction) : Reads :=
  let c := gr_checks rd action in
  MkReads (gr_namespace rd) (gr_repository rd) (rd_policy_namespace c) (rd_grants c) (rd_policy_sets c).

(** The actor may do what the ceiling says. *)
Lemma cedar_max_allowed config actor repository rd m :
  cedar_max_grantable_action config actor repository rd = Ok (Some m) →
  ∃ resource, repository_resource_for_authorization repository (gr_namespace rd) = Ok resource ∧
    authorize config (MkAuthzRequest actor repository resource m) (gr_checks rd m) = Ok Allow.
Proof.
  unfold cedar_max_grantable_action. intros (res & Hres & H)%result_bind_Ok. exists res. split; [done|].
  revert m H. generalize [Pull; Create; Update; Delete]. intros l.
  induction l as [|a l IH] using rev_ind; intros m; [done|]. rewrite foldl_app. simpl.
  intros (m0 & H0 & (d & Hd & [= H])%result_bind_Ok)%result_bind_Ok. destruct d; simplify_eq; [done|].
  by apply IH.
Qed.

Lemma resource_context_agrees config actor repository rd m res :
  repository_resource_for_authorization repository (gr_namespace rd) = Ok res →
  authorize config (MkAuthzRequest actor repository res m) (gr_checks rd m) = Ok Allow →
  ∃ ex, repository_resource_context repository m (ceiling_reads rd m) = Ok (ex, res).
Proof.
  intros Hres (policy & _ & (_ & Hw & _)%cedar_decision_Allow)%result_bind_Ok.
  unfold repository_resource_for_authorization in Hres. unfold repository_resource_context. simpl.
  destruct (handle_of repository) as [h| |] eqn:Eh; simplify_eq; eauto.
  destruct (is_handle_reserved h) eqn:Er; simplify_eq; eauto.
  destruct (sm_namespaces (gr_namespace rd) !! h) as [ns|].
  - apply result_bind_Ok in Hres as (r & -> & [= <-]). simpl. eauto.
  - injection Hres as <-. unfold unclaimed_write in Hw. simpl in Hw. rewrite Eh, Er in Hw.
    destruct (bool_decide (m = Pull)) eqn:Hp; simpl; [by eauto|]. simpl in Hw.
    case_bool_decide as Hstar; [|done]. by rewrite Hstar in Eh.
Qed.

Lemma max_grantable_permitted config identity repository rd m src :
  max_grantable_action config identity repository rd = Ok (m, src) →
  m = Pull ∧ is_public_pull (gr_repository rd) repository = true ∨
  ∃ access, check_permission config identity repository m (ceiling_reads rd m) = Ok access.
Proof.
  unfold max_grantable_action.
  destruct (cedar_max_grantable_action _ _ _ _) as [[m'|]| |] eqn:E; [|..|done].
  2,3: destruct (is_public_pull (gr_repository rd) repository); [|done]; intros [= <- <-]; by left.
  intros [= <- <-]. apply cedar_max_allowed in E as (res & Hres & Ha).
  destruct (decide (m' = Pull ∧ is_public_pull (gr_repository rd) repository = true)) as [?|Hn]; [by left|right].
  destruct (resource_context_agrees _ _ _ _ _ _ Hres Ha) as [ex Hc].
  eexists. apply check_permission_Ok. exists ex, res. split; [done|]. split; [done|]. right. split; [done|].
  unfold cedar_authorization_decision.
  assert (authorize config (MkAuthzRequest (identity_actor identity) repository res m') (ceiling_reads rd m')
    = Ok Allow) as -> by done. done.
Qed.

Lemma select_scope_Ok config identity rd selection epochs scope epochs' :
  select_scope (Some config) identity rd selection epochs = Ok (scope, epochs') →
  let repo := Str.trim (sel_repository selection) in
  scope = scope_of repo (sel_actions selection) ∧
  forallb is_repository_action (sel_actions selection) = true ∧
  (∃ m src, max_grantable_action config identity repo (sr_grant rd) = Ok (m, src) ∧
     Forall (λ a, action_matches m a = true) (sel_actions selection)) ∧
  epochs' = record_scope_namespace_epoch repo (sr_epoch rd) epochs.
Proof.
  unfold select_scope. set (repo := Str.trim _). destruct (Str.is_empty repo); [done|].
  destruct (existsb _ _) eqn:Ex; [done|].
  intros (? & _ & ([m src] & Hm & ([] & Hall & [= <- <-])%result_bind_Ok)%result_bind_Ok)%result_bind_Ok.
  split; [done|]. split.
  { apply forallb_forall. intros a Ha. apply not_false_iff_true. intros Hf.
    apply not_true_iff_false in Ex. apply Ex, existsb_exists. exists a. by rewrite Hf. }
  split; [|done]. exists m, src. split; [done|]. by apply all_within_ceiling_Ok in Hall.
Qed.

(** A scope the ceiling allows: the actor may itself do an action that covers it, and
    the generation of its namespace is recorded in [epochs]. *)
Definition granted_within (config : list ConfigPolicySet) (identity : AuthIdentity) (rds : nat → SelectionReads)
    (epochs : list NamespaceEpoch) (scope : string) : Prop :=
  ∀ p a, parse_scope scope = Some (p, a) → Str.contains_char ":" p = false →
  ∃ k m, covers m a ∧
    (m = Pull ∧ is_public_pull (gr_repository (sr_grant (rds k))) p = true ∨
     ∃ access, check_permission config identity p m (ceiling_reads (sr_grant (rds k)) m) = Ok access) ∧
    ∀ h n, handle_of p = Ok h → is_handle_reserved h = false →
      sm_namespaces (sr_epoch (rds k)) !! h = Some n → epoch_from_namespace n ∈ epochs.

Lemma record_scope_subseteq repo d epochs : ∀ e, e ∈ epochs → e ∈ record_scope_namespace_epoch repo d epochs.
Proof.
  intros e He. unfold record_scope_namespace_epoch. repeat case_match; try done. apply elem_of_app. by left.
Qed.
Lemma record_scope_elem repo d epochs h n :
  handle_of repo = Ok h → is_handle_reserved h = false → sm_namespaces d !! h = Some n →
  epoch_from_namespace n ∈ record_scope_namespace_epoch repo d epochs.
Proof.
  unfold record_scope_namespace_epoch. intros -> -> ->. case_match eqn:E.
  - apply existsb_exists in E as (e & Hin & ->%bool_decide_eq_true). by apply list_elem_of_In.
  - apply elem_of_app. right. by apply list_elem_of_singleton.
Qed.

Lemma granted_within_mono config identity rds e1 e2 scope :
  (∀ e, e ∈ e1 → e ∈ e2) → granted_within config identity rds e1 scope → granted_within config identity rds e2 scope.
Proof.
  intros Hsub H p a Hp Hc. destruct (H p a Hp Hc) as (k & m & Hm & Hperm & He). exists k, m.
  split; [done|]. split; [done|]. eauto.
Qed.

Lemma select_scope_within config identity rds k selection epochs scope epochs' :
  select_scope (Some config) identity (rds k) selection epochs = Ok (scope, epochs') →
  granted_within config identity rds epochs' scope ∧ ∀ e, e ∈ epochs → e ∈ epochs'.
Proof.
  intros (-> & Hrep & (m & src & Hm & Hall) & ->)%select_scope_Ok. set (repo := Str.trim _) in *.
  split; [|by apply record_scope_subseteq]. intros p a Hp Hc.
  destruct (Str.contains_char ":" repo) eqn:Hcol; [rewrite (scope_of_colon _ _ _ _ Hcol Hp) in Hc; done|].
  destruct (scope_of_parses _ _ _ _ Hcol Hrep Hp) as [-> Ha]. exists k, m.
  rewrite Forall_forall in Hall. split; [by apply matches_covers, Hall|].
  split; [by apply (max_grantable_permitted _ _ _ _ _ _ Hm)|]. intros h n. apply record_scope_elem.
Qed.

Lemma select_scopes_within config identity rds selections k scopes epochs scopes' epochs' :
  select_scopes (Some config) identity rds k selections scopes epochs = Ok (scopes', epochs') →
  Forall (granted_within config identity rds epochs) scopes →
  Forall (granted_within config identity rds epochs') scopes'.
Proof.
  revert k scopes epochs. induction selections as [|sel selections IH]; intros k scopes epochs; simpl.
  { by intros [= -> ->]. }
  intros ([scope e'] & [Hw Hsub]%select_scope_within & H)%result_bind_Ok Hall. apply (IH _ _ _ H).
  apply Forall_app. split; [|by apply Forall_singleton].
  eapply Forall_impl; [exact Hall|]. intros s. by apply granted_within_mono.
Qed.

(** C10: a token never exceeds the ceiling of its creator: whatever scope a created token
    has, its creator was allowed, when the token was made, an action on that very
    repository or pattern that the action ladder ranks at least as high, or the
    scope is a pull of a public repository; the token records the generation of the
    namespace, it is made in the name of its creator, and it lasts as long as was
    asked. *)
Theorem pat_within_ceiling config identity rds gn req pat
    (Hprep : prepare_token (Some config) (Some identity) rds gn req = Ok pat) :
  (pat_subject pat = id_subject identity ∧ pat_username pat = id_username identity) ∧
  (∀ days, cp_expires_in_days req = Some days → pat_expires_at pat = Some (gn_now gn + days * 86400)%N) ∧
  ∀ scope p a, scope ∈ pat_scopes pat → parse_scope scope = Some (p, a) → Str.contains_char ":" p = false →
    ∃ k m, covers m a ∧
      (m = Pull ∧ is_public_pull (gr_repository (sr_grant (rds k))) p = true ∨
       ∃ access, check_permission config identity p m (ceiling_reads (sr_grant (rds k)) m) = Ok access) ∧
      ∀ h n, handle_of p = Ok h → is_handle_reserved h = false →
        sm_namespaces (sr_epoch (rds k)) !! h = Some n → epoch_from_namespace n ∈ pat_namespace_epochs pat.
Proof.
  unfold prepare_token in Hprep. simpl in Hprep. destruct (Str.is_empty _); [done|].
  apply result_bind_Ok in Hprep as ([scopes epochs] & Hs & [= <-]). simpl.
  split; [done|]. split; [by intros days ->|]. intros scope p a Hin.
  apply select_scopes_within in Hs; [|done]. rewrite Forall_forall in Hs. exact (Hs scope Hin p a).
Qed.
End ceiling_laws.

(** * The life of a token *)

Section lifecycle.
Context `{SJ : SerdeJson, OR : Openraft, EX : Externals, CE : !Cedar}.
Implicit Types (d : StateMachineData) (reqs : list (N * Request)).

(** The state after the requests, each applied at its time. *)
Definition after_requests d reqs : StateMachineData := foldl (λ d p, (apply_request p.1 d p.2).1) d reqs.

(** Requests that neither replace nor revoke a token, and requests that do not store
    a token with a given hash. *)
Definition keeps_token (pat : PersonalAccessToken) (p : N * Request) : Prop :=
  match p.2 with
  | ReqToken (PutPersonalAccessToken t) => pat_id t ≠ pat_id pat ∧ pat_token_hash t ≠ pat_token_hash pat
  | ReqToken (DeletePersonalAccessToken id subject) => ¬ (id = pat_id pat ∧ subject = pat_subject pat)
  | _ => True
  end.
Definition no_hash (hash : string) (p : N * Request) : Prop :=
  match p.2 with ReqToken (PutPersonalAccessToken t) => pat_token_hash t ≠ hash | _ => True end.

Definition hash_unused d (hash : string) : Prop :=
  ∀ k t, sm_personal_access_tokens d !! k = Some t → pat_token_hash t ≠ hash.
Definition only_token d (pat : PersonalAccessToken) : Prop :=
  sm_personal_access_tokens d !! pat_id pat = Some pat ∧
  ∀ k t, sm_personal_access_tokens d !! k = Some t → pat_token_hash t = pat_token_hash pat → k = pat_id pat.

Lemma by_hash_unused d hash : hash_unused d hash → get_personal_access_token_by_hash d hash = None.
Proof.
  intros H. unfold get_personal_access_token_by_hash.
  rewrite (proj2 (list_find_None _ _)); [done|]. apply Forall_forall.
  intros t (k & Ht)%elem_of_btree_values. by apply H in Ht.
Qed.
Lemma by_hash_only d pat :
  only_token d pat → get_personal_access_token_by_hash d (pat_token_hash pat) = Some pat.
Proof.
  intros [Hin Huniq]. unfold get_personal_access_token_by_hash.
  destruct (list_find _ _) as [[i t]|] eqn:E.
  - apply list_find_Some in E as (Ht & Hh & _). simpl. f_equal.
    apply list_elem_of_lookup_2 in Ht. apply elem_of_btree_values in Ht as [k Ht].
    pose proof (Huniq k t Ht Hh) as ->. congruence.
  - apply list_find_None in E. rewrite Forall_forall in E. exfalso. apply (E pat); [|done].
    apply elem_of_btree_values. by eexists.
Qed.

Lemma other_requests_keep_tokens now d req :
  match req with ReqToken _ => False | _ => True end →
  sm_personal_access_tokens (apply_request now d req).1 = sm_personal_access_tokens d.
Proof.
  destruct req as [r|r|r|r|r|r|r]; try done; intros _; simpl.
  - destruct r; simpl; unfold apply_put_manifest, apply_delete_manifest, apply_delete_tag,
      apply_delete_repository, apply_delete_manifests;
      try (destruct (require_expected_namespace _ _ _); cbn [try_with]; [|done..]); try done.
    + destruct (_ && _); [done|]. simpl. by destruct (negb _).
    + unfold drop_tags, retain_tags. repeat case_match; by simplify_eq/=.
    + repeat case_match; by simplify_eq/=.
    + simpl. by destruct (sm_manifests d !! name).
    + unfold drop_tags, retain_tags. repeat case_match; by simplify_eq/=.
  - destruct r; simpl; repeat case_match; by simplify_eq/=.
  - destruct r; simpl; repeat case_match; by simplify_eq/=.
  - destruct r as [p|i]; [|done]. simpl. by destruct (validate_policy_set p).
  - destruct r; simpl; by destruct (require_expected_namespace _ _ _).
  - unfold apply_namespace. by destruct (apply_namespace_core _ _ _).
Qed.

Lemma only_token_step d pat p :
  keeps_token pat p → only_token d pat → only_token (apply_request p.1 d p.2).1 pat.
Proof.
  destruct p as [now req]. intros Hk [Hin Huniq]. unfold only_token. simpl in *.
  pose proof (other_requests_keep_tokens now d req) as Ho.
  destruct req as [r|r|r|r|r|r|r]; try (by rewrite Ho). clear Ho. unfold keeps_token in Hk. simpl in *.
  destruct r as [t|id subject]; simpl.
  - destruct Hk as [Hid Hh]. split; [by rewrite lookup_insert_ne|].
    intros k t' [[_ <-]|[_ Ht]]%lookup_insert_Some; [done|]. by apply (Huniq k t').
  - destruct (sm_personal_access_tokens d !! id) as [t|] eqn:Et; [|done]. simpl.
    case_bool_decide as Hs; [|done]. simpl. split.
    + rewrite lookup_delete_ne; [done|]. intros ->. apply Hk. by simplify_eq.
    + intros k t' [_ Ht]%lookup_delete_Some. by apply (Huniq k t').
Qed.

Lemma hash_unused_step d hash p :
  no_hash hash p → hash_unused d hash → hash_unused (apply_request p.1 d p.2).1 hash.
Proof.
  destruct p as [now req]. intros Hk Hu. unfold hash_unused. simpl in *.
  pose proof (other_requests_keep_tokens now d req) as Ho.
  destruct req as [r|r|r|r|r|r|r]; try (by rewrite Ho). clear Ho. unfold no_hash in Hk. simpl in *.
  destruct r as [t|id subject]; simpl.
  - intros k t' [[_ <-]|[_ Ht]]%lookup_insert_Some; [done|]. by apply (Hu k).
  - case_match; [|done]. simpl. intros k t' [_ Ht]%lookup_delete_Some. by apply (Hu k).
Qed.

Lemma only_token_after pat reqs d :
  Forall (keeps_token pat) reqs → only_token d pat → only_token (after_requests d reqs) pat.
Proof. intros H. revert d. induction H; intros d Hd; [done|]. simpl. by apply IHForall, only_token_step. Qed.
Lemma hash_unused_after hash reqs d :
  Forall (no_hash hash) reqs → hash_unused d hash → hash_unused (after_requests d reqs) hash.
Proof. intros H. revert d. induction H; intros d Hd; [done|]. simpl. by apply IHForall, hash_unused_step. Qed.

Lemma layerhouse_prefix gn : Str.starts_with "layerhouse-" (raw_token gn) = true.
Proof. apply starts_with_true. by eexists. Qed.

(** C11: the life of a token whose secret is new: creating it succeeds and returns
    the secret; from then on, whatever else happens, the secret stands for its
    creator with the chosen scopes until it expires, nobody else can revoke it, and
    once its owner has revoked it the secret is refused for ever, unless a token
    with the same secret is stored again. *)
Theorem pat_lifecycle uuid_ok (JW : Jwt) cf kc auth identity rds gn now d req pat reqs
    (Hprep : prepare_token auth (Some identity) rds gn req = Ok pat)
    (Hfresh : hash_unused d (token_hash (raw_token gn))) (Hkeep : Forall (keeps_token pat) reqs) :
  let d0 := (apply_request now d (ReqToken (PutPersonalAccessToken pat))).1 in
  let d1 := after_requests d0 reqs in
  (∃ resp, create_token auth (Some identity) rds gn (CommitAt now d) req = Ok resp ∧
     cpr_token resp = raw_token gn ∧ cpr_id resp = pat_id pat ∧ cpr_scopes resp = pat_scopes pat) ∧
  (∀ t, validate_token uuid_ok cf kc d1 t (raw_token gn) =
     if from_option (λ exp, bool_decide (exp < t)%N) false (pat_expires_at pat)
     then Tokens.unauthorized "token expired"
     else principal ← user_principal cf (id_subject identity);
          Ok (MkAuthIdentity (id_subject identity) principal (id_username identity) None None [] []
                (pat_scopes pat) (pat_namespace_epochs pat) PersonalAccess)) ∧
  (∀ other t, id_subject other ≠ id_subject identity →
     is_err (revoke_token (Some other) (CommitAt t d1) (pat_id pat)) = true ∧
     (apply_request t d1 (ReqToken (DeletePersonalAccessToken (pat_id pat) (id_subject other)))).1 = d1) ∧
  (∀ t, revoke_token (Some identity) (CommitAt t d1) (pat_id pat) = Ok () ∧
     ∀ later t', Forall (no_hash (pat_token_hash pat)) later →
       validate_token uuid_ok cf kc (after_requests
         (apply_request t d1 (ReqToken (DeletePersonalAccessToken (pat_id pat) (id_subject identity)))).1 later)
         t' (raw_token gn) = Tokens.unauthorized "invalid token").
Proof.
  intros d0 d1.
  assert (pat_token_hash pat = token_hash (raw_token gn) ∧ pat_subject pat = id_subject identity ∧
    pat_username pat = id_username identity) as (Hhash & Hsub & Huser).
  { unfold prepare_token in Hprep. simpl in Hprep. destruct (Str.is_empty _); [done|].
    by apply result_bind_Ok in Hprep as ([? ?] & _ & [= <-]). }
  assert (only_token d1 pat) as Honly.
  { apply only_token_after; [done|]. split; simpl; [by rewrite lookup_insert_eq|].
    intros k t [[<- _]|[_ Ht]]%lookup_insert_Some; [done|]. rewrite Hhash. by intros ?%(Hfresh k t). }
  pose proof (proj1 Honly) as Hin. split.
  { unfold create_token. rewrite Hprep. simpl. eexists. split; [done|]. done. }
  split; [|split].
  - intros t. unfold validate_token. rewrite layerhouse_prefix. unfold validate_pat.
    rewrite <-Hhash, (by_hash_only _ _ Honly), Hsub, Huser. done.
  - intros other t Hne. unfold revoke_token, delete_personal_access_token, write_token, write. simpl.
    rewrite Hin, Hsub, bool_decide_eq_false_2 by done. done.
  - intros t. unfold revoke_token, delete_personal_access_token, write_token, write. simpl.
    rewrite Hin, Hsub, bool_decide_eq_true_2 by done. split; [done|]. intros later t' Hlater.
    unfold validate_token. rewrite layerhouse_prefix. unfold validate_pat.
    rewrite <-Hhash, by_hash_unused; [done|]. apply hash_unused_after; [done|].
    intros k t'' Ht Heq. simpl in Ht. apply lookup_delete_Some in Ht as [Hk Ht]. apply Hk. symmetry. exact (proj2 Honly k t'' Ht Heq).
Qed.
End lifecycle.

(** * Tokens in use *)

Definition all_at (d : StateMachineData) : nat → SelectionReads := λ _, MkSelectionReads (grant_at_once d) d.
Definition sample_generated : Generated := MkGenerated [Byte.x00; Byte.xff] "pat-1" 1000.
Definition push_request : CreatePatRequest :=
  MkCreatePatRequest "ci" [MkPatScopeSelection "acme/app" [Pull; Update]] (Some 1%N).

Lemma pat_within_ceiling_witness :
  ∃ pat m, prepare_token (Some []) (Some bob_session) (all_at granted) sample_generated push_request = Ok pat ∧
    covers m Update.
Proof.
  destruct (prepare_token (Some []) (Some bob_session) (all_at granted) sample_generated push_request)
    as [pat| |] eqn:E; [|vm_compute in E; discriminate E..].
  destruct (pat_within_ceiling [] bob_session (all_at granted) sample_generated push_request pat E) as (_ & _ & H).
  assert (pat_scopes pat = ["repository:acme/app:pull,update"]) as Hs.
  { vm_compute in E. injection E as <-. reflexivity. }
  destruct (H "repository:acme/app:pull,update" "acme/app" Update) as (k & m & Hm & _).
  - rewrite Hs. by left.
  - reflexivity.
  - reflexivity.
  - by exists pat, m.
Defined.

Lemma pat_lifecycle_witness :
  ∃ pat, prepare_token (Some []) (Some bob_session) (all_at granted) sample_generated push_request = Ok pat ∧
    validate_token (λ _, false) token_config (MkKeyCache [] [])
      (after_requests (apply_request 0 granted (ReqToken (PutPersonalAccessToken pat))).1
         [(5%N, push "acme/web" "v2" manifest_digest)]) 90000 (raw_token sample_generated)
      = Tokens.unauthorized "token expired".
Proof.
  destruct (prepare_token (Some []) (Some bob_session) (all_at granted) sample_generated push_request)
    as [pat| |] eqn:E; [|vm_compute in E; discriminate E..].
  destruct (pat_lifecycle (λ _, false) sample_jwt token_config (MkKeyCache [] []) (Some []) bob_session
    (all_at granted) sample_generated 0 granted push_request pat [(5%N, push "acme/web" "v2" manifest_digest)] E)
    as (_ & H & _).
  - assert (sm_personal_access_tokens granted = ∅) as Hp by (vm_compute; reflexivity).
    intros k t Ht. by rewrite Hp, lookup_empty in Ht.
  - repeat constructor.
  - exists pat. split; [reflexivity|]. rewrite H.
    assert (pat_expires_at pat = Some 87400%N) as -> by (vm_compute in E; injection E as <-; reflexivity).
    reflexivity.
Defined.

(** A bearer token can be exchanged for a new one, so that access outlives the
    personal access token it came from: a member's token that expires at 5000 is
    exchanged at 4000, its owner revokes it, and at 7600, when the first bearer token
    expires, that one is accepted as a password and yields another with the same
    push access, valid for another hour. The token endpoint's comment says the
    password is a personal access token or a token of the identity provider. *)
Definition token_of (r : result TokenResponse) : string := match r with Ok resp => tr_token resp | _ => "" end.
Definition may (config : list ConfigPolicySet) (d : StateMachineData) (now : N) (token repository : string)
    (action : OciAction) : bool :=
  is_ok (identity ← validate_token (λ _, false) token_config (MkKeyCache [] []) d now token;
         check_permission config identity repository action (at_once d)).
Definition token_revoked : StateMachineData :=
  (apply_request 0 with_pat (ReqToken (DeletePersonalAccessToken "pat-1" "sub-2"))).1.
Theorem bearer_outlives_token :
  let scope := "repository:acme/app:pull,push" in
  let first := token_of (exchange with_pat 4000 "layerhouse-secret" scope) in
  let second := token_of (exchange token_revoked 7600 first scope) in
  is_ok (revoke_token (Some bob_session) (CommitAt 0 with_pat) "pat-1") = true ∧
  may [] token_revoked 4001 "layerhouse-secret" "acme/app" Update = false ∧
  may [] token_revoked 7600 first "acme/app" Update = true ∧
  may [] token_revoked 7601 first "acme/app" Update = false ∧
  may [] token_revoked 11200 second "acme/app" Update = true.
Proof. split_and!; vm_compute; reflexivity. Qed.

(** The ceiling is a rank, not a set of actions: a user whom a policy permits only to
    delete may not pull, but may make a token that may, although the check is there
    so that "the actor cannot grant more than they have". *)
Definition carol_session : AuthIdentity :=
  MkAuthIdentity "sub-3" "keycloak:user:sub-3" (Some "carol") None None [] [] [] [] Session.
Definition delete_only : ConfigPolicySet :=
  MkConfigPolicySet "cleanup" "cleanup" true
    (permit_text (MkPermit (PrincipalIs (MkEntityId TUser "keycloak:user:sub-3")) Delete
       (ResourceIn (cedar_namespace (MkNamespaceEpoch "acme" 1))))).
Definition peek_request : CreatePatRequest :=
  MkCreatePatRequest "peek" [MkPatScopeSelection "acme/app" [Pull]] None.
Definition peeking : StateMachineData :=
  match prepare_token (Some [delete_only]) (Some carol_session) (all_at claimed) sample_generated peek_request with
  | Ok pat => (apply_request 0 claimed (ReqToken (PutPersonalAccessToken pat))).1
  | _ => claimed
  end.
Theorem ceiling_grants_unheld_action :
  is_ok (check_permission [delete_only] carol_session "acme/app" Pull (at_once claimed)) = false ∧
  is_ok (create_token (Some [delete_only]) (Some carol_session) (all_at claimed) sample_generated
    (CommitAt 0 claimed) peek_request) = true ∧
  may [delete_only] peeking 2000 (raw_token sample_generated) "acme/app" Pull = true.
Proof. split_and!; vm_compute; reflexivity. Qed.
