(* ===== verification/NamespaceRoutes.v ===== *)
(** The namespace routes (crates/layerhouse-server/src/routes/namespaces/handlers.rs
    and types.rs): claiming, releasing and revoking namespaces, and the grants that
    owners and administrators give on them.

    A handler reads the store of its own node and writes through the replicated
    store of Router.v; its reads and its write are arguments, so that they need not
    see the same state. Responses are the values the JSON bodies are made of. *)

From Stdlib Require Import Ascii.
From stdpp Require Import options.
From S2P Require Import Prelude Errors Digests Manifests Permissions Principals Handles.
From S2P Require Import SyncRuns Types StateMachine RefCounts Samples Reach Content Namespaces.
From S2P Require Import Authorization Decisions Middleware Router Queries Tokens.

(** * Requests and responses *)

Record ClaimNamespaceRequest := MkClaimNamespaceRequest {
  cn_owner_label : option string;
  cn_admin_override : bool;
}.
Inductive NamespaceGrantGranteeRequest :=
  | RequestGroup (id : string)
  | RequestUser (id : string)
  | RequestPublic.
Record PutNamespaceGrantRequest := MkPutNamespaceGrantRequest {
  pg_grantee : NamespaceGrantGranteeRequest;
  pg_action : OciAction;
  pg_label : option string;
  pg_reason : option string;
}.
Record PatchNamespaceGrantRequest := MkPatchNamespaceGrantRequest {
  pt_action : OciAction;
  pt_label : option string;
  pt_reason : option string;
}.

Record NamespaceJson := MkNamespaceJson {
  nj_handle : string;
  nj_generation : N;
  nj_owner_kind : string;
  nj_owner_label : string;
  nj_created_at : N;
}.
Definition namespace_response (ns : Namespace) : NamespaceJson :=
  MkNamespaceJson (ns_handle ns) (ns_generation ns)
    (match ns_owner ns with OwnerUser _ => "user" | OwnerOrg _ => "org" end)
    (ns_owner_label ns) (ns_created_at ns).

(** The fields of a grant are shown as they are stored. *)
Definition namespace_grant_response (grant : NamespaceGrant) : NamespaceGrant := grant.
Record NamespaceGrantAuditJson := MkNamespaceGrantAuditJson {
  gj_id : string;
  gj_namespace : string;
  gj_grant_id : option string;
  gj_operation : NamespaceGrantAuditOperation;
  gj_actor : string;
  gj_actor_label : string;
  gj_reason : string;
  gj_before : option NamespaceGrant;
  gj_after : option NamespaceGrant;
  gj_created_at : N;
}.
Definition namespace_grant_audit_response (ev : NamespaceGrantAuditEvent) : NamespaceGrantAuditJson :=
  MkNamespaceGrantAuditJson (au_id ev) (au_namespace ev) (au_grant_id ev) (au_operation ev) (au_actor ev)
    (au_actor_label ev) (au_reason ev) (namespace_grant_response <$> au_before ev)
    (namespace_grant_response <$> au_after ev) (au_created_at ev).

Definition into_grantee (g : NamespaceGrantGranteeRequest) : result NamespaceGrantGrantee :=
  match g with
  | RequestGroup id =>
      id ← ProviderQualifiedId_parse id; _ ← PrincipalRef_group id; Ok (GranteeGroup id)
  | RequestUser id =>
      id ← ProviderQualifiedId_parse id; _ ← PrincipalRef_user id; Ok (GranteeUser id)
  | RequestPublic => Ok GranteePublic
  end.

(** * Checks and helpers *)

Definition public_safe_action (grantee : NamespaceGrantGrantee) (action : OciAction) : result OciAction :=
  if negb (is_repository_action action) then
    Err (NameInvalid [Lit "namespace grants only support repository actions"])
  else match grantee with
       | GranteePublic => Err (NameInvalid [Lit "public pull is controlled by repository visibility"])
       | _ => Ok action
       end.

Definition actor_label (identity : AuthIdentity) : string :=
  default (id_subject identity)
    (or_else (or_else (id_display_name identity) (id_username identity)) (id_email identity)).

Definition normalized_reason (reason : option string) (required : bool) : result string :=
  match trimmed reason with
  | Some reason => Ok reason
  | None => if required then Err (NameInvalid [Lit "admin grant changes require a reason"]) else Ok "owner change"
  end.

Section routes.
Context `{SJ : SerdeJson, OR : Openraft, EX : Externals, CE : !Cedar}.
Implicit Types (d : StateMachineData) (auth : option (list ConfigPolicySet)) (who : option AuthIdentity).

Definition require_auth auth who : result AuthIdentity :=
  match auth with
  | None => Err (Internal [Lit "auth is not configured"])
  | Some _ => ok_or (Unauthorized [Lit "authentication required"] None None None) who
  end.
Definition require_admin auth (identity : AuthIdentity) (rd : Reads) : result () :=
  match auth with None => Ok () | Some config => check_admin_access config identity rd end.

Definition list_namespaces d : list Namespace := btree_values (sm_namespaces d).
Definition ensure_namespace_exists d (handle : string) : result Namespace :=
  ok_or (NameUnknown [Lit "namespace "; Dbg handle; Lit " not found"]) (sm_namespaces d !! handle).
Definition require_namespace_owner d (identity : AuthIdentity) (handle : string) : result () :=
  ns ← ensure_namespace_exists d handle;
  if bool_decide (ns_owner ns = OwnerUser (id_subject identity)) then Ok ()
  else Err (Denied [Lit "namespace "; Dbg handle; Lit " is not owned by the caller"]).

(** The stable keys of stored grants panic on an id of the wrong kind. *)
Fixpoint find_grantee (key : string) (grants : list NamespaceGrant) : result (option NamespaceGrant) :=
  match grants with
  | [] => Ok None
  | grant :: grants' =>
      k ← grantee_stable_key (ng_grantee grant);
      if bool_decide (k = key) then Ok (Some grant) else find_grantee key grants'
  end.
Definition matching_grant d (handle : string) (grantee : NamespaceGrantGrantee) : result (option NamespaceGrant) :=
  match list_namespace_grants d handle with
  | [] => Ok None
  | grants => key ← grantee_stable_key grantee; find_grantee key grants
  end.

(** What a grant handler reads and is given: the store at the owner or administrator
    check, when the namespace and when the grants are looked up, a fresh id, the
    clock, and what becomes of the write. *)
Record GrantEnv := MkGrantEnv {
  ge_owner : StateMachineData;
  ge_admin : Reads;
  ge_exists : StateMachineData;
  ge_grants : StateMachineData;
  ge_uuid : string;
  ge_audit : string;
  ge_now : N;
  ge_commit : Commit;
}.

(** * Grants *)

Definition put_namespace_grant_response (env : GrantEnv) (identity : AuthIdentity) (handle : string)
    (req : PutNamespaceGrantRequest) (admin : bool) : result NamespaceGrant :=
  _ ← ensure_namespace_exists (ge_exists env) handle;
  reason ← normalized_reason (pg_reason req) admin;
  grantee ← into_grantee (pg_grantee req);
  existing ← matching_grant (ge_grants env) handle grantee;
  action ← public_safe_action grantee (pg_action req);
  let label := default (grantee_label grantee) (trimmed (pg_label req)) in
  let grant := MkNamespaceGrant (default (ge_uuid env) (ng_id <$> existing)) handle grantee action label
                 (id_subject identity) (ge_now env) (id_subject identity) (ge_now env) in
  saved ← put_namespace_grant (ge_commit env) grant (actor_label identity) reason (ge_audit env);
  Ok (namespace_grant_response saved).

Definition patch_namespace_grant_response (env : GrantEnv) (identity : AuthIdentity) (handle grant_id : string)
    (req : PatchNamespaceGrantRequest) (admin : bool) : result NamespaceGrant :=
  _ ← ensure_namespace_exists (ge_exists env) handle;
  reason ← normalized_reason (pt_reason req) admin;
  grant ← ok_or (NameUnknown [Lit "namespace grant "; Dbg grant_id; Lit " not found"])
            (grant_at (ge_grants env) handle grant_id);
  action ← public_safe_action (ng_grantee grant) (pt_action req);
  let grant := MkNamespaceGrant (ng_id grant) (ng_namespace grant) (ng_grantee grant) action
                 (default (ng_label grant) (trimmed (pt_label req))) (ng_created_by grant) (ng_created_at grant)
                 (id_subject identity) (ge_now env) in
  saved ← put_namespace_grant (ge_commit env) grant (actor_label identity) reason (ge_audit env);
  Ok (namespace_grant_response saved).

Definition delete_namespace_grant_response (env : GrantEnv) (identity : AuthIdentity) (handle grant_id : string)
    (reason : option string) (admin : bool) : result () :=
  _ ← ensure_namespace_exists (ge_exists env) handle;
  reason ← normalized_reason reason admin;
  deleted ← delete_namespace_grant (ge_commit env) handle grant_id (id_subject identity) (actor_label identity)
              reason (ge_now env) (ge_audit env);
  if (deleted : bool) then Ok ()
  else Err (NameUnknown [Lit "namespace grant "; Dbg grant_id; Lit " not found"]).

Definition list_namespace_grants_response d (handle : string) : list NamespaceGrant :=
  namespace_grant_response <$> list_namespace_grants d handle.

(** The owner's routes. *)
Definition list_account_namespace_grants auth who (env : GrantEnv) (handle : string) : result (list NamespaceGrant) :=
  identity ← require_auth auth who;
  _ ← require_namespace_owner (ge_owner env) identity handle;
  Ok (list_namespace_grants_response (ge_grants env) handle).
Definition create_account_namespace_grant auth who (env : GrantEnv) (handle : string)
    (req : PutNamespaceGrantRequest) : result NamespaceGrant :=
  identity ← require_auth auth who;
  _ ← require_namespace_owner (ge_owner env) identity handle;
  put_namespace_grant_response env identity handle req false.
Definition update_account_namespace_grant auth who (env : GrantEnv) (handle grant_id : string)
    (req : PatchNamespaceGrantRequest) : result NamespaceGrant :=
  identity ← require_auth auth who;
  _ ← require_namespace_owner (ge_owner env) identity handle;
  patch_namespace_grant_response env identity handle grant_id req false.
Definition delete_account_namespace_grant auth who (env : GrantEnv) (handle grant_id : string) : result () :=
  identity ← require_auth auth who;
  _ ← require_namespace_owner (ge_owner env) identity handle;
  delete_namespace_grant_response env identity handle grant_id None false.

(** The administrator's routes. *)
Definition list_admin_namespace_grants auth who (env : GrantEnv) (handle : string) : result (list NamespaceGrant) :=
  identity ← require_auth auth who;
  _ ← require_admin auth identity (ge_admin env);
  _ ← ensure_namespace_exists (ge_exists env) handle;
  Ok (list_namespace_grants_response (ge_grants env) handle).
Definition create_admin_namespace_grant auth who (env : GrantEnv) (handle : string)
    (req : PutNamespaceGrantRequest) : result NamespaceGrant :=
  identity ← require_auth auth who;
  _ ← require_admin auth identity (ge_admin env);
  put_namespace_grant_response env identity handle req true.
Definition update_admin_namespace_grant auth who (env : GrantEnv) (handle grant_id : string)
    (req : PatchNamespaceGrantRequest) : result NamespaceGrant :=
  identity ← require_auth auth who;
  _ ← require_admin auth identity (ge_admin env);
  patch_namespace_grant_response env identity handle grant_id req true.
Definition delete_admin_namespace_grant auth who (env : GrantEnv) (handle grant_id : string)
    (reason : option string) : result () :=
  identity ← require_auth auth who;
  _ ← require_admin auth identity (ge_admin env);
  delete_namespace_grant_response env identity handle grant_id reason true.
Definition list_admin_namespace_grant_audit auth who (env : GrantEnv) (handle : string)
    : result (list NamespaceGrantAuditJson) :=
  identity ← require_auth auth who;
  _ ← require_admin auth identity (ge_admin env);
  _ ← ensure_namespace_exists (ge_exists env) handle;
  Ok (namespace_grant_audit_response <$> list_namespace_grant_audit (ge_grants env) handle).

(** * Claims *)

Definition list_namespaces_handler auth who (rd : Reads) d : result (list NamespaceJson) :=
  identity ← require_auth auth who;
  _ ← require_admin auth identity rd;
  Ok (namespace_response <$> list_namespaces d).
Definition list_account_namespaces auth who d : result (list NamespaceJson) :=
  identity ← require_auth auth who;
  Ok (namespace_response <$> filter (λ ns, ns_owner ns = OwnerUser (id_subject identity)) (list_namespaces d)).
Definition get_namespace_handler auth who (rd : Reads) d (handle : string) : result NamespaceJson :=
  identity ← require_auth auth who;
  _ ← require_admin auth identity rd;
  ns ← ensure_namespace_exists d handle;
  Ok (namespace_response ns).

(** [after] is the node's own state when the claim is read back. *)
Definition claim_namespace_handler auth who (rd : Reads) (now : N) (c : Commit) (after : StateMachineData)
    (handle : string) (req : ClaimNamespaceRequest) : result NamespaceJson :=
  identity ← require_auth auth who;
  _ ← (if cn_admin_override req then require_admin auth identity rd else Ok ());
  let owner_label := default (default "unknown" (id_username identity)) (cn_owner_label req) in
  _ ← claim_namespace c handle (OwnerUser (id_subject identity)) owner_label (id_subject identity)
        (cn_admin_override req) now;
  ns ← expect (sm_namespaces after !! handle);
  Ok (namespace_response ns).
Definition release_namespace_handler auth who (now : N) (c : Commit) (handle : string) (reason : option string)
    : result () :=
  identity ← require_auth auth who;
  Router.release_namespace c handle (id_subject identity)
    (match trimmed reason with Some s => Renamed s | None => OwnerDeleted end) now.
Definition revoke_namespace auth who (rd : Reads) (now : N) (c : Commit) (handle : string) : result () :=
  identity ← require_auth auth who;
  _ ← require_admin auth identity rd;
  admin_revoke_namespace c handle (id_subject identity) now.

(** * Users *)

Record ObservedIdentityJson := MkObservedIdentityJson {
  oj_subject : string;
  oj_principal : string;
  oj_username : option string;
  oj_display_name : option string;
  oj_email : option string;
  oj_groups : list string;
  oj_group_ids : list string;
  oj_last_seen_at : N;
}.
Definition observed_identity_response (i : ObservedIdentity) : ObservedIdentityJson :=
  MkObservedIdentityJson (oi_subject i) (oi_principal i) (oi_username i) (oi_display_name i) (oi_email i)
    (oi_groups i) (oi_group_ids i) (oi_last_seen_at i).
Definition search_observed_users (to_lowercase : string → string) auth who d (q : option string)
    (limit : option nat) : result (list ObservedIdentityJson) :=
  _ ← require_auth auth who;
  let limit := (default 20 limit `max` 1) `min` 50 in
  Ok (observed_identity_response <$> search_observed_identities to_lowercase d (default "" q) limit).
End routes.

(** * What a grant change does *)

Section changes.
Context `{SJ : SerdeJson, OR : Openraft, EX : Externals, CE : !Cedar}.
Implicit Types (d : StateMachineData) (auth : option (list ConfigPolicySet)).

(** The three changes, made by the owner or by an administrator. *)
Inductive GrantCall :=
  | CallCreate (req : PutNamespaceGrantRequest)
  | CallUpdate (grant_id : string) (req : PatchNamespaceGrantRequest)
  | CallDelete (grant_id : string) (reason : option string).
Definition grant_call auth (identity : AuthIdentity) (env : GrantEnv) (handle : string) (admin : bool)
    (call : GrantCall) : result (option NamespaceGrant) :=
  let who := Some identity in
  match call with
  | CallCreate req =>
      Some <$> (if admin then create_admin_namespace_grant auth who env handle req
                else create_account_namespace_grant auth who env handle req)
  | CallUpdate id req =>
      Some <$> (if admin then update_admin_namespace_grant auth who env handle id req
                else update_account_namespace_grant auth who env handle id req)
  | CallDelete id reason =>
      _ ← (if admin then delete_admin_namespace_grant auth who env handle id reason
           else delete_account_namespace_grant auth who env handle id);
      Ok None
  end.

(** What entitles the caller. *)
Definition entitled auth (identity : AuthIdentity) (env : GrantEnv) (handle : string) (admin : bool) : Prop :=
  if admin then ∀ config, auth = Some config → check_admin_access config identity (ge_admin env) = Ok ()
  else ∃ ns, sm_namespaces (ge_owner env) !! handle = Some ns ∧ ns_owner ns = OwnerUser (id_subject identity).

(** The same surroundings with another fate of the write. *)
Definition with_commit (c : Commit) (env : GrantEnv) : GrantEnv :=
  MkGrantEnv (ge_owner env) (ge_admin env) (ge_exists env) (ge_grants env) (ge_uuid env) (ge_audit env)
    (ge_now env) c.

(** What a namespace write that was answered with success did. *)
Lemma write_namespace_at t d req resp :
  write_namespace (CommitAt t d) req = Ok resp →
  apply_namespace d req = ((apply_request t d (ReqNamespace req)).1, Ok resp).
Proof.
  unfold write_namespace, write. intros (r & H & Hr)%result_bind_Ok. simpl in *. unfold respond in *.
  destruct (apply_namespace d req) as [d' r'] eqn:Ea.
  destruct r' as [x|e|]; simpl in *; [|by destruct e|done]. by simplify_eq.
Qed.

Lemma namespace_maps_set m d : namespace_maps (set_namespace_maps m d) = m.
Proof. by destruct m. Qed.

(** The change from [d] to [d']: one grant is touched and one event, with the given id,
    actor and reason, is added to the audit of its namespace. *)
Record one_grant_changed d d' (handle id : string) (after : option NamespaceGrant) (actor : Subject)
    (reason audit_id : string) : Prop := {
  oc_grant : grant_at d' handle id = after;
  oc_other_grants h i : (h, i) ≠ (handle, id) → grant_at d' h i = grant_at d h i;
  oc_event : ∃ ev, audit_of d' handle = audit_of d handle ++ [ev] ∧ au_id ev = audit_id ∧
    au_grant_id ev = Some id ∧ au_before ev = grant_at d handle id ∧ au_after ev = after ∧
    au_actor ev = actor ∧ au_reason ev = reason;
  oc_other_events h : h ≠ handle → audit_of d' h = audit_of d h;
  oc_namespaces : sm_namespaces d' = sm_namespaces d ∧ sm_released_handles d' = sm_released_handles d ∧
    sm_observed_identities d' = sm_observed_identities d;
  oc_rest : d' = set_namespace_maps (namespace_maps d') d;
}.

Lemma set_namespace_maps_rest m d : set_namespace_maps m d = set_namespace_maps (namespace_maps (set_namespace_maps m d)) d.
Proof. by rewrite namespace_maps_set. Qed.
Lemma core_put_grant_observed m g label reason aid :
  nm_observed_identities (core_put_grant m g label reason aid).1 = nm_observed_identities m.
Proof. unfold core_put_grant. by destruct (validate_namespace_grant _ _). Qed.
Lemma core_delete_grant_observed m h id actor label reason now aid :
  nm_observed_identities (core_delete_grant m h id actor label reason now aid).1 = nm_observed_identities m.
Proof. unfold core_delete_grant. destruct (validate_handle h); simpl; [|done..]. by repeat case_match. Qed.
Lemma audit_inserted m m' h ev h' : nm_namespace_grant_audit m' = <[h := nm_audit_of m h ++ [ev]]> (nm_namespace_grant_audit m) →
  nm_audit_of m' h' = if decide (h' = h) then nm_audit_of m h ++ [ev] else nm_audit_of m h'.
Proof.
  intros Ea. unfold nm_audit_of at 1. rewrite Ea.
  case_decide; [subst; by rewrite lookup_insert_eq|by rewrite lookup_insert_ne].
Qed.
Lemma put_grant_changes d g label reason aid d' resp :
  apply_namespace d (PutGrant g label reason aid) = (d', Ok resp) →
  ∃ saved, resp = NamespaceGrantResp saved ∧ ng_grantee saved = ng_grantee g ∧ ng_action saved = ng_action g ∧
    ng_id saved = ng_id g ∧
    one_grant_changed d d' (ng_namespace g) (ng_id g) (Some saved) (ng_updated_by g) reason aid.
Proof.
  unfold apply_namespace. destruct (apply_namespace_core _ _ _) as [m r] eqn:E. simpl in E.
  intros [= <- ->]. pose proof (core_put_grant_observed (namespace_maps d) g label reason aid) as Ho. rewrite E in Ho.
  apply core_put_grant_Ok in E as (_ & _ & -> & E1 & E2 & E3 & ev & Ea & Hb & Haf & Hid & Hact & Hre & Hau).
  set (g' := merged_grant _ g) in *. exists g'. split; [done|].
  destruct (merged_grant_frame (nm_grant_at (namespace_maps d) (ng_namespace g) (ng_id g)) g) as (F1 & _ & F3 & F4).
  repeat (split; [done|]).
  assert (∀ h i, nm_grant_at m h i = if decide (h = ng_namespace g ∧ i = ng_id g) then Some g'
    else nm_grant_at (namespace_maps d) h i) as Hat.
  { intros h i. unfold nm_grant_at. rewrite E3. apply lookup_insert_nested. }
  split; unfold grant_at, audit_of; rewrite ?namespace_maps_set.
  - by rewrite Hat, decide_True.
  - intros h i Hne. rewrite Hat, decide_False; [done|]. by intros [-> ->].
  - exists ev. rewrite (audit_inserted _ _ _ _ _ Ea), decide_True by done. split_and!; try done.
    rewrite Hact. unfold g'. by destruct (nm_grant_at _ _ _).
  - intros h Hh. by rewrite (audit_inserted _ _ _ _ _ Ea), decide_False.
  - by split_and!.
  - apply set_namespace_maps_rest.
Qed.

Lemma delete_grant_changes d handle id actor label reason now aid d' :
  apply_namespace d (DeleteGrant handle id actor label reason now aid) = (d', Ok (NamespaceBool true)) →
  is_Some (grant_at d handle id) ∧ one_grant_changed d d' handle id None actor reason aid.
Proof.
  unfold apply_namespace. destruct (apply_namespace_core _ _ _) as [m r] eqn:E. simpl in E.
  intros [= <- ->]. pose proof (core_delete_grant_observed (namespace_maps d) handle id actor label reason now aid) as Ho.
  rewrite E in Ho. apply core_delete_grant_Ok in E as (_ & Hr & E1 & E2 & E3 & Hev).
  change (nm_grant_at (namespace_maps d) handle id) with (grant_at d handle id) in *.
  destruct (grant_at d handle id) as [g|] eqn:Eg; [|done]. split; [done|].
  destruct Hev as (ev & Hb & Haf & Hid & Ea & Hact & Hre & Hau).
  assert (∀ h i, nm_grant_at m h i = if decide (h = handle ∧ i = id) then None
    else nm_grant_at (namespace_maps d) h i) as Hat.
  { intros h i. rewrite <-without_grant_at. unfold nm_grant_at. by rewrite E3. }
  split; unfold grant_at, audit_of in *; rewrite ?namespace_maps_set.
  - by rewrite Hat, decide_True.
  - intros h i Hne. rewrite Hat, decide_False; [done|]. by intros [-> ->].
  - exists ev. rewrite (audit_inserted _ _ _ _ _ Ea), decide_True by done. split_and!; try done. by rewrite Hb, Eg.
  - intros h Hh. by rewrite (audit_inserted _ _ _ _ _ Ea), decide_False.
  - by split_and!.
  - apply set_namespace_maps_rest.
Qed.

Lemma public_safe_action_Ok grantee action a :
  public_safe_action grantee action = Ok a → a = action ∧ grantee ≠ GranteePublic ∧ action ≠ Admin.
Proof. unfold public_safe_action. destruct action, grantee; simpl; try done; intros [= <-]; done. Qed.

(** The one request a change sends, and what it does where it is committed. *)
Definition change_made {A} (h : Commit → result A) (t : N) d (handle id : string) (after : option NamespaceGrant)
    (actor : Subject) (reason audit_id : string) : Prop :=
  ∃ req, passes h req ∧
    one_grant_changed d (apply_request t d req).1 handle id after actor reason audit_id.

Lemma put_grant_passes {A} g label reason aid (k : NamespaceGrant → result A) :
  passes (λ c, saved ← put_namespace_grant c g label reason aid; k saved) (ReqNamespace (PutGrant g label reason aid)).
Proof. apply passes_bind, passes_bind, passes_bind, passes_write. Qed.
Lemma delete_grant_passes {A} handle id actor label reason now aid (k : bool → result A) :
  passes (λ c, b ← delete_namespace_grant c handle id actor label reason now aid; k b)
    (ReqNamespace (DeleteGrant handle id actor label reason now aid)).
Proof. apply passes_bind, passes_bind, passes_bind, passes_write. Qed.

Lemma put_response_changes env identity handle req admin t d saved :
  ge_commit env = CommitAt t d → put_namespace_grant_response env identity handle req admin = Ok saved →
  ∃ reason, normalized_reason (pg_reason req) admin = Ok reason ∧ ng_action saved = pg_action req ∧
    into_grantee (pg_grantee req) = Ok (ng_grantee saved) ∧ ng_grantee saved ≠ GranteePublic ∧
    ng_action saved ≠ Admin ∧
    change_made (λ c, put_namespace_grant_response (with_commit c env) identity handle req admin) t d
      handle (ng_id saved) (Some saved) (id_subject identity) reason (ge_audit env).
Proof.
  intros Hc. unfold put_namespace_grant_response, change_made. cbn [with_commit ge_exists ge_grants ge_uuid ge_now ge_commit ge_audit].
  destruct (ensure_namespace_exists (ge_exists env) handle) as [ns| |]; cbn [mbind result_bind]; [|done..].
  destruct (normalized_reason (pg_reason req) admin) as [reason| |]; cbn [mbind result_bind]; [|done..].
  destruct (into_grantee (pg_grantee req)) as [grantee| |]; cbn [mbind result_bind]; [|done..].
  destruct (matching_grant (ge_grants env) handle grantee) as [ex| |]; cbn [mbind result_bind]; [|done..].
  destruct (public_safe_action grantee (pg_action req)) as [action| |] eqn:Ep; cbn [mbind result_bind]; [|done..].
  apply public_safe_action_Ok in Ep as (-> & Hpub & Hadm). simpl. set (g := MkNamespaceGrant _ _ _ _ _ _ _ _ _).
  intros (s & (resp & Hw & Hs)%result_bind_Ok & [= <-])%result_bind_Ok. rewrite Hc in Hw.
  apply write_namespace_at, put_grant_changes in Hw as (saved & -> & E1 & E2 & E3 & Hch). injection Hs as <-.
  unfold namespace_grant_response. exists reason. rewrite E1, E2, E3. split_and!; try done.
  eexists. split; [apply put_grant_passes|done].
Qed.

Lemma patch_response_changes env identity handle id req admin t d saved :
  ge_commit env = CommitAt t d → patch_namespace_grant_response env identity handle id req admin = Ok saved →
  ∃ reason g, normalized_reason (pt_reason req) admin = Ok reason ∧
    grant_at (ge_grants env) handle id = Some g ∧
    ng_action saved = pt_action req ∧ ng_grantee saved = ng_grantee g ∧ ng_grantee saved ≠ GranteePublic ∧
    ng_action saved ≠ Admin ∧
    change_made (λ c, patch_namespace_grant_response (with_commit c env) identity handle id req admin) t d
      (ng_namespace g) (ng_id g) (Some saved) (id_subject identity) reason (ge_audit env).
Proof.
  intros Hc. unfold patch_namespace_grant_response, change_made. cbn [with_commit ge_exists ge_grants ge_uuid ge_now ge_commit ge_audit].
  destruct (ensure_namespace_exists (ge_exists env) handle) as [ns| |]; cbn [mbind result_bind]; [|done..].
  destruct (normalized_reason (pt_reason req) admin) as [reason| |]; cbn [mbind result_bind]; [|done..].
  destruct (grant_at (ge_grants env) handle id) as [g0|]; [|done..]. simpl.
  destruct (public_safe_action (ng_grantee g0) (pt_action req)) as [action| |] eqn:Ep; cbn [mbind result_bind]; [|done..].
  apply public_safe_action_Ok in Ep as (-> & Hpub & Hadm). simpl. set (g := MkNamespaceGrant _ _ _ _ _ _ _ _ _).
  intros (s & (resp & Hw & Hs)%result_bind_Ok & [= <-])%result_bind_Ok. rewrite Hc in Hw.
  apply write_namespace_at, put_grant_changes in Hw as (saved & -> & E1 & E2 & E3 & Hch). injection Hs as <-.
  unfold namespace_grant_response. exists reason, g0. rewrite E1, E2. split_and!; try done.
  eexists. split; [apply put_grant_passes|done].
Qed.

Lemma delete_response_changes env identity handle id reason admin t d :
  ge_commit env = CommitAt t d → delete_namespace_grant_response env identity handle id reason admin = Ok () →
  ∃ why, normalized_reason reason admin = Ok why ∧
    change_made (λ c, delete_namespace_grant_response (with_commit c env) identity handle id reason admin) t d
      handle id None (id_subject identity) why (ge_audit env).
Proof.
  intros Hc. unfold delete_namespace_grant_response, change_made. cbn [with_commit ge_exists ge_grants ge_uuid ge_now ge_commit ge_audit].
  destruct (ensure_namespace_exists (ge_exists env) handle) as [ns| |]; cbn [mbind result_bind]; [|done..].
  destruct (normalized_reason reason admin) as [why| |]; cbn [mbind result_bind]; [|done..]. simpl.
  intros (deleted & (resp & Hw & Hs)%result_bind_Ok & Hdel)%result_bind_Ok. destruct deleted; [|done].
  destruct resp; try done. injection Hs as ->. rewrite Hc in Hw.
  apply write_namespace_at, delete_grant_changes in Hw as [_ Hch]. exists why. split; [done|].
  eexists. split; [apply delete_grant_passes|done].
Qed.

(** The owner's and the administrator's way to a change. *)
Lemma owner_route {A} auth identity env handle (k : AuthIdentity → Commit → result A) c r :
  let route c := identity ← require_auth auth (Some identity);
                 _ ← require_namespace_owner (ge_owner env) identity handle; k identity c in
  route c = Ok r → entitled auth identity env handle false ∧ ∀ c, route c = k identity c.
Proof.
  cbn zeta. destruct auth as [config|]; [|done]. simpl.
  destruct (require_namespace_owner (ge_owner env) identity handle) as [[]| |] eqn:Ho; [|done..]. intros _. split; [|done].
  unfold require_namespace_owner in Ho. apply result_bind_Ok in Ho as (ns & Hns%ok_or_Ok & Ho).
  case_bool_decide; [|done]. by exists ns.
Qed.
Lemma admin_route {A} auth identity env handle (k : AuthIdentity → Commit → result A) c r :
  let route c := identity ← require_auth auth (Some identity);
                 _ ← require_admin auth identity (ge_admin env); k identity c in
  route c = Ok r → entitled auth identity env handle true ∧ ∀ c, route c = k identity c.
Proof.
  cbn zeta. destruct auth as [config|]; [|done]. simpl.
  destruct (check_admin_access config identity (ge_admin env)) as [[]| |] eqn:Ho; [|done..]. intros _.
  split; [|done]. by intros c' [= <-].
Qed.

(** A change, once its caller has been found entitled to it. *)
Definition change_response (env : GrantEnv) (caller : AuthIdentity) (handle : string) (admin : bool) (call : GrantCall)
    : result (option NamespaceGrant) :=
  match call with
  | CallCreate req => Some <$> put_namespace_grant_response env caller handle req admin
  | CallUpdate i req => Some <$> patch_namespace_grant_response env caller handle i req admin
  | CallDelete i re => _ ← delete_namespace_grant_response env caller handle i (if admin then re else None) admin; Ok None
  end.
Lemma with_own_commit env : with_commit (ge_commit env) env = env.
Proof. by destruct env. Qed.
Lemma grant_call_entitled auth caller env handle admin call r :
  grant_call auth caller env handle admin call = Ok r →
  entitled auth caller env handle admin ∧
  ∀ c, grant_call auth caller (with_commit c env) handle admin call
         = change_response (with_commit c env) caller handle admin call.
Proof.
  rewrite <-(with_own_commit env) at 1. destruct call as [req|i req|i re], admin; simpl; intros Hok.
  1-4: apply result_fmap_Ok in Hok as (g & Hok & _).
  5,6: apply result_bind_Ok in Hok as ([] & Hok & _).
  - apply (admin_route auth caller env handle (λ who c, put_namespace_grant_response (with_commit c env) who handle req true)) in Hok as [? E].
    split; [done|]. intros c. f_equal. apply E.
  - apply (owner_route auth caller env handle (λ who c, put_namespace_grant_response (with_commit c env) who handle req false)) in Hok as [? E].
    split; [done|]. intros c. f_equal. apply E.
  - apply (admin_route auth caller env handle (λ who c, patch_namespace_grant_response (with_commit c env) who handle i req true)) in Hok as [? E].
    split; [done|]. intros c. f_equal. apply E.
  - apply (owner_route auth caller env handle (λ who c, patch_namespace_grant_response (with_commit c env) who handle i req false)) in Hok as [? E].
    split; [done|]. intros c. f_equal. apply E.
  - apply (admin_route auth caller env handle (λ who c, delete_namespace_grant_response (with_commit c env) who handle i re true)) in Hok as [? E].
    split; [done|]. intros c. by rewrite <-E.
  - apply (owner_route auth caller env handle (λ who c, delete_namespace_grant_response (with_commit c env) who handle i None false)) in Hok as [? E].
    split; [done|]. intros c. by rewrite <-E.
Qed.

(** A stored grant is filed under its own namespace and id. *)
Definition grants_filed d : Prop :=
  ∀ h id g, grant_at d h id = Some g → ng_namespace g = h ∧ ng_id g = id.

(** C12: a change of grants that succeeds was made by the namespace's owner, as the
    node that served the request knows it, or by an administrator. Of all requests it
    sends exactly one, and the state in which that request was committed becomes one
    that differs only in the grant the change names, which has the requested action and
    grantee, never the administrator's action or the public, and in one more event in
    the namespace's audit, with the caller, the reason given (or "owner change"), and
    the grant before and after. [grants_filed] holds in every reachable state. *)
Theorem grant_routes_audited auth caller env handle admin call t d r
    (Hfiled : grants_filed (ge_grants env)) (Hcommit : ge_commit env = CommitAt t d)
    (Hok : grant_call auth caller env handle admin call = Ok r) :
  entitled auth caller env handle admin ∧
  ∃ req id reason, sends (λ c, grant_call auth caller (with_commit c env) handle admin call) req ∧
    one_grant_changed d (apply_request t d req).1 handle id r (id_subject caller) reason (ge_audit env) ∧
    normalized_reason match call with
                      | CallCreate q => pg_reason q
                      | CallUpdate _ q => pt_reason q
                      | CallDelete _ why => if admin then why else None
                      end admin = Ok reason ∧
    match call with
    | CallCreate q => ∃ g, r = Some g ∧ ng_id g = id ∧ ng_action g = pg_action q ∧
        into_grantee (pg_grantee q) = Ok (ng_grantee g) ∧ ng_grantee g ≠ GranteePublic ∧ ng_action g ≠ Admin
    | CallUpdate i q => i = id ∧ ∃ g old, r = Some g ∧ grant_at (ge_grants env) handle id = Some old ∧
        ng_action g = pt_action q ∧ ng_grantee g = ng_grantee old ∧ ng_grantee g ≠ GranteePublic ∧ ng_action g ≠ Admin
    | CallDelete i _ => i = id ∧ r = None
    end.
Proof.
  pose proof (grant_call_entitled _ _ _ _ _ _ _ Hok) as [Hent E]. split; [done|].
  rewrite <-(with_own_commit env), E, with_own_commit in Hok.
  assert (∀ req, passes (λ c, change_response (with_commit c env) caller handle admin call) req →
    sends (λ c, grant_call auth caller (with_commit c env) handle admin call) req) as Hs.
  { intros req Hp. apply passes_sends. eapply passes_ext; [|exact Hp]. exact E. }
  destruct call as [q|i q|i why]; simpl in Hok.
  - apply result_fmap_Ok in Hok as (g & Hok & ->).
    apply (put_response_changes _ _ _ _ _ t d) in Hok as (reason & Hr & Ha & Hg & Hp & Hn & req & Hpass & Hch); [|done].
    exists req, (ng_id g), reason. split_and!; try done; [by apply Hs, passes_fmap|by exists g].
  - apply result_fmap_Ok in Hok as (g & Hok & ->).
    apply (patch_response_changes _ _ _ _ _ _ t d) in Hok as (reason & g0 & Hr & Hg0 & Ha & Hg & Hp & Hn & req & Hpass & Hch); [|done].
    destruct (Hfiled _ _ _ Hg0) as [E1 E2]. rewrite E1, E2 in Hch.
    exists req, i, reason. split_and!; try done; [by apply Hs, passes_fmap|by exists g, g0].
  - apply result_bind_Ok in Hok as ([] & Hok & [= <-]).
    apply (delete_response_changes _ _ _ _ _ _ t d) in Hok as (reason & Hr & req & Hpass & Hch); [|done].
    exists req, i, reason. split_and!; try done. by apply Hs, passes_bind.
Qed.
End changes.

(** * Grants in use *)

Definition env_at (d : StateMachineData) (now : N) (c : Commit) : GrantEnv :=
  MkGrantEnv d (at_once d) d d "g1" "audit-1" now c.
Definition grant_bob (action : OciAction) : PutNamespaceGrantRequest :=
  MkPutNamespaceGrantRequest (RequestUser bob) action None None.

Lemma grant_routes_audited_witness :
  ∃ g req, grant_call (Some []) alice_session (env_at claimed 7 (CommitAt 0 claimed)) "acme" false
         (CallCreate (grant_bob Update)) = Ok (Some g) ∧ ng_action g = Update ∧
    one_grant_changed claimed (apply_request 0 claimed req).1 "acme" (ng_id g) (Some g) "sub-1" "owner change" "audit-1".
Proof.
  destruct (grant_call (Some []) alice_session (env_at claimed 7 (CommitAt 0 claimed)) "acme" false
    (CallCreate (grant_bob Update))) as [r| |] eqn:E; [|vm_compute in E; discriminate E..].
  destruct (grant_routes_audited (Some []) alice_session (env_at claimed 7 (CommitAt 0 claimed)) "acme" false
    (CallCreate (grant_bob Update)) 0 claimed r) as (_ & req & id & reason & _ & Hch & [= <-] & g & -> & <- & Ha & _).
  - assert (sm_namespace_grants claimed = ∅) as Hg by (vm_compute; reflexivity).
    intros h i g Hgr. unfold grant_at, nm_grant_at in Hgr. simpl in Hgr. by rewrite Hg, lookup_empty in Hgr.
  - reflexivity.
  - exact E.
  - exists g, req. split; [reflexivity|]. split; [exact Ha|exact Hch].
Defined.

(** A grant does not say which generation of the namespace its author owned, and
    the owner is checked against the state of the node that serves the request: the
    former owner of a handle that was released and given to somebody else can still
    make a grant on it through a node that has not caught up, and so take
    everything in the new owner's namespace. *)
Definition bobs : StateMachineData := reclaimed.
Definition stale_grant : PutNamespaceGrantRequest :=
  MkPutNamespaceGrantRequest (RequestUser "keycloak:user:sub-1") Delete None None.
Definition after_stale_grant : StateMachineData :=
  (apply_request 0 bobs (ReqNamespace (PutGrant
    (MkNamespaceGrant "g1" "acme" (GranteeUser "keycloak:user:sub-1") Delete "keycloak:user:sub-1"
       "sub-1" 400 "sub-1" 400) "alice" "owner change" "audit-1"))).1.
Theorem former_owner_grants :
  (ns_owner <$> sm_namespaces bobs !! "acme") = Some (OwnerUser "sub-2") ∧
  is_ok (check_permission [] alice_session "acme/app" Delete (at_once bobs)) = false ∧
  create_account_namespace_grant (Some []) (Some alice_session) (env_at claimed 400 (CommitAt 0 bobs)) "acme"
    stale_grant = Ok (MkNamespaceGrant "g1" "acme" (GranteeUser "keycloak:user:sub-1") Delete
                        "keycloak:user:sub-1" "sub-1" 400 "sub-1" 400) ∧
  is_ok (check_permission [] alice_session "acme/app" Delete (at_once after_stale_grant)) = true.
Proof. split_and!; vm_compute; reflexivity. Qed.

(** A claim is read back from the node's own state, which a write that was forwarded
    to the leader need not have reached: the claim is made and the request panics. *)
Theorem claim_read_back_panics :
  let before := StateMachineData_default in
  claim_namespace_handler (Some []) (Some alice_session) (at_once before) 100 (CommitAt 0 before) before "acme"
    (MkClaimNamespaceRequest None false) = Panic ∧
  (ns_owner <$> sm_namespaces (apply_request 0 before (ReqNamespace
     (Claim "acme" (OwnerUser "sub-1") "alice" "sub-1" false 100))).1 !! "acme") = Some (OwnerUser "sub-1").
Proof. split; vm_compute; reflexivity. Qed.

(** Scopes bind only registry requests: a token that may do nothing but pull from one
    repository is let through to the namespace routes, where it hands out the
    deletion of everything in its owner's namespace, although the token
    documentation says that the scopes define what the token can do. *)
Definition alice_pat : PersonalAccessToken :=
  MkPersonalAccessToken "pat-9" "sub-1" (Some "alice") "ro" (token_hash "layerhouse-ro") "layerhouse-r"
    ["repository:acme/app:pull"] [MkNamespaceEpoch "acme" 1] 100 None None.
Definition with_alice_pat : StateMachineData :=
  (apply_request 0 claimed (ReqToken (PutPersonalAccessToken alice_pat))).1.
Definition pat_authentication (d : StateMachineData) : Authentication := {|
  Middleware.validate_token := Tokens.validate_token (λ _, false) token_config (MkKeyCache [] []) d 1000;
  decrypt_session _ := None;
|}.
Definition post_grant : HttpRequest :=
  let r := get "/api/v1/account/namespaces/acme/grants" (Some "Bearer layerhouse-ro") in
  MkHttpRequest POST (rq_path r) (rq_query r) (rq_host r) (rq_authorization r) (rq_cookies r).
Theorem pull_token_hands_out_delete :
  ∃ identity, auth_middleware (AU := pat_authentication with_alice_pat) (Some sample_auth) 1000
      (all_reads with_alice_pat) post_grant = Forward (Some identity) None ∧
    id_scopes identity = ["repository:acme/app:pull"] ∧
    is_ok (check_permission [] identity "acme/app" Update (at_once with_alice_pat)) = false ∧
    is_ok (check_permission [] bob_session "acme/app" Delete (at_once with_alice_pat)) = false ∧
    is_ok (create_account_namespace_grant (Some []) (Some identity)
      (env_at with_alice_pat 1000 (CommitAt 0 with_alice_pat)) "acme" (grant_bob Delete)) = true.
Proof. eexists. split; [vm_compute; reflexivity|]. split_and!; vm_compute; reflexivity. Qed.
