(* ===== verification/Membership.v ===== *)
(** Cluster membership (crates/layerhouse-server/src/raft/membership/mod.rs and
    types.rs): the handlers by which nodes join and leave a Raft cluster, the loop of
    a node that joins, and the check a restored node makes before it trusts its own
    membership.

    The Raft library and the HTTP client are what the handlers ask: each read of the
    metrics and each answer of the library or of a peer is an argument, and the calls
    made on the library are part of the result. Sleeping takes no step of the model
    but is recorded where the code chooses the delay. *)

From Stdlib Require Import Ascii.
From stdpp Require Import options.
From S2P Require Import Prelude Errors.

(** * Types *)

Inductive NodeState := Leader | Follower | Candidate | Learner.
#[global] Instance NodeState_eq_dec : EqDecision NodeState.
Proof. solve_decision. Defined.
(** [openraft::ServerState], which has one state the status does not. *)
Inductive ServerState := SLeader | SFollower | SCandidate | SLearner | SShutdown.

Inductive JoinResult := JoinOk | JoinNotLeader | AlreadyMember.
Inductive LeaveResult := LeaveOk | LeaveNotLeader | LastVoter | NotMember.
#[global] Instance JoinResult_eq_dec : EqDecision JoinResult.
Proof. solve_decision. Defined.
#[global] Instance LeaveResult_eq_dec : EqDecision LeaveResult.
Proof. solve_decision. Defined.

Record JoinRequest := MkJoinRequest { jr_node_id : N; jr_addr : string }.
Record JoinResponse := MkJoinResponse { jp_result : JoinResult; jp_leader_addr : option string }.
Record LeaveResponse := MkLeaveResponse { lp_result : LeaveResult; lp_leader_addr : option string }.
Record NodeInfo := MkNodeInfo { ni_id : N; ni_addr : string }.
Record ClusterStatus := MkClusterStatus {
  cs_node_id : N;
  cs_state : NodeState;
  cs_leader_id : option N;
  cs_leader_addr : option string;
  cs_voters : list NodeInfo;
  cs_learners : list NodeInfo;
  cs_term : N;
  cs_last_log_index : option N;
  cs_last_applied_log : option N;
  cs_last_membership_log_id : option N;
  cs_millis_since_quorum_ack : option N;
  cs_replication : list (N * option N);
}.

(** What the code reads of openraft's metrics: the nodes of the membership in the
    order of their ids, the ids of the voters and the index of its log entry. *)
Record RaftMetrics := MkRaftMetrics {
  rm_id : N;
  rm_state : ServerState;
  rm_current_leader : option N;
  rm_nodes : list NodeInfo;
  rm_voter_ids : gset N;
  rm_membership_log : option N;
  rm_term : N;
  rm_last_log_index : option N;
  rm_last_applied : option N;
  rm_millis_since_quorum_ack : option N;
  rm_replication : option (list (N * option N));
}.

(** * Status *)

Definition node_state (s : ServerState) : NodeState :=
  match s with
  | SLeader => Leader | SFollower => Follower | SCandidate => Candidate | SLearner => Learner
  | SShutdown => Follower
  end.
Definition node_addr (nodes : list NodeInfo) (id : N) : option string :=
  ni_addr <$> head (filter (λ n, ni_id n = id) nodes).
Definition leader_addr (m : RaftMetrics) : option string :=
  lid ← rm_current_leader m; node_addr (rm_nodes m) lid.

Definition build_cluster_status (m : RaftMetrics) : ClusterStatus :=
  MkClusterStatus (rm_id m) (node_state (rm_state m)) (rm_current_leader m) (leader_addr m)
    (filter (λ n, ni_id n ∈ rm_voter_ids m) (rm_nodes m))
    (filter (λ n, ni_id n ∉ rm_voter_ids m) (rm_nodes m))
    (rm_term m) (rm_last_log_index m) (rm_last_applied m) (rm_membership_log m)
    (rm_millis_since_quorum_ack m) (default [] (rm_replication m)).

(** * Stale configuration changes *)

(** The digits at the start of a text, and what follows them. *)
Fixpoint span_digits (s : string) : string * string :=
  match s with
  | EmptyString => ("", "")
  | String a s' =>
      if Str.is_ascii_digit a then let '(x, y) := span_digits s' in (String a x, y) else ("", s)
  end.
(** [str::find]: what follows the first occurrence of a text. *)
Fixpoint after_first (p s : string) : option string :=
  match Str.strip_prefix p s with
  | Some r => Some r
  | None => match s with EmptyString => None | String _ s' => after_first p s' end
  end.
(** The loop over the terms, with fuel the length of the text. *)
Fixpoint terms_in (fuel : nat) (rest : string) : list N :=
  match fuel with
  | 0 => []
  | S fuel' =>
      match after_first "term: " rest with
      | None => []
      | Some after =>
          let '(digits, rest') := span_digits after in
          match rest' with
          | EmptyString => option_list (Str.parse_u64 digits)
          | _ => option_list (Str.parse_u64 digits) ++ terms_in fuel' rest'
          end
      end
  end.
Definition is_stale_config_change (error_msg : string) : bool :=
  if negb (Str.contains "already undergoing a configuration change" error_msg) then false
  else match terms_in (S (String.length error_msg)) error_msg with
       | pending_term :: committed_term :: _ => (pending_term <? committed_term)%N
       | _ => false
       end.

(** * Joining and leaving: the leader's side *)

Inductive ChangeMembers := AddVoterIds (ids : gset N) | ReplaceAllVoters (ids : gset N).
Inductive RaftCall :=
  | AddLearner (id : N) (addr : string)
  | ChangeMembership (change : ChangeMembers)
  | Initialize (id : N) (addr : string).
(** How a change of the membership ends: done, failed, or not within 35 seconds. *)
Inductive ChangeAnswer := Changed | ChangeFailed (text : string) | ChangeTimedOut.

Inductive MemberResponse :=
  | JoinReply (status : N) (r : JoinResponse)
  | LeaveReply (status : N) (r : LeaveResponse)
  | TextReply (status : N) (text : string).

(** [Option<u64>] comparison: [None] is below every index. *)
Definition index_gt (a b : option N) : bool :=
  match a, b with
  | Some x, Some y => (y <? x)%N
  | Some _, None => true
  | None, _ => false
  end.
Definition MEMBERSHIP_POLLS : nat := 150.
(** The [polls] are the readings of the metrics, 200 ms apart. *)
Definition wait_for_committed_membership_log_advance (polls : nat → RaftMetrics) (previous_index : option N) : bool :=
  existsb (λ i, index_gt (rm_membership_log (polls i)) previous_index) (seq 0 MEMBERSHIP_POLLS).

Definition precheck_join (m : RaftMetrics) (node_id : N) : option MemberResponse :=
  if negb (bool_decide (rm_current_leader m = Some (rm_id m))) then
    Some (JoinReply 307 (MkJoinResponse JoinNotLeader (leader_addr m)))
  else if bool_decide (node_id ∈ rm_voter_ids m) then Some (JoinReply 200 (MkJoinResponse AlreadyMember None))
  else None.

Definition precheck_leave (m : RaftMetrics) (node_id : N) : option MemberResponse :=
  if negb (bool_decide (rm_current_leader m = Some (rm_id m))) then
    Some (LeaveReply 307 (MkLeaveResponse LeaveNotLeader (leader_addr m)))
  else if negb (bool_decide (node_id ∈ rm_voter_ids m)) then Some (LeaveReply 200 (MkLeaveResponse NotMember None))
  else if bool_decide (size (rm_voter_ids m) ≤ 1) then Some (LeaveReply 200 (MkLeaveResponse LastVoter None))
  else None.

(** What a handler is told, in the order it asks: the metrics before the lock is
    taken, under it, when the voters are collected and when the index of the
    membership is noted; the metrics while the handler waits. *)
Record ChangeEnv := MkChangeEnv {
  ce_before : RaftMetrics;
  ce_locked : RaftMetrics;
  ce_index : RaftMetrics;
  ce_voters : RaftMetrics;
  ce_polls : nat → RaftMetrics;
}.

Definition commit_timeout : MemberResponse := TextReply 503 "timed out waiting for membership change to commit".
Definition committed_index (env : ChangeEnv) : option N := rm_membership_log (ce_index env).

(** [learner] and [change] are the errors of the two calls, if they fail. *)
Definition handle_join (env : ChangeEnv) (learner change : option string) (req : JoinRequest)
    : list RaftCall * MemberResponse :=
  let id := jr_node_id req in
  match precheck_join (ce_before env) id with
  | Some response => ([], response)
  | None =>
      match precheck_join (ce_locked env) id with
      | Some response => ([], response)
      | None =>
          let add := AddLearner id (jr_addr req) in
          match learner with
          | Some e => ([add], TextReply 500 e)
          | None =>
              let calls := [add; ChangeMembership (AddVoterIds {[ id ]})] in
              match change with
              | Some e =>
                  if is_stale_config_change e then (calls, JoinReply 409 (MkJoinResponse JoinNotLeader None))
                  else (calls, TextReply 500 e)
              | None =>
                  if wait_for_committed_membership_log_advance (ce_polls env) (committed_index env)
                  then (calls, JoinReply 200 (MkJoinResponse JoinOk None)) else (calls, commit_timeout)
              end
          end
      end
  end.

Definition remaining_voters (m : RaftMetrics) (node_id : N) : gset N := rm_voter_ids m ∖ {[ node_id ]}.

Definition handle_leave (env : ChangeEnv) (change : ChangeAnswer) (node_id : N) : list RaftCall * MemberResponse :=
  match precheck_leave (ce_before env) node_id with
  | Some response => ([], response)
  | None =>
      match precheck_leave (ce_locked env) node_id with
      | Some response => ([], response)
      | None =>
          let calls := [ChangeMembership (ReplaceAllVoters (remaining_voters (ce_voters env) node_id))] in
          match change with
          | ChangeFailed e =>
              if is_stale_config_change e then (calls, LeaveReply 409 (MkLeaveResponse LeaveNotLeader None))
              else (calls, TextReply 500 e)
          | ChangeTimedOut => (calls, TextReply 503 "timed out waiting for membership change")
          | Changed =>
              if wait_for_committed_membership_log_advance (ce_polls env) (committed_index env)
              then (calls, LeaveReply 200 (MkLeaveResponse LeaveOk None)) else (calls, commit_timeout)
          end
      end
  end.

Definition replace_voters (env : ChangeEnv) (change : ChangeAnswer) (new_voters : gset N)
    : list RaftCall * (string + ()) :=
  if bool_decide (new_voters = ∅) then ([], inl "replacement voter set must not be empty")
  else if bool_decide (rm_voter_ids (ce_voters env) = new_voters) then ([], inr ())
  else
    let calls := [ChangeMembership (ReplaceAllVoters new_voters)] in
    match change with
    | ChangeFailed e => (calls, inl e)
    | ChangeTimedOut => (calls, inl "timed out waiting for replace-voters membership change")
    | Changed =>
        if wait_for_committed_membership_log_advance (ce_polls env) (committed_index env) then (calls, inr ())
        else (calls, inl "timed out waiting for replace-voters membership change to commit")
    end.

(** * Peers *)

(** [lookup] is the answer of the resolver, [None] if it fails. *)
Definition discover_peer_targets (lookup : option (list string)) (dns_name : string) (port : N)
    (preserve_dns_name : bool) : list string :=
  match lookup with
  | Some addrs =>
      if preserve_dns_name && negb (bool_decide (addrs = [])) then [dns_name +:+ ":" +:+ Str.of_u64 port] else addrs
  | None => []
  end.
Definition discover_peers (lookup : option (list string)) (dns_name : string) (port : N) : list string :=
  discover_peer_targets lookup dns_name port false.

(** The addresses as a sorted set. *)
Definition restored_membership_peer_targets (nodes : list NodeInfo) (self_node_id : N) : list string :=
  btree_keys (list_to_map (M := gmap string ()) ((λ n, (ni_addr n, ())) <$>
    filter (λ n, ni_id n ≠ self_node_id ∧ Str.is_empty (Str.trim (ni_addr n)) = false) nodes)).
Definition select_verification_peer_targets (restored_peers discovered_peers : list string) : list string :=
  match restored_peers with [] => discovered_peers | _ => restored_peers end.
Definition restored_peer_targets_from_raft (m : RaftMetrics) (self_node_id : N) : list string :=
  restored_membership_peer_targets (rm_nodes m) self_node_id.

Fixpoint distinct (seen : gset string) (peers : list string) : list string :=
  match peers with
  | [] => []
  | peer :: peers' =>
      if bool_decide (peer ∈ seen) then distinct seen peers' else peer :: distinct ({[ peer ]} ∪ seen) peers'
  end.
Definition merge_seed_and_discovered_peers (seed_peers discovered_peers : list string) : list string :=
  distinct ∅ (seed_peers ++ discovered_peers).

Definition join_target_for_status (peer : string) (status : ClusterStatus) : option string :=
  if bool_decide (cs_state status = Leader) then Some peer else cs_leader_addr status.

(** [str::parse::<u64>]. *)
Definition ordinal_zero_peer_target (advertise_addr : string) : option string :=
  '(host, port) ← Str.rsplit_once ":" advertise_addr;
  '(pod_name, suffix) ← Str.split_once "." host;
  '(prefix, ordinal) ← Str.rsplit_once "-" pod_name;
  _ ← Str.parse_u64 ordinal;
  Some (prefix +:+ "-0." +:+ suffix +:+ ":" +:+ port).

Definition local_membership_confirms_join (current_leader : option N) (voter_ids : gset N)
    (local_membership_log_id leader_membership_log_id : option N) (leader_has_node : bool) (node_id : N) : bool :=
  bool_decide (is_Some current_leader) && leader_has_node && bool_decide (node_id ∈ voter_ids)
    && (default 0 leader_membership_log_id <=? default 0 local_membership_log_id)%N.

(** The status a peer gives, [None] if it cannot be had, and the node's metrics. *)
Definition lists_voter (s : ClusterStatus) (node_id : N) : bool :=
  existsb (λ v, bool_decide (ni_id v = node_id)) (cs_voters s).
Definition local_join_is_confirmed (leader_status : option ClusterStatus) (m : RaftMetrics) (node_id : N) : bool :=
  match leader_status with
  | None => false
  | Some s =>
      local_membership_confirms_join (rm_current_leader m) (rm_voter_ids m) (rm_membership_log m)
        (cs_last_membership_log_id s) (lists_voter s node_id) node_id
  end.

(** * Joining: the new node's side *)

(** What a node sees in one round of the loop: the resolver's answer; while it tries
    a peer of the round, the peer's status, the answers to the first and to the
    redirected join request, the status of the address that took it in when the join
    is confirmed, and the local metrics then; the local metrics at the end of the
    round, and whether initializing succeeds. *)
Record RoundEnv := MkRoundEnv {
  re_lookup : option (list string);
  re_status : string → option ClusterStatus;
  re_join : string → string → option JoinResponse;
  re_redirected : string → string → option JoinResponse;
  re_confirm_status : string → string → option ClusterStatus;
  re_confirm_metrics : string → RaftMetrics;
  re_metrics : RaftMetrics;
  re_initialize_ok : bool;
}.

Definition joined_at (env : RoundEnv) (node_id : N) (peer target : string) : bool :=
  local_join_is_confirmed (re_confirm_status env peer target) (re_confirm_metrics env peer) node_id.
Definition try_peer (env : RoundEnv) (node_id : N) (peer : string) : bool :=
  match re_status env peer with
  | None => false
  | Some status =>
      if bool_decide (cs_node_id status = node_id) then false
      else match join_target_for_status peer status with
      | None => false
      | Some target =>
          match re_join env peer target with
          | Some (MkJoinResponse JoinOk _) | Some (MkJoinResponse AlreadyMember _) => joined_at env node_id peer target
          | Some (MkJoinResponse JoinNotLeader (Some real_leader)) =>
              match re_redirected env peer real_leader with
              | Some (MkJoinResponse JoinOk _) | Some (MkJoinResponse AlreadyMember _) =>
                  joined_at env node_id peer real_leader
              | _ => false
              end
          | _ => false
          end
      end
  end.

(** How a round ends: a peer took the node in, the node has a leader already, it
    started a cluster of its own, or it tries again. *)
Inductive RoundEnd := Joined (peer : string) | HasLeader | Bootstrapped | Retry.

Record JoinConfig := MkJoinConfig {
  jc_node_id : N;
  jc_advertise_addr : string;
  jc_discovery_dns : string;
  jc_listen_port : N;
  jc_tls : bool;
}.
Definition round_peers (cfg : JoinConfig) (seed_peers : list string) (env : RoundEnv) : list string :=
  merge_seed_and_discovered_peers seed_peers
    (if jc_tls cfg then discover_peer_targets (re_lookup env) (jc_discovery_dns cfg) (jc_listen_port cfg) true
     else discover_peers (re_lookup env) (jc_discovery_dns cfg) (jc_listen_port cfg)).
Definition join_round (cfg : JoinConfig) (seed_peers : list string) (env : RoundEnv) : list RaftCall * RoundEnd :=
  match list_find (λ p, try_peer env (jc_node_id cfg) p = true) (round_peers cfg seed_peers env) with
  | Some (_, peer) => ([], Joined peer)
  | None =>
      if bool_decide (jc_node_id cfg = 1%N) then
        if bool_decide (is_Some (rm_current_leader (re_metrics env))) then ([], HasLeader)
        else ([Initialize (jc_node_id cfg) (jc_advertise_addr cfg)],
              if re_initialize_ok env then Bootstrapped else Retry)
      else ([], Retry)
  end.

Definition INITIAL_DELAY_MS : N := 500.
Definition MAX_DELAY_MS : N := 10000.
(** Up to [fuel] rounds: the waits before each retry, and how it ended, if it did. *)
Fixpoint join_cluster_with_seed_peers (fuel : nat) (cfg : JoinConfig) (seed_peers : list string)
    (envs : nat → RoundEnv) (round : nat) (delay_ms : N) : list N * option RoundEnd :=
  match fuel with
  | 0 => ([], None)
  | S fuel' =>
      match (join_round cfg seed_peers (envs round)).2 with
      | Retry =>
          let '(delays, r) := join_cluster_with_seed_peers fuel' cfg seed_peers envs (S round)
                                ((delay_ms * 2) `min` MAX_DELAY_MS)%N in
          (delay_ms :: delays, r)
      | e => ([], Some e)
      end
  end.
Definition join_cluster (fuel : nat) (cfg : JoinConfig) (envs : nat → RoundEnv) : list N * option RoundEnd :=
  let seed_peers := if bool_decide (jc_node_id cfg = 1%N) then []
                    else option_list (ordinal_zero_peer_target (jc_advertise_addr cfg)) in
  join_cluster_with_seed_peers fuel cfg seed_peers envs 0 INITIAL_DELAY_MS.

(** * After a restore *)

Definition AUTHORITATIVE_LOG_TOLERANCE : N := 10.
(** What the check decides: nobody answered, the membership is confirmed, or the node
    joins again with the given peers. *)
Inductive Verdict := NoPeers (bootstrap : bool) | Confirmed | Rejoin (peers : list string).

Definition max_applied (statuses : list ClusterStatus) : N :=
  foldr N.max 0%N (omap cs_last_applied_log statuses).
Definition authoritative (statuses : list ClusterStatus) : list ClusterStatus :=
  filter (λ s, (max_applied statuses - AUTHORITATIVE_LOG_TOLERANCE ≤ default 0 (cs_last_applied_log s))%N) statuses.

Definition peer_statuses (node_id : N) (status : string → option ClusterStatus) (peers : list string)
    : list ClusterStatus :=
  filter (λ s, cs_node_id s ≠ node_id) (omap status peers).
Definition verdict (node_id : N) (peers : list string) (statuses : list ClusterStatus) : Verdict :=
  match statuses with
  | [] => NoPeers (bool_decide (node_id = 1%N))
  | _ =>
      let auth := authoritative statuses in
      let total_auth := length auth in
      if bool_decide (total_auth = 0) then Rejoin peers
      else
        let in_membership := length (filter (λ s, lists_voter s node_id = true) auth) in
        if bool_decide (total_auth `div` 2 < in_membership) then Confirmed else Rejoin peers
  end.
(** [status] is what a peer answers within two seconds. *)
Definition membership_verdict (cfg : JoinConfig) (m : RaftMetrics) (lookup : option (list string))
    (status : string → option ClusterStatus) : Verdict :=
  let node_id := jc_node_id cfg in
  let restored_peers := restored_peer_targets_from_raft m node_id in
  let discovered_peers :=
    match restored_peers with
    | [] => if jc_tls cfg then discover_peer_targets lookup (jc_discovery_dns cfg) (jc_listen_port cfg) true
            else discover_peers lookup (jc_discovery_dns cfg) (jc_listen_port cfg)
    | _ => []
    end in
  let peers := select_verification_peer_targets restored_peers discovered_peers in
  verdict node_id peers (peer_statuses node_id status peers).

(** How the check ends; a node that joins again runs the loop, of which [fuel] bounds
    the rounds. *)
Inductive VerifyEnd := Trusted | Unreachable | Rebootstrapped (ok : bool) | Rejoined (r : option RoundEnd).
Definition verify_or_rejoin (fuel : nat) (cfg : JoinConfig) (m : RaftMetrics) (lookup : option (list string))
    (status : string → option ClusterStatus) (initialize_ok : bool) (envs : nat → RoundEnv)
    : list RaftCall * VerifyEnd :=
  match membership_verdict cfg m lookup status with
  | NoPeers true => ([Initialize (jc_node_id cfg) (jc_advertise_addr cfg)], Rebootstrapped initialize_ok)
  | NoPeers false => ([], Unreachable)
  | Confirmed => ([], Trusted)
  | Rejoin peers => ([], Rejoined (join_cluster_with_seed_peers fuel cfg peers envs 0 INITIAL_DELAY_MS).2)
  end.

(** * Changes of the membership *)

Lemma precheck_leave_None m id :
  precheck_leave m id = None →
  rm_current_leader m = Some (rm_id m) ∧ id ∈ rm_voter_ids m ∧ 2 ≤ size (rm_voter_ids m).
Proof. unfold precheck_leave. repeat case_bool_decide; simpl; try done. intros _. split_and!; [done..|lia]. Qed.
Lemma precheck_join_None m id :
  precheck_join m id = None → rm_current_leader m = Some (rm_id m) ∧ id ∉ rm_voter_ids m.
Proof. unfold precheck_join. by repeat case_bool_decide. Qed.

Lemma wait_spec polls previous :
  wait_for_committed_membership_log_advance polls previous = true ↔
  ∃ i, i < 150 ∧ index_gt (rm_membership_log (polls i)) previous = true.
Proof.
  unfold wait_for_committed_membership_log_advance. rewrite existsb_exists. split.
  - intros (i & [_ Hi]%in_seq & H). by exists i.
  - intros (i & Hi & H). exists i. split; [apply in_seq; unfold MEMBERSHIP_POLLS; lia|done].
Qed.

Lemma remaining_size m id :
  id ∈ rm_voter_ids m → size (remaining_voters m id) = size (rm_voter_ids m) - 1.
Proof.
  intros H. unfold remaining_voters. rewrite size_difference, size_singleton; [done|set_solver].
Qed.

Lemma handle_leave_cases env change id calls resp :
  handle_leave env change id = (calls, resp) →
  calls = [] ∧ resp ≠ LeaveReply 200 (MkLeaveResponse LeaveOk None) ∨
  precheck_leave (ce_locked env) id = None ∧
  calls = [ChangeMembership (ReplaceAllVoters (remaining_voters (ce_voters env) id))] ∧
  (resp = LeaveReply 200 (MkLeaveResponse LeaveOk None) →
   change = Changed ∧ wait_for_committed_membership_log_advance (ce_polls env) (committed_index env) = true).
Proof.
  unfold handle_leave.
  assert (∀ m r, precheck_leave m id = Some r → r ≠ LeaveReply 200 (MkLeaveResponse LeaveOk None)) as Hne.
  { intros m r. unfold precheck_leave. by repeat case_bool_decide; intros; simplify_eq/=. }
  destruct (precheck_leave (ce_before env) id) as [r|] eqn:E1; [intros [= <- <-]; left; eauto|].
  destruct (precheck_leave (ce_locked env) id) as [r|] eqn:E2; [intros [= <- <-]; left; eauto|].
  intros H. right. split; [done|]. destruct change; [|case_match|]; simplify_eq/=; try done.
  by destruct (wait_for_committed_membership_log_advance _ _); simplify_eq/=.
Qed.

Lemma handle_join_cases env learner change req calls resp :
  handle_join env learner change req = (calls, resp) →
  calls = [] ∧ resp ≠ JoinReply 200 (MkJoinResponse JoinOk None) ∨
  precheck_join (ce_locked env) (jr_node_id req) = None ∧
  (calls = [AddLearner (jr_node_id req) (jr_addr req)] ∧ resp ≠ JoinReply 200 (MkJoinResponse JoinOk None) ∨
   calls = [AddLearner (jr_node_id req) (jr_addr req); ChangeMembership (AddVoterIds {[ jr_node_id req ]})] ∧
   learner = None) ∧
  (resp = JoinReply 200 (MkJoinResponse JoinOk None) →
   change = None ∧ wait_for_committed_membership_log_advance (ce_polls env) (committed_index env) = true).
Proof.
  unfold handle_join.
  assert (∀ m r, precheck_join m (jr_node_id req) = Some r → r ≠ JoinReply 200 (MkJoinResponse JoinOk None)) as Hne.
  { intros m r. unfold precheck_join. by repeat case_bool_decide; intros; simplify_eq/=. }
  destruct (precheck_join (ce_before env) _) as [r|] eqn:E1; [intros [= <- <-]; left; eauto|].
  destruct (precheck_join (ce_locked env) _) as [r|] eqn:E2; [intros [= <- <-]; left; eauto|].
  intros H. right. split; [done|]. destruct learner; [simplify_eq/=; split; [by left|done]|].
  destruct change; [case_match; simplify_eq/=; (split; [by right|done])|].
  by destruct (wait_for_committed_membership_log_advance _ _); simplify_eq/=; (split; [by right|]).
Qed.

(** C26: the voters change only as asked and only on the leader. A leave asks Raft for
    nothing unless, at the check under the lock, this node is the leader, the leaving
    node is a voter and another voter remains; it then asks for exactly the voters it
    collects next without the leaving node, a set that is not empty if the voters are
    still those of that check (they are read again, so this is not guaranteed if the
    membership changed between the two reads). A join adds the node as a learner and
    then as a voter, and only on the leader and if it is not a voter. A reply of success
    means that the change was accepted and that the index of the committed membership
    advanced while the handler waited. *)
Theorem membership_changes_safe (env : ChangeEnv) :
  (∀ change id calls resp, handle_leave env change id = (calls, resp) →
     (calls = [] ∨
      calls = [ChangeMembership (ReplaceAllVoters (rm_voter_ids (ce_voters env) ∖ {[ id ]}))] ∧
      rm_current_leader (ce_locked env) = Some (rm_id (ce_locked env)) ∧ id ∈ rm_voter_ids (ce_locked env) ∧
      (rm_voter_ids (ce_voters env) = rm_voter_ids (ce_locked env) →
       1 ≤ size (rm_voter_ids (ce_voters env) ∖ {[ id ]}))) ∧
     (resp = LeaveReply 200 (MkLeaveResponse LeaveOk None) →
      calls ≠ [] ∧ change = Changed ∧
      ∃ i, i < 150 ∧ index_gt (rm_membership_log (ce_polls env i)) (committed_index env) = true)) ∧
  (∀ learner change req calls resp, handle_join env learner change req = (calls, resp) →
     (calls = [] ∨
      (calls = [AddLearner (jr_node_id req) (jr_addr req)] ∨
       calls = [AddLearner (jr_node_id req) (jr_addr req);
                ChangeMembership (AddVoterIds {[ jr_node_id req ]})] ∧ learner = None) ∧
      rm_current_leader (ce_locked env) = Some (rm_id (ce_locked env)) ∧
      jr_node_id req ∉ rm_voter_ids (ce_locked env)) ∧
     (resp = JoinReply 200 (MkJoinResponse JoinOk None) →
      calls ≠ [] ∧ change = None ∧
      ∃ i, i < 150 ∧ index_gt (rm_membership_log (ce_polls env i)) (committed_index env) = true)).
Proof.
  split.
  - intros change id calls resp [[-> Hne]|(Hpre & -> & Hok)]%handle_leave_cases; [split; [by left|done]|].
    apply precheck_leave_None in Hpre as (Hl & Hin & Hsz). split.
    + right. split_and!; try done. intros He. change (1 ≤ size (remaining_voters (ce_voters env) id)).
      rewrite remaining_size by by rewrite He. rewrite He. lia.
    + intros [-> Hw%wait_spec]%Hok. by split_and!.
  - intros learner change req calls resp [[-> Hne]|(Hpre & Hcalls & Hok)]%handle_join_cases; [split; [by left|done]|].
    apply precheck_join_None in Hpre as [Hl Hin]. split; [right; naive_solver|].
    intros Hr. destruct (Hok Hr) as [-> Hw%wait_spec]. split_and!; try done.
    by destruct Hcalls as [[-> _]|[-> _]].
Qed.

(** * The verdict on a restored node *)

Lemma max_applied_cons x l :
  max_applied (x :: l) = (default 0 (cs_last_applied_log x) `max` max_applied l)%N.
Proof. unfold max_applied. simpl. destruct (cs_last_applied_log x); simpl; [done|symmetry; apply N.max_0_l]. Qed.
Lemma max_applied_ge statuses s : s ∈ statuses → (default 0 (cs_last_applied_log s) ≤ max_applied statuses)%N.
Proof.
  induction statuses as [|x l IH]; [by intros ?%elem_of_nil|]. rewrite max_applied_cons.
  intros [->|H%IH]%elem_of_cons; lia.
Qed.
Lemma max_applied_reached statuses :
  statuses ≠ [] → ∃ s, s ∈ statuses ∧ default 0%N (cs_last_applied_log s) = max_applied statuses.
Proof.
  induction statuses as [|x l IH]; [done|]. intros _. rewrite max_applied_cons.
  destruct (decide (max_applied l ≤ default 0 (cs_last_applied_log x))%N) as [Hle|Hgt].
  { exists x. split; [by left|lia]. }
  destruct l as [|y l]; [by destruct Hgt; apply N.le_0_l|].
  destruct IH as (s & Hs & E); [done|]. exists s. split; [by right|lia].
Qed.

Lemma authoritative_nonempty statuses : statuses ≠ [] → authoritative statuses ≠ [].
Proof.
  intros (s & Hs & E)%max_applied_reached Hnil.
  assert (s ∈ authoritative statuses) as Hin.
  { apply list_elem_of_filter. split; [|done]. rewrite E. lia. }
  rewrite Hnil in Hin. by apply elem_of_nil in Hin.
Qed.

(** A restored node trusts its own membership only on the word of a strict
    majority of those peers that have applied the log to within ten entries of the
    furthest; if any peer other than itself answers, there is such a peer, so that
    the node either has that majority or joins again, and it starts a cluster of its
    own only if it is the first node and nobody answers. *)
Theorem restored_membership_needs_majority (node_id : N) (peers : list string)
    (status : string → option ClusterStatus) :
  let statuses := peer_statuses node_id status peers in
  let auth := authoritative statuses in
  (∀ s, s ∈ auth ↔ s ∈ statuses ∧ ∀ s', s' ∈ statuses →
     (default 0 (cs_last_applied_log s') ≤ default 0 (cs_last_applied_log s) + 10)%N) ∧
  (verdict node_id peers statuses = Confirmed ↔
     statuses ≠ [] ∧ length auth < 2 * length (filter (λ s, lists_voter s node_id = true) auth)) ∧
  (statuses ≠ [] → auth ≠ [] ∧
     (verdict node_id peers statuses = Confirmed ∨ verdict node_id peers statuses = Rejoin peers)) ∧
  (verdict node_id peers statuses = NoPeers true ↔ statuses = [] ∧ node_id = 1%N).
Proof.
  cbn zeta. set (statuses := peer_statuses _ _ _). split.
  { intros s. unfold authoritative. rewrite list_elem_of_filter. unfold AUTHORITATIVE_LOG_TOLERANCE. split.
    - intros [Hs Hin]. split; [done|]. intros s' Hs'%max_applied_ge. lia.
    - intros [Hin Hall]. split; [|done]. destruct (max_applied_reached statuses) as (s' & Hs' & <-).
      { intros E. rewrite E in Hin. by apply elem_of_nil in Hin. }
      specialize (Hall s' Hs'). lia. }
  destruct (decide (statuses = [])) as [->|Hne].
  { simpl. split; [by split; [done|intros [? _]]|]. split; [done|]. case_bool_decide; naive_solver. }
  pose proof (authoritative_nonempty _ Hne) as Ha.
  assert (verdict node_id peers statuses =
    if bool_decide (length (authoritative statuses) `div` 2 <
      length (filter (λ s, lists_voter s node_id = true) (authoritative statuses))) then Confirmed else Rejoin peers) as ->.
  { unfold verdict. destruct statuses as [|x l]; [done|]. rewrite bool_decide_eq_false_2; [done|].
    intros E%length_zero_iff_nil. done. }
  assert (∀ a b, a `div` 2 < b ↔ a < 2 * b) as Hdiv.
  { intros a b. pose proof (Nat.div_mod_eq a 2). pose proof (Nat.mod_upper_bound a 2 ltac:(lia)). lia. }
  rewrite <-Hdiv. case_bool_decide; naive_solver.
Qed.

(** * The join loop *)

Lemma join_loop_ends cfg seeds envs k e : (join_round cfg seeds (envs k)).2 = e → e ≠ Retry →
  ∀ n round delay, round + n = k →
  ∃ e', e' ≠ Retry ∧ (join_cluster_with_seed_peers (S n) cfg seeds envs round delay).2 = Some e'.
Proof.
  intros He Hne. induction n as [|n IH]; intros round delay Hk.
  - rewrite Nat.add_0_r in Hk. subst round. cbn [join_cluster_with_seed_peers]. rewrite He.
    destruct e; try done; eexists; (split; [|done]); done.
  - cbn [join_cluster_with_seed_peers]. destruct ((join_round cfg seeds (envs round)).2) eqn:E;
      try (by eexists; split; [|done]).
    destruct (IH (S round) ((delay * 2) `min` MAX_DELAY_MS)%N) as (e' & He' & H); [lia|].
    exists e'. split; [done|]. cbn [join_cluster_with_seed_peers] in H.
    revert H. destruct ((join_round cfg seeds (envs (S round))).2); simpl; intros; try done.
    all: by destruct (join_cluster_with_seed_peers _ _ _ _ _ _).
Qed.

Lemma join_loop_delays cfg seeds envs n round delay : (delay ≤ MAX_DELAY_MS)%N →
  Forall (λ d, d ≤ MAX_DELAY_MS)%N (join_cluster_with_seed_peers n cfg seeds envs round delay).1.
Proof.
  revert round delay. induction n as [|n IH]; intros round delay Hd; [constructor|].
  cbn [join_cluster_with_seed_peers]. destruct ((join_round cfg seeds (envs round)).2); try constructor.
  assert (((delay * 2) `min` MAX_DELAY_MS) ≤ MAX_DELAY_MS)%N as Hm by lia.
  specialize (IH (S round) _ Hm). destruct (join_cluster_with_seed_peers _ _ _ _ _ _). by constructor.
Qed.

(** A peer that a node joins through confirms it. *)
Definition confirmed_by (env : RoundEnv) (node_id : N) (peer : string) : Prop :=
  ∃ target s m, re_confirm_status env peer target = Some s ∧ re_confirm_metrics env peer = m ∧
    lists_voter s node_id = true ∧ node_id ∈ rm_voter_ids m ∧ is_Some (rm_current_leader m) ∧
    (default 0 (cs_last_membership_log_id s) ≤ default 0 (rm_membership_log m))%N.

Lemma try_peer_confirmed env id peer : try_peer env id peer = true → confirmed_by env id peer.
Proof.
  assert (∀ target, joined_at env id peer target = true → confirmed_by env id peer) as Hj.
  { intros target. unfold joined_at, local_join_is_confirmed. destruct (re_confirm_status env peer target) as [s|] eqn:E; [|done].
    unfold local_membership_confirms_join. rewrite !andb_true_iff, !bool_decide_eq_true, N.leb_le.
    intros [[[? ?] ?] ?]. exists target, s, (re_confirm_metrics env peer). by split_and!. }
  unfold try_peer. repeat case_match; try done; eauto.
Qed.

(** A node stops joining only when it is in: through a peer whose status lists it
    as a voter and whose membership its own has caught up with; the first node also
    when it has a leader or nobody took it in and it starts a cluster, which no other
    node does. The loop ends as soon as a round brings such a result, and never waits
    for more than ten seconds between rounds. *)
Theorem join_loop_sound_and_live (cfg : JoinConfig) (seeds : list string) (envs : nat → RoundEnv) :
  (∀ k, match (join_round cfg seeds (envs k)).2 with
        | Joined peer => peer ∈ round_peers cfg seeds (envs k) ∧ confirmed_by (envs k) (jc_node_id cfg) peer
        | HasLeader => jc_node_id cfg = 1%N ∧ is_Some (rm_current_leader (re_metrics (envs k)))
        | Bootstrapped => jc_node_id cfg = 1%N ∧ rm_current_leader (re_metrics (envs k)) = None ∧
            ∀ peer, peer ∈ round_peers cfg seeds (envs k) → try_peer (envs k) (jc_node_id cfg) peer = false
        | Retry => True
        end) ∧
  (∀ k e, (join_round cfg seeds (envs k)).2 = e → e ≠ Retry →
     ∃ e', e' ≠ Retry ∧ (join_cluster_with_seed_peers (S k) cfg seeds envs 0 500).2 = Some e') ∧
  (∀ n, Forall (λ d, d ≤ 10000)%N (join_cluster_with_seed_peers n cfg seeds envs 0 500).1).
Proof.
  split_and!.
  - intros k. unfold join_round. destruct (list_find _ _) as [[i peer]|] eqn:E; simpl.
    + apply list_find_Some in E as (Hin & Ht & _). split; [by eapply list_elem_of_lookup_2|].
      by apply try_peer_confirmed.
    + apply list_find_None in E. case_bool_decide as Hid; [|done].
      case_bool_decide as Hl; simpl; [done|]. destruct (re_initialize_ok _); [|done].
      split; [done|]. split; [by apply eq_None_not_Some|]. intros peer Hp.
      rewrite Forall_forall in E. specialize (E peer Hp). by destruct (try_peer _ _ _).
  - intros k e He Hne. by apply (join_loop_ends cfg seeds envs k e).
  - intros n. apply join_loop_delays. unfold MAX_DELAY_MS. lia.
Qed.

(** * Examples *)

Definition metrics_of (id : N) (leader : option N) (voters : list N) (log : N) : RaftMetrics :=
  MkRaftMetrics id (if bool_decide (leader = Some id) then SLeader else SFollower) leader
    ((λ v, MkNodeInfo v ("node-" +:+ Str.of_u64 v)) <$> voters) (list_to_set voters) (Some log) 3 (Some log) (Some log)
    None None.
Definition three : RaftMetrics := metrics_of 1 (Some 1%N) [1%N; 2%N; 3%N] 40.
Definition leaving : ChangeEnv := MkChangeEnv three three three three (λ _, metrics_of 1 (Some 1%N) [1%N; 2%N] 41).

Example leave_three :
  handle_leave leaving Changed 3 =
    ([ChangeMembership (ReplaceAllVoters {[ 1%N; 2%N ]})], LeaveReply 200 (MkLeaveResponse LeaveOk None)) ∧
  (handle_leave (MkChangeEnv (metrics_of 1 (Some 1%N) [1%N] 4) (metrics_of 1 (Some 1%N) [1%N] 4) three three
    (λ _, three)) Changed 1).2 = LeaveReply 200 (MkLeaveResponse LastVoter None).
Proof. split; vm_compute; reflexivity. Qed.

Lemma membership_changes_safe_witness :
  rm_voter_ids (ce_voters leaving) = rm_voter_ids (ce_locked leaving) ∧
  1 ≤ size (rm_voter_ids (ce_voters leaving) ∖ {[ 3%N ]}) ∧
  ∃ i, i < 150 ∧ index_gt (rm_membership_log (ce_polls leaving i)) (committed_index leaving) = true.
Proof.
  split; [reflexivity|].
  destruct (proj1 (membership_changes_safe leaving) Changed 3%N _ _ (surjective_pairing _)) as [[Hn|(_ & _ & _ & Hs)] Hok].
  - vm_compute in Hn. discriminate Hn.
  - split; [apply Hs; reflexivity|]. destruct Hok as (_ & _ & Hi); [vm_compute; reflexivity|exact Hi].
Defined.

Example stale_change :
  is_stale_config_change "the cluster is already undergoing a configuration change at log Some(LogId { leader_id: LeaderId { term: 4, node_id: 2 }, index: 32 }), committed log id: Some(LogId { leader_id: LeaderId { term: 5, node_id: 1 }, index: 33 })" = true ∧
  is_stale_config_change "the cluster is already undergoing a configuration change at log Some(LogId { leader_id: LeaderId { term: 5, node_id: 2 }, index: 34 }), committed log id: Some(LogId { leader_id: LeaderId { term: 5, node_id: 1 }, index: 33 })" = false.
Proof. split; vm_compute; reflexivity. Qed.

Example ordinal_zero :
  ordinal_zero_peer_target "layerhouse-2.layerhouse-raft.registry.svc:5051" =
    Some "layerhouse-0.layerhouse-raft.registry.svc:5051".
Proof. vm_compute. reflexivity. Qed.
