(* ===== verification/Keys.v ===== *)
(** Keys of the identity provider (crates/layerhouse-server/src/auth/discovery.rs,
    auth/jwks.rs and the start of auth/mod.rs): the discovery document, the cache of
    the provider's signing keys, the copy of the last good document in the object
    store, and how a node gets its keys when it starts and refreshes them; and, as a
    step function, the nodes of a cluster whose refreshes interleave.

    The HTTP client, the object store and the clock are arguments of each call: what
    an endpoint answers is a value of [HttpAnswer], per issuer and per endpoint tried.
    [jwk_set] stands for the parser of key sets and the conversion of each key. *)

From Stdlib Require Import Ascii.
From stdpp Require Import options.
From S2P Require Import Prelude Errors Digests Manifests Permissions Principals Handles.
From S2P Require Import SyncRuns Types StateMachine Authorization Tokens.

Local Open Scope lh_scope.

(** * URLs *)

(** [str::find] of a text: what is before its first occurrence, and after it. *)
Fixpoint split_once_str (p s : string) : option (string * string) :=
  match Str.strip_prefix p s with
  | Some r => Some ("", r)
  | None => match s with
            | EmptyString => None
            | String a s' => '(x, y) ← split_once_str p s'; Some (String a x, y)
            end
  end.
Definition up_to (c : ascii) (s : string) : string := from_option fst s (Str.split_once c s).

Definition extract_origin (url : string) : string :=
  match split_once_str "://" url with
  | Some (scheme, rest) => scheme +:+ "://" +:+ up_to "/" rest
  | None => up_to "/" url
  end.
Definition rewrite_base (url from_base to_base : string) : string :=
  match Str.strip_prefix (extract_origin from_base) url with
  | Some rest => extract_origin to_base +:+ rest
  | None => url
  end.

(** * Settings *)

Inductive CookieSecureMode := CookieAuto | CookieEnabled | CookieDisabled.
(** The settings of authentication; those the token code reads are a record of its own. *)
Record AuthConfig := MkAuthConfig {
  ac_token : TokenConfig;
  ac_issuer_internal_url : option string;
  ac_issuer_internal_urls : list string;
  ac_jwks_urls : list string;
  ac_client_secret : string;
  ac_redirect_uri : string;
  ac_logout_url : option string;
  ac_login_scopes : string;
  ac_jwks_cache_s3_key : string;
  ac_jwks_max_stale_seconds : N;
  ac_token_signing_keys : list string;
  ac_session_encryption_key : string;
  ac_cookie_secure_mode : CookieSecureMode;
}.
Definition ac_issuer_url (cfg : AuthConfig) : string := cf_issuer_url (ac_token cfg).

Definition issuer_internal_url (cfg : AuthConfig) : string := default (ac_issuer_url cfg) (ac_issuer_internal_url cfg).
Definition nonblank (l : list string) : list string := filter (λ v, Str.is_empty v = false) (Str.trim <$> l).
Definition issuer_internal_urls (cfg : AuthConfig) : list string :=
  match nonblank (ac_issuer_internal_urls cfg) with [] => [issuer_internal_url cfg] | urls => urls end.
Definition jwks_urls (cfg : AuthConfig) : list string := nonblank (ac_jwks_urls cfg).

(** * Discovery *)

Record OidcDiscovery := MkOidcDiscovery {
  od_authorization_endpoint : string;
  od_token_endpoint : string;
  od_jwks_uri : string;
  od_end_session_endpoint : option string;
}.

(** What a GET of an endpoint gives: a failure of the client, of the request, of the
    connection or of reading the body, or a status and a text. *)
Inductive HttpAnswer :=
  | ClientFailed (m : message)
  | RequestFailed (m : message)
  | SendFailed (m : message)
  | ReadFailed (m : message)
  | Answered (status : N) (text : string).

Section keys.
Context `{SJ : SerdeJson, JW : !Jwt}.
(** The keys of a set, each with its id, or why one cannot be used. *)
Context (jwk_set : Value → message + list (option string * (message + DecodingKey))).
(** [base64::STANDARD.decode]. *)
Context (base64_bytes : string → message + list Byte.byte).

Definition doc_str (doc : Value) (k : string) : option string := json_get doc k ≫= json_as_str.

(** The body is parsed whatever the status is. *)
Definition fetch_json (what : string) (a : HttpAnswer) : result Value :=
  match a with
  | ClientFailed m => Err (Internal (Lit "HTTP client build failed: " :: m))
  | RequestFailed m => Err (Internal (Lit (what +:+ " request build failed: ") :: m))
  | SendFailed m => Err (Internal (Lit (what +:+ " fetch failed: ") :: m))
  | ReadFailed m => Err (Internal (Lit (what +:+ " read failed: ") :: m))
  | Answered _ text =>
      ok_or (Internal [Lit (what +:+ " parse failed: ")]) (from_slice (String.list_byte_of_string text))
  end.
Definition fetch_document (a : HttpAnswer) : result Value := fetch_json "discovery" a.
Definition fetch_jwks (a : HttpAnswer) : result Value := fetch_json "JWKS" a.

Definition from_document (doc : Value) (issuer_url public_base : string) : result OidcDiscovery :=
  authorization_endpoint ← ok_or (Internal [Lit "discovery missing authorization_endpoint"])
                             (doc_str doc "authorization_endpoint");
  token_endpoint ← ok_or (Internal [Lit "discovery missing token_endpoint"]) (doc_str doc "token_endpoint");
  jwks_uri ← ok_or (Internal [Lit "discovery missing jwks_uri"]) (doc_str doc "jwks_uri");
  Ok (MkOidcDiscovery authorization_endpoint (rewrite_base token_endpoint public_base issuer_url)
        (rewrite_base jwks_uri public_base issuer_url) (doc_str doc "end_session_endpoint")).

(** * The key cache *)

Record JwksCache := MkJwksCache {
  jc_keys : list (string * DecodingKey);
  jc_fetched_at_unix : option N;
  jc_stale_mode : bool;
  jc_endpoint : option string;
  jc_refresh_failures : N;
}.
Definition JwksCache_empty : JwksCache := MkJwksCache [] None false None 0.

Fixpoint convert_keys (l : list (option string * (message + DecodingKey))) : result (list (string * DecodingKey)) :=
  match l with
  | [] => Ok []
  | (kid, inr key) :: l' => keys ← convert_keys l'; Ok ((default "" kid, key) :: keys)
  | (_, inl m) :: _ => Err (Internal (Lit "JWK conversion failed: " :: m))
  end.
Definition keys_of_value (v : Value) : result (list (string * DecodingKey)) :=
  match jwk_set v with
  | inl m => Err (Internal (Lit "JWKS parse failed: " :: m))
  | inr l => convert_keys l
  end.
Definition refresh_from_value (c : JwksCache) (v : Value) (fetched_at_unix : N) (stale_mode : bool) (endpoint : string)
    : JwksCache * result nat :=
  try keys := keys_of_value v at c;
  (MkJwksCache keys (Some fetched_at_unix) stale_mode (Some endpoint) (jc_refresh_failures c), Ok (length keys)).
Definition record_refresh_failure (c : JwksCache) : JwksCache :=
  MkJwksCache (jc_keys c) (jc_fetched_at_unix c) (jc_stale_mode c) (jc_endpoint c)
    (N.min (jc_refresh_failures c + 1) U64.max).

Record JwksMetrics := MkJwksMetrics {
  jm_key_count : nat;
  jm_cache_age_seconds : N;
  jm_stale_mode : bool;
  jm_refresh_failures : N;
  jm_endpoint : option string;
}.
Definition metrics (c : JwksCache) (now : N) : JwksMetrics :=
  MkJwksMetrics (length (jc_keys c)) (from_option (U64.saturating_sub now) 0%N (jc_fetched_at_unix c))
    (jc_stale_mode c) (jc_refresh_failures c) (jc_endpoint c).

Record CachedJwksDocument := MkCachedJwksDocument {
  cd_version : N;
  cd_issuer_url : string;
  cd_issuer_internal_url : string;
  cd_discovery : Value;
  cd_jwks : Value;
  cd_fetched_at_unix : N;
}.
Definition CachedJwksDocument_new := MkCachedJwksDocument 1.
Definition age_seconds (doc : CachedJwksDocument) (now : N) : N := U64.saturating_sub now (cd_fetched_at_unix doc).
Definition within_stale_window (doc : CachedJwksDocument) (max_stale_seconds now : N) : bool :=
  bool_decide (age_seconds doc now ≤ max_stale_seconds)%N.

(** * Fetching *)

(** How reading the copy can fail: the service's error, the body, or its decoding. *)
Inductive LoadFailure :=
  | GetFailed (no_such_key : bool) (code : option string) (m : message)
  | BodyFailed (m : message)
  | DecodeFailed (m : message).

(** What a node is told while it fetches: the answer to each discovery request (the
    number of the issuer and its URL), to each request for keys (the numbers of the
    issuer and of the endpoint, and its URL); the clock; whether the copy can be
    written, and why it cannot be read if it cannot. *)
Record KeyEnv := MkKeyEnv {
  ke_discovery : nat → string → HttpAnswer;
  ke_jwks : nat → nat → string → HttpAnswer;
  ke_now : N;
  ke_store_ok : bool;
  ke_load_error : option LoadFailure;
}.

Record FreshAuthMaterial := MkFreshAuthMaterial {
  fm_issuer_internal_url : string;
  fm_discovery_doc : Value;
  fm_discovery : OidcDiscovery;
  fm_jwks_endpoint : string;
  fm_jwks : Value;
  fm_fetched_at_unix : N;
}.

Definition jwks_candidates (cfg : AuthConfig) (discovery : OidcDiscovery) : list string :=
  match jwks_urls cfg with [] => [od_jwks_uri discovery] | urls => urls end.

(** The errors of the endpoints tried, joined in the error of the whole. *)
Fixpoint join_messages (l : list message) : message :=
  match l with [] => [] | [m] => m | m :: l' => m ++ Lit "; " :: join_messages l' end.

Fixpoint try_endpoints (answer : nat → string → HttpAnswer) (j : nat) (errors : list message) (endpoints : list string)
    : list message + (string * Value) :=
  match endpoints with
  | [] => inl errors
  | e :: endpoints' =>
      match fetch_jwks (answer j e) with
      | Ok v => inr (e, v)
      | Err err => try_endpoints answer (S j) (errors ++ [Disp e :: Lit ": " :: error_to_string err]) endpoints'
      | Panic => inl errors
      end
  end.
Definition fetch_auth_material_from_issuer (cfg : AuthConfig) (env : KeyEnv) (i : nat) (issuer : string)
    : result FreshAuthMaterial :=
  discovery_doc ← fetch_document (ke_discovery env i issuer);
  discovery ← from_document discovery_doc issuer (ac_issuer_url cfg);
  match try_endpoints (ke_jwks env i) 0 [] (jwks_candidates cfg discovery) with
  | inr (endpoint, jwks) => Ok (MkFreshAuthMaterial issuer discovery_doc discovery endpoint jwks (ke_now env))
  | inl errors =>
      Err (Internal (Lit "JWKS fetch failed for issuer " :: Disp issuer :: Lit ": " :: join_messages errors))
  end.

Fixpoint try_issuers (cfg : AuthConfig) (env : KeyEnv) (i : nat) (errors : list message) (issuers : list string)
    : result FreshAuthMaterial :=
  match issuers with
  | [] => Err (Internal (Lit "OIDC discovery/JWKS fetch failed for all configured endpoints: " :: join_messages errors))
  | issuer :: issuers' =>
      match fetch_auth_material_from_issuer cfg env i issuer with
      | Ok material => Ok material
      | Err err => try_issuers cfg env (S i) (errors ++ [Disp issuer :: Lit ": " :: error_to_string err]) issuers'
      | Panic => Panic
      end
  end.
Definition fetch_fresh_auth_material (cfg : AuthConfig) (env : KeyEnv) : result FreshAuthMaterial :=
  try_issuers cfg env 0 [] (issuer_internal_urls cfg).

(** * Installing *)

(** The object store of the copy, if one is configured, and what it holds. *)
Abbreviation S3Copy := (option (option CachedJwksDocument)).

Definition document_of (cfg : AuthConfig) (m : FreshAuthMaterial) : CachedJwksDocument :=
  CachedJwksDocument_new (ac_issuer_url cfg) (fm_issuer_internal_url m) (fm_discovery_doc m) (fm_jwks m)
    (fm_fetched_at_unix m).
Definition store (s3 : S3Copy) (ok : bool) (doc : CachedJwksDocument) : S3Copy :=
  (λ held, if ok then Some doc else held) <$> s3.
Definition install_fresh_material (cfg : AuthConfig) (env : KeyEnv) (c : JwksCache) (s3 : S3Copy)
    (m : FreshAuthMaterial) : JwksCache * S3Copy * result () :=
  match refresh_from_value c (fm_jwks m) (fm_fetched_at_unix m) false (fm_jwks_endpoint m) with
  | (c', Ok _) => (c', store s3 (ke_store_ok env) (document_of cfg m), Ok ())
  | (c', Err e) => (c', s3, Err e)
  | (c', Panic) => (c', s3, Panic)
  end.

Definition install_cached_document (cfg : AuthConfig) (env : KeyEnv) (c : JwksCache) (doc : CachedJwksDocument)
    : JwksCache * result OidcDiscovery :=
  if negb (bool_decide (cd_issuer_url doc = ac_issuer_url cfg)) then
    (c, Err (Internal [Lit "cached JWKS issuer "; Disp (cd_issuer_url doc);
                       Lit " does not match configured issuer "; Disp (ac_issuer_url cfg)]))
  else if negb (within_stale_window doc (ac_jwks_max_stale_seconds cfg) (ke_now env)) then
    (c, Err (Internal [Lit "cached JWKS is "; Num (age_seconds doc (ke_now env));
                       Lit "s old, exceeding configured stale window of ";
                       Num (ac_jwks_max_stale_seconds cfg); Lit "s"]))
  else
    try discovery := from_document (cd_discovery doc) (cd_issuer_internal_url doc) (ac_issuer_url cfg) at c;
    match refresh_from_value c (cd_jwks doc) (cd_fetched_at_unix doc) true ("s3:" +:+ ac_jwks_cache_s3_key cfg) with
    | (c', Ok _) => (c', Ok discovery)
    | (c', Err e) => (c', Err e)
    | (c', Panic) => (c', Panic)
    end.

Definition load (s3 : option CachedJwksDocument) (env : KeyEnv) : result (option CachedJwksDocument) :=
  match ke_load_error env with
  | None => Ok s3
  | Some (GetFailed no_such_key code m) =>
      if no_such_key || bool_decide (code = Some "NoSuchBucket") || bool_decide (code = Some "NotFound")
           || bool_decide (code = Some "404")
      then Ok None else Err (S3 (Lit "JWKS cache download failed: " :: m))
  | Some (BodyFailed m) => Err (S3 (Lit "JWKS cache body read failed: " :: m))
  | Some (DecodeFailed m) => Err (Serialization (Lit "JWKS cache decode: " :: m))
  end.
Definition load_cached_material (cfg : AuthConfig) (env : KeyEnv) (c : JwksCache) (s3 : S3Copy)
    (fetch_err : LayerhouseError) : JwksCache * result OidcDiscovery :=
  let c := record_refresh_failure c in
  match s3 with
  | None => (c, Err (Internal (Lit "initial JWKS fetch failed and no S3 JWKS cache is configured: "
                                 :: error_to_string fetch_err)))
  | Some held =>
      try loaded := load held env at c;
      match loaded with
      | None => (c, Err (Internal (Lit "initial JWKS fetch failed and S3 JWKS cache is empty: "
                                     :: error_to_string fetch_err)))
      | Some document => install_cached_document cfg env c document
      end
  end.

(** * The service *)

Record AuthService := MkAuthService {
  sv_signing_key : list Byte.byte;
  sv_session_key : list Byte.byte;
  sv_discovery : OidcDiscovery;
  sv_cache : JwksCache;
}.

Definition decode_secrets (cfg : AuthConfig) : result (list Byte.byte * list Byte.byte) :=
  first ← ok_or (Internal [Lit "at least one token signing key is required"]) (head (ac_token_signing_keys cfg));
  signing ← match base64_bytes first with
            | inl e => Err (Internal (Lit "invalid token signing key: " :: e)) | inr b => Ok b end;
  session ← match base64_bytes (ac_session_encryption_key cfg) with
            | inl e => Err (Internal (Lit "invalid session encryption key: " :: e)) | inr b => Ok b end;
  if bool_decide (length session = 32) then Ok (signing, session)
  else Err (Internal [Lit "session encryption key must be 32 bytes"]).

Definition AuthService_new (cfg : AuthConfig) (env : KeyEnv) (s3 : S3Copy) : S3Copy * result AuthService :=
  try secrets := decode_secrets cfg at s3;
  let '(signing, session) := secrets in
  match fetch_fresh_auth_material cfg env with
  | Ok material =>
      let '(c, s3', r) := install_fresh_material cfg env JwksCache_empty s3 material in
      (s3', (λ _, MkAuthService signing session (fm_discovery material) c) <$> r)
  | Err fetch_err =>
      let '(c, r) := load_cached_material cfg env JwksCache_empty s3 fetch_err in
      (s3, (λ discovery, MkAuthService signing session discovery c) <$> r)
  | Panic => (s3, Panic)
  end.

Definition with_keys (sv : AuthService) (discovery : OidcDiscovery) (c : JwksCache) : AuthService :=
  MkAuthService (sv_signing_key sv) (sv_session_key sv) discovery c.
Definition refresh_jwks_once (cfg : AuthConfig) (env : KeyEnv) (sv : AuthService) (s3 : S3Copy)
    : AuthService * S3Copy * result () :=
  match fetch_fresh_auth_material cfg env with
  | Ok material =>
      match install_fresh_material cfg env (sv_cache sv) s3 material with
      | (c, s3', Ok ()) => (with_keys sv (fm_discovery material) c, s3', Ok ())
      | (c, s3', Err e) => (with_keys sv (sv_discovery sv) c, s3', Err e)
      | (c, s3', Panic) => (with_keys sv (sv_discovery sv) c, s3', Panic)
      end
  | Err e => (with_keys sv (sv_discovery sv) (record_refresh_failure (sv_cache sv)), s3, Err e)
  | Panic => (sv, s3, Panic)
  end.

(** * Nodes that share the copy

    [refresh_jwks_once] above is a refresh that nothing overlaps. In the server it is
    not atomic: the key cache is written under its lock, the copy is stored without a
    lock, and the endpoints are written under another lock; the timer and every
    request with an unknown key may each have a refresh under way, and every node of
    the cluster writes the copy. *)

Inductive RefreshPhase :=
  | Installing (m : FreshAuthMaterial)
  | Storing (m : FreshAuthMaterial)
  | Publishing (m : FreshAuthMaterial)
  | Failing.
Record KeyNode := MkKeyNode {
  nd_cfg : AuthConfig;
  nd_uses_copy : bool;
  nd_service : AuthService;
  nd_refreshing : gmap nat RefreshPhase;
}.
Record KeyWorld := MkKeyWorld {
  kw_nodes : gmap nat KeyNode;
  kw_store : gmap string CachedJwksDocument;
}.
(** A node starts with its settings; a refresh of a node gets its answers; a refresh
    takes its next step, where the copy may not be written. *)
Inductive KeyEvent :=
  | EvStart (n : nat) (cfg : AuthConfig) (uses_copy : bool) (env : KeyEnv)
  | EvFetch (n t : nat) (env : KeyEnv)
  | EvStep (n t : nat) (written : bool).

Definition put_node (w : KeyWorld) (n : nat) (nd : KeyNode) : KeyWorld :=
  MkKeyWorld (<[n := nd]> (kw_nodes w)) (kw_store w).
Definition put_copy (store : gmap string CachedJwksDocument) (key : string) (copy : S3Copy)
    : gmap string CachedJwksDocument :=
  match copy with Some (Some doc) => <[key := doc]> store | _ => store end.
Definition copy_of (w : KeyWorld) (cfg : AuthConfig) (uses_copy : bool) : S3Copy :=
  if uses_copy then Some (kw_store w !! ac_jwks_cache_s3_key cfg) else None.

Definition start_auth_node (w : KeyWorld) (n : nat) (cfg : AuthConfig) (uses_copy : bool) (env : KeyEnv) : KeyWorld :=
  let '(copy, r) := AuthService_new cfg env (copy_of w cfg uses_copy) in
  let store := put_copy (kw_store w) (ac_jwks_cache_s3_key cfg) copy in
  match r with
  | Ok sv => MkKeyWorld (<[n := MkKeyNode cfg uses_copy sv ∅]> (kw_nodes w)) store
  | _ => MkKeyWorld (delete n (kw_nodes w)) store
  end.
Definition refresh_step (nd : KeyNode) (t : nat) (ph : RefreshPhase) : KeyNode :=
  let sv := nd_service nd in
  let done sv' := MkKeyNode (nd_cfg nd) (nd_uses_copy nd) sv' (delete t (nd_refreshing nd)) in
  let next sv' ph' := MkKeyNode (nd_cfg nd) (nd_uses_copy nd) sv' (<[t := ph']> (nd_refreshing nd)) in
  match ph with
  | Installing m =>
      let '(c, r) := refresh_from_value (sv_cache sv) (fm_jwks m) (fm_fetched_at_unix m) false (fm_jwks_endpoint m) in
      let sv' := with_keys sv (sv_discovery sv) c in
      if is_ok r then next sv' (if nd_uses_copy nd then Storing m else Publishing m) else done sv'
  | Storing m => next sv (Publishing m)
  | Publishing m => done (with_keys sv (fm_discovery m) (sv_cache sv))
  | Failing => done (with_keys sv (sv_discovery sv) (record_refresh_failure (sv_cache sv)))
  end.
Definition refresh_stores (nd : KeyNode) (ph : RefreshPhase) (written : bool) : S3Copy :=
  match ph with Storing m => if written then Some (Some (document_of (nd_cfg nd) m)) else None | _ => None end.

(** [None] where the event cannot happen. *)
Definition key_step (w : KeyWorld) (ev : KeyEvent) : option KeyWorld :=
  match ev with
  | EvStart n cfg uses_copy env => Some (start_auth_node w n cfg uses_copy env)
  | EvFetch n t env =>
      nd ← kw_nodes w !! n;
      match nd_refreshing nd !! t with
      | Some _ => None
      | None =>
          ph ← match fetch_fresh_auth_material (nd_cfg nd) env with
               | Ok m => Some (Installing m) | Err _ => Some Failing | Panic => None end;
          Some (put_node w n (MkKeyNode (nd_cfg nd) (nd_uses_copy nd) (nd_service nd) (<[t := ph]> (nd_refreshing nd))))
      end
  | EvStep n t written =>
      nd ← kw_nodes w !! n;
      ph ← nd_refreshing nd !! t;
      Some (MkKeyWorld (<[n := refresh_step nd t ph]> (kw_nodes w))
              (put_copy (kw_store w) (ac_jwks_cache_s3_key (nd_cfg nd)) (refresh_stores nd ph written)))
  end.
Definition key_run (w : KeyWorld) (evs : list KeyEvent) : option KeyWorld :=
  foldl (λ o ev, w ← o; key_step w ev) (Some w) evs.

(** The keys a token is checked with: those in the cache, and those after the refresh
    that an unknown key causes. *)
Definition key_cache (cfg : AuthConfig) (env : KeyEnv) (sv : AuthService) (s3 : S3Copy) : KeyCache :=
  MkKeyCache (jc_keys (sv_cache sv)) (jc_keys (sv_cache (refresh_jwks_once cfg env sv s3).1.1)).
End keys.

(** * Where the keys come from *)

Section provenance.
Context `{SJ : SerdeJson, JW : !Jwt}.
Context (jwk_set : Value → message + list (option string * (message + DecodingKey))).
Context (base64_bytes : string → message + list Byte.byte).
Implicit Types (cfg : AuthConfig) (env : KeyEnv) (sv : AuthService) (copy : option (option CachedJwksDocument)).

(** The material was served: by the first configured issuer that answers with a
    discovery document and usable endpoints, at the first endpoint for keys that
    answers, as the clock then says. *)
Definition served cfg env (m : FreshAuthMaterial) : Prop :=
  ∃ i j, issuer_internal_urls cfg !! i = Some (fm_issuer_internal_url m) ∧
    fetch_document (ke_discovery env i (fm_issuer_internal_url m)) = Ok (fm_discovery_doc m) ∧
    from_document (fm_discovery_doc m) (fm_issuer_internal_url m) (ac_issuer_url cfg) = Ok (fm_discovery m) ∧
    jwks_candidates cfg (fm_discovery m) !! j = Some (fm_jwks_endpoint m) ∧
    fetch_jwks (ke_jwks env i j (fm_jwks_endpoint m)) = Ok (fm_jwks m) ∧
    fm_fetched_at_unix m = ke_now env ∧
    (∀ j' e, j' < j → jwks_candidates cfg (fm_discovery m) !! j' = Some e → is_err (fetch_jwks (ke_jwks env i j' e)) = true) ∧
    (∀ i' u, i' < i → issuer_internal_urls cfg !! i' = Some u →
       is_err (fetch_auth_material_from_issuer cfg env i' u) = true).

Lemma fetch_json_no_panic what a : fetch_json what a ≠ Panic.
Proof. destruct a; try done. simpl. by destruct (from_slice _). Qed.

Lemma try_endpoints_first answer j0 errors l e v :
  try_endpoints answer j0 errors l = inr (e, v) →
  ∃ j, l !! j = Some e ∧ fetch_jwks (answer (j0 + j) e) = Ok v ∧
    ∀ j' e', j' < j → l !! j' = Some e' → is_err (fetch_jwks (answer (j0 + j') e')) = true.
Proof.
  revert j0 errors. induction l as [|x l IH]; intros j0 errors; [done|]. simpl.
  destruct (fetch_jwks (answer j0 x)) as [v'|err|] eqn:E; [| |done].
  - intros [= <- <-]. exists 0. rewrite Nat.add_0_r. split_and!; [done..|lia].
  - intros (j & Hj & Hv & Hall)%IH. exists (S j). rewrite Nat.add_succ_r. split_and!; [done..|].
    intros [|j'] e' Hlt He'; simplify_eq/=; [by rewrite Nat.add_0_r, E|].
    rewrite Nat.add_succ_r. apply Hall; [lia|done].
Qed.

Lemma fetch_from_issuer_Ok cfg env i issuer m :
  fetch_auth_material_from_issuer cfg env i issuer = Ok m →
  fm_issuer_internal_url m = issuer ∧ fm_fetched_at_unix m = ke_now env ∧
  fetch_document (ke_discovery env i issuer) = Ok (fm_discovery_doc m) ∧
  from_document (fm_discovery_doc m) issuer (ac_issuer_url cfg) = Ok (fm_discovery m) ∧
  try_endpoints (ke_jwks env i) 0 [] (jwks_candidates cfg (fm_discovery m)) = inr (fm_jwks_endpoint m, fm_jwks m).
Proof.
  unfold fetch_auth_material_from_issuer. intros (doc & Hdoc & (di & Hdi & H)%result_bind_Ok)%result_bind_Ok.
  destruct (try_endpoints _ _ _ _) as [|[e v]] eqn:E; [done|]. by injection H as <-.
Qed.

Lemma try_issuers_first cfg env i0 errors l m :
  try_issuers cfg env i0 errors l = Ok m →
  ∃ i, l !! i = Some (fm_issuer_internal_url m) ∧
    fetch_auth_material_from_issuer cfg env (i0 + i) (fm_issuer_internal_url m) = Ok m ∧
    ∀ i' u, i' < i → l !! i' = Some u → is_err (fetch_auth_material_from_issuer cfg env (i0 + i') u) = true.
Proof.
  revert i0 errors. induction l as [|u l IH]; intros i0 errors; [done|]. simpl.
  destruct (fetch_auth_material_from_issuer cfg env i0 u) as [m'|err|] eqn:E; [| |done].
  - intros [= ->]. pose proof (fetch_from_issuer_Ok _ _ _ _ _ E) as (Hu & _).
    exists 0. rewrite Nat.add_0_r, Hu. split_and!; [done..|lia].
  - intros (i & Hi & Hm & Hall)%IH. exists (S i). rewrite Nat.add_succ_r. split_and!; [done..|].
    intros [|i'] u' Hlt Hu'; simplify_eq/=; [by rewrite Nat.add_0_r, E|].
    rewrite Nat.add_succ_r. apply Hall; [lia|done].
Qed.

Lemma fetch_fresh_served cfg env m : fetch_fresh_auth_material cfg env = Ok m → served cfg env m.
Proof.
  intros (i & Hi & Hm & Hall)%try_issuers_first. simpl in Hm.
  pose proof (fetch_from_issuer_Ok _ _ _ _ _ Hm) as (Hu & Hnow & Hdoc & Hdi & (j & Hj & Hv & Hj')%try_endpoints_first).
  exists i, j. by split_and!.
Qed.

(** The settings [cfg] were used to ask, in the life of node [n] that began with the
    answers [env0], and the answers were [env]. *)
Definition own_fetch (n : nat) env0 (life : list KeyEvent) env : Prop :=
  env = env0 ∨ ∃ t, EvFetch n t env ∈ life.
Definition no_start (n : nat) (ev : KeyEvent) : Prop :=
  match ev with EvStart n' _ _ _ => n' ≠ n | _ => True end.
Definition asked (evs : list KeyEvent) cfg env : Prop :=
  ∃ before n uses env0 life rest, evs = before ++ EvStart n cfg uses env0 :: life ++ rest ∧
    Forall (no_start n) life ∧ own_fetch n env0 life env.

(** A document that some node, with some settings, was served, and may have stored. *)
Definition stored_by (evs : list KeyEvent) cfg env m (key : string) : Prop :=
  asked evs cfg env ∧ served cfg env m ∧ ac_jwks_cache_s3_key cfg = key.

(** The keys in use are all those of one document: one the node was served in this
    life, or the copy, in the store when this life began, of one that a node with the
    same issuer had been served before, no longer ago than the node's window. *)
Definition keys_from cfg (before : list KeyEvent) n uses env0 life (c : JwksCache) : Prop :=
  (∃ env m, own_fetch n env0 life env ∧ served cfg env m ∧
     keys_of_value jwk_set (fm_jwks m) = Ok (jc_keys c) ∧ jc_fetched_at_unix c = Some (ke_now env) ∧
     jc_endpoint c = Some (fm_jwks_endpoint m) ∧ jc_stale_mode c = false) ∨
  (∃ cfg' env m, uses = true ∧ stored_by before cfg' env m (ac_jwks_cache_s3_key cfg) ∧
     ac_issuer_url cfg' = ac_issuer_url cfg ∧ (ke_now env0 ≤ ke_now env + ac_jwks_max_stale_seconds cfg)%N ∧
     keys_of_value jwk_set (fm_jwks m) = Ok (jc_keys c) ∧ jc_fetched_at_unix c = Some (ke_now env) ∧
     jc_stale_mode c = true).
(** The same of the endpoints in use. *)
Definition endpoints_from cfg (before : list KeyEvent) n uses env0 life (di : OidcDiscovery) : Prop :=
  (∃ env m, own_fetch n env0 life env ∧ served cfg env m ∧ fm_discovery m = di) ∨
  (∃ cfg' env m, uses = true ∧ stored_by before cfg' env m (ac_jwks_cache_s3_key cfg) ∧
     ac_issuer_url cfg' = ac_issuer_url cfg ∧ (ke_now env0 ≤ ke_now env + ac_jwks_max_stale_seconds cfg)%N ∧
     fm_discovery m = di).

Lemma refresh_from_value_cases c v at' stale e c' r :
  refresh_from_value jwk_set c v at' stale e = (c', r) →
  (∃ keys, keys_of_value jwk_set v = Ok keys ∧ r = Ok (length keys) ∧
     c' = MkJwksCache keys (Some at') stale (Some e) (jc_refresh_failures c)) ∨
  (c' = c ∧ is_ok r = false).
Proof. unfold refresh_from_value. destruct (keys_of_value jwk_set v); simpl; intros [= <- <-]; eauto. Qed.

Lemma install_cached_Ok cfg env c doc c' discovery :
  install_cached_document jwk_set cfg env c doc = (c', Ok discovery) →
  cd_issuer_url doc = ac_issuer_url cfg ∧ (ke_now env ≤ cd_fetched_at_unix doc + ac_jwks_max_stale_seconds cfg)%N ∧
  from_document (cd_discovery doc) (cd_issuer_internal_url doc) (ac_issuer_url cfg) = Ok discovery ∧
  keys_of_value jwk_set (cd_jwks doc) = Ok (jc_keys c') ∧ jc_fetched_at_unix c' = Some (cd_fetched_at_unix doc) ∧
  jc_stale_mode c' = true.
Proof.
  unfold install_cached_document. case_bool_decide as Hi; [|done]. simpl.
  destruct (within_stale_window _ _ _) eqn:Hw; [|done]. simpl.
  intros (di & Hdi & H)%try_with_Ok.
  apply bool_decide_eq_true in Hw. unfold age_seconds, U64.saturating_sub in Hw.
  destruct (refresh_from_value _ _ _ _ _ _) as [c1 r] eqn:E.
  apply refresh_from_value_cases in E as [(keys & Hk & -> & ->)|[-> Hr]]; [|by destruct r].
  injection H as <- <-. split_and!; try done. lia.
Qed.

Lemma install_fresh_cases cfg env c copy m c' copy' r :
  install_fresh_material jwk_set cfg env c copy m = (c', copy', r) →
  (r = Ok () ∧ ∃ keys, keys_of_value jwk_set (fm_jwks m) = Ok keys ∧
     c' = MkJwksCache keys (Some (fm_fetched_at_unix m)) false (Some (fm_jwks_endpoint m)) (jc_refresh_failures c) ∧
     copy' = store copy (ke_store_ok env) (document_of cfg m)) ∨
  (is_ok r = false ∧ c' = c ∧ copy' = copy).
Proof.
  unfold install_fresh_material. destruct (refresh_from_value _ _ _ _ _ _) as [c1 r1] eqn:E.
  apply refresh_from_value_cases in E as [(keys & Hk & -> & ->)|[-> Hr]].
  - intros [= <- <- <-]. left. split; [done|]. by exists keys.
  - destruct r1; [done|..]; intros [= <- <- <-]; by right.
Qed.

(** What a refresh does to a service: all of the new material, or none of it. *)
Lemma refresh_cases cfg env sv copy sv' copy' r :
  refresh_jwks_once jwk_set cfg env sv copy = (sv', copy', r) →
  (r = Ok () ∧ ∃ m, served cfg env m ∧ keys_of_value jwk_set (fm_jwks m) = Ok (jc_keys (sv_cache sv')) ∧
     sv_discovery sv' = fm_discovery m ∧ jc_fetched_at_unix (sv_cache sv') = Some (ke_now env) ∧
     jc_stale_mode (sv_cache sv') = false ∧ copy' = store copy (ke_store_ok env) (document_of cfg m)) ∨
  (r ≠ Ok () ∧ sv_discovery sv' = sv_discovery sv ∧ copy' = copy ∧
   jc_keys (sv_cache sv') = jc_keys (sv_cache sv) ∧
   jc_fetched_at_unix (sv_cache sv') = jc_fetched_at_unix (sv_cache sv) ∧
   jc_stale_mode (sv_cache sv') = jc_stale_mode (sv_cache sv)).
Proof.
  unfold refresh_jwks_once. destruct (fetch_fresh_auth_material cfg env) as [m|e|] eqn:Ef.
  - destruct (install_fresh_material _ _ _ _ _ _) as [[c copy''] r'] eqn:Ei.
    apply install_fresh_cases in Ei as [(-> & keys & Hk & -> & ->)|(Hr & -> & ->)].
    + intros [= <- <- <-]. left. split; [done|]. exists m. apply fetch_fresh_served in Ef.
      pose proof Ef as (i & j & _ & _ & _ & _ & _ & Hnow & _). simpl. by rewrite Hnow.
    + destruct r' as [[]|e|]; [done|..]; intros [= <- <- <-]; right; by split_and!.
  - intros [= <- <- <-]. right. by split_and!.
  - intros [= <- <- <-]. right. by split_and!.
Qed.

(** What a start does: the material it was served, the copy it found, or no service. *)
Lemma start_cases cfg env copy copy' r :
  AuthService_new jwk_set base64_bytes cfg env copy = (copy', r) →
  (∃ m sv, r = Ok sv ∧ served cfg env m ∧ copy' = store copy (ke_store_ok env) (document_of cfg m) ∧
     keys_of_value jwk_set (fm_jwks m) = Ok (jc_keys (sv_cache sv)) ∧
     jc_fetched_at_unix (sv_cache sv) = Some (ke_now env) ∧ jc_endpoint (sv_cache sv) = Some (fm_jwks_endpoint m) ∧
     jc_stale_mode (sv_cache sv) = false ∧ sv_discovery sv = fm_discovery m) ∨
  (∃ doc c sv, r = Ok sv ∧ copy = Some (Some doc) ∧ copy' = copy ∧
     install_cached_document jwk_set cfg env c doc = (sv_cache sv, Ok (sv_discovery sv))) ∨
  (is_ok r = false ∧ copy' = copy).
Proof.
  unfold AuthService_new. destruct (decode_secrets _ _) as [[signing session]|e|]; simpl;
    [|intros [= <- <-]; by right; right..].
  destruct (fetch_fresh_auth_material cfg env) as [m|e|] eqn:Ef; [| |intros [= <- <-]; by right; right].
  - destruct (install_fresh_material _ _ _ _ _ _) as [[c copy''] r'] eqn:Ei.
    apply install_fresh_cases in Ei as [(-> & keys & Hk & -> & ->)|(Hr & -> & ->)].
    + intros [= <- <-]. left. apply fetch_fresh_served in Ef. eexists m, _. split; [done|].
      pose proof Ef as (i & j & _ & _ & _ & _ & _ & Hnow & _). simpl. rewrite Hnow. by split_and!.
    + intros [= <- <-]. right; right. by destruct r' as [[]| |].
  - destruct (load_cached_material _ _ _ _ _ _) as [c r'] eqn:El. intros [= <- <-].
    destruct r' as [di|e'|]; [|by right; right..]. right; left. revert El. unfold load_cached_material.
    destruct copy as [held|]; [|done]. intros (loaded & Hl & Hi)%try_with_Ok.
    destruct loaded as [doc|]; [|done]. exists doc. eexists _, _. split; [done|]. split; [|by split].
    unfold load in Hl. destruct (ke_load_error env) as [[]|]; [|done..|congruence]. by case_match.
Qed.

Lemma own_fetch_app n env0 life l env : own_fetch n env0 life env → own_fetch n env0 (life ++ l) env.
Proof. intros [->|[t Ht]]; [by left|]. right. exists t. set_solver. Qed.
Lemma asked_app evs l cfg env : asked evs cfg env → asked (evs ++ l) cfg env.
Proof.
  intros (before & n & uses & env0 & life & rest & -> & Hl & Ho).
  exists before, n, uses, env0, life, (rest ++ l). split; [|done]. by rewrite <-app_assoc, <-app_comm_cons, <-app_assoc.
Qed.
Lemma stored_by_app evs l cfg env m key : stored_by evs cfg env m key → stored_by (evs ++ l) cfg env m key.
Proof. intros (Ha & Hs). split; [by apply asked_app|done]. Qed.

Definition phase_material (ph : RefreshPhase) : option FreshAuthMaterial :=
  match ph with Installing m | Storing m | Publishing m => Some m | Failing => None end.
(** A node's keys, endpoints and refreshes under way, as its life explains them. *)
Definition life_explains before n env0 (life : list KeyEvent) (nd : KeyNode) : Prop :=
  keys_from (nd_cfg nd) before n (nd_uses_copy nd) env0 life (sv_cache (nd_service nd)) ∧
  endpoints_from (nd_cfg nd) before n (nd_uses_copy nd) env0 life (sv_discovery (nd_service nd)) ∧
  ∀ t ph m, nd_refreshing nd !! t = Some ph → phase_material ph = Some m →
    ∃ env, own_fetch n env0 life env ∧ served (nd_cfg nd) env m.
Definition node_from (evs : list KeyEvent) n (nd : KeyNode) : Prop :=
  ∃ before env0 life,
    evs = before ++ EvStart n (nd_cfg nd) (nd_uses_copy nd) env0 :: life ∧ Forall (no_start n) life ∧
    life_explains before n env0 life nd.
Record explained (evs : list KeyEvent) (w : KeyWorld) : Prop := {
  ex_store key doc : kw_store w !! key = Some doc →
    ∃ cfg env m, stored_by evs cfg env m key ∧ doc = document_of cfg m;
  ex_nodes n nd : kw_nodes w !! n = Some nd → node_from evs n nd;
}.

Lemma life_explains_app before n env0 life l nd :
  life_explains before n env0 life nd → life_explains before n env0 (life ++ l) nd.
Proof.
  intros (Hk & He & Hr). split; [|split].
  - destruct Hk as [(env & m & Ho & Hm)|H]; [left|by right]. exists env, m. split; [by apply own_fetch_app|done].
  - destruct He as [(env & m & Ho & Hm)|H]; [left|by right]. exists env, m. split; [by apply own_fetch_app|done].
  - intros t ph m Ht Hph. destruct (Hr t ph m Ht Hph) as (env & Ho & Hs). exists env. split; [by apply own_fetch_app|done].
Qed.
(** The next event of a life, and what it makes of the node. *)
Lemma node_from_step evs ev n nd nd' :
  no_start n ev → node_from evs n nd → nd_cfg nd' = nd_cfg nd → nd_uses_copy nd' = nd_uses_copy nd →
  (∀ before env0 life, life_explains before n env0 (life ++ [ev]) nd → life_explains before n env0 (life ++ [ev]) nd') →
  node_from (evs ++ [ev]) n nd'.
Proof.
  intros Hev (before & env0 & life & -> & Hl & H) Hc Hu Hstep. exists before, env0, (life ++ [ev]).
  rewrite Hc, Hu. split; [by rewrite <-app_assoc|]. split; [apply Forall_app; by repeat constructor|].
  by apply Hstep, life_explains_app.
Qed.
Lemma node_from_app evs ev n nd : no_start n ev → node_from evs n nd → node_from (evs ++ [ev]) n nd.
Proof. intros. by eapply node_from_step. Qed.
Lemma explained_store_app evs ev w key doc :
  explained evs w → kw_store w !! key = Some doc →
  ∃ cfg env m, stored_by (evs ++ [ev]) cfg env m key ∧ doc = document_of cfg m.
Proof. intros H (cfg & env & m & Hs & ->)%(ex_store _ _ H). exists cfg, env, m. by split; [apply stored_by_app|]. Qed.

(** What a started node has is explained by its start. *)
Lemma started_from evs w n cfg uses env copy sv :
  explained evs w → AuthService_new jwk_set base64_bytes cfg env (copy_of w cfg uses) = (copy, Ok sv) →
  node_from (evs ++ [EvStart n cfg uses env]) n (MkKeyNode cfg uses sv ∅).
Proof.
  intros Hex Hs. exists evs, env, []. split; [done|]. split; [done|]. unfold life_explains. simpl.
  destruct (start_cases _ _ _ _ _ Hs) as [(m & sv' & [= ->] & Hm & _ & Hk & Ht & He & Hst & Hd)|
    [(doc & c & sv' & [= ->] & Hcopy & _ & Hi)|[]]]; [..|done]; simpl.
  - split; [left; exists env, m|split; [left; exists env, m|by intros t ph m' Ht']];
      by (split; [left|split_and!]).
  - unfold copy_of in Hcopy. destruct uses; [|done]. injection Hcopy as Hdoc.
    destruct (ex_store _ _ Hex _ _ Hdoc) as (cfg' & env' & m & Hby & ->).
    apply install_cached_Ok in Hi as (Hiss & Hw & Hdi & Hk & Ht & Hst). simpl in *.
    pose proof Hby as (_ & (i & j & _ & _ & Hdi' & _ & _ & Hnow & _) & _). rewrite Hnow in *.
    rewrite <-Hiss in Hdi. assert (fm_discovery m = sv_discovery sv') as Hd by congruence.
    split; [right; exists cfg', env', m|split; [right; exists cfg', env', m|by intros t ph m' Ht']];
      by split_and!.
Qed.

Lemma own_asked before n cfg uses env0 life env :
  Forall (no_start n) life → own_fetch n env0 life env →
  asked (before ++ EvStart n cfg uses env0 :: life) cfg env.
Proof. intros. exists before, n, uses, env0, life, []. by rewrite app_nil_r. Qed.

Lemma start_explained evs w n cfg uses env :
  explained evs w → explained (evs ++ [EvStart n cfg uses env]) (start_auth_node jwk_set base64_bytes w n cfg uses env).
Proof.
  intros Hex. unfold start_auth_node. destruct (AuthService_new _ _ _ _ _) as [copy r] eqn:Hs.
  assert (∀ key doc, put_copy (kw_store w) (ac_jwks_cache_s3_key cfg) copy !! key = Some doc →
    ∃ cfg' env' m, stored_by (evs ++ [EvStart n cfg uses env]) cfg' env' m key ∧ doc = document_of cfg' m) as Hstore.
  { intros key doc. unfold put_copy. destruct copy as [[doc'|]|]; [|by apply explained_store_app..].
    intros [[<- <-]|[_ Hk]]%lookup_insert_Some; [|by eapply explained_store_app].
    apply start_cases in Hs as [(m & sv & _ & Hm & Hcopy & _)|Hs].
    - unfold copy_of, store in Hcopy. destruct uses; [|done]. simpl in Hcopy. destruct (ke_store_ok env).
      + injection Hcopy as ->. exists cfg, env, m. split; [|done]. split; [|done].
        apply (own_asked evs n cfg true env [] env); [done|by left].
      + injection Hcopy as Hk. by eapply explained_store_app.
    - assert (copy_of w cfg uses = Some (Some doc')) as Hc by (destruct Hs as [(?&?&?&_&_&<-&_)|[_ <-]]; done).
      unfold copy_of in Hc. destruct uses; [|done]. injection Hc as Hc. by eapply explained_store_app. }
  assert (∀ n' nd, n' ≠ n → kw_nodes w !! n' = Some nd → node_from (evs ++ [EvStart n cfg uses env]) n' nd) as Hother.
  { intros n' nd Hne Hn. apply node_from_app; [done|]. by apply (ex_nodes _ _ Hex). }
  destruct r as [sv|e|]; split; try exact Hstore; simpl; intros n' nd.
  - intros [[<- <-]|[Hne Hn]]%lookup_insert_Some; [by eapply started_from|by apply Hother].
  - intros [Hne Hn]%lookup_delete_Some. by apply Hother.
  - intros [Hne Hn]%lookup_delete_Some. by apply Hother.
Qed.

Lemma fetch_explained evs w n t env w' :
  explained evs w → key_step jwk_set base64_bytes w (EvFetch n t env) = Some w' →
  explained (evs ++ [EvFetch n t env]) w'.
Proof.
  intros Hex (nd & Hn & H)%bind_Some. destruct (nd_refreshing nd !! t) eqn:Ht; [done|].
  apply bind_Some in H as (ph & Hph & [= <-]). split; simpl.
  { intros key doc. by apply explained_store_app. }
  intros n' nd' [[<- <-]|[Hne Hn']]%lookup_insert_Some;
    [|by apply node_from_app, (ex_nodes _ _ Hex)].
  eapply node_from_step; [done|by apply (ex_nodes _ _ Hex)|done..|].
  intros before env0 life (Hk & He & Hr). split; [done|]. split; [done|]. simpl.
  intros t' ph' m [[<- <-]|[_ Ht']]%lookup_insert_Some Hm; [|by eapply Hr].
  exists env. split; [right; exists t; set_solver|].
  destruct (fetch_fresh_auth_material _ env) eqn:Ef; simplify_eq/=. by apply fetch_fresh_served.
Qed.

Lemma refresh_step_explains before n env0 life nd t ph :
  nd_refreshing nd !! t = Some ph → life_explains before n env0 life nd →
  life_explains before n env0 life (refresh_step jwk_set nd t ph).
Proof.
  intros Ht (Hk & He & Hr).
  assert (∀ t' ph' m, delete t (nd_refreshing nd) !! t' = Some ph' → phase_material ph' = Some m →
    ∃ env, own_fetch n env0 life env ∧ served (nd_cfg nd) env m) as Hdel.
  { intros t' ph' m [_ H]%lookup_delete_Some. by apply (Hr t'). }
  assert (∀ ph1, phase_material ph1 = phase_material ph → ∀ t' ph' m, <[t := ph1]> (nd_refreshing nd) !! t' = Some ph' →
    phase_material ph' = Some m → ∃ env, own_fetch n env0 life env ∧ served (nd_cfg nd) env m) as Hins.
  { intros ph1 Hph1 t' ph' m [[<- <-]|[_ H]]%lookup_insert_Some; [rewrite Hph1; by apply (Hr t)|by apply (Hr t')]. }
  destruct ph as [m|m|m|]; simpl.
  - destruct (refresh_from_value _ _ _ _ _ _) as [c r] eqn:E.
    apply refresh_from_value_cases in E as [(keys & Hkeys & -> & ->)|[-> ->]]; simpl; [|by destruct nd as [? ? []]].
    destruct (Hr t _ m Ht eq_refl) as (env & Ho & Hs). split; [|split; [done|]]; simpl.
    + left. exists env, m. pose proof Hs as (i & j & _ & _ & _ & _ & _ & Hnow & _). rewrite Hnow. by split_and!.
    + apply Hins. by destruct (nd_uses_copy nd).
  - split; [done|]. split; [done|]. by apply Hins.
  - destruct (Hr t _ m Ht eq_refl) as (env & Ho & Hs). split; [done|]. split; [|done]. left. by exists env, m.
  - split; [|by split]. by destruct (sv_cache (nd_service nd)).
Qed.

Lemma step_explained evs w n t written w' :
  explained evs w → key_step jwk_set base64_bytes w (EvStep n t written) = Some w' →
  explained (evs ++ [EvStep n t written]) w'.
Proof.
  intros Hex (nd & Hn & (ph & Ht & [= <-])%bind_Some)%bind_Some. pose proof (ex_nodes _ _ Hex _ _ Hn) as Hnd.
  split; simpl.
  - intros key doc. unfold put_copy, refresh_stores.
    destruct ph as [m|m|m|]; try by apply explained_store_app. destruct written; [|by apply explained_store_app].
    intros [[<- <-]|[_ Hk]]%lookup_insert_Some; [|by eapply explained_store_app].
    destruct Hnd as (before & env0 & life & -> & Hl & _ & _ & Hr).
    destruct (Hr t _ m Ht eq_refl) as (env & Ho & Hs). exists (nd_cfg nd), env, m. split; [|done].
    split; [|done]. by apply asked_app, own_asked.
  - intros n' nd' [[<- <-]|[_ Hn']]%lookup_insert_Some; [|by apply node_from_app, (ex_nodes _ _ Hex)].
    apply (node_from_step _ _ _ nd); [done..| | |by intros; apply refresh_step_explains];
      destruct ph; simpl; try done; destruct (refresh_from_value _ _ _ _ _ _) as [? []]; done.
Qed.

Definition no_nodes : KeyWorld := MkKeyWorld ∅ ∅.
Lemma run_explained evs w : key_run jwk_set base64_bytes no_nodes evs = Some w → explained evs w.
Proof.
  revert w. induction evs as [|ev evs IH] using rev_ind; intros w.
  { intros [= <-]. split; simpl; [intros ? ? ?%lookup_empty_Some|intros ? ? ?%lookup_empty_Some]; done. }
  unfold key_run. rewrite foldl_app. simpl. intros (w0 & Hrun & Hstep)%bind_Some. apply IH in Hrun.
  destruct ev as [n cfg uses env|n t env|n t written].
  - injection Hstep as <-. by apply start_explained.
  - by eapply fetch_explained.
  - by eapply step_explained.
Qed.

Lemma fetch_fresh_no_panic cfg env : fetch_fresh_auth_material cfg env ≠ Panic.
Proof.
  unfold fetch_fresh_auth_material. generalize (issuer_internal_urls cfg), 0, (@nil message).
  induction l as [|u l IH]; intros i errors; [done|]. simpl.
  destruct (fetch_auth_material_from_issuer cfg env i u) eqn:E; [done|apply IH|]. revert E.
  unfold fetch_auth_material_from_issuer, fetch_document, from_document.
  pose proof (fetch_json_no_panic "discovery" (ke_discovery env i u)).
  destruct (fetch_json _ _) as [doc| |]; simpl; [|done..].
  destruct (doc_str doc "authorization_endpoint"); simpl; [|done].
  destruct (doc_str doc "token_endpoint"); simpl; [|done].
  destruct (doc_str doc "jwks_uri"); simpl; [|done].
  by destruct (try_endpoints _ _ _ _) as [|[]].
Qed.
Lemma keys_no_panic v : keys_of_value jwk_set v ≠ Panic.
Proof.
  unfold keys_of_value. destruct (jwk_set v) as [|l]; [done|].
  induction l as [|[kid [m|key]] l IH]; simpl; [done..|]. by destruct (convert_keys l).
Qed.

Lemma put_copy_same store key : put_copy store key (Some (store !! key)) = store.
Proof. unfold put_copy. destruct (store !! key) eqn:E; [|done]. by apply insert_id. Qed.

Lemma key_run_cons w ev evs :
  key_run jwk_set base64_bytes w (ev :: evs) =
    (w' ← key_step jwk_set base64_bytes w ev; key_run jwk_set base64_bytes w' evs).
Proof.
  unfold key_run. simpl. destruct (key_step _ _ w ev) as [w'|]; [done|]. simpl. by induction evs.
Qed.
Lemma refresh_step_run w n nd t ph written :
  kw_nodes w !! n = Some nd → nd_refreshing nd !! t = Some ph →
  key_step jwk_set base64_bytes w (EvStep n t written) =
    Some (MkKeyWorld (<[n := refresh_step jwk_set nd t ph]> (kw_nodes w))
            (put_copy (kw_store w) (ac_jwks_cache_s3_key (nd_cfg nd)) (refresh_stores nd ph written))).
Proof. intros Hn Ht. simpl. rewrite Hn. simpl. by rewrite Ht. Qed.

(** [refresh_jwks_once] is what the steps of one refresh do when nothing comes between
    them. *)
Lemma refresh_alone w n nd t env :
  kw_nodes w !! n = Some nd → nd_refreshing nd !! t = None →
  ∃ k, key_run jwk_set base64_bytes w (EvFetch n t env :: replicate k (EvStep n t (ke_store_ok env))) =
    let '(sv', copy', _) := refresh_jwks_once jwk_set (nd_cfg nd) env (nd_service nd)
                              (copy_of w (nd_cfg nd) (nd_uses_copy nd)) in
    Some (MkKeyWorld (<[n := MkKeyNode (nd_cfg nd) (nd_uses_copy nd) sv' (nd_refreshing nd)]> (kw_nodes w))
            (put_copy (kw_store w) (ac_jwks_cache_s3_key (nd_cfg nd)) copy')).
Proof.
  intros Hn Ht.
  assert (∀ uses, put_copy (kw_store w) (ac_jwks_cache_s3_key (nd_cfg nd)) (copy_of w (nd_cfg nd) uses) = kw_store w)
    as Hsame by (intros []; [apply put_copy_same|done]).
  unfold refresh_jwks_once. pose proof (fetch_fresh_no_panic (nd_cfg nd) env) as Hp.
  destruct nd as [cfg uses sv running]. simpl in *.
  destruct (fetch_fresh_auth_material cfg env) as [m|e|] eqn:Ef; [| |done].
  - unfold install_fresh_material, refresh_from_value. pose proof (keys_no_panic (fm_jwks m)) as Hkp.
    destruct (keys_of_value jwk_set (fm_jwks m)) as [keys|e|] eqn:Ek; [| |done]; simpl.
    + destruct uses; [exists 3|exists 2]; rewrite key_run_cons; simpl; rewrite Hn; simpl; rewrite Ht, Ef; simpl;
        repeat (rewrite key_run_cons; erewrite refresh_step_run by (simpl; apply lookup_insert_eq); simpl;
                unfold refresh_from_value; rewrite ?Ek; simpl; rewrite ?insert_insert_eq);
        unfold key_run; simpl; rewrite ?delete_insert_id by done; try done.
      destruct (ke_store_ok env); [done|]. exact (f_equal (λ x, Some (MkKeyWorld _ x)) (eq_sym (Hsame true))).
    + exists 1. rewrite key_run_cons; simpl; rewrite Hn; simpl; rewrite Ht, Ef; simpl.
      rewrite key_run_cons; erewrite refresh_step_run by (simpl; apply lookup_insert_eq); simpl.
      unfold refresh_from_value; rewrite Ek; simpl; rewrite ?insert_insert_eq, delete_insert_id by done.
      unfold key_run. simpl. by rewrite Hsame.
  - exists 1. rewrite key_run_cons; simpl; rewrite Hn; simpl; rewrite Ht, Ef; simpl.
    rewrite key_run_cons; erewrite refresh_step_run by (simpl; apply lookup_insert_eq); simpl.
    rewrite ?insert_insert_eq, delete_insert_id by done. unfold key_run. simpl. by rewrite Hsame.
Qed.

(** C19: the signing keys of the identity provider that a node accepts were served by
    an endpoint the settings name. However the refreshes of all nodes overlap, step by
    step, and whatever the endpoints answer and the object store loses: the key set in
    use at a node is, as a whole, that of one document which an endpoint configured at
    that node served it since its last start, where every issuer and endpoint tried
    before had failed; or, marked as stale, that of the stored copy, found at the last
    start, of a document served to a node of the same issuer before, no longer before
    that start than the configured window. The endpoints in use come from such a
    document too. A refresh that no other step comes between takes both from the one
    document it was served, or changes neither. *)
Theorem keys_genuine evs w n nd
    (Hrun : key_run jwk_set base64_bytes no_nodes evs = Some w) (Hnode : kw_nodes w !! n = Some nd) :
  (∃ before env0 life,
     evs = before ++ EvStart n (nd_cfg nd) (nd_uses_copy nd) env0 :: life ∧ Forall (no_start n) life ∧
     keys_from (nd_cfg nd) before n (nd_uses_copy nd) env0 life (sv_cache (nd_service nd)) ∧
     endpoints_from (nd_cfg nd) before n (nd_uses_copy nd) env0 life (sv_discovery (nd_service nd))) ∧
  ∀ t env, nd_refreshing nd !! t = None →
    ∃ k w' sv', key_run jwk_set base64_bytes w (EvFetch n t env :: replicate k (EvStep n t (ke_store_ok env))) = Some w' ∧
      kw_nodes w' = <[n := MkKeyNode (nd_cfg nd) (nd_uses_copy nd) sv' (nd_refreshing nd)]> (kw_nodes w) ∧
      ((∃ m, served (nd_cfg nd) env m ∧ keys_of_value jwk_set (fm_jwks m) = Ok (jc_keys (sv_cache sv')) ∧
          sv_discovery sv' = fm_discovery m ∧ jc_stale_mode (sv_cache sv') = false) ∨
       (jc_keys (sv_cache sv') = jc_keys (sv_cache (nd_service nd)) ∧
        sv_discovery sv' = sv_discovery (nd_service nd) ∧ kw_store w' = kw_store w)).
Proof.
  split.
  - destruct (ex_nodes _ _ (run_explained _ _ Hrun) _ _ Hnode) as (before & env0 & life & Hevs & Hl & Hk & He & _).
    by exists before, env0, life.
  - intros t env Ht. destruct (refresh_alone w n nd t env Hnode Ht) as [k Hk].
    destruct (refresh_jwks_once _ _ _ _ _) as [[sv' copy'] r] eqn:Er.
    eexists k, _, sv'. split; [exact Hk|]. split; [done|]. simpl.
    apply refresh_cases in Er as [(_ & m & Hm & Hkeys & Hd & _ & Hs & _)|(_ & Hd & -> & Hkeys & _)].
    + left. by exists m.
    + right. split_and!; [done..|]. unfold copy_of. destruct (nd_uses_copy nd); [apply put_copy_same|done].
Qed.

(** Nobody answers: no issuer gives a discovery document. *)
Definition down env : Prop := ∀ i u, is_err (fetch_document (ke_discovery env i u)) = true.
Lemma down_fails cfg env : down env → ∃ e, fetch_fresh_auth_material cfg env = Err e.
Proof.
  intros Hd. unfold fetch_fresh_auth_material. generalize (issuer_internal_urls cfg), 0, (@nil message).
  induction l as [|u l IH]; intros i errors; [by eexists|]. simpl.
  unfold fetch_auth_material_from_issuer. specialize (Hd i u).
  destruct (fetch_document _); try done. apply IH.
Qed.

(** A node can restart while the identity provider is down: once any node has
    refreshed its keys and stored the copy, a node with the same settings that starts
    no later than the window allows, and finds nobody to ask, comes up with the same
    keys and the same endpoints, marked as stale. *)
Theorem restart_survives_outage cfg sv copy env sv1 copy' secrets env'
    (Hcopy : is_Some copy) (Hstored : ke_store_ok env = true)
    (Hrefresh : refresh_jwks_once jwk_set cfg env sv copy = (sv1, copy', Ok ()))
    (Hsecrets : decode_secrets base64_bytes cfg = Ok secrets)
    (Hdown : down env') (Hload : ke_load_error env' = None)
    (Hwindow : (ke_now env' ≤ ke_now env + ac_jwks_max_stale_seconds cfg)%N) :
  ∃ sv2, AuthService_new jwk_set base64_bytes cfg env' copy' = (copy', Ok sv2) ∧
    jc_keys (sv_cache sv2) = jc_keys (sv_cache sv1) ∧ sv_discovery sv2 = sv_discovery sv1 ∧
    jc_stale_mode (sv_cache sv2) = true ∧ jc_fetched_at_unix (sv_cache sv2) = Some (ke_now env).
Proof.
  apply refresh_cases in Hrefresh as [(_ & m & Hm & Hk & Hd & _ & _ & ->)|[Hr _]]; [|done].
  destruct Hm as (i & j & Hi & _ & Hdi & _ & _ & Hnow & _). destruct Hcopy as [held ->].
  destruct (down_fails cfg env' Hdown) as [e He].
  unfold AuthService_new. rewrite Hsecrets. simpl. destruct secrets as [signing session]. rewrite He.
  unfold load_cached_material. simpl. rewrite Hstored. unfold load. rewrite Hload. simpl.
  unfold install_cached_document, within_stale_window, age_seconds, U64.saturating_sub. simpl.
  rewrite bool_decide_eq_true_2 by done. simpl. rewrite Hnow.
  rewrite bool_decide_eq_true_2 by lia. simpl. rewrite Hdi. simpl.
  unfold refresh_from_value. rewrite Hk. simpl. eexists. by split_and!.
Qed.
End provenance.

(** * A concrete identity provider *)

(** Texts that stand for the JSON documents of the provider. *)
Definition discovery_tree : JsonTree :=
  JObj [("authorization_endpoint", JStr "https://idp.example.com/authorize");
        ("token_endpoint", JStr "https://idp.example.com/token");
        ("jwks_uri", JStr "https://idp.example.com/keys");
        ("end_session_endpoint", JStr "https://idp.example.com/logout")].
Definition keys_tree : JsonTree := JArr [JObj [("kid", JStr "k1"); ("k", JStr "secret")]].
Definition idp_texts (text : string) : option JsonTree :=
  if bool_decide (text = "discovery") then Some discovery_tree
  else if bool_decide (text = "keys") then Some keys_tree
  else if bool_decide (text = "error") then Some (JObj [("error", JStr "unavailable")])
  else if bool_decide (text = "tokens") then
    Some (JObj [("access_token", JStr "k1/secret/layerhouse/sub-1/9000");
                ("id_token", JStr "k1/secret/layerhouse/sub-1/8000"); ("expires_in", JNum 28800)])
  else if bool_decide (text = "discovery2") then
    Some (JObj [("authorization_endpoint", JStr "https://idp.example.com/authorize");
                ("token_endpoint", JStr "https://idp.example.com/token2"); ("jwks_uri", JStr "https://idp.example.com/keys2")])
  else if bool_decide (text = "keys2") then Some (JArr [JObj [("kid", JStr "k2"); ("k", JStr "secret2")]])
  else None.
Definition idp_json : SerdeJson := json_tree (λ b, idp_texts (String.string_of_list_byte b)).

(** Tokens of the provider are [kid/secret/audience/subject/exp]. *)
Definition idp_jwt : @Jwt idp_json := {|
  jwt_encode _ := inl [Lit "unsupported claims"];
  jwt_decode _ _ := None;
  jwt_header token := '(kid, _) ← Str.split_once "/" token; Some (Some kid);
  DecodingKey := string;
  jwt_verify key now audience _ token :=
    match Str.split "/" token with
    | [_; secret; aud; subject; exp] =>
        exp ← Str.parse_u64 exp;
        if bool_decide (secret = key ∧ aud = audience) && (now <=? exp)%N then
          Some (MkTokenClaims subject exp (Some (One aud)) (Some ["dev"]) (Some "Alice") (Some "alice") None None [] None
                  None None None)
        else None
    | _ => None
    end;
|}.
#[local] Existing Instance idp_json.
#[local] Existing Instance idp_jwt.

Definition idp_jwk_set (v : @Value idp_json) : message + list (option string * (message + @DecodingKey _ idp_jwt)) :=
  match v with
  | JArr l => inr (map (λ x, (doc_str x "kid", from_option inr (inl [Lit "unsupported key"]) (doc_str x "k"))) l)
  | _ => inl [Lit "missing field keys"]
  end.
(** Keys are 32 bytes long; everything else is no base64. *)
Definition idp_base64 (s : string) : message + list Byte.byte :=
  if bool_decide (String.length s = 32) then inr (String.list_byte_of_string s) else inl [Lit "invalid length"].

Definition idp_config : AuthConfig :=
  MkAuthConfig (MkTokenConfig "oidc" "layerhouse" "https://idp.example.com" "groups" None "https://registry/v2/token" [])
    None ["http://idp-0:9000/"; " http://idp-1:9000/ "] [] "client-secret" "https://registry/oauth2/callback" None
    "openid profile" "auth/jwks/last-good.json" 86400 ["0123456789abcdef0123456789abcdef"]
    "0123456789ABCDEF0123456789ABCDEF" CookieAuto.
Definition idp_up (now : N) : KeyEnv :=
  MkKeyEnv (λ _ _, Answered 200 "discovery") (λ _ _ _, Answered 200 "keys") now true None.
Definition idp_down (now : N) : KeyEnv :=
  MkKeyEnv (λ _ _, SendFailed [Lit "connection refused"]) (λ _ _ _, SendFailed [Lit "connection refused"]) now true None.
(** The first issuer's endpoint for keys answers with an error, in JSON; the second
    one works. *)
Definition idp_degraded (now : N) : KeyEnv :=
  MkKeyEnv (λ _ _, Answered 200 "discovery")
    (λ i _ _, if bool_decide (i = 0) then Answered 503 "error" else Answered 200 "keys") now true None.

Definition idp_discovery : OidcDiscovery :=
  MkOidcDiscovery "https://idp.example.com/authorize" "http://idp-0:9000/token" "http://idp-0:9000/keys"
    (Some "https://idp.example.com/logout").
Definition idp_cache (now : N) (stale : bool) (endpoint : string) (failures : N) : JwksCache :=
  MkJwksCache [("k1", "secret")] (Some now) stale (Some endpoint) failures.
Definition idp_service (c : JwksCache) : AuthService :=
  MkAuthService (String.list_byte_of_string "0123456789abcdef0123456789abcdef")
    (String.list_byte_of_string "0123456789ABCDEF0123456789ABCDEF") idp_discovery c.
Definition idp_copy (now : N) : CachedJwksDocument :=
  MkCachedJwksDocument 1 "https://idp.example.com" "http://idp-0:9000/" discovery_tree keys_tree now.
Definition idp_fresh (now : N) : AuthService := idp_service (idp_cache now false "http://idp-0:9000/keys" 0).
Definition idp_stale (now : N) (failures : N) : AuthService :=
  idp_service (idp_cache now true "s3:auth/jwks/last-good.json" failures).

Lemma fresh_start : AuthService_new idp_jwk_set idp_base64 idp_config (idp_up 1000) (Some None) =
  (Some (Some (idp_copy 1000)), Ok (idp_fresh 1000)).
Proof. reflexivity. Qed.
Lemma stale_start : AuthService_new idp_jwk_set idp_base64 idp_config (idp_down 80000) (Some (Some (idp_copy 1000))) =
  (Some (Some (idp_copy 1000)), Ok (idp_stale 1000 1)).
Proof. reflexivity. Qed.

(** One node starts and stores its copy; a second one finds nobody to ask. *)
Definition two_starts : list KeyEvent :=
  [EvStart 0 idp_config true (idp_up 1000); EvStart 1 idp_config true (idp_down 80000)].
Lemma keys_genuine_witness :
  ∃ w nd env0, key_run idp_jwk_set idp_base64 no_nodes two_starts = Some w ∧ kw_nodes w !! 1 = Some nd ∧
    nd_service nd = idp_stale 1000 1 ∧
    keys_from idp_jwk_set (nd_cfg nd) [EvStart 0 idp_config true (idp_up 1000)] 1 true env0 [] (sv_cache (nd_service nd)).
Proof.
  assert (∃ w nd, key_run idp_jwk_set idp_base64 no_nodes two_starts = Some w ∧ kw_nodes w !! 1 = Some nd ∧
    nd_service nd = idp_stale 1000 1) as (w & nd & Hrun & Hnode & Hsv)
    by (eexists _, _; split; [reflexivity|]; split; reflexivity).
  exists w, nd.
  destruct (keys_genuine idp_jwk_set idp_base64 two_starts w 1 nd Hrun Hnode)
    as [(before & env0 & life & Heq & Hl & Hk & _) _].
  exists env0. split; [done|]. split; [done|]. split; [done|].
  assert (before = [EvStart 0 idp_config true (idp_up 1000)] ∧ life = [] ∧ nd_uses_copy nd = true) as (-> & -> & Hu).
  { destruct before as [|e0 [|e1 [|e2 before]]]; unfold two_starts in Heq; simpl in Heq; naive_solver. }
  by rewrite Hu in Hk.
Defined.

Lemma restart_survives_outage_witness :
  ∃ sv2, AuthService_new idp_jwk_set idp_base64 idp_config (idp_down 80000) (Some (Some (idp_copy 2000))) =
    (Some (Some (idp_copy 2000)), Ok sv2) ∧ jc_keys (sv_cache sv2) = [("k1", "secret")].
Proof.
  destruct (restart_survives_outage idp_jwk_set idp_base64 idp_config (idp_fresh 1000) (Some (Some (idp_copy 1000)))
    (idp_up 2000) (idp_fresh 2000) (Some (Some (idp_copy 2000)))
    (sv_signing_key (idp_fresh 0), sv_session_key (idp_fresh 0)) (idp_down 80000)) as (sv2 & H & Hk & _).
  - by eexists.
  - reflexivity.
  - reflexivity.
  - reflexivity.
  - intros i u. reflexivity.
  - reflexivity.
  - vm_compute. discriminate.
  - exists sv2. by rewrite Hk.
Defined.

(** * Defects *)

(** Two refreshes that overlap, of which the second is served newer documents: the
    node ends with the newer keys and the older endpoints, and the older document is
    what it leaves in the object store. *)
Definition idp_rotated (now : N) : KeyEnv :=
  MkKeyEnv (λ _ _, Answered 200 "discovery2") (λ _ _ _, Answered 200 "keys2") now true None.
Definition overlapping : list KeyEvent :=
  [EvStart 0 idp_config true (idp_up 1000); EvFetch 0 1 (idp_up 2000); EvFetch 0 2 (idp_rotated 3000);
   EvStep 0 1 true; EvStep 0 2 true; EvStep 0 2 true; EvStep 0 2 true; EvStep 0 1 true; EvStep 0 1 true].
Definition token_checks (w : KeyWorld) (n : nat) (key : string) : option (list string * string * N) :=
  match kw_nodes w !! n, kw_store w !! key with
  | Some nd, Some doc =>
      Some ((jc_keys (sv_cache (nd_service nd))).*1, od_token_endpoint (sv_discovery (nd_service nd)),
            cd_fetched_at_unix doc)
  | _, _ => None
  end.
Theorem overlapping_refreshes_mix :
  from_option (λ w, token_checks w 0 (ac_jwks_cache_s3_key idp_config)) None
    (key_run idp_jwk_set idp_base64 no_nodes overlapping) = Some (["k2"], "http://idp-0:9000/token", 2000%N).
Proof. vm_compute. reflexivity. Qed.

(** An endpoint that answers with an error status and a JSON body counts as one that
    gave keys: the next endpoint, which works, is not tried, and a node does not
    start although the copy in the object store is recent. *)
Theorem error_answer_stops_failover :
  (∃ e, AuthService_new idp_jwk_set idp_base64 idp_config (idp_degraded 2000) (Some (Some (idp_copy 1000))) =
     (Some (Some (idp_copy 1000)), Err e)) ∧
  (∃ m, fetch_auth_material_from_issuer idp_config (idp_degraded 2000) 1 "http://idp-1:9000/" = Ok m ∧
     is_ok (keys_of_value idp_jwk_set (fm_jwks m)) = true) ∧
  is_ok (AuthService_new idp_jwk_set idp_base64 idp_config (idp_down 2000) (Some (Some (idp_copy 1000)))).2 = true.
Proof. split_and!; [eexists|eexists; split|]; reflexivity. Qed.

(** The window is checked only when a node starts: one that came up with a copy keeps
    accepting tokens signed with its keys however long the outage lasts, long after
    the copy is too old to start with. *)
Theorem stale_keys_outlive_window :
  AuthService_new idp_jwk_set idp_base64 idp_config (idp_down 80000) (Some (Some (idp_copy 1000))) =
    (Some (Some (idp_copy 1000)), Ok (idp_stale 1000 1)) ∧
  (refresh_jwks_once idp_jwk_set idp_config (idp_down 1000000) (idp_stale 1000 1) (Some (Some (idp_copy 1000)))).1.1 =
    idp_stale 1000 2 ∧
  is_ok (verify_id_token (ac_token idp_config)
    (key_cache idp_jwk_set idp_config (idp_down 1000000) (idp_stale 1000 2) (Some (Some (idp_copy 1000)))) 1000000
    "k1/secret/layerhouse/sub-1/2000000") = true ∧
  is_ok (AuthService_new idp_jwk_set idp_base64 idp_config (idp_down 1000000) (Some (Some (idp_copy 1000)))).2 = false.
Proof. split_and!; [apply stale_start|reflexivity..]. Qed.

(** The public origin is matched as a text and not as an origin: an endpoint on
    another port of the issuer's host is rewritten to an address that is none. *)
Example rewritten_port :
  rewrite_base "https://idp.example.com:8443/token" "https://idp.example.com" "http://idp-0:9000/" =
    "http://idp-0:9000:8443/token" ∧
  rewrite_base "https://idp.example.com/token" "https://idp.example.com" "http://idp-0:9000/" = "http://idp-0:9000/token".
Proof. split; reflexivity. Qed.
