(* ===== verification/Login.v ===== *)
(** Login to the dashboard (crates/layerhouse-server/src/auth/oauth2.rs,
    auth/session.rs, routes/session_api.rs and the cookie flags of auth/mod.rs): the
    redirect to the identity provider, its callback, the encrypted session cookie and
    logout.

    Random bytes, the clock, the answer to the token exchange and the keys at each
    verification are arguments. The cipher, the base64 codecs and the JSON codec of a
    session are the class [Sealing]; what the code relies on is [SealingLaws]. *)

From Stdlib Require Import Ascii.
From stdpp Require Import options.
From S2P Require Import Prelude Errors Digests Manifests Permissions Principals Handles.
From S2P Require Import SyncRuns Types StateMachine Authorization Decisions Middleware Queries Tokens Pats Keys.
From S2P Require Import Samples.

#[local] Open Scope lh_scope.

(** * Cookies *)

Record CookieFlags := MkCookieFlags { cookie_secure : bool; cookie_same_site : string }.
Definition attributes (flags : CookieFlags) : string :=
  Str.join "; " (["HttpOnly"] ++ (if cookie_secure flags then ["Secure"] else []) ++ [cookie_same_site flags]).

Definition ascii_lower (a : ascii) : ascii := if Str.is_ascii_uppercase a then ascii_of_N (N_of_ascii a + 32) else a.
Fixpoint eq_ignore_ascii_case (s t : string) : bool :=
  match s, t with
  | EmptyString, EmptyString => true
  | String a s', String b t' => bool_decide (ascii_lower a = ascii_lower b) && eq_ignore_ascii_case s' t'
  | _, _ => false
  end.
(** [forwarded_proto] is the [X-Forwarded-Proto] header, if it is text. *)
Definition cookie_secure_flag (forwarded_proto : option string) (mode : CookieSecureMode) (server_tls_enabled : bool)
    : CookieFlags :=
  match mode with
  | CookieDisabled => MkCookieFlags false "SameSite=Lax"
  | CookieEnabled => MkCookieFlags true "SameSite=Lax"
  | CookieAuto =>
      let https := from_option (λ p, eq_ignore_ascii_case p "https") false forwarded_proto || server_tls_enabled in
      if https then MkCookieFlags true "SameSite=Lax" else MkCookieFlags false "SameSite=Lax"
  end.

(** The first cookie of a name; [header] is the first [Cookie] header, if it is text. *)
Definition extract_cookie (cookie name : string) : option string :=
  head (omap (λ part, '(key, value) ← Str.split_once "=" (Str.trim part);
                      if bool_decide (key = name) then Some value else None) (Str.split ";" cookie)).
Definition request_cookie (header : option string) (name : string) : option string :=
  cookie ← header; extract_cookie cookie name.

(** * Encodings *)

Fixpoint percent_encode (value : string) : string :=
  match value with
  | EmptyString => ""
  | String b value' =>
      if unreserved b then String b (percent_encode value')
      else String "%" (String (hex_digit (N_of_ascii b / 16)) (String (hex_digit (N_of_ascii b mod 16))
             (percent_encode value')))
  end.
Definition form_encode (fields : list (string * string)) : string :=
  Str.join "&" ((λ '(key, value), percent_encode key +:+ "=" +:+ percent_encode value) <$> fields).

(** * Sessions *)

(** AES-256-GCM, the JSON codec of sessions, [base64::STANDARD], and base64 without
    padding in the alphabet of URLs; SHA-256; which texts a header value can hold. *)
Class Sealing := {
  gcm_encrypt : list Byte.byte → list Byte.byte → list Byte.byte → message + list Byte.byte;
  gcm_decrypt : list Byte.byte → list Byte.byte → list Byte.byte → option (list Byte.byte);
  session_to_json : DashboardSession → message + list Byte.byte;
  session_from_json : list Byte.byte → message + DashboardSession;
  base64_encode : list Byte.byte → string;
  base64_decode : string → message + list Byte.byte;
  urlsafe_encode : list Byte.byte → string;
  sha256 : list Byte.byte → list Byte.byte;
  header_value_error : string → option message;
}.

Definition base64_char (a : ascii) : bool :=
  Str.is_ascii_alphanumeric a || bool_decide (a = "+"%char) || bool_decide (a = "/"%char) || bool_decide (a = "="%char).
Definition urlsafe_char (a : ascii) : bool :=
  Str.is_ascii_alphanumeric a || bool_decide (a = "-"%char) || bool_decide (a = "_"%char).
Class SealingLaws `{SE : Sealing} := {
  gcm_inverse key nonce p c : gcm_encrypt key nonce p = inr c → gcm_decrypt key nonce c = Some p;
  session_json_inverse s b : session_to_json s = inr b → session_from_json b = inr s;
  base64_inverse b : base64_decode (base64_encode b) = inr b;
  base64_alphabet b : Str.all base64_char (base64_encode b) = true;
  urlsafe_alphabet b : Str.all urlsafe_char (urlsafe_encode b) = true;
}.

Section login.
Context `{SJ : SerdeJson, OR : Openraft, EX : Externals, JW : !Jwt, CE : !Cedar, SE : Sealing}.
Context (uuid_ok : string → bool).

Definition encrypt (s : DashboardSession) (key nonce : list Byte.byte) : result string :=
  match session_to_json s with
  | inl e => Err (Serialization e)
  | inr plaintext =>
      match gcm_encrypt key nonce plaintext with
      | inl e => Err (Internal (Lit "encryption failed: " :: e))
      | inr ciphertext => Ok (base64_encode (nonce ++ ciphertext))
      end
  end.
Definition decrypt (encrypted : string) (key : list Byte.byte) : result DashboardSession :=
  match base64_decode encrypted with
  | inl e => Err (Internal (Lit "base64 decode failed: " :: e))
  | inr data =>
      if bool_decide (length data < 12) then Err (Internal [Lit "invalid session data"])
      else match gcm_decrypt key (take 12 data) (drop 12 data) with
           | None => Err (Internal [Lit "session decryption failed"])
           | Some plaintext =>
               match session_from_json plaintext with inl e => Err (Serialization e) | inr s => Ok s end
           end
  end.

(** * Responses *)

(** A response: its status, the location and the cookies it sets, in order. *)
Record LoginResponse := MkLoginResponse {
  lr_status : N;
  lr_location : option string;
  lr_cookies : list string;
}.
(** [Redirect::temporary(url).into_response()]. *)
Definition temporary (url : string) : LoginResponse :=
  match header_value_error url with
  | None => MkLoginResponse 307 (Some url) []
  | Some _ => MkLoginResponse 500 None []
  end.
Definition add_cookie (r : LoginResponse) (c : string) : LoginResponse :=
  MkLoginResponse (lr_status r) (lr_location r) (lr_cookies r ++ [c]).

Definition OAUTH2_COOKIE : string := "layerhouse_oauth2".
Definition OAUTH2_COOKIE_MAX_AGE_SECS : N := 600.
Definition OAUTH2_STATE_ERROR_LOCATION : string := "/?oauth_error=state#/oauth2/error".
Definition OAUTH2_SESSION_ERROR_LOCATION : string := "/?oauth_error=session#/oauth2/error".
Definition MAX_SET_COOKIE_HEADER_LEN : nat := 4096.

Definition oauth2_cookie_clear_str (flags : CookieFlags) : string :=
  "layerhouse_oauth2=; " +:+ attributes flags +:+ "; Path=/oauth2; Max-Age=0".
(** [HeaderValue::from_str(_).expect(_)]. *)
Definition expect_header (v : string) : result string :=
  match header_value_error v with None => Ok v | Some _ => Panic end.
Definition append_clear_oauth2_cookie (r : LoginResponse) (flags : CookieFlags) : result LoginResponse :=
  c ← expect_header (oauth2_cookie_clear_str flags); Ok (add_cookie r c).
Definition oauth2_error_response (location : string) (flags : CookieFlags) : result LoginResponse :=
  append_clear_oauth2_cookie (temporary location) flags.
Definition oauth2_state_error_response := oauth2_error_response OAUTH2_STATE_ERROR_LOCATION.
Definition oauth2_session_error_response := oauth2_error_response OAUTH2_SESSION_ERROR_LOCATION.

(** [HeaderValue::from_str(_).map_err(_)?]. *)
Definition header_or (what v : string) : result string :=
  match header_value_error v with None => Ok v | Some e => Err (Internal (Lit what :: e)) end.

(** * The start of a login *)

Definition random_urlsafe (bytes : list Byte.byte) : string := urlsafe_encode bytes.
Definition pkce_challenge (code_verifier : string) : string :=
  urlsafe_encode (sha256 (String.list_byte_of_string code_verifier)).

(** What a login request carries: its [Cookie] and [X-Forwarded-Proto] headers, and
    whether the server itself speaks TLS. *)
Record LoginRequest := MkLoginRequest {
  lq_cookie : option string;
  lq_forwarded_proto : option string;
  lq_server_tls : bool;
}.
Definition flags_of (mode : CookieSecureMode) (rq : LoginRequest) : CookieFlags :=
  cookie_secure_flag (lq_forwarded_proto rq) mode (lq_server_tls rq).

Definition start_params (cfg : AuthConfig) (state code_challenge : string) (require_login : bool) : list string :=
  ["response_type=code";
   "client_id=" +:+ percent_encode (cf_client_id (ac_token cfg));
   "redirect_uri=" +:+ percent_encode (ac_redirect_uri cfg);
   "scope=" +:+ percent_encode (ac_login_scopes cfg);
   "state=" +:+ percent_encode state;
   "code_challenge=" +:+ percent_encode code_challenge;
   "code_challenge_method=S256"]
  ++ (if require_login then ["prompt=login"; "max_age=0"] else []).
Definition start_cookie (state code_verifier : string) (flags : CookieFlags) : string :=
  OAUTH2_COOKIE +:+ "=" +:+ state +:+ "." +:+ code_verifier +:+ "; " +:+ attributes flags +:+
    "; Path=/oauth2; Max-Age=" +:+ Str.of_u64 OAUTH2_COOKIE_MAX_AGE_SECS.

(** [random_state] and [random_verifier] are 32 random bytes each. *)
Definition oauth2_start (auth : option (AuthConfig * OidcDiscovery)) (mode : CookieSecureMode) (rq : LoginRequest)
    (random_state random_verifier : list Byte.byte) : result LoginResponse :=
  '(cfg, discovery) ← ok_or (Internal [Lit "auth not configured"]) auth;
  let state := random_urlsafe random_state in
  let code_verifier := random_urlsafe random_verifier in
  let require_login := bool_decide (is_Some (request_cookie (lq_cookie rq) "layerhouse_logged_out")) in
  let auth_url := od_authorization_endpoint discovery +:+ "?" +:+
                  Str.join "&" (start_params cfg state (pkce_challenge code_verifier) require_login) in
  let flags := flags_of mode rq in
  c ← header_or "oauth2 cookie failed: " (start_cookie state code_verifier flags);
  let response := add_cookie (temporary auth_url) c in
  if require_login then
    clear ← expect_header ("layerhouse_logged_out=; " +:+ attributes flags +:+ "; Path=/; Max-Age=0");
    Ok (add_cookie response clear)
  else Ok response.

(** * The callback *)

(** [None] is the state error. *)
Definition oauth2_code_verifier (header : option string) (state : option string) : option string :=
  cookie ← request_cookie header OAUTH2_COOKIE;
  '(stored_state, code_verifier) ← Str.split_once "." cookie;
  if bool_decide (Some stored_state = state) then Some code_verifier else None.

(** The answer of the token endpoint to a form. *)
Definition exchange_tokens (a : HttpAnswer) : result Value :=
  match a with
  | ClientFailed m => Err (Internal (Lit "HTTP client build failed: " :: m))
  | RequestFailed m => Err (Internal (Lit "token request build failed: " :: m))
  | SendFailed m => Err (Internal (Lit "token exchange failed: " :: m))
  | ReadFailed m => Err (Internal (Lit "token read failed: " :: m))
  | Answered _ text => ok_or (Internal [Lit "token parse failed: "]) (from_slice (String.list_byte_of_string text))
  end.
Definition exchange_form (cfg : AuthConfig) (code code_verifier : string) : string :=
  form_encode [("grant_type", "authorization_code"); ("code", code); ("redirect_uri", ac_redirect_uri cfg);
               ("client_id", cf_client_id (ac_token cfg)); ("client_secret", ac_client_secret cfg);
               ("code_verifier", code_verifier)].

(** What a callback is told: the answer to the form it sends to a URL, the keys and the
    clock at the two verifications, the clock when the session is made, and a nonce. *)
Record CallbackEnv := MkCallbackEnv {
  cb_exchange : string → string → HttpAnswer;
  cb_id_keys : KeyCache;
  cb_id_now : N;
  cb_access_keys : KeyCache;
  cb_access_now : N;
  cb_now : N;
  cb_nonce : list Byte.byte;
}.

(** The groups of the access token, then those the ID token adds. *)
Definition merge_groups (access_groups id_groups : list string) : list string :=
  foldl (λ all g, if bool_decide (g ∈ all) then all else all ++ [g]) access_groups id_groups.

(** The seconds a session lasts: the shortest of the lifetime the provider states, the
    two tokens' and an hour. *)
Definition session_max_age (now expires_in id_expires_at access_expires_at : N) : N :=
  U64.saturating_sub (N.min (N.min (N.min (U64.add now expires_in) id_expires_at) access_expires_at) (U64.add now 3600))
    now.

(** The verified tokens of an answer. *)
Record VerifiedTokens := MkVerifiedTokens {
  vt_id_token : string;
  vt_id_claims : TokenClaims;
  vt_access_groups : list string;
  vt_access_exp : N;
  vt_expires_in : N;
}.
Definition verify_tokens (cfg : AuthConfig) (env : CallbackEnv) (token : Value) : result VerifiedTokens :=
  access_token ← ok_or (Internal [Lit "missing access_token"]) (doc_str token "access_token");
  id_token_str ← ok_or (Internal [Lit "missing id_token"]) (doc_str token "id_token");
  id_claims ← verify_id_token (ac_token cfg) (cb_id_keys env) (cb_id_now env) id_token_str;
  '(access_groups, access_subject, access_exp) ←
    verify_access_token (ac_token cfg) (cb_access_keys env) (cb_access_now env) access_token;
  if bool_decide (tc_subject id_claims = access_subject) then
    Ok (MkVerifiedTokens id_token_str id_claims access_groups access_exp
          (default 3600%N (json_get token "expires_in" ≫= json_as_u64)))
  else Err (Unauthorized [Lit "token subject mismatch"] None None None).

Definition new_session (cfg : AuthConfig) (vt : VerifiedTokens) (principal : ProviderQualifiedId) (expires_at : N)
    : DashboardSession :=
  let id_claims := vt_id_claims vt in
  let all_groups := merge_groups (vt_access_groups vt) (extract_groups id_claims (cf_group_claim (ac_token cfg))) in
  MkDashboardSession (tc_subject id_claims) principal (claims_username id_claims) (claims_display_name id_claims)
    (claims_email id_claims) all_groups (stable_group_ids uuid_ok (provider_name (ac_token cfg)) all_groups) expires_at.
Definition observed (cfg : AuthConfig) (s : DashboardSession) (principal : ProviderQualifiedId) (now : N)
    : ObservedIdentity :=
  MkObservedIdentity (ds_subject s) principal (ds_username s) (ds_display_name s) (ds_email s) (ds_groups s)
    (stable_group_ids uuid_ok (provider_name (ac_token cfg)) (ds_groups s)) now.

Definition session_cookie (value : string) (flags : CookieFlags) (max_age : N) : string :=
  "layerhouse_session=" +:+ value +:+ "; " +:+ attributes flags +:+ "; Path=/; Max-Age=" +:+ Str.of_u64 max_age.
Definition logout_hint_cookie (id_token : string) (flags : CookieFlags) (max_age : N) : string :=
  "layerhouse_logout_hint=" +:+ id_token +:+ "; " +:+ attributes flags +:+
    "; Path=/api/v1/session/logout; Max-Age=" +:+ Str.of_u64 max_age.

(** The response that carries the session. *)
Definition session_response (value id_token : string) (flags : CookieFlags) (max_age : N) : result LoginResponse :=
  let cookie := session_cookie value flags max_age in
  let hint := logout_hint_cookie id_token flags max_age in
  if bool_decide (MAX_SET_COOKIE_HEADER_LEN < String.length cookie) then oauth2_session_error_response flags
  else
    c ← header_or "session cookie failed: " cookie;
    let response := add_cookie (temporary "/") c in
    response ← (if bool_decide (String.length hint ≤ MAX_SET_COOKIE_HEADER_LEN) then
                  h ← header_or "logout hint cookie failed: " hint; Ok (add_cookie response h)
                else Ok response);
    append_clear_oauth2_cookie response flags.

(** The identity the callback records, if it gets that far (a failure to record it is
    only logged), and its response. *)
Definition oauth2_callback (auth : option (AuthConfig * AuthService)) (mode : CookieSecureMode) (rq : LoginRequest)
    (code state : option string) (env : CallbackEnv) : option ObservedIdentity * result LoginResponse :=
  match (code ← code; if Str.is_empty code then None else Some code) with
  | None => (None, Ok (temporary "/oauth2/start"))
  | Some code =>
      let flags := flags_of mode rq in
      match oauth2_code_verifier (lq_cookie rq) state with
      | None => (None, oauth2_state_error_response flags)
      | Some code_verifier =>
          try auth := ok_or (Internal [Lit "auth not configured"]) auth at None;
          let '(cfg, sv) := auth in
          try token := exchange_tokens (cb_exchange env (od_token_endpoint (sv_discovery sv))
                                          (exchange_form cfg code code_verifier)) at None;
          try vt := verify_tokens cfg env token at None;
          let now := cb_now env in
          let max_age := session_max_age now (vt_expires_in vt) (tc_exp (vt_id_claims vt)) (vt_access_exp vt) in
          if bool_decide (max_age = 0%N) then (None, oauth2_session_error_response flags)
          else
            try principal := user_principal (ac_token cfg) (tc_subject (vt_id_claims vt)) at None;
            let session := new_session cfg vt principal (U64.add now max_age) in
            let seen := Some (observed cfg session principal now) in
            try value := encrypt session (sv_session_key sv) (cb_nonce env) at seen;
            (seen, session_response value (vt_id_token vt) flags max_age)
      end
  end.

(** * The session interface *)

Record SessionResponse := MkSessionResponse {
  sr_auth_enabled : bool;
  sr_subject : option string;
  sr_principal : option string;
  sr_username : option string;
  sr_display_name : option string;
  sr_email : option string;
  sr_groups : list string;
  sr_group_ids : list string;
  sr_scopes : list string;
  sr_token_type : option string;
  sr_is_admin : bool;
}.
Definition token_type_name (t : TokenType) : string :=
  match t with
  | OidcAccess => "oidc_access" | PersonalAccess => "personal_access" | OciBearer => "oci_bearer" | Session => "session"
  end.
Definition get_session (auth : option (list ConfigPolicySet)) (who : option AuthIdentity) (rd : Reads)
    : SessionResponse :=
  match auth with
  | None => MkSessionResponse false None None None None None [] [] [] None true
  | Some config =>
      match who with
      | None => MkSessionResponse true None None None None None [] [] [] None false
      | Some i =>
          MkSessionResponse true (Some (id_subject i)) (Some (id_principal i)) (id_username i) (id_display_name i)
            (id_email i) (id_groups i) (id_group_ids i) (id_scopes i) (Some (token_type_name (id_token_type i)))
            (is_ok (check_admin_access config i rd))
      end
  end.

Definition logout_url (cfg : AuthConfig) : option string := trimmed (ac_logout_url cfg).
Definition end_session_url (auth : option (AuthConfig * OidcDiscovery)) (logout_hint : option string) : option string :=
  match auth, logout_hint with
  | Some (_, discovery), Some id_token =>
      (λ url, url +:+ "?id_token_hint=" +:+ id_token +:+ "&post_logout_redirect_uri=/") <$> od_end_session_endpoint discovery
  | _, _ => None
  end.
Definition logout_session (auth : option (AuthConfig * OidcDiscovery)) (mode : CookieSecureMode) (rq : LoginRequest)
    : result LoginResponse :=
  let logout_hint := request_cookie (lq_cookie rq) "layerhouse_logout_hint" in
  let end_url := end_session_url auth logout_hint in
  let idp_logout := match end_url with Some _ => end_url | None => '(cfg, _) ← auth; logout_url cfg end in
  let flags := flags_of mode rq in
  let response := temporary (default "/" idp_logout) in
  c1 ← expect_header ("layerhouse_session=; " +:+ attributes flags +:+ "; Path=/; Max-Age=0");
  c2 ← expect_header ("layerhouse_logout_hint=; " +:+ attributes flags +:+ "; Path=/api/v1/session/logout; Max-Age=0");
  let response := add_cookie (add_cookie response c1) c2 in
  if bool_decide (is_Some idp_logout) then Ok response
  else
    marker ← expect_header ("layerhouse_logged_out=1; " +:+ attributes flags +:+ "; Path=/; Max-Age=300");
    Ok (add_cookie response marker).
End login.

(** * Lemmas *)

(** One cookie of a name, with a value of harmless characters, is read back. *)
Definition cookie_char (a : ascii) : bool := graphic a && negb (bool_decide (a = ";"%char)).
Lemma cookie_parts name value :
  Str.all cookie_char name = true → Str.contains_char "=" name = false → Str.all cookie_char value = true →
  Str.split ";" (name +:+ "=" +:+ value) = [name +:+ "=" +:+ value] ∧
  Str.split_once "=" (Str.trim (name +:+ "=" +:+ value)) = Some (name, value).
Proof.
  intros Hn He Hv.
  assert (Str.all cookie_char (name +:+ "=" +:+ value) = true) as Hall.
  { rewrite !all_app, Hn, Hv. reflexivity. }
  split.
  - apply split_no_sep. by apply (all_not_contains cookie_char).
  - rewrite trim_graphic by (eapply all_impl; [|done]; intros a; unfold cookie_char; by destruct (graphic a)).
    by apply split_once_Some.
Qed.

Lemma base64_cookie_char a : base64_char a = true → cookie_char a = true.
Proof. destruct a as [[] [] [] [] [] [] [] []]; intros H; try discriminate H; reflexivity. Qed.
Lemma urlsafe_cookie_char a : urlsafe_char a = true → cookie_char a = true.
Proof. destruct a as [[] [] [] [] [] [] [] []]; intros H; try discriminate H; reflexivity. Qed.

Lemma session_max_age_bounds now e i a m :
  session_max_age now e i a = m → m ≠ 0%N →
  (m ≤ 3600 ∧ now + m ≤ now + e ∧ now + m ≤ i ∧ now + m ≤ a)%N ∧ U64.add now m = (now + m)%N.
Proof.
  unfold session_max_age, U64.saturating_sub, U64.add, U64.wrap. intros <- Hm.
  assert (0 < U64.modulus)%N as Hpos by done.
  pose proof (N.Div0.mod_le (now + e) U64.modulus). pose proof (N.Div0.mod_le (now + 3600) U64.modulus).
  pose proof (N.mod_upper_bound (now + e) U64.modulus ltac:(lia)).
  split; [lia|]. apply N.mod_small. lia.
Qed.

Section session_lemmas.
Context `{SL : SealingLaws}.

Lemma encrypt_decrypt s key nonce v :
  encrypt s key nonce = Ok v → length nonce = 12 → decrypt v key = Ok s ∧ Str.all base64_char v = true.
Proof using SL.
  unfold encrypt, decrypt. destruct (session_to_json s) as [|p] eqn:Ej; [done|].
  destruct (gcm_encrypt key nonce p) as [|c] eqn:Ec; [done|]. intros [= <-] Hn.
  split; [|apply base64_alphabet]. rewrite base64_inverse, bool_decide_eq_false_2 by (rewrite length_app; lia).
  rewrite take_app_length', drop_app_length' by done.
  by rewrite (gcm_inverse _ _ _ _ Ec), (session_json_inverse _ _ Ej).
Qed.
End session_lemmas.

(** * What a login proves *)

Section logins.
Context `{SJ : SerdeJson, OR : Openraft, EX : Externals, JW : !Jwt, SE : Sealing}.
Context (uuid_ok : string → bool).

Lemma error_response_location location flags r :
  oauth2_error_response location flags = Ok r → lr_location r = Some "/" → location = "/".
Proof.
  unfold oauth2_error_response, append_clear_oauth2_cookie, temporary.
  intros (c & _ & [= <-])%result_bind_Ok. destruct (header_value_error location); simpl; congruence.
Qed.

Lemma session_response_cookie v id_token flags max_age r :
  session_response v id_token flags max_age = Ok r → lr_location r = Some "/" →
  session_cookie v flags max_age ∈ lr_cookies r ∧ String.length (session_cookie v flags max_age) ≤ 4096.
Proof.
  unfold session_response. case_bool_decide as Hlen.
  { intros H Hl. by eapply error_response_location in H. }
  unfold MAX_SET_COOKIE_HEADER_LEN in Hlen.
  intros (c & Hc & (resp & Hr & (c' & _ & [= <-])%result_bind_Ok)%result_bind_Ok)%result_bind_Ok _.
  split; [|lia]. unfold header_or in Hc. destruct (header_value_error _); simplify_eq. simpl.
  apply elem_of_app. left. revert Hr. case_bool_decide.
  - intros (h & _ & [= <-])%result_bind_Ok. simpl. rewrite !elem_of_app. left. right. by left.
  - intros [= <-]. simpl. apply elem_of_app. right. by left.
Qed.

Lemma code_verifier_state header state v :
  oauth2_code_verifier header state = Some v →
  ∃ s, state = Some s ∧ request_cookie header OAUTH2_COOKIE = Some (s +:+ "." +:+ v).
Proof.
  unfold oauth2_code_verifier. intros (c & Hc & ([s v'] & Hs & H)%bind_Some)%bind_Some.
  case_bool_decide; simplify_eq. exists s. split; [done|]. apply split_once_Some in Hs as [-> _]. by rewrite Hc.
Qed.

Lemma verify_tokens_Ok cfg env token vt :
  verify_tokens cfg env token = Ok vt →
  ∃ access id, doc_str token "access_token" = Some access ∧ doc_str token "id_token" = Some id ∧ vt_id_token vt = id ∧
    verify_id_token (ac_token cfg) (cb_id_keys env) (cb_id_now env) id = Ok (vt_id_claims vt) ∧
    verify_access_token (ac_token cfg) (cb_access_keys env) (cb_access_now env) access =
      Ok (vt_access_groups vt, tc_subject (vt_id_claims vt), vt_access_exp vt) ∧
    vt_expires_in vt = default 3600%N (json_get token "expires_in" ≫= json_as_u64).
Proof.
  unfold verify_tokens. intros (access & Ha & H)%result_bind_Ok. apply result_bind_Ok in H as (id & Hi & H).
  apply result_bind_Ok in H as (claims & Hc & H). apply result_bind_Ok in H as ([[g s] e] & Hv & H).
  case_bool_decide; simplify_eq. exists access, id.
  destruct (doc_str token "access_token"), (doc_str token "id_token"); simplify_eq/=. by split_and!.
Qed.

(** The steps of a callback that ends with a session. *)
Lemma callback_session cfg sv mode rq code state env seen resp :
  oauth2_callback uuid_ok (Some (cfg, sv)) mode rq code state env = (seen, Ok resp) → lr_location resp = Some "/" →
  ∃ c verifier token vt principal value,
    let max_age := session_max_age (cb_now env) (vt_expires_in vt) (tc_exp (vt_id_claims vt)) (vt_access_exp vt) in
    let session := new_session uuid_ok cfg vt principal (U64.add (cb_now env) max_age) in
    code = Some c ∧ c ≠ "" ∧ oauth2_code_verifier (lq_cookie rq) state = Some verifier ∧
    exchange_tokens (cb_exchange env (od_token_endpoint (sv_discovery sv)) (exchange_form cfg c verifier)) = Ok token ∧
    verify_tokens cfg env token = Ok vt ∧ max_age ≠ 0%N ∧
    user_principal (ac_token cfg) (tc_subject (vt_id_claims vt)) = Ok principal ∧
    seen = Some (observed uuid_ok cfg session principal (cb_now env)) ∧
    encrypt session (sv_session_key sv) (cb_nonce env) = Ok value ∧
    session_response value (vt_id_token vt) (flags_of mode rq) max_age = Ok resp.
Proof.
  unfold oauth2_callback. destruct code as [c|]; simpl.
  2: { unfold temporary. destruct (header_value_error _); intros [= <- <-] [=]. }
  destruct (Str.is_empty c) eqn:Hc; simpl.
  { unfold temporary. destruct (header_value_error _); intros [= <- <-] [=]. }
  destruct (oauth2_code_verifier _ state) as [verifier|] eqn:Hv; simpl.
  2: { intros [= _ H] Hl. by eapply error_response_location in H. }
  intros (token & Ht & (vt & Hvt & H)%try_with_Ok)%try_with_Ok Hl. revert H. case_bool_decide as Hm.
  { intros [= _ H]. by eapply error_response_location in H. }
  intros (principal & Hp & (value & He & [= <- Hr])%try_with_Ok)%try_with_Ok.
  exists c, verifier, token, vt, principal, value. split_and!; try done. by intros ->.
Qed.

(** C17: a callback that gives out a session was entitled to: the request brought an
    authorization code and, in the cookie the login was started with, the very state
    that the provider sent back; the code was exchanged with that cookie's verifier;
    the ID token verified for the client and the access token for its audience, with
    the same subject; the session is for that subject, does not outlive the access
    token that was verified, and its cookie, given for the session's lifetime, is within
    the limit of browsers. The identity is recorded as it is in the session. *)
Theorem login_session_sound cfg sv mode rq code state env seen resp
    (Hcb : oauth2_callback uuid_ok (Some (cfg, sv)) mode rq code state env = (seen, Ok resp))
    (Hsession : lr_location resp = Some "/") :
  ∃ c s verifier token access id claims groups exp session value max_age,
    code = Some c ∧ c ≠ "" ∧ state = Some s ∧
    request_cookie (lq_cookie rq) "layerhouse_oauth2" = Some (s +:+ "." +:+ verifier) ∧
    exchange_tokens (cb_exchange env (od_token_endpoint (sv_discovery sv)) (exchange_form cfg c verifier)) = Ok token ∧
    doc_str token "access_token" = Some access ∧ doc_str token "id_token" = Some id ∧
    verify_token_claims (ac_token cfg) (cb_id_keys env) (cb_id_now env) id (cf_client_id (ac_token cfg)) = Ok claims ∧
    verify_access_token (ac_token cfg) (cb_access_keys env) (cb_access_now env) access =
      Ok (groups, tc_subject claims, exp) ∧
    ds_subject session = tc_subject claims ∧ encrypt session (sv_session_key sv) (cb_nonce env) = Ok value ∧
    ds_expires_at session = (cb_now env + max_age)%N ∧
    (cb_now env < ds_expires_at session ≤ exp)%N ∧
    session_cookie value (flags_of mode rq) max_age ∈ lr_cookies resp ∧
    String.length (session_cookie value (flags_of mode rq) max_age) ≤ 4096 ∧
    (oi_subject <$> seen) = Some (ds_subject session) ∧ (oi_groups <$> seen) = Some (ds_groups session).
Proof.
  destruct (callback_session _ _ _ _ _ _ _ _ _ Hcb Hsession)
    as (c & verifier & token & vt & principal & value & Hc & Hne & Hv & Ht & Hvt & Hm & Hp & -> & He & Hr).
  apply code_verifier_state in Hv as (s & -> & Hcookie).
  apply verify_tokens_Ok in Hvt as (access & id & Ha & Hi & <- & Hid & Hacc & Hex).
  set (max_age := session_max_age _ _ _ _) in *.
  destruct (session_max_age_bounds _ _ _ _ max_age eq_refl Hm) as (Hb & Hadd).
  apply session_response_cookie in Hr as [Hin Hlen]; [|done].
  set (session := new_session _ _ _ _ _) in *.
  exists c, s, verifier, token, access, (vt_id_token vt), (vt_id_claims vt), (vt_access_groups vt), (vt_access_exp vt),
    session, value, max_age.
  assert (ds_expires_at session = (cb_now env + max_age)%N) as Hexp by done.
  rewrite Hex in Hb. split_and!; try done; rewrite ?Hexp; lia.
Qed.
End logins.

(** * From the cookie to the identity *)

(** The middleware's interface, with the session key of a service. *)
Definition session_authentication `{SE : Sealing} (key : list Byte.byte) (validate : string → result AuthIdentity)
    : Authentication := {|
  Middleware.validate_token := validate;
  decrypt_session v := match decrypt v key with Ok s => Some s | _ => None end;
|}.
(** A request with one cookie. *)
Definition cookie_request (method : Method) (path name value : string) : HttpRequest :=
  MkHttpRequest method path None None None [Some (name +:+ "=" +:+ value)].

Section session_cookies.
Context `{SJ : SerdeJson, OR : Openraft, EX : Externals, JW : !Jwt, SE : Sealing, SL : !SealingLaws}.
(** A UUID is written in ASCII. *)
Context (uuid_ok : string → bool) (uuid_ascii : ∀ s, uuid_ok s = true → utf8_valid s = true).

Lemma cookie_credential method path value :
  Str.all base64_char value = true →
  extract_credential (cookie_request method path "layerhouse_session" value) = Some (SessionCookies [value]).
Proof.
  intros Hv. unfold extract_credential.
  destruct (cookie_parts "layerhouse_session" value) as [Hs Ho]; [done..|by eapply all_impl; [apply base64_cookie_char|]|].
  assert (extract_cookies (cookie_request method path "layerhouse_session" value) "layerhouse_session" = [value]) as ->.
  { unfold extract_cookies. cbn [rq_cookies cookie_request omap list_omap id mbind list_bind app].
    rewrite Hs. cbn [omap list_omap]. by rewrite Ho. }
  done.
Qed.

Lemma parse_group_ids_Ok l : Forall (λ q, ProviderQualifiedId_parse q = Ok q) l → parse_group_ids l = Ok l.
Proof. induction 1 as [|q l Hq _ IH]; [done|]. simpl. by rewrite Hq, IH. Qed.

Lemma group_ids_parse provider groups :
  Forall (λ q, ProviderQualifiedId_parse q = Ok q) (stable_group_ids uuid_ok provider groups).
Proof using uuid_ascii.
  apply Forall_forall. intros q. unfold stable_group_ids. rewrite merge_sort_Permutation, elem_of_elements.
  rewrite elem_of_list_to_set, list_elem_of_omap. intros (g & _ & H).
  destruct (uuid_ok (Str.trim g)) eqn:Hu; [|done].
  destruct (ProviderQualifiedId_new provider KGroup (Str.trim g)) eqn:E; simplify_eq.
  apply ProviderQualifiedId_new_canonical in E. eapply canonical_parse; [done|]. by apply uuid_ascii.
Qed.

(** C18: the cookie of a login stands for the user who logged in, and for nobody longer
    than it should: a request that brings it is authenticated as the subject of the
    verified tokens, with the groups of both, the principal of the configured provider
    and no scopes, until the session expires; from then on it is refused. *)
Theorem session_cookie_authenticates cfg sv mode rq code state env seen resp method path validate
    (Hcb : oauth2_callback uuid_ok (Some (cfg, sv)) mode rq code state env = (seen, Ok resp))
    (Hsession : lr_location resp = Some "/") (Hnonce : length (cb_nonce env) = 12)
    (Hutf : ∀ i, seen = Some i → utf8_valid (oi_subject i) = true) :
  ∃ value max_age i identity,
    session_cookie value (flags_of mode rq) max_age ∈ lr_cookies resp ∧ seen = Some i ∧
    id_subject identity = oi_subject i ∧ id_principal identity = oi_principal i ∧
    user_principal (ac_token cfg) (oi_subject i) = Ok (oi_principal i) ∧
    id_groups identity = oi_groups i ∧ id_scopes identity = [] ∧ id_token_type identity = Session ∧
    (0 < max_age ≤ 3600)%N ∧
    ∀ now, authenticate_request (AU := session_authentication (sv_session_key sv) validate) now
        (extract_credential (cookie_request method path "layerhouse_session" value)) =
      if bool_decide (now < cb_now env + max_age)%N then Ok (Some identity)
      else Err (Middleware.unauthorized "session expired").
Proof using SL uuid_ascii.
  destruct (callback_session _ _ _ _ _ _ _ _ _ _ Hcb Hsession)
    as (c & verifier & token & vt & principal & value & _ & _ & _ & _ & _ & Hm & Hp & Hseen & He & Hr).
  specialize (Hutf _ Hseen). set (max_age := session_max_age _ _ _ _) in *.
  destruct (session_max_age_bounds _ _ _ _ max_age eq_refl Hm) as (Hb & Hadd).
  apply session_response_cookie in Hr as [Hin _]; [|done].
  apply encrypt_decrypt in He as [Hd Hchars]; [|done].
  pose proof Hp as Hparse. apply ProviderQualifiedId_new_canonical, canonical_parse in Hparse; [|done].
  eexists value, max_age, _, (MkAuthIdentity _ _ _ _ _ _ _ [] [] Session).
  split; [done|]. split; [exact Hseen|]. do 6 (split; [first [reflexivity|exact Hp]|]). split; [lia|].
  intros now. rewrite cookie_credential by done. unfold authenticate_request, session_loop. simpl. rewrite Hd. simpl.
  rewrite Hadd. destruct (decide (now < cb_now env + max_age)%N) as [Hlt|Hge].
  - rewrite (bool_decide_eq_false_2 (_ ≤ now)%N) by lia. rewrite (bool_decide_eq_true_2 (now < _)%N) by done.
    rewrite Hparse. simpl. by rewrite parse_group_ids_Ok by apply group_ids_parse.
  - rewrite (bool_decide_eq_true_2 (_ ≤ now)%N) by lia. by rewrite (bool_decide_eq_false_2 (now < _)%N).
Qed.
End session_cookies.

(** * The state of a login *)

Section login_state.
Context `{SJ : SerdeJson, SE : Sealing, SL : !SealingLaws}.

Lemma urlsafe_unreserved a : urlsafe_char a = true → unreserved a = true.
Proof. destruct a as [[] [] [] [] [] [] [] []]; intros H; try discriminate H; reflexivity. Qed.
Lemma percent_encode_unreserved s : Str.all unreserved s = true → percent_encode s = s.
Proof. induction s as [|a s IH]; [done|]. simpl. intros [-> Hs]%andb_true_iff. by rewrite IH. Qed.

Lemma temporary_location url u : lr_location (temporary url) = Some u → u = url.
Proof. unfold temporary. destruct (header_value_error url); by intros [= <-]. Qed.

(** The redirect of a start, and the first cookie it sets. *)
Lemma oauth2_start_Ok cfg discovery mode rq random_state random_verifier resp :
  oauth2_start (Some (cfg, discovery)) mode rq random_state random_verifier = Ok resp →
  let state := random_urlsafe random_state in
  let verifier := random_urlsafe random_verifier in
  ∃ require_login more,
    lr_location resp = lr_location (temporary (od_authorization_endpoint discovery +:+ "?" +:+
      Str.join "&" (start_params cfg state (pkce_challenge verifier) require_login))) ∧
    lr_cookies resp = start_cookie state verifier (flags_of mode rq) :: more.
Proof.
  assert (∀ url, lr_cookies (temporary url) = []) as Hnil by (intros; unfold temporary; by destruct (header_value_error _)).
  unfold oauth2_start. simpl. intros (c & Hc & Hr)%result_bind_Ok.
  unfold header_or in Hc. destruct (header_value_error _); simplify_eq.
  exists (bool_decide (is_Some (request_cookie (lq_cookie rq) "layerhouse_logged_out"))).
  revert Hr. case_bool_decide.
  - intros (clear & _ & [= <-])%result_bind_Ok. exists [clear]. simpl. by rewrite Hnil.
  - intros [= <-]. exists []. simpl. by rewrite Hnil.
Qed.

(** A login can only be finished by the browser that started it: the start puts the
    state and the verifier in a cookie and sends the provider the same state, and a
    challenge for that verifier; a callback with that cookie passes with exactly that
    state, and then exchanges the code with exactly that verifier. *)
Theorem state_binds_login cfg discovery mode rq random_state random_verifier resp
    (Hstart : oauth2_start (Some (cfg, discovery)) mode rq random_state random_verifier = Ok resp) :
  let state := random_urlsafe random_state in
  let verifier := random_urlsafe random_verifier in
  start_cookie state verifier (flags_of mode rq) ∈ lr_cookies resp ∧
  (∀ url, lr_location resp = Some url → ∃ params,
     url = od_authorization_endpoint discovery +:+ "?" +:+ Str.join "&" params ∧
     "state=" +:+ state ∈ params ∧
     "code_challenge=" +:+ urlsafe_encode (sha256 (String.list_byte_of_string verifier)) ∈ params) ∧
  (∀ returned, oauth2_code_verifier (Some ("layerhouse_oauth2" +:+ "=" +:+ (state +:+ "." +:+ verifier))) returned =
     if bool_decide (returned = Some state) then Some verifier else None).
Proof using SL.
  cbn zeta. set (state := random_urlsafe random_state). set (verifier := random_urlsafe random_verifier).
  assert (Str.all urlsafe_char state = true) as Hs by apply urlsafe_alphabet.
  assert (Str.all urlsafe_char verifier = true) as Hv by apply urlsafe_alphabet.
  destruct (oauth2_start_Ok _ _ _ _ _ _ _ Hstart) as (rl & more & Hl & Hc).
  split_and!.
  - rewrite Hc. by left.
  - intros url Hurl. rewrite Hl in Hurl. apply temporary_location in Hurl as ->.
    eexists. split; [reflexivity|]. unfold start_params, pkce_challenge.
    rewrite (percent_encode_unreserved (random_urlsafe random_state)), (percent_encode_unreserved (urlsafe_encode _))
      by (eapply all_impl; [apply urlsafe_unreserved|apply urlsafe_alphabet]).
    split; apply elem_of_app; left; [do 4 right|do 5 right]; by left.
  - intros returned. unfold oauth2_code_verifier, request_cookie. cbn [mbind option_bind].
    destruct (cookie_parts "layerhouse_oauth2" (state +:+ "." +:+ verifier)) as [Hp Ho]; [done..| |].
    { rewrite !all_app. apply andb_true_iff. split; [by eapply all_impl; [apply urlsafe_cookie_char|]|].
      apply andb_true_iff. split; [done|]. by eapply all_impl; [apply urlsafe_cookie_char|]. }
    unfold extract_cookie. rewrite Hp. cbn [omap list_omap]. rewrite Ho. simpl.
    assert (Str.split_once "." (state +:+ "." +:+ verifier) = Some (state, verifier)) as ->.
    { apply split_once_Some. split; [done|]. by apply (all_not_contains urlsafe_char). }
    simpl. repeat case_bool_decide; by simplify_eq.
Qed.
End login_state.

(** * A concrete cipher and codecs

    Bytes as hexadecimal digits, sessions as lines of text, and a cipher that only
    marks what it was given with the key. *)

Definition hex_byte (a b : ascii) : option Byte.byte :=
  match hex_value a, hex_value b with Some x, Some y => Byte.of_N (16 * x + y)%N | _, _ => None end.
Fixpoint hex_decode (s : string) : option (list Byte.byte) :=
  match s with
  | EmptyString => Some []
  | String a (String b s') => x ← hex_byte a b; l ← hex_decode s'; Some (x :: l)
  | String _ EmptyString => None
  end.
Lemma hex_encode_cons b l : ∃ x y, hex_encode (b :: l) = String x (String y (hex_encode l)) ∧ hex_byte x y = Some b ∧
  base64_char x = true ∧ base64_char y = true ∧ urlsafe_char x = true ∧ urlsafe_char y = true.
Proof. do 2 eexists. split; [reflexivity|]. destruct b; by split_and!. Qed.
Lemma hex_decode_encode l : hex_decode (hex_encode l) = Some l.
Proof.
  induction l as [|b l IH]; [done|]. destruct (hex_encode_cons b l) as (x & y & -> & Hb & _).
  cbn [hex_decode]. by rewrite Hb, IH.
Qed.
Lemma hex_alphabet l : Str.all base64_char (hex_encode l) = true ∧ Str.all urlsafe_char (hex_encode l) = true.
Proof.
  induction l as [|b l [IH1 IH2]]; [done|].
  destruct (hex_encode_cons b l) as (x & y & -> & _ & Hx & Hy & Hx' & Hy').
  cbn [Str.all]. by rewrite Hx, Hy, Hx', Hy', IH1, IH2.
Qed.

Definition session_text (s : DashboardSession) : string :=
  Str.join (String line_sep "")
    [ds_subject s; ds_principal s; opt_text (ds_username s); opt_text (ds_display_name s); opt_text (ds_email s);
     list_text (ds_groups s); list_text (ds_group_ids s); Str.of_u64 (ds_expires_at s)].
Definition text_session (t : string) : option DashboardSession :=
  match Str.split line_sep t with
  | [subject; principal; username; display; email; groups; ids; exp] =>
      username ← text_opt username; display ← text_opt display; email ← text_opt email;
      groups ← text_list groups; ids ← text_list ids; exp ← Str.parse_u64 exp;
      Some (MkDashboardSession subject principal username display email groups ids exp)
  | _ => None
  end.
#[global] Instance DashboardSession_eq_dec : EqDecision DashboardSession.
Proof. solve_decision. Defined.

#[local] Instance byte_eq_decision : EqDecision Byte.byte := Byte.byte_eq_dec.
Definition sample_sealing : Sealing := {|
  gcm_encrypt key _ p := inr (key ++ p);
  gcm_decrypt key _ c := if decide (take (length key) c = key) then Some (drop (length key) c) else None;
  session_to_json s := let b := String.list_byte_of_string (session_text s) in
    if decide (text_session (String.string_of_list_byte b) = Some s) then inr b else inl [Lit "unsupported session"];
  session_from_json b := from_option inr (inl [Lit "malformed session"]) (text_session (String.string_of_list_byte b));
  base64_encode := hex_encode;
  base64_decode s := from_option inr (inl [Lit "malformed text"]) (hex_decode s);
  urlsafe_encode := hex_encode;
  sha256 b := b;
  header_value_error _ := None;
|}.
#[local] Existing Instance sample_sealing.
Lemma sample_sealing_laws : SealingLaws.
Proof.
  split.
  - intros key nonce p c. simpl. intros [= <-]. rewrite take_app_length, drop_app_length. by rewrite decide_True.
  - intros s b. simpl. case_decide as E; [|done]. intros [= <-]. by rewrite E.
  - intros b. simpl. by rewrite hex_decode_encode.
  - intros b. apply hex_alphabet.
  - intros b. apply hex_alphabet.
Qed.

(** * A login *)

#[local] Existing Instance idp_json.
#[local] Existing Instance idp_jwt.

Definition login_request : LoginRequest :=
  MkLoginRequest (Some "theme=dark; layerhouse_oauth2=ab12.cd34") (Some "HTTPS") false.
Definition login_nonce : list Byte.byte := String.list_byte_of_string "nonce-nonce-".
Definition login_env : CallbackEnv :=
  MkCallbackEnv (λ _ _, Answered 200 "tokens") (MkKeyCache [("k1", "secret")] []) 5000
    (MkKeyCache [("k1", "secret")] []) 5000 5000 login_nonce.
Definition login (returned_state : string) : option ObservedIdentity * result LoginResponse :=
  oauth2_callback (λ _, false) (Some (idp_config, idp_fresh 1000)) CookieAuto login_request (Some "code-1")
    (Some returned_state) login_env.
Definition login_response : LoginResponse :=
  match (login "ab12").2 with Ok r => r | _ => MkLoginResponse 0 None [] end.
Definition login_seen : ObservedIdentity :=
  MkObservedIdentity "sub-1" "oidc:user:sub-1" (Some "alice") (Some "Alice") None ["dev"] [] 5000.
Lemma login_runs : login "ab12" = (Some login_seen, Ok login_response).
Proof. reflexivity. Qed.

Lemma login_session_sound_witness :
  ∃ s verifier session value max_age,
    request_cookie (lq_cookie login_request) "layerhouse_oauth2" = Some (s +:+ "." +:+ verifier) ∧
    encrypt session (sv_session_key (idp_fresh 1000)) login_nonce = Ok value ∧
    session_cookie value (MkCookieFlags true "SameSite=Lax") max_age ∈ lr_cookies login_response ∧
    ds_expires_at session = (5000 + max_age)%N.
Proof.
  destruct (login_session_sound (SE := sample_sealing) (λ _, false) idp_config (idp_fresh 1000) CookieAuto login_request (Some "code-1")
    (Some "ab12") login_env (Some login_seen) login_response login_runs eq_refl)
    as (c & s & verifier & token & access & id & claims & groups & exp & session & value & max_age & _ & _ & _ & Hc & _ &
        _ & _ & _ & _ & _ & He & Hexp & _ & Hin & _).
  exists s, verifier, session, value, max_age.
  exact (conj Hc (conj He (conj Hin Hexp))).
Defined.

Lemma session_cookie_authenticates_witness :
  ∃ value identity, id_subject identity = "sub-1" ∧
    authenticate_request (AU := session_authentication (sv_session_key (idp_fresh 1000)) (λ _, Panic)) 5000
      (extract_credential (cookie_request GET "/api/v1/repositories" "layerhouse_session" value)) = Ok (Some identity) ∧
    authenticate_request (AU := session_authentication (sv_session_key (idp_fresh 1000)) (λ _, Panic)) 9000
      (extract_credential (cookie_request GET "/api/v1/repositories" "layerhouse_session" value)) =
      Err (Middleware.unauthorized "session expired").
Proof.
  destruct (session_cookie_authenticates (SL := sample_sealing_laws) (λ _, false) (λ s H, False_ind _ (diff_false_true H))
    idp_config (idp_fresh 1000) CookieAuto login_request (Some "code-1") (Some "ab12") login_env (Some login_seen)
    login_response GET "/api/v1/repositories" (λ _, Panic) login_runs eq_refl eq_refl)
    as (value & max_age & i & identity & Hin & [= <-] & Hsub & _ & _ & _ & _ & _ & Hage & Hauth).
  { by intros i [= <-]. }
  exists value, identity. change (cb_now login_env) with 5000%N in Hauth.
  split; [exact Hsub|]. rewrite !Hauth. clear Hauth Hin Hsub.
  rewrite bool_decide_eq_true_2, bool_decide_eq_false_2 by lia. by split.
Defined.

Definition start_response : LoginResponse :=
  match oauth2_start (Some (idp_config, idp_discovery)) CookieAuto login_request
          (String.list_byte_of_string "S") (String.list_byte_of_string "V") with
  | Ok r => r | _ => MkLoginResponse 0 None [] end.
Lemma state_binds_login_witness :
  oauth2_code_verifier (Some "layerhouse_oauth2=53.56") (Some "53") = Some "56" ∧
  oauth2_code_verifier (Some "layerhouse_oauth2=53.56") (Some "54") = None.
Proof.
  destruct (state_binds_login (SE := sample_sealing) (SL := sample_sealing_laws) idp_config idp_discovery CookieAuto
    login_request (String.list_byte_of_string "S") (String.list_byte_of_string "V") start_response eq_refl) as (_ & _ & H).
  split; [exact (H (Some "53"))|exact (H (Some "54"))].
Defined.

(** The session ends an hour after the login, or with the ID token, also when the
    access token is valid for longer. *)
Theorem session_ends_before_access_token :
  session_max_age 5000 28800 8000 9000 = 3000%N ∧ session_max_age 5000 28800 90000 90000 = 3600%N ∧
  lr_location login_response = Some "/" ∧
  verify_access_token (ac_token idp_config) (cb_access_keys login_env) 8999 "k1/secret/layerhouse/sub-1/9000" =
    Ok (["dev"], "sub-1", 9000%N).
Proof. split_and!; reflexivity. Qed.

(** After a logout that the provider takes no part in, the marker makes the next login
    ask for credentials; a login attempt with another state is refused. *)
Example logged_out_login :
  (logout_session None CookieEnabled login_request) =
    Ok (MkLoginResponse 307 (Some "/")
      ["layerhouse_session=; HttpOnly; Secure; SameSite=Lax; Path=/; Max-Age=0";
       "layerhouse_logout_hint=; HttpOnly; Secure; SameSite=Lax; Path=/api/v1/session/logout; Max-Age=0";
       "layerhouse_logged_out=1; HttpOnly; Secure; SameSite=Lax; Path=/; Max-Age=300"]) ∧
  lr_location (match oauth2_start (Some (idp_config, idp_discovery)) CookieAuto
      (MkLoginRequest (Some "layerhouse_logged_out=1") None false) (String.list_byte_of_string "S")
      (String.list_byte_of_string "V") with Ok r => r | _ => MkLoginResponse 0 None [] end) =
    Some "https://idp.example.com/authorize?response_type=code&client_id=layerhouse&redirect_uri=https%3A%2F%2Fregistry%2Foauth2%2Fcallback&scope=openid%20profile&state=53&code_challenge=3536&code_challenge_method=S256&prompt=login&max_age=0" ∧
  (login "other") = (None, Ok (MkLoginResponse 307 (Some "/?oauth_error=state#/oauth2/error")
    ["layerhouse_oauth2=; HttpOnly; Secure; SameSite=Lax; Path=/oauth2; Max-Age=0"])).
Proof. split_and!; reflexivity. Qed.
