(* ===== verification/Admin.v ===== *)
(** The administration interface (crates/layerhouse-server/src/routes/admin.rs):
    policies, mirror rules, proxy caches, warm images, jobs and helm charts.

    The middleware lets only administrators in (Middleware.v). A handler reads the
    store of its own node and writes through the replicated store of Router.v; the
    validation functions, which change their argument in place, return it. Responses
    are the values the JSON bodies are made of, or a status code; which of its caches
    of settings the node drops is part of the result. *)

From Stdlib Require Import Ascii.
From stdpp Require Import options.
From S2P Require Import Prelude Errors Digests Manifests Permissions Principals Handles.
From S2P Require Import SyncRuns Types StateMachine Samples Authorization Decisions Middleware Router Queries Io Mirror.
From S2P Require Import Upstream Pulls.

#[local] Open Scope lh_scope.

(** * Policies *)

Definition BUILTIN_POLICY_ID : string := "builtin-authorization".

Record PutPolicySetRequest := MkPutPolicySetRequest {
  pq_name : string;
  pq_cedar_text : string;
  pq_enabled : option bool;
}.
Record ValidatePolicyResponse := MkValidatePolicyResponse { vp_valid : bool; vp_error : option message }.
Record PolicySetResponse := MkPolicySetResponse {
  pr_id : string;
  pr_name : string;
  pr_source : PolicySource;
  pr_cedar_text : string;
  pr_enabled : bool;
  pr_created_by : Subject;
  pr_updated_by : Subject;
  pr_created_at : N;
  pr_updated_at : N;
  pr_editable : bool;
  pr_description : option string;
}.
Definition from_raft (p : PolicySet) : PolicySetResponse :=
  MkPolicySetResponse (ps_id p) (ps_name p) (ps_source p) (ps_cedar_text p) (ps_enabled p) (ps_created_by p)
    (ps_updated_by p) (ps_created_at p) (ps_updated_at p) true None.
Definition from_config (p : ConfigPolicySet) : PolicySetResponse :=
  MkPolicySetResponse (cps_id p) (cps_name p) PolicyConfig (cps_cedar_text p) (cps_enabled p) "config" "config" 0 0 false
    (Some "Loaded from [[auth.policy_sets]] in the node config.").
Definition builtin_authorization : PolicySetResponse :=
  MkPolicySetResponse BUILTIN_POLICY_ID "Builtin authorization inputs" PolicyBuiltin "" true "builtin" "builtin" 0 0 false
    (Some "Namespace ownership, namespace grants, token scopes, and Rust safety guards are synthesized at authorization time.").

(** [auth] is the policy sets of the settings, if authentication is on. *)
Definition effective_static_policy (auth : option (list ConfigPolicySet)) (id : string) : option PolicySetResponse :=
  sets ← auth;
  if bool_decide (id = BUILTIN_POLICY_ID) then Some builtin_authorization
  else from_config <$> head (filter (λ p, cps_id p = id) sets).
Definition reject_reserved_policy_id (auth : option (list ConfigPolicySet)) (id : string) : result () :=
  if bool_decide (id = BUILTIN_POLICY_ID) || from_option (existsb (λ p, bool_decide (cps_id p = id))) false auth
  then Err (NameInvalid [Lit "only Raft policy sets can be mutated through the admin API"]) else Ok ().

(** * Normalization and validation *)

Definition required (value field : string) : result () :=
  if Str.is_empty (Str.trim value) then Err (NameInvalid [Disp field; Lit " is required"]) else Ok ().
Definition normalize_optional (value : option string) : option string :=
  v ← value; let trimmed := Str.trim v in if Str.is_empty trimmed then None else Some trimmed.
Definition normalize_optional_prefix (value : option string) : option string :=
  v ← value; let trimmed := trim_matches "/" (Str.trim v) in if Str.is_empty trimmed then None else Some trimmed.
Definition normalize_registry (value : string) : string := trim_end_slashes (Str.trim value).

Definition validate_strategy (strategy : MirrorStrategy) : result () :=
  match strategy with
  | StrategyAll => Ok ()
  | StrategyLatest count =>
      if bool_decide (0 < count)%N then Ok () else Err (NameInvalid [Lit "strategy.count must be greater than zero"])
  | StrategyPattern pattern =>
      if Str.is_empty (Str.trim pattern) then Err (NameInvalid [Lit "strategy.pattern is required"]) else Ok ()
  end.

Definition is_warm_none (f : WarmFilter) : bool := match f with WarmNone => true | _ => false end.
Definition validate_warm_filter (f : WarmFilter) : result () :=
  match f with
  | WarmNone | WarmAll => Ok ()
  | WarmLatest count _ =>
      if bool_decide (0 < count)%N then Ok ()
      else Err (NameInvalid [Lit "warm_filters.latest.count must be greater than zero"])
  | WarmPattern pattern =>
      if Str.is_empty (Str.trim pattern) then Err (NameInvalid [Lit "warm_filters.pattern is required"]) else Ok ()
  end.
Fixpoint validate_each_warm_filter (filters : list WarmFilter) : result () :=
  match filters with [] => Ok () | f :: filters' => _ ← validate_warm_filter f; validate_each_warm_filter filters' end.
Definition validate_warm_filters (filters : list WarmFilter) : result () :=
  if existsb is_warm_none filters && bool_decide (1 < length filters)
  then Err (NameInvalid [Lit "warm_filters.none is exclusive"])
  else validate_each_warm_filter filters.

Section admin.
Context `{SJ : SerdeJson, OR : Openraft, EX : Externals, HL : HttpLib}.
Implicit Types (d : StateMachineData).

Definition proxy_url (p : OutboundProxy) (what : string) : result string :=
  ok_or (NameInvalid [Lit ("outbound_proxy.url is required for " +:+ what +:+ " proxy")]) (op_url p).
Definition accepted_proxy (p : OutboundProxy) (what : string) : result OutboundProxy :=
  url ← proxy_url p what;
  match proxy_error (op_protocol p) url with None => Ok p | Some e => Err (NameInvalid e) end.
Definition validate_outbound_proxy (proxy : OutboundProxy) : result OutboundProxy :=
  let p := MkOutboundProxy (op_protocol proxy) (normalize_optional (op_url proxy)) (normalize_optional (op_username proxy))
             (normalize_optional (op_password proxy)) in
  match op_protocol p with
  | ProxyNone => Ok (MkOutboundProxy ProxyNone None None None)
  | ProxyHttp => accepted_proxy p "HTTP"
  | ProxySocks4 => accepted_proxy p "SOCKS4"
  | ProxySocks5 => accepted_proxy p "SOCKS5h"
  | ProxyHttps => Err (NameInvalid [Lit "HTTPS outbound proxy is deferred until aioduct exposes HTTPS proxy support"])
  end.

Definition tls_exclusive (plain_http insecure_tls : bool) : result () :=
  if plain_http && insecure_tls then Err (NameInvalid [Lit "plain_http and insecure_tls are mutually exclusive"])
  else Ok ().
Definition validate_mirror_rule (rule : MirrorRule) : result MirrorRule :=
  _ ← required (mr_id rule) "id";
  _ ← required (mr_local_prefix rule) "local_prefix";
  let upstream_registry := normalize_registry (mr_upstream_registry rule) in
  _ ← required upstream_registry "upstream_registry";
  _ ← tls_exclusive (mr_plain_http rule) (mr_insecure_tls rule);
  _ ← validate_strategy (mr_strategy rule);
  outbound_proxy ← validate_outbound_proxy (mr_outbound_proxy rule);
  Ok (MkMirrorRule (mr_id rule) (mr_direction rule) (mr_local_prefix rule) upstream_registry
        (normalize_optional_prefix (mr_upstream_prefix rule)) (normalize_optional (mr_schedule rule)) (mr_strategy rule)
        (mr_plain_http rule) (mr_insecure_tls rule) outbound_proxy (normalize_optional (mr_username rule))
        (normalize_optional (mr_password rule)) (mr_created_at rule)).
Definition validate_proxy_cache (cache : ProxyCache) : result ProxyCache :=
  _ ← required (pc_id cache) "id";
  _ ← required (pc_local_prefix cache) "local_prefix";
  let upstream_registry := normalize_registry (pc_upstream_registry cache) in
  _ ← required upstream_registry "upstream_registry";
  _ ← tls_exclusive (pc_plain_http cache) (pc_insecure_tls cache);
  _ ← validate_warm_filters (pc_warm_filters cache);
  outbound_proxy ← validate_outbound_proxy (pc_outbound_proxy cache);
  Ok (MkProxyCache (pc_id cache) (pc_local_prefix cache) upstream_registry
        (normalize_optional_prefix (pc_upstream_prefix cache)) (pc_warm_filters cache)
        (normalize_optional (pc_warm_schedule cache)) (pc_plain_http cache) (pc_insecure_tls cache) outbound_proxy
        (normalize_optional (pc_username cache)) (normalize_optional (pc_password cache)) (pc_created_at cache)).

Definition policy_actor (who : option AuthIdentity) : Subject := from_option id_subject "admin-api" who.
Definition validate_policy_fields (id : string) (req : PutPolicySetRequest) : result () :=
  _ ← required id "id";
  _ ← required (pq_name req) "name";
  _ ← required (pq_cedar_text req) "cedar_text";
  match cedar_policy_error (pq_cedar_text req) with None => Ok () | Some e => Err (NameInvalid e) end.
Definition validate_policy_text_response (cedar_text : string) : ValidatePolicyResponse :=
  if Str.is_empty (Str.trim cedar_text) then MkValidatePolicyResponse false (Some [Lit "cedar_text is required"])
  else match cedar_policy_error cedar_text with
       | None => MkValidatePolicyResponse true None
       | Some e => MkValidatePolicyResponse false (Some e)
       end.

(** * Policy handlers *)

Definition list_policy_sets_handler (auth : option (list ConfigPolicySet)) d : list PolicySetResponse :=
  from_option (λ sets, builtin_authorization :: (from_config <$> sets)) [] auth
    ++ (from_raft <$> btree_values (sm_policy_sets d)).
Definition get_policy_set (auth : option (list ConfigPolicySet)) d (id : string) : result PolicySetResponse :=
  match effective_static_policy auth id with
  | Some p => Ok p
  | None => match sm_policy_sets d !! id with Some p => Ok (from_raft p) | None => Err (NameUnknown [Disp id]) end
  end.
(** [d] is the local store, [now] the clock. *)
Definition new_policy d (who : option AuthIdentity) (now : N) (id : string) (req : PutPolicySetRequest) : PolicySet :=
  let actor := policy_actor who in
  let existing := sm_policy_sets d !! id in
  MkPolicySet id (Str.trim (pq_name req)) PolicyRaft (pq_cedar_text req) (default true (pq_enabled req))
    (from_option ps_created_by actor existing) actor (from_option ps_created_at now existing) now.
Definition put_policy_set_handler (auth : option (list ConfigPolicySet)) (who : option AuthIdentity) d (now : N)
    (c : Commit) (id : string) (req : PutPolicySetRequest) : result N :=
  _ ← validate_policy_fields id req;
  _ ← reject_reserved_policy_id auth id;
  _ ← put_policy_set c (new_policy d who now id req);
  Ok 200%N.
Definition validate_policy_set_handler (cedar_text : string) : ValidatePolicyResponse :=
  validate_policy_text_response cedar_text.
Definition delete_policy_set_handler (auth : option (list ConfigPolicySet)) (c : Commit) (id : string) : result N :=
  _ ← reject_reserved_policy_id auth id;
  _ ← delete_policy_set c id;
  Ok 204%N.

(** * Mirror rules *)

(** Which of its caches a node drops. *)
Inductive Dropped := RulesCache | ProxiesCache.
Inductive RuleView := FullRule (r : MirrorRule) | PublicRule (r : MirrorRulePublic).
Definition rule_view (include_secrets : option bool) (r : MirrorRule) : RuleView :=
  if default false include_secrets then FullRule r else PublicRule (mirror_rule_public r).

Definition list_rules (include_secrets : option bool) d : list RuleView :=
  rule_view include_secrets <$> list_mirror_rules d.
Definition get_rule (include_secrets : option bool) d (id : string) : result RuleView :=
  match sm_mirror_rules d !! id with
  | Some r => Ok (rule_view include_secrets r)
  | None => Err (NameUnknown [Disp id])
  end.
(** The rule that is stored for a submitted one. *)
Definition prepare_rule (now : N) (id : string) (rule : MirrorRule) : result MirrorRule :=
  let rule := MkMirrorRule id (mr_direction rule) (mr_local_prefix rule) (mr_upstream_registry rule)
                (mr_upstream_prefix rule) (mr_schedule rule) (mr_strategy rule) (mr_plain_http rule) (mr_insecure_tls rule)
                (mr_outbound_proxy rule) (mr_username rule) (mr_password rule) (mr_created_at rule) in
  rule ← validate_mirror_rule rule;
  Ok (if bool_decide (mr_created_at rule = 0%N) then
        MkMirrorRule (mr_id rule) (mr_direction rule) (mr_local_prefix rule) (mr_upstream_registry rule)
          (mr_upstream_prefix rule) (mr_schedule rule) (mr_strategy rule) (mr_plain_http rule) (mr_insecure_tls rule)
          (mr_outbound_proxy rule) (mr_username rule) (mr_password rule) now
      else rule).
Definition put_rule (now : N) (c : Commit) (id : string) (rule : MirrorRule) : list Dropped * result N :=
  try rule := prepare_rule now id rule at [];
  try _ := put_mirror_rule c rule at [];
  ([RulesCache], Ok 200%N).
Definition delete_rule (c : Commit) (id : string) : list Dropped * result N :=
  try _ := delete_mirror_rule c id at [];
  ([RulesCache], Ok 204%N).
Definition trigger_rule (c : Commit) (id : string) : result SyncJob :=
  job ← trigger_mirror_rule c id; ok_or (NameUnknown [Disp id]) job.

(** * Proxy caches *)

Definition list_proxy_caches_handler d : list ProxyCachePublic := proxy_cache_public <$> list_proxy_caches d.
Definition get_proxy_cache d (id : string) : result ProxyCachePublic :=
  match sm_proxy_caches d !! id with
  | Some c => Ok (proxy_cache_public c)
  | None => Err (NameUnknown [Disp id])
  end.
Definition prepare_proxy_cache (now : N) (id : string) (cache : ProxyCache) : result ProxyCache :=
  let cache := MkProxyCache id (pc_local_prefix cache) (pc_upstream_registry cache) (pc_upstream_prefix cache)
                 (pc_warm_filters cache) (pc_warm_schedule cache) (pc_plain_http cache) (pc_insecure_tls cache)
                 (pc_outbound_proxy cache) (pc_username cache) (pc_password cache) (pc_created_at cache) in
  cache ← validate_proxy_cache cache;
  Ok (if bool_decide (pc_created_at cache = 0%N) then
        MkProxyCache (pc_id cache) (pc_local_prefix cache) (pc_upstream_registry cache) (pc_upstream_prefix cache)
          (pc_warm_filters cache) (pc_warm_schedule cache) (pc_plain_http cache) (pc_insecure_tls cache)
          (pc_outbound_proxy cache) (pc_username cache) (pc_password cache) now
      else cache).
Definition put_proxy_cache_handler (now : N) (c : Commit) (id : string) (cache : ProxyCache) : list Dropped * result N :=
  try cache := prepare_proxy_cache now id cache at [];
  try _ := put_proxy_cache c cache at [];
  ([ProxiesCache], Ok 200%N).
Definition delete_proxy_cache_handler (c : Commit) (id : string) : list Dropped * result N :=
  try _ := delete_proxy_cache c id at [];
  ([ProxiesCache], Ok 204%N).
Definition trigger_proxy_cache_warm_handler (c : Commit) (id : string) : result SyncJob :=
  job ← trigger_proxy_cache_warm c id; ok_or (NameUnknown [Disp id]) job.

(** * Warm images, jobs and helm charts *)

Definition list_warm d : list WarmImage := list_warm_images d.
Definition get_warm d (id : string) : result WarmImage := ok_or (NameUnknown [Disp id]) (sm_warm_images d !! id).
Definition put_warm (c : Commit) (id : string) (image : WarmImage) : result N :=
  _ ← put_warm_image c (MkWarmImage id (wi_image image) (wi_tags image) (wi_interval_secs image)); Ok 200%N.
Definition delete_warm (c : Commit) (id : string) : result N := _ ← delete_warm_image c id; Ok 204%N.

Definition list_jobs d : list SyncJob := list_sync_jobs d.
Definition get_job d (id : string) : result SyncJob := ok_or (NameUnknown [Disp id]) (sm_sync_jobs d !! id).
Definition trigger_job (c : Commit) (id : string) : result N :=
  triggered ← trigger_sync_job c id; if (triggered : bool) then Ok 200%N else Err (NameUnknown [Disp id]).
(** [limit] is the query parameter. *)
Definition list_job_runs d (id : string) (limit : option string) : list SyncJobRun :=
  list_sync_job_runs d id (N.to_nat (default 20%N (limit ≫= Str.parse_u64))).

Definition list_helm_charts d : list HelmChart := btree_values (sm_helm_charts d).
Definition list_helm_chart_versions d (name : string) : option (list HelmChartVersion) := sm_helm_chart_versions d !! name.
Definition list_helm_versions d (name : string) : result (list HelmChartVersion) :=
  ok_or (NameUnknown [Disp name]) (list_helm_chart_versions d name).
End admin.

(** * Lemmas *)

Lemma trim_start_char_head c s : Str.starts_with (String c "") (trim_start_char c s) = false.
Proof.
  induction s as [|a s IH]; [done|]. simpl. case_bool_decide as H; [done|].
  unfold Str.starts_with. simpl. destruct (Ascii.ascii_dec c a) as [->|]; [by destruct H|done].
Qed.
Lemma trim_start_char_suffix c s : ∃ p, s = p +:+ trim_start_char c s.
Proof.
  induction s as [|a s [p IH]]; [by exists ""|]. simpl. case_bool_decide; [|by exists ""].
  exists (String a p). rewrite app_cons. by f_equal.
Qed.
Lemma trim_start_slashes_char s : trim_start_slashes s = trim_start_char "/" s.
Proof. induction s as [|a s IH]; [done|]. simpl. by rewrite IH. Qed.
Lemma trim_end_slashes_end s : Str.ends_with "/" (trim_end_slashes s) = false.
Proof.
  unfold Str.ends_with, trim_end_slashes. rewrite rev_involutive_str, trim_start_slashes_char.
  apply trim_start_char_head.
Qed.
Lemma trim_matches_ends c s :
  Str.starts_with (String c "") (trim_matches c s) = false ∧ Str.ends_with (String c "") (trim_matches c s) = false.
Proof.
  unfold trim_matches. set (t := trim_start_char c s). split.
  - destruct (trim_start_char_suffix c (Str.rev t)) as [p Hp].
    assert (t = Str.rev (trim_start_char c (Str.rev t)) +:+ Str.rev p) as Ht.
    { rewrite <-rev_app, <-Hp. by rewrite rev_involutive_str. }
    pose proof (trim_start_char_head c s) as Hh. fold t in Hh. rewrite Ht in Hh.
    destruct (Str.rev (trim_start_char c (Str.rev t))) as [|a r]; [done|].
    rewrite app_cons in Hh. unfold Str.starts_with in *. simpl in *. destruct (Ascii.ascii_dec c a); [|done].
    by destruct r, (Str.rev p).
  - unfold Str.ends_with. rewrite rev_involutive_str. apply trim_start_char_head.
Qed.

Lemma required_Ok v f u : required v f = Ok u → Str.is_empty (Str.trim v) = false.
Proof. unfold required. by destruct (Str.is_empty _). Qed.

(** * What is stored through the interface *)

Section settings.
Context `{SJ : SerdeJson, OR : Openraft, EX : Externals, HL : HttpLib}.
Implicit Types (d : StateMachineData).

Definition nonblank (s : string) : Prop := Str.is_empty (Str.trim s) = false.
Definition valid_registry (s : string) : Prop := nonblank s ∧ Str.ends_with "/" s = false.
Definition valid_prefix (p : option string) : Prop :=
  ∀ s, p = Some s → s ≠ "" ∧ Str.starts_with "/" s = false ∧ Str.ends_with "/" s = false.
Definition valid_strategy (s : MirrorStrategy) : Prop :=
  match s with StrategyAll => True | StrategyLatest n => (0 < n)%N | StrategyPattern p => nonblank p end.
Definition valid_filters (l : list WarmFilter) : Prop :=
  (WarmNone ∈ l → l = [WarmNone]) ∧
  ∀ f, f ∈ l → match f with WarmNone | WarmAll => True | WarmLatest n _ => (0 < n)%N | WarmPattern p => nonblank p end.
Definition valid_proxy (p : OutboundProxy) : Prop :=
  match op_protocol p with
  | ProxyNone => p = MkOutboundProxy ProxyNone None None None
  | ProxyHttps => False
  | _ => ∃ url, op_url p = Some url ∧ url ≠ "" ∧ proxy_error (op_protocol p) url = None
  end.
Definition valid_rule (r : MirrorRule) : Prop :=
  nonblank (mr_id r) ∧ nonblank (mr_local_prefix r) ∧ valid_registry (mr_upstream_registry r) ∧
  mr_plain_http r && mr_insecure_tls r = false ∧ valid_prefix (mr_upstream_prefix r) ∧
  valid_strategy (mr_strategy r) ∧ valid_proxy (mr_outbound_proxy r) ∧
  mr_username r ≠ Some "" ∧ mr_password r ≠ Some "".
Definition valid_cache (c : ProxyCache) : Prop :=
  nonblank (pc_id c) ∧ nonblank (pc_local_prefix c) ∧ valid_registry (pc_upstream_registry c) ∧
  pc_plain_http c && pc_insecure_tls c = false ∧ valid_prefix (pc_upstream_prefix c) ∧
  valid_filters (pc_warm_filters c) ∧ valid_proxy (pc_outbound_proxy c) ∧
  pc_username c ≠ Some "" ∧ pc_password c ≠ Some "".

Lemma normalize_optional_nonempty v : normalize_optional v ≠ Some "".
Proof. destruct v as [s|]; [|done]. simpl. destruct (Str.is_empty (Str.trim s)) eqn:E; [done|]. by intros [= H]; rewrite H in E. Qed.
Lemma normalize_prefix_valid v : valid_prefix (normalize_optional_prefix v).
Proof.
  intros s. destruct v as [w|]; [|done]. simpl. destruct (Str.is_empty _) eqn:E; [done|]. intros [= <-].
  destruct (trim_matches_ends "/" (Str.trim w)). split_and!; [|done..]. by intros Hn; rewrite Hn in E.
Qed.
Lemma validate_strategy_valid s : validate_strategy s = Ok () → valid_strategy s.
Proof.
  destruct s as [|n|p]; simpl; [done|by case_bool_decide|]. unfold nonblank. by destruct (Str.is_empty _).
Qed.
Lemma validate_filters_valid l : validate_warm_filters l = Ok () → valid_filters l.
Proof.
  unfold validate_warm_filters. destruct (existsb _ l && _) eqn:E; [done|]. intros H. split.
  - intros Hin. assert (existsb is_warm_none l = true) as Hex.
    { apply existsb_exists. exists WarmNone. split; [by apply list_elem_of_In|done]. }
    rewrite Hex in E. simpl in E. apply bool_decide_eq_false in E.
    destruct l as [|f [|g l]]; [by apply elem_of_nil in Hin| |simpl in E; lia].
    by apply list_elem_of_singleton in Hin as ->.
  - clear E. induction l as [|g l IH]; [by intros f ?%elem_of_nil|]. simpl in H.
    apply result_bind_Ok in H as (u & Hg & Hl). intros f [->|Hf]%elem_of_cons; [|by apply IH].
    destruct g; try done; simpl in Hg; [by case_bool_decide|]. unfold nonblank. by destruct (Str.is_empty _).
Qed.
Lemma validate_proxy_valid p p' : validate_outbound_proxy p = Ok p' → valid_proxy p'.
Proof.
  unfold validate_outbound_proxy. cbn [op_protocol].
  assert (∀ q what, op_url q = normalize_optional (op_url p) → accepted_proxy q what = Ok p' →
    p' = q ∧ ∃ url, op_url q = Some url ∧ url ≠ "" ∧ proxy_error (op_protocol q) url = None) as Hacc.
  { intros q what Hq Hok. apply result_bind_Ok in Hok as (url & Hu & H). unfold proxy_url in Hu.
    destruct (op_url q) as [u|] eqn:E; simplify_eq/=. destruct (proxy_error _ _) eqn:Ep; simplify_eq.
    split; [done|]. exists url. split_and!; try done. intros ->. by apply (normalize_optional_nonempty (op_url p)). }
  destruct (op_protocol p) eqn:Hp; [by intros [= <-]| | | |]; try done;
    intros [-> H]%Hacc; try done; unfold valid_proxy; simpl in *; rewrite ?Hp; done.
Qed.

Lemma validate_rule_valid r r' : validate_mirror_rule r = Ok r' →
  valid_rule r' ∧ mr_id r' = mr_id r ∧ mr_created_at r' = mr_created_at r.
Proof.
  unfold validate_mirror_rule. intros (u1 & H1%required_Ok & H)%result_bind_Ok.
  apply result_bind_Ok in H as (u2 & H2%required_Ok & H). apply result_bind_Ok in H as (u3 & H3%required_Ok & H).
  apply result_bind_Ok in H as (u4 & H4 & H). apply result_bind_Ok in H as ([] & H5%validate_strategy_valid & H).
  apply result_bind_Ok in H as (p & H6%validate_proxy_valid & [= <-]). unfold tls_exclusive in H4.
  split; [|done]. unfold valid_rule, valid_registry; simpl.
  split_and!; try done; [apply trim_end_slashes_end|by destruct (_ && _)|apply normalize_prefix_valid|..];
    apply normalize_optional_nonempty.
Qed.
Lemma validate_cache_valid c c' : validate_proxy_cache c = Ok c' →
  valid_cache c' ∧ pc_id c' = pc_id c ∧ pc_created_at c' = pc_created_at c.
Proof.
  unfold validate_proxy_cache. intros (u1 & H1%required_Ok & H)%result_bind_Ok.
  apply result_bind_Ok in H as (u2 & H2%required_Ok & H). apply result_bind_Ok in H as (u3 & H3%required_Ok & H).
  apply result_bind_Ok in H as (u4 & H4 & H). apply result_bind_Ok in H as ([] & H5%validate_filters_valid & H).
  apply result_bind_Ok in H as (p & H6%validate_proxy_valid & [= <-]). unfold tls_exclusive in H4.
  split; [|done]. unfold valid_cache, valid_registry; simpl.
  split_and!; try done; [apply trim_end_slashes_end|by destruct (_ && _)|apply normalize_prefix_valid|..];
    apply normalize_optional_nonempty.
Qed.
Lemma prepare_rule_valid now id r0 r : prepare_rule now id r0 = Ok r → valid_rule r ∧ mr_id r = id.
Proof.
  intros (r1 & (Hv & Hid & _)%validate_rule_valid & [= <-])%result_bind_Ok. simpl in Hid. by case_bool_decide.
Qed.
Lemma prepare_cache_valid now id c0 c : prepare_proxy_cache now id c0 = Ok c → valid_cache c ∧ pc_id c = id.
Proof.
  intros (c1 & (Hv & Hid & _)%validate_cache_valid & [= <-])%result_bind_Ok. simpl in Hid. by case_bool_decide.
Qed.

(** The requests that store a setting. *)
Definition puts_setting (req : Request) : bool :=
  match req with
  | ReqMirrorConfig (PutMirrorRule _ | PutProxyCache _) | ReqPolicy (PutPolicySet _) => true
  | _ => false
  end.

(** The states that come about when settings are stored by the handlers of this interface
    only: from the empty state, by any other request and by the requests these handlers
    send, with whatever is submitted to them, on nodes with whatever clocks, local states
    and configurations in [in_force]. *)
Inductive administered (in_force : option (list ConfigPolicySet) → Prop) : StateMachineData → Prop :=
  | AdministeredInit : administered in_force StateMachineData_default
  | AdministeredOther t d req : administered in_force d → puts_setting req = false →
      administered in_force (apply_request t d req).1
  | AdministeredRule now id rule t d req : administered in_force d → sends (λ c, put_rule now c id rule) req →
      administered in_force (apply_request t d req).1
  | AdministeredCache now id cache t d req : administered in_force d →
      sends (λ c, put_proxy_cache_handler now c id cache) req → administered in_force (apply_request t d req).1
  | AdministeredPolicy auth who local now id preq t d req : administered in_force d → in_force auth →
      sends (λ c, put_policy_set_handler auth who local now c id preq) req →
      administered in_force (apply_request t d req).1.

#[local] Instance MirrorDirection_eq_dec : EqDecision MirrorDirection.
Proof. solve_decision. Defined.
#[local] Instance MirrorStrategy_eq_dec : EqDecision MirrorStrategy.
Proof. solve_decision. Defined.
#[local] Instance OutboundProxyProtocol_eq_dec : EqDecision OutboundProxyProtocol.
Proof. solve_decision. Defined.
#[local] Instance OutboundProxy_eq_dec : EqDecision OutboundProxy.
Proof. solve_decision. Defined.
#[local] Instance WarmSortBy_eq_dec : EqDecision WarmSortBy.
Proof. solve_decision. Defined.
#[local] Instance WarmFilter_eq_dec : EqDecision WarmFilter.
Proof. solve_decision. Defined.
#[local] Instance PolicySource_eq_dec : EqDecision PolicySource.
Proof. solve_decision. Defined.
#[local] Instance MirrorRule_eq_dec : EqDecision MirrorRule.
Proof. solve_decision. Defined.
#[local] Instance ProxyCache_eq_dec : EqDecision ProxyCache.
Proof. solve_decision. Defined.
#[local] Instance PolicySet_eq_dec : EqDecision PolicySet.
Proof. solve_decision. Defined.
#[local] Instance is_put_rule_dec rule (q : Request) : Decision (q = ReqMirrorConfig (PutMirrorRule rule)).
Proof. destruct q as [|[r| | | | | | | |]| | | | |]; try (right; discriminate). destruct (decide (r = rule)); [left|right]; congruence. Defined.
#[local] Instance is_put_cache_dec cache (q : Request) : Decision (q = ReqMirrorConfig (PutProxyCache cache)).
Proof. destruct q as [|[| | |r| | | | |]| | | | |]; try (right; discriminate). destruct (decide (r = cache)); [left|right]; congruence. Defined.
#[local] Instance is_put_policy_dec policy (q : Request) : Decision (q = ReqPolicy (PutPolicySet policy)).
Proof. destruct q as [| | | |[r|]| |]; try (right; discriminate). destruct (decide (r = policy)); [left|right]; congruence. Defined.

(** What the handlers send is what they validated. *)
Lemma sends_nothing {A} (a : A) (h : Commit → A) req : (∀ c, h c = a) → ¬ sends h req.
Proof.
  intros Ha (k & (r & r' & Hk) & H). destruct Hk.
  assert (∀ x, k x = a) as E; [|by rewrite !E]. intros x. rewrite <-(Ha (CommitAnswered (λ _, x))). by rewrite H.
Qed.
(** A write whose caller drops a cache after it. *)
Lemma dropping_sends {A B} (h : Commit → result A) (x : list Dropped * result B) req :
  passes h req → sends (λ c, try _ := h c at []; x) req.
Proof.
  intros [k Hk]. exists (λ r, try _ := (y ← r; k y) at []; x).
  split; [by exists Panic, (Err (Internal []))|]. intros c. by rewrite Hk.
Qed.
Lemma rule_sent now id rule r : prepare_rule now id rule = Ok r →
  sends (λ c, put_rule now c id rule) (ReqMirrorConfig (PutMirrorRule r)).
Proof.
  unfold put_rule. intros ->. cbn [try_with]. apply dropping_sends, passes_bind, passes_bind, passes_write.
Qed.
Lemma cache_sent now id cache x : prepare_proxy_cache now id cache = Ok x →
  sends (λ c, put_proxy_cache_handler now c id cache) (ReqMirrorConfig (PutProxyCache x)).
Proof.
  unfold put_proxy_cache_handler. intros ->. cbn [try_with]. apply dropping_sends, passes_bind, passes_bind, passes_write.
Qed.
Lemma put_rule_sends now id rule req : sends (λ c, put_rule now c id rule) req →
  ∃ r, prepare_rule now id rule = Ok r ∧ req = ReqMirrorConfig (PutMirrorRule r).
Proof.
  intros H. destruct (prepare_rule now id rule) as [r|e|] eqn:E.
  - exists r. split; [done|]. exact (sends_unique _ _ _ (rule_sent _ _ _ _ E) H).
  - exfalso. revert H. apply (sends_nothing ([], Err e)). intros c. unfold put_rule. by rewrite E.
  - exfalso. revert H. apply (sends_nothing ([], Panic)). intros c. unfold put_rule. by rewrite E.
Qed.
Lemma put_cache_sends now id cache req : sends (λ c, put_proxy_cache_handler now c id cache) req →
  ∃ x, prepare_proxy_cache now id cache = Ok x ∧ req = ReqMirrorConfig (PutProxyCache x).
Proof.
  intros H. destruct (prepare_proxy_cache now id cache) as [r|e|] eqn:E.
  - exists r. split; [done|]. exact (sends_unique _ _ _ (cache_sent _ _ _ _ E) H).
  - exfalso. revert H. apply (sends_nothing ([], Err e)). intros c. unfold put_proxy_cache_handler. by rewrite E.
  - exfalso. revert H. apply (sends_nothing ([], Panic)). intros c. unfold put_proxy_cache_handler. by rewrite E.
Qed.
Lemma put_policy_sends auth who local now id preq req :
  sends (λ c, put_policy_set_handler auth who local now c id preq) req →
  validate_policy_fields id preq = Ok () ∧ reject_reserved_policy_id auth id = Ok () ∧
  req = ReqPolicy (PutPolicySet (new_policy local who now id preq)).
Proof.
  intros H. unfold put_policy_set_handler in H.
  destruct (validate_policy_fields id preq) as [[]|e|];
    [|exfalso; revert H; apply (sends_nothing (Err e)); done|exfalso; revert H; apply (sends_nothing Panic); done].
  destruct (reject_reserved_policy_id auth id) as [[]|e|];
    [|exfalso; revert H; apply (sends_nothing (Err e)); done|exfalso; revert H; apply (sends_nothing Panic); done].
  split_and!; [done..|]. refine (sends_unique _ _ _ _ H).
  apply passes_sends. cbn [mbind result_bind]. apply passes_bind, passes_bind, passes_bind, passes_write.
Qed.

Definition same_settings d d' : Prop :=
  sm_mirror_rules d' = sm_mirror_rules d ∧ sm_proxy_caches d' = sm_proxy_caches d ∧ sm_policy_sets d' = sm_policy_sets d.
Lemma drop_tags_settings d name f : same_settings d (drop_tags d name f).1.
Proof. unfold drop_tags, retain_tags. by destruct (sm_tags d !! name). Qed.
Lemma same_settings_trans d1 d2 d3 : same_settings d1 d2 → same_settings d2 d3 → same_settings d1 d3.
Proof. intros (?&?&?) (?&?&?). repeat split; congruence. Qed.

Lemma apply_manifest_settings d r : same_settings d (apply_manifest d r).1.
Proof.
  destruct r; simpl; unfold apply_put_manifest, apply_delete_manifest, apply_delete_tag, apply_delete_repository,
    apply_delete_manifests; try (destruct (require_expected_namespace _ _ _); cbn [try_with]; [|done..]); try done.
  - destruct (_ && _); [done|]. simpl. by destruct (negb _).
  - unfold drop_tags, retain_tags. repeat case_match; by simplify_eq/=.
  - repeat case_match; by simplify_eq/=.
  - simpl. by destruct (sm_manifests d !! name).
  - unfold drop_tags, retain_tags. repeat case_match; by simplify_eq/=.
Qed.
Lemma other_requests_settings now d req :
  match req with ReqMirrorConfig _ | ReqPolicy _ => False | _ => True end → same_settings d (apply_request now d req).1.
Proof.
  destruct req as [r|r|r|r|r|r|r]; try done; intros _; simpl.
  - pose proof (apply_manifest_settings d r) as H. by destruct (apply_manifest d r) as [d' [| |]].
  - destruct r; simpl; repeat case_match; by simplify_eq/=.
  - destruct r; simpl; repeat case_match; by simplify_eq/=.
  - destruct r; simpl; by destruct (require_expected_namespace _ _ _).
  - unfold apply_namespace. by destruct (apply_namespace_core _ _ _).
Qed.

Definition settings_valid (in_force : option (list ConfigPolicySet) → Prop) d : Prop :=
  (∀ id r, sm_mirror_rules d !! id = Some r → mr_id r = id ∧ valid_rule r) ∧
  (∀ id c, sm_proxy_caches d !! id = Some c → pc_id c = id ∧ valid_cache c) ∧
  (∀ id p, sm_policy_sets d !! id = Some p →
     ps_id p = id ∧ ps_source p = PolicyRaft ∧ cedar_policy_error (ps_cedar_text p) = None ∧
     id ≠ BUILTIN_POLICY_ID ∧ ∃ auth, in_force auth ∧ effective_static_policy auth id = None).

Lemma not_reserved auth id : reject_reserved_policy_id auth id = Ok () →
  id ≠ BUILTIN_POLICY_ID ∧ effective_static_policy auth id = None.
Proof.
  unfold reject_reserved_policy_id, effective_static_policy. case_bool_decide as Hb; [done|]. simpl.
  intros H. split; [done|]. revert H. destruct auth as [sets|]; [|done]. simpl.
  destruct (existsb _ sets) eqn:E; [done|]. intros _.
  assert (filter (λ p, cps_id p = id) sets = []) as ->; [|done].
  apply filter_none. intros p Hp Hid. assert (existsb (λ p, bool_decide (cps_id p = id)) sets = true) as Ht.
  { apply existsb_exists. exists p. split; [by apply list_elem_of_In|by apply bool_decide_eq_true]. }
  by rewrite Ht in E.
Qed.

Lemma settings_frame in_force d d' : same_settings d d' → settings_valid in_force d → settings_valid in_force d'.
Proof. intros (E1 & E2 & E3). unfold settings_valid. by rewrite E1, E2, E3. Qed.

Lemma other_settings in_force t d req : puts_setting req = false →
  settings_valid in_force d → settings_valid in_force (apply_request t d req).1.
Proof.
  intros Hp Hd. pose proof (other_requests_settings t d req) as Ho.
  destruct req as [r|r|r|r|r|r|r]; try (by eapply settings_frame; [apply Ho|]); clear Ho; destruct Hd as (Hr & Hc & Hq); simpl.
  - assert (settings_valid in_force (apply_mirror_config t d r).1) as H; [|by destruct (apply_mirror_config t d r)].
    destruct r as [rule|id|id|cache|id|id|v|image|id]; try done; simpl;
      try (repeat case_match; simplify_eq/=; by split_and!).
    + split; [|by split]. simpl. intros i r [_ H]%lookup_delete_Some. by apply Hr.
    + split; [done|]. split; [|done]. simpl. intros i c [_ H]%lookup_delete_Some. by apply Hc.
  - destruct r as [p|id]; [done|]. simpl. split; [done|]. split; [done|]. simpl.
    intros i q [_ H]%lookup_delete_Some. by apply Hq.
Qed.
Lemma rule_settings in_force t d now id rule r : prepare_rule now id rule = Ok r →
  settings_valid in_force d → settings_valid in_force (apply_request t d (ReqMirrorConfig (PutMirrorRule r))).1.
Proof.
  intros [Hv _]%prepare_rule_valid (Hr & Hc & Hp). split; [|by split]. simpl.
  intros i r' [[<- <-]|[_ H]]%lookup_insert_Some; [done|by apply Hr].
Qed.
Lemma cache_settings in_force t d now id cache x : prepare_proxy_cache now id cache = Ok x →
  settings_valid in_force d → settings_valid in_force (apply_request t d (ReqMirrorConfig (PutProxyCache x))).1.
Proof.
  intros [Hv _]%prepare_cache_valid (Hr & Hc & Hp). split; [done|]. split; [|done]. simpl.
  intros i r' [[<- <-]|[_ H]]%lookup_insert_Some; [done|by apply Hc].
Qed.
Lemma policy_settings (in_force : option (list ConfigPolicySet) → Prop) t d auth who local now id preq : in_force auth →
  validate_policy_fields id preq = Ok () → reject_reserved_policy_id auth id = Ok () →
  settings_valid in_force d →
  settings_valid in_force (apply_request t d (ReqPolicy (PutPolicySet (new_policy local who now id preq)))).1.
Proof.
  intros Hin Hf [Hb Hres]%not_reserved (Hr & Hc & Hp). cbn [apply_request apply_policy].
  destruct (validate_policy_set _) eqn:Ev; simpl; [|by split_and!..]. split; [done|]. split; [done|]. simpl.
  intros i q [[<- <-]|[_ H]]%lookup_insert_Some; [|by apply Hp]. simpl. split_and!; try done; [|by exists auth].
  unfold validate_policy_fields in Hf. do 3 apply result_bind_Ok in Hf as (? & _ & Hf).
  by destruct (cedar_policy_error _).
Qed.

(** C14: the settings in force are always ones the interface accepts: in every state that
    comes about when mirror rules, proxy caches and policies are stored by the requests
    that the handlers of this interface send, whatever is submitted to them and whatever
    other requests are applied, each rule and cache is filed under its own id, has a usable
    upstream, one transport mode, a strategy or filters that make sense and a proxy that
    the HTTP library accepts, and each policy parses, does not have the id of the builtin
    one and did not shadow one of the configuration of the node that stored it. *)
Theorem stored_settings_valid in_force d (Hd : administered in_force d) : settings_valid in_force d.
Proof.
  induction Hd as [|t d req _ IH Hp|now id rule t d req _ IH Hs|now id cache t d req _ IH Hs
    |auth who local now id preq t d req _ IH Hin Hs]; [by split_and!|by apply other_settings|..].
  - apply put_rule_sends in Hs as (r & Hr & ->). by eapply rule_settings.
  - apply put_cache_sends in Hs as (x & Hx & ->). by eapply cache_settings.
  - apply put_policy_sends in Hs as (Hf & Hr & ->). by apply policy_settings with (auth := auth).
Qed.
End settings.

(** * Secrets *)

Section secrets.
Context `{SJ : SerdeJson, OR : Openraft, EX : Externals, HL : HttpLib}.

(** The same settings with other user names and passwords. *)
Definition mask_proxy (f : string → string) (p : OutboundProxy) : OutboundProxy :=
  MkOutboundProxy (op_protocol p) (op_url p) (f <$> op_username p) (f <$> op_password p).
Definition mask_rule (f : string → string) (r : MirrorRule) : MirrorRule :=
  MkMirrorRule (mr_id r) (mr_direction r) (mr_local_prefix r) (mr_upstream_registry r) (mr_upstream_prefix r)
    (mr_schedule r) (mr_strategy r) (mr_plain_http r) (mr_insecure_tls r) (mask_proxy f (mr_outbound_proxy r))
    (f <$> mr_username r) (f <$> mr_password r) (mr_created_at r).
Definition mask_cache (f : string → string) (c : ProxyCache) : ProxyCache :=
  MkProxyCache (pc_id c) (pc_local_prefix c) (pc_upstream_registry c) (pc_upstream_prefix c) (pc_warm_filters c)
    (pc_warm_schedule c) (pc_plain_http c) (pc_insecure_tls c) (mask_proxy f (pc_outbound_proxy c))
    (f <$> pc_username c) (f <$> pc_password c) (pc_created_at c).
Definition mask (f : string → string) (d : StateMachineData) : StateMachineData :=
  set_sm_mirror_rules (mask_rule f <$> sm_mirror_rules d) (set_sm_proxy_caches (mask_cache f <$> sm_proxy_caches d) d).

Lemma configured_mask f o : (∀ s, Str.is_empty (f s) = Str.is_empty s) → configured (f <$> o) = configured o.
Proof. intros Hf. destruct o as [s|]; [|done]. simpl. by rewrite Hf. Qed.
Lemma mask_rule_public f r : (∀ s, Str.is_empty (f s) = Str.is_empty s) →
  mirror_rule_public (mask_rule f r) = mirror_rule_public r.
Proof.
  intros Hf. unfold mirror_rule_public, mask_rule, mask_proxy, outbound_proxy_public. simpl.
  by rewrite !configured_mask by done.
Qed.
Lemma mask_cache_public f c : (∀ s, Str.is_empty (f s) = Str.is_empty s) →
  proxy_cache_public (mask_cache f c) = proxy_cache_public c.
Proof.
  intros Hf. unfold proxy_cache_public, mask_cache, mask_proxy, outbound_proxy_public. simpl.
  by rewrite !configured_mask by done.
Qed.

(** Secrets stay in the server: unless a request asks for them, what it gets to see
    of mirror rules, and in any case what it gets to see of proxy caches, jobs, runs,
    warm images and policies, is the same whatever the user names and passwords of
    upstreams and proxies are, up to whether they are set. *)
Theorem secrets_not_shown (f : string → string) (Hf : ∀ s, Str.is_empty (f s) = Str.is_empty s)
    (include_secrets : option bool) (Hask : include_secrets ≠ Some true) auth d id limit :
  list_rules include_secrets (mask f d) = list_rules include_secrets d ∧
  get_rule include_secrets (mask f d) id = get_rule include_secrets d id ∧
  list_proxy_caches_handler (mask f d) = list_proxy_caches_handler d ∧
  get_proxy_cache (mask f d) id = get_proxy_cache d id ∧
  list_jobs (mask f d) = list_jobs d ∧ get_job (mask f d) id = get_job d id ∧
  list_job_runs (mask f d) id limit = list_job_runs d id limit ∧ list_warm (mask f d) = list_warm d ∧
  list_policy_sets_handler auth (mask f d) = list_policy_sets_handler auth d.
Proof.
  assert (∀ r, rule_view include_secrets (mask_rule f r) = rule_view include_secrets r) as Hv.
  { intros r. unfold rule_view. destruct include_secrets as [[]|]; simpl; [done|by rewrite mask_rule_public..]. }
  split_and!; try done.
  - unfold list_rules, list_mirror_rules, mask. simpl. rewrite btree_values_fmap, <-list_fmap_compose.
    apply list_fmap_ext. intros i r _. apply Hv.
  - unfold get_rule, mask. simpl. rewrite lookup_fmap. destruct (sm_mirror_rules d !! id); simpl; [by rewrite Hv|done].
  - unfold list_proxy_caches_handler, list_proxy_caches, mask. simpl. rewrite btree_values_fmap, <-list_fmap_compose.
    apply list_fmap_ext. intros i c _. by apply mask_cache_public.
  - unfold get_proxy_cache, mask. simpl. rewrite lookup_fmap.
    destruct (sm_proxy_caches d !! id); simpl; [by rewrite mask_cache_public|done].
Qed.
End secrets.

(** * Examples *)

Definition submitted_rule : MirrorRule :=
  MkMirrorRule "ignored" DirPull "mirror/library" " registry-1.docker.io/ " (Some "/library/") None (StrategyLatest 3)
    false false (MkOutboundProxy ProxyNone (Some "http://unused") None None) (Some " bot ") (Some "hunter2") 0.
Definition with_rule : StateMachineData :=
  match prepare_rule 1000 "docker" submitted_rule with
  | Ok r => (apply_request 1000 StateMachineData_default (ReqMirrorConfig (PutMirrorRule r))).1
  | _ => StateMachineData_default
  end.
Definition masked (s : string) : string := if Str.is_empty s then s else "secret".

(** The rule is stored normalized, under the id of the path. *)
Example stored_rule :
  put_rule 1000 (CommitAt 1000 StateMachineData_default) "docker" submitted_rule = ([RulesCache], Ok 200%N) ∧
  sm_mirror_rules with_rule !! "docker" =
    Some (MkMirrorRule "docker" DirPull "mirror/library" "registry-1.docker.io" (Some "library") None (StrategyLatest 3)
      false false (MkOutboundProxy ProxyNone None None None) (Some "bot") (Some "hunter2") 1000).
Proof. split; vm_compute; reflexivity. Qed.

Lemma stored_settings_valid_witness :
  ∃ r, sm_mirror_rules with_rule !! "docker" = Some r ∧ valid_rule r.
Proof.
  destruct (sm_mirror_rules with_rule !! "docker") as [r|] eqn:E; [|vm_compute in E; discriminate E].
  exists r. split; [reflexivity|].
  refine (proj2 (proj1 (stored_settings_valid (.= Some []) with_rule _) "docker" r E)).
  unfold with_rule. destruct (prepare_rule 1000 "docker" submitted_rule) as [x| |] eqn:Ex; [|vm_compute in Ex; discriminate Ex..].
  apply (AdministeredRule _ 1000 "docker" submitted_rule); [constructor|by apply rule_sent].
Defined.

Lemma secrets_not_shown_witness :
  get_rule None (mask masked with_rule) "docker" = get_rule None with_rule "docker" ∧
  get_rule (Some true) (mask masked with_rule) "docker" ≠ get_rule (Some true) with_rule "docker".
Proof.
  split; [|vm_compute; discriminate].
  refine (proj1 (proj2 (secrets_not_shown masked _ None _ None with_rule "docker" None))); [|done].
  intros s. unfold masked. by destruct (Str.is_empty s) eqn:E.
Defined.

(** A job that is running cannot be triggered, and the answer is that it is unknown. *)
Definition with_running_job : StateMachineData :=
  (apply_request 1002 (apply_request 1001 with_rule (ReqMirrorConfig (TriggerMirrorRule "docker"))).1
    (ReqJob (StateMachine.ClaimSyncJob "docker-1001" "node-1"))).1.
Theorem running_job_unknown :
  trigger_job (CommitAt 1003 with_running_job) "docker-1001" = Err (NameUnknown [Disp "docker-1001"]) ∧
  is_ok (get_job with_running_job "docker-1001") = true ∧
  trigger_rule (CommitAt 1003 with_running_job) "docker" = Err (Conflict [Lit "Rule is already running"]).
Proof. split_and!; vm_compute; reflexivity. Qed.
