(* ===== verification/Dashboard.v ===== *)
(** The dashboard interface (crates/layerhouse-server/src/routes/dashboard_api.rs):
    repositories and manifests with their filters, orders and pages, repository
    objects, deletions, and the view of the cluster.

    A handler reads the store of its own node, possibly several times, and writes
    through the replicated store of Router.v; what it reads and what becomes of its
    writes are arguments. The lower-casing of text, the text of a JSON value and the
    parser of dates are parameters. *)

From Stdlib Require Import Ascii.
From stdpp Require Import options.
From S2P Require Import Prelude Errors Digests Manifests Permissions Principals Handles.
From S2P Require Import SyncRuns Types StateMachine RefCounts Samples Reach Content Namespaces.
From S2P Require Import Authorization Decisions Middleware Router Queries Io Mirror Pats Membership.

#[local] Open Scope lh_scope.

(** * Pages *)

Definition DEFAULT_PAGE_SIZE : N := 50.
Definition MAX_PAGE_SIZE : N := 200.
Definition page_size (n : option N) : nat := N.to_nat (N.min (N.max (default DEFAULT_PAGE_SIZE n) 1) MAX_PAGE_SIZE).

(** The page after the item with key [last], from the start if there is none, and
    whether more items follow. *)
Definition paginate {A} (items : list A) (n : nat) (last : option string) (key : A → string) : list A * bool :=
  let start := match last with
               | Some last => match list_find (λ x, key x = last) items with Some (i, _) => S i | None => 0 end
               | None => 0
               end in
  let page := take (S n) (drop start items) in
  if bool_decide (n < length page) then (take n page, true) else (page, false).

Definition next_url (base : string) (n : nat) (last : string) : string :=
  base +:+ "?n=" +:+ Str.of_u64 (N.of_nat n) +:+ "&last=" +:+ last.

(** Orders: [sort_by] is stable. *)
Definition sort_by {A} (cmp : A → A → comparison) (l : list A) : list A := merge_sort (λ a b, cmp a b ≠ Gt) l.
Definition str_cmp (a b : string) : comparison :=
  if bool_decide (a = b) then Eq else if bool_decide (String.le a b) then Lt else Gt.
Definition then_with (a b : comparison) : comparison := match a with Eq => b | _ => a end.

(** * Names *)

Definition is_name_alnum (b : ascii) : bool := Str.is_ascii_lowercase b || Str.is_ascii_digit b.
Definition all_dashes (run : string) : bool := Str.all (λ b, bool_decide (b = "-"%char)) run.
Definition valid_run (run : string) : bool :=
  bool_decide (run = ".") || bool_decide (run = "_") || bool_decide (run = "__") || all_dashes run.
(** The loop over the bytes: [run] is the run of separators read so far, reversed. *)
Fixpoint name_runs (run s : string) : bool :=
  match s with
  | EmptyString => if Str.is_empty run then true else valid_run (Str.rev run)
  | String b s' =>
      if is_name_alnum b then (if Str.is_empty run then true else valid_run (Str.rev run)) && name_runs "" s'
      else name_runs (String b run) s'
  end.
Definition first_alnum (s : string) : bool := match s with String b _ => is_name_alnum b | EmptyString => false end.
Definition is_valid_name_component (component : string) : bool :=
  first_alnum component && first_alnum (Str.rev component) && name_runs "" component.

Fixpoint validate_components (components : list string) : result () :=
  match components with
  | [] => Ok ()
  | c :: components' =>
      if is_valid_name_component c then validate_components components'
      else Err (NameInvalid [Lit "invalid repository name component: "; Disp c])
  end.
Definition validate_repository_name (name : string) : result () :=
  if Str.is_empty name then Err (NameInvalid [Lit "repository name is required"])
  else if bool_decide (255 < String.length name) then Err (NameInvalid [Lit "repository name exceeds 255 characters"])
  else validate_components (Str.split "/" name).

(** * Requests and responses *)

Inductive OwnershipFilter := FilterAll | FilterMine | FilterShared | FilterPublic.
#[global] Instance OwnershipFilter_eq_dec : EqDecision OwnershipFilter.
Proof. solve_decision. Defined.

Record RepositoryQuery := MkRepositoryQuery {
  rq_n : option N;
  rq_last : option string;
  rq_q : option string;
  rq_recency : option string;
  rq_sort : option string;
  rq_filter : OwnershipFilter;
}.
Record EnrichedRepositorySummary := MkEnriched {
  en_summary : RepositorySummary;
  en_access_level : OciAction;
  en_max_grantable : OciAction;
  en_grant_source : GrantSource;
}.
Record RepositoryListResponse := MkRepositoryListResponse {
  rl_repositories : list EnrichedRepositorySummary;
  rl_total_reachable : nat;
  rl_next_cursor : option string;
  rl_link : option string;
}.
Record ManifestQuery := MkManifestQuery {
  mq_n : option N;
  mq_last : option string;
  mq_q : option string;
  mq_kind : option string;
  mq_tag : option string;
  mq_tagged : option bool;
  mq_platform : option string;
  mq_media_type : option string;
  mq_stored_size_min : option N;
  mq_stored_size_max : option N;
  mq_created_after : option string;
  mq_created_before : option string;
  mq_sort : option string;
}.
Record CreateRepositoryRequest := MkCreateRepositoryRequest {
  cr_name : string;
  cr_description : string;
  cr_visibility : Visibility;
}.
Record PatchRepositoryRequest := MkPatchRepositoryRequest {
  pa_description : option string;
  pa_visibility : option Visibility;
}.
Definition authentication_required {A} : result A := Err (Unauthorized [Lit "authentication required"] None None None).

Section dashboard.
Context `{SJ : SerdeJson, OR : Openraft, EX : Externals, CE : !Cedar}.
Context (to_lowercase : string → string) (json_text : Value → string).
Context (rfc3339 : string → message + Z).
(** [header_error v] is why [v] cannot be a header value. *)
Context (header_error : string → option message).
Implicit Types (auth : option (list ConfigPolicySet)) (who : option AuthIdentity) (d : StateMachineData).

Record ManifestListResponse := MkManifestListResponse {
  ml_name : string;
  ml_manifests : list ManifestSummary;
  ml_total : nat;
  ml_has_more : bool;
  ml_link : option string;
}.
Record ManifestDetailResponse := MkManifestDetailResponse {
  mdr_summary : ManifestSummary;
  mdr_access_source : option GrantSource;
  mdr_max_grantable_action : option OciAction;
}.

(** The [Link] header, if there are more items. *)
Definition with_link (has_more : bool) (next : option string) : result (option string) :=
  match next with
  | Some url =>
      if has_more then
        let value := "<" +:+ url +:+ ">; rel=" +:+ quote +:+ "next" +:+ quote in
        match header_error value with None => Ok (Some value) | Some e => Err (Serialization e) end
      else Ok None
  | None => Ok None
  end.

(** * Repositories *)

Definition enrich_repository_summary auth who (rd : GrantReads) (repo : RepositorySummary)
    : result EnrichedRepositorySummary :=
  '(access_level, grant_source) ←
    match auth, who with
    | Some config, Some identity => max_grantable_action config identity (rs_name repo) rd
    | _, _ => Ok (Delete, SrcPublic)
    end;
  Ok (MkEnriched repo access_level access_level grant_source).

Definition en_name (e : EnrichedRepositorySummary) : string := rs_name (en_summary e).
Definition en_modified (e : EnrichedRepositorySummary) : N := rs_last_modified (en_summary e).

(** [d] is the store the summaries come from, [rd] what is read for each repository. *)
Definition enriched auth who d (rd : string → GrantReads) : result (list EnrichedRepositorySummary) :=
  match auth, who with
  | Some _, Some _ =>
      Ok (omap (λ repo, match enrich_repository_summary auth who (rd (rs_name repo)) repo with Ok e => Some e | _ => None end)
            (list_repository_summaries d))
  | _, _ => mapM (λ repo, enrich_repository_summary None None (rd (rs_name repo)) repo) (list_repository_summaries d)
  end.

Definition owned_as (filter : OwnershipFilter) (identity : AuthIdentity) (e : EnrichedRepositorySummary) : bool :=
  let username := default "" (id_username identity) in
  match filter with
  | FilterMine => in_personal_namespace (Some username) (en_name e)
  | FilterShared => negb (in_personal_namespace (Some username) (en_name e))
  | FilterPublic => match rs_visibility (en_summary e) with PublicPull => true | Private => false end
  | FilterAll => true
  end.
Definition retain {A} (f : A → bool) (l : list A) : list A := filter (λ x, f x = true) l.

(** What a listing selects of the repositories in reach, in its order. *)
Definition select_repositories (query : RepositoryQuery) who (now : N) (l : list EnrichedRepositorySummary)
    : list EnrichedRepositorySummary :=
  let l := match who with
           | Some identity => if bool_decide (rq_filter query = FilterAll) then l else retain (owned_as (rq_filter query) identity) l
           | None => l
           end in
  let q := to_lowercase (default "" (rq_q query)) in
  let l := if Str.is_empty q then l else retain (λ e, Str.contains q (to_lowercase (en_name e))) l in
  let age e := U64.saturating_sub now (en_modified e) in
  let l := if bool_decide (rq_recency query = Some "recent") then retain (λ e, bool_decide (age e ≤ 7 * 86400)%N) l
           else if bool_decide (rq_recency query = Some "stale") then retain (λ e, bool_decide (30 * 86400 ≤ age e)%N) l
           else l in
  let by_name a b := str_cmp (en_name a) (en_name b) in
  let sort := default "updated_desc" (rq_sort query) in
  if bool_decide (sort = "name_asc") then sort_by by_name l
  else if bool_decide (sort = "tag_count_desc") then
    sort_by (λ a b, then_with (rs_tag_count (en_summary b) ?= rs_tag_count (en_summary a))%nat (by_name a b)) l
  else if bool_decide (sort = "updated_asc") then
    sort_by (λ a b, then_with (en_modified a ?= en_modified b)%N (by_name a b)) l
  else sort_by (λ a b, then_with (en_modified b ?= en_modified a)%N (by_name a b)) l.

Definition list_repositories_handler auth who d (rd : string → GrantReads) (now : N) (query : RepositoryQuery)
    : result RepositoryListResponse :=
  l ← enriched auth who d rd;
  let selected := select_repositories query who now l in
  let n := page_size (rq_n query) in
  let '(page, has_more) := paginate selected n (rq_last query) en_name in
  let next := (λ e, next_url "/api/v1/repositories" n (en_name e)) <$> last page in
  link ← with_link has_more next;
  Ok (MkRepositoryListResponse page (length selected) next link).

(** The permission check in front of a handler that needs [action]. *)
Definition require_permission (action : OciAction) auth who (name : string) (rd : Reads) : result (option NamespaceEpoch) :=
  match auth with
  | None => Ok None
  | Some config =>
      match who with
      | None => authentication_required
      | Some identity => access ← check_permission config identity name action rd; Ok (aa_expected_namespace access)
      end
  end.
Definition require_update_permission := require_permission Update.
Definition require_delete_permission := require_permission Delete.

Definition get_repository auth who d (name : string) (rd : Reads) (gr : GrantReads) : result EnrichedRepositorySummary :=
  let name := percent_decode name in
  _ ← validate_repository_name name;
  _ ← require_permission Pull auth who name rd;
  summary ← ok_or (NameUnknown [Disp name]) (head (filter (λ r, rs_name r = name) (list_repository_summaries d)));
  enrich_repository_summary auth who gr summary.

(** The write of a repository object: with authentication on, under the epoch of the
    check; otherwise under the one of the local store. *)
Definition put_repository_object auth (c : Commit) (local : StateMachineData) (repo : Repository)
    (expected_namespace : option NamespaceEpoch) : result () :=
  match auth with
  | Some _ => put_repository_with_expected_namespace c repo expected_namespace
  | None => put_repository c local repo
  end.

Definition create_repository auth who (rd : Reads) d (now : N) (c : Commit) (local : StateMachineData)
    (req : CreateRepositoryRequest) : result Repository :=
  let name := Str.trim (cr_name req) in
  _ ← validate_repository_name name;
  expected_namespace ← require_permission Create auth who name rd;
  let created_by := match auth with Some _ => id_subject <$> who | None => None end in
  if bool_decide (is_Some (sm_repositories d !! name)) then
    Err (Conflict [Lit "repository already exists: "; Disp name])
  else
    let repo := MkRepository name (Str.trim (cr_description req)) created_by (cr_visibility req) now in
    _ ← put_repository_object auth c local repo expected_namespace;
    Ok repo.

Definition patched (req : PatchRepositoryRequest) (repo : Repository) : Repository :=
  MkRepository (repo_name repo) (from_option Str.trim (repo_description repo) (pa_description req)) (repo_created_by repo)
    (default (repo_visibility repo) (pa_visibility req)) (repo_created_at repo).
Definition patch_repository auth who (name : string) (rd : Reads) d (c : Commit) (local : StateMachineData)
    (req : PatchRepositoryRequest) : result Repository :=
  let name := percent_decode name in
  _ ← validate_repository_name name;
  expected_namespace ← require_update_permission auth who name rd;
  repo ← ok_or (NameUnknown [Disp name]) (sm_repositories d !! name);
  let repo := patched req repo in
  _ ← put_repository_object auth c local repo expected_namespace;
  Ok repo.

(** * Manifests *)

Definition type_matches (item : ManifestSummary) (kind : string) : bool :=
  let artifact_type := default "" (ms_artifact_type item) in
  let is_image := Str.contains "image.config" artifact_type in
  let is_helm := Str.contains "helm.config" artifact_type in
  let is_wasm := Str.contains "wasm.config" artifact_type in
  let is_oci_artifact := Str.contains "artifact.manifest" artifact_type || Str.contains "artifact.manifest" (ms_media_type item) in
  if bool_decide (kind = "image") then is_image
  else if bool_decide (kind = "helm") then is_helm
  else if bool_decide (kind = "wasm") then is_wasm
  else if bool_decide (kind = "artifact") then is_oci_artifact
  else if bool_decide (kind = "unknown") then negb is_image && negb is_helm && negb is_wasm && negb is_oci_artifact
  else true.

Definition search_blob (item : ManifestSummary) : string :=
  to_lowercase (Str.join " "
    ([ms_digest item; ms_media_type item; default "" (ms_artifact_type item); Str.join " " (ms_tags item)]
     ++ option_list (json_text <$> ms_config_summary item) ++ option_list (json_text <$> ms_annotations item))).

Definition parse_rfc3339_epoch (value field : string) : result N :=
  match rfc3339 value with
  | inl e => Err (NameInvalid (Disp field :: Lit " is invalid: " :: e))
  | inr t => if bool_decide (0 ≤ t)%Z then Ok (Z.to_N t)
             else Err (NameInvalid [Disp field; Lit " must be after 1970-01-01"])
  end.

(** One filter of the query, if the query has it. *)
Definition when {A} (o : option A) (f : A → ManifestSummary → bool) (l : list ManifestSummary) : list ManifestSummary :=
  match o with Some x => retain (f x) l | None => l end.
Definition select_manifests (query : ManifestQuery) (l : list ManifestSummary) : result (list ManifestSummary) :=
  let q := to_lowercase (default "" (mq_q query)) in
  let l := if Str.is_empty q then l else retain (λ item, Str.contains q (search_blob item)) l in
  let l := when (mq_kind query) (λ kind item, bool_decide (kind = "all") || type_matches item kind) l in
  let l := when (mq_tagged query) (λ tagged item, bool_decide (bool_decide (ms_tags item = []) ≠ tagged)) l in
  let l := when (mq_tag query) (λ pattern item, Str.is_empty pattern || existsb (glob_matches pattern) (ms_tags item)) l in
  let l := when (mq_media_type query) (λ media_type item,
             bool_decide (ms_artifact_type item = Some media_type) || bool_decide (ms_media_type item = media_type)) l in
  let l := when (mq_platform query) (λ platform item, Str.contains (to_lowercase platform) (search_blob item)) l in
  let l := when (mq_stored_size_min query) (λ lo item, bool_decide (lo ≤ ms_stored_size_bytes item)%N) l in
  let l := when (mq_stored_size_max query) (λ hi item, bool_decide (ms_stored_size_bytes item ≤ hi)%N) l in
  l ← match mq_created_after query with
      | None => Ok l
      | Some v => lower ← parse_rfc3339_epoch v "created_after";
                  Ok (retain (λ item, bool_decide (lower ≤ ms_created_at item)%N) l)
      end;
  l ← match mq_created_before query with
      | None => Ok l
      | Some v => upper ← parse_rfc3339_epoch v "created_before";
                  Ok (retain (λ item, bool_decide (ms_created_at item ≤ upper)%N) l)
      end;
  let sort := default "updated_desc" (mq_sort query) in
  Ok (if bool_decide (sort = "updated_asc") then sort_by (λ a b, ms_last_modified a ?= ms_last_modified b)%N l
      else if bool_decide (sort = "stored_size_desc") then sort_by (λ a b, ms_stored_size_bytes b ?= ms_stored_size_bytes a)%N l
      else if bool_decide (sort = "stored_size_asc") then sort_by (λ a b, ms_stored_size_bytes a ?= ms_stored_size_bytes b)%N l
      else if bool_decide (sort = "digest_asc") then sort_by (λ a b, str_cmp (ms_digest a) (ms_digest b)) l
      else if bool_decide (sort = "tag_count_desc") then sort_by (λ a b, length (ms_tags b) ?= length (ms_tags a))%nat l
      else sort_by (λ a b, ms_last_modified b ?= ms_last_modified a)%N l).

Definition list_manifests d (name : string) (query : ManifestQuery) : result ManifestListResponse :=
  let name := percent_decode name in
  selected ← select_manifests query (list_manifest_summaries d name);
  let n := page_size (mq_n query) in
  let '(page, has_more) := paginate selected n (mq_last query) ms_digest in
  let next := (λ item, next_url ("/api/v1/repositories/" +:+ name +:+ "/manifests") n (ms_digest item)) <$> last page in
  link ← with_link has_more next;
  Ok (MkManifestListResponse name page (length selected) has_more link).

Definition get_manifest_view auth who d (gr : GrantReads) (name digest : string) : result ManifestDetailResponse :=
  let name := percent_decode name in
  manifest ← ok_or (ManifestUnknown [Disp digest]) (head (filter (λ m, ms_digest m = digest) (list_manifest_summaries d name)));
  match auth, who with
  | Some config, Some identity =>
      match max_grantable_action config identity name gr with
      | Ok (action, source) => Ok (MkManifestDetailResponse manifest (Some source) (Some action))
      | Err _ => Ok (MkManifestDetailResponse manifest None None)
      | Panic => Panic
      end
  | _, _ => Ok (MkManifestDetailResponse manifest (Some SrcPublic) (Some Delete))
  end.

Definition get_raw_manifest d (name digest : string) : result Value :=
  let name := percent_decode name in
  entry ← ok_or (ManifestUnknown [Disp digest]) (StateMachine.get_manifest d name digest);
  ok_or (Serialization []) (from_slice (me_body entry)).

(** * Deletions *)

Definition checked_digest (digest : string) : result Digest :=
  ok_or (DigestInvalid [Disp digest]) (from_str_checked digest).
Fixpoint checked_digests (digests : list string) : result (list Digest) :=
  match digests with [] => Ok [] | x :: l => y ← checked_digest x; ys ← checked_digests l; Ok (y :: ys) end.

Definition delete_tag_handler auth who (name digest tag : string) (rd : Reads) (c : Commit) (local : StateMachineData)
    : result () :=
  let name := percent_decode name in
  expected_namespace ← require_delete_permission auth who name rd;
  digest ← checked_digest digest;
  deleted ← match auth with
            | Some _ => delete_tag_with_expected_namespace c name digest tag expected_namespace
            | None => delete_tag c local name digest tag
            end;
  if (deleted : bool) then Ok () else Err (NameUnknown [Disp tag]).
Definition delete_manifests_of auth (c : Commit) (local : StateMachineData) (name : string) (digests : list Digest)
    (expected_namespace : option NamespaceEpoch) : result DeleteCounts :=
  match auth with
  | Some _ => delete_manifests_with_expected_namespace c name digests expected_namespace
  | None => delete_manifests c local name digests
  end.
Definition delete_manifest_handler auth who (name digest : string) (rd : Reads) (c : Commit) (local : StateMachineData)
    : result DeleteCounts :=
  let name := percent_decode name in
  expected_namespace ← require_delete_permission auth who name rd;
  digest ← checked_digest digest;
  delete_manifests_of auth c local name [digest] expected_namespace.
Definition batch_delete_manifests auth who (name : string) (digests : list string) (rd : Reads) (c : Commit)
    (local : StateMachineData) : result DeleteCounts :=
  let name := percent_decode name in
  expected_namespace ← require_delete_permission auth who name rd;
  digests ← checked_digests digests;
  delete_manifests_of auth c local name digests expected_namespace.

(** Two writes: the content, then the repository object. *)
Definition delete_repository_handler auth who (name : string) (rd : Reads) (c c' : Commit)
    (local local' : StateMachineData) : result DeleteCounts :=
  let name := percent_decode name in
  expected_namespace ← require_delete_permission auth who name rd;
  counts ← match auth with
           | Some _ => delete_repository_with_expected_namespace c name expected_namespace
           | None => delete_repository c local name
           end;
  _ ← match auth with
      | Some _ => delete_repository_meta_with_expected_namespace c' name expected_namespace
      | None => delete_repository_meta c' local' name
      end;
  Ok counts.
(** * Dispatch *)

Inductive DashResponse :=
  | RepositoryView (e : EnrichedRepositorySummary)
  | RepositoryObject (r : Repository)
  | ManifestPage (r : ManifestListResponse)
  | ManifestView (r : ManifestDetailResponse)
  | RawManifest (v : Value)
  | Counts (c : DeleteCounts)
  | NoContent.

(** What a request reads and writes: the store at the gate in front of manifest reads,
    at the handler's own check and when the handler reads, the reads behind the view of
    what may be granted, and its writes. *)
Record DashEnv := MkDashEnv {
  de_gate : Reads;
  de_check : Reads;
  de_store : StateMachineData;
  de_grant : GrantReads;
  de_commit : Commit;
  de_commit2 : Commit;
  de_local : StateMachineData;
  de_local2 : StateMachineData;
}.
(** The parsed parts of a request: its query, and its body as one of two requests. *)
Record DashBody := MkDashBody {
  db_query : message + ManifestQuery;
  db_digests : message + list string;
  db_patch : message + PatchRepositoryRequest;
}.
Definition parsed {A} (x : message + A) : result A := match x with inl e => Err (NameInvalid e) | inr a => Ok a end.

(** The parts before and after the last occurrence. *)
Fixpoint split_last (x : string) (l : list string) : option (list string * list string) :=
  match l with
  | [] => None
  | y :: l' =>
      match split_last x l' with
      | Some (a, b) => Some (y :: a, b)
      | None => if bool_decide (y = x) then Some ([], l') else None
      end
  end.

(** The requests below [manifests]. *)
Definition manifests_dispatch auth who (env : DashEnv) (method : Method) (name : string) (tail : list string)
    (body : DashBody) : result DashResponse :=
  match method, tail with
  | GET, [] => query ← parsed (db_query body); ManifestPage <$> list_manifests (de_store env) name query
  | GET, [digest] => ManifestView <$> get_manifest_view auth who (de_store env) (de_grant env) name digest
  | DELETE, [digest] =>
      Counts <$> delete_manifest_handler auth who name digest (de_check env) (de_commit env) (de_local env)
  | GET, [digest; "raw"] => RawManifest <$> get_raw_manifest (de_store env) name digest
  | DELETE, [digest; "tags"; tag] =>
      _ ← delete_tag_handler auth who name digest (percent_decode tag) (de_check env) (de_commit env) (de_local env);
      Ok NoContent
  | _, _ => Err (Unsupported [Lit "method not allowed"])
  end.
Definition read_gate auth who (env : DashEnv) (method : Method) (name : string) : result () :=
  match method, auth, who with
  | GET, Some config, Some identity => _ ← check_permission config identity name Pull (de_gate env); Ok ()
  | _, _, _ => Ok ()
  end.

(** [path] is what follows [/api/v1/repositories/], already decoded once. *)
Definition repository_dispatch_result auth who (env : DashEnv) (method : Method) (path : string) (body : DashBody)
    : result DashResponse :=
  let path := trim_end_slashes path in
  let parts := Str.split "/" path in
  let plain := negb (bool_decide ("manifests" ∈ parts)) in
  match method, Str.strip_suffix "/manifests:batch-delete" path with
  | POST, Some name =>
      digests ← parsed (db_digests body);
      Counts <$> batch_delete_manifests auth who name digests (de_check env) (de_commit env) (de_local env)
  | _, _ =>
      if bool_decide (method = GET) && plain then
        RepositoryView <$> get_repository auth who (de_store env) path (de_check env) (de_grant env)
      else if bool_decide (method = PATCH) && plain then
        req ← parsed (db_patch body);
        RepositoryObject <$> patch_repository auth who path (de_check env) (de_store env) (de_commit env) (de_local env) req
      else if bool_decide (method = DELETE) && plain then
        Counts <$> delete_repository_handler auth who path (de_check env) (de_commit env) (de_commit2 env) (de_local env)
                     (de_local2 env)
      else match split_last "manifests" parts with
           | None => Err (NameUnknown [Disp path])
           | Some (before, tail) =>
               let name := Str.join "/" before in
               _ ← read_gate auth who env method name;
               manifests_dispatch auth who env method name tail body
           end
  end.
End dashboard.

(** * The cluster *)

Record ClusterMember := MkClusterMember {
  cm_node_id : N;
  cm_address : string;
  cm_role : string;
  cm_status : string;
  cm_commit_index : option N;
  cm_replication_lag_ms : option N;
}.
Record DashboardClusterStatus := MkDashboardClusterStatus {
  dcs_cluster_id : string;
  dcs_leader_id : option N;
  dcs_term : N;
  dcs_quorum : nat;
  dcs_healthy_voters : nat;
  dcs_updated_at : N;
  dcs_voters : list ClusterMember;
  dcs_learners : list ClusterMember;
}.
Definition matching_log (raw : ClusterStatus) (id : N) : option (option N) :=
  snd <$> head (filter (λ p, p.1 = id) (cs_replication raw)).
Definition voter_view (raw : ClusterStatus) (node : NodeInfo) : ClusterMember :=
  let leads := bool_decide (cs_leader_id raw = Some (ni_id node)) in
  let matching := matching_log raw (ni_id node) in
  MkClusterMember (ni_id node) (ni_addr node) (if leads then "leader" else "voter")
    (if leads || bool_decide (matching = Some (cs_last_applied_log raw)) then "healthy" else "lagging")
    (if leads then cs_last_applied_log raw else or_else (matching ≫= id) (cs_last_applied_log raw))
    (if leads then Some 0%N
     else last ← cs_last_applied_log raw; m ← matching ≫= id; Some (U64.saturating_sub last m)).
Definition dashboard_status_from_raw (raw : ClusterStatus) (now : N) : DashboardClusterStatus :=
  let voters := voter_view raw <$> cs_voters raw in
  MkDashboardClusterStatus ("layerhouse-" +:+ Str.of_u64 (cs_node_id raw)) (cs_leader_id raw) (cs_term raw)
    (length (cs_voters raw) `div` 2 + 1) (length (filter (λ v, cm_status v = "healthy") voters)) now voters
    ((λ node, MkClusterMember (ni_id node) (ni_addr node) "learner" "healthy" (cs_last_applied_log raw) None)
       <$> cs_learners raw).
Definition raft_not_available {A} : result A := Err (Serialization [Lit "raft not available"]).
(** [remote] is what the leader answers to a request for its status. *)
Definition raw_cluster_status (m : RaftMetrics) (remote : string → message + ClusterStatus) : result ClusterStatus :=
  let status := build_cluster_status m in
  match cs_state status, cs_leader_addr status with
  | Leader, _ | _, None => Ok status
  | _, Some addr => match remote addr with inl e => Err (Consensus e) | inr s => Ok s end
  end.
Definition cluster_status (raft : option RaftMetrics) (remote : string → message + ClusterStatus) (now : N)
    : result DashboardClusterStatus :=
  m ← match raft with Some m => Ok m | None => raft_not_available end;
  raw ← raw_cluster_status m remote;
  Ok (dashboard_status_from_raw raw now).

(** A change of the cluster: the response of the handler of Membership.v, and the
    status afterwards if it is a success. *)
Definition response_status (r : MemberResponse) : N :=
  match r with JoinReply s _ | LeaveReply s _ | TextReply s _ => s end.
Definition after_change (r : MemberResponse) (after : RaftMetrics) (remote : string → message + ClusterStatus) (now : N)
    : result (MemberResponse + DashboardClusterStatus) :=
  if bool_decide (200 ≤ response_status r < 300)%N then
    raw ← raw_cluster_status after remote; Ok (inr (dashboard_status_from_raw raw now))
  else Ok (inl r).
Definition cluster_join (env : option ChangeEnv) (learner change : option string) (req : JoinRequest) (after : RaftMetrics)
    (remote : string → message + ClusterStatus) (now : N)
    : list RaftCall * result (MemberResponse + DashboardClusterStatus) :=
  match env with
  | None => ([], raft_not_available)
  | Some env =>
      let '(calls, r) := handle_join env learner change req in (calls, after_change r after remote now)
  end.
Definition cluster_remove (env : option ChangeEnv) (change : ChangeAnswer) (node_id : N) (after : RaftMetrics)
    (remote : string → message + ClusterStatus) (now : N)
    : list RaftCall * result (MemberResponse + DashboardClusterStatus) :=
  match env with
  | None => ([], raft_not_available)
  | Some env =>
      let '(calls, r) := handle_leave env change node_id in (calls, after_change r after remote now)
  end.
(** The node itself leaves; its metrics say who it is. *)
Definition cluster_leave (raft : option (RaftMetrics * ChangeEnv)) (change : ChangeAnswer) (after : RaftMetrics)
    (remote : string → message + ClusterStatus) (now : N)
    : list RaftCall * result (MemberResponse + DashboardClusterStatus) :=
  match raft with
  | None => ([], raft_not_available)
  | Some (m, env) => cluster_remove (Some env) change (rm_id m) after remote now
  end.

(** * Writes are authorized *)

Section authorized.
Context `{SJ : SerdeJson, OR : Openraft, EX : Externals, CE : !Cedar}.
Implicit Types (d : StateMachineData) (config : list ConfigPolicySet).

(** Repository objects are stored under their own names. *)
Definition repositories_keyed (d : StateMachineData) : Prop :=
  ∀ name r, sm_repositories d !! name = Some r → repo_name r = name.

Lemma repositories_keyed_request now d req :
  repositories_keyed d → repositories_keyed (apply_request now d req).1.
Proof.
  intros Hd. assert (∀ d', sm_repositories d' = sm_repositories d → repositories_keyed d') as Hframe
    by (intros d' E name r; rewrite E; apply Hd).
  destruct req as [r|r|r|r|r|r|r]; simpl.
  - apply Hframe. destruct (apply_manifest_frame d r) as [_ ?]. by destruct (apply_manifest d r).
  - apply Hframe. destruct (apply_mirror_config_frame now d r) as (_ & _ & ?). by destruct (apply_mirror_config now d r).
  - apply Hframe. destruct (apply_job_frame now d r) as (_ & _ & ?). by destruct (apply_job now d r).
  - apply Hframe. destruct (apply_token_frame d r) as (_ & _ & ?). by destruct (apply_token d r).
  - apply Hframe, apply_policy_frame.
  - destruct r as [repo e|n e]; simpl; (destruct (require_expected_namespace _ _ _); [|done..]); intros name r; simpl.
    + rewrite lookup_insert_Some. intros [[<- <-]|[_ ?]]; [done|by apply Hd].
    + rewrite lookup_delete_Some. intros [_ ?]. by apply Hd.
  - apply Hframe, apply_namespace_frame.
Qed.

Lemma reachable_repositories_keyed d : reachable d → repositories_keyed d.
Proof.
  revert d. apply (reachable_invariant repositories_keyed); [|done|done|].
  - intros name r. simpl. by rewrite lookup_empty.
  - intros now d req Hd _. by apply repositories_keyed_request.
Qed.

(** The one request that [h] sends goes to [name], under the namespace epoch that the
    permission check saw when it allowed the caller [action] there. *)
Definition authorized_write {A} config (who : option AuthIdentity) (name : string) (action : OciAction) (rd : Reads)
    (h : Commit → result A) : Prop :=
  ∃ identity access req,
    who = Some identity ∧ check_permission config identity name action rd = Ok access ∧
    content_target req = Some (name, aa_expected_namespace access) ∧ passes h req.

Lemma require_permission_Ok config who name action rd e :
  require_permission action (Some config) who name rd = Ok e →
  ∃ identity access, who = Some identity ∧ check_permission config identity name action rd = Ok access ∧
    e = aa_expected_namespace access.
Proof.
  unfold require_permission. destruct who as [identity|]; [|done].
  intros (access & H & [= <-])%result_bind_Ok. by exists identity, access.
Qed.

Lemma authorized_sends {A} config who name action rd e (h : Commit → result A) req :
  require_permission action (Some config) who name rd = Ok e → content_target req = Some (name, e) →
  passes h req → authorized_write config who name action rd h.
Proof.
  intros (identity & access & -> & Hc & ->)%require_permission_Ok Ht Hp. by exists identity, access, req.
Qed.
Lemma authorized_fmap {A B} (f : A → B) config who name action rd (h : Commit → result A) :
  authorized_write config who name action rd h → authorized_write config who name action rd (λ c, f <$> h c).
Proof. intros (i & a & q & ? & ? & ? & ?). exists i, a, q. split_and!; try done. by apply passes_fmap. Qed.
Lemma authorized_bind {A B} (k : A → result B) config who name action rd (h : Commit → result A) :
  authorized_write config who name action rd h → authorized_write config who name action rd (λ c, x ← h c; k x).
Proof. intros (i & a & q & ? & ? & ? & ?). exists i, a, q. split_and!; try done. by apply passes_bind. Qed.

Lemma authorized_ext {A} config who name action rd (h h' : Commit → result A) :
  authorized_write config who name action rd h → (∀ c, h' c = h c) → authorized_write config who name action rd h'.
Proof. intros (i & a & q & ? & ? & ? & ?) E. exists i, a, q. split_and!; try done. by eapply passes_ext. Qed.

Lemma create_authorized config who rd d now c local req repo :
  create_repository (Some config) who rd d now c local req = Ok repo →
  authorized_write config who (repo_name repo) Create rd (λ c, create_repository (Some config) who rd d now c local req) ∧
  validate_repository_name (repo_name repo) = Ok ().
Proof.
  unfold create_repository. destruct (validate_repository_name (Str.trim (cr_name req))) as [[]| |] eqn:Hv; [|done..].
  destruct (require_permission Create (Some config) who (Str.trim (cr_name req)) rd) as [e| |] eqn:Hp; [|done..].
  cbn [mbind result_bind]. case_bool_decide; [done|]. intros (u & _ & [= <-])%result_bind_Ok. simpl. split; [|done].
  eapply authorized_sends; [done| |apply passes_bind, passes_bind, passes_bind, passes_write]. done.
Qed.

Lemma patch_authorized config who name rd d c local req repo :
  repositories_keyed d → patch_repository (Some config) who name rd d c local req = Ok repo →
  authorized_write config who (percent_decode name) Update rd
    (λ c, patch_repository (Some config) who name rd d c local req).
Proof.
  intros Hd. unfold patch_repository. destruct (validate_repository_name _) as [[]| |]; [|done..].
  destruct (require_update_permission _ _ _ _) as [e| |] eqn:Hp; [|done..]. cbn [mbind result_bind].
  destruct (sm_repositories d !! percent_decode name) as [old|] eqn:E; [|done]. intros _.
  eapply authorized_sends; [done| |apply passes_bind, passes_bind, passes_bind, passes_write].
  simpl. by rewrite (Hd _ _ E).
Qed.

Lemma delete_tag_authorized config who name digest tag rd c local u :
  delete_tag_handler (Some config) who name digest tag rd c local = Ok u →
  authorized_write config who (percent_decode name) Delete rd
    (λ c, delete_tag_handler (Some config) who name digest tag rd c local).
Proof.
  unfold delete_tag_handler. destruct (require_delete_permission _ _ _ _) as [e| |] eqn:Hp; [|done..].
  cbn [mbind result_bind]. destruct (checked_digest digest) as [dg| |]; [|done..]. intros _.
  eapply authorized_sends; [done| |apply passes_bind, passes_bind, passes_bind, passes_write]. done.
Qed.

Lemma delete_manifests_authorized config who name digests rd local e :
  require_delete_permission (Some config) who name rd = Ok e →
  authorized_write config who name Delete rd (λ c, delete_manifests_of (Some config) c local name digests e).
Proof. intros Hp. eapply authorized_sends; [done| |apply passes_bind, passes_bind, passes_write]. done. Qed.
Lemma delete_manifest_authorized config who name digest rd c local n :
  delete_manifest_handler (Some config) who name digest rd c local = Ok n →
  authorized_write config who (percent_decode name) Delete rd
    (λ c, delete_manifest_handler (Some config) who name digest rd c local).
Proof.
  unfold delete_manifest_handler. destruct (require_delete_permission _ _ _ _) as [e| |] eqn:Hp; [|done..].
  cbn [mbind result_bind]. destruct (checked_digest digest) as [dg| |]; [|done..]. intros _.
  by apply delete_manifests_authorized.
Qed.
Lemma batch_delete_authorized config who name digests rd c local n :
  batch_delete_manifests (Some config) who name digests rd c local = Ok n →
  authorized_write config who (percent_decode name) Delete rd
    (λ c, batch_delete_manifests (Some config) who name digests rd c local).
Proof.
  unfold batch_delete_manifests. destruct (require_delete_permission _ _ _ _) as [e| |] eqn:Hp; [|done..].
  cbn [mbind result_bind]. destruct (checked_digests digests) as [dg| |]; [|done..]. intros _.
  by apply delete_manifests_authorized.
Qed.

(** The first write, and the second when the first has succeeded. *)
Lemma delete_repository_authorized config who name rd c c' local local' counts :
  delete_repository_handler (Some config) who name rd c c' local local' = Ok counts →
  authorized_write config who (percent_decode name) Delete rd
    (λ c, delete_repository_handler (Some config) who name rd c c' local local') ∧
  authorized_write config who (percent_decode name) Delete rd
    (λ c', delete_repository_handler (Some config) who name rd c c' local local').
Proof.
  unfold delete_repository_handler. destruct (require_delete_permission _ _ _ _) as [e| |] eqn:Hp; [|done..].
  cbn [mbind result_bind]. intros (n & Hw & _)%result_bind_Ok. split.
  - eapply authorized_sends; [done| |apply passes_bind, passes_bind, passes_bind, passes_write]. done.
  - rewrite Hw. cbn [mbind result_bind].
    eapply authorized_sends; [done| |apply passes_bind, passes_bind, passes_bind, passes_write]. done.
Qed.

Lemma join_app_prefix sep l1 l2 : ∃ rest, Str.join sep (l1 ++ l2) = Str.join sep l1 +:+ rest.
Proof.
  induction l1 as [|x [|y l1] IH].
  - by exists (Str.join sep l2).
  - destruct l2 as [|y l2]; [exists ""; by rewrite app_nil_r_str|by exists (sep +:+ Str.join sep (y :: l2))].
  - destruct IH as [rest IH]. exists rest. simpl app in *. by rewrite !join_cons, IH, !app_assoc_str.
Qed.
Lemma split_last_Some x l before tail : split_last x l = Some (before, tail) → l = before ++ x :: tail.
Proof.
  revert before. induction l as [|y l IH]; intros before; simpl; [done|].
  destruct (split_last x l) as [[a b]|]; [intros [= <- <-]; by rewrite (IH a)|].
  case_bool_decide; [|done]. by intros [= <- <-]; subst.
Qed.

(** The path of a request starts with the encoding of [name]. *)
Definition path_names (path name : string) : Prop :=
  ∃ raw rest, trim_end_slashes path = raw +:+ rest ∧ name = percent_decode raw.

(** The same surroundings with other fates of the first and of the second write. *)
Definition with_commit1 (c : Commit) (env : DashEnv) : DashEnv :=
  MkDashEnv (de_gate env) (de_check env) (de_store env) (de_grant env) c (de_commit2 env) (de_local env) (de_local2 env).
Definition with_commit2 (c : Commit) (env : DashEnv) : DashEnv :=
  MkDashEnv (de_gate env) (de_check env) (de_store env) (de_grant env) (de_commit env) c (de_local env) (de_local2 env).

(** The requests below [manifests] that write. *)
Lemma manifests_dispatch_authorized lower jt rfc he config who env method name tail body r :
  method ≠ GET → manifests_dispatch lower jt rfc he (Some config) who env method name tail body = Ok r →
  method = DELETE ∧ authorized_write config who (percent_decode name) Delete (de_check env)
    (λ c, manifests_dispatch lower jt rfc he (Some config) who (with_commit1 c env) method name tail body).
Proof.
  intros Hm. unfold manifests_dispatch. destruct method; try done; destruct tail as [|x tail]; try done.
  destruct tail as [|y [|z [|w tail]]]; try (repeat case_match; done).
  - intros (n & Hd & _)%result_fmap_Ok. split; [done|]. by eapply authorized_fmap, delete_manifest_authorized.
  - intros H. split; [done|]. revert H.
    repeat (case_match; try done); intros (u & Hd & _)%result_bind_Ok;
      by eapply authorized_bind, delete_tag_authorized.
Qed.

Definition below_manifests lower jt rfc he auth who env method p body : result DashResponse :=
  match split_last "manifests" (Str.split "/" p) with
  | None => Err (NameUnknown [Disp p])
  | Some (before, tail) =>
      _ ← read_gate auth who env method (Str.join "/" before);
      manifests_dispatch lower jt rfc he auth who env method (Str.join "/" before) tail body
  end.
Lemma below_manifests_authorized lower jt rfc he config who env method p body r :
  method ≠ GET → below_manifests lower jt rfc he (Some config) who env method p body = Ok r →
  method = DELETE ∧ "manifests" ∈ Str.split "/" p ∧
  ∃ raw rest, p = raw +:+ rest ∧
    authorized_write config who (percent_decode raw) Delete (de_check env)
      (λ c, below_manifests lower jt rfc he (Some config) who (with_commit1 c env) method p body).
Proof.
  intros Hm. unfold below_manifests. destruct (split_last _ _) as [[before tail]|] eqn:Hs; [|done]. apply split_last_Some in Hs.
  assert (∀ e, read_gate (Some config) who e method (Str.join "/" before) = Ok ()) as Hg by by destruct method.
  rewrite Hg. cbn [mbind result_bind].
  intros [-> Hw]%manifests_dispatch_authorized; [|done]. split_and!; [done|by rewrite Hs; set_solver|].
  destruct (join_app_prefix "/" before ("manifests" :: tail)) as [rest Hj].
  rewrite <-Hs, join_split in Hj. by exists (Str.join "/" before), rest.
Qed.
End authorized.

(** C13: with authentication on, every write of the dashboard interface was authorized:
    the one request a handler that succeeds sends (the first and the second one, when a
    repository is deleted) creates, changes or deletes a repository object, or deletes a
    tag, a manifest, a batch of manifests or all content, of exactly the repository on
    which the permission check allowed the caller the create, update or delete action, and
    it carries the namespace epoch that check saw. A created repository has a valid
    name. *)
Theorem dashboard_writes_authorized `{SJ : SerdeJson, OR : Openraft, EX : Externals, CE : !Cedar}
    (config : list ConfigPolicySet) (who : option AuthIdentity) :
  (∀ rd d now c local req repo,
     create_repository (Some config) who rd d now c local req = Ok repo →
     authorized_write config who (repo_name repo) Create rd
       (λ c, create_repository (Some config) who rd d now c local req) ∧
     validate_repository_name (repo_name repo) = Ok ()) ∧
  (∀ lower jt rfc he env method path body r,
     let dispatch env := repository_dispatch_result lower jt rfc he (Some config) who env method path body in
     reachable (de_store env) → method ≠ GET → dispatch env = Ok r →
     ∃ name, path_names path name ∧
       authorized_write config who name (if decide (method = PATCH) then Update else Delete) (de_check env)
         (λ c, dispatch (with_commit1 c env)) ∧
       (method = DELETE → "manifests" ∉ Str.split "/" (trim_end_slashes path) →
        authorized_write config who name Delete (de_check env) (λ c, dispatch (with_commit2 c env)))).
Proof.
  split; [intros *; apply create_authorized|].
  intros lower jt rfc he env method path body r. cbn zeta. intros Hd%reachable_repositories_keyed Hm.
  unfold repository_dispatch_result, path_names. set (p := trim_end_slashes path).
  assert (p = p +:+ "") as Hp by by rewrite app_nil_r_str.
  fold (below_manifests lower jt rfc he (Some config) who env method p body).
  destruct method; try done; repeat (case_bool_decide; try done); cbn [andb negb]; try (intros [? _]%below_manifests_authorized; done).
  1-2: destruct (Str.strip_suffix _ p) as [raw|] eqn:Es; [|intros [? _]%below_manifests_authorized; done];
    destruct (parsed (db_digests body)) as [ds| |]; [|done..]; cbn [mbind result_bind];
    intros (n & Hb & _)%result_fmap_Ok; apply strip_suffix_Some in Es; exists (percent_decode raw);
    (split; [eauto|]); (split; [|done]);
    (eapply authorized_ext; [eapply authorized_fmap, batch_delete_authorized, Hb|]); by intros c; simpl.
  - destruct (parsed (db_patch body)) as [req| |]; [|done..]. cbn [mbind result_bind].
    intros (repo & Hperm & _)%result_fmap_Ok.
    exists (percent_decode p). split; [eauto|]. split; [|done].
    eapply authorized_ext; [eapply authorized_fmap, patch_authorized, Hperm; exact Hd|by intros c; simpl].
  - intros (_ & ? & raw & rest & ? & ?)%below_manifests_authorized; [|done]. exists (percent_decode raw).
    split; [eauto|]. split; [done|by intros _ []].
  - intros (counts & [Hw1 Hw2]%delete_repository_authorized & _)%result_fmap_Ok. exists (percent_decode p).
    split; [eauto|]. apply (authorized_fmap Counts) in Hw1, Hw2.
    split; [exact (authorized_ext _ _ _ _ _ _ _ Hw1 (λ c, eq_refl))|].
    intros _ _. exact (authorized_ext _ _ _ _ _ _ _ Hw2 (λ c, eq_refl)).
Qed.

(** * The grammar of names *)

(** [[a-z0-9]+((\.|_|__|-+)[a-z0-9]+)*]. *)
Inductive name_word : string → Prop :=
  | word_one b : is_name_alnum b = true → name_word (String b "")
  | word_more b w : is_name_alnum b = true → name_word w → name_word (String b w).
Inductive name_separator : string → Prop :=
  | separator_dot : name_separator "."
  | separator_underscore : name_separator "_"
  | separator_underscores : name_separator "__"
  | separator_dash : name_separator "-"
  | separator_dashes s : Str.all (λ b, bool_decide (b = "-"%char)) s = true → name_separator (String "-" s).
Inductive name_component : string → Prop :=
  | component_word w : name_word w → name_component w
  | component_more w s c : name_word w → name_separator s → name_component c → name_component (w +:+ s +:+ c).

Lemma component_cons b c : is_name_alnum b = true → name_component c → name_component (String b c).
Proof.
  intros Hb. destruct 1 as [w Hw|w s c Hw Hs Hc]; [by apply component_word, word_more|].
  rewrite <-app_cons. by apply component_more; [apply word_more|..].
Qed.

Lemma valid_run_separator s : s ≠ "" → valid_run s = true ↔ name_separator s.
Proof.
  intros Hs. unfold valid_run, all_dashes. rewrite !orb_true_iff, !bool_decide_eq_true. split.
  - intros [[[->| ->]| ->]|Ha]; [constructor..|]. destruct s as [|a s]; [done|]. simpl in Ha.
    apply andb_true_iff in Ha as [->%bool_decide_eq_true Ha]. by constructor.
  - destruct 1; auto.
Qed.

Lemma separator_not_alnum s : name_separator s → s ≠ "" ∧ Str.all (λ b, negb (is_name_alnum b)) s = true.
Proof.
  destruct 1 as [| | | |s Hs]; try done. split; [done|]. simpl. induction s as [|a s IH]; [done|]. simpl in *.
  apply andb_true_iff in Hs as [->%bool_decide_eq_true Hs]. by rewrite IH.
Qed.
Lemma word_alnum w : name_word w → w ≠ "" ∧ Str.all is_name_alnum w = true.
Proof. induction 1 as [b Hb|b w Hb _ [_ IH]]; simpl; by rewrite Hb, ?IH. Qed.

Lemma first_alnum_app s p : s ≠ "" → first_alnum (s +:+ p) = first_alnum s.
Proof. by destruct s. Qed.
Lemma first_alnum_all s : s ≠ "" → Str.all is_name_alnum s = true → first_alnum s = true.
Proof. destruct s; [done|]. simpl. by intros _ [? _]%andb_true_iff. Qed.
Lemma rev_nonempty s : s ≠ "" → Str.rev s ≠ "".
Proof. intros Hs E. apply Hs. by rewrite <-(rev_involutive_str s), E. Qed.

(** What the loop accepts: the pending run is completed to a separator and a component
    follows, or there is none. *)
Lemma name_runs_sound run s :
  name_runs run s = true → first_alnum (Str.rev s) = true →
  ∃ x c, s = x +:+ c ∧ name_component c ∧ (Str.rev run +:+ x = "" ∨ name_separator (Str.rev run +:+ x)).
Proof.
  revert run. induction s as [|b s IH]; intros run; simpl; [done|]. intros Hr Hl.
  assert (s = "" ∨ first_alnum (Str.rev s) = true) as Hs.
  { destruct s as [|a s]; [by left|]. right. rewrite rev_cons in Hl.
    by rewrite first_alnum_app in Hl by by apply rev_nonempty. }
  destruct (is_name_alnum b) eqn:Hb.
  - apply andb_true_iff in Hr as [Hrun Hr]. exists "", (String b s). split; [done|]. rewrite app_nil_r_str. split.
    + destruct Hs as [->|Hs]; [by apply component_word, word_one|].
      destruct (IH "" Hr Hs) as (x & c & -> & Hc & Hx). simpl in Hx. rewrite app_nil_l_str in Hx.
      destruct Hx as [->|Hx]; [by apply component_cons|].
      apply (component_more (String b "")); [by apply word_one|done..].
    + destruct run as [|a run]; [by left|]. right. by apply valid_run_separator; [apply rev_nonempty|].
  - destruct Hs as [->|Hs]; [unfold Str.rev in Hl; simpl in Hl; congruence|].
    destruct (IH (String b run) Hr Hs) as (x & c & -> & Hc & Hx). exists (String b x), c. split; [done|]. split; [done|].
    by rewrite rev_cons, app_assoc_str, app_cons, app_nil_l_str in Hx.
Qed.

Lemma name_runs_word w t : Str.all is_name_alnum w = true → name_runs "" (w +:+ t) = name_runs "" t.
Proof.
  induction w as [|b w IH]; [by rewrite app_nil_l_str|]. rewrite app_cons. simpl.
  intros [Hb Hw]%andb_true_iff. rewrite Hb. by apply IH.
Qed.
Lemma name_runs_run run s t :
  Str.all (λ b, negb (is_name_alnum b)) s = true → name_runs run (s +:+ t) = name_runs (Str.rev s +:+ run) t.
Proof.
  revert run. induction s as [|b s IH]; intros run; [by rewrite app_nil_l_str|]. rewrite app_cons. simpl.
  intros [->%negb_true_iff Hs]%andb_true_iff. by rewrite IH, rev_cons, app_assoc_str, app_cons, app_nil_l_str.
Qed.
Lemma name_runs_end run c :
  valid_run (Str.rev run) = true → first_alnum c = true → name_runs "" c = true → name_runs run c = true.
Proof. intros Hr. destruct c as [|b c]; [done|]. simpl. intros -> H. rewrite Hr. by destruct (Str.is_empty run). Qed.

Lemma component_accepted s : name_component s → is_valid_name_component s = true.
Proof.
  unfold is_valid_name_component. rewrite !andb_true_iff.
  induction 1 as [w [Hw Ha]%word_alnum|w s c [Hw Ha]%word_alnum Hs _ [[Hf Hl] Hn]].
  - split_and!; [by apply first_alnum_all|apply first_alnum_all; [by apply rev_nonempty|by rewrite all_rev]|].
    rewrite <-(app_nil_r_str w), name_runs_word; done.
  - destruct (separator_not_alnum s Hs) as [Hne Hns]. split_and!.
    + rewrite first_alnum_app by done. by apply first_alnum_all.
    + rewrite !rev_app, app_assoc_str, first_alnum_app; [done|]. by apply rev_nonempty; destruct c.
    + rewrite name_runs_word, name_runs_run, app_nil_r_str by done.
      apply name_runs_end; [|done..]. rewrite rev_involutive_str. by apply valid_run_separator.
Qed.

Lemma valid_name_component_iff s : is_valid_name_component s = true ↔ name_component s.
Proof.
  split; [|apply component_accepted]. unfold is_valid_name_component. rewrite !andb_true_iff. intros [[Hf Hl] Hn].
  destruct (name_runs_sound "" s Hn Hl) as (x & c & -> & Hc & [Hx|Hx]); simpl in Hx; rewrite app_nil_l_str in Hx.
  - by rewrite Hx, app_nil_l_str.
  - apply separator_not_alnum in Hx as [Hne Hx]. rewrite first_alnum_app in Hf by done.
    destruct x as [|b x]; [done|]. simpl in *. by rewrite Hf in Hx.
Qed.

Lemma validate_components_iff l : validate_components l = Ok () ↔ Forall name_component l.
Proof.
  induction l as [|c l IH]; simpl; [split; [constructor|done]|]. rewrite Forall_cons, <-IH, <-valid_name_component_iff.
  destruct (is_valid_name_component c); naive_solver.
Qed.

(** The byte loop that checks a repository name accepts exactly the names of the
    documented grammar: one to 255 bytes, components separated by single slashes, each of
    the form [[a-z0-9]+((\.|_|__|-+)[a-z0-9]+)*]. *)
Theorem repository_name_grammar (name : string) :
  validate_repository_name name = Ok () ↔
  0 < String.length name ≤ 255 ∧ Forall name_component (Str.split "/" name).
Proof.
  unfold validate_repository_name. rewrite <-validate_components_iff.
  destruct name as [|a name]; [simpl; split; [done|lia]|]. cbn [Str.is_empty].
  case_bool_decide; cbn [String.length] in *; naive_solver lia.
Qed.

(** * Paging *)

Section paging.
Context {A : Type} (key : A → string).
Implicit Types items : list A.

(** The pages a client gets that asks again after the last item while there are more. *)
Fixpoint follow (fuel : nat) items (n : nat) (after : option string) : list (list A) :=
  match fuel with
  | 0 => []
  | S fuel =>
      let '(page, has_more) := paginate items n after key in
      page :: match last page with
              | Some x => if has_more then follow fuel items n (Some (key x)) else []
              | None => []
              end
  end.

(** Where a listing stands: before [post], after the item with key [after]. *)
Definition stands (pre : list A) (after : option string) : Prop :=
  match last pre with Some x => after = Some (key x) | None => after = None end.

Lemma paginate_at items pre post n after :
  NoDup (key <$> items) → items = pre ++ post → stands pre after →
  paginate items n after key = (take n post, bool_decide (n < length post)).
Proof.
  intros Hnd -> Hst. unfold paginate. set (start := match after with Some _ => _ | None => _ end).
  assert (start = length pre) as ->.
  { unfold stands in Hst. destruct (last pre) as [y|] eqn:Ey; subst after start; [|by apply last_None in Ey as ->].
    apply last_Some in Ey as [pre' ->]. rewrite length_app. simpl.
    assert (list_find (λ x, key x = key y) ((pre' ++ [y]) ++ post) = Some (length pre', y)) as ->; [|lia].
    rewrite <-(assoc (++)) in Hnd |- *. cbn [app] in Hnd |- *. apply list_find_Some.
    split_and!; [by rewrite list_lookup_middle|done|]. intros j x Hj Hlt Hk. rewrite lookup_app_l in Hj by done.
    rewrite fmap_app, NoDup_app in Hnd. destruct Hnd as (_ & Hnd & _). apply (Hnd (key x)).
    - apply list_elem_of_fmap. exists x. split; [done|]. by eapply list_elem_of_lookup_2.
    - rewrite Hk. csimpl. left. }
  rewrite drop_app_length. rewrite length_take. case_bool_decide as Hn.
  - rewrite take_take, Nat.min_l by lia. by rewrite bool_decide_eq_true_2 by lia.
  - rewrite bool_decide_eq_false_2 by lia. by rewrite !take_ge by lia.
Qed.

Lemma follow_complete items n : NoDup (key <$> items) → 0 < n → ∀ fuel pre post after,
  items = pre ++ post → stands pre after → length post < fuel →
  concat (follow fuel items n after) = post ∧ Forall (λ page, length page ≤ n) (follow fuel items n after).
Proof.
  intros Hnd Hn fuel. induction fuel as [|fuel IH]; intros pre post after Hi Hst Hf; [lia|]. simpl.
  rewrite (paginate_at items pre post n after) by done.
  assert (length (take n post) ≤ n) as Hlen by (rewrite length_take; lia).
  assert (n < length post → ∃ x page, take n post = page ++ [x]) as Hnext.
  { intros Hlt. destruct (take n post) as [|y l] eqn:E using rev_ind; [|by exists y, l].
    apply (f_equal length) in E. rewrite length_take in E. simpl in E. lia. }
  case_bool_decide as Hmore.
  - destruct (Hnext Hmore) as (x & page & Hp). rewrite Hp, last_snoc, <-Hp.
    destruct (IH (pre ++ take n post) (drop n post) (Some (key x))) as [Hc Hl].
    + by rewrite <-(assoc (++)), take_drop.
    + assert (last (pre ++ take n post) = Some x) as Hl by (rewrite Hp, (assoc (++)); apply last_snoc).
      unfold stands. by rewrite Hl.
    + rewrite length_drop. lia.
    + simpl. rewrite Hc, take_drop. by split; [|constructor].
  - assert (match last (take n post) with Some _ | None => [] end = ([] : list (list A))) as -> by by destruct (last _).
    simpl. rewrite (app_nil_r _), take_ge by lia. split; [done|]. constructor; [lia|constructor].
Qed.
End paging.

(** * The repositories an identity sees *)

Section reach.
Context `{SJ : SerdeJson, OR : Openraft, EX : Externals, CE : !Cedar}.
Context (to_lowercase : string → string) (header_error : string → option message).
Implicit Types (d : StateMachineData) (config : list ConfigPolicySet) (query : RepositoryQuery).

(** The pages of a listing, following its cursor with the rest of the query unchanged. *)
Fixpoint repository_pages (fuel : nat) (auth : option (list ConfigPolicySet)) (who : option AuthIdentity) d
    (rd : string → GrantReads) (now : N) query : list (list EnrichedRepositorySummary) :=
  match fuel with
  | 0 => []
  | S fuel =>
      match list_repositories_handler to_lowercase header_error auth who d rd now query with
      | Ok r =>
          rl_repositories r ::
          match last (rl_repositories r) with
          | Some e =>
              if bool_decide (is_Some (rl_link r)) then
                repository_pages fuel auth who d rd now
                  (MkRepositoryQuery (rq_n query) (Some (en_name e)) (rq_q query) (rq_recency query) (rq_sort query)
                     (rq_filter query))
              else []
          | None => []
          end
      | _ => []
      end
  end.

Lemma repository_pages_follow auth who d rd now fuel query l :
  (∀ v, header_error v = None) → enriched auth who d rd = Ok l →
  repository_pages fuel auth who d rd now query
  = follow en_name fuel (select_repositories to_lowercase query who now l) (page_size (rq_n query)) (rq_last query).
Proof using Type.
  intros He Hl. revert query. induction fuel as [|fuel IH]; intros query; [done|]. simpl.
  unfold list_repositories_handler. rewrite Hl. cbn [mbind result_bind].
  destruct (paginate _ _ (rq_last query) en_name) as [page more]. unfold with_link.
  destruct (last page) as [e|] eqn:E; simpl; [|by rewrite E].
  destruct more; simpl; [rewrite He; simpl|]; rewrite E; [|done]. f_equal. by rewrite IH.
Qed.

Lemma retain_sub {B} (f : B → bool) l : retain f l ⊆+ l.
Proof using Type. apply sublist_submseteq, sublist_filter. Qed.
Lemma sort_by_perm {B} cmp (l : list B) : sort_by cmp l ≡ₚ l.
Proof using Type. apply merge_sort_Permutation. Qed.

Lemma select_sub query who now l : select_repositories to_lowercase query who now l ⊆+ l.
Proof using Type.
  unfold select_repositories.
  set (l1 := match who with Some _ => _ | None => _ end).
  set (l2 := if Str.is_empty _ then l1 else _).
  set (l3 := if bool_decide _ then _ else if bool_decide (rq_recency query = Some "stale") then _ else l2).
  assert (l1 ⊆+ l) as H1 by (unfold l1; destruct who; [destruct (bool_decide _)|]; auto using retain_sub).
  assert (l2 ⊆+ l1) as H2 by (unfold l2; destruct (Str.is_empty _); auto using retain_sub).
  assert (l3 ⊆+ l2) as H3 by (unfold l3; repeat destruct (bool_decide _); auto using retain_sub).
  etrans; [|etrans; [exact H3|etrans; [exact H2|exact H1]]]. repeat destruct (bool_decide _); by rewrite sort_by_perm.
Qed.

Lemma NoDup_sub {B} (l k : list B) : l ⊆+ k → NoDup k → NoDup l.
Proof using Type. intros [k' ->]%submseteq_Permutation [? _]%NoDup_app. done. Qed.

(** Without filters a listing leaves nothing out. *)
Lemma select_all query who now l :
  to_lowercase "" = "" → rq_filter query = FilterAll → rq_q query = None → rq_recency query = None →
  select_repositories to_lowercase query who now l ≡ₚ l.
Proof using Type.
  intros Hlow Hf Hq Hr. unfold select_repositories. rewrite Hf, Hq, Hr. simpl. rewrite Hlow. simpl.
  assert (match who with Some _ => l | None => l end = l) as -> by by destruct who.
  repeat destruct (bool_decide _); by rewrite sort_by_perm.
Qed.

Lemma NoDup_btree_entry_keys {B} (m : gmap string B) : NoDup (btree_entries m).*1.
Proof using Type. rewrite btree_entries_perm. apply NoDup_fst_map_to_list. Qed.

Lemma summary_names_distinct d : NoDup (rs_name <$> list_repository_summaries d).
Proof using Type.
  unfold list_repository_summaries. rewrite fmap_app, <-!list_fmap_compose.
  assert (rs_name ∘ pushed_summary d <$> btree_entries (sm_manifests d) = (btree_entries (sm_manifests d)).*1) as ->
    by (apply list_fmap_ext; by intros _ [? ?] _).
  set (shadows := filter _ (btree_entries (sm_repositories d))).
  assert (rs_name ∘ shadow_summary <$> shadows = shadows.*1) as -> by (apply list_fmap_ext; by intros _ [? ?] _).
  apply NoDup_app. split_and!; [apply NoDup_btree_entry_keys| |].
  - intros k ([k' x] & -> & Hk)%list_elem_of_fmap ([k'' y] & Heq & Hy)%list_elem_of_fmap. simpl in Heq. subst k''.
    apply list_elem_of_filter in Hy as [Hy _]. simpl in Hy. apply elem_of_btree_entries in Hk. congruence.
  - eapply sublist_NoDup; [apply (NoDup_btree_entry_keys (sm_repositories d))|]. apply fmap_sublist, sublist_filter.
Qed.

Lemma elem_of_enriched config identity d rd l e :
  enriched (Some config) (Some identity) d rd = Ok l →
  e ∈ l ↔ en_summary e ∈ list_repository_summaries d ∧ en_max_grantable e = en_access_level e ∧
    max_grantable_action config identity (en_name e) (rd (en_name e)) = Ok (en_access_level e, en_grant_source e).
Proof using Type.
  intros [= <-]. rewrite list_elem_of_omap. unfold enrich_repository_summary, en_name. split.
  - intros (repo & Hin & H). simpl in H.
    destruct (max_grantable_action config identity (rs_name repo) (rd (rs_name repo))) as [[a s]| |] eqn:E; simpl in H; [|done..].
    injection H as <-. by split_and!.
  - intros (Hin & Hm & Hg). exists (en_summary e). split; [done|]. simpl. rewrite Hg. simpl.
    destruct e; simpl in *. by subst.
Qed.

Lemma enriched_names config identity d rd l :
  enriched (Some config) (Some identity) d rd = Ok l →
  en_name <$> l `sublist_of` (rs_name <$> list_repository_summaries d).
Proof using Type.
  intros [= <-]. induction (list_repository_summaries d) as [|repo repos IH]; csimpl; [constructor|].
  unfold enrich_repository_summary at 1. simpl.
  destruct (max_grantable_action _ _ _ _) as [[a s]| |]; csimpl; by constructor.
Qed.
End reach.

(** A user who pages through the repository list sees exactly the repositories in
    reach. With authentication on, following the cursor from the first page (the rest of
    the query, the store and the user's grants unchanged) ends, no page is longer than the
    page size asked for, no repository comes twice, and each repository shown exists and
    is shown with the highest action that the user was allowed on it; and if the query
    filters nothing, every repository on which the user was allowed any action is shown. *)
Theorem listing_shows_reach `{SJ : SerdeJson, OR : Openraft, EX : Externals, CE : !Cedar}
    (lower : string → string) (he : string → option message) (config : list ConfigPolicySet) (identity : AuthIdentity)
    (d : StateMachineData) (rd : string → GrantReads) (now : N) (query : RepositoryQuery)
    (Hhe : ∀ v, he v = None) (Hfirst : rq_last query = None) :
  let pages := repository_pages lower he (S (length (list_repository_summaries d))) (Some config) (Some identity) d rd now query in
  NoDup (en_name <$> concat pages) ∧ Forall (λ page, length page ≤ page_size (rq_n query)) pages ∧
  (∀ e, e ∈ concat pages →
     en_summary e ∈ list_repository_summaries d ∧ en_max_grantable e = en_access_level e ∧
     max_grantable_action config identity (en_name e) (rd (en_name e)) = Ok (en_access_level e, en_grant_source e)) ∧
  (lower "" = "" → rq_filter query = FilterAll → rq_q query = None → rq_recency query = None →
   ∀ repo action source, repo ∈ list_repository_summaries d →
     max_grantable_action config identity (rs_name repo) (rd (rs_name repo)) = Ok (action, source) →
     MkEnriched repo action action source ∈ concat pages).
Proof.
  intros pages. destruct (enriched (Some config) (Some identity) d rd) as [l| |] eqn:El; [|done..].
  pose proof (enriched_names _ _ _ _ _ El) as Hsub.
  assert (NoDup (en_name <$> l)) as Hnd by (eapply sublist_NoDup; [apply summary_names_distinct|done]).
  assert (length l ≤ length (list_repository_summaries d)) as Hlen
    by (apply sublist_length in Hsub; by rewrite !length_fmap in Hsub).
  pose proof (select_sub lower query (Some identity) now l) as Hs.
  assert (NoDup (en_name <$> select_repositories lower query (Some identity) now l)) as Hnd'
    by (eapply NoDup_sub; [by apply fmap_submseteq|done]).
  unfold pages. rewrite (repository_pages_follow lower he _ _ _ _ _ _ _ l), Hfirst by done.
  destruct (follow_complete en_name _ (page_size (rq_n query)) Hnd' ltac:(unfold page_size, MAX_PAGE_SIZE; lia)
    (S (length (list_repository_summaries d))) [] _ None eq_refl eq_refl) as [Hc Hf].
  { apply submseteq_length in Hs. lia. }
  rewrite Hc. split_and!; [done|done| |].
  - intros e He. apply (elem_of_enriched _ _ _ _ _ _ El). by apply (elem_of_submseteq _ _ _ He).
  - intros ? ? ? ? repo action source Hin Hg. rewrite select_all by done. by apply (elem_of_enriched _ _ _ _ _ _ El).
Qed.

(** * Examples *)

Definition app_object : Repository := MkRepository "acme/app" "the app" None PublicPull 5.
Definition app_created : StateMachineData :=
  (apply clock sample_state [sample_entry 4 (ReqRepository (PutRepository app_object acme_epoch))]).1.
Definition dash_env (d : StateMachineData) : DashEnv :=
  MkDashEnv (at_once d) (at_once d) d (grant_at_once d) (CommitAt 7 d) (CommitAt 7 d) d d.
Definition no_body : DashBody := MkDashBody (inl []) (inl []) (inr (MkPatchRepositoryRequest (Some " new ") None)).

Lemma app_created_reachable : reachable app_created.
Proof. apply apply_reachable; [apply sample_reachable|reflexivity|by eexists]. Qed.

Lemma dashboard_writes_authorized_witness :
  (∃ repo,
     create_repository (Some []) (Some alice_session) (at_once sample_state) sample_state 7 (CommitAt 7 sample_state)
       sample_state (MkCreateRepositoryRequest " acme/new " "fresh" Private) = Ok repo ∧
     authorized_write [] (Some alice_session) (repo_name repo) Create (at_once sample_state)
       (λ c, create_repository (Some []) (Some alice_session) (at_once sample_state) sample_state 7 c
          sample_state (MkCreateRepositoryRequest " acme/new " "fresh" Private))) ∧
  (∃ r name,
     repository_dispatch_result id (λ _, "") (λ _, inl []) (λ _, None) (Some []) (Some alice_session) (dash_env app_created) PATCH
       "acme/%61pp/" no_body = Ok r ∧
     authorized_write [] (Some alice_session) name Update (at_once app_created)
       (λ c, repository_dispatch_result id (λ _, "") (λ _, inl []) (λ _, None) (Some []) (Some alice_session)
          (with_commit1 c (dash_env app_created)) PATCH "acme/%61pp/" no_body)).
Proof.
  destruct (dashboard_writes_authorized [] (Some alice_session)) as [H1 H2]. split.
  - destruct (create_repository (Some []) (Some alice_session) (at_once sample_state) sample_state 7 (CommitAt 7 sample_state)
      sample_state (MkCreateRepositoryRequest " acme/new " "fresh" Private)) as [repo| |] eqn:E;
      [|vm_compute in E; discriminate E..].
    exists repo. split; [reflexivity|]. exact (proj1 (H1 _ _ _ _ _ _ _ E)).
  - destruct (repository_dispatch_result id (λ _, "") (λ _, inl []) (λ _, None) (Some []) (Some alice_session) (dash_env app_created)
      PATCH "acme/%61pp/" no_body) as [r| |] eqn:E; [|vm_compute in E; discriminate E..].
    destruct (H2 _ _ _ _ (dash_env app_created) PATCH _ _ r app_created_reachable ltac:(discriminate) E) as (name & _ & Hw & _).
    exists r, name. split; [reflexivity|exact Hw].
Defined.

(** Two repositories, the one with the later name pushed to later. *)
Definition two_listed : StateMachineData :=
  (apply clock sample_state
     [sample_entry 4 (ReqRepository (PutRepository (MkRepository "acme/a" "" None Private 1) acme_epoch));
      sample_entry 5 (ReqRepository (PutRepository (MkRepository "acme/b" "" None Private 2) acme_epoch));
      sample_entry 6 (ReqManifest (DeleteRepository "acme/app" acme_epoch));
      sample_entry 7 (ReqManifest (DeleteRepository "acme/web" acme_epoch))]).1.
Definition one_per_page (after sort : option string) : RepositoryQuery :=
  MkRepositoryQuery (Some 1%N) after None None sort FilterAll.
Definition listed_names (query : RepositoryQuery) : option (list string * nat * option string) :=
  match list_repositories_handler id (λ _, None) (Some []) (Some alice_session) two_listed (λ _, grant_at_once two_listed) 0 query with
  | Ok r => Some (en_name <$> rl_repositories r, rl_total_reachable r, rl_link r)
  | _ => None
  end.

Lemma listing_shows_reach_witness :
  let pages := repository_pages id (λ _, None) 3 (Some []) (Some alice_session) two_listed (λ _, grant_at_once two_listed) 0
                 (one_per_page None (Some "name_asc")) in
  length (list_repository_summaries two_listed) = 2 ∧ length pages = 2 ∧ NoDup (en_name <$> concat pages).
Proof.
  split; [reflexivity|]. split; [reflexivity|].
  exact (proj1 (listing_shows_reach id (λ _, None) [] alice_session two_listed (λ _, grant_at_once two_listed) 0
                  (one_per_page None (Some "name_asc")) (λ _, eq_refl) eq_refl)).
Defined.

(** The link to the next page keeps the size and the position but neither the order nor
    the filters: the page behind it is taken from another list. Of two repositories
    listed by name, one per page, the link of the first page leads to an empty last page,
    and the second repository is never shown. *)
Theorem next_link_loses_order :
  listed_names (one_per_page None (Some "name_asc"))
    = Some (["acme/a"], 2,
            Some ("</api/v1/repositories?n=1&last=acme/a>; rel=" +:+ quote +:+ "next" +:+ quote)) ∧
  listed_names (one_per_page (Some "acme/a") None) = Some ([], 2, None) ∧
  listed_names (one_per_page (Some "acme/a") (Some "name_asc")) = Some (["acme/b"], 2, None).
Proof. split_and!; vm_compute; reflexivity. Qed.

(** A cursor whose repository is gone starts again from the first page. *)
Theorem lost_cursor_restarts : listed_names (one_per_page (Some "acme/gone") (Some "name_asc"))
  = listed_names (one_per_page None (Some "name_asc")).
Proof. vm_compute. reflexivity. Qed.

(** The gate in front of manifest reads checks the name as it is in the path; the handler
    decodes it once more. A token for one repository alone, whose name is the encoding of
    another, reads the other, on which it is allowed nothing. *)
Definition encoded_token : AuthIdentity :=
  MkAuthIdentity "sub-2" bob (Some "bob") None None [] [] ["repository:acme/%61pp:pull"] [MkNamespaceEpoch "acme" 1] PersonalAccess.
Definition read_page (path : string) : option (string * nat) :=
  match repository_dispatch_result id (λ _, "") (λ _, inl []) (λ _, None) (Some []) (Some encoded_token) (dash_env sample_state) GET path
          (MkDashBody (inr (MkManifestQuery None None None None None None None None None None None None None)) (inl []) (inl [])) with
  | Ok (ManifestPage r) => Some (ml_name r, length (ml_manifests r))
  | _ => None
  end.
Theorem gate_checks_encoded_name :
  is_ok (check_permission [] encoded_token "acme/app" Pull (at_once sample_state)) = false ∧
  read_page "acme/app/manifests" = None ∧ read_page "acme/%61pp/manifests" = Some ("acme/app", 1).
Proof. split_and!; vm_compute; reflexivity. Qed.
