(* ===== verification/Stores.v ===== *)
(** The interface of the metadata store (crates/layerhouse-server/src/store/metadata/traits.rs)
    and its two implementations: the replicated store (raft/router.rs), whose writes
    are committed and whose reads look at the local state, and the store of the tests
    ([InMemory]).

    A trait is the type of its calls, indexed by what they return; [Store C S] says that
    the calls [C] are implemented on states [S]. [StoreCall] is the supertrait, and any
    state with the eight traits has it, as the blanket implementation of the source says.
    [StoreAgreement] compares the implementations. *)

From Stdlib Require Import Ascii.
From stdpp Require Import options.
From S2P Require Import Prelude Errors Digests Manifests Permissions Principals Handles.
From S2P Require Import SyncRuns Types StateMachine Queries Authorization NamespaceRoutes Admin.
From S2P Require Import Router InMemory.

(** * Reads of the replicated store *)

(** The accessors of [StateMachineData] that the read methods use. *)
Section reads.
Context `{SJ : SerdeJson, OR : Openraft}.
Implicit Types d : StateMachineData.
Definition state_get_mirror_rule d (id : string) : option MirrorRule := sm_mirror_rules d !! id.
Definition state_get_repository d (name : string) : option Repository := sm_repositories d !! name.
Definition state_get_policy_set d (id : string) : option PolicySet := sm_policy_sets d !! id.
Definition state_get_namespace d (handle : string) : option Namespace := sm_namespaces d !! handle.
Definition state_get_namespace_grant d (handle grant_id : string) : option NamespaceGrant :=
  grants ← sm_namespace_grants d !! handle; grants !! grant_id.
Definition state_get_released_handle d (handle : string) : option ReleasedHandle :=
  sm_released_handles d !! handle.
Definition state_get_proxy_cache d (id : string) : option ProxyCache := sm_proxy_caches d !! id.
Definition state_get_tag_validation d (cache_id repository tag : string) : option ProxyCacheTagValidation :=
  get_proxy_cache_tag_validation (sm_proxy_cache_tag_validations d) cache_id repository tag.
Definition state_get_warm_image d (id : string) : option WarmImage := sm_warm_images d !! id.
Definition state_get_sync_job d (id : string) : option SyncJob := sm_sync_jobs d !! id.
End reads.

(** The read methods of [RaftMetadataStore]: the local state under its read lock. *)
Section reads.
Context `{SJ : SerdeJson, OR : Openraft}.
Implicit Types local : StateMachineData.

Definition raft_get_manifest local (name reference : string) : result (option ManifestEntry) :=
  Ok (StateMachine.get_manifest local name reference).
Definition raft_list_tags local (name : string) (n : option N) (last : option string)
    : result (list string) :=
  Ok (Queries.list_tags local name n last).
Definition raft_list_repositories local (n : option N) (last : option string) : result (list string) :=
  Ok (Queries.list_repositories local n last).
Definition raft_list_repository_summaries local : result (list RepositorySummary) :=
  Ok (Queries.list_repository_summaries local).
Definition raft_list_manifest_summaries local (name : string) : result (list ManifestSummary) :=
  Ok (Queries.list_manifest_summaries local name).
Definition raft_list_referrers local (name : string) (subject_digest : Digest) (artifact_type : option string)
    : result (list ReferrerEntry) :=
  Ok (Queries.list_referrers local name (digest_to_string subject_digest) artifact_type).
Definition raft_blob_lifecycle_status local (digest : Digest) : result BlobLifecycleStatus :=
  Ok (Queries.blob_lifecycle_status local digest).
Definition raft_blob_ref_counts local : result (gmap string N) := Ok (sm_blob_ref_counts local).
Definition raft_list_mirror_rules local : result (list MirrorRule) :=
  Ok (Queries.list_mirror_rules local).
Definition raft_get_mirror_rule local (id : string) : result (option MirrorRule) :=
  Ok (state_get_mirror_rule local id).
Definition raft_list_proxy_caches local : result (list ProxyCache) :=
  Ok (Queries.list_proxy_caches local).
Definition raft_get_proxy_cache local (id : string) : result (option ProxyCache) :=
  Ok (state_get_proxy_cache local id).
Definition raft_get_tag_validation local (cache_id repository tag : string)
    : result (option ProxyCacheTagValidation) :=
  Ok (state_get_tag_validation local cache_id repository tag).
Definition raft_list_warm_images local : result (list WarmImage) := Ok (Queries.list_warm_images local).
Definition raft_get_warm_image local (id : string) : result (option WarmImage) :=
  Ok (state_get_warm_image local id).
Definition raft_list_sync_jobs local : result (list SyncJob) := Ok (Queries.list_sync_jobs local).
Definition raft_get_sync_job local (id : string) : result (option SyncJob) :=
  Ok (state_get_sync_job local id).
Definition raft_list_sync_job_runs local (job_id : string) (limit : nat) : result (list SyncJobRun) :=
  Ok (Queries.list_sync_job_runs local job_id limit).
Definition raft_list_helm_charts local : result (list HelmChart) := Ok (Admin.list_helm_charts local).
Definition raft_list_helm_chart_versions local (name : string)
    : result (option (list HelmChartVersion)) :=
  Ok (Admin.list_helm_chart_versions local name).
Definition raft_list_personal_access_tokens local (subject : string)
    : result (list PersonalAccessToken) :=
  Ok (Queries.list_personal_access_tokens local subject).
Definition raft_get_personal_access_token_by_hash local (token_hash : string)
    : result (option PersonalAccessToken) :=
  Ok (Queries.get_personal_access_token_by_hash local token_hash).
Definition raft_list_policy_sets local : result (list PolicySet) :=
  Ok (Authorization.list_policy_sets local).
Definition raft_get_policy_set local (id : string) : result (option PolicySet) :=
  Ok (state_get_policy_set local id).
Definition raft_get_repository local (name : string) : result (option Repository) :=
  Ok (state_get_repository local name).
Definition raft_get_namespace local (handle : string) : result (option Namespace) :=
  Ok (state_get_namespace local handle).
Definition raft_list_namespaces local : result (list Namespace) :=
  Ok (NamespaceRoutes.list_namespaces local).
Definition raft_get_released_handle local (handle : string) : result (option ReleasedHandle) :=
  Ok (state_get_released_handle local handle).
Definition raft_list_namespace_grants local (handle : string) : result (list NamespaceGrant) :=
  Ok (Authorization.list_namespace_grants local handle).
Definition raft_get_namespace_grant local (handle grant_id : string)
    : result (option NamespaceGrant) :=
  Ok (state_get_namespace_grant local handle grant_id).
Definition raft_list_namespace_grant_audit local (handle : string)
    : result (list NamespaceGrantAuditEvent) :=
  Ok (Queries.list_namespace_grant_audit local handle).
Definition raft_search_observed_identities (to_lowercase : string → string) local
    (query : string) (limit : nat)
    : result (list ObservedIdentity) :=
  Ok (Queries.search_observed_identities to_lowercase local query limit).
End reads.

(** * The interface *)

(** [str::to_lowercase]. *)
Class CaseFolding := to_lowercase : string → string.

(** What a call finds besides the state: the clock and a fresh UUID. *)
Record Env := MkEnv { now : N; uuid : string }.

Class Store (C : Type → Type) (S : Type) :=
  call : ∀ A, Env → C A → S → S * result A.
#[global] Arguments call {_ _ _ _} env c s.

Section calls.
Context `{SJ : SerdeJson}.

Inductive ManifestCall : Type → Type :=
  | CallGetManifest (name reference : string) : ManifestCall (option ManifestEntry)
  | CallPutManifest (name reference : string) (entry : ManifestEntry) : ManifestCall ()
  | CallPutManifestExpecting (name reference : string) (entry : ManifestEntry)
      (expected : option NamespaceEpoch) (absent : bool) : ManifestCall ()
  | CallDeleteManifest (name : string) (digest : Digest) : ManifestCall ()
  | CallDeleteManifestExpecting (name : string) (digest : Digest)
      (expected : option NamespaceEpoch) : ManifestCall ()
  | CallListTags (name : string) (n : option N) (last : option string)
      : ManifestCall (list string)
  | CallListRepositories (n : option N) (last : option string) : ManifestCall (list string)
  | CallListRepositorySummaries : ManifestCall (list RepositorySummary)
  | CallListManifestSummaries (name : string) : ManifestCall (list ManifestSummary)
  | CallDeleteTag (name : string) (digest : Digest) (tag : string) : ManifestCall bool
  | CallDeleteTagExpecting (name : string) (digest : Digest) (tag : string)
      (expected : option NamespaceEpoch) : ManifestCall bool
  | CallDeleteRepository (name : string) : ManifestCall DeleteCounts
  | CallDeleteRepositoryExpecting (name : string) (expected : option NamespaceEpoch)
      : ManifestCall DeleteCounts
  | CallDeleteManifests (name : string) (digests : list Digest) : ManifestCall DeleteCounts
  | CallDeleteManifestsExpecting (name : string) (digests : list Digest)
      (expected : option NamespaceEpoch) : ManifestCall DeleteCounts
  | CallListReferrers (name : string) (subject : Digest) (artifact_type : option string)
      : ManifestCall (list ReferrerEntry)
  | CallMountBlob (source_repo dest_repo : string) (digest : Digest) : ManifestCall ()
  | CallMountBlobExpecting (source_repo dest_repo : string) (digest : Digest)
      (expected : option NamespaceEpoch) : ManifestCall ()
  | CallRecordBlobDelete (digest : Digest) : ManifestCall BlobDeleteStatus
  | CallGetBlobLifecycle (digest : Digest) : ManifestCall BlobLifecycleStatus
  | CallClearBlobDelete (digest : Digest) : ManifestCall ()
  | CallGetBlobRefCounts : ManifestCall (gmap string N).

Inductive MirrorConfigCall : Type → Type :=
  | CallListMirrorRules : MirrorConfigCall (list MirrorRule)
  | CallGetMirrorRule (id : string) : MirrorConfigCall (option MirrorRule)
  | CallPutMirrorRule (rule : MirrorRule) : MirrorConfigCall ()
  | CallDeleteMirrorRule (id : string) : MirrorConfigCall ()
  | CallTriggerMirrorRule (id : string) : MirrorConfigCall (option SyncJob)
  | CallListProxyCaches : MirrorConfigCall (list ProxyCache)
  | CallGetProxyCache (id : string) : MirrorConfigCall (option ProxyCache)
  | CallPutProxyCache (cache : ProxyCache) : MirrorConfigCall ()
  | CallDeleteProxyCache (id : string) : MirrorConfigCall ()
  | CallTriggerProxyCacheWarm (id : string) : MirrorConfigCall (option SyncJob)
  | CallGetTagValidation (cache_id repository tag : string)
      : MirrorConfigCall (option ProxyCacheTagValidation)
  | CallPutTagValidation (validation : ProxyCacheTagValidation) : MirrorConfigCall ()
  | CallListWarmImages : MirrorConfigCall (list WarmImage)
  | CallGetWarmImage (id : string) : MirrorConfigCall (option WarmImage)
  | CallPutWarmImage (image : WarmImage) : MirrorConfigCall ()
  | CallDeleteWarmImage (id : string) : MirrorConfigCall ().

Inductive JobCall : Type → Type :=
  | CallListSyncJobs : JobCall (list SyncJob)
  | CallGetSyncJob (id : string) : JobCall (option SyncJob)
  | CallPutSyncJob (job : SyncJob) : JobCall ()
  | CallDeleteSyncJob (id : string) : JobCall ()
  | CallClaimSyncJob (id node_id : string) : JobCall bool
  | CallTriggerSyncJob (id : string) : JobCall bool
  | CallListSyncJobRuns (id : string) (limit : nat) : JobCall (list SyncJobRun)
  | CallPutSyncJobRun (run : SyncJobRun) : JobCall ().

Inductive HelmCall : Type → Type :=
  | CallListHelmCharts : HelmCall (list HelmChart)
  | CallListHelmChartVersions (name : string) : HelmCall (option (list HelmChartVersion)).

Inductive TokenCall : Type → Type :=
  | CallListPersonalAccessTokens (subject : string) : TokenCall (list PersonalAccessToken)
  | CallGetPersonalAccessTokenByHash (token_hash : string)
      : TokenCall (option PersonalAccessToken)
  | CallPutPersonalAccessToken (token : PersonalAccessToken) : TokenCall ()
  | CallDeletePersonalAccessToken (id subject : string) : TokenCall bool.

Inductive PolicyCall : Type → Type :=
  | CallListPolicySets : PolicyCall (list PolicySet)
  | CallGetPolicySet (id : string) : PolicyCall (option PolicySet)
  | CallPutPolicySet (policy : PolicySet) : PolicyCall ()
  | CallDeletePolicySet (id : string) : PolicyCall bool.

Inductive RepositoryCall : Type → Type :=
  | CallGetRepository (name : string) : RepositoryCall (option Repository)
  | CallPutRepository (repo : Repository) : RepositoryCall ()
  | CallPutRepositoryExpecting (repo : Repository) (expected : option NamespaceEpoch)
      : RepositoryCall ()
  | CallDeleteRepositoryMeta (name : string) : RepositoryCall bool
  | CallDeleteRepositoryMetaExpecting (name : string) (expected : option NamespaceEpoch)
      : RepositoryCall bool.

Inductive NamespaceCall : Type → Type :=
  | CallGetNamespace (handle : string) : NamespaceCall (option Namespace)
  | CallListNamespaces : NamespaceCall (list Namespace)
  | CallGetReleasedHandle (handle : string) : NamespaceCall (option ReleasedHandle)
  | CallClaimNamespace (handle : string) (owner : Owner) (owner_label : string) (actor : Subject)
      (admin_override : bool) (at_time : N) : NamespaceCall ()
  | CallReleaseNamespace (handle : string) (actor : Subject) (reason : ReleaseReason)
      (at_time : N) : NamespaceCall ()
  | CallAdminRevokeNamespace (handle : string) (actor : Subject) (at_time : N) : NamespaceCall ()
  | CallListNamespaceGrants (handle : string) : NamespaceCall (list NamespaceGrant)
  | CallGetNamespaceGrant (handle grant_id : string) : NamespaceCall (option NamespaceGrant)
  | CallPutNamespaceGrant (grant : NamespaceGrant) (actor_label reason : string)
      : NamespaceCall NamespaceGrant
  | CallDeleteNamespaceGrant (handle grant_id : string) (actor : Subject)
      (actor_label reason : string) (at_time : N) : NamespaceCall bool
  | CallListNamespaceGrantAudit (handle : string) : NamespaceCall (list NamespaceGrantAuditEvent)
  | CallPutObservedIdentity (identity : ObservedIdentity) : NamespaceCall ()
  | CallSearchObservedIdentities (query : string) (limit : nat)
      : NamespaceCall (list ObservedIdentity).

Inductive StoreCall : Type → Type :=
  | OnManifest {A} (c : ManifestCall A) : StoreCall A
  | OnMirrorConfig {A} (c : MirrorConfigCall A) : StoreCall A
  | OnJob {A} (c : JobCall A) : StoreCall A
  | OnHelm {A} (c : HelmCall A) : StoreCall A
  | OnToken {A} (c : TokenCall A) : StoreCall A
  | OnPolicy {A} (c : PolicyCall A) : StoreCall A
  | OnRepository {A} (c : RepositoryCall A) : StoreCall A
  | OnNamespace {A} (c : NamespaceCall A) : StoreCall A.

(** [impl<T: ManifestStore + ...> MetadataStore for T]. *)
#[export] Instance metadata_store {S : Type} `{!Store ManifestCall S, !Store MirrorConfigCall S,
    !Store JobCall S, !Store HelmCall S, !Store TokenCall S, !Store PolicyCall S,
    !Store RepositoryCall S, !Store NamespaceCall S} : Store StoreCall S := λ A env c,
  match c with
  | OnManifest c => call env c
  | OnMirrorConfig c => call env c
  | OnJob c => call env c
  | OnHelm c => call env c
  | OnToken c => call env c
  | OnPolicy c => call env c
  | OnRepository c => call env c
  | OnNamespace c => call env c
  end.

(** A history: calls one after another, each in its environment, and the exchanges it
    consists of. *)
Definition Invocation : Type := Env * { A : Type & StoreCall A }.
Definition Exchange : Type := { A : Type & StoreCall A * result A }%type.

Definition exchange {S} `{!Store StoreCall S} (q : Invocation) (s : S) : S * Exchange :=
  let c := projT2 q.2 in
  let '(s, r) := call (C:=StoreCall) q.1 c s in (s, existT _ (c, r)).
Fixpoint history {S} `{!Store StoreCall S} (qs : list Invocation) (s : S) : S * list Exchange :=
  match qs with
  | [] => (s, [])
  | q :: qs' =>
      let '(s, a) := exchange q s in
      let '(s, l) := history qs' s in (s, a :: l)
  end.
End calls.

(** * The implementations *)

Section implementations.
Context `{SJ : SerdeJson, OR : Openraft, EX : Externals}.
Context `{CF : CaseFolding}.

(** The store of the tests. The methods that carry the namespace a request was authorized
    for are the default ones of the traits, which drop it. *)
#[global] Instance in_memory_manifests : Store ManifestCall InMemoryState := λ A env c s,
  match c in ManifestCall A return InMemoryState * result A with
  | CallGetManifest name reference => (s, mem_get_manifest s name reference)
  | CallPutManifest name reference entry => mem_put_manifest s name reference entry
  | CallPutManifestExpecting name reference entry expected absent =>
      mem_put_manifest s name reference entry
  | CallDeleteManifest name digest => mem_delete_manifest s name digest
  | CallDeleteManifestExpecting name digest expected => mem_delete_manifest s name digest
  | CallListTags name n last => (s, mem_list_tags s name n last)
  | CallListRepositories n last => (s, mem_list_repositories s n last)
  | CallListRepositorySummaries => (s, mem_list_repository_summaries s)
  | CallListManifestSummaries name => (s, mem_list_manifest_summaries s name)
  | CallDeleteTag name digest tag => mem_delete_tag s name digest tag
  | CallDeleteTagExpecting name digest tag expected => mem_delete_tag s name digest tag
  | CallDeleteRepository name => mem_delete_repository s name
  | CallDeleteRepositoryExpecting name expected => mem_delete_repository s name
  | CallDeleteManifests name digests => mem_delete_manifests s name digests
  | CallDeleteManifestsExpecting name digests expected => mem_delete_manifests s name digests
  | CallListReferrers name subject artifact_type =>
      (s, mem_list_referrers s name subject artifact_type)
  | CallMountBlob source_repo dest_repo digest =>
      mem_mount_blob s source_repo dest_repo digest
  | CallMountBlobExpecting source_repo dest_repo digest expected =>
      mem_mount_blob s source_repo dest_repo digest
  | CallRecordBlobDelete digest => mem_record_blob_delete_request (now env) s digest
  | CallGetBlobLifecycle digest => (s, mem_blob_lifecycle_status s digest)
  | CallClearBlobDelete digest => mem_clear_blob_delete_request s digest
  | CallGetBlobRefCounts => (s, mem_blob_ref_counts s)
  end.
#[global] Instance in_memory_mirror_config : Store MirrorConfigCall InMemoryState := λ A env c s,
  match c in MirrorConfigCall A return InMemoryState * result A with
  | CallListMirrorRules => (s, mem_list_mirror_rules s)
  | CallGetMirrorRule id => (s, mem_get_mirror_rule s id)
  | CallPutMirrorRule rule => mem_put_mirror_rule s rule
  | CallDeleteMirrorRule id => mem_delete_mirror_rule s id
  | CallTriggerMirrorRule id => mem_trigger_mirror_rule (now env) s id
  | CallListProxyCaches => (s, mem_list_proxy_caches s)
  | CallGetProxyCache id => (s, mem_get_proxy_cache s id)
  | CallPutProxyCache cache => mem_put_proxy_cache s cache
  | CallDeleteProxyCache id => mem_delete_proxy_cache s id
  | CallTriggerProxyCacheWarm id => mem_trigger_proxy_cache_warm (now env) s id
  | CallGetTagValidation cache_id repository tag =>
      (s, mem_get_tag_validation s cache_id repository tag)
  | CallPutTagValidation validation => mem_put_tag_validation s validation
  | CallListWarmImages => (s, mem_list_warm_images s)
  | CallGetWarmImage id => (s, mem_get_warm_image s id)
  | CallPutWarmImage image => mem_put_warm_image s image
  | CallDeleteWarmImage id => mem_delete_warm_image s id
  end.
#[global] Instance in_memory_jobs : Store JobCall InMemoryState := λ A env c s,
  match c in JobCall A return InMemoryState * result A with
  | CallListSyncJobs => (s, mem_list_sync_jobs s)
  | CallGetSyncJob id => (s, mem_get_sync_job s id)
  | CallPutSyncJob job => mem_put_sync_job s job
  | CallDeleteSyncJob id => mem_delete_sync_job s id
  | CallClaimSyncJob id node_id => mem_claim_sync_job (now env) s id node_id
  | CallTriggerSyncJob id => mem_trigger_sync_job (now env) s id
  | CallListSyncJobRuns id limit => (s, mem_list_sync_job_runs s id limit)
  | CallPutSyncJobRun run => mem_put_sync_job_run s run
  end.
#[global] Instance in_memory_helm : Store HelmCall InMemoryState := λ A env c s,
  match c in HelmCall A return InMemoryState * result A with
  | CallListHelmCharts => (s, mem_list_helm_charts s)
  | CallListHelmChartVersions name => (s, mem_list_helm_chart_versions s name)
  end.
#[global] Instance in_memory_tokens : Store TokenCall InMemoryState := λ A env c s,
  match c in TokenCall A return InMemoryState * result A with
  | CallListPersonalAccessTokens subject => (s, mem_list_personal_access_tokens s subject)
  | CallGetPersonalAccessTokenByHash token_hash =>
      (s, mem_get_personal_access_token_by_hash s token_hash)
  | CallPutPersonalAccessToken token => mem_put_personal_access_token s token
  | CallDeletePersonalAccessToken id subject => mem_delete_personal_access_token s id subject
  end.
#[global] Instance in_memory_policies : Store PolicyCall InMemoryState := λ A env c s,
  match c in PolicyCall A return InMemoryState * result A with
  | CallListPolicySets => (s, mem_list_policy_sets s)
  | CallGetPolicySet id => (s, mem_get_policy_set s id)
  | CallPutPolicySet policy => mem_put_policy_set s policy
  | CallDeletePolicySet id => mem_delete_policy_set s id
  end.
#[global] Instance in_memory_repositories : Store RepositoryCall InMemoryState := λ A env c s,
  match c in RepositoryCall A return InMemoryState * result A with
  | CallGetRepository name => (s, mem_get_repository s name)
  | CallPutRepository repo => mem_put_repository s repo
  | CallPutRepositoryExpecting repo expected => mem_put_repository s repo
  | CallDeleteRepositoryMeta name => mem_delete_repository_meta s name
  | CallDeleteRepositoryMetaExpecting name expected => mem_delete_repository_meta s name
  end.
#[global] Instance in_memory_namespaces : Store NamespaceCall InMemoryState := λ A env c s,
  match c in NamespaceCall A return InMemoryState * result A with
  | CallGetNamespace handle => (s, mem_get_namespace s handle)
  | CallListNamespaces => (s, mem_list_namespaces s)
  | CallGetReleasedHandle handle => (s, mem_get_released_handle s handle)
  | CallClaimNamespace handle owner owner_label actor admin_override at_time =>
      mem_claim_namespace s handle owner owner_label actor admin_override at_time
  | CallReleaseNamespace handle actor reason at_time =>
      mem_release_namespace s handle actor reason at_time
  | CallAdminRevokeNamespace handle actor at_time =>
      mem_admin_revoke_namespace s handle actor at_time
  | CallListNamespaceGrants handle => (s, mem_list_namespace_grants s handle)
  | CallGetNamespaceGrant handle grant_id => (s, mem_get_namespace_grant s handle grant_id)
  | CallPutNamespaceGrant grant actor_label reason =>
      mem_put_namespace_grant s grant actor_label reason (uuid env)
  | CallDeleteNamespaceGrant handle grant_id actor actor_label reason at_time =>
      mem_delete_namespace_grant s handle grant_id actor actor_label reason at_time (uuid env)
  | CallListNamespaceGrantAudit handle => (s, mem_list_namespace_grant_audit s handle)
  | CallPutObservedIdentity identity => mem_put_observed_identity s identity
  | CallSearchObservedIdentities query limit =>
      (s, mem_search_observed_identities to_lowercase s query limit)
  end.

(** One node of the replicated store, whose writes are applied to the state it reads. *)
Definition commit {A} (env : Env) (d : StateMachineData) (req : Request) (f : Commit → result A)
    : StateMachineData * result A :=
  ((apply_request (now env) d req).1, f (CommitAt (now env) d)).

#[global] Instance replicated_manifests : Store ManifestCall StateMachineData := λ A env c d,
  match c in ManifestCall A return StateMachineData * result A with
  | CallGetManifest name reference => (d, raft_get_manifest d name reference)
  | CallPutManifest name reference entry =>
      commit env d (ReqManifest (put_manifest_request name reference entry
          (expected_namespace_for_repository d name) false))
        (λ c, Router.put_manifest c d name reference entry)
  | CallPutManifestExpecting name reference entry expected absent =>
      commit env d (ReqManifest (put_manifest_request name reference entry expected absent))
        (λ c, put_manifest_with_expected_namespace c name reference entry expected absent)
  | CallDeleteManifest name digest =>
      commit env d (ReqManifest (StateMachine.DeleteManifest name
          (expected_namespace_for_repository d name) (digest_to_string digest)))
        (λ c, Router.delete_manifest c d name digest)
  | CallDeleteManifestExpecting name digest expected =>
      commit env d (ReqManifest (StateMachine.DeleteManifest name expected (digest_to_string digest)))
        (λ c, delete_manifest_with_expected_namespace c name digest expected)
  | CallListTags name n last => (d, raft_list_tags d name n last)
  | CallListRepositories n last => (d, raft_list_repositories d n last)
  | CallListRepositorySummaries => (d, raft_list_repository_summaries d)
  | CallListManifestSummaries name => (d, raft_list_manifest_summaries d name)
  | CallDeleteTag name digest tag =>
      commit env d (ReqManifest (StateMachine.DeleteTag name
          (expected_namespace_for_repository d name) (digest_to_string digest) tag))
        (λ c, Router.delete_tag c d name digest tag)
  | CallDeleteTagExpecting name digest tag expected =>
      commit env d (ReqManifest (StateMachine.DeleteTag name expected (digest_to_string digest) tag))
        (λ c, delete_tag_with_expected_namespace c name digest tag expected)
  | CallDeleteRepository name =>
      commit env d (ReqManifest (StateMachine.DeleteRepository name
          (expected_namespace_for_repository d name)))
        (λ c, Router.delete_repository c d name)
  | CallDeleteRepositoryExpecting name expected =>
      commit env d (ReqManifest (StateMachine.DeleteRepository name expected))
        (λ c, delete_repository_with_expected_namespace c name expected)
  | CallDeleteManifests name digests =>
      commit env d (ReqManifest (StateMachine.DeleteManifests name
          (expected_namespace_for_repository d name) (digest_to_string <$> digests)))
        (λ c, Router.delete_manifests c d name digests)
  | CallDeleteManifestsExpecting name digests expected =>
      commit env d (ReqManifest (StateMachine.DeleteManifests name expected (digest_to_string <$> digests)))
        (λ c, delete_manifests_with_expected_namespace c name digests expected)
  | CallListReferrers name subject artifact_type =>
      (d, raft_list_referrers d name subject artifact_type)
  | CallMountBlob source_repo dest_repo digest =>
      commit env d (ReqManifest (StateMachine.MountBlob source_repo dest_repo
          (expected_namespace_for_repository d dest_repo) (digest_to_string digest)))
        (λ c, Router.mount_blob c d source_repo dest_repo digest)
  | CallMountBlobExpecting source_repo dest_repo digest expected =>
      commit env d (ReqManifest (StateMachine.MountBlob source_repo dest_repo expected (digest_to_string digest)))
        (λ c, mount_blob_with_expected_namespace c source_repo dest_repo digest expected)
  | CallRecordBlobDelete digest =>
      commit env d (ReqManifest (StateMachine.RecordBlobDelete (digest_to_string digest) (now env)))
        (λ c, Router.record_blob_delete_request c digest (now env))
  | CallGetBlobLifecycle digest => (d, raft_blob_lifecycle_status d digest)
  | CallClearBlobDelete digest =>
      commit env d (ReqManifest (StateMachine.ClearBlobDelete (digest_to_string digest)))
        (λ c, Router.clear_blob_delete_request c digest)
  | CallGetBlobRefCounts => (d, raft_blob_ref_counts d)
  end.
#[global] Instance replicated_mirror_config : Store MirrorConfigCall StateMachineData := λ A env c d,
  match c in MirrorConfigCall A return StateMachineData * result A with
  | CallListMirrorRules => (d, raft_list_mirror_rules d)
  | CallGetMirrorRule id => (d, raft_get_mirror_rule d id)
  | CallPutMirrorRule rule =>
      commit env d (ReqMirrorConfig (StateMachine.PutMirrorRule rule))
        (λ c, Router.put_mirror_rule c rule)
  | CallDeleteMirrorRule id =>
      commit env d (ReqMirrorConfig (StateMachine.DeleteMirrorRule id))
        (λ c, Router.delete_mirror_rule c id)
  | CallTriggerMirrorRule id =>
      commit env d (ReqMirrorConfig (StateMachine.TriggerMirrorRule id))
        (λ c, Router.trigger_mirror_rule c id)
  | CallListProxyCaches => (d, raft_list_proxy_caches d)
  | CallGetProxyCache id => (d, raft_get_proxy_cache d id)
  | CallPutProxyCache cache =>
      commit env d (ReqMirrorConfig (StateMachine.PutProxyCache cache))
        (λ c, Router.put_proxy_cache c cache)
  | CallDeleteProxyCache id =>
      commit env d (ReqMirrorConfig (StateMachine.DeleteProxyCache id))
        (λ c, Router.delete_proxy_cache c id)
  | CallTriggerProxyCacheWarm id =>
      commit env d (ReqMirrorConfig (StateMachine.TriggerProxyCacheWarm id))
        (λ c, Router.trigger_proxy_cache_warm c id)
  | CallGetTagValidation cache_id repository tag =>
      (d, raft_get_tag_validation d cache_id repository tag)
  | CallPutTagValidation validation =>
      commit env d (ReqMirrorConfig (StateMachine.PutProxyCacheTagValidation validation))
        (λ c, Router.put_tag_validation c validation)
  | CallListWarmImages => (d, raft_list_warm_images d)
  | CallGetWarmImage id => (d, raft_get_warm_image d id)
  | CallPutWarmImage image =>
      commit env d (ReqMirrorConfig (StateMachine.PutWarmImage image))
        (λ c, Router.put_warm_image c image)
  | CallDeleteWarmImage id =>
      commit env d (ReqMirrorConfig (StateMachine.DeleteWarmImage id))
        (λ c, Router.delete_warm_image c id)
  end.
#[global] Instance replicated_jobs : Store JobCall StateMachineData := λ A env c d,
  match c in JobCall A return StateMachineData * result A with
  | CallListSyncJobs => (d, raft_list_sync_jobs d)
  | CallGetSyncJob id => (d, raft_get_sync_job d id)
  | CallPutSyncJob job =>
      commit env d (ReqJob (StateMachine.PutSyncJob job)) (λ c, Router.put_sync_job c job)
  | CallDeleteSyncJob id =>
      commit env d (ReqJob (StateMachine.DeleteSyncJob id)) (λ c, Router.delete_sync_job c id)
  | CallClaimSyncJob id node_id =>
      commit env d (ReqJob (StateMachine.ClaimSyncJob id node_id))
        (λ c, Router.claim_sync_job c id node_id)
  | CallTriggerSyncJob id =>
      commit env d (ReqJob (StateMachine.TriggerSyncJob id)) (λ c, Router.trigger_sync_job c id)
  | CallListSyncJobRuns id limit => (d, raft_list_sync_job_runs d id limit)
  | CallPutSyncJobRun run =>
      commit env d (ReqJob (StateMachine.PutSyncJobRun run)) (λ c, Router.put_sync_job_run c run)
  end.
#[global] Instance replicated_helm : Store HelmCall StateMachineData := λ A env c d,
  match c in HelmCall A return StateMachineData * result A with
  | CallListHelmCharts => (d, raft_list_helm_charts d)
  | CallListHelmChartVersions name => (d, raft_list_helm_chart_versions d name)
  end.
#[global] Instance replicated_tokens : Store TokenCall StateMachineData := λ A env c d,
  match c in TokenCall A return StateMachineData * result A with
  | CallListPersonalAccessTokens subject => (d, raft_list_personal_access_tokens d subject)
  | CallGetPersonalAccessTokenByHash token_hash =>
      (d, raft_get_personal_access_token_by_hash d token_hash)
  | CallPutPersonalAccessToken token =>
      commit env d (ReqToken (StateMachine.PutPersonalAccessToken token))
        (λ c, Router.put_personal_access_token c token)
  | CallDeletePersonalAccessToken id subject =>
      commit env d (ReqToken (StateMachine.DeletePersonalAccessToken id subject))
        (λ c, Router.delete_personal_access_token c id subject)
  end.
#[global] Instance replicated_policies : Store PolicyCall StateMachineData := λ A env c d,
  match c in PolicyCall A return StateMachineData * result A with
  | CallListPolicySets => (d, raft_list_policy_sets d)
  | CallGetPolicySet id => (d, raft_get_policy_set d id)
  | CallPutPolicySet policy =>
      commit env d (ReqPolicy (StateMachine.PutPolicySet policy))
        (λ c, Router.put_policy_set c policy)
  | CallDeletePolicySet id =>
      commit env d (ReqPolicy (StateMachine.DeletePolicySet id))
        (λ c, Router.delete_policy_set c id)
  end.
#[global] Instance replicated_repositories : Store RepositoryCall StateMachineData := λ A env c d,
  match c in RepositoryCall A return StateMachineData * result A with
  | CallGetRepository name => (d, raft_get_repository d name)
  | CallPutRepository repo =>
      commit env d (ReqRepository (StateMachine.PutRepository repo
          (expected_namespace_for_repository d (repo_name repo))))
        (λ c, Router.put_repository c d repo)
  | CallPutRepositoryExpecting repo expected =>
      commit env d (ReqRepository (StateMachine.PutRepository repo expected))
        (λ c, put_repository_with_expected_namespace c repo expected)
  | CallDeleteRepositoryMeta name =>
      commit env d (ReqRepository (DeleteRepositoryObject name
          (expected_namespace_for_repository d name)))
        (λ c, Router.delete_repository_meta c d name)
  | CallDeleteRepositoryMetaExpecting name expected =>
      commit env d (ReqRepository (DeleteRepositoryObject name expected))
        (λ c, delete_repository_meta_with_expected_namespace c name expected)
  end.
#[global] Instance replicated_namespaces : Store NamespaceCall StateMachineData := λ A env c d,
  match c in NamespaceCall A return StateMachineData * result A with
  | CallGetNamespace handle => (d, raft_get_namespace d handle)
  | CallListNamespaces => (d, raft_list_namespaces d)
  | CallGetReleasedHandle handle => (d, raft_get_released_handle d handle)
  | CallClaimNamespace handle owner owner_label actor admin_override at_time =>
      commit env d (ReqNamespace (StateMachine.Claim handle owner owner_label actor admin_override at_time))
        (λ c, Router.claim_namespace c handle owner owner_label actor admin_override at_time)
  | CallReleaseNamespace handle actor reason at_time =>
      commit env d (ReqNamespace (StateMachine.DeleteNamespace handle actor reason at_time))
        (λ c, Router.release_namespace c handle actor reason at_time)
  | CallAdminRevokeNamespace handle actor at_time =>
      commit env d (ReqNamespace (StateMachine.AdminRevoke handle actor at_time))
        (λ c, Router.admin_revoke_namespace c handle actor at_time)
  | CallListNamespaceGrants handle => (d, raft_list_namespace_grants d handle)
  | CallGetNamespaceGrant handle grant_id => (d, raft_get_namespace_grant d handle grant_id)
  | CallPutNamespaceGrant grant actor_label reason =>
      commit env d (ReqNamespace (PutGrant grant actor_label reason (uuid env)))
        (λ c, Router.put_namespace_grant c grant actor_label reason (uuid env))
  | CallDeleteNamespaceGrant handle grant_id actor actor_label reason at_time =>
      commit env d (ReqNamespace (DeleteGrant handle grant_id actor actor_label reason at_time (uuid env)))
        (λ c, Router.delete_namespace_grant c handle grant_id actor actor_label reason at_time (uuid env))
  | CallListNamespaceGrantAudit handle => (d, raft_list_namespace_grant_audit d handle)
  | CallPutObservedIdentity identity =>
      commit env d (ReqNamespace (StateMachine.PutObservedIdentity identity))
        (λ c, Router.put_observed_identity c identity)
  | CallSearchObservedIdentities query limit =>
      (d, raft_search_observed_identities to_lowercase d query limit)
  end.
End implementations.
