(* ===== verification/StoreAgreement.v ===== *)
(** The two implementations of the metadata store compared: on every history of calls
    that the replicated store does not refuse for a reason the store of the tests does not
    know, they give the same answers.

    The states correspond when the replicated state is the [view] of the other: tags point
    at digests instead of their texts, and the references of an entry are kept as they were
    given instead of sorted and without duplicates. *)

From Stdlib Require Import Ascii.
From stdpp Require Import options.
From S2P Require Import Prelude Errors Digests Manifests Permissions Principals Handles.
From S2P Require Import SyncRuns Types StateMachine Reach Jobs Queries Authorization Router.
From S2P Require Import Samples Push InMemory Stores.

Section agreement.
Context `{SJ : SerdeJson, OR : Openraft, EX : Externals, CF : CaseFolding}.
Implicit Types (s : InMemoryState) (d : StateMachineData) (e : ManifestEntry).

(** * Corresponding states *)

Definition canonical e : ManifestEntry :=
  set_me_referenced_blobs (normalize_refs (me_referenced_blobs e)) e.
Definition view_repo (repo : gmap string ManifestEntry) : gmap string ManifestEntry :=
  canonical <$> repo.
Definition view_tags (tags : gmap string Digest) : gmap string string := digest_to_string <$> tags.

(** The log position and the membership of a replica have no counterpart. *)
Context (log : option LogId) (membership : StoredMembership).

Definition view s : StateMachineData :=
  MkStateMachineData log membership (view_repo <$> im_manifests s) (view_tags <$> im_tags s)
    (im_blob_ref_counts s) (im_blob_delete_requests s) (im_mirror_rules s) (im_proxy_caches s)
    (im_proxy_cache_tag_validations s) (im_warm_images s) (im_sync_jobs s) (im_sync_job_runs s)
    ∅ ∅ (im_personal_access_tokens s) (im_repositories s) (im_policy_sets s) (im_namespaces s)
    (im_released_handles s) (im_namespace_grants s) (im_observed_identities s)
    (im_namespace_grant_audit s).

(** * Calls both stores serve alike *)

(** An entry that survives the trip through a request: its digests are valid, and its
    references are those of its body if it names none. [from_parsed_json] builds such entries. *)
Definition transportable e : Prop :=
  digest_wf (me_digest e) ∧ (∀ x, me_subject e = Some x → digest_wf x) ∧
  Forall digest_wf (me_referenced_blobs e) ∧
  refs_or_body (me_referenced_blobs e) (me_body e) = me_referenced_blobs e.

Definition allowed d (name : string) (expected : option NamespaceEpoch) : Prop :=
  require_expected_namespace d name expected = Ok ().
Definition allowed_now d (name : string) : Prop :=
  allowed d name (expected_namespace_for_repository d name).

Definition manifest_fits {A} (c : ManifestCall A) d : Prop :=
  match c with
  | CallPutManifest name _ e => allowed_now d name ∧ transportable e
  | CallPutManifestExpecting name reference e expected absent =>
      allowed d name expected ∧ transportable e ∧
      (absent = true → Str.contains_char ":" reference = false →
       StateMachine.get_manifest d name reference = None)
  | CallDeleteManifest name _ | CallDeleteTag name _ _ | CallDeleteRepository name
  | CallDeleteManifests name _ | CallMountBlob _ name _ => allowed_now d name
  | CallDeleteManifestExpecting name _ expected | CallDeleteTagExpecting name _ _ expected
  | CallDeleteRepositoryExpecting name expected | CallDeleteManifestsExpecting name _ expected
  | CallMountBlobExpecting _ name _ expected => allowed d name expected
  | _ => True
  end.

Definition repository_fits {A} (c : RepositoryCall A) d : Prop :=
  match c with
  | CallPutRepository repo => allowed_now d (repo_name repo)
  | CallPutRepositoryExpecting repo expected => allowed d (repo_name repo) expected
  | CallDeleteRepositoryMeta name => allowed_now d name
  | CallDeleteRepositoryMetaExpecting name expected => allowed d name expected
  | _ => True
  end.

Definition policy_fits {A} (c : PolicyCall A) : Prop :=
  match c with
  | CallPutPolicySet policy =>
      Str.is_empty (Str.trim (ps_id policy)) = false ∧
      Str.is_empty (Str.trim (ps_name policy)) = false ∧
      Str.is_empty (Str.trim (ps_cedar_text policy)) = false
  | _ => True
  end.

Definition fits {A} (c : StoreCall A) d : Prop :=
  match c with
  | OnManifest c => manifest_fits c d
  | OnRepository c => repository_fits c d
  | OnPolicy c => policy_fits c
  | _ => True
  end.

(** The answer of the replicated store, given the one of the store of the tests: an entry
    that is read has its references sorted and without duplicates. *)
Definition manifest_answer {A} (c : ManifestCall A) : result A → result A :=
  match c in ManifestCall A return result A → result A with
  | CallGetManifest _ _ => λ r, (λ o : option ManifestEntry, canonical <$> o) <$> r
  | _ => λ r, r
  end.
Definition view_answer {A} (c : StoreCall A) : result A → result A :=
  match c with OnManifest c => manifest_answer c | _ => λ r, r end.

(** * Entries and counters *)

Lemma normalize_refs_keys refs : digest_to_string <$> normalize_refs refs = unique_blob_refs refs.
Proof. unfold normalize_refs. by rewrite dedup_by_key_fmap, sort_by_key_fmap. Qed.

Lemma decrement_canonical counts e :
  StateMachine.decrement_blob_refs counts (canonical e) =
  foldl decrement_count counts (unique_blob_refs (me_referenced_blobs e)).
Proof. rewrite <-normalize_refs_keys, foldl_fmap. done. Qed.
Lemma increment_canonical counts e :
  StateMachine.increment_blob_refs counts (canonical e) =
  foldl increment_count counts (unique_blob_refs (me_referenced_blobs e)).
Proof. rewrite <-normalize_refs_keys, foldl_fmap. done. Qed.

Lemma decrement_all_view s (es : list ManifestEntry) :
  foldl mem_decrement_blob_refs s es =
  set_im_blob_ref_counts
    (foldl StateMachine.decrement_blob_refs (im_blob_ref_counts s) (canonical <$> es)) s.
Proof.
  revert s. induction es as [|e es IH]; intros s; [by destruct s|].
  csimpl. rewrite IH, decrement_canonical. by destruct s.
Qed.

Lemma transported_refs refs : Forall digest_wf refs → omap from_str_checked (digest_to_string <$> refs) = refs.
Proof.
  induction 1 as [|x refs Hx _ IH]; [done|]. csimpl.
  rewrite (proj2 (from_str_checked_Some _ x)) by done. by f_equal.
Qed.

(** Requests rebuild the entry they carry, in its canonical form. *)
Lemma transported_entry e : transportable e →
  default (digest_sha256 sha256_hex (me_body e)) (from_str_checked (digest_to_string (me_digest e)))
    = me_digest e ∧
  (t ← digest_to_string <$> me_subject e; from_str_checked t) = me_subject e ∧
  normalize_refs (refs_or_body (omap from_str_checked (digest_to_string <$> me_referenced_blobs e))
                    (me_body e)) = me_referenced_blobs (canonical e).
Proof.
  intros (Hd & Hs & Hr & Hb). split_and!.
  - by rewrite (proj2 (from_str_checked_Some _ (me_digest e))).
  - destruct (me_subject e) as [x|] eqn:E; [|done]. simpl.
    apply from_str_checked_Some. split; [done|]. by apply Hs.
  - by rewrite transported_refs, Hb.
Qed.

(** * Maps *)

Lemma fmap_insert_nested {X Y} (g : X → Y) (m : gmap string (gmap string X)) name key x :
  (λ r : gmap string X, g <$> r) <$> insert_nested m name key x =
  insert_nested ((λ r : gmap string X, g <$> r) <$> m) name key (g x).
Proof.
  unfold insert_nested. rewrite fmap_insert, fmap_insert, lookup_fmap.
  destruct (m !! name); simpl; [done|]. by rewrite fmap_empty.
Qed.

Lemma lookup_nested_fmap {X Y} (g : X → Y) (m : gmap string (gmap string X)) name key :
  (r ← ((λ r : gmap string X, g <$> r) <$> m) !! name; r !! key) =
  g <$> (r ← m !! name; r !! key).
Proof. rewrite lookup_fmap. destruct (m !! name); simpl; [apply lookup_fmap|done]. Qed.

Lemma btree_values_view repo : btree_values (view_repo repo) = canonical <$> btree_values repo.
Proof. apply btree_values_fmap. Qed.

Lemma remove_each_fmap (repo : gmap string ManifestEntry) digests :
  remove_each (view_repo repo) digests =
  prod_map view_repo (fmap canonical) (remove_each repo digests).
Proof.
  unfold remove_each. change (view_repo repo, @nil ManifestEntry) with
    (prod_map view_repo (fmap canonical) (repo, @nil ManifestEntry)).
  generalize (repo, @nil ManifestEntry). induction digests as [|x l IH]; intros [r es]; [done|].
  simpl. rewrite <-IH. f_equal. unfold view_repo at 1. rewrite lookup_fmap.
  destruct (r !! x); simpl; [|done]. unfold prod_map; simpl. f_equal.
  - unfold view_repo. by rewrite fmap_delete.
  - by rewrite fmap_app.
Qed.

(** * Manifests *)

(** [mem_retain_tags] is [drop_tags] on the view, with the number of tags it removed. *)
Lemma retain_tags_view s name (removed : string → bool) :
  (drop_tags (view s) name removed).1 = view (mem_retain_tags s name removed).1 ∧
  default 0 (size <$> sm_tags (view s) !! name) -
    default 0 (size <$> sm_tags (view (mem_retain_tags s name removed).1) !! name)
  = (mem_retain_tags s name removed).2.
Proof.
  unfold drop_tags, StateMachine.retain_tags, mem_retain_tags, clear_tags. simpl.
  rewrite lookup_fmap. destruct (im_tags s !! name) as [tags|] eqn:E; simpl.
  - assert (filter (λ p, removed p.2 = false) (view_tags tags) =
            view_tags (filter (λ p, removed (digest_to_string p.2) = false) tags)) as Hf
      by (unfold view_tags; by rewrite map_filter_fmap).
    assert ((filter (λ p, removed p.2 = true) (btree_entries (view_tags tags))).*1 =
            (filter (λ p, removed (digest_to_string p.2) = true) (btree_entries tags)).*1) as Hr.
    { unfold view_tags. rewrite btree_entries_fmap.
      induction (btree_entries tags) as [|[t x] l IH]; [done|]. csimpl.
      rewrite !filter_cons. simpl. case_decide; csimpl; by rewrite IH. }
    split.
    + unfold view. simpl. rewrite fmap_insert, <-Hf, Hr. done.
    + rewrite fmap_insert, lookup_insert_eq. simpl. unfold view_tags. by rewrite !map_size_fmap.
  - split; [done|]. by rewrite lookup_fmap, E.
Qed.

Lemma put_view s name reference e expected absent :
  allowed (view s) name expected → transportable e →
  (absent = true → Str.contains_char ":" reference = false →
   StateMachine.get_manifest (view s) name reference = None) →
  apply_manifest (view s) (put_manifest_request name reference e expected absent) =
    (view (mem_put_manifest s name reference e).1, Ok ManifestOk) ∧
  (mem_put_manifest s name reference e).2 = Ok ().
Proof.
  intros Ha Ht Hn. destruct (transported_entry e Ht) as (Ed & Es & Er).
  unfold put_manifest_request. cbn [apply_manifest]. unfold apply_put_manifest. rewrite Ha.
  cbn [try_with].
  assert (absent && negb (Str.contains_char ":" reference)
    && bool_decide (is_Some (StateMachine.get_manifest (view s) name reference)) = false) as ->.
  { destruct absent, (Str.contains_char ":" reference); try done. simpl.
    rewrite Hn by done. done. }
  cbn zeta. rewrite Ed, Es, Er. cbn [me_digest].
  set (e' := MkManifestEntry _ _ _ _ _ _ _ _ _ _ _ _).
  assert (e' = canonical e) as -> by (by destruct e).
  assert (replace_manifest (view s) name (digest_to_string (me_digest e)) (canonical e) =
    view (mem_increment_blob_refs
      (match (repo ← im_manifests s !! name; repo !! digest_to_string (me_digest e)) with
       | Some p => mem_decrement_blob_refs (set_im_manifests
           (insert_nested (im_manifests s) name (digest_to_string (me_digest e)) e) s) p
       | None => set_im_manifests
           (insert_nested (im_manifests s) name (digest_to_string (me_digest e)) e) s
       end) e)) as ->.
  { unfold replace_manifest. cbn [sm_manifests view].
    rewrite increment_canonical, (lookup_nested_fmap canonical), <-(fmap_insert_nested canonical).
    destruct (im_manifests s !! name ≫= _) as [p|]; simpl; rewrite ?decrement_canonical; done. }
  unfold mem_put_manifest. destruct (Str.contains_char ":" reference); simpl; [done|].
  split; [|done]. unfold put_tag, view. simpl.
  rewrite <-(fmap_insert_nested digest_to_string). by destruct (im_manifests s !! name ≫= _).
Qed.

Lemma delete_manifest_view s name digest expected :
  allowed (view s) name expected →
  apply_manifest (view s) (StateMachine.DeleteManifest name expected (digest_to_string digest)) =
    (view (mem_delete_manifest s name digest).1, Ok ManifestOk) ∧
  (mem_delete_manifest s name digest).2 = Ok ().
Proof.
  intros Ha. cbn [apply_manifest]. unfold apply_delete_manifest, mem_delete_manifest. rewrite Ha.
  cbn [try_with]. cbn zeta. cbn [sm_manifests view].
  rewrite (lookup_nested_fmap canonical).
  set (s1 := set_im_manifests _ s).
  assert (set_sm_manifests (alter (delete (digest_to_string digest)) name (view_repo <$> im_manifests s))
            (view s) = view s1) as ->.
  { unfold view, s1, set_sm_manifests. simpl. f_equal. symmetry. apply fmap_alter.
    intros r _. apply fmap_delete. }
  set (s2 := match (_ ≫= _) with Some _ => _ | None => s1 end).
  assert (match canonical <$> (im_manifests s !! name ≫= λ r, r !! digest_to_string digest) with
    | Some e => set_sm_blob_ref_counts (StateMachine.decrement_blob_refs (sm_blob_ref_counts (view s1)) e)
                  (view s1)
    | None => view s1 end = view s2) as ->.
  { unfold s2. destruct (im_manifests s !! name ≫= _); simpl; [by rewrite decrement_canonical|done]. }
  destruct (retain_tags_view s2 name (λ x, bool_decide (x = digest_to_string digest))) as [H _].
  destruct (drop_tags _ _ _), (mem_retain_tags _ _ _). simpl in *. by rewrite H.
Qed.

Lemma delete_tag_view s name digest tag expected :
  allowed (view s) name expected →
  ∃ b, apply_manifest (view s) (StateMachine.DeleteTag name expected (digest_to_string digest) tag) =
         (view (mem_delete_tag s name digest tag).1, Ok (ManifestBool b)) ∧
       (mem_delete_tag s name digest tag).2 = Ok b.
Proof.
  intros Ha. cbn [apply_manifest]. unfold apply_delete_tag, mem_delete_tag. rewrite Ha.
  cbn [try_with]. cbn zeta. cbn [sm_tags view]. rewrite lookup_fmap.
  destruct (im_tags s !! name) as [tags|] eqn:E; simpl; [|by eexists].
  unfold view_tags. rewrite lookup_fmap.
  assert (bool_decide (digest_to_string <$> tags !! tag = Some (digest_to_string digest)) =
    match tags !! tag with
    | Some x => bool_decide (digest_to_string x = digest_to_string digest) | None => false end) as ->.
  { destruct (tags !! tag); simpl; [|done]. apply bool_decide_ext. split; [by intros [= ?]|by intros ->]. }
  case_match; [|by eexists]. eexists. split; [|done]. f_equal.
  unfold view, set_sm_proxy_cache_tag_validations, set_sm_tags. simpl. f_equal.
  rewrite fmap_insert. apply map_eq. intros k. rewrite lookup_alter, lookup_insert, !lookup_fmap.
  case_decide; [|done]. subst. rewrite E. simpl. unfold view_tags. by rewrite fmap_delete.
Qed.

Lemma delete_repository_view s name expected :
  allowed (view s) name expected →
  ∃ n, apply_manifest (view s) (StateMachine.DeleteRepository name expected) =
         (view (mem_delete_repository s name).1, Ok (ManifestDeleteCounts n)) ∧
       (mem_delete_repository s name).2 = Ok n.
Proof.
  intros Ha. cbn [apply_manifest]. unfold apply_delete_repository, mem_delete_repository. rewrite Ha.
  cbn [try_with]. cbn zeta. cbn [sm_manifests view]. rewrite lookup_fmap.
  destruct (im_manifests s !! name) as [repo|] eqn:E; simpl;
    rewrite ?decrement_all_view; simpl; rewrite lookup_fmap; eexists; (split; [f_equal|]).
  - unfold view. simpl. by rewrite !fmap_delete, btree_values_view.
  - unfold view_repo. rewrite map_size_fmap. do 2 f_equal. destruct (im_tags s !! name); simpl; [|done].
    unfold view_tags. by rewrite map_size_fmap.
  - unfold view. simpl. by rewrite !fmap_delete.
  - do 2 f_equal. destruct (im_tags s !! name); simpl; [|done].
    unfold view_tags. by rewrite map_size_fmap.
Qed.

Lemma delete_manifests_view s name digests expected :
  allowed (view s) name expected →
  ∃ n, apply_manifest (view s)
         (StateMachine.DeleteManifests name expected (digest_to_string <$> digests)) =
         (view (mem_delete_manifests s name digests).1, Ok (ManifestDeleteCounts n)) ∧
       (mem_delete_manifests s name digests).2 = Ok n.
Proof.
  intros Ha. cbn [apply_manifest]. unfold apply_delete_manifests, mem_delete_manifests. rewrite Ha.
  cbn [try_with]. cbn zeta. cbn [sm_manifests view]. rewrite lookup_fmap.
  set (ds := list_to_set _ : gset string).
  assert (∃ s1 removed,
    match view_repo <$> im_manifests s !! name with
    | Some repo => let '(repo', removed) := remove_each repo (merge_sort String.le (elements ds)) in
        (set_sm_manifests (<[name := repo']> (view_repo <$> im_manifests s)) (view s), removed)
    | None => (view s, []) end = (view s1, canonical <$> removed) ∧
    match im_manifests s !! name with
    | Some repo => let '(repo', removed) := remove_each repo (merge_sort String.le (elements ds)) in
        (set_im_manifests (<[name := repo']> (im_manifests s)) s, removed)
    | None => (s, []) end = (s1, removed)) as (s1 & removed & -> & ->).
  { destruct (im_manifests s !! name) as [repo|]; simpl; [|by exists s, []].
    rewrite remove_each_fmap. destruct (remove_each repo _) as [repo' removed]. simpl.
    do 2 eexists. split; [|done]. f_equal. unfold view. simpl. by rewrite fmap_insert. }
  cbn iota beta. rewrite decrement_all_view.
  set (s2 := set_im_blob_ref_counts _ s1).
  change (set_sm_blob_ref_counts _ (view s1)) with (view s2).
  destruct (retain_tags_view s2 name (λ x, bool_decide (x ∈ ds))) as [H1 H2].
  destruct (drop_tags _ _ _) as [d' l], (mem_retain_tags _ _ _) as [s3 n]. simpl in *. subst d'.
  eexists. split; [done|]. simpl. by rewrite length_fmap, <-H2.
Qed.

(** The listings do not look at the references of entries. *)
Lemma list_keys_fmap {X Y} (g : X → Y) (m : gmap string X) n last :
  list_keys (g <$> m) n last = list_keys m n last.
Proof. unfold list_keys. by rewrite btree_keys_fmap. Qed.

Lemma repository_summary_view s name repo :
  pushed_summary (view s) (name, view_repo repo) = repository_summary s (name, repo).
Proof.
  unfold pushed_summary, repository_summary, last_modified, repository_stored_size_bytes,
    repository_manifest_size_bytes. simpl.
  rewrite lookup_fmap, btree_values_view, foldl_fmap, <-!list_fmap_compose. unfold view_repo.
  rewrite map_size_fmap. f_equal. destruct (im_tags s !! name); simpl; [|done].
  unfold view_tags. by rewrite map_size_fmap.
Qed.

Lemma repository_summaries_view s :
  Queries.list_repository_summaries (view s) =
  (repository_summary s <$> btree_entries (im_manifests s)) ++
  (shadow_summary <$>
     filter (λ p, im_manifests s !! p.1 = None) (btree_entries (im_repositories s))).
Proof.
  unfold Queries.list_repository_summaries. simpl. f_equal.
  - rewrite btree_entries_fmap, <-list_fmap_compose. apply list_fmap_ext.
    intros _ [name repo] _. apply repository_summary_view.
  - f_equal. apply list_filter_iff. intros [name r]. rewrite lookup_fmap. simpl.
    by destruct (im_manifests s !! name).
Qed.

Lemma manifest_summaries_view s name :
  Ok (Queries.list_manifest_summaries (view s) name) = mem_list_manifest_summaries s name.
Proof.
  unfold Queries.list_manifest_summaries, mem_list_manifest_summaries. simpl. rewrite !lookup_fmap.
  destruct (im_manifests s !! name) as [repo|]; simpl; [|done].
  unfold build_manifest_summaries, view_repo. rewrite btree_entries_fmap, <-list_fmap_compose. done.
Qed.

Lemma referrers_view s name subject artifact_type :
  Ok (Queries.list_referrers (view s) name (digest_to_string subject) artifact_type) =
  mem_list_referrers s name subject artifact_type.
Proof.
  unfold Queries.list_referrers, mem_list_referrers. simpl. rewrite !lookup_fmap.
  destruct (im_manifests s !! name) as [repo|]; simpl; [|done].
  rewrite btree_values_view. f_equal. induction (btree_values repo) as [|e es IH]; [done|].
  csimpl. rewrite IH. done.
Qed.

Lemma get_manifest_view s name reference :
  Ok (StateMachine.get_manifest (view s) name reference) =
  (λ o : option ManifestEntry, canonical <$> o) <$> mem_get_manifest s name reference.
Proof.
  unfold StateMachine.get_manifest, is_digest_reference, mem_get_manifest. simpl. rewrite !lookup_fmap.
  destruct (_ || _); [destruct (im_manifests s !! name); simpl; [|done]; unfold view_repo; by rewrite lookup_fmap|].
  destruct (im_tags s !! name) as [tags|]; simpl; [|done]. unfold view_tags. rewrite lookup_fmap.
  destruct (tags !! reference); simpl; [|done]. destruct (im_manifests s !! name); simpl; [|done].
  unfold view_repo. by rewrite lookup_fmap.
Qed.

(** * The traits *)

Lemma commit_manifest {A} env d r (f : Commit → result A) (k : ManifestResponse → result A) :
  (∀ c, f c = write_manifest c r ≫= k) →
  commit env d (ReqManifest r) f = ((apply_manifest d r).1, (apply_manifest d r).2 ≫= k).
Proof. intros Hf. unfold commit. rewrite Hf, write_manifest_at. done. Qed.

Lemma manifest_store_agrees {A} env (c : ManifestCall A) s : manifest_fits c (view s) →
  call env c (view s) = (view (call env c s).1, manifest_answer c (call env c s).2).
Proof.
  intros Hf. destruct c; cbn [manifest_fits] in Hf; unfold call; cbn [in_memory_manifests
    replicated_manifests manifest_answer fst snd].
  all: try (erewrite commit_manifest; [|done]).
  1: f_equal; apply get_manifest_view.
  1: destruct Hf as [Ha Ht]; edestruct put_view as [-> ->]; by eauto.
  1: destruct Hf as (Ha & Ht & Hn); edestruct put_view as [-> ->]; by eauto.
  1-2: edestruct delete_manifest_view as [-> ->]; by eauto.
  1: unfold raft_list_tags, Queries.list_tags, mem_list_tags; simpl; rewrite lookup_fmap;
     destruct (im_tags s !! name); simpl; [|done]; unfold view_tags; by rewrite list_keys_fmap.
  1: unfold raft_list_repositories, Queries.list_repositories, mem_list_repositories; simpl;
     by rewrite list_keys_fmap.
  1: unfold raft_list_repository_summaries; by rewrite repository_summaries_view.
  1: f_equal; apply manifest_summaries_view.
  1-2: edestruct delete_tag_view as (b & -> & ->); by eauto.
  1-2: edestruct delete_repository_view as (b & -> & ->); by eauto.
  1-2: edestruct delete_manifests_view as (b & -> & ->); by eauto.
  1: f_equal; apply referrers_view.
  1-2: cbn [apply_manifest]; by rewrite Hf.
  all: done.
Qed.

Lemma mirror_config_store_agrees {A} env (c : MirrorConfigCall A) s : config_keyed (view s) →
  call env c (view s) = (view (call env c s).1, (call env c s).2).
Proof.
  intros [Hr _]. destruct c; try done; unfold call; simpl.
  - unfold commit, Router.trigger_mirror_rule, write_mirror_config, write, mem_trigger_mirror_rule. simpl.
    destruct (im_mirror_rules s !! id) as [rule|] eqn:E; simpl; [|done].
    change (any_job_blocks (view s)) with
      (λ kind id now, existsb (λ job, sync_job_blocks_trigger job kind id now) (btree_values (im_sync_jobs s))).
    cbn beta. destruct (existsb _ _); simpl; [done|]. by rewrite (Hr id rule E).
  - unfold commit, Router.trigger_proxy_cache_warm, write_mirror_config, write, mem_trigger_proxy_cache_warm.
    simpl. destruct (im_proxy_caches s !! id) as [rule|] eqn:E; simpl; [|done].
    change (any_job_blocks (view s)) with
      (λ kind id now, existsb (λ job, sync_job_blocks_trigger job kind id now) (btree_values (im_sync_jobs s))).
    cbn beta. destruct (existsb _ _); simpl; done.
Qed.

Lemma job_store_agrees {A} env (c : JobCall A) s :
  call env c (view s) = (view (call env c s).1, (call env c s).2).
Proof.
  destruct c; try done; unfold call; simpl.
  - unfold commit, Router.claim_sync_job, write_job, write, mem_claim_sync_job. simpl.
    destruct (im_sync_jobs s !! id) as [job|]; simpl; [|done]. by case_bool_decide.
  - unfold commit, Router.trigger_sync_job, write_job, write, mem_trigger_sync_job. simpl.
    destruct (im_sync_jobs s !! id) as [job|]; simpl; [|done]. by case_bool_decide.
Qed.

Lemma token_store_agrees {A} env (c : TokenCall A) s :
  call env c (view s) = (view (call env c s).1, (call env c s).2).
Proof.
  destruct c; try done; unfold call; simpl.
  unfold commit, Router.delete_personal_access_token, write_token, write, mem_delete_personal_access_token.
  simpl. destruct (im_personal_access_tokens s !! id); simpl; [by case_bool_decide|done].
Qed.

Lemma policy_store_agrees {A} env (c : PolicyCall A) s : policy_fits c →
  call env c (view s) = (view (call env c s).1, (call env c s).2).
Proof.
  intros Hf. destruct c; try done; unfold call; simpl in *.
  destruct Hf as (H1 & H2 & H3).
  unfold commit, Router.put_policy_set, write_policy, write, mem_put_policy_set. simpl.
  unfold validate_policy_set. rewrite H1, H2, H3. by destruct (cedar_policy_error _).
Qed.

Lemma repository_store_agrees {A} env (c : RepositoryCall A) s : repository_fits c (view s) →
  call env c (view s) = (view (call env c s).1, (call env c s).2).
Proof.
  intros Hf. destruct c; try done; unfold call; simpl in *; unfold commit, Router.put_repository,
    put_repository_with_expected_namespace, Router.delete_repository_meta,
    delete_repository_meta_with_expected_namespace, write_repository, write; simpl;
    unfold allowed_now, allowed in Hf; by rewrite Hf.
Qed.

Lemma apply_namespace_view s r :
  StateMachine.apply_namespace (view s) r =
  (view (mem_apply_namespace s r).1, (mem_apply_namespace s r).2).
Proof.
  unfold StateMachine.apply_namespace, mem_apply_namespace, namespace_maps. simpl.
  assert (∀ (m : NamespaceMaps) (f g : string → bool), (∀ h, f h = g h) →
    apply_namespace_core m r f = apply_namespace_core m r g) as Hext.
  { intros m f g Hfg. destruct r; try done; simpl; unfold core_delete, core_admin_revoke; by rewrite Hfg. }
  rewrite (Hext _ (handle_has_content (view s)) (λ handle,
    existsb (Str.starts_with (handle +:+ "/")) (btree_keys (im_manifests s))
    || existsb (Str.starts_with (handle +:+ "/")) (btree_keys (im_tags s))
    || existsb (Str.starts_with (handle +:+ "/")) (btree_keys (im_repositories s)))).
  - by destruct (apply_namespace_core _ r _).
  - intros h. unfold handle_has_content, any_key_with_prefix. simpl. by rewrite !btree_keys_fmap.
Qed.

Lemma commit_namespace {A} env d r (f : Commit → result A) (k : NamespaceResponse → result A) :
  (∀ c, f c = write_namespace c r ≫= k) →
  commit env d (ReqNamespace r) f =
    ((StateMachine.apply_namespace d r).1, (StateMachine.apply_namespace d r).2 ≫= k).
Proof.
  intros Hf. unfold commit. rewrite Hf.
  by rewrite (proj1 (proj2 (proj2 (proj2 (writes_transparent (now env) d))))).
Qed.

Lemma namespace_store_agrees {A} env (c : NamespaceCall A) s :
  call env c (view s) = (view (call env c s).1, (call env c s).2).
Proof.
  destruct c; try done; unfold call; cbn [in_memory_namespaces replicated_namespaces fst snd].
  4: { unfold raft_list_namespace_grants, Authorization.list_namespace_grants,
         mem_list_namespace_grants. simpl. by destruct (im_namespace_grants s !! handle). }
  all: (erewrite commit_namespace; [|done]); rewrite apply_namespace_view; try done.
  - unfold mem_put_namespace_grant. by destruct (mem_apply_namespace _ _) as [? [[]| |]].
  - unfold mem_delete_namespace_grant. by destruct (mem_apply_namespace _ _) as [? [[]| |]].
Qed.

(** * Histories *)

Lemma call_agrees {A} env (c : StoreCall A) s : config_keyed (view s) → fits c (view s) →
  call env c (view s) = (view (call env c s).1, view_answer c (call env c s).2).
Proof.
  intros Hk Hf. destruct c; simpl in Hf.
  - by apply manifest_store_agrees.
  - by apply mirror_config_store_agrees.
  - apply job_store_agrees.
  - by destruct c.
  - apply token_store_agrees.
  - by apply policy_store_agrees.
  - by apply repository_store_agrees.
  - apply namespace_store_agrees.
Qed.

Lemma replicated_keyed {A} env (c : StoreCall A) d : config_keyed d → config_keyed (call env c d).1.
Proof. intros Hd. destruct c as [? c|? c|? c|? c|? c|? c|? c|? c]; destruct c; try done; by apply config_keyed_step. Qed.

(** Every call of the history is one the stores serve alike, where it is made. *)
Fixpoint all_fit (qs : list Invocation) d : Prop :=
  match qs with
  | [] => True
  | q :: qs' => fits (projT2 q.2) d ∧ all_fit qs' (exchange q d).1
  end.

Definition view_exchange (x : Exchange) : Exchange :=
  let '(existT A (c, r)) := x in existT A (c, view_answer c r).

Lemma histories_agree qs s : config_keyed (view s) → all_fit qs (view s) →
  history qs (view s) = prod_map view (fmap view_exchange) (history qs s) ∧
  config_keyed (view (history qs s).1).
Proof.
  revert s. induction qs as [|[env [A c]] qs IH]; intros s Hk Hf; [done|].
  destruct Hf as [Hc Hf]. unfold exchange in Hf. cbn [history]. unfold exchange.
  cbn [projT1 projT2 fst snd] in *.
  pose proof (replicated_keyed env c (view s) Hk) as Hk'.
  pose proof (call_agrees env c s Hk Hc) as E. rewrite E in Hf, Hk' |- *. simpl in Hf, Hk'.
  destruct (call env c s) as [s' r]. simpl in *. destruct (IH s' Hk' Hf) as [-> ?].
  by destruct (history qs s').
Qed.

(** C22: The store of the tests stands in for the replicated one: from corresponding states, any
    history of calls of the eight traits gives the same answers on both, up to the order of
    the references in an entry that is read, and leads to corresponding states. The calls
    are such that the replicated store finds the namespace it expects for each write, a
    reference that must be absent is absent, entries come from valid manifests and policies
    have an id, a name and a text. *)
Theorem stores_interchangeable qs s s' xs :
  config_keyed (view s) → all_fit qs (view s) → history qs s = (s', xs) →
  history qs (view s) = (view s', view_exchange <$> xs).
Proof. intros Hk Hf E. destruct (histories_agree qs s Hk Hf) as [H _]. by rewrite H, E. Qed.
End agreement.

(** What a push stores is such an entry, if the hash function is one. *)
Section push.
Context `{SJ : SerdeJson, OR : Openraft, EX : Externals, CE : Cedar}.
Lemma unique_digests_sub seen l x : x ∈ unique_digests seen l → x ∈ l.
Proof.
  revert seen. induction l as [|y l IH]; intros seen; simpl; [done|].
  case_match; rewrite ?elem_of_cons; naive_solver.
Qed.

Lemma pushed_transportable px name reference e expected absent :
  prepare_put px name reference = Ok (e, expected, absent) →
  hash_output (sha256_hex (me_body e)) → transportable e.
Proof.
  unfold prepare_put. intros (body & _ & H)%result_bind_Ok Hh. case_match; [done|].
  apply result_bind_Ok in H as (parsed & Hp%ok_or_Ok & H).
  apply result_bind_Ok in H as (_ & _ & H). apply result_bind_Ok in H as ([ex ab] & _ & [= <- <- <-]).
  simpl in Hh. split_and!; simpl.
  - by apply sha256_digest_wf.
  - intros x. unfold extract_subject_digest. intros (v & _ & (w & _ & (t & _ & Ht)%bind_Some)%bind_Some)%bind_Some.
    by apply from_str_checked_Some in Ht as [_ ?].
  - apply Forall_forall. intros x Hx%unique_digests_sub.
    by eapply Forall_forall; [apply extract_referenced_digests_wf|].
  - unfold refs_or_body. rewrite Hp. by destruct (extract_referenced_digests parsed).
Qed.
End push.

(** * A history *)

#[local] Instance sample_folding : CaseFolding := λ x, x.

Definition env0 : Env := MkEnv 100 "audit-1".
Definition invoke {A} (c : StoreCall A) : Invocation := (env0, existT A c).

Definition digest_of (hex : string) : Digest := MkDigest "sha256" hex.
Definition pushed : ManifestEntry :=
  MkManifestEntry (digest_of (repeat_string 64 "c")) "application/vnd.oci.image.manifest.v1+json"
    body [digest_of hex_b; digest_of hex_a; digest_of hex_b] None None None 17 2 100 100 None.

Definition sample_calls : list Invocation :=
  [invoke (OnNamespace (CallClaimNamespace "acme" (OwnerUser "sub-1") "alice" "sub-1" false 100));
   invoke (OnManifest (CallPutManifest "acme/app" "latest" pushed));
   invoke (OnManifest (CallPutManifestExpecting "acme/app" "v1" pushed acme_epoch true));
   invoke (OnManifest (CallGetManifest "acme/app" "v1"));
   invoke (OnManifest (CallListTags "acme/app" None None));
   invoke (OnManifest (CallDeleteTag "acme/app" (me_digest pushed) "latest"));
   invoke (OnNamespace (CallReleaseNamespace "acme" "sub-1" OwnerDeleted 101));
   invoke (OnManifest (CallDeleteManifests "acme/app" [me_digest pushed]));
   invoke (OnManifest CallGetBlobRefCounts)].

Lemma stores_interchangeable_witness :
  let d := view None default_membership InMemoryState_default in
  config_keyed d ∧ all_fit sample_calls d ∧
  history sample_calls d =
    (view None default_membership (history sample_calls InMemoryState_default).1,
     view_exchange <$> (history sample_calls InMemoryState_default).2).
Proof.
  assert (config_keyed (view None default_membership InMemoryState_default)) as Hk
    by (split; intros id x; simpl; by rewrite lookup_empty).
  assert (transportable pushed) as Ht.
  { split_and!; [|done|repeat constructor|done]; (split; [by left|done]). }
  assert (all_fit sample_calls (view None default_membership InMemoryState_default)) as Hf.
  { unfold sample_calls. cbn [all_fit]. split_and!; try done. all: by vm_compute. }
  split; [done|]. split; [done|].
  apply (stores_interchangeable None default_membership sample_calls InMemoryState_default); [done..|].
  by destruct (history sample_calls InMemoryState_default).
Defined.

(** Where the stores differ: the store of the tests takes a write to a namespace nobody has
    claimed, a push that must create its reference though the reference exists, and a policy
    without an id. *)
Definition answers_of {A} (c : StoreCall A) (qs : list Invocation) : result A * result A :=
  let s := (history qs InMemoryState_default).1 in
  ((call env0 c s).2, (call env0 c (view None default_membership s)).2).

Theorem tests_store_accepts_more :
  answers_of (OnManifest (CallPutManifest "acme/app" "latest" pushed)) [] =
    (Ok (), Err (Denied [Lit "namespace "; Dbg "acme";
                   Lit " was not live when request was authorized"])) ∧
  answers_of (OnManifest (CallPutManifestExpecting "acme/app" "latest" pushed acme_epoch true))
      (take 2 sample_calls) =
    (Ok (), Err (Conflict [Lit "manifest reference "; Dbg "latest"; Lit " in repository ";
                   Dbg "acme/app"; Lit " was created before commit"])) ∧
  answers_of (OnPolicy (CallPutPolicySet (MkPolicySet "" "team" PolicyRaft
      "permit(principal, action, resource);" true "sub-1" "sub-1" 100 100))) [] =
    (Ok (), Err (NameInvalid [Lit "policy id is required"])).
Proof. split_and!; by vm_compute. Qed.
