(* ===== verification/Addresses.v ===== *)
(** [std::net]: reading socket addresses, which the settings of the listeners go through.

    A reader takes the text that is left and gives what it read and the rest; a reader
    that fails consumes nothing, as the atomic reads of the standard library. *)

From Stdlib Require Import Ascii.
From stdpp Require Import options.
From S2P Require Import Prelude.

#[local] Open Scope lh_scope.

Inductive IpAddr := V4 (octets : list N) | V6 (segments : list N).
#[global] Instance IpAddr_eq_dec : EqDecision IpAddr.
Proof. solve_decision. Defined.
Definition is_unspecified (ip : IpAddr) : bool :=
  match ip with V4 o => bool_decide (o = replicate 4 0%N) | V6 s => bool_decide (s = replicate 8 0%N) end.
Record SocketAddr := MkSocketAddr { sa_ip : IpAddr; sa_port : N }.

Definition reader (A : Type) : Type := string → option (A * string).

Definition read_given_char (c : ascii) : reader () := λ s,
  match s with String a s' => if bool_decide (a = c) then Some ((), s') else None | EmptyString => None end.

(** [char::to_digit]. *)
Definition to_digit (radix : N) (a : ascii) : option N :=
  let v := if Str.is_ascii_digit a then Some (N_of_ascii a - 48)%N
           else if Str.in_range "a" "z" a then Some (N_of_ascii a - 87)%N
           else if Str.in_range "A" "Z" a then Some (N_of_ascii a - 55)%N else None in
  d ← v; if bool_decide (d < radix)%N then Some d else None.

(** The digits at the front: their value, their number and the rest. *)
Fixpoint read_digits (radix acc : N) (count : nat) (s : string) : N * nat * string :=
  match s with
  | String a s' =>
      match to_digit radix a with
      | Some d => read_digits radix (acc * radix + d)%N (S count) s'
      | None => (acc, count, s)
      end
  | EmptyString => (acc, count, s)
  end.
(** A number below [bound]; without [max_digits] the reads of the source stop at the
    first digit that overflows, and fail as well. *)
Definition read_number (radix : N) (max_digits : option nat) (allow_zero_prefix : bool) (bound : N) : reader N := λ s,
  let '(v, count, s') := read_digits radix 0 0 s in
  if bool_decide (count = 0) then None
  else if match max_digits with Some m => bool_decide (m < count) | None => false end then None
  else if negb allow_zero_prefix && Str.starts_with "0" s && bool_decide (1 < count) then None
  else if bool_decide (v < bound)%N then Some (v, s') else None.

Definition read_octet : reader N := read_number 10 (Some 3) false 256.
Definition read_ipv4_addr : reader (list N) := λ s,
  '(a, s) ← read_octet s; '(_, s) ← read_given_char "." s;
  '(b, s) ← read_octet s; '(_, s) ← read_given_char "." s;
  '(c, s) ← read_octet s; '(_, s) ← read_given_char "." s;
  '(d, s) ← read_octet s; Some ([a; b; c; d], s).

(** [read_separator]: before all items but the first. *)
Definition read_separator {A} (sep : ascii) (index : nat) (inner : reader A) : reader A := λ s,
  match index with 0 => inner s | S _ => '(_, s) ← read_given_char sep s; inner s end.

(** At most [limit] groups from the [i]-th on, and whether they end in an embedded IPv4
    address, for which there must be room for two. *)
Fixpoint read_groups (limit i : nat) (s : string) : list N * bool * string :=
  match limit with
  | 0 => ([], false, s)
  | S limit' =>
      match (if bool_decide (0 < limit') then read_separator ":" i read_ipv4_addr s else None) with
      | Some ([a; b; c; d], s') => ([a * 256 + b; c * 256 + d]%N, true, s')
      | _ =>
          match read_separator ":" i (read_number 16 (Some 4) true 65536) s with
          | Some (g, s') => let '(gs, v4, s'') := read_groups limit' (S i) s' in (g :: gs, v4, s'')
          | None => ([], false, s)
          end
      end
  end.
Definition read_ipv6_addr : reader (list N) := λ s,
  let '(head, head_ipv4, s1) := read_groups 8 0 s in
  if bool_decide (length head = 8) then Some (head, s1)
  else if head_ipv4 then None
  else
    '(_, s2) ← read_given_char ":" s1; '(_, s3) ← read_given_char ":" s2;
    let '(tail, _, s4) := read_groups (8 - (length head + 1)) 0 s3 in
    Some (head ++ replicate (8 - length head - length tail) 0%N ++ tail, s4).

Definition read_port : reader N := λ s, '(_, s) ← read_given_char ":" s; read_number 10 None true 65536 s.
Definition read_scope_id : reader N := λ s, '(_, s) ← read_given_char "%" s; read_number 10 None true 4294967296 s.

Definition read_socket_addr_v4 : reader SocketAddr := λ s,
  '(ip, s) ← read_ipv4_addr s; '(port, s) ← read_port s; Some (MkSocketAddr (V4 ip) port, s).
Definition read_socket_addr_v6 : reader SocketAddr := λ s,
  '(_, s) ← read_given_char "[" s; '(ip, s) ← read_ipv6_addr s;
  let s := match read_scope_id s with Some (_, s') => s' | None => s end in
  '(_, s) ← read_given_char "]" s; '(port, s) ← read_port s; Some (MkSocketAddr (V6 ip) port, s).

(** [str::parse::<SocketAddr>()]: the whole text. *)
Definition parse_socket_addr (s : string) : option SocketAddr :=
  match read_socket_addr_v4 s with
  | Some (a, "") => Some a
  | Some _ => None
  | None => match read_socket_addr_v6 s with Some (a, "") => Some a | _ => None end
  end.

Example parse_v4 : parse_socket_addr "127.0.0.1:5050" = Some (MkSocketAddr (V4 [127; 0; 0; 1]%N) 5050).
Proof. reflexivity. Qed.
Example parse_v6 : parse_socket_addr "[fe80::1%3]:80" = Some (MkSocketAddr (V6 [65152; 0; 0; 0; 0; 0; 0; 1]%N) 80).
Proof. reflexivity. Qed.
Example parse_mapped : parse_socket_addr "[::ffff:10.0.0.1]:80"
  = Some (MkSocketAddr (V6 [0; 0; 0; 0; 0; 65535; 2560; 1]%N) 80).
Proof. reflexivity. Qed.
Example parse_rejects : parse_socket_addr <$> ["localhost:80"; "010.0.0.1:80"; "1.2.3.4"; "1.2.3.4:65536"; "[::1]"; "1.2.3.4:80 "]
  = [None; None; None; None; None; None].
Proof. reflexivity. Qed.
