(* ===== verification/Config.v ===== *)
(** Settings (crates/layerhouse-server/src/config.rs, config/directory.rs,
    config/directory/validation.rs): the configuration file as read, its defaults, what
    the server accepts, and what it takes from its host name.

    The settings of authentication extend the record of Keys.v, and those of the
    collector are in Gc.v. Reading and parsing the file is left out. *)

From Stdlib Require Import Ascii.
From stdpp Require Import options.
From S2P Require Import Prelude Addresses Errors Digests Manifests Permissions Principals Handles.
From S2P Require Import SyncRuns Types StateMachine Samples Gc Authorization Tokens Keys Admin.

#[local] Open Scope lh_scope.

(** * Errors *)

Inductive ConfigError :=
  | HostnameNotSet
  | HostnameNoDash (hostname : string)
  | HostnameNotNumeric (hostname segment : string)
  | InvalidConfig (m : message).

Definition cresult (A : Type) : Type := ConfigError + A.
#[export] Instance cresult_bind : MBind cresult := λ A B f r, match r with inl e => inl e | inr a => f a end.
#[export] Instance cresult_fmap : FMap cresult := λ A B f r, match r with inl e => inl e | inr a => inr (f a) end.

(** [if bad { return Err(..) }]. *)
Definition refuse (bad : bool) (m : message) : cresult () := if bad then inl (InvalidConfig m) else inr ().
Definition blank (s : string) : bool := Str.is_empty (Str.trim s).

(** * Settings *)

Record ServerTlsConfig := MkServerTlsConfig { st_cert_path : string; st_key_path : string }.
Record LimitsConfig := MkLimitsConfig { li_max_concurrent_uploads : N; li_max_concurrent_requests : N }.
Record ServerConfig := MkServerConfig { sv_listen : string; sv_limits : LimitsConfig; sv_tls : option ServerTlsConfig }.
Record S3RedirectConfig := MkS3RedirectConfig { rd_enabled : bool; rd_public_endpoint : string; rd_expires_secs : N }.
Record S3Config := MkS3Config {
  s3_endpoint : string;
  s3_bucket : string;
  s3_region : string;
  s3_access_key : string;
  s3_secret_key : string;
  s3_path_style : bool;
  s3_redirect : S3RedirectConfig;
}.
Record StorageConfig := MkStorageConfig { sc_s3 : S3Config }.
Record RaftTlsConfig := MkRaftTlsConfig {
  rt_cert_path : string;
  rt_key_path : string;
  rt_server_ca_path : string;
  rt_client_ca_path : string;
}.
Record RaftKubernetesConfig := MkRaftKubernetesConfig {
  rk_enabled : bool;
  rk_namespace : string;
  rk_statefulset_name : string;
  rk_reconcile_seconds : N;
}.
Record RaftConfig := MkRaftConfig {
  rc_listen : string;
  rc_data_dir : string;
  rc_discovery_dns : string;
  rc_tls : option RaftTlsConfig;
  rc_kubernetes : RaftKubernetesConfig;
}.
Record DirectoryConfig := MkDirectoryConfig {
  dc_enabled : bool;
  dc_component_path : option string;
  dc_component_sha256 : option string;
  dc_base_origin : option string;
  dc_api_token_file : option string;
  dc_tls_ca_file : option string;
  dc_tls_insecure_skip_verify : bool;
  dc_timeout_ms : option N;
  dc_max_concurrent_calls : option N;
  dc_memory_limit_bytes : option N;
}.
(** The settings of authentication that Keys.v does not read. *)
Record AuthSettings := MkAuthSettings {
  au_auth : AuthConfig;
  au_jwks_refresh_seconds : N;
  au_tls_insecure_skip_verify : bool;
  au_directory : option DirectoryConfig;
}.
Record Config := MkConfig {
  co_server : ServerConfig;
  co_storage : StorageConfig;
  co_raft : RaftConfig;
  co_gc : GcConfig;
  co_auth : option AuthSettings;
}.

(** ** Defaults *)

Definition default_max_concurrent_uploads : N := 64.
Definition default_max_concurrent_requests : N := 512.
Definition LimitsConfig_default : LimitsConfig :=
  MkLimitsConfig default_max_concurrent_uploads default_max_concurrent_requests.
Definition default_gc_interval : N := 3600.
Definition default_gc_grace_period : N := 3600.
Definition GcConfig_default : GcConfig := MkGcConfig default_gc_interval default_gc_grace_period false.
Definition default_redirect_expires_secs : N := 900.
Definition S3RedirectConfig_default : S3RedirectConfig := MkS3RedirectConfig false "" default_redirect_expires_secs.
Definition default_kubernetes_reconcile_seconds : N := 2.
Definition RaftKubernetesConfig_default : RaftKubernetesConfig :=
  MkRaftKubernetesConfig false "" "" default_kubernetes_reconcile_seconds.
Definition default_listen : string := "0.0.0.0:5050".
Definition default_raft_listen : string := "0.0.0.0:5051".
Definition default_region : string := "us-east-1".
Definition default_data_dir : string := "/tmp/raft".
Definition default_directory_timeout_ms : N := 2000.
Definition default_directory_max_concurrent_calls : N := 8.
Definition default_directory_memory_limit_bytes : N := 64 * 1024 * 1024.

Definition default_dev : Config :=
  MkConfig (MkServerConfig default_listen LimitsConfig_default None)
    (MkStorageConfig (MkS3Config "http://localhost:9000" "layerhouse" default_region "rustfsadmin" "rustfsadmin" true
                        S3RedirectConfig_default))
    (MkRaftConfig default_raft_listen default_data_dir "localhost" None RaftKubernetesConfig_default)
    GcConfig_default None.

(** * The host name *)

(** [rsplit(c).next()]: what follows the last [c]. *)
Definition after_last (c : ascii) (s : string) : string := default s (last (Str.split c s)).

(** [hostname] is the variable HOSTNAME; the addition wraps around. *)
Definition resolve_node_id (hostname : option string) : cresult N :=
  match hostname with
  | None => inl HostnameNotSet
  | Some hostname =>
      if negb (Str.contains_char "-" hostname) then inl (HostnameNoDash hostname)
      else
        let ordinal_str := after_last "-" hostname in
        match Str.parse_u64 ordinal_str with
        | None => inl (HostnameNotNumeric hostname ordinal_str)
        | Some ordinal => inr (U64.add ordinal 1)
        end
  end.
Definition resolve_advertise_addr (advertise_host hostname : option string) (listen : string) : cresult string :=
  match (match advertise_host with Some h => Some h | None => hostname end) with
  | None => inl HostnameNotSet
  | Some host => inr (host +:+ ":" +:+ after_last ":" listen)
  end.

(** * Listeners *)

Definition listeners_conflict (l r : string) : bool :=
  match parse_socket_addr l, parse_socket_addr r with
  | Some a, Some b =>
      bool_decide (sa_port a = sa_port b)
      && (bool_decide (sa_ip a = sa_ip b) || is_unspecified (sa_ip a) || is_unspecified (sa_ip b))
  | _, _ => bool_decide (l = r)
  end.

(** * The directory *)

Definition timeout_ms (d : DirectoryConfig) : N := default default_directory_timeout_ms (dc_timeout_ms d).
Definition max_concurrent_calls (d : DirectoryConfig) : N :=
  default default_directory_max_concurrent_calls (dc_max_concurrent_calls d).
Definition memory_limit_bytes (d : DirectoryConfig) : N :=
  default default_directory_memory_limit_bytes (dc_memory_limit_bytes d).

(** [Path::join] of a relative path. *)
Definition path_join (dir path : string) : string :=
  if Str.is_empty dir || Str.ends_with "/" dir then dir +:+ path else dir +:+ "/" +:+ path.
Definition resolve_config_relative_path (field value : string) (config_dir : option string) : cresult string :=
  _ ← refuse (blank value) [Disp field; Lit " must not be empty"];
  if Str.starts_with "/" value then inr value
  else match config_dir with
       | None => inl (InvalidConfig [Disp field; Lit " is relative but the config source has no filesystem directory"])
       | Some dir => inr (path_join dir value)
       end.
Definition resolve_optional (field : string) (value : option string) (config_dir : option string)
    : cresult (option string) :=
  match value with None => inr None | Some v => Some <$> resolve_config_relative_path field v config_dir end.
Definition resolve_component_path (d : DirectoryConfig) := resolve_optional "auth.directory.component_path" (dc_component_path d).
Definition resolve_api_token_file (d : DirectoryConfig) := resolve_optional "auth.directory.api_token_file" (dc_api_token_file d).
Definition resolve_tls_ca_file (d : DirectoryConfig) := resolve_optional "auth.directory.tls_ca_file" (dc_tls_ca_file d).

Inductive DirectoryBaseOriginScheme := SchemeHttp | SchemeHttps.

(** The parts of an URI. *)
Record Uri := MkUri { uri_scheme : option string; uri_authority : option string; uri_path_and_query : option string }.

Section validation.
Context `{EX : Externals}.
(** The parser of [http::Uri], and of base64. *)
Context (parse_uri : string → message + Uri) (base64_bytes : string → message + list Byte.byte).

Definition require_directory_field (field : string) (value : option string) : cresult () :=
  refuse (match value with Some v => blank v | None => true end)
    [Disp field; Lit " is required when auth.directory.enabled is true"].

Definition sha256_form : message := [Lit "auth.directory.component_sha256 must be sha256:<64 lowercase hex>"].
Definition validate_component_sha256 (value : string) : cresult () :=
  match Str.strip_prefix "sha256:" value with
  | None => inl (InvalidConfig sha256_form)
  | Some digest =>
      refuse (negb (bool_decide (String.length digest = 64))
              || negb (Str.all (λ b, Str.is_ascii_hexdigit b && negb (Str.is_ascii_uppercase b)) digest)) sha256_form
  end.

Definition validate_base_origin (value : string) : cresult DirectoryBaseOriginScheme :=
  _ ← refuse (negb (bool_decide (value = Str.trim value)) || Str.is_empty value)
        [Lit "auth.directory.base_origin must be an http:// or https:// origin"];
  _ ← refuse (Str.contains_char "#" value) [Lit "auth.directory.base_origin must not include a fragment"];
  match split_once_str "://" value with
  | None => inl (InvalidConfig [Lit "auth.directory.base_origin must be an http:// or https:// origin"])
  | Some (_, authority_text) =>
      _ ← refuse (Str.is_empty authority_text || Str.contains_char "/" authority_text || Str.contains_char "?" authority_text)
            [Lit "auth.directory.base_origin must not include a path or query"];
      match parse_uri value with
      | inl e => inl (InvalidConfig (Lit "auth.directory.base_origin is not a valid URI: " :: e))
      | inr uri =>
          scheme ← (if bool_decide (uri_scheme uri = Some "http") then inr SchemeHttp
                    else if bool_decide (uri_scheme uri = Some "https") then inr SchemeHttps
                    else inl (InvalidConfig [Lit "auth.directory.base_origin must use http:// or https://"]));
          match uri_authority uri with
          | None => inl (InvalidConfig [Lit "auth.directory.base_origin must include a host"])
          | Some authority =>
              _ ← refuse (Str.contains_char "@" authority) [Lit "auth.directory.base_origin must not include userinfo"];
              inr scheme
          end
      end
  end.

Definition validate_directory_tls_config (d : DirectoryConfig) (scheme : DirectoryBaseOriginScheme) : cresult () :=
  match scheme with
  | SchemeHttp =>
      _ ← refuse (dc_tls_insecure_skip_verify d)
            [Lit "auth.directory.tls_insecure_skip_verify is only valid for https:// base_origin"];
      refuse (bool_decide (is_Some (dc_tls_ca_file d)))
        [Lit "auth.directory.tls_ca_file is only valid for https:// base_origin"]
  | SchemeHttps =>
      refuse (dc_tls_insecure_skip_verify d && bool_decide (is_Some (dc_tls_ca_file d)))
        [Lit "auth.directory.tls_ca_file and auth.directory.tls_insecure_skip_verify are mutually exclusive"]
  end.

Definition validate_directory_config (d : DirectoryConfig) (config_dir : option string) : cresult () :=
  _ ← refuse (bool_decide (timeout_ms d = 0%N)) [Lit "auth.directory.timeout_ms must be greater than zero"];
  _ ← refuse (bool_decide (max_concurrent_calls d = 0%N))
        [Lit "auth.directory.max_concurrent_calls must be greater than zero"];
  _ ← refuse (bool_decide (memory_limit_bytes d = 0%N)) [Lit "auth.directory.memory_limit_bytes must be greater than zero"];
  if negb (dc_enabled d) then inr ()
  else
    _ ← require_directory_field "auth.directory.component_path" (dc_component_path d);
    _ ← require_directory_field "auth.directory.component_sha256" (dc_component_sha256 d);
    _ ← require_directory_field "auth.directory.base_origin" (dc_base_origin d);
    _ ← require_directory_field "auth.directory.api_token_file" (dc_api_token_file d);
    _ ← resolve_component_path d config_dir;
    _ ← resolve_api_token_file d config_dir;
    _ ← resolve_tls_ca_file d config_dir;
    _ ← validate_component_sha256 (default "" (dc_component_sha256 d));
    scheme ← validate_base_origin (default "" (dc_base_origin d));
    validate_directory_tls_config d scheme.

(** * Authentication *)

(** The index of an entry in a message. *)
Definition indexed (before : string) (i : nat) (after : string) : message :=
  [Lit before; Num (N.of_nat i); Lit after].
Fixpoint validate_signing_keys (i : nat) (keys : list string) : cresult () :=
  match keys with
  | [] => inr ()
  | key :: keys' =>
      match base64_bytes key with
      | inl e => inl (InvalidConfig (indexed "auth.token_signing_keys[" i "] is not base64: " ++ e))
      | inr _ => validate_signing_keys (S i) keys'
      end
  end.
Fixpoint validate_policy_sets (i : nat) (seen : gset string) (policies : list ConfigPolicySet) : cresult () :=
  match policies with
  | [] => inr ()
  | p :: policies' =>
      let at_index rest := indexed "auth.policy_sets[" i ("]." +:+ rest) in
      _ ← refuse (blank (cps_id p)) (at_index "id must not be empty");
      _ ← refuse (negb (bool_decide (cps_id p = Str.trim (cps_id p)))) (at_index "id must not have surrounding whitespace");
      _ ← refuse (bool_decide (cps_id p ∈ seen)) (at_index "id " ++ [Dbg (cps_id p); Lit " is duplicated"]);
      _ ← refuse (blank (cps_name p)) (at_index "name must not be empty");
      _ ← refuse (blank (cps_cedar_text p)) (at_index "cedar_text must not be empty");
      match cedar_policy_error (cps_cedar_text p) with
      | Some e => inl (InvalidConfig (at_index "cedar_text is invalid: " ++ e))
      | None => validate_policy_sets (S i) ({[cps_id p]} ∪ seen) policies'
      end
  end.

Definition validate_auth_config (auth : AuthSettings) (config_dir : option string) : cresult () :=
  let cfg := au_auth auth in
  _ ← refuse (blank (ac_issuer_url cfg) || blank (cf_client_id (ac_token cfg)) || blank (ac_client_secret cfg)
              || blank (cf_token_endpoint_url (ac_token cfg)) || blank (ac_redirect_uri cfg))
        [Lit "auth.issuer_url, auth.client_id, auth.client_secret, auth.token_endpoint_url, and auth.redirect_uri are required when auth is set"];
  _ ← refuse (existsb blank (ac_issuer_internal_urls cfg)) [Lit "auth.issuer_internal_urls must not contain empty entries"];
  _ ← refuse (existsb blank (ac_jwks_urls cfg)) [Lit "auth.jwks_urls must not contain empty entries"];
  _ ← refuse (match ac_logout_url cfg with Some url => blank url | None => false end)
        [Lit "auth.logout_url must not be empty when set"];
  _ ← refuse (bool_decide (au_jwks_refresh_seconds auth = 0%N)) [Lit "auth.jwks_refresh_seconds must be greater than zero"];
  _ ← refuse (blank (ac_jwks_cache_s3_key cfg) || Str.starts_with "/" (ac_jwks_cache_s3_key cfg))
        [Lit "auth.jwks_cache_s3_key must be a non-empty relative S3 key"];
  _ ← refuse (bool_decide (ac_jwks_max_stale_seconds cfg = 0%N)) [Lit "auth.jwks_max_stale_seconds must be greater than zero"];
  _ ← refuse (bool_decide (ac_token_signing_keys cfg = []))
        [Lit "auth.token_signing_keys must contain at least one base64-encoded key"];
  _ ← validate_signing_keys 0 (ac_token_signing_keys cfg);
  session_key ← match base64_bytes (ac_session_encryption_key cfg) with
                | inl e => inl (InvalidConfig (Lit "auth.session_encryption_key is not base64: " :: e))
                | inr b => inr b
                end;
  _ ← refuse (negb (bool_decide (length session_key = 32)))
        [Lit "auth.session_encryption_key must decode to 32 bytes, got "; Num (N.of_nat (length session_key))];
  _ ← refuse (blank (cf_group_claim (ac_token cfg))) [Lit "auth.group_claim must not be empty"];
  _ ← match ProviderId_new (cf_provider_name (ac_token cfg)) with
      | Err e => inl (InvalidConfig (Lit "auth.provider_name is invalid: " :: error_to_string e))
      | _ => inr ()
      end;
  _ ← validate_policy_sets 0 ∅ (cf_policy_sets (ac_token cfg));
  _ ← refuse (blank (ac_login_scopes cfg)) [Lit "auth.login_scopes must not be empty"];
  match au_directory auth with Some d => validate_directory_config d config_dir | None => inr () end.

Definition validate_with_config_dir (c : Config) (config_dir : option string) : cresult () :=
  let redirect := s3_redirect (sc_s3 (co_storage c)) in
  let kube := rc_kubernetes (co_raft c) in
  _ ← refuse (rd_enabled redirect && blank (rd_public_endpoint redirect))
        [Lit "storage.s3.redirect.public_endpoint is required when redirect is enabled"];
  _ ← refuse (match sv_tls (co_server c) with Some t => blank (st_cert_path t) || blank (st_key_path t) | None => false end)
        [Lit "server.tls.cert_path and server.tls.key_path are required when server.tls is set"];
  _ ← refuse (listeners_conflict (sv_listen (co_server c)) (rc_listen (co_raft c)))
        [Lit "server.listen and raft.listen must use different bind addresses"];
  _ ← refuse (match rc_tls (co_raft c) with
              | Some t => blank (rt_cert_path t) || blank (rt_key_path t) || blank (rt_server_ca_path t)
                          || blank (rt_client_ca_path t)
              | None => false
              end)
        [Lit "raft.tls.cert_path, raft.tls.key_path, raft.tls.server_ca_path, and raft.tls.client_ca_path are required when raft.tls is set"];
  _ ← (if rk_enabled kube then
         _ ← refuse (blank (rk_namespace kube) || blank (rk_statefulset_name kube))
               [Lit "raft.kubernetes.namespace and raft.kubernetes.statefulset_name are required when raft.kubernetes.enabled is true"];
         refuse (bool_decide (rk_reconcile_seconds kube = 0%N))
           [Lit "raft.kubernetes.reconcile_seconds must be greater than zero"]
       else inr ());
  match co_auth c with Some auth => validate_auth_config auth config_dir | None => inr () end.
End validation.

(** * What accepted settings are good for *)

Section accepted.
Context `{EX : Externals}.
Context (parse_uri : string → message + Uri) (base64_bytes : string → message + list Byte.byte).

Lemma cresult_bind_Ok {A B} (r : cresult A) (f : A → cresult B) b :
  r ≫= f = inr b ↔ ∃ a, r = inr a ∧ f a = inr b.
Proof using Type. destruct r as [e|a]; simpl; naive_solver. Qed.
Lemma refuse_Ok bad m u : refuse bad m = inr u ↔ bad = false.
Proof using Type. destruct bad, u; naive_solver. Qed.

Lemma none_blank l : existsb blank l = false → Keys.nonblank l = Str.trim <$> l.
Proof using Type.
  unfold Keys.nonblank. induction l as [|s l IH]; [done|]. cbn [existsb]. intros [Hs Hl]%orb_false_iff.
  rewrite fmap_cons, filter_cons_True by done. by rewrite IH.
Qed.

Lemma signing_keys_Ok i keys u :
  validate_signing_keys base64_bytes i keys = inr u → Forall (λ k, ∃ b, base64_bytes k = inr b) keys.
Proof using Type.
  revert i. induction keys as [|k keys IH]; intros i; simpl; [constructor|].
  destruct (base64_bytes k) as [e|b] eqn:E; [done|]. intros H. constructor; [by exists b|by eapply IH].
Qed.

Lemma policy_sets_Ok i seen policies u :
  validate_policy_sets i seen policies = inr u →
  NoDup (cps_id <$> policies) ∧ (∀ p, p ∈ policies → cps_id p ∉ seen) ∧
  Forall (λ p, blank (cps_id p) = false ∧ cps_id p = Str.trim (cps_id p) ∧ cedar_policy_error (cps_cedar_text p) = None) policies.
Proof using Type.
  revert i seen. induction policies as [|p policies IH]; intros i seen; simpl.
  { intros _. split_and!; [constructor|set_solver|constructor]. }
  rewrite cresult_bind_Ok. intros (? & Hb%refuse_Ok & H).
  apply cresult_bind_Ok in H as (? & Ht%refuse_Ok & H). apply cresult_bind_Ok in H as (? & Hs%refuse_Ok & H).
  apply cresult_bind_Ok in H as (? & _ & H). apply cresult_bind_Ok in H as (? & _ & H).
  destruct (cedar_policy_error (cps_cedar_text p)) eqn:Ep; [done|].
  destruct (IH _ _ H) as (Hnd & Hout & Hall). apply negb_false_iff, bool_decide_eq_true in Ht. apply bool_decide_eq_false in Hs.
  split_and!.
  - csimpl. constructor; [|done]. intros (q & Hq & Hin)%list_elem_of_fmap. apply (Hout q Hin). set_solver.
  - intros q [->|Hin]%elem_of_cons; [done|]. specialize (Hout q Hin). set_solver.
  - by constructor.
Qed.

Lemma auth_config_Ok auth dir u :
  validate_auth_config parse_uri base64_bytes auth dir = inr u →
  let cfg := au_auth auth in
  existsb blank (ac_issuer_internal_urls cfg) = false ∧ existsb blank (ac_jwks_urls cfg) = false ∧
  ac_token_signing_keys cfg ≠ [] ∧ Forall (λ k, ∃ b, base64_bytes k = inr b) (ac_token_signing_keys cfg) ∧
  (∃ b, base64_bytes (ac_session_encryption_key cfg) = inr b ∧ length b = 32) ∧
  (∃ p, ProviderId_new (cf_provider_name (ac_token cfg)) = Ok p) ∧
  validate_policy_sets 0 ∅ (cf_policy_sets (ac_token cfg)) = inr () ∧
  match au_directory auth with Some d => validate_directory_config parse_uri d dir = inr () | None => True end.
Proof using Type.
  unfold validate_auth_config. intros H.
  apply cresult_bind_Ok in H as (? & _ & H). apply cresult_bind_Ok in H as (? & Hi%refuse_Ok & H).
  apply cresult_bind_Ok in H as (? & Hj%refuse_Ok & H). do 4 apply cresult_bind_Ok in H as (? & _ & H).
  apply cresult_bind_Ok in H as (? & Hk%refuse_Ok%bool_decide_eq_false & H).
  apply cresult_bind_Ok in H as (? & Hs%signing_keys_Ok & H). apply cresult_bind_Ok in H as (b & Hb & H).
  apply cresult_bind_Ok in H as (? & Hlen%refuse_Ok & H). apply cresult_bind_Ok in H as (? & _ & H).
  apply cresult_bind_Ok in H as (? & Hp & H). apply cresult_bind_Ok in H as ([] & Hps & H).
  apply cresult_bind_Ok in H as (? & _ & H). cbv zeta. split_and!; try done.
  - destruct (base64_bytes (ac_session_encryption_key (au_auth auth))) as [e|b'] eqn:E; [done|].
    injection Hb as ->. exists b. split; [done|]. by apply negb_false_iff, bool_decide_eq_true in Hlen.
  - unfold ProviderId_new in *. repeat case_match; naive_solver.
  - destruct (au_directory auth); [|done]. by destruct u.
Qed.
End accepted.

(** Settings that the server accepts are ones it can run with. The two listeners do
    not claim the same port of the same address; with authentication on, the secrets
    decode, so that starting the service cannot fail on them, and the session key has the
    length of the cipher; every valid subject gets a principal; the configured endpoints
    are all used; and the policies have distinct ids, no blank one, and all parse. *)
Theorem accepted_settings_usable `{EX : Externals} (parse_uri : string → message + Uri)
    (base64_bytes : string → message + list Byte.byte) (c : Config) (dir : option string)
    (Hok : validate_with_config_dir parse_uri base64_bytes c dir = inr ()) :
  (∀ a b, parse_socket_addr (sv_listen (co_server c)) = Some a → parse_socket_addr (rc_listen (co_raft c)) = Some b →
     sa_port a = sa_port b →
     sa_ip a ≠ sa_ip b ∧ is_unspecified (sa_ip a) = false ∧ is_unspecified (sa_ip b) = false) ∧
  (∀ auth, co_auth c = Some auth →
     let cfg := au_auth auth in let policies := cf_policy_sets (ac_token cfg) in
     (∃ signing session, decode_secrets base64_bytes cfg = Ok (signing, session) ∧ length session = 32) ∧
     (∀ subject, is_ok (PrincipalLocalId_new subject) = true → is_ok (user_principal (ac_token cfg) subject) = true) ∧
     jwks_urls cfg = Str.trim <$> ac_jwks_urls cfg ∧
     (ac_issuer_internal_urls cfg ≠ [] → issuer_internal_urls cfg = Str.trim <$> ac_issuer_internal_urls cfg) ∧
     NoDup (cps_id <$> policies) ∧
     Forall (λ p, blank (cps_id p) = false ∧ cps_id p = Str.trim (cps_id p) ∧ cedar_policy_error (cps_cedar_text p) = None)
       policies).
Proof.
  unfold validate_with_config_dir in Hok. do 2 apply cresult_bind_Ok in Hok as (? & _ & Hok).
  apply cresult_bind_Ok in Hok as (? & Hl%refuse_Ok & Hok). do 2 apply cresult_bind_Ok in Hok as (? & _ & Hok). split.
  - intros a b Ha Hb Hp. unfold listeners_conflict in Hl. rewrite Ha, Hb in Hl.
    rewrite bool_decide_eq_true_2 in Hl by done. simpl in Hl. apply orb_false_iff in Hl as [[Hl ?]%orb_false_iff ?].
    by apply bool_decide_eq_false in Hl.
  - intros auth Ea. rewrite Ea in Hok. apply auth_config_Ok in Hok as (Hi & Hj & Hne & Hk & (b & Hb & Hlen) & [p Hp] & Hps & _).
    apply policy_sets_Ok in Hps as (Hnd & _ & Hall). cbv zeta. split_and!; try done.
    + destruct (ac_token_signing_keys (au_auth auth)) as [|k keys] eqn:Ek; [done|]. apply Forall_cons in Hk as [[bk Hbk] _].
      exists bk, b. split; [|done]. unfold decode_secrets. rewrite Ek. simpl. rewrite Hbk. simpl. rewrite Hb. simpl.
      by rewrite bool_decide_eq_true_2.
    + intros subject Hs. unfold user_principal, provider_name, ProviderQualifiedId_new.
      apply ProviderId_new_Ok in Hp as [-> Hwf]. rewrite ProviderId_new_wf by done. simpl.
      by destruct (PrincipalLocalId_new subject).
    + unfold jwks_urls. by apply none_blank.
    + intros Hu. unfold issuer_internal_urls. rewrite none_blank by done.
      by destruct (ac_issuer_internal_urls (au_auth auth)).
Qed.

(** * Examples *)

Definition sample_uri (s : string) : message + Uri :=
  match split_once_str "://" s with
  | Some (scheme, authority) => inr (MkUri (Some scheme) (Some authority) (Some "/"))
  | None => inl [Lit "invalid uri"]
  end.
Definition sample_directory : DirectoryConfig :=
  MkDirectoryConfig true (Some "connectors/kanidm.wasm") (Some ("sha256:" +:+ repeat_string 64 "d")) (Some "https://idm.example.com:8443")
    (Some "/run/secrets/token") None false None None None.
Definition sample_settings (policies : list ConfigPolicySet) : Config :=
  MkConfig (co_server default_dev) (co_storage default_dev) (co_raft default_dev) GcConfig_default
    (Some (MkAuthSettings
       (MkAuthConfig (MkTokenConfig "oidc" "layerhouse" "https://idp.example.com" "groups" None "https://registry/v2/token" policies)
          None [" http://idp-0:9000/ "] [] "client-secret" "https://registry/oauth2/callback" None "openid profile"
          "auth/jwks/last-good.json" 86400 ["0123456789abcdef0123456789abcdef"] "0123456789ABCDEF0123456789ABCDEF" CookieAuto)
       300 false (Some sample_directory))).

Lemma accepted_settings_usable_witness :
  validate_with_config_dir sample_uri idp_base64 (sample_settings []) (Some "/etc/layerhouse") = inr () ∧
  ∃ signing session, decode_secrets idp_base64 (au_auth (default (MkAuthSettings idp_config 0 false None) (co_auth (sample_settings []))))
    = Ok (signing, session) ∧ length session = 32.
Proof.
  assert (validate_with_config_dir sample_uri idp_base64 (sample_settings []) (Some "/etc/layerhouse") = inr ()) as H
    by (vm_compute; reflexivity).
  split; [exact H|].
  exact (proj1 (proj2 (accepted_settings_usable sample_uri idp_base64 _ _ H) _ eq_refl)).
Defined.

(** The id of the builtin policy is not reserved here as it is for policies that the
    administration interface stores: a configured policy may have it, and then it
    cannot be looked up, since the builtin one answers in its place. *)
Definition shadowed_policy : ConfigPolicySet := MkConfigPolicySet BUILTIN_POLICY_ID "mine" true "permit(principal, action, resource);".
Theorem configured_policy_hidden :
  validate_with_config_dir sample_uri idp_base64 (sample_settings [shadowed_policy]) (Some "/etc/layerhouse") = inr () ∧
  effective_static_policy (Some [shadowed_policy]) BUILTIN_POLICY_ID = Some builtin_authorization ∧
  pr_id <$> list_policy_sets_handler (Some [shadowed_policy]) StateMachineData_default = [BUILTIN_POLICY_ID; BUILTIN_POLICY_ID].
Proof. split_and!; vm_compute; reflexivity. Qed.
