(* ===== verification/Reconcile.v ===== *)
(** Voters and StatefulSet replicas (crates/layerhouse-server/src/raft/kubernetes.rs):
    the reconciler that takes the pods out of the cluster that Kubernetes is about to
    stop, and why the ids it computes are those of the pods (resolve_node_id of
    config.rs).

    What the Kubernetes interface answers is an argument; the timer of the loop and the
    client that asks are left out. *)

From Stdlib Require Import Ascii.
From stdpp Require Import options.
From S2P Require Import Prelude Errors Addresses Config BlobRoutes Membership.

#[local] Open Scope lh_scope.

(** The errors that reading the desired number of replicas and the change can have. *)
Inductive KubernetesError :=
  | KubeRequest (m : message)
  | MissingReplicas
  | KubeHttp (e : string).

(** [answer] is the field spec.replicas of the StatefulSet, if the request succeeds. *)
Definition fetch_desired_replicas (answer : message + option N) : KubernetesError + N :=
  match answer with
  | inl e => inl (KubeRequest e)
  | inr None => inl MissingReplicas
  | inr (Some replicas) => inr replicas
  end.

(** [1..=replicas]. *)
Definition desired_voters_for_replicas (replicas : N) : gset N := list_to_set (N.of_nat <$> seq 1 (N.to_nat replicas)).

Definition reconcile_once (answer : message + option N) (m : RaftMetrics) (env : ChangeEnv) (change : ChangeAnswer)
    : list RaftCall * (KubernetesError + ()) :=
  match fetch_desired_replicas answer with
  | inl e => ([], inl e)
  | inr replicas =>
      let desired_voters := desired_voters_for_replicas replicas in
      if bool_decide (desired_voters = ∅) then ([], inr ())
      else if negb (bool_decide (rm_current_leader m = Some (rm_id m))) then ([], inr ())
      else
        let current_voters := rm_voter_ids m in
        if bool_decide (desired_voters = current_voters) || negb (bool_decide (desired_voters ⊆ current_voters))
        then ([], inr ())
        else
          let '(calls, r) := replace_voters env change desired_voters in
          (calls, match r with inl e => inl (KubeHttp e) | inr u => inr u end)
  end.

(** * Pods and their ids *)

Definition pod (statefulset : string) (ordinal : N) : string := statefulset +:+ "-" +:+ Str.of_u64 ordinal.

Lemma after_last_app c x y : Str.contains_char c y = false → after_last c (x +:+ String c y) = y.
Proof.
  intros Hy. unfold after_last. rewrite split_app_gen, (split_no_sep c y) by done. by rewrite last_snoc.
Qed.

Lemma elem_of_desired i replicas : i ∈ desired_voters_for_replicas replicas ↔ (1 ≤ i ≤ replicas)%N.
Proof.
  unfold desired_voters_for_replicas. rewrite elem_of_list_to_set, list_elem_of_fmap. setoid_rewrite elem_of_seq.
  split; [intros (k & -> & ?); lia|intros ?; exists (N.to_nat i); lia].
Qed.

Lemma pod_node_id statefulset i :
  (i + 1 < U64.modulus)%N → resolve_node_id (Some (pod statefulset i)) = inr (i + 1)%N.
Proof.
  intros Hi. assert (U64.fits i) as Hf by (unfold U64.fits; lia). unfold resolve_node_id, pod.
  change ("-" +:+ Str.of_u64 i) with (String "-" (Str.of_u64 i)).
  rewrite contains_char_app, contains_char_cons, orb_true_r. cbn [negb].
  rewrite (after_last_app "-" statefulset (Str.of_u64 i)) by (apply digits_no_char; [done|by apply of_u64_digits]).
  rewrite parse_of_u64 by done. by rewrite U64.add_small.
Qed.

Lemma replace_voters_calls env change new calls r :
  replace_voters env change new = (calls, r) → calls = [] ∨ calls = [ChangeMembership (ReplaceAllVoters new)].
Proof. unfold replace_voters. repeat case_match; intros [= <- <-]; auto. Qed.

Lemma reconcile_once_calls answer m env change calls r :
  reconcile_once answer m env change = (calls, r) → calls ≠ [] →
  ∃ replicas, answer = inr (Some replicas) ∧ (0 < replicas)%N ∧ rm_current_leader m = Some (rm_id m) ∧
    desired_voters_for_replicas replicas ⊂ rm_voter_ids m ∧
    calls = [ChangeMembership (ReplaceAllVoters (desired_voters_for_replicas replicas))].
Proof.
  unfold reconcile_once. destruct answer as [e|[replicas|]]; simpl; [by intros [= <- <-]| |by intros [= <- <-]].
  case_bool_decide as Hne; [by intros [= <- <-]|]. case_bool_decide as Hl; [|by intros [= <- <-]]. simpl.
  case_bool_decide as Heq; [by intros [= <- <-]|]. case_bool_decide as Hsub; [|by intros [= <- <-]]. simpl.
  destruct (replace_voters env change _) as [calls' r'] eqn:Er. intros [= <- <-] Hc. exists replicas. split_and!; try done.
  - destruct (decide (replicas = 0%N)) as [->|?]; [done|lia].
  - split; [done|]. intros Hsup. apply Heq. by apply set_eq_subseteq.
  - apply replace_voters_calls in Er as [?|?]; [done|done].
Qed.

(** C27: the reconciler takes exactly the stopped pods out of the cluster. It asks Raft for
    a change only on the leader and only if the voters it wants are some of the present
    ones, not all and not none: it never adds a voter and never removes the last. The
    voters that stay are the pods of the StatefulSet that Kubernetes keeps, those whose
    ordinals are below the number of replicas, and pods have distinct ids. *)
Theorem scale_down_keeps_running_pods statefulset answer m env change calls r
    (Hrun : reconcile_once answer m env change = (calls, r)) (Hcalls : calls ≠ []) :
  ∃ replicas voters,
    answer = inr (Some replicas) ∧ rm_current_leader m = Some (rm_id m) ∧
    calls = [ChangeMembership (ReplaceAllVoters voters)] ∧ voters ≠ ∅ ∧ voters ⊂ rm_voter_ids m ∧
    (∀ i, (i + 1 < U64.modulus)%N →
       ∃ id, resolve_node_id (Some (pod statefulset i)) = inr id ∧ (id ∈ voters ↔ (i < replicas)%N)) ∧
    (∀ i j, (i + 1 < U64.modulus)%N → (j + 1 < U64.modulus)%N →
       resolve_node_id (Some (pod statefulset i)) = resolve_node_id (Some (pod statefulset j)) → i = j).
Proof.
  destruct (reconcile_once_calls _ _ _ _ _ _ Hrun Hcalls) as (replicas & -> & Hpos & Hl & Hsub & ->).
  exists replicas, (desired_voters_for_replicas replicas). split_and!; try done.
  - intros He. assert (1%N ∈ desired_voters_for_replicas replicas) as H1 by (apply elem_of_desired; lia). set_solver.
  - intros i Hi. exists (i + 1)%N. split; [by apply pod_node_id|]. rewrite elem_of_desired. lia.
  - intros i j Hi Hj. rewrite !pod_node_id by done. intros [= ?]. lia.
Qed.

(** Five pods are voters, the first leads, and three are to stay. *)
Definition five_voters : RaftMetrics :=
  MkRaftMetrics 1 SLeader (Some 1%N) [] (desired_voters_for_replicas 5) (Some 4%N) 1 (Some 9%N) (Some 9%N) None None.
Definition five_env : ChangeEnv :=
  MkChangeEnv five_voters five_voters five_voters five_voters
    (λ _, MkRaftMetrics 1 SLeader (Some 1%N) [] (desired_voters_for_replicas 3) (Some 10%N) 1 (Some 10%N) (Some 10%N) None None).

Lemma scale_down_keeps_running_pods_witness :
  reconcile_once (inr (Some 3%N)) five_voters five_env Changed
    = ([ChangeMembership (ReplaceAllVoters (desired_voters_for_replicas 3))], inr ()) ∧
  ∃ voters id, resolve_node_id (Some "layerhouse-3") = inr id ∧ id ∉ voters ∧ voters ⊂ rm_voter_ids five_voters.
Proof.
  split; [reflexivity|].
  destruct (scale_down_keeps_running_pods "layerhouse" (inr (Some 3%N)) five_voters five_env Changed
    [ChangeMembership (ReplaceAllVoters (desired_voters_for_replicas 3))] (inr ()) eq_refl ltac:(discriminate))
    as (replicas & voters & [= <-] & _ & _ & _ & Hsub & Hpods & _).
  destruct (Hpods 3%N ltac:(reflexivity)) as (id & Hid & Hin).
  exists voters, id. split; [exact Hid|]. split; [|exact Hsub]. intros Hv. by apply Hin in Hv.
Defined.

(** The ordinal is added to without a check: the last 64-bit number becomes node 0. *)
Example node_id_wraps : resolve_node_id (Some "layerhouse-18446744073709551615") = inr 0%N.
Proof. vm_compute. reflexivity. Qed.
