(* ===== verification/Network.v ===== *)
(** The transport of the cluster (crates/layerhouse-server/src/raft/network.rs, and
    [RaftMetadataStore::write] of raft/router.rs, which forwards writes over it): the
    client side of the Raft calls, the handlers that answer them, and the settings of
    mutual TLS.

    Files, certificates, the HTTP library and the Raft library are what the code asks:
    their answers are arguments. [AnyErr] is the text of its error. *)

From Stdlib Require Import Ascii.
From stdpp Require Import options.
From S2P Require Import Prelude Errors Digests Manifests Permissions Principals Handles.
From S2P Require Import SyncRuns Types StateMachine Samples Router Config.

#[local] Notation bytes := (list Byte.byte).

(** * Clients *)

(** The files and what the TLS library makes of them. *)
Record TlsEnv := MkTlsEnv {
  te_read : string → message + bytes;
  te_certificate : bytes → message + ();
  te_identity : bytes → message + ();
  te_build : message + ();
  te_certs : bytes → message + list bytes;
  te_private_key : bytes → message + option bytes;
  te_add_root : bytes → message + ();
  te_verifier : list bytes → message + ();
  te_single_cert : list bytes → bytes → message + ();
}.

(** A client: the time it waits for an answer in seconds, the authorities it trusts and the
    identity it shows, if it uses TLS. *)
Record RpcClient := MkRpcClient { rpc_timeout : N; rpc_tls : option (bytes * bytes) }.

Definition in_context {A} (what : string) (r : message + A) : message + A :=
  match r with inl e => inl (Lit what :: e) | inr a => inr a end.

Definition build_rpc_client_with_timeout (env : TlsEnv) (tls : option RaftTlsConfig) (timeout : N)
    : message + RpcClient :=
  match tls with
  | None => match te_build env with inl e => inl e | inr _ => inr (MkRpcClient timeout None) end
  | Some tls =>
      match in_context "failed to read raft server CA: " (te_read env (rt_server_ca_path tls)) with
      | inl e => inl e
      | inr ca_pem =>
          match in_context "failed to parse raft server CA: " (te_certificate env ca_pem) with
          | inl e => inl e
          | inr _ =>
              match in_context "failed to read raft cert: " (te_read env (rt_cert_path tls)) with
              | inl e => inl e
              | inr cert =>
                  match in_context "failed to read raft key: " (te_read env (rt_key_path tls)) with
                  | inl e => inl e
                  | inr key =>
                      let identity_pem := cert ++ [Byte.x0a] ++ key in
                      match in_context "failed to parse raft client identity: " (te_identity env identity_pem) with
                      | inl e => inl e
                      | inr _ =>
                          match te_build env with
                          | inl e => inl e
                          | inr _ => inr (MkRpcClient timeout (Some (ca_pem, identity_pem)))
                          end
                      end
                  end
              end
          end
      end
  end.
Definition build_rpc_client (env : TlsEnv) (tls : option RaftTlsConfig) : message + RpcClient :=
  build_rpc_client_with_timeout env tls 60.

(** * The listener *)

(** What the listener of the Raft calls uses: its certificates and key, the authorities whose
    client certificates it demands, and the protocols it offers. *)
Record RustlsConfig := MkRustlsConfig {
  rl_certs : list bytes;
  rl_key : bytes;
  rl_client_roots : list bytes;
  rl_alpn_protocols : list string;
}.

Definition load_certs (env : TlsEnv) (path : string) : message + list bytes :=
  match te_read env path with inl e => inl e | inr b => te_certs env b end.

Definition load_key (env : TlsEnv) (path : string) : message + bytes :=
  match te_read env path with
  | inl e => inl e
  | inr b =>
      match te_private_key env b with
      | inl e => inl e
      | inr None => inl [Lit "no private key found"]
      | inr (Some key) => inr key
      end
  end.

(** The loop that adds the authorities, up to the first that is refused. *)
Fixpoint add_roots (env : TlsEnv) (roots certs : list bytes) : message + list bytes :=
  match certs with
  | [] => inr roots
  | cert :: certs =>
      match te_add_root env cert with
      | inl e => inl e
      | inr _ => add_roots env (roots ++ [cert]) certs
      end
  end.

Definition raft_rustls_config (env : TlsEnv) (tls : RaftTlsConfig) : message + RustlsConfig :=
  match load_certs env (rt_cert_path tls) with
  | inl e => inl e
  | inr certs =>
      match load_key env (rt_key_path tls) with
      | inl e => inl e
      | inr key =>
          match load_certs env (rt_client_ca_path tls) with
          | inl e => inl e
          | inr cas =>
              match add_roots env [] cas with
              | inl e => inl e
              | inr client_roots =>
                  match te_verifier env client_roots with
                  | inl e => inl e
                  | inr _ =>
                      match te_single_cert env certs key with
                      | inl e => inl e
                      | inr _ => inr (MkRustlsConfig certs key client_roots ["h2"; "http/1.1"])
                      end
                  end
              end
          end
      end
  end.

(** * Calls *)

(** What becomes of a request: the URL is refused, sending fails, or there is an answer whose
    body may fail; [status_text] is how the library words an error status. *)
Inductive PostAnswer :=
  | UrlRefused (text : message)
  | SendFailed (text : message)
  | Answered (status : N) (status_text : message) (body : message + bytes).

Definition send_rpc (a : PostAnswer) : message + bytes :=
  match a with
  | UrlRefused e | SendFailed e => inl e
  | Answered status status_text body =>
      if bool_decide (400 ≤ status)%N && bool_decide (status < 600)%N then inl status_text else body
  end.

Definition rpc_url (tls : option RaftTlsConfig) (addr path : string) : string :=
  (if bool_decide (is_Some tls) then "https" else "http") +:+ "://" +:+ addr +:+ path.

(** [serde_json] for the type of a message. *)
Class RpcCodec (A : Type) := {
  bc_encode : A → message + bytes;
  bc_decode : bytes → message + A;
}.
(** Decoding inverts encoding. *)
Class RpcCodecLaws (A : Type) `{RpcCodec A} :=
  bc_roundtrip (a : A) b : bc_encode a = inr b → bc_decode b = inr a.

(** An exchange: the URL that is asked and the body that is sent, and what it answers. *)
Definition Transport : Type := string → bytes → PostAnswer.

(** The errors a Raft call ends with. *)
Inductive RpcFailure := RpcNetwork (text : message) | RpcStorage (text : message).

Record NetworkClient := MkNetworkClient {
  nc_addr : string;
  nc_tls : option RaftTlsConfig;
  nc_client : message + RpcClient;
}.
Definition new_client (env : TlsEnv) (tls : option RaftTlsConfig) (addr : string) : NetworkClient :=
  MkNetworkClient addr tls (build_rpc_client env tls).

Section calls.
Context {Q R : Type} `{CQ : RpcCodec Q, CR : RpcCodec R}.

(** [append_entries] and [vote] differ in their path and types only. *)
Definition raft_call (path : string) (net : Transport) (c : NetworkClient) (rpc : Q) : RpcFailure + R :=
  let url := rpc_url (nc_tls c) (nc_addr c) path in
  match bc_encode rpc with
  | inl e => inl (RpcNetwork e)
  | inr body =>
      match nc_client c with
      | inl e => inl (RpcNetwork e)
      | inr _ =>
          match send_rpc (net url body) with
          | inl e => inl (RpcNetwork e)
          | inr resp => match bc_decode resp with inl e => inl (RpcNetwork e) | inr r => inr r end
          end
      end
  end.
Definition append_entries := raft_call "/raft/append".
Definition request_vote := raft_call "/raft/vote".
End calls.

(** A snapshot with its metadata in encoded form. *)
Record SnapshotPayload (V : Type) := MkSnapshotPayload { sp_vote : V; sp_meta : bytes; sp_data : bytes }.
Arguments MkSnapshotPayload {V}.
Arguments sp_vote {V}.
Arguments sp_meta {V}.
Arguments sp_data {V}.

Section full_snapshot.
Context {V M R : Type} `{CM : RpcCodec M, CP : RpcCodec (SnapshotPayload V), CR : RpcCodec R}.

Definition full_snapshot (net : Transport) (c : NetworkClient) (vote : V) (meta : M) (data : bytes)
    : RpcFailure + R :=
  let url := rpc_url (nc_tls c) (nc_addr c) "/raft/snapshot" in
  match bc_encode meta with
  | inl e => inl (RpcStorage e)
  | inr meta_bytes =>
      match bc_encode (MkSnapshotPayload vote meta_bytes data) with
      | inl e => inl (RpcStorage e)
      | inr body =>
          match nc_client c with
          | inl e => inl (RpcNetwork e)
          | inr _ =>
              match send_rpc (net url body) with
              | inl e => inl (RpcNetwork e)
              | inr resp => match bc_decode resp with inl e => inl (RpcNetwork e) | inr r => inr r end
              end
          end
      end
  end.
End full_snapshot.

(** * Handlers *)

(** The status and the body of an answer. *)
Definition HandlerReply : Type := N * (message + bytes).
Definition text_reply (status : N) (text : message) : HandlerReply := (status, inl text).

Section handlers.
Context {Q R : Type} `{CQ : RpcCodec Q, CR : RpcCodec R}.

Definition encoded_reply (r : R) : HandlerReply :=
  match bc_encode r with
  | inr bytes => (200%N, inr bytes)
  | inl e => text_reply 500 (Lit "serialize: " :: e)
  end.

(** [handle_append] and [handle_vote]: [serve] is the call of the Raft library. *)
Definition handle_rpc (serve : Q → message + R) (body : bytes) : HandlerReply :=
  match bc_decode body with
  | inl e => text_reply 400 (Lit "deserialize: " :: e)
  | inr rpc =>
      match serve rpc with
      | inr resp => encoded_reply resp
      | inl e => text_reply 500 e
      end
  end.
(** [handle_write] answers a failed write with 503. *)
Definition handle_write (client_write : Q → message + R) (body : bytes) : HandlerReply :=
  match bc_decode body with
  | inl e => text_reply 400 (Lit "deserialize: " :: e)
  | inr req =>
      match client_write req with
      | inr resp => encoded_reply resp
      | inl e => text_reply 503 e
      end
  end.
End handlers.

Section handle_snapshot.
Context {V M R : Type} `{CM : RpcCodec M, CP : RpcCodec (SnapshotPayload V), CR : RpcCodec R}.

Definition handle_snapshot (install : V → M → bytes → message + R) (body : bytes) : HandlerReply :=
  match bc_decode (A := SnapshotPayload V) body with
  | inl e => text_reply 400 (Lit "deserialize: " :: e)
  | inr payload =>
      match bc_decode (sp_meta payload) with
      | inl e => text_reply 400 (Lit "deserialize meta: " :: e)
      | inr meta =>
          match install (sp_vote payload) meta (sp_data payload) with
          | inr resp => encoded_reply resp
          | inl e => text_reply 500 e
          end
      end
  end.
End handle_snapshot.

(** * Forwarding writes *)

Section forward.
Context `{SJ : SerdeJson, OR : Openraft, EX : Externals}.
Context `{CQ : RpcCodec Request, CR : RpcCodec Response}.

Definition forward_client_write (env : TlsEnv) (net : Transport) (addr : string) (tls : option RaftTlsConfig)
    (req : Request) : message + Response :=
  if Str.is_empty addr then inl [Lit "leader address is unknown"]
  else match build_rpc_client env tls with
  | inl e => inl e
  | inr _ =>
      let url := rpc_url tls addr "/raft/write" in
      match bc_encode req with
      | inl e => inl e
      | inr body =>
          match send_rpc (net url body) with
          | inl e => inl e
          | inr resp => bc_decode resp
          end
      end
  end.

(** How [raft.client_write] ends on this node: applied, told who the leader is, or failed. *)
Inductive ClientWrite :=
  | WriteApplied (resp : Response)
  | ForwardToLeader (leader_addr : option string)
  | WriteFailed (text : message).

Definition router_write (env : TlsEnv) (net : Transport) (tls : option RaftTlsConfig) (a : ClientWrite)
    (req : Request) : result Response :=
  let checked resp := match response_error resp with Some e => Err e | None => Ok resp end in
  match a with
  | WriteApplied resp => checked resp
  | ForwardToLeader leader_addr =>
      match forward_client_write env net (default "" leader_addr) tls req with
      | inr resp => checked resp
      | inl e => Err (Consensus e)
      end
  | WriteFailed e => Err (Consensus e)
  end.
End forward.

(** * What arrives *)

(** A network that loses requests and answers as it likes but does not make up answers: a
    success carries the bytes the handler wrote. *)
Definition relays (a : PostAnswer) (reply : HandlerReply) : Prop :=
  match a with
  | UrlRefused _ | SendFailed _ => True
  | Answered status _ body =>
      status = reply.1 ∧
      ∀ b, body = inr b → match reply.2 with inr b' => b = b' | inl _ => True end
  end.

(** The replies of handlers: bytes with a success, text with an error. *)
Definition proper_reply (reply : HandlerReply) : Prop :=
  match reply with (status, inr _) => status = 200%N | (status, inl _) => (400 ≤ status < 600)%N end.

Lemma relayed_bytes a reply b : proper_reply reply → relays a reply → send_rpc a = inr b →
  reply = (200%N, inr b).
Proof.
  intros Hp Hr Hs. destruct a as [| |status text body]; [done..|]. destruct Hr as [-> Hr]. simpl in Hs.
  destruct reply as [status [m|b']]; simpl in *.
  - destruct Hp. by rewrite !bool_decide_true in Hs.
  - subst status. simpl in Hs. by rewrite (Hr b Hs).
Qed.

Section faithful.
Context {Q R : Type} `{CQ : RpcCodec Q, CR : RpcCodec R, LQ : !RpcCodecLaws Q, LR : !RpcCodecLaws R}.

Lemma encoded_reply_proper (r : R) : proper_reply (encoded_reply r).
Proof. unfold encoded_reply. by destruct (bc_encode r). Qed.

Lemma encoded_reply_bytes (r : R) b : encoded_reply r = (200%N, inr b) → bc_decode b = inr r.
Proof using LR. unfold encoded_reply. destruct (bc_encode r) eqn:E; [done|]. intros [= <-]. by apply bc_roundtrip. Qed.

Lemma handle_rpc_proper (serve : Q → message + R) body : proper_reply (handle_rpc serve body).
Proof.
  unfold handle_rpc. destruct (bc_decode body); [done|]. destruct (serve _); [done|].
  apply encoded_reply_proper.
Qed.
Lemma handle_write_proper (serve : Q → message + R) body : proper_reply (handle_write serve body).
Proof.
  unfold handle_write. destruct (bc_decode body); [done|]. destruct (serve _); [done|].
  apply encoded_reply_proper.
Qed.

(** A Raft call that succeeds returns what the library of the peer answered to that call. *)
Theorem calls_faithful path net (c : NetworkClient) (serve : Q → message + R) (rpc : Q) (r : R)
    (Hnet : ∀ body, relays (net (rpc_url (nc_tls c) (nc_addr c) path) body) (handle_rpc serve body))
    (Hcall : raft_call path net c rpc = inr r) : serve rpc = inr r.
Proof using LQ LR.
  unfold raft_call in Hcall. destruct (bc_encode rpc) as [|body] eqn:Eq; [done|].
  destruct (nc_client c); [done|]. destruct (send_rpc _) as [|b] eqn:Es; [done|].
  destruct (bc_decode b) as [|r'] eqn:Er; [done|]. injection Hcall as ->.
  apply (relayed_bytes _ _ _ (handle_rpc_proper serve body) (Hnet body)) in Es.
  unfold handle_rpc in Es. rewrite (bc_roundtrip rpc body Eq) in Es.
  destruct (serve rpc) as [|r']; [done|]. apply encoded_reply_bytes in Es. congruence.
Qed.
End faithful.

(** A snapshot that is sent successfully was installed with the vote, the metadata and the
    data it was sent with. *)
Theorem snapshot_sent_whole {V M R : Type} `{CM : RpcCodec M, CP : RpcCodec (SnapshotPayload V), CR : RpcCodec R,
      !RpcCodecLaws M, !RpcCodecLaws (SnapshotPayload V), !RpcCodecLaws R}
    net (c : NetworkClient) (install : V → M → bytes → message + R)
    (vote : V) (meta : M) data (r : R)
    (Hnet : ∀ body, relays (net (rpc_url (nc_tls c) (nc_addr c) "/raft/snapshot") body)
                      (handle_snapshot install body))
    (Hcall : full_snapshot net c vote meta data = inr r) : install vote meta data = inr r.
Proof.
  unfold full_snapshot in Hcall. destruct (bc_encode meta) as [|mb] eqn:Em; [done|].
  destruct (bc_encode (MkSnapshotPayload _ _ _)) as [|body] eqn:Eq; [done|].
  destruct (nc_client c); [done|]. destruct (send_rpc _) as [|b] eqn:Es; [done|].
  destruct (bc_decode b) as [|r'] eqn:Er; [done|]. injection Hcall as ->.
  assert (proper_reply (handle_snapshot install body)) as Hp.
  { unfold handle_snapshot. repeat case_match; try done. apply encoded_reply_proper. }
  apply (relayed_bytes _ _ _ Hp (Hnet body)) in Es. unfold handle_snapshot in Es.
  rewrite (bc_roundtrip _ body Eq) in Es. simpl in Es. rewrite (bc_roundtrip meta mb Em) in Es.
  destruct (install vote meta data) as [|r']; [done|]. apply encoded_reply_bytes in Es. congruence.
Qed.

(** * Writes that are forwarded *)

Section forwarded.
Context `{SJ : SerdeJson, OR : Openraft, EX : Externals}.
Context `{CQ : RpcCodec Request, CR : RpcCodec Response,
  LQ : !RpcCodecLaws Request, LR : !RpcCodecLaws Response}.

Lemma router_write_checked env net tls a req resp :
  (a = WriteApplied resp ∨
   ∃ addr, a = ForwardToLeader (Some addr) ∧ forward_client_write env net addr tls req = inr resp) →
  router_write env net tls a req =
  match response_error resp with Some e => Err e | None => Ok resp end.
Proof. intros [->|(addr & -> & E)]; simpl; [done|]. by rewrite E. Qed.

(** The two ends of a write that the models of the handlers know, a commit in some state and
    a failure, are all there are: whatever this node, the leader it forwards to and the
    network between them do, the write returns what committing it on the node that applied it
    returns, or an error of consensus. *)
Theorem write_commits_or_fails env net tls a req now d
    (client_write : Request → message + Response) (resp : Response)
    (Happly : (apply_request now d req).2 = Some resp)
    (Hlocal : ∀ r, a = WriteApplied r → r = resp)
    (Hleader : ∀ r, client_write req = inr r → r = resp)
    (Hnet : ∀ addr body, relays (net (rpc_url tls addr "/raft/write") body) (handle_write client_write body)) :
  ∃ c, router_write env net tls a req = write c req ∧ (c = CommitAt now d ∨ ∃ m, c = CommitFailed m).
Proof using LQ LR.
  assert (∀ r, r = resp → match response_error r with Some e => Err e | None => Ok r end
    = write (CommitAt now d) req) as Hw by (intros r ->; simpl; by rewrite Happly).
  destruct a as [r|addr|text].
  - exists (CommitAt now d). split; [by apply Hw, Hlocal|by left].
  - unfold router_write. destruct (forward_client_write _ _ _ _ _) as [m|r] eqn:E.
    { exists (CommitFailed m). split; [done|right; by eexists]. }
    exists (CommitAt now d). split; [|by left]. apply Hw. unfold forward_client_write in E.
    destruct (Str.is_empty _); [done|]. destruct (build_rpc_client env tls); [done|].
    destruct (bc_encode req) as [|body] eqn:Eq; [done|]. destruct (send_rpc _) as [|b] eqn:Es; [done|].
    apply (relayed_bytes _ _ _ (handle_write_proper client_write body) (Hnet _ body)) in Es.
    unfold handle_write in Es. rewrite (bc_roundtrip req body Eq) in Es.
    destruct (client_write req) as [|r'] eqn:Ec; [done|]. apply encoded_reply_bytes in Es.
    rewrite Es in E. injection E as <-. by apply Hleader.
  - exists (CommitFailed text). split; [done|right; by eexists].
Qed.
End forwarded.

(** * Mutual TLS *)

Lemma add_roots_all env roots certs rs : add_roots env roots certs = inr rs → rs = roots ++ certs.
Proof.
  revert roots. induction certs as [|cert certs IH]; intros roots; simpl; [intros [= <-]; by rewrite app_nil_r|].
  destruct (te_add_root env cert); [done|]. intros H. by rewrite (IH _ H), <-app_assoc.
Qed.

(** With TLS settings, calls are made over TLS by a client that shows the node's certificate
    and key and trusts the configured authority, and the listener demands certificates of
    exactly the authorities of the client file; if a file cannot be read there is neither. *)
Theorem calls_authenticated env tls addr path c l
    (Hclient : build_rpc_client env (Some tls) = inr c) (Hlisten : raft_rustls_config env tls = inr l) :
  (∃ ca cert key, te_read env (rt_server_ca_path tls) = inr ca ∧ te_read env (rt_cert_path tls) = inr cert ∧
     te_read env (rt_key_path tls) = inr key ∧ rpc_tls c = Some (ca, cert ++ [Byte.x0a] ++ key)) ∧
  (∃ file, te_read env (rt_client_ca_path tls) = inr file ∧ te_certs env file = inr (rl_client_roots l)) ∧
  Str.starts_with "https://" (rpc_url (Some tls) addr path) = true.
Proof.
  unfold build_rpc_client, build_rpc_client_with_timeout, in_context, raft_rustls_config, load_certs in *.
  split; [|split; [|by apply starts_with_true; exists (addr +:+ path)]].
  - clear Hlisten. repeat (case_match; simplify_eq/=). by do 3 eexists.
  - clear Hclient. repeat (case_match; simplify_eq/=).
    match goal with H : add_roots _ _ _ = inr _ |- _ => apply add_roots_all in H; simpl in H; subst end.
    by eexists.
Qed.
