(* ===== verification/Lifecycle.v ===== *)
(** The life of a node (crates/layerhouse-server/src/main.rs, raft/snapshot_s3.rs): it
    starts from the snapshot it left in the object store, copies its state there while
    it runs and once more when it is told to stop, and leaves the cluster before it
    exits.

    The object store, the Raft library and the peers answer as they like: their answers
    are arguments. A write to the object store takes effect at any moment after it was
    sent, also when it was reported as failed or when the node has died in between. *)

From Stdlib Require Import Ascii.
From stdpp Require Import options.
From S2P Require Import Prelude Errors Digests Manifests Permissions Principals Handles.
From S2P Require Import SyncRuns Types StateMachine RefCounts Samples Reach Content Snapshot Membership.

(** * The snapshot in the object store (raft/snapshot_s3.rs) *)

Inductive SnapshotError :=
  | SnapshotUpload (text : message)
  | SnapshotDownload (text : message)
  | SnapshotBodyCollect (text : message).

Definition snapshot_key (node_id : N) : string :=
  "raft-snapshots/" +:+ Str.of_u64 node_id +:+ "/latest.bin".

(** The answer to [get_object]: the object, whose body may fail, or an error of the
    service, which may be the modelled [NoSuchKey] and carries a code and a text. *)
Inductive GetAnswer :=
  | GotObject (body : message + list Byte.byte)
  | GetFailed (no_such_key : bool) (code : option string) (text : message).

Definition download (a : GetAnswer) : SnapshotError + option (list Byte.byte) :=
  match a with
  | GotObject (inl e) => inl (SnapshotBodyCollect e)
  | GotObject (inr bytes) => inr (Some bytes)
  | GetFailed no_such_key code text =>
      if no_such_key then inr None
      else if bool_decide (code = Some "NoSuchBucket") || bool_decide (code = Some "NotFound")
              || bool_decide (code = Some "404") then inr None
      else inl (SnapshotDownload text)
  end.

(** * Starting (main.rs) *)

Section lifecycle.
Context `{SJ : SerdeJson, OR : Openraft, EX : Externals, SC : !StateCodec, EqDecision LogId}.
(** [leader_id.term] of a log id. *)
Context (leader_term : LogId → N).

(** The errors of the part of [main] that is modelled. *)
Inductive AppError :=
  | AppSnapshot (e : SnapshotError)
  | AppSnapshotFormat (e : SnapshotFailure)
  | AppIo (text : message)
  | AppLogStore (text : message)
  | AppRaft (text : message)
  | MissingConfigPath
  | RaftListenNoPort (listen : string).

(** [std::env::args]: where the configuration comes from. *)
Definition config_source (args : list string) : AppError + option string :=
  match args !! 1 with
  | Some path =>
      if bool_decide (path = "--config") then
        match args !! 2 with Some path => inr (Some path) | None => inl MissingConfigPath end
      else inr (Some path)
  | None => inr None
  end.

Definition listen_port (listen : string) : AppError + N :=
  let last := match Str.rsplit_once ":" listen with Some (_, p) => p | None => listen end in
  match Str.parse_u64 last with
  | Some n => if bool_decide (n < 65536)%N then inr n else inl (RaftListenNoPort listen)
  | None => inl (RaftListenNoPort listen)
  end.

Inductive JoinPlan := VerifyOrRejoin | JoinCluster.

Record Boot := MkBoot {
  bo_machine : Snapshot.StateMachine;
  bo_vote : option (N * N);
  bo_plan : JoinPlan;
}.

(** What fails of creating the directory, opening the log, recording the vote and creating
    the Raft instance. *)
Record BootFaults := MkBootFaults {
  bf_dir : option message;
  bf_log : option message;
  bf_seed : option message;
  bf_raft : option message;
}.
Definition no_boot_faults : BootFaults := MkBootFaults None None None None.

(** From the download of the snapshot to the decision how to join; the vote that is recorded
    is the term of the last applied entry and the node itself. *)
Definition boot (now node_id : N) (listen : string) (answer : GetAnswer) (faults : BootFaults)
    : AppError + Boot :=
  match download answer with
  | inl e => inl (AppSnapshot e)
  | inr restored_snapshot_bytes =>
      match (match restored_snapshot_bytes with
             | Some bytes => deserialize_snapshot now bytes
             | None => inr StateMachineData_default
             end) with
      | inl e => inl (AppSnapshotFormat e)
      | inr restored_data =>
          let last_applied := sm_last_applied_log restored_data in
          let has_restored := bool_decide (is_Some last_applied) in
          match bf_dir faults, bf_log faults with
          | Some e, _ => inl (AppIo e)
          | None, Some e => inl (AppLogStore e)
          | None, None =>
              let vote := (λ id, (leader_term id, node_id)) <$> last_applied in
              match vote, bf_seed faults, bf_raft faults with
              | Some _, Some e, _ => inl (AppRaft e)
              | _, _, Some e => inl (AppRaft e)
              | _, _, None =>
                  let snapshot := (λ bytes,
                    (MkSnapshotMeta last_applied (sm_last_membership restored_data)
                       match last_applied with
                       | Some id => leader_id_display id +:+ "-" +:+ Str.of_u64 (log_index id)
                       | None => "restored-empty"
                       end, bytes)) <$> restored_snapshot_bytes in
                  match listen_port listen with
                  | inl e => inl e
                  | inr _ =>
                      inr (MkBoot (MkStateMachine restored_data snapshot) vote
                             (if has_restored then VerifyOrRejoin else JoinCluster))
                  end
              end
          end
      end
  end.

(** * Running *)

(** The node in memory: its state machine, what the upload loop remembers and the bytes
    it is uploading, and the bytes of the upload at shutdown. *)
Record Node := MkNode {
  nd_machine : Snapshot.StateMachine;
  nd_last_uploaded : option LogId;
  nd_uploading : option (list Byte.byte * option LogId);
  nd_final : option (list Byte.byte);
}.

Definition node_data (n : Node) : StateMachineData := st_data (nd_machine n).
Definition set_machine (m : Snapshot.StateMachine) (n : Node) : Node :=
  MkNode m (nd_last_uploaded n) (nd_uploading n) (nd_final n).

Definition start_node (b : Boot) : Node := MkNode (bo_machine b) None None None.

(** One turn of [snapshot_upload_loop], up to the upload: [snapshot] is what the metrics
    say of the last snapshot. *)
Definition upload_turn (snapshot : option LogId) (n : Node) : Node :=
  if bool_decide (is_Some snapshot) && negb (bool_decide (snapshot = nd_last_uploaded n)) then
    MkNode (nd_machine n) (nd_last_uploaded n)
      ((λ bytes, (bytes, snapshot)) <$> serialize_snapshot (node_data n)) (nd_final n)
  else n.
(** The answer to the upload. *)
Definition upload_answered (ok : bool) (n : Node) : Node :=
  match nd_uploading n with
  | Some (_, snapshot) =>
      MkNode (nd_machine n) (if ok then snapshot else nd_last_uploaded n) None (nd_final n)
  | None => n
  end.

(** [upload_snapshot_now], up to the upload. *)
Definition upload_snapshot_now (n : Node) : Node :=
  MkNode (nd_machine n) (nd_last_uploaded n) (nd_uploading n) (serialize_snapshot (node_data n)).

(** * Shutting down *)

(** Waits for the membership that is known to be applied: the number of pauses of 250 ms
    before going on, at most twenty. *)
Definition membership_settled (m : RaftMetrics) : bool :=
  bool_decide (rm_membership_log m = rm_last_applied m).
Definition wait_for_membership_change_to_commit (polls : nat → RaftMetrics) : nat :=
  match list_find (λ i, membership_settled (polls i) = true) (seq 0 20) with
  | Some (i, _) => i
  | None => 20
  end.

(** The answer of a leader to a request to leave. *)
Inductive LeaveAnswer := LeaveAnswered (r : LeaveResponse) | LeaveFailed (text : string) | LeaveTimedOut.

(** What one attempt finds: the metrics, the course of a change of the membership it makes
    itself, and the answer of an address it asks. *)
Record LeaveEnv := MkLeaveEnv {
  le_metrics : RaftMetrics;
  le_change_env : ChangeEnv;
  le_change : ChangeAnswer;
  le_request : string → LeaveAnswer;
}.

Inductive LeaveAction :=
  | OwnChange (calls : list RaftCall)
  | AskLeave (addr : string)
  | Pause (seconds : nat).
Inductive LeaveEnd := NotAVoter | OnlyVoter | LeftCluster | LeaveNotRequired | GaveUp.

(** One attempt: what it does, and whether it is the last one or which address to ask next. *)
Definition leave_attempt (node_id : N) (next_leader_addr : option string) (env : LeaveEnv)
    : list LeaveAction * (LeaveEnd + option string) :=
  let m := le_metrics env in
  let voter_ids := rm_voter_ids m in
  if negb (bool_decide (node_id ∈ voter_ids)) then ([], inl NotAVoter)
  else if bool_decide (size voter_ids ≤ 1) then ([], inl OnlyVoter)
  else
    let leader_addr := match next_leader_addr with Some a => Some a | None => leader_addr m end in
    if bool_decide (rm_current_leader m = Some node_id) then
      let '(calls, r) := replace_voters (le_change_env env) (le_change env) (voter_ids ∖ {[ node_id ]}) in
      ([OwnChange calls], match r with inr _ => inl LeftCluster | inl _ => inr None end)
    else match leader_addr with
    | Some addr =>
        ([AskLeave addr],
         match le_request env addr with
         | LeaveAnswered r =>
             match lp_result r with
             | LeaveOk => inl LeftCluster
             | LastVoter | NotMember => inl LeaveNotRequired
             | LeaveNotLeader => inr (lp_leader_addr r)
             end
         | LeaveFailed _ | LeaveTimedOut => inr None
         end)
    | None => ([], inr None)
    end.

(** [for attempt in 1..=5]: [left] attempts are left. *)
Fixpoint leave_attempts (left : nat) (node_id : N) (next_leader_addr : option string)
    (envs : nat → LeaveEnv) : list LeaveAction * LeaveEnd :=
  match left with
  | 0 => ([], GaveUp)
  | S left' =>
      let attempt := 6 - left in
      let '(acts, r) := leave_attempt node_id next_leader_addr (envs attempt) in
      match r with
      | inl e => (acts, e)
      | inr next =>
          let '(acts', e) := leave_attempts left' node_id next envs in
          (acts ++ Pause attempt :: acts', e)
      end
  end.
Definition leave_cluster_on_shutdown (node_id : N) (envs : nat → LeaveEnv) : list LeaveAction * LeaveEnd :=
  leave_attempts 5 node_id None envs.

(** * Lives *)

(** The object under the node's key, the writes to it that may still take effect, the
    node if it runs, and the states it has been in, in this life and in earlier ones. *)
Record World := MkWorld {
  w_object : option (list Byte.byte);
  w_inflight : list (list Byte.byte);
  w_node : option Node;
  w_past : list StateMachineData;
}.
Definition first_world : World := MkWorld None [] None [StateMachineData_default].

(** States a snapshot can carry: their entries have sizes and times, and the decoder
    inverts the encoder. *)
Definition storable (d : StateMachineData) : Prop :=
  (∀ name key e, manifest_at d name key = Some e → entry_complete e) ∧
  (∀ payload, to_vec d = Some payload → state_from_slice payload = Some d).

(** The answers of an object store that has the object or does not. *)
Definition honest (object : option (list Byte.byte)) (a : GetAnswer) : Prop :=
  match a with
  | GotObject (inr bytes) => object = Some bytes
  | GotObject (inl _) => is_Some object
  | GetFailed no_such_key code _ =>
      is_Some object → no_such_key = false ∧
        code ≠ Some "NoSuchBucket" ∧ code ≠ Some "NotFound" ∧ code ≠ Some "404"
  end.

Definition now_running (n : Node) (w : World) : World :=
  MkWorld (w_object w) (w_inflight w) (Some n) (w_past w ++ [node_data n]).
Definition sending (bytes : option (list Byte.byte)) (n : Node) (w : World) : World :=
  MkWorld (w_object w) (option_list bytes ++ w_inflight w) (Some n) (w_past w).

Inductive life_step (node_id : N) (w : World) : World → Prop :=
  (** The state machine applies an entry of the log. *)
  | life_apply n now entry d' resp :
      w_node w = Some n → apply_entry now (node_data n) entry = (d', Some resp) →
      U64.fits (manifest_total (sm_manifests d')) → storable d' →
      life_step node_id w (now_running (set_machine (MkStateMachine d' (st_snapshot (nd_machine n))) n) w)
  (** It builds a snapshot for Raft. *)
  | life_build n meta bytes :
      w_node w = Some n → build_snapshot (node_data n) = inr (meta, bytes) →
      life_step node_id w
        (now_running (set_machine (MkStateMachine (node_data n) (Some (meta, bytes))) n) w)
  (** It installs one that another replica built. *)
  | life_install n now d meta bytes m :
      w_node w = Some n → reachable d → storable d → build_snapshot d = inr (meta, bytes) →
      install_snapshot now meta bytes (nd_machine n) = (m, inr ()) →
      life_step node_id w (now_running (set_machine m n) w)
  (** The upload loop takes a turn, and gets an answer. *)
  | life_upload n snapshot :
      w_node w = Some n → nd_uploading n = None →
      life_step node_id w
        (sending (fst <$> nd_uploading (upload_turn snapshot n)) (upload_turn snapshot n) w)
  | life_answer n ok :
      w_node w = Some n → life_step node_id w (sending None (upload_answered ok n) w)
  (** The node is told to stop and uploads its state. *)
  | life_final n :
      w_node w = Some n →
      life_step node_id w (sending (nd_final (upload_snapshot_now n)) (upload_snapshot_now n) w)
  (** A write that was sent takes effect. *)
  | life_land bytes :
      bytes ∈ w_inflight w →
      life_step node_id w (MkWorld (Some bytes) (w_inflight w) (w_node w) (w_past w))
  (** The node stops or dies. *)
  | life_stop : life_step node_id w (MkWorld (w_object w) (w_inflight w) None (w_past w))
  (** It starts. *)
  | life_boot now listen answer b :
      w_node w = None → honest (w_object w) answer → boot now node_id listen answer no_boot_faults = inr b →
      life_step node_id w (MkWorld (w_object w) (w_inflight w) (Some (start_node b)) (w_past w)).

Definition lives (node_id : N) : World → Prop := rtc (life_step node_id) first_world.

(** * What is in the object store *)

Lemma reachable_fits d : reachable d → U64.fits (manifest_total (sm_manifests d)).
Proof. by destruct 1. Qed.

(** A snapshot of a storable state is read back exactly. *)
Lemma serialized_payload d bytes : serialize_snapshot d = Some bytes → storable d →
  read_payload bytes = inr d.
Proof.
  unfold serialize_snapshot, read_payload. intros (payload & Hp & <-%(inj Some))%bind_Some [_ Hd].
  rewrite bool_decide_false by (rewrite length_app, length_to_le_bytes; unfold SNAPSHOT_HEADER_LEN; lia).
  destruct (header_version payload) as [-> ->]. rewrite bool_decide_true by done.
  by rewrite (Hd payload Hp).
Qed.

Lemma serialized_back d bytes now : serialize_snapshot d = Some bytes → reachable d → storable d →
  deserialize_snapshot now bytes = inr d.
Proof.
  intros Hs Hr Hd. unfold deserialize_snapshot. rewrite (serialized_payload d) by done.
  rewrite normalize_id; [done..|by apply reachable_fits|]. apply Hd.
Qed.

Lemma built_serialized d meta bytes : build_snapshot d = inr (meta, bytes) →
  serialize_snapshot d = Some bytes ∧ meta_last_log_id meta = sm_last_applied_log d ∧
  meta_last_membership meta = sm_last_membership d.
Proof.
  unfold build_snapshot, serialize_snapshot. destruct (to_vec d); [|done].
  by intros [= <- <-].
Qed.

Lemma installed_state now d meta bytes m m' :
  reachable d → storable d → build_snapshot d = inr (meta, bytes) →
  install_snapshot now meta bytes m = (m', inr ()) → m' = MkStateMachine d (Some (meta, bytes)).
Proof.
  intros Hr Hd (Hs & Hl & Hm)%built_serialized. unfold install_snapshot.
  rewrite (serialized_payload d) by done. intros [= <-].
  rewrite normalize_id; [|done|by apply reachable_fits|apply Hd]. rewrite Hl, Hm. by destruct d.
Qed.

Definition saved (w : World) (bytes : list Byte.byte) : Prop :=
  ∃ d, d ∈ w_past w ∧ serialize_snapshot d = Some bytes.

Record life_inv (w : World) : Prop := {
  li_first : StateMachineData_default ∈ w_past w;
  li_past : ∀ d, d ∈ w_past w → reachable d ∧ storable d;
  li_object : ∀ bytes, w_object w = Some bytes → saved w bytes;
  li_inflight : ∀ bytes, bytes ∈ w_inflight w → saved w bytes;
  li_node : ∀ n, w_node w = Some n → node_data n ∈ w_past w;
}.

Lemma saved_mono w w' bytes : w_past w ⊆ w_past w' → saved w bytes → saved w' bytes.
Proof. intros Hsub (d & Hd & ?). exists d. split; [by apply Hsub|done]. Qed.

(** A step that runs on in a state keeps the invariant. *)
Lemma running_inv w n : life_inv w → reachable (node_data n) → storable (node_data n) →
  life_inv (now_running n w).
Proof.
  intros [Hf Hp Ho Hi Hn] Hr Hs.
  assert (w_past w ⊆ w_past (now_running n w)) as Hsub by (simpl; set_solver).
  split; simpl.
  - by apply Hsub.
  - intros d [Hd| ->%list_elem_of_singleton]%elem_of_app; [by apply Hp|done].
  - intros bytes Hb. eapply saved_mono, Ho; done.
  - intros bytes Hb. eapply saved_mono, Hi; done.
  - intros n' [= <-]. set_solver.
Qed.

(** So does one that sends a copy of the state. *)
Lemma sending_inv w n bytes : life_inv w → node_data n ∈ w_past w →
  (bytes = None ∨ bytes = serialize_snapshot (node_data n)) → life_inv (sending bytes n w).
Proof.
  intros [Hf Hp Ho Hi Hn] Hd Hb. split; simpl; try done.
  - intros b [Hin|Hin]%elem_of_app; [|by apply Hi].
    exists (node_data n). split; [done|]. destruct bytes; [|by apply elem_of_nil in Hin].
    simpl in Hin. apply list_elem_of_singleton in Hin as ->. by destruct Hb.
  - by intros n' [= <-].
Qed.

(** The machine resumes a state of the past: the one the object was made of, or the empty
    one if there is no object; and it serves the object as its snapshot. *)
Definition resumes (w : World) (m : Snapshot.StateMachine) : Prop :=
  st_data m ∈ w_past w ∧
  match st_snapshot m with
  | Some (meta, bytes) =>
      w_object w = Some bytes ∧ serialize_snapshot (st_data m) = Some bytes ∧
      meta_last_log_id meta = sm_last_applied_log (st_data m) ∧
      meta_last_membership meta = sm_last_membership (st_data m)
  | None => w_object w = None ∧ st_data m = StateMachineData_default
  end.

Lemma download_object w answer bytes :
  honest (w_object w) answer → download answer = inr bytes → bytes = w_object w.
Proof.
  intros Hh Ed. destruct answer as [[e|b]|k code text]; simpl in *; [done|by injection Ed as <-|].
  destruct (w_object w) as [o|]; [|by repeat case_match; simplify_eq/=].
  destruct (Hh (mk_is_Some _ _ eq_refl)) as (-> & H1 & H2 & H3).
  rewrite !bool_decide_false in Ed by done. done.
Qed.

Lemma boot_resumes w now node_id listen answer fs b :
  life_inv w → honest (w_object w) answer → boot now node_id listen answer fs = inr b →
  resumes w (bo_machine b).
Proof.
  intros Hi Hh. unfold boot. destruct (download answer) as [e|bytes] eqn:Ed; [done|].
  rewrite (download_object w answer bytes) by done. destruct fs as [de le se re]; simpl.
  destruct (w_object w) as [o|] eqn:Eo.
  - destruct (li_object w Hi o Eo) as (d & Hin & Hs). destruct (li_past w Hi d Hin) as [Hr Hd].
    rewrite (serialized_back d o now) by done. destruct de, le; try done.
    destruct (sm_last_applied_log d) eqn:El; simpl; destruct se, re, (listen_port listen); try done;
      intros [= <-]; unfold resumes; simpl; by rewrite El.
  - simpl. destruct de, le, se, re, (listen_port listen); try done; intros [= <-]; (split; [apply Hi|done]).
Qed.

(** A node that reached the object store starts: nothing that it uploaded is refused. *)
Lemma boot_starts w now node_id listen answer port bytes :
  life_inv w → honest (w_object w) answer → listen_port listen = inr port → download answer = inr bytes →
  ∃ b, boot now node_id listen answer no_boot_faults = inr b.
Proof.
  intros Hi Hh Hl Ed. unfold boot. rewrite Ed, Hl.
  rewrite (download_object w answer bytes) by done. destruct (w_object w) as [o|] eqn:Eo.
  - destruct (li_object w Hi o Eo) as (d & Hin & Hs). destruct (li_past w Hi d Hin) as [Hr Hd].
    rewrite (serialized_back d o now) by done. simpl. destruct (sm_last_applied_log d); by eexists.
  - by eexists.
Qed.

Lemma lives_inv node_id w : storable StateMachineData_default → lives node_id w → life_inv w.
Proof.
  intros Hd. revert w. apply (rtc_ind_r life_inv); [|intros w w' _ Hstep IH].
  { split; simpl; try done; [set_solver| |by intros ? ?%elem_of_nil].
    intros d ->%list_elem_of_singleton. split; [constructor|done]. }
  destruct Hstep as [n now entry d' resp Hn Ha Hfit Hs|n meta bytes Hn Hb|n now d meta bytes m Hn Hr Hs Hb Hm
    |n snapshot Hn Hu|n ok Hn|n Hn|bytes Hin| |now listen answer b Hn Hh Hb].
  - apply running_inv; [done| |done]. destruct (li_past w IH (node_data n)) as [Hr _]; [by apply IH|].
    by eapply reach_step.
  - destruct (li_past w IH (node_data n)) as [Hr Hst]; [by apply IH|]. by apply running_inv.
  - rewrite (installed_state now d meta bytes (nd_machine n) m) by done. by apply running_inv.
  - pose proof (li_node w IH n Hn) as Hin. unfold upload_turn.
    case_match; [|by (apply sending_inv; [..|rewrite Hu; left])].
    apply sending_inv; [done..|]. right. unfold node_data. simpl. by destruct (serialize_snapshot _).
  - pose proof (li_node w IH n Hn) as Hin. unfold upload_answered.
    destruct (nd_uploading n) as [[b s]|]; (apply sending_inv; [done..|by left]).
  - pose proof (li_node w IH n Hn) as Hin. apply sending_inv; [done..|by right].
  - destruct IH as [Hf Hp Ho Hi Hno]. split; simpl; try done. intros b [= <-]. by apply Hi.
  - destruct IH as [Hf Hp Ho Hi Hno]. by split.
  - pose proof (boot_resumes w now node_id listen answer no_boot_faults b IH Hh Hb) as [Hin _].
    destruct IH as [Hf Hp Ho Hi Hno]. split; simpl; try done. by intros n [= <-].
Qed.

(** C15: A node resumes where it has been: after any life of a node, with entries applied,
    snapshots built and installed, uploads that fail, are delayed or overtake each other,
    stops and crashes at any moment and any number of restarts, a start that succeeds gives
    exactly a state the node has been in, with the log position and the membership of that
    state, and the snapshot it then serves is one of that state; and a start does succeed when
    the object store answers, the local resources are there and the listen address has a
    port. *)
Theorem restart_resumes node_id w now listen answer fs (Hd : storable StateMachineData_default)
    (Hw : lives node_id w) (Hh : honest (w_object w) answer) :
  (∀ b, boot now node_id listen answer fs = inr b →
     resumes w (bo_machine b) ∧ reachable (st_data (bo_machine b))) ∧
  (∀ port bytes, fs = no_boot_faults → listen_port listen = inr port → download answer = inr bytes →
     ∃ b, boot now node_id listen answer fs = inr b).
Proof.
  pose proof (lives_inv node_id w Hd Hw) as Hi. split.
  - intros b E. pose proof (boot_resumes w now node_id listen answer fs b Hi Hh E) as Hr.
    split; [done|]. apply (li_past w Hi), Hr.
  - intros port bytes ->. by apply boot_starts with (w := w).
Qed.
End lifecycle.

(** * Leaving *)

Section leaving.
Implicit Types envs : nat → LeaveEnv.

(** The node is a voter, and not the only one. *)
Definition may_leave (node_id : N) (env : LeaveEnv) : Prop :=
  node_id ∈ rm_voter_ids (le_metrics env) ∧ 2 ≤ size (rm_voter_ids (le_metrics env)).

(** An answer of an earlier attempt named [addr] as the leader. *)
Definition named_by (envs : nat → LeaveEnv) (i : nat) (addr : string) : Prop :=
  ∃ j from, 1 ≤ j < i ∧
    le_request (envs j) from = LeaveAnswered (MkLeaveResponse LeaveNotLeader (Some addr)).

(** What an action of attempt [i] is: a change of the membership that takes the node itself
    out and leaves the other voters, made as the leader; a request to a leader; a pause. *)
Definition justified (node_id : N) envs (i : nat) (a : LeaveAction) : Prop :=
  match a with
  | OwnChange calls =>
      let others := rm_voter_ids (le_metrics (envs i)) ∖ {[ node_id ]} in
      may_leave node_id (envs i) ∧ rm_current_leader (le_metrics (envs i)) = Some node_id ∧
      others ≠ ∅ ∧ (calls = [] ∨ calls = [ChangeMembership (ReplaceAllVoters others)])
  | AskLeave addr =>
      may_leave node_id (envs i) ∧ rm_current_leader (le_metrics (envs i)) ≠ Some node_id ∧
      (leader_addr (le_metrics (envs i)) = Some addr ∨ named_by envs i addr)
  | Pause seconds => seconds = i
  end.

(** The change the node made, or the leader it asked, confirmed that it left. *)
Definition confirmed (node_id : N) (env : LeaveEnv) : Prop :=
  (replace_voters (le_change_env env) (le_change env)
     (rm_voter_ids (le_metrics env) ∖ {[ node_id ]})).2 = inr () ∨
  (∃ addr la, le_request env addr = LeaveAnswered (MkLeaveResponse LeaveOk la)).

Lemma other_voters (vs : gset N) x : 2 ≤ size vs → vs ∖ {[ x ]} ≠ ∅.
Proof.
  intros Hs He. assert (vs ⊆ {[ x ]}) as Hsub.
  { intros y Hy. apply elem_of_singleton. destruct (decide (y = x)) as [|Hn]; [done|].
    assert (y ∈ vs ∖ {[ x ]}) as H by (apply elem_of_difference; by rewrite elem_of_singleton).
    by rewrite He in H. }
  apply subseteq_size in Hsub. rewrite size_singleton in Hsub. lia.
Qed.

Lemma replace_voters_own env change vs :
  (replace_voters env change vs).1 = [] ∨
  (replace_voters env change vs).1 = [ChangeMembership (ReplaceAllVoters vs)].
Proof. unfold replace_voters. repeat case_match; simpl; by auto. Qed.

Lemma leave_attempt_sound node_id envs i next :
  1 ≤ i → (∀ addr, next = Some addr → named_by envs i addr) →
  let '(acts, r) := leave_attempt node_id next (envs i) in
  length acts ≤ 1 ∧ (∀ a, a ∈ acts → justified node_id envs i a) ∧
  (r = inl LeftCluster → confirmed node_id (envs i)) ∧
  (∀ addr, r = inr (Some addr) → named_by envs (S i) addr).
Proof.
  intros Hi Hnext. unfold leave_attempt. set (m := le_metrics (envs i)).
  case_bool_decide as Hv; simpl; [|split_and!; [lia|by intros ? ?%elem_of_nil|done..]].
  case_bool_decide as Hs; simpl; [split_and!; [lia|by intros ? ?%elem_of_nil|done..]|].
  assert (may_leave node_id (envs i)) as Hm by (split; [done|fold m; lia]).
  case_bool_decide as Hl.
  - destruct (replace_voters _ _ _) as [calls r] eqn:E. split_and!; [done| | |by case_match].
    2: { destruct r as [|[]]; [done|]. intros _. left. fold m. by rewrite E. }
    intros a ->%list_elem_of_singleton. simpl. fold m. split_and!; try done.
    + apply other_voters. apply Hm.
    + pose proof (replace_voters_own (le_change_env (envs i)) (le_change (envs i)) (rm_voter_ids m ∖ {[ node_id ]})) as Ho.
      by rewrite E in Ho.
  - destruct (match next with Some a => Some a | None => leader_addr m end) as [addr|] eqn:En;
      [|split_and!; [simpl; lia|by intros ? ?%elem_of_nil|done..]].
    split_and!; [done| | |].
    + intros a ->%list_elem_of_singleton. simpl. split_and!; [done..|].
      destruct next; simplify_eq; [right; by apply Hnext|by left].
    + intros Hr. right. exists addr.
      destruct (le_request (envs i) addr) as [[[] la]| |]; simplify_eq/=. by eexists.
    + intros addr' Hr. exists i, addr. split; [lia|].
      destruct (le_request (envs i) addr) as [[[] la]| |]; by simplify_eq/=.
Qed.

Lemma leave_attempts_sound node_id envs left next :
  left ≤ 5 → (∀ addr, next = Some addr → named_by envs (6 - left) addr) →
  let '(acts, e) := leave_attempts left node_id next envs in
  length acts ≤ 2 * left ∧
  (∀ a, a ∈ acts → ∃ i, 6 - left ≤ i ≤ 5 ∧ justified node_id envs i a) ∧
  (e = LeftCluster → ∃ i, 6 - left ≤ i ≤ 5 ∧ confirmed node_id (envs i)).
Proof.
  revert next. induction left as [|left IH]; intros next Hl Hnext; cbn [leave_attempts].
  { split_and!; [simpl; lia|by intros ? ?%elem_of_nil|done]. }
  pose proof (leave_attempt_sound node_id envs (6 - S left) next ltac:(lia) Hnext) as Ha.
  destruct (leave_attempt _ _ _) as [acts r]. destruct Ha as (Hlen & Hacts & Hleft & Hnamed).
  destruct r as [e|next'].
  - split_and!; [lia| |].
    + intros a Ha. exists (6 - S left). split; [lia|by apply Hacts].
    + intros ->. exists (6 - S left). split; [lia|by apply Hleft].
  - assert (S (6 - S left) = 6 - left) as Es by lia. rewrite Es in Hnamed.
    specialize (IH next' ltac:(lia) ltac:(intros addr ->; by apply Hnamed)).
    destruct (leave_attempts left _ _ _) as [acts' e]. destruct IH as (Hlen' & Hacts' & Hleft').
    split_and!.
    + rewrite length_app. simpl. lia.
    + intros a [Ha|[-> |Ha]%elem_of_cons]%elem_of_app.
      * exists (6 - S left). split; [lia|by apply Hacts].
      * exists (6 - S left). split; [lia|done].
      * destruct (Hacts' a Ha) as (i & ? & ?). exists i. split; [lia|done].
    + intros He. destruct (Hleft' He) as (i & ? & ?). exists i. split; [lia|done].
Qed.

(** Leaving at shutdown ends after at most five attempts and ten actions, changes the
    membership only as the leader and then to the other voters, of which there is one at
    least, asks only a leader it knows or was told of, and reports that the node left only
    if the change or the leader confirmed it. *)
Theorem shutdown_leave_sound node_id envs :
  let '(acts, e) := leave_cluster_on_shutdown node_id envs in
  length acts ≤ 10 ∧
  (∀ a, a ∈ acts → ∃ i, 1 ≤ i ≤ 5 ∧ justified node_id envs i a) ∧
  (e = LeftCluster → ∃ i, 1 ≤ i ≤ 5 ∧ confirmed node_id (envs i)).
Proof. by apply (leave_attempts_sound node_id envs 5 None). Qed.
End leaving.

(** * A life *)

#[local] Instance sample_log_id_dec : EqDecision (@LogId sample_raft) := N.eq_dec.

(** The states before and after the entries of the sample history, and a codec that knows them. *)
Definition life_states : list StateMachineData :=
  (λ i, (apply clock StateMachineData_default (take i sample_history)).1) <$> seq 0 3.
Definition life_state (i : nat) : StateMachineData := default StateMachineData_default (life_states !! i).
Definition life_codec : StateCodec := {|
  to_vec d := Some [byte_of_N (default 0%N (sm_last_applied_log d))];
  state_from_slice bs :=
    match bs with [b] => life_states !! N.to_nat (Byte.to_N b) | _ => None end;
|}.

Lemma life_storable i : i < 3 → storable (SC := life_codec) (life_state i).
Proof.
  intros Hi. assert (map_Forall (λ _ r, map_Forall (λ _ e, entry_complete e) r)
    (sm_manifests (life_state i)) ∧
    state_from_slice (StateCodec := life_codec) [byte_of_N (default 0%N (sm_last_applied_log (life_state i)))]
      = Some (life_state i)) as [Hm Hc].
  { destruct i as [|[|[|]]]; [..|lia]; (split; [apply (bool_decide_unpack _); vm_compute; exact I|vm_compute; reflexivity]). }
  split; [|by intros p [= <-]]. unfold manifest_at. intros name key e (repo & Hr & He)%bind_Some.
  exact (Hm name repo Hr key e He).
Qed.

Definition life_bytes (i : nat) : list Byte.byte := to_le_bytes 4 SNAPSHOT_VERSION ++ [byte_of_N (N.of_nat i)].
Definition node_in (i : nat) (uploading : option (list Byte.byte * option N)) : Node :=
  MkNode (MkStateMachine (life_state i) None) None uploading None.

(** The node starts, applies an entry, uploads its state, applies another entry and dies; the
    upload took effect. *)
Definition after_crash : World :=
  MkWorld (Some (life_bytes 1)) [life_bytes 1] None [life_state 0; life_state 1; life_state 2].

Lemma life_to {w w'} w'' :
  life_step (SC := life_codec) (λ id, id) 7 w w' → w' = w'' →
  life_step (SC := life_codec) (λ id, id) 7 w w''.
Proof. by intros ? <-. Qed.

Definition world_at (i : nat) : World :=
  match i with
  | 0 => MkWorld None [] (Some (node_in 0 None)) [life_state 0]
  | 1 => MkWorld None [] (Some (node_in 1 None)) [life_state 0; life_state 1]
  | 2 => MkWorld None [life_bytes 1] (Some (node_in 1 (Some (life_bytes 1, Some 1%N))))
           [life_state 0; life_state 1]
  | 3 => MkWorld None [life_bytes 1] (Some (node_in 2 (Some (life_bytes 1, Some 1%N))))
           [life_state 0; life_state 1; life_state 2]
  | _ => MkWorld (Some (life_bytes 1)) [life_bytes 1] (Some (node_in 2 (Some (life_bytes 1, Some 1%N))))
           [life_state 0; life_state 1; life_state 2]
  end.

Lemma life_fits i : i < 3 → U64.fits (manifest_total (sm_manifests (life_state i))).
Proof. intros Hi. destruct i as [|[|[|]]]; [..|lia]; vm_compute; reflexivity. Qed.

Lemma sample_life : lives (SC := life_codec) (λ id, id) 7 after_crash.
Proof.
  apply (rtc_l _ _ (world_at 0)); [|apply (rtc_l _ _ (world_at 1)); [|apply (rtc_l _ _ (world_at 2));
    [|apply (rtc_l _ _ (world_at 3)); [|apply (rtc_l _ _ (world_at 4)); [|apply rtc_once]]]]].
  - eapply life_to; [apply (life_boot _ 7 first_world 100%N "0.0.0.0:5001" (GetFailed true None [])
      (MkBoot (MkStateMachine StateMachineData_default None) None JoinCluster));
      [reflexivity|simpl; by intros [? ?]|reflexivity]|vm_compute; reflexivity].
  - eapply life_to; [eapply (life_apply _ 7 (world_at 0) (node_in 0 None) (clock 0)
      (sample_entry 1 (claim_acme 100)) (life_state 1) (RespNamespace NamespaceOk));
      [reflexivity|vm_compute; reflexivity|apply life_fits; lia|apply life_storable; lia]
      |vm_compute; reflexivity].
  - eapply life_to; [eapply (life_upload _ 7 (world_at 1) (node_in 1 None) (Some 1%N)); reflexivity
      |vm_compute; reflexivity].
  - eapply life_to; [eapply (life_apply _ 7 (world_at 2) (node_in 1 (Some (life_bytes 1, Some 1%N))) (clock 1)
      (sample_entry 2 (push "acme/app" "latest" manifest_digest)) (life_state 2) (RespManifest ManifestOk));
      [reflexivity|vm_compute; reflexivity|apply life_fits; lia|apply life_storable; lia]
      |vm_compute; reflexivity].
  - eapply life_to; [apply (life_land _ 7 (world_at 3) (life_bytes 1)); by left|reflexivity].
  - eapply life_to; [apply (life_stop _ 7 (world_at 4))|reflexivity].
Qed.

Definition rebooted : Boot :=
  MkBoot (MkStateMachine (life_state 1)
    (Some (MkSnapshotMeta (Some 1%N) (None, []) "1-1-1", life_bytes 1))) (Some (1%N, 7%N)) VerifyOrRejoin.

Lemma restart_resumes_witness :
  boot (SC := life_codec) (λ id, id) 5000 7 "0.0.0.0:5001" (GotObject (inr (life_bytes 1))) no_boot_faults = inr rebooted ∧
  resumes (SC := life_codec) after_crash (bo_machine rebooted).
Proof.
  assert (boot (SC := life_codec) (λ id, id) 5000 7 "0.0.0.0:5001" (GotObject (inr (life_bytes 1))) no_boot_faults
    = inr rebooted) as E by (vm_compute; reflexivity).
  assert (storable (SC := life_codec) StateMachineData_default) as Hd by (apply (life_storable 0); lia).
  pose proof (restart_resumes (SC := life_codec) (λ id, id) 7 after_crash 5000
    "0.0.0.0:5001" (GotObject (inr (life_bytes 1))) no_boot_faults Hd sample_life eq_refl) as [H _].
  split; [exact E|exact (proj1 (H rebooted E))].
Defined.
