(* ===== verification/Surface.v ===== *)
(** The small answers of a node: the version check (routes/v2.rs), the probes, the metrics
    and the Raft status of routes/mod.rs, the files of the dashboard (dashboard.rs) and the
    ids of store/metadata/typed_id.rs, all under crates/layerhouse-server/src/. *)

From Stdlib Require Import Ascii.
From stdpp Require Import options.
From S2P Require Import Prelude Errors Digests Manifests Permissions Principals Handles.
From S2P Require Import SyncRuns Types StateMachine Samples Gc Authorization Decisions Middleware.
From S2P Require Import Membership Keys Dashboard.

(** * The version check *)

Section version.
Context `{AU : Authentication}.

(** [None] is the answer 200 with the version header. *)
Definition v2_check (auth : option AuthServiceConfig) (authorization : option string) : result () :=
  match auth with
  | None => Ok ()
  | Some auth =>
      match (value ← authorization; Str.strip_prefix "Bearer " value) with
      | Some token => _ ← validate_token token; Ok ()
      | None => Err (auth_required (as_token_endpoint_url auth) "layerhouse" "")
      end
  end.

(** The version check succeeds exactly without authentication or with a bearer token that is
    valid; asked without one it names the token endpoint. *)
Theorem version_check_exact auth authorization :
  (v2_check auth authorization = Ok () ↔
     auth = None ∨ ∃ token identity, authorization = Some ("Bearer " +:+ token) ∧ validate_token token = Ok identity) ∧
  (∀ cf, auth = Some cf → authorization = None →
     v2_check auth authorization = Err (auth_required (as_token_endpoint_url cf) "layerhouse" "")).
Proof.
  split; [|by intros cf -> ->]. unfold v2_check. destruct auth as [cf|]; [|split; auto].
  split.
  - intros H. right. destruct authorization as [value|]; cbn [mbind option_bind] in H; [|done].
    destruct (Str.strip_prefix "Bearer " value) as [token|] eqn:E; [|done].
    apply strip_prefix_Some in E as ->. apply result_bind_Ok in H as (identity & Hv & _).
    by exists token, identity.
  - intros [|(token & identity & -> & Hv)]; [done|]. cbn [mbind option_bind]. rewrite (strip_prefix_app "Bearer " token).
    by rewrite Hv.
Qed.
End version.

(** * Probes *)

(** [blobs] is the error of the health check of the blob store, [raft] the metrics. *)
Definition readyz (blobs : option LayerhouseError) (raft : option RaftMetrics) : N * message :=
  match blobs with
  | Some err => (503%N, Lit "s3 unavailable: " :: error_to_string err)
  | None =>
      match raft with
      | None => (503%N, [Lit "raft unavailable"])
      | Some m =>
          if negb (bool_decide (is_Some (cs_leader_id (build_cluster_status m))))
          then (503%N, [Lit "raft has no leader"])
          else (200%N, [Lit "ready"])
      end
  end.

Definition server_raft_status (raft : option RaftMetrics) : result ClusterStatus :=
  m ← ok_or (Serialization [Lit "raft not available"]) raft; Ok (build_cluster_status m).

(** * Metrics *)

(** One gauge or counter with its two comment lines. *)
Definition metric (name help kind labels value : string) : string :=
  "# HELP " +:+ name +:+ " " +:+ help +:+ newline +:+
  "# TYPE " +:+ name +:+ " " +:+ kind +:+ newline +:+
  name +:+ labels +:+ " " +:+ value +:+ newline.

Definition of_bool (b : bool) : string := if b then "1" else "0".

(** [str::replace] of one character. *)
Fixpoint replace_char (c : ascii) (by_ : string) (s : string) : string :=
  match s with
  | EmptyString => EmptyString
  | String a s' => if Ascii.eqb a c then by_ +:+ replace_char c by_ s' else String a (replace_char c by_ s')
  end.
Definition dquote : ascii := "034".
Definition backslash : ascii := "092".
Definition escape_label (s : string) : string :=
  replace_char dquote (String backslash (String dquote ""))
    (replace_char backslash (String backslash (String backslash "")) s).

(** The voters that are the leader or have replicated what is applied here. *)
Definition metric_healthy_voters (status : ClusterStatus) : nat :=
  length (filter (λ node, cs_leader_id status = Some (ni_id node) ∨
                          matching_log status (ni_id node) = Some (cs_last_applied_log status)) (cs_voters status)).

Definition raft_metrics_text (status : ClusterStatus) : string :=
  metric "layerhouse_raft_leader" "1 if this node is the Raft leader." "gauge" ""
    (of_bool (bool_decide (cs_state status = Leader))) +:+
  metric "layerhouse_raft_quorum" "Required healthy voters for quorum." "gauge" ""
    (Str.of_u64 (N.of_nat (length (cs_voters status) `div` 2 + 1))) +:+
  metric "layerhouse_raft_healthy_voters" "Voters caught up with the leader." "gauge" ""
    (Str.of_u64 (N.of_nat (metric_healthy_voters status))).

Definition jwks_metrics_text (m : JwksMetrics) : string :=
  metric "layerhouse_auth_jwks_keys" "Cached OIDC JWKS verification keys." "gauge" ""
    (Str.of_u64 (N.of_nat (jm_key_count m))) +:+
  metric "layerhouse_auth_jwks_cache_age_seconds" "Age of the cached JWKS material." "gauge" ""
    (Str.of_u64 (jm_cache_age_seconds m)) +:+
  metric "layerhouse_auth_jwks_stale_cache" "1 when serving from S3 last-good JWKS cache." "gauge" ""
    (of_bool (jm_stale_mode m)) +:+
  metric "layerhouse_auth_jwks_refresh_failures_total" "JWKS refresh failure count." "counter" ""
    (Str.of_u64 (jm_refresh_failures m)) +:+
  match jm_endpoint m with
  | Some endpoint =>
      metric "layerhouse_auth_jwks_endpoint_info" "Active JWKS source endpoint." "gauge"
        ("{endpoint=" +:+ String dquote (escape_label endpoint) +:+ String dquote "}") "1"
  | None => ""
  end.

Definition metrics_body (raft : option RaftMetrics) (gc : GcStatus) (auth : option JwksMetrics) : string :=
  metric "layerhouse_up" "Registry process health." "gauge" "" "1" +:+
  match raft with Some m => raft_metrics_text (build_cluster_status m) | None => "" end +:+
  metric "layerhouse_gc_last_run_timestamp_seconds" "Last GC sweep start time." "gauge" ""
    (Str.of_u64 (gs_last_run_at gc)) +:+
  metric "layerhouse_gc_last_deleted_blobs" "Blobs deleted by the last GC sweep." "gauge" ""
    (Str.of_u64 (N.of_nat (gs_deleted gc))) +:+
  metric "layerhouse_gc_last_delete_errors" "Blob delete errors from the last GC sweep." "gauge" ""
    (Str.of_u64 (N.of_nat (gs_delete_errors gc))) +:+
  match auth with Some m => jwks_metrics_text m | None => "" end.

(** A node is ready exactly if its blob store answers and it knows a leader. *)
Theorem ready_exact blobs raft :
  (readyz blobs raft).1 = 200%N ↔ blobs = None ∧ ∃ m, raft = Some m ∧ is_Some (rm_current_leader m).
Proof.
  unfold readyz, build_cluster_status. destruct blobs as [e|]; simpl; [naive_solver|].
  destruct raft as [m|]; simpl; [|naive_solver]. case_bool_decide; simpl; naive_solver.
Qed.

(** The metrics count the voters that the dashboard shows as healthy when both look at the
    same status. *)
Theorem healthy_voters_agree status now :
  metric_healthy_voters status = dcs_healthy_voters (dashboard_status_from_raw status now).
Proof.
  unfold metric_healthy_voters, dashboard_status_from_raw. simpl. generalize (cs_voters status). intros l.
  induction l as [|v l IH]; [done|]. rewrite fmap_cons, !filter_cons. simpl.
  destruct (decide (cs_leader_id status = Some (ni_id v) ∨ _)) as [H|H].
  - rewrite decide_True; [simpl; by rewrite IH|].
    case_bool_decide; [done|]. case_bool_decide; [done|tauto].
  - rewrite decide_False; [done|]. rewrite !bool_decide_false by tauto. done.
Qed.

Lemma node_by_id (l : list NodeInfo) : NoDup (ni_id <$> l) →
  ∀ x y, x ∈ l → y ∈ l → ni_id x = ni_id y → x = y.
Proof.
  induction l as [|z l IH]; intros Hids x y Hx Hy E; [by apply elem_of_nil in Hx|].
  apply NoDup_cons in Hids as [Hz Hl].
  apply elem_of_cons in Hx as [->|Hx], Hy as [->|Hy]; [done| | |by apply IH];
    destruct Hz; apply list_elem_of_fmap; eauto.
Qed.

(** The metrics of a node that is not the leader, which has no figures on replication, count
    one healthy voter at most, however healthy the cluster is; with three voters or more that
    is less than the quorum. *)
Theorem followers_count_leader m (Hids : NoDup (ni_id <$> rm_nodes m)) (Hr : rm_replication m = None) :
  let status := build_cluster_status m in
  metric_healthy_voters status ≤ 1 ∧
  (3 ≤ length (cs_voters status) → metric_healthy_voters status < length (cs_voters status) `div` 2 + 1).
Proof.
  intros status. assert (metric_healthy_voters status ≤ 1) as H.
  { unfold metric_healthy_voters, matching_log, status, build_cluster_status. simpl. rewrite Hr. simpl.
    set (P := λ n, ni_id n ∈ rm_voter_ids m). revert Hids. generalize (rm_nodes m). intros l Hids.
    pose proof (node_by_id l Hids) as Hinj.
    destruct (filter _ (filter P l)) as [|x [|y r]] eqn:E; simpl; [lia..|].
    assert (NoDup (x :: y :: r)) as Hn.
    { rewrite <-E. apply NoDup_filter, NoDup_filter. by apply NoDup_fmap_1 in Hids. }
    assert (∀ z, z ∈ x :: y :: r → rm_current_leader m = Some (ni_id z) ∧ z ∈ l) as Hz.
    { intros z. rewrite <-E, !list_elem_of_filter. intros ([?|?] & ? & ?); [done|discriminate]. }
    destruct (Hz x) as [Hx Hxl]; [by left|]. destruct (Hz y) as [Hy Hyl]; [by right; left|].
    assert (x = y) as -> by (apply Hinj; [done..|congruence]).
    apply NoDup_cons in Hn as [Hn _]. destruct Hn. by left. }
  split; [done|]. intros Hv. pose proof (Nat.Div0.div_le_mono 3 _ 2 Hv) as Hd.
  change (3 `div` 2) with 1 in Hd. lia.
Qed.

(** Reading a label value back: up to the first quote that is not escaped. *)
Fixpoint read_label (s : string) : option (string * string) :=
  match s with
  | EmptyString => None
  | String a s' =>
      if Ascii.eqb a dquote then Some ("", s')
      else if Ascii.eqb a backslash then
        match s' with
        | EmptyString => None
        | String b s'' => '(v, r) ← read_label s''; Some (String b v, r)
        end
      else '(v, r) ← read_label s'; Some (String a v, r)
  end.

Lemma escape_special a s : a = backslash ∨ a = dquote →
  escape_label (String a s) = String backslash (String a (escape_label s)).
Proof. by intros [->| ->]. Qed.
Lemma escape_plain a s : a ≠ backslash → a ≠ dquote →
  escape_label (String a s) = String a (escape_label s).
Proof.
  intros Hb Hq. unfold escape_label. cbn [replace_char]. destruct (Ascii.eqb_spec a backslash); [done|].
  cbn [replace_char]. by destruct (Ascii.eqb_spec a dquote).
Qed.

Lemma read_special b s :
  read_label (String backslash (String b s)) = '(v, r) ← read_label s; Some (String b v, r).
Proof. done. Qed.
Lemma read_plain a s : a ≠ backslash → a ≠ dquote →
  read_label (String a s) = '(v, r) ← read_label s; Some (String a v, r).
Proof.
  intros Hb Hq. cbn [read_label]. destruct (Ascii.eqb_spec a dquote); [done|].
  by destruct (Ascii.eqb_spec a backslash).
Qed.
Lemma append_cons a x y : String a x +:+ y = String a (x +:+ y).
Proof. done. Qed.

(** The endpoint in the metrics is read back whole: no endpoint can end its label early. *)
Theorem endpoint_label_roundtrip s rest : read_label (escape_label s +:+ String dquote rest) = Some (s, rest).
Proof.
  induction s as [|a s IH]; [done|].
  destruct (decide (a = backslash ∨ a = dquote)) as [H|H].
  - by rewrite escape_special, !append_cons, read_special, IH.
  - by rewrite escape_plain, append_cons, read_plain, IH by tauto.
Qed.

(** * The files of the dashboard *)

(** [rsplit(c).next()]. *)
Definition rsplit_last (c : ascii) (s : string) : string :=
  match Str.rsplit_once c s with Some (_, r) => r | None => s end.

Definition mime_for_path (path : string) : string :=
  let ext := rsplit_last "." path in
  if bool_decide (ext = "html") then "text/html; charset=utf-8"
  else if bool_decide (ext = "css") then "text/css; charset=utf-8"
  else if bool_decide (ext = "js") then "application/javascript; charset=utf-8"
  else if bool_decide (ext = "mjs") then "application/javascript; charset=utf-8"
  else if bool_decide (ext = "json") then "application/json; charset=utf-8"
  else if bool_decide (ext = "svg") then "image/svg+xml"
  else if bool_decide (ext = "png") then "image/png"
  else if bool_decide (ext = "ico") then "image/x-icon"
  else if bool_decide (ext = "wasm") then "application/wasm"
  else if bool_decide (ext = "woff2") then "font/woff2"
  else "application/octet-stream".

Definition is_hashed_asset (path : string) : bool :=
  let filename := rsplit_last "/" path in
  Str.contains_char "-" filename && bool_decide (rsplit_last "." filename ∈ ["js"; "css"; "mjs"; "woff2"]).

(** A reply: its status, content type, cache header and body, a file or a text. *)
Record AssetReply := MkAssetReply {
  ar_status : N;
  ar_content_type : string;
  ar_cache_control : option string;
  ar_body : list Byte.byte + string;
}.
Definition missing_asset (text : string) : AssetReply := MkAssetReply 404 "text/plain" None (inr text).

Section assets.
(** The embedded files, by their path. *)
Variables DashboardAssets StaticAssets : string → option (list Byte.byte).

Definition serve_index : AssetReply :=
  match DashboardAssets "index.html" with
  | Some data => MkAssetReply 200 (mime_for_path "index.html") (Some "no-cache") (inl data)
  | None => missing_asset "dashboard not built"
  end.
Definition serve_asset (uri_path : string) : AssetReply :=
  let path := trim_start_slashes uri_path in
  match DashboardAssets path with
  | Some data =>
      MkAssetReply 200 (mime_for_path path)
        (if is_hashed_asset path then Some "public, max-age=31536000, immutable" else None) (inl data)
  | None => missing_asset "asset not found"
  end.
Definition serve_not_found : AssetReply :=
  match StaticAssets "404.html" with
  | Some data => MkAssetReply 404 "text/html; charset=utf-8" None (inl data)
  | None => missing_asset ("404 " +:+ Str.bytes [226; 128; 148]%N +:+ " page not found")
  end.

(** Only a file that was built in is served, and a browser is told to keep it for good only
    if it is a script, a style sheet or a font whose name has a dash; the page itself is
    always asked for again. *)
Theorem assets_served_safely path data :
  (ar_body (serve_asset path) = inl data → DashboardAssets (trim_start_slashes path) = Some data) ∧
  (is_Some (ar_cache_control (serve_asset path)) → is_hashed_asset (trim_start_slashes path) = true) ∧
  (ar_status serve_index = 200%N → ar_cache_control serve_index = Some "no-cache") ∧
  ar_status serve_not_found = 404%N.
Proof.
  unfold serve_asset, serve_index, serve_not_found. split_and!.
  - case_match; simpl; congruence.
  - case_match; simpl; [|by intros []]. case_match; [done|by intros []].
  - by case_match.
  - by case_match.
Qed.
End assets.

(** A name with a dash need not carry a hash. *)
Example dash_is_not_hash : is_hashed_asset "assets/load-config.js" = true.
Proof. reflexivity. Qed.

(** * Typed ids *)

Definition ID_HEX_LEN : nat := 32.

Definition validate_id (s prefix : string) : result string :=
  suffix ← ok_or (Internal [Lit "expected id prefix "; Dbg prefix; Lit ", got "; Dbg s]) (Str.strip_prefix prefix s);
  if negb (bool_decide (String.length suffix = ID_HEX_LEN)) then
    Err (Internal [Lit "id "; Dbg s; Lit " has wrong hex length: expected "; Num 32])
  else if negb (Str.all is_lower_hex suffix) then
    Err (Internal [Lit "id "; Dbg s; Lit " contains non-lowercase-hex characters"])
  else Ok s.

Record OrgId := MkOrgId { org_id : string }.
Definition OrgId_PREFIX : string := "lhsorg-".
(** [uuid] is the [simple] form of a fresh UUID. *)
Definition OrgId_generate (uuid : string) : OrgId := MkOrgId (OrgId_PREFIX +:+ uuid).
Definition OrgId_parse (s : string) : result OrgId := MkOrgId <$> validate_id s OrgId_PREFIX.
Definition OrgId_serialize (id : OrgId) : string := org_id id.
Definition OrgId_deserialize (raw : string) : option OrgId :=
  match OrgId_parse raw with Ok id => Some id | _ => None end.

Lemma OrgId_parse_exact s id :
  OrgId_parse s = Ok id ↔
  id = MkOrgId s ∧ ∃ suffix, s = OrgId_PREFIX +:+ suffix ∧ String.length suffix = 32 ∧ Str.all is_lower_hex suffix = true.
Proof.
  unfold OrgId_parse, validate_id. destruct (Str.strip_prefix OrgId_PREFIX s) as [x|] eqn:E.
  - apply strip_prefix_Some in E as ->. cbn. split.
    + case_bool_decide as Hl; [|done]. cbn. destruct (Str.all is_lower_hex x) eqn:Ha; [|done].
      intros [= <-]. split; [done|]. by exists x.
    + intros [-> (y & Hy & Hl & Ha)]. apply (f_equal (Str.strip_prefix OrgId_PREFIX)) in Hy.
      rewrite !strip_prefix_app in Hy. injection Hy as ->.
      unfold ID_HEX_LEN. rewrite bool_decide_true by done. cbn. by rewrite Ha.
  - cbn. split; [done|]. intros [_ (y & -> & _)]. by rewrite strip_prefix_app in E.
Qed.

(** An id that was generated or parsed is read back from what is stored of it, and nothing
    else is read as an id. *)
Theorem org_id_roundtrip uuid s id :
  String.length uuid = 32 → Str.all is_lower_hex uuid = true →
  OrgId_deserialize (OrgId_serialize (OrgId_generate uuid)) = Some (OrgId_generate uuid) ∧
  (OrgId_parse s = Ok id → OrgId_serialize id = s ∧ OrgId_deserialize (OrgId_serialize id) = Some id).
Proof.
  intros Hl Ha. unfold OrgId_deserialize, OrgId_serialize. split.
  - assert (OrgId_parse (OrgId_PREFIX +:+ uuid) = Ok (OrgId_generate uuid)) as E
      by (apply OrgId_parse_exact; split; [done|by exists uuid]). simpl org_id. by rewrite E.
  - intros H. pose proof H as [-> _]%OrgId_parse_exact. simpl. by rewrite H.
Qed.
