(* ===== verification/Directory.v ===== *)
(** The directory connector (crates/layerhouse-server/src/directory/): a WebAssembly
    component that looks up users in a directory. Modelled are the policy that its HTTP
    requests go through (http_host.rs), what the server checks before it accepts a
    component (startup.rs), the limits and the deadline of a call (wasm.rs), and the
    cleaning of its error messages (mod.rs).

    The WebAssembly engine, the file system and the HTTP library are parameters;
    durations are in nanoseconds. *)

From Stdlib Require Import Ascii.
From stdpp Require Import options.
From S2P Require Import Prelude Addresses Errors Digests Manifests Permissions Principals Handles.
From S2P Require Import SyncRuns Types StateMachine Samples Gc Authorization Tokens Keys Login Config.

#[local] Open Scope lh_scope.

(** * Error messages *)

Definition ERROR_MESSAGE_LIMIT_BYTES : nat := 512.

Fixpoint to_ascii_lowercase (s : string) : string :=
  match s with EmptyString => "" | String a s' => String (ascii_lower a) (to_ascii_lowercase s') end.

(** [chars().map(|c| if c.is_control() { ' ' } else { c })] on UTF-8: the control
    characters are one byte below 32, 127, and the two bytes of U+0080 to U+009F. *)
Definition is_control_byte (a : ascii) : bool := bool_decide (N_of_ascii a < 32)%N || bool_decide (N_of_ascii a = 127%N).
Fixpoint normalize_controls (s : string) : string :=
  match s with
  | EmptyString => ""
  | String a s' =>
      if is_control_byte a then String " " (normalize_controls s')
      else match s' with
           | String b s'' =>
               if bool_decide (N_of_ascii a = 194%N) && Str.in_range (ascii_of_N 128) (ascii_of_N 159) b
               then String " " (normalize_controls s'') else String a (normalize_controls s')
           | EmptyString => String a ""
           end
  end.

Definition contains_sensitive_context (m : string) : bool :=
  let lower := to_ascii_lowercase m in
  existsb (λ needle, Str.contains needle lower)
    ["authorization:"; "cookie:"; "set-cookie:"; "request body:"; "response body:"; "debug dump"].

(** The loop over the words: the word after [bearer] is replaced. *)
Fixpoint redact_words (words : list string) : list string :=
  match words with
  | [] => []
  | word :: rest =>
      word :: (if eq_ignore_ascii_case word "bearer"
               then match rest with [] => [] | _ :: rest' => "[redacted]" :: redact_words rest' end
               else redact_words rest)
  end.
Definition redact_bearer_tokens (m : string) : string := Str.join " " (redact_words (Str.split_whitespace m)).

Definition redact_url_query (word : string) : string :=
  if (Str.starts_with "https://" word || Str.starts_with "http://" word) && Str.contains_char "?" word then
    from_option fst word (Str.split_once "?" word) +:+ "?[redacted]"
  else word.
Definition redact_url_queries (m : string) : string := Str.join " " (redact_url_query <$> Str.split_whitespace m).

(** [is_char_boundary]: not in front of a continuation byte. *)
Definition is_char_boundary (s : string) (i : nat) : bool :=
  match String.get i s with
  | Some b => negb (Str.in_range (ascii_of_N 128) (ascii_of_N 191) b)
  | None => bool_decide (i ≤ String.length s)
  end.
Fixpoint boundary_below (s : string) (i : nat) : nat :=
  match i with 0 => 0 | S i' => if is_char_boundary s i then i else boundary_below s i' end.
Definition truncate_at_utf8_boundary (s : string) (limit : nat) : string :=
  if bool_decide (String.length s ≤ limit) then s else String.substring 0 (boundary_below s limit) s.

Definition sanitize_connector_error_message (raw : string) : string :=
  let normalized := normalize_controls (Str.trim raw) in
  let sanitized := if contains_sensitive_context normalized
                   then "connector error contained redacted sensitive context"
                   else redact_url_queries (redact_bearer_tokens normalized) in
  let sanitized := truncate_at_utf8_boundary sanitized ERROR_MESSAGE_LIMIT_BYTES in
  if Str.is_empty sanitized then "connector error" else sanitized.

Inductive DirectoryError :=
  | InvalidQuery (m : string)
  | UnsupportedProvider (m : string)
  | NotFound (m : string)
  | UpstreamUnavailable (m : string)
  | UpstreamUnauthorized (m : string)
  | RateLimited (m : string)
  | Timeout (m : string)
  | InvalidResponse (m : string)
  | InternalConnector (m : string).
Definition directory_error_text (e : DirectoryError) : message :=
  match e with
  | InvalidQuery m => [Lit "invalid query: "; Disp m]
  | UnsupportedProvider m => [Lit "unsupported provider: "; Disp m]
  | NotFound m => [Lit "not found: "; Disp m]
  | UpstreamUnavailable m => [Lit "upstream unavailable: "; Disp m]
  | UpstreamUnauthorized m => [Lit "upstream unauthorized: "; Disp m]
  | RateLimited m => [Lit "rate limited: "; Disp m]
  | Timeout m => [Lit "timeout: "; Disp m]
  | InvalidResponse m => [Lit "invalid response: "; Disp m]
  | InternalConnector m => [Lit "internal connector error: "; Disp m]
  end.
(** What the component reports, with its message cleaned. *)
Definition from_binding (e : DirectoryError) : DirectoryError :=
  let clean := sanitize_connector_error_message in
  match e with
  | InvalidQuery m => InvalidQuery (clean m)
  | UnsupportedProvider m => UnsupportedProvider (clean m)
  | NotFound m => NotFound (clean m)
  | UpstreamUnavailable m => UpstreamUnavailable (clean m)
  | UpstreamUnauthorized m => UpstreamUnauthorized (clean m)
  | RateLimited m => RateLimited (clean m)
  | Timeout m => Timeout (clean m)
  | InvalidResponse m => InvalidResponse (clean m)
  | InternalConnector m => InternalConnector (clean m)
  end.
Definition host_internal (e : string) : DirectoryError := InternalConnector (sanitize_connector_error_message e).
Definition host_invalid_response (e : string) : DirectoryError := InvalidResponse (sanitize_connector_error_message e).

(** * The HTTP policy *)

Definition DIRECTORY_HTTP_HEADER_LIMIT_BYTES : N := 16 * 1024.
Definition DIRECTORY_HTTP_BODY_LIMIT_BYTES : N := 1024 * 1024.
Definition DIRECTORY_HTTP_BODY_CHUNK_LIMIT_BYTES : N := 64 * 1024.

Record AllowedOrigin := MkAllowedOrigin { ao_scheme : string; ao_authority : string }.
Record DirectoryHttpPolicy := MkDirectoryHttpPolicy {
  hp_allowed_origin : option AllowedOrigin;
  hp_authorization : option string;
  hp_header_limit_bytes : N;
  hp_body_limit_bytes : N;
}.
Inductive DirectoryHttpPolicyError :=
  | EgressNotConfigured
  | InvalidBaseOrigin
  | InvalidAuthorizationHeader
  | OriginMismatch
  | TlsMismatch
  | ForbiddenHeader (name : string)
  | InvalidHostHeader
  | InvalidContentLength
  | HeadersTooLarge (actual max : N)
  | BodyTooLarge (actual max : N)
  | TimeoutBudgetExpired.

Definition policy_error_text (e : DirectoryHttpPolicyError) : message :=
  match e with
  | EgressNotConfigured => [Lit "directory connector HTTP egress is not configured"]
  | InvalidBaseOrigin => [Lit "directory connector base origin is invalid"]
  | InvalidAuthorizationHeader => [Lit "directory connector API token cannot be used as an authorization header"]
  | OriginMismatch => [Lit "directory connector HTTP request origin is not allowed"]
  | TlsMismatch => [Lit "directory connector HTTP request TLS mode does not match its origin"]
  | ForbiddenHeader name => [Lit "directory connector HTTP request contains forbidden header "; Disp name]
  | InvalidHostHeader => [Lit "directory connector HTTP request host header is invalid"]
  | InvalidContentLength => [Lit "directory connector HTTP request content-length is invalid"]
  | HeadersTooLarge actual max =>
      [Lit "directory connector HTTP request headers are too large: "; Num actual; Lit " bytes, max "; Num max; Lit " bytes"]
  | BodyTooLarge actual max =>
      [Lit "directory connector HTTP request body is too large: "; Num actual; Lit " bytes, max "; Num max; Lit " bytes"]
  | TimeoutBudgetExpired => [Lit "directory connector HTTP request exceeded the connector call timeout"]
  end.

(** Headers in order, with lower-case names; a name may occur more than once. *)
Abbreviation Headers := (list (string * string)).
Definition header_values (name : string) (h : Headers) : list string := (filter (λ p, p.1 = name) h).*2.
(** [HeaderMap::insert]: the value replaces all others of the name. *)
Definition insert_header (name value : string) (h : Headers) : Headers := filter (λ p, p.1 ≠ name) h ++ [(name, value)].
Definition str_len (s : string) : N := N.of_nat (String.length s).
Definition header_bytes (h : Headers) : N := foldr (λ p n, str_len p.1 + str_len p.2 + n)%N 0%N h.
Definition projected_authorized_header_bytes (existing : N) (authorization : string) : N :=
  (existing + str_len "authorization" + str_len authorization)%N.

Record OutgoingRequestConfig := MkOutgoingRequestConfig {
  oc_use_tls : bool;
  oc_connect_timeout : N;
  oc_first_byte_timeout : N;
  oc_between_bytes_timeout : N;
}.
Record GuestRequest := MkGuestRequest { gr_uri : Uri; gr_headers : Headers }.
Definition cap_timeout (timeout cap : N) : N := if bool_decide (cap < timeout)%N then cap else timeout.

Definition presult (A : Type) : Type := DirectoryHttpPolicyError + A.
#[export] Instance presult_bind : MBind presult := λ A B f r, match r with inl e => inl e | inr a => f a end.
Definition deny (bad : bool) (e : DirectoryHttpPolicyError) : presult () := if bad then inl e else inr ().
Definition some_or {A} (e : DirectoryHttpPolicyError) (o : option A) : presult A := match o with Some a => inr a | None => inl e end.

(** [chars().any(char::is_whitespace)]. *)
Definition has_whitespace (s : string) : bool := existsb (λ w, Str.contains w s) Str.whitespace.

Section policy.
(** The HTTP library: its parser of URIs, equality of authorities, which texts can be
    header values and which values are text; and the headers that the WebAssembly host
    forbids on its own. *)
Context (parse_uri : string → message + Uri) (same_authority : string → string → bool).
Context (value_ok text_ok : string → bool) (default_forbidden : list string).

Definition for_connector_origin (base_origin api_token : string) : presult DirectoryHttpPolicy :=
  _ ← deny (negb (bool_decide (base_origin = Str.trim base_origin)) || Str.contains_char "#" base_origin) InvalidBaseOrigin;
  '(_, authority_text) ← some_or InvalidBaseOrigin (split_once_str "://" base_origin);
  _ ← deny (Str.is_empty authority_text || Str.contains_char "/" authority_text || Str.contains_char "?" authority_text)
        InvalidBaseOrigin;
  uri ← match parse_uri base_origin with inl _ => inl InvalidBaseOrigin | inr uri => inr uri end;
  scheme ← some_or InvalidBaseOrigin (uri_scheme uri);
  authority ← some_or InvalidBaseOrigin (uri_authority uri);
  let has_explicit_path_or_query :=
    match uri_path_and_query uri with None => false | Some p => negb (bool_decide (p = "/")) end in
  _ ← deny (negb (bool_decide (scheme = "http") || bool_decide (scheme = "https")) || has_explicit_path_or_query
            || Str.contains_char "@" authority) InvalidBaseOrigin;
  let authorization := "Bearer " +:+ api_token in
  _ ← deny (negb (value_ok authorization)) InvalidAuthorizationHeader;
  _ ← deny (Str.is_empty authorization || Str.is_empty api_token
            || has_whitespace api_token) InvalidAuthorizationHeader;
  let projected := projected_authorized_header_bytes 0 authorization in
  _ ← deny (bool_decide (DIRECTORY_HTTP_HEADER_LIMIT_BYTES < projected)%N)
        (HeadersTooLarge projected DIRECTORY_HTTP_HEADER_LIMIT_BYTES);
  inr (MkDirectoryHttpPolicy (Some (MkAllowedOrigin scheme authority)) (Some authorization)
         DIRECTORY_HTTP_HEADER_LIMIT_BYTES DIRECTORY_HTTP_BODY_LIMIT_BYTES).

Definition is_forbidden_guest_header (name : string) : bool :=
  bool_decide (name ∈ default_forbidden) || bool_decide (name = "authorization") || bool_decide (name = "cookie")
  || bool_decide (name = "forwarded") || Str.starts_with "proxy-" name || Str.starts_with "x-forwarded-" name.

Definition validate_origin (p : DirectoryHttpPolicy) (uri : Uri) (config : OutgoingRequestConfig) (h : Headers) : presult () :=
  allowed ← some_or EgressNotConfigured (hp_allowed_origin p);
  _ ← deny (negb (bool_decide (uri_scheme uri = Some (ao_scheme allowed)))
            || negb (from_option (λ a, same_authority a (ao_authority allowed)) false (uri_authority uri))) OriginMismatch;
  _ ← deny (negb (bool_decide (oc_use_tls config = bool_decide (ao_scheme allowed = "https")))) TlsMismatch;
  match head (header_values "host" h) with
  | None => inr ()
  | Some host =>
      _ ← deny (negb (text_ok host)) InvalidHostHeader;
      deny (negb (eq_ignore_ascii_case host (ao_authority allowed))) OriginMismatch
  end.

Fixpoint check_names (names : list string) : presult () :=
  match names with
  | [] => inr ()
  | name :: names' =>
      if bool_decide (name = "host") then check_names names'
      else if is_forbidden_guest_header name then inl (ForbiddenHeader name) else check_names names'
  end.
Definition validate_headers (p : DirectoryHttpPolicy) (h : Headers) : presult N :=
  _ ← check_names h.*1;
  let n := header_bytes h in
  _ ← deny (bool_decide (hp_header_limit_bytes p < n)%N) (HeadersTooLarge n (hp_header_limit_bytes p));
  inr n.
Definition validate_content_length (p : DirectoryHttpPolicy) (h : Headers) : presult () :=
  match header_values "content-length" h with
  | [] => inr ()
  | [length] =>
      _ ← deny (negb (text_ok length)) InvalidContentLength;
      n ← some_or InvalidContentLength (Str.parse_u64 length);
      deny (bool_decide (hp_body_limit_bytes p < n)%N) (BodyTooLarge n (hp_body_limit_bytes p))
  | _ => inl InvalidContentLength
  end.

(** The request that is sent, the limit put on its body, and its timeouts. *)
Definition prepare_request (p : DirectoryHttpPolicy) (call_timeout elapsed : N) (req : GuestRequest)
    (config : OutgoingRequestConfig) : presult (GuestRequest * N * OutgoingRequestConfig) :=
  _ ← deny (bool_decide (call_timeout < elapsed)%N) TimeoutBudgetExpired;
  let remaining := (call_timeout - elapsed)%N in
  _ ← deny (bool_decide (remaining = 0%N)) TimeoutBudgetExpired;
  _ ← validate_origin p (gr_uri req) config (gr_headers req);
  _ ← validate_content_length p (gr_headers req);
  header_bytes ← validate_headers p (gr_headers req);
  authorization ← some_or EgressNotConfigured (hp_authorization p);
  let projected := projected_authorized_header_bytes header_bytes authorization in
  _ ← deny (bool_decide (hp_header_limit_bytes p < projected)%N) (HeadersTooLarge projected (hp_header_limit_bytes p));
  inr (MkGuestRequest (gr_uri req) (insert_header "authorization" authorization (gr_headers req)), hp_body_limit_bytes p,
       MkOutgoingRequestConfig (oc_use_tls config) (cap_timeout (oc_connect_timeout config) remaining)
         (cap_timeout (oc_first_byte_timeout config) remaining) (cap_timeout (oc_between_bytes_timeout config) remaining)).
End policy.

Inductive HttpErrorCode := ConnectionTimeout | HttpProtocolError.
Definition directory_policy_error_code (e : DirectoryHttpPolicyError) : HttpErrorCode :=
  match e with TimeoutBudgetExpired => ConnectionTimeout | _ => HttpProtocolError end.
Definition outgoing_body_chunk_size (p : DirectoryHttpPolicy) : N :=
  N.min DIRECTORY_HTTP_BODY_CHUNK_LIMIT_BYTES (hp_body_limit_bytes p).

(** * Calls *)

Record WasmDirectoryLimits := MkWasmDirectoryLimits {
  wl_connector_info_timeout : N;
  wl_memory_limit_bytes : N;
  wl_max_concurrent_calls : N;
}.
Record ConnectorInfo := MkConnectorInfo {
  cn_name : string;
  cn_version : string;
  cn_provider : string;
  cn_abi_version : string;
}.

(** [slot] says whether a slot became free in time, [elapsed] how long that took; the
    operation is given what is left of the time, and answers nothing if it needs more. *)
Definition with_deadline {A} (timeout : N) (slot : bool) (elapsed : N) (operation : N → option (DirectoryError + A))
    : DirectoryError + A :=
  if negb slot then inl (Timeout "connector concurrency slot timed out")
  else if bool_decide (timeout < elapsed)%N then inl (Timeout "connector call timed out")
  else match operation (timeout - elapsed)%N with
       | None => inl (Timeout "connector call timed out")
       | Some r => r
       end.

(** The engine: [compile] builds a component or says why not; [call] instantiates it with a
    limit on its memory and the policy of its requests, and asks it for its description
    within the time given. *)
Record WasmEngine := MkWasmEngine {
  we_compile : string → option string;
  we_call : string → WasmDirectoryLimits → DirectoryHttpPolicy → N → option (DirectoryError + ConnectorInfo);
}.
Definition from_binary_with_http_policy (engine : WasmEngine) (bytes : string) (limits : WasmDirectoryLimits)
    : DirectoryError + () :=
  if bool_decide (wl_memory_limit_bytes limits = 0%N) then inl (InvalidQuery "memory_limit_bytes must be positive")
  else if bool_decide (wl_max_concurrent_calls limits = 0%N) then inl (InvalidQuery "max_concurrent_calls must be positive")
  else match we_compile engine bytes with Some e => inl (host_invalid_response e) | None => inr () end.
Definition connector_info (engine : WasmEngine) (bytes : string) (limits : WasmDirectoryLimits) (policy : DirectoryHttpPolicy)
    (slot : bool) (elapsed : N) : DirectoryError + ConnectorInfo :=
  with_deadline (wl_connector_info_timeout limits) slot elapsed (we_call engine bytes limits policy).

(** * Startup *)

Definition EXPECTED_ABI_VERSION : string := "0.0.3".

Inductive StartupError := StartupConfig (e : ConfigError) | StartupInvalid (m : message).
Definition sresult (A : Type) : Type := StartupError + A.
#[export] Instance sresult_bind : MBind sresult := λ A B f r, match r with inl e => inl e | inr a => f a end.
Definition abort (bad : bool) (m : message) : sresult () := if bad then inl (StartupInvalid m) else inr ().
Definition of_config {A} (r : cresult A) : sresult A := match r with inl e => inl (StartupConfig e) | inr a => inr a end.

Record ResolvedDirectoryStartupConfig := MkResolved {
  rs_component_path : string;
  rs_component_sha256 : string;
  rs_base_origin : string;
  rs_api_token_file : string;
  rs_tls_ca_file : option string;
}.
Definition missing_field (field : string) : StartupError :=
  StartupInvalid [Lit field; Lit " is required when auth.directory.enabled is true"].
Definition required_resolved {A} (field : string) (o : option A) : sresult A :=
  match o with Some a => inr a | None => inl (missing_field field) end.
Definition from_directory (d : DirectoryConfig) (config_dir : option string) : sresult ResolvedDirectoryStartupConfig :=
  path ← of_config (resolve_component_path d config_dir);
  component_path ← required_resolved "auth.directory.component_path" path;
  token ← of_config (resolve_api_token_file d config_dir);
  api_token_file ← required_resolved "auth.directory.api_token_file" token;
  tls_ca_file ← of_config (resolve_tls_ca_file d config_dir);
  component_sha256 ← required_resolved "auth.directory.component_sha256" (dc_component_sha256 d);
  base_origin ← required_resolved "auth.directory.base_origin" (dc_base_origin d);
  inr (MkResolved component_path component_sha256 base_origin api_token_file tls_ca_file).

(** What the PEM reader finds in a file, up to an error. *)
Inductive PemItem := X509Certificate | PrivateKey | OtherItem | PemError (m : message).

Section startup.
Context `{EX : Externals}.
Context (parse_uri : string → message + Uri) (same_authority : string → string → bool).
Context (value_ok text_ok : string → bool).
(** The file system, the PEM reader, and the engine. *)
Context (read_file : string → message + string) (pem_items : string → list PemItem) (engine : WasmEngine).

Definition bytes_of (s : string) : list Byte.byte := String.list_byte_of_string s.
Definition read_named (field path action : string) : sresult string :=
  match read_file path with
  | inl e => inl (StartupInvalid ([Lit field; Lit (" could not " +:+ action +:+ " at "); Disp path; Lit ": "] ++ e))
  | inr b => inr b
  end.

Definition sha256_digest (bytes : string) : string := "sha256:" +:+ sha256_hex (bytes_of bytes).
Definition validate_component_digest (bytes expected : string) : sresult () :=
  abort (negb (bool_decide (sha256_digest bytes = expected)))
    [Lit "auth.directory.component_sha256 mismatch for auth.directory.component_path: expected "; Disp expected;
     Lit ", actual "; Disp (sha256_digest bytes)].

Definition newline : string := String (ascii_of_N 10) "".
Definition crlf : string := String (ascii_of_N 13) newline.
Definition strip_one_final_line_ending (value : string) : string :=
  match Str.strip_suffix crlf value with
  | Some v => v
  | None => default value (Str.strip_suffix newline value)
  end.
Definition read_api_token_file (path : string) : sresult string :=
  content ← match read_file path with
            | inl e => inl (StartupInvalid ([Lit "auth.directory.api_token_file could not read token file at "; Disp path; Lit ": "]
                              ++ e ++ [Lit ". Ensure the file contains the raw Kanidm bearer token only."]))
            | inr content => inr content
            end;
  let token := strip_one_final_line_ending content in
  _ ← abort (Str.is_empty token) [Lit "auth.directory.api_token_file must not be empty"];
  let lower := to_ascii_lowercase token in
  _ ← abort (Str.starts_with "bearer " lower || Str.starts_with "authorization:" lower)
        [Lit "auth.directory.api_token_file must contain the raw token value, not a Bearer prefix or Authorization header"];
  _ ← abort (has_whitespace token)
        [Lit "auth.directory.api_token_file token value must not contain whitespace except one final LF or CRLF"];
  inr token.

Fixpoint count_certificates (n : nat) (items : list PemItem) : sresult nat :=
  match items with
  | [] => inr n
  | X509Certificate :: items' => count_certificates (S n) items'
  | PrivateKey :: _ => inl (StartupInvalid [Lit "auth.directory.tls_ca_file must not contain private keys"])
  | OtherItem :: _ => inl (StartupInvalid [Lit "auth.directory.tls_ca_file must contain only CA certificates"])
  | PemError m :: _ => inl (StartupInvalid (Lit "auth.directory.tls_ca_file is not a valid PEM CA bundle: " :: m))
  end.
Definition validate_tls_ca_file (path : string) : sresult () :=
  bytes ← read_named "auth.directory.tls_ca_file" path "read configured PEM CA bundle";
  _ ← abort (Str.is_empty bytes) [Lit "auth.directory.tls_ca_file must not be empty"];
  n ← count_certificates 0 (pem_items bytes);
  abort (bool_decide (n = 0)) [Lit "auth.directory.tls_ca_file must contain at least one CA certificate"].

Definition validate_connector_info (info : ConnectorInfo) : sresult () :=
  _ ← abort (blank (cn_name info)) [Lit "directory connector metadata name must not be empty"];
  _ ← abort (blank (cn_version info)) [Lit "directory connector metadata version must not be empty"];
  _ ← abort (negb (bool_decide (cn_abi_version info = EXPECTED_ABI_VERSION)))
        [Lit "directory connector ABI version mismatch: expected "; Disp EXPECTED_ABI_VERSION; Lit ", connector reported ";
         Disp (cn_abi_version info)];
  match ProviderId_new (cn_provider info) with
  | Err e => inl (StartupInvalid ([Lit "directory connector provider "; Dbg (cn_provider info);
                                   Lit " is not a valid Layerhouse principal provider: "] ++ error_to_string e))
  | Panic => inr ()
  | Ok provider =>
      abort (negb (bool_decide (provider = cn_provider info)))
        [Lit "directory connector provider "; Dbg (cn_provider info); Lit " must be canonical with no surrounding whitespace"]
  end.

Definition directory_limits (d : DirectoryConfig) : WasmDirectoryLimits :=
  MkWasmDirectoryLimits (timeout_ms d * 1000000) (memory_limit_bytes d) (max_concurrent_calls d).

(** [slot] and [elapsed] are those of the one call made. *)
Definition validate_auth_directory_startup (auth : AuthSettings) (config_dir : option string) (slot : bool) (elapsed : N)
    : sresult () :=
  match au_directory auth with
  | None => inr ()
  | Some directory =>
      if negb (dc_enabled directory) then inr ()
      else
        resolved ← from_directory directory config_dir;
        api_token ← read_api_token_file (rs_api_token_file resolved);
        _ ← match rs_tls_ca_file resolved with Some path => validate_tls_ca_file path | None => inr () end;
        http_policy ← match for_connector_origin parse_uri value_ok (rs_base_origin resolved) api_token with
                      | inl e => inl (StartupInvalid (Lit "auth.directory.base_origin and auth.directory.api_token_file did not produce a valid directory HTTP policy: " :: policy_error_text e))
                      | inr p => inr p
                      end;
        component_bytes ← read_named "auth.directory.component_path" (rs_component_path resolved) "read configured WASM component";
        _ ← validate_component_digest component_bytes (rs_component_sha256 resolved);
        _ ← match from_binary_with_http_policy engine component_bytes (directory_limits directory) with
            | inl e => inl (StartupInvalid (Lit "auth.directory.component_path did not load as a valid directory connector component: " :: directory_error_text e))
            | inr u => inr u
            end;
        info ← match connector_info engine component_bytes (directory_limits directory) http_policy slot elapsed with
               | inl e => inl (StartupInvalid (Lit "auth.directory.component_path did not expose valid directory connector metadata: " :: directory_error_text e))
               | inr info => inr info
               end;
        validate_connector_info info
  end.
Definition validate_directory_startup (config : Config) (config_dir : option string) (slot : bool) (elapsed : N) : sresult () :=
  match co_auth config with None => inr () | Some auth => validate_auth_directory_startup auth config_dir slot elapsed end.
End startup.

(** * What a connector can send *)

Lemma header_bytes_app h h' : header_bytes (h ++ h') = (header_bytes h + header_bytes h')%N.
Proof. induction h as [|p h IH]; csimpl; [lia|]. rewrite IH. lia. Qed.

Lemma insert_new_header name value h :
  name ∉ h.*1 → insert_header name value h = h ++ [(name, value)].
Proof.
  intros Hn. unfold insert_header. f_equal. induction h as [|[n v] h IH]; csimpl in *; [done|].
  rewrite filter_cons_True by set_solver. f_equal. apply IH. set_solver.
Qed.

Lemma capped t cap : (cap_timeout t cap ≤ cap ∧ cap_timeout t cap ≤ t)%N.
Proof. unfold cap_timeout. case_bool_decide; lia. Qed.

Section confinement.
Context (parse_uri : string → message + Uri) (same_authority : string → string → bool).
Context (value_ok text_ok : string → bool) (default_forbidden : list string).

Lemma presult_bind_Ok {A B} (r : presult A) (f : A → presult B) b :
  r ≫= f = inr b ↔ ∃ a, r = inr a ∧ f a = inr b.
Proof using Type. destruct r as [e|a]; simpl; naive_solver. Qed.
Lemma deny_Ok bad e u : deny bad e = inr u ↔ bad = false.
Proof using Type. destruct bad, u; naive_solver. Qed.
Lemma some_or_Ok {A} e (o : option A) a : some_or e o = inr a ↔ o = Some a.
Proof using Type. destruct o; naive_solver. Qed.

Lemma policy_for_origin base token p :
  for_connector_origin parse_uri value_ok base token = inr p →
  ∃ uri scheme authority,
    parse_uri base = inr uri ∧ uri_scheme uri = Some scheme ∧ uri_authority uri = Some authority ∧
    (scheme = "http" ∨ scheme = "https") ∧ Str.contains_char "@" authority = false ∧
    token ≠ "" ∧ has_whitespace token = false ∧
    p = MkDirectoryHttpPolicy (Some (MkAllowedOrigin scheme authority)) (Some ("Bearer " +:+ token))
          DIRECTORY_HTTP_HEADER_LIMIT_BYTES DIRECTORY_HTTP_BODY_LIMIT_BYTES.
Proof using Type.
  unfold for_connector_origin. intros H.
  apply presult_bind_Ok in H as (? & _ & H). apply presult_bind_Ok in H as ([? text] & _ & H).
  apply presult_bind_Ok in H as (? & _ & H). apply presult_bind_Ok in H as (uri & Hu & H).
  apply presult_bind_Ok in H as (scheme & Hs%some_or_Ok & H). apply presult_bind_Ok in H as (authority & Ha%some_or_Ok & H).
  apply presult_bind_Ok in H as (? & Hc%deny_Ok & H). apply presult_bind_Ok in H as (? & _ & H).
  apply presult_bind_Ok in H as (? & Ht%deny_Ok & H). apply presult_bind_Ok in H as (? & _ & H). injection H as <-.
  exists uri, scheme, authority. apply orb_false_iff in Hc as [[Hsch Hpath]%orb_false_iff Hat].
  apply orb_false_iff in Ht as [[_ Hne]%orb_false_iff Hws]. apply negb_false_iff, orb_true_iff in Hsch.
  rewrite !bool_decide_eq_true in Hsch. split_and!; try done.
  - destruct (parse_uri base) as [e|u]; [done|]. by injection Hu as ->.
  - by destruct token.
Qed.

Lemma check_names_Ok names u :
  check_names default_forbidden names = inr u →
  ∀ name, name ∈ names → name = "host" ∨ is_forbidden_guest_header default_forbidden name = false.
Proof using Type.
  induction names as [|n names IH]; simpl; [set_solver|].
  case_bool_decide as Hn; [|destruct (is_forbidden_guest_header default_forbidden n) eqn:Hf; [done|]];
    intros H name [->|Hin]%elem_of_cons; auto.
Qed.

Lemma prepare_request_Ok p timeout elapsed req cfg req' limit cfg' :
  prepare_request same_authority text_ok default_forbidden p timeout elapsed req cfg = inr (req', limit, cfg') →
  ∃ allowed authorization,
    (elapsed < timeout)%N ∧ hp_allowed_origin p = Some allowed ∧ hp_authorization p = Some authorization ∧
    validate_origin same_authority text_ok p (gr_uri req) cfg (gr_headers req) = inr () ∧
    validate_content_length text_ok p (gr_headers req) = inr () ∧
    (∀ name, name ∈ (gr_headers req).*1 → name = "host" ∨ is_forbidden_guest_header default_forbidden name = false) ∧
    req' = MkGuestRequest (gr_uri req) (gr_headers req ++ [("authorization", authorization)]) ∧
    (header_bytes (gr_headers req') ≤ hp_header_limit_bytes p)%N ∧ limit = hp_body_limit_bytes p ∧
    oc_use_tls cfg' = oc_use_tls cfg ∧
    (oc_connect_timeout cfg' ≤ timeout - elapsed ∧ oc_first_byte_timeout cfg' ≤ timeout - elapsed ∧
     oc_between_bytes_timeout cfg' ≤ timeout - elapsed)%N.
Proof using Type.
  unfold prepare_request. intros H.
  apply presult_bind_Ok in H as (? & Ht%deny_Ok%bool_decide_eq_false & H).
  apply presult_bind_Ok in H as (? & Hz%deny_Ok%bool_decide_eq_false & H).
  apply presult_bind_Ok in H as ([] & Ho & H). apply presult_bind_Ok in H as ([] & Hc & H).
  apply presult_bind_Ok in H as (n & Hh & H). apply presult_bind_Ok in H as (authorization & Ha%some_or_Ok & H).
  apply presult_bind_Ok in H as (? & Hp%deny_Ok%bool_decide_eq_false & H). injection H as <- <- <-.
  apply presult_bind_Ok in Hh as (? & Hn & Hh). pose proof (check_names_Ok _ _ Hn) as Hnames.
  apply presult_bind_Ok in Hh as (? & _ & Hh). injection Hh as <-.
  pose proof Ho as (allowed & Hal%some_or_Ok & _)%presult_bind_Ok.
  assert ("authorization" ∉ (gr_headers req).*1) as Hauth.
  { intros Hin. destruct (Hnames _ Hin) as [?|Hf]; [done|]. unfold is_forbidden_guest_header in Hf.
    rewrite (bool_decide_eq_true_2 ("authorization" = "authorization")), orb_true_r in Hf; done. }
  rewrite insert_new_header by done. exists allowed, authorization. split_and!; try done; try apply capped; [lia|].
  cbn [gr_headers]. rewrite header_bytes_app. unfold projected_authorized_header_bytes in Hp. simpl. lia.
Qed.
End confinement.

Lemma header_values_app name h h' : header_values name (h ++ h') = header_values name h ++ header_values name h'.
Proof. unfold header_values. by rewrite filter_app, fmap_app. Qed.
Lemma header_values_none name h : name ∉ h.*1 → header_values name h = [].
Proof.
  induction h as [|[n v] h IH]; [done|]. rewrite fmap_cons, not_elem_of_cons. intros [Hn Hin].
  unfold header_values. rewrite filter_cons_False by (simpl in *; congruence). by apply IH.
Qed.

(** C16: a connector reaches its directory and nothing else. Whatever request it makes, the
    one that is sent goes to the scheme and authority of the configured origin, encrypted
    exactly if the scheme says so; it carries the configured token as its only
    authorization, no header that the policy forbids and no other first Host; its headers, with
    the token, and its announced body are within the limits, its body is cut off at the
    limit, and none of its timeouts is longer than what is left of the call. *)
Theorem connector_egress_confined parse_uri same_authority value_ok text_ok forbidden base token p timeout elapsed req cfg
    req' limit cfg'
    (Hpolicy : for_connector_origin parse_uri value_ok base token = inr p)
    (Hsent : prepare_request same_authority text_ok forbidden p timeout elapsed req cfg = inr (req', limit, cfg')) :
  ∃ uri scheme authority,
    parse_uri base = inr uri ∧ uri_scheme uri = Some scheme ∧ uri_authority uri = Some authority ∧
    uri_scheme (gr_uri req') = Some scheme ∧
    (∃ a, uri_authority (gr_uri req') = Some a ∧ same_authority a authority = true) ∧
    oc_use_tls cfg' = bool_decide (scheme = "https") ∧
    header_values "authorization" (gr_headers req') = ["Bearer " +:+ token] ∧
    (∀ name, name ∈ (gr_headers req').*1 →
       name = "host" ∨ name = "authorization" ∨ is_forbidden_guest_header forbidden name = false) ∧
    (∀ host, head (header_values "host" (gr_headers req')) = Some host → eq_ignore_ascii_case host authority = true) ∧
    (header_bytes (gr_headers req') ≤ 16384)%N ∧ limit = 1048576%N ∧
    (∀ v, v ∈ header_values "content-length" (gr_headers req') → ∃ n, Str.parse_u64 v = Some n ∧ (n ≤ 1048576)%N) ∧
    (elapsed < timeout ∧ oc_connect_timeout cfg' ≤ timeout - elapsed ∧ oc_first_byte_timeout cfg' ≤ timeout - elapsed ∧
     oc_between_bytes_timeout cfg' ≤ timeout - elapsed)%N.
Proof.
  destruct (policy_for_origin _ _ _ _ _ Hpolicy) as (uri & scheme & authority & Hu & Hs & Ha & _ & _ & _ & _ & ->).
  destruct (prepare_request_Ok _ _ _ _ _ _ _ _ _ _ _ Hsent)
    as (allowed & authorization & Ht & [= <-] & [= <-] & Ho & Hc & Hn & -> & Hb & -> & Htls & Htimes).
  exists uri, scheme, authority. cbn [gr_uri gr_headers].
  assert ("authorization" ∉ (gr_headers req).*1) as Hauth.
  { intros Hin. destruct (Hn _ Hin) as [?|Hf]; [done|]. unfold is_forbidden_guest_header in Hf.
    rewrite (bool_decide_eq_true_2 ("authorization" = "authorization")), orb_true_r in Hf; done. }
  unfold validate_origin in Ho. apply presult_bind_Ok in Ho as (? & [= <-] & Ho).
  apply presult_bind_Ok in Ho as (? & [Hsch Haut]%deny_Ok%orb_false_iff & Ho).
  apply presult_bind_Ok in Ho as (? & Htl%deny_Ok & Hhost). simpl in *.
  apply negb_false_iff, bool_decide_eq_true in Hsch, Htl. apply negb_false_iff in Haut.
  rewrite !header_values_app. unfold header_values at 2 4 6. simpl. rewrite !app_nil_r.
  split_and!; try done; try naive_solver.
  - destruct (uri_authority (gr_uri req)) as [a|]; [|done]. by exists a.
  - by rewrite header_values_none.
  - intros name. rewrite fmap_app, elem_of_app. intros [Hin|Hin]; [destruct (Hn _ Hin); auto|]. set_solver.
  - intros host Hh. rewrite Hh in Hhost. apply presult_bind_Ok in Hhost as (? & _ & Hhost%deny_Ok). by apply negb_false_iff in Hhost.
  - intros v Hv. unfold validate_content_length in Hc.
    destruct (header_values "content-length" (gr_headers req)) as [|l [|]]; [set_solver| |done].
    apply list_elem_of_singleton in Hv as ->. apply presult_bind_Ok in Hc as (? & _ & Hc).
    apply presult_bind_Ok in Hc as (n & Hn'%some_or_Ok & Hc%deny_Ok%bool_decide_eq_false). exists n. split; [done|].
    cbn [hp_body_limit_bytes] in Hc. unfold DIRECTORY_HTTP_BODY_LIMIT_BYTES in Hc. lia.
Qed.

(** * Starting with a connector *)

Section starting.
Context `{EX : Externals}.
Context (parse_uri : string → message + Uri) (same_authority : string → string → bool).
Context (value_ok text_ok : string → bool).
Context (read_file : string → message + string) (pem_items : string → list PemItem) (engine : WasmEngine).

Lemma sresult_bind_Ok {A B} (r : sresult A) (f : A → sresult B) b :
  r ≫= f = inr b ↔ ∃ a, r = inr a ∧ f a = inr b.
Proof using Type. destruct r as [e|a]; simpl; naive_solver. Qed.
Lemma abort_Ok bad m u : abort bad m = inr u ↔ bad = false.
Proof using Type. destruct bad, u; naive_solver. Qed.

(** What the settings of an enabled directory are when they are accepted. *)
Lemma directory_config_Ok d dir u :
  validate_directory_config parse_uri d dir = inr u → dc_enabled d = true →
  ∃ path token ca sha origin scheme,
    resolve_component_path d dir = inr (Some path) ∧ resolve_api_token_file d dir = inr (Some token) ∧
    resolve_tls_ca_file d dir = inr ca ∧ dc_component_sha256 d = Some sha ∧ dc_base_origin d = Some origin ∧
    validate_component_sha256 sha = inr () ∧ validate_base_origin parse_uri origin = inr scheme.
Proof using Type.
  unfold validate_directory_config. intros H Hen. rewrite Hen in H. cbn [negb] in H.
  do 3 apply cresult_bind_Ok in H as (? & _ & H).
  apply cresult_bind_Ok in H as (? & Hp%refuse_Ok & H). apply cresult_bind_Ok in H as (? & Hs%refuse_Ok & H).
  apply cresult_bind_Ok in H as (? & Ho%refuse_Ok & H). apply cresult_bind_Ok in H as (? & Ht%refuse_Ok & H).
  apply cresult_bind_Ok in H as (path & Hpath & H). apply cresult_bind_Ok in H as (token & Htoken & H).
  apply cresult_bind_Ok in H as (ca & Hca & H). apply cresult_bind_Ok in H as ([] & Hsha & H).
  apply cresult_bind_Ok in H as (scheme & Hscheme & _).
  assert (∀ field v o, (match v with Some s => blank s | None => true end) = false → resolve_optional field v dir = inr o →
    ∃ s, o = Some s) as Hsome.
  { intros field [s|] o Hb; [|done]. simpl. destruct (resolve_config_relative_path field s dir) as [e|q]; [done|].
    intros [= <-]. by exists q. }
  destruct (Hsome _ _ _ Hp Hpath) as [path' ->], (Hsome _ _ _ Ht Htoken) as [token' ->].
  destruct (dc_component_sha256 d) as [sha|]; [|done]. destruct (dc_base_origin d) as [origin|]; [|done].
  exists path', token', ca, sha, origin, scheme. by split_and!.
Qed.

Lemma resolved_directory d dir u :
  validate_directory_config parse_uri d dir = inr u → dc_enabled d = true →
  ∃ resolved, from_directory d dir = inr resolved ∧ dc_component_sha256 d = Some (rs_component_sha256 resolved) ∧
    dc_base_origin d = Some (rs_base_origin resolved) ∧ resolve_component_path d dir = inr (Some (rs_component_path resolved)) ∧
    resolve_api_token_file d dir = inr (Some (rs_api_token_file resolved)).
Proof using Type.
  intros H Hen. destruct (directory_config_Ok _ _ _ H Hen) as (path & token & ca & sha & origin & scheme & Hp & Ht & Hc & Hs & Ho & _).
  exists (MkResolved path sha origin token ca). split_and!; try done.
  unfold from_directory. rewrite Hp. simpl. rewrite Ht. simpl. rewrite Hc. simpl. rewrite Hs. simpl. by rewrite Ho.
Qed.

(** The two readings of the origin, of the settings and of the policy, agree. *)
Lemma accepted_origin origin scheme token :
  (∀ s uri a b, parse_uri s = inr uri → split_once_str "://" s = Some (a, b) →
     Str.contains_char "/" b = false → Str.contains_char "?" b = false →
     uri_path_and_query uri = None ∨ uri_path_and_query uri = Some "/") →
  validate_base_origin parse_uri origin = inr scheme →
  for_connector_origin parse_uri value_ok origin token ≠ inl InvalidBaseOrigin.
Proof using Type.
  intros Hlaw H. unfold validate_base_origin in H.
  apply cresult_bind_Ok in H as (? & [Ht He]%refuse_Ok%orb_false_iff & H). apply cresult_bind_Ok in H as (? & Hf%refuse_Ok & H).
  apply negb_false_iff in Ht. destruct (split_once_str "://" origin) as [[a b]|] eqn:Es; [|done].
  apply cresult_bind_Ok in H as (? & Hb%refuse_Ok & H). destruct (parse_uri origin) as [e|uri] eqn:Eu; [done|].
  apply cresult_bind_Ok in H as (sch & Hsch & H). destruct (uri_authority uri) as [authority|] eqn:Ea; [|done].
  apply cresult_bind_Ok in H as (? & Hat%refuse_Ok & _).
  pose proof Hb as [[_ Hb1]%orb_false_iff Hb2]%orb_false_iff. specialize (Hlaw _ _ _ _ Eu Es Hb1 Hb2).
  assert (∃ s, uri_scheme uri = Some s ∧ (bool_decide (s = "http") || bool_decide (s = "https") = true)) as (s & Hs & Hs').
  { destruct (bool_decide (uri_scheme uri = Some "http")) eqn:E1; [apply bool_decide_eq_true in E1; by exists "http"|].
    destruct (bool_decide (uri_scheme uri = Some "https")) eqn:E2; [apply bool_decide_eq_true in E2; by exists "https"|done]. }
  unfold for_connector_origin. rewrite Ht, Hf, Es. simpl. rewrite Hb. simpl. rewrite Eu. simpl. rewrite Hs. simpl. rewrite Ea.
  cbn [mbind presult_bind some_or]. rewrite Hs'. rewrite Hat.
  assert (match uri_path_and_query uri with Some p => negb (bool_decide (p = "/")) | None => false end = false) as ->
    by by destruct Hlaw as [->| ->].
  unfold deny. cbn [negb orb]. destruct (value_ok _); simpl; [|discriminate].
  destruct (Str.is_empty token || has_whitespace token); simpl; [discriminate|]. by destruct (bool_decide (DIRECTORY_HTTP_HEADER_LIMIT_BYTES < _)%N).
Qed.

Lemma read_api_token_Ok path token :
  read_api_token_file read_file path = inr token →
  ∃ content, read_file path = inr content ∧ token = strip_one_final_line_ending content ∧ token ≠ "" ∧ has_whitespace token = false.
Proof using Type.
  intros (content & Hc & H)%sresult_bind_Ok. apply sresult_bind_Ok in H as (? & He%abort_Ok & H).
  apply sresult_bind_Ok in H as (? & _ & H). apply sresult_bind_Ok in H as (? & Hw%abort_Ok & H). injection H as <-.
  exists content. split_and!; [by destruct (read_file path); simplify_eq|done| |done]. intros E. by rewrite E in He.
Qed.

Lemma connector_info_Ok info u :
  validate_connector_info info = inr u →
  cn_abi_version info = EXPECTED_ABI_VERSION ∧ provider_wf (cn_provider info).
Proof using Type.
  intros (? & _ & H)%sresult_bind_Ok. apply sresult_bind_Ok in H as (? & _ & H).
  apply sresult_bind_Ok in H as (? & Ha%abort_Ok & H). apply negb_false_iff, bool_decide_eq_true in Ha. split; [done|].
  destruct (ProviderId_new (cn_provider info)) as [p|e|] eqn:E; [|done|].
  - apply abort_Ok, negb_false_iff, bool_decide_eq_true in H. apply ProviderId_new_Ok in E as [_ Hwf]. by subst.
  - unfold ProviderId_new in E. repeat case_match; done.
Qed.
End starting.

(** A server that starts with a directory connector runs the component that its
    settings name. If the settings are accepted and the startup check passes, the
    component file has the configured digest, the token is the content of the token file
    without its line ending, not empty and without white space, the policy of the
    component's requests is the one of the configured origin and that token, and the
    component described itself in time with the server's ABI version and a well-formed
    provider. And settings once accepted cannot be refused later: the startup finds all
    their fields, and the policy does not object to their origin. *)
Theorem directory_startup_sound `{EX : Externals} parse_uri value_ok read_file pem_items engine
    (base64_bytes : string → message + list Byte.byte) (c : Config) auth d dir
    (Hpath : ∀ s uri a b, parse_uri s = inr uri → split_once_str "://" s = Some (a, b) →
       Str.contains_char "/" b = false → Str.contains_char "?" b = false →
       uri_path_and_query uri = None ∨ uri_path_and_query uri = Some "/")
    (Hconfig : validate_with_config_dir parse_uri base64_bytes c dir = inr ())
    (Hauth : co_auth c = Some auth) (Hd : au_directory auth = Some d) (Hen : dc_enabled d = true) :
  ∃ resolved,
    from_directory d dir = inr resolved ∧
    (∀ token, for_connector_origin parse_uri value_ok (rs_base_origin resolved) token ≠ inl InvalidBaseOrigin) ∧
    ∀ slot elapsed,
      validate_directory_startup parse_uri value_ok read_file pem_items engine c dir slot elapsed = inr () →
      ∃ bytes content token policy info,
        read_file (rs_component_path resolved) = inr bytes ∧ dc_component_sha256 d = Some (sha256_digest bytes) ∧
        read_file (rs_api_token_file resolved) = inr content ∧ token = strip_one_final_line_ending content ∧
        token ≠ "" ∧ has_whitespace token = false ∧
        for_connector_origin parse_uri value_ok (rs_base_origin resolved) token = inr policy ∧
        we_call engine bytes (directory_limits d) policy (timeout_ms d * 1000000 - elapsed) = Some (inr info) ∧
        (elapsed ≤ timeout_ms d * 1000000)%N ∧
        cn_abi_version info = EXPECTED_ABI_VERSION ∧ provider_wf (cn_provider info).
Proof.
  unfold validate_with_config_dir in Hconfig. do 5 apply cresult_bind_Ok in Hconfig as (? & _ & Hconfig).
  rewrite Hauth in Hconfig. apply auth_config_Ok in Hconfig as (_ & _ & _ & _ & _ & _ & _ & Hconfig). rewrite Hd in Hconfig.
  destruct (resolved_directory _ _ _ _ Hconfig Hen) as (resolved & Hres & Hsha & Hor & _).
  exists resolved. split; [done|]. split.
  { intros token. destruct (directory_config_Ok _ _ _ _ Hconfig Hen) as (_ & _ & _ & _ & origin & scheme & _ & _ & _ & _ & Ho & _ & Hv).
    rewrite Hor in Ho. injection Ho as <-. by eapply accepted_origin. }
  intros slot elapsed. unfold validate_directory_startup, validate_auth_directory_startup. rewrite Hauth, Hd, Hen. cbn [negb].
  rewrite Hres. cbn [mbind sresult_bind]. intros H.
  apply sresult_bind_Ok in H as (token & (content & Hcontent & -> & Hne & Hws)%read_api_token_Ok & H).
  apply sresult_bind_Ok in H as (? & _ & H). apply sresult_bind_Ok in H as (policy & Hpol & H).
  apply sresult_bind_Ok in H as (bytes & Hbytes & H). apply sresult_bind_Ok in H as (? & Hdig%abort_Ok & H).
  apply sresult_bind_Ok in H as (? & _ & H). apply sresult_bind_Ok in H as (info & Hinfo & [Habi Hprov]%connector_info_Ok).
  apply negb_false_iff, bool_decide_eq_true in Hdig.
  destruct (for_connector_origin _ _ _ _) as [e|policy'] eqn:Ep; [done|]. injection Hpol as ->.
  unfold read_named in Hbytes. destruct (read_file (rs_component_path resolved)) as [e|b] eqn:Eb; [done|]. injection Hbytes as ->.
  unfold connector_info, with_deadline in Hinfo. simpl in Hinfo. destruct slot; [|done]. simpl in Hinfo.
  case_bool_decide as Hel; [done|]. destruct (we_call _ _ _ _ _) as [[e|info']|] eqn:Ec; [done| |done]. injection Hinfo as ->.
  eexists _, _, _, _, _. split_and!; try done; [by rewrite Hdig|lia].
Qed.

(** * What becomes of a message *)

Section messages.
#[local] Abbreviation f := (λ b, negb (is_control_byte b)).

Lemma normalize_controls_clean s : Str.all f (normalize_controls s) = true.
Proof.
  remember (String.length s) as n eqn:Hn. revert s Hn. induction (lt_wf n) as [n _ IH]. intros [|a s] ->; [done|].
  cbn [normalize_controls]. assert (Str.all f (normalize_controls s) = true) as Hs by (eapply IH; [|done]; simpl; lia).
  destruct (is_control_byte a) eqn:Ha; [by simpl; rewrite Hs|]. destruct s as [|b s]; [by simpl; rewrite Ha|].
  destruct (_ && _); [|by cbn [Str.all]; rewrite Ha, Hs].
  cbn [Str.all]. rewrite andb_true_iff. split; [done|]. eapply IH; [|done]. simpl. lia.
Qed.

Lemma strip_one_suffix ws s r : Str.strip_one ws s = Some r → ∃ w, s = w +:+ r.
Proof.
  unfold Str.strip_one. intros H. apply head_Some_elem_of in H. apply list_elem_of_omap in H as (w & _ & Hw).
  apply strip_prefix_Some in Hw. by exists w.
Qed.
Lemma words_all g fuel word s x :
  Str.all g word = true → Str.all g s = true → x ∈ Str.words fuel word s → Str.all g x = true.
Proof.
  revert word s. induction fuel as [|fuel IH]; intros word s Hw Hs; simpl.
  { case_match; set_solver. }
  destruct (Str.strip_one Str.whitespace s) as [r|] eqn:E.
  - apply strip_one_suffix in E as [w ->]. rewrite all_app in Hs. apply andb_true_iff in Hs as [_ Hs].
    rewrite elem_of_app. intros [Hx|Hx]; [case_match; set_solver|]. by apply (IH "" r).
  - destruct s as [|a s]; [case_match; set_solver|]. simpl in Hs. apply andb_true_iff in Hs as [Ha Hs].
    apply IH; [|done]. rewrite all_app, Hw. simpl. by rewrite Ha.
Qed.
Lemma split_whitespace_all g s x : Str.all g s = true → x ∈ Str.split_whitespace s → Str.all g x = true.
Proof. unfold Str.split_whitespace. intros Hs. by apply words_all. Qed.
Lemma join_all g sep l : Str.all g sep = true → Forall (λ x, Str.all g x = true) l → Str.all g (Str.join sep l) = true.
Proof.
  intros Hsep. induction 1 as [|x l Hx Hl IH]; [done|]. destruct l as [|y l]; [done|].
  by rewrite join_cons, !all_app, Hx, Hsep, IH.
Qed.
Lemma redact_words_elem ws x : x ∈ redact_words ws → x ∈ ws ∨ x = "[redacted]".
Proof.
  remember (length ws) as n eqn:Hn. revert ws Hn. induction (lt_wf n) as [n _ IH]. intros [|w ws] ->; simpl; [set_solver|].
  rewrite elem_of_cons. intros [->|Hx]; [left; set_solver|]. destruct (eq_ignore_ascii_case w "bearer").
  - destruct ws as [|v ws]; [set_solver|]. apply elem_of_cons in Hx as [->|Hx]; [by right|].
    destruct (IH (length ws) ltac:(simpl; lia) ws eq_refl Hx); set_solver.
  - destruct (IH (length ws) ltac:(simpl; lia) ws eq_refl Hx); set_solver.
Qed.
Lemma redact_words_after ws i w v :
  redact_words ws !! i = Some w → eq_ignore_ascii_case w "bearer" = true → redact_words ws !! S i = Some v → v = "[redacted]".
Proof.
  remember (length ws) as n eqn:Hn. revert ws i Hn. induction (lt_wf n) as [n _ IH]. intros [|x ws] i ->; [done|].
  cbn [redact_words]. destruct (eq_ignore_ascii_case x "bearer") eqn:Ex.
  - destruct ws as [|y ws]; [by destruct i|]. destruct i as [|[|i]]; simpl; [by intros _ _ [= <-]|by intros [= <-]|].
    apply (IH (length ws)); [simpl; lia|done].
  - destruct i as [|i]; simpl; [intros [= <-]; congruence|]. apply (IH (length ws)); [simpl; lia|done].
Qed.
Lemma redact_bearer_clean m : Str.all f m = true → Str.all f (redact_bearer_tokens m) = true.
Proof.
  intros Hm. unfold redact_bearer_tokens. apply join_all; [reflexivity|]. apply Forall_forall.
  intros x [Hx| ->]%redact_words_elem; [|reflexivity]. by eapply split_whitespace_all.
Qed.
Lemma redact_url_clean m : Str.all f m = true → Str.all f (redact_url_queries m) = true.
Proof.
  intros Hm. unfold redact_url_queries. apply join_all; [reflexivity|]. apply Forall_forall.
  intros x (w & -> & Hw)%list_elem_of_fmap. apply (split_whitespace_all f) in Hw; [|done]. unfold redact_url_query. destruct (_ && _); [|done].
  rewrite all_app. destruct (Str.split_once "?" w) as [[x y]|] eqn:E; simpl; [|by rewrite Hw].
  apply split_once_Some in E as [-> _]. rewrite all_app in Hw. apply andb_true_iff in Hw as [-> _]. done.
Qed.

Lemma substring_prefix n s : n ≤ String.length s →
  String.length (String.substring 0 n s) = n ∧ ∃ rest, s = String.substring 0 n s +:+ rest.
Proof.
  revert n. induction s as [|a s IH]; intros n Hn; simpl in *.
  - assert (n = 0) as -> by lia. split; [done|]. by exists "".
  - destruct n as [|n]; simpl; [split; [done|by exists (String a s)]|].
    destruct (IH n ltac:(lia)) as [Hl [rest Hr]]. rewrite Hl. split; [done|]. exists rest. by rewrite app_cons, <-Hr.
Qed.
Lemma boundary_below_le s i : boundary_below s i ≤ i.
Proof. induction i as [|i IH]; simpl; [done|]. destruct (is_char_boundary s (S i)); lia. Qed.
Lemma boundary_below_ok s i : boundary_below s i = 0 ∨ is_char_boundary s (boundary_below s i) = true.
Proof. induction i as [|i IH]; simpl; [by left|]. destruct (is_char_boundary s (S i)) eqn:E; [by right|done]. Qed.

Lemma truncate_spec s limit : let t := truncate_at_utf8_boundary s limit in
  String.length t ≤ limit ∧ (∃ rest, s = t +:+ rest) ∧ (t = "" ∨ t = s ∨ is_char_boundary s (String.length t) = true).
Proof.
  cbv zeta. unfold truncate_at_utf8_boundary. case_bool_decide as Hl; [split_and!; [done|exists ""; by rewrite app_nil_r_str|by right; left]|].
  pose proof (boundary_below_le s limit) as Hb. destruct (substring_prefix (boundary_below s limit) s ltac:(lia)) as [Hlen Hpre].
  rewrite Hlen. split_and!; [done|done|]. destruct (boundary_below_ok s limit) as [Hz|Hok]; [|by right; right].
  left. rewrite Hz in Hlen |- *. by destruct (String.substring 0 0 s).
Qed.
End messages.

(** An error message of the connector fits a log line: cleaned, it is between one and
    512 bytes long, has no control byte, and is cut, if it is, between two characters; and
    what follows the word [bearer] in it is replaced. *)
Theorem sanitized_message_bounded (raw : string) :
  (0 < String.length (sanitize_connector_error_message raw) ≤ 512) ∧
  Str.all (λ b, negb (is_control_byte b)) (sanitize_connector_error_message raw) = true ∧
  (∃ full rest, full = sanitize_connector_error_message raw +:+ rest ∧
     (rest = "" ∨ is_char_boundary full (String.length (sanitize_connector_error_message raw)) = true)) ∧
  (∀ ws i w v, redact_words ws !! i = Some w → eq_ignore_ascii_case w "bearer" = true →
     redact_words ws !! S i = Some v → v = "[redacted]").
Proof.
  unfold sanitize_connector_error_message.
  set (sanitized := if contains_sensitive_context _ then _ else _).
  assert (Str.all (λ b, negb (is_control_byte b)) sanitized = true) as Hclean.
  { unfold sanitized. destruct (contains_sensitive_context _); [done|].
    apply redact_url_clean, redact_bearer_clean, normalize_controls_clean. }
  destruct (truncate_spec sanitized ERROR_MESSAGE_LIMIT_BYTES) as (Hlen & [rest Hrest] & Hcut).
  set (t := truncate_at_utf8_boundary sanitized ERROR_MESSAGE_LIMIT_BYTES) in *.
  assert (Str.all (λ b, negb (is_control_byte b)) t = true) as Ht
    by (rewrite Hrest, all_app in Hclean; by apply andb_true_iff in Hclean as [? _]).
  destruct (Str.is_empty t) eqn:Et; split_and!; try apply redact_words_after; try done; try (simpl; lia).
  - exists "connector error", "". split; [done|by left].
  - destruct t; [done|simpl; lia].
  - exists sanitized, rest. split; [done|]. destruct Hcut as [->|[Hs|?]]; [done| |by right].
    left. apply (f_equal String.length) in Hrest, Hs. rewrite length_app_str in Hrest.
    destruct rest; [done|]. simpl in Hrest. lia.
Qed.

(** A connector may keep its secrets out of sight of the filter with a second space: the
    text [response  body:] is not one of the marks, and is one after its words have been
    joined with single spaces. *)
Theorem double_space_unredacted :
  sanitize_connector_error_message "response body: s3cret" = "connector error contained redacted sensitive context" ∧
  sanitize_connector_error_message "response  body: s3cret" = "response body: s3cret".
Proof. split; vm_compute; reflexivity. Qed.

(** * Examples *)

(** A policy, a request under it, and what is sent. *)
Definition idm_policy : DirectoryHttpPolicy :=
  MkDirectoryHttpPolicy (Some (MkAllowedOrigin "https" "idm.example.com:8443")) (Some "Bearer t0ken")
    DIRECTORY_HTTP_HEADER_LIMIT_BYTES DIRECTORY_HTTP_BODY_LIMIT_BYTES.
Definition idm_request : GuestRequest :=
  MkGuestRequest (MkUri (Some "https") (Some "idm.example.com:8443") (Some "/v1/person"))
    [("accept", "application/json"); ("host", "IDM.example.com:8443"); ("content-length", "12")].
Definition idm_timeouts : OutgoingRequestConfig := MkOutgoingRequestConfig true 5000000000 100 5000000000.
Definition idm_sent : GuestRequest := MkGuestRequest (gr_uri idm_request) (gr_headers idm_request ++ [("authorization", "Bearer t0ken")]).

Lemma connector_egress_confined_witness :
  for_connector_origin sample_uri (λ _, true) "https://idm.example.com:8443" "t0ken" = inr idm_policy ∧
  prepare_request String.eqb (λ _, true) ["connection"] idm_policy 2000000000 500000000 idm_request idm_timeouts
    = inr (idm_sent, 1048576%N, MkOutgoingRequestConfig true 1500000000 100 1500000000) ∧
  header_values "authorization" (gr_headers idm_sent) = ["Bearer t0ken"].
Proof.
  assert (for_connector_origin sample_uri (λ _, true) "https://idm.example.com:8443" "t0ken" = inr idm_policy) as H1
    by (vm_compute; reflexivity).
  assert (prepare_request String.eqb (λ _, true) ["connection"] idm_policy 2000000000 500000000 idm_request idm_timeouts
    = inr (idm_sent, 1048576%N, MkOutgoingRequestConfig true 1500000000 100 1500000000)) as H2 by (vm_compute; reflexivity).
  split; [exact H1|]. split; [exact H2|].
  destruct (connector_egress_confined _ _ _ _ _ _ _ _ _ _ _ _ _ _ _ H1 H2) as (_ & _ & _ & _ & _ & _ & _ & _ & _ & H & _).
  exact H.
Defined.

(** The component, its token with a line ending, and an engine for which it describes
    itself at once. *)
Definition idm_files (path : string) : message + string :=
  if bool_decide (path = "/etc/layerhouse/connectors/kanidm.wasm") then inr "component"
  else if bool_decide (path = "/run/secrets/token") then inr ("t0ken" +:+ crlf) else inl [Lit "not found"].
Definition idm_info : ConnectorInfo := MkConnectorInfo "kanidm" "1" "kanidm" "0.0.3".
Definition idm_engine : WasmEngine := MkWasmEngine (λ _, None) (λ _ _ _ _, Some (inr idm_info)).

Lemma sample_uri_path s uri a b :
  sample_uri s = inr uri → split_once_str "://" s = Some (a, b) →
  Str.contains_char "/" b = false → Str.contains_char "?" b = false →
  uri_path_and_query uri = None ∨ uri_path_and_query uri = Some "/".
Proof. unfold sample_uri. intros H Hs _ _. rewrite Hs in H. injection H as <-. by right. Qed.

Lemma directory_startup_sound_witness :
  validate_directory_startup sample_uri (λ _, true) idm_files (λ _, []) idm_engine (sample_settings []) (Some "/etc/layerhouse") true 7
    = inr () ∧
  ∃ bytes, idm_files "/etc/layerhouse/connectors/kanidm.wasm" = inr bytes ∧
    dc_component_sha256 sample_directory = Some (sha256_digest bytes).
Proof.
  assert (validate_directory_startup sample_uri (λ _, true) idm_files (λ _, []) idm_engine (sample_settings []) (Some "/etc/layerhouse")
    true 7 = inr ()) as H by (vm_compute; reflexivity).
  split; [exact H|].
  destruct (directory_startup_sound sample_uri (λ _, true) idm_files (λ _, []) idm_engine idp_base64 (sample_settings [])
    (default (MkAuthSettings idp_config 0 false None) (co_auth (sample_settings []))) sample_directory (Some "/etc/layerhouse")
    sample_uri_path) as (resolved & Hr & _ & Hs); [vm_compute; reflexivity|reflexivity..|].
  destruct (Hs true 7%N H) as (bytes & _ & _ & _ & _ & Hb & Hd & _). exists bytes. split; [|exact Hd].
  vm_compute in Hr. injection Hr as <-. exact Hb.
Defined.
