(* ===== verification/CtlRegistry.v ===== *)
(** The registry client of the command line (crates/layerhouse-ctl/src/registry.rs):
    references, tokens, the retry loop and the requests to a registry.

    An operation is a tree of effects, [prog]: requests, sleeps and the token cache.
    [runs p tr r] says that [p] may end with [r] after the effects and answers in
    [tr]; the answers are arbitrary. A loop whose length a registry decides takes a
    bound, and ends as [Unfinished] when that is used up. *)

From Stdlib Require Import Ascii.
From stdpp Require Import options.
From S2P Require Import Prelude Errors Digests Manifests Permissions SyncRuns Types StateMachine S3Client Io Upstream.

(** * Errors *)

Inductive RegistryError :=
  | HttpError (m : message)
  | ProtocolError (m : message)
  | JsonError (m : message)
  | WithContext (context : message) (source : RegistryError).

(** [RegistryError::context]. *)
Definition error_context (e : RegistryError) (ctx : message) : RegistryError := WithContext ctx e.

(** The text of an error, from its [#[error]] attributes. *)
Fixpoint registry_error_text (e : RegistryError) : message :=
  match e with
  | HttpError m | ProtocolError m | JsonError m => m
  | WithContext context source => context ++ Lit ": " :: registry_error_text source
  end.

(** How an operation ends: with a value, an error, a panic, or not within its bound. *)
Inductive outcome (A : Type) := Done (a : A) | Failed (e : RegistryError) | Panicked | Unfinished.
#[global] Arguments Done {_} _.
#[global] Arguments Failed {_} _.
#[global] Arguments Panicked {_}.
#[global] Arguments Unfinished {_}.

(** * Image references *)

Record ImageRef := MkImageRef {
  im_registry : string;
  im_repository : string;
  im_reference : option string;
  im_scheme : string;
}.
#[global] Instance ImageRef_eq_dec : EqDecision ImageRef.
Proof. solve_decision. Defined.

(** The host before the first slash, if it looks like one. *)
Definition image_host (s : string) : string * string :=
  match Str.split_once "/" s with
  | Some (first, rest) =>
      if Str.contains_char "." first || Str.contains_char ":" first || bool_decide (first = "localhost")
      then (first, rest) else ("docker.io", s)
  | None => ("docker.io", s)
  end.

(** The repository, and what follows an [@], or the last colon after the last slash. *)
Definition image_reference (remainder : string) : string * option string :=
  match Str.split_once "@" remainder with
  | Some (repo, reference) => (repo, Some reference)
  | None =>
      let '(before, tail) :=
        match Str.rsplit_once "/" remainder with
        | Some (x, y) => (x, "/" +:+ y)
        | None => ("", remainder)
        end in
      match Str.rsplit_once ":" tail with
      | Some (x, y) => (before +:+ x, Some y)
      | None => (remainder, None)
      end
  end.

Definition is_loopback_name (hostname : string) : bool :=
  bool_decide (hostname ∈ ["localhost"; "127.0.0.1"; "[::1]"]).

Definition ImageRef_parse (s : string) (plain_http : bool) : ImageRef :=
  let '(host, remainder) := image_host s in
  let '(repo, reference) := image_reference remainder in
  let registry := if bool_decide (host = "docker.io") then "registry-1.docker.io" else host in
  let repository :=
    if bool_decide (host = "docker.io" ∨ host = "registry-1.docker.io") && negb (Str.contains_char "/" repo)
    then "library/" +:+ repo else repo in
  let scheme :=
    if plain_http then "http"
    else
      let hostname := default registry (head (Str.split ":" registry)) in
      if is_loopback_name hostname then "http" else "https" in
  MkImageRef registry repository reference scheme.

Definition image_base_url (image : ImageRef) : string := im_scheme image +:+ "://" +:+ im_registry image.

Definition image_display (image : ImageRef) : string :=
  match im_reference image with
  | Some r =>
      if Str.contains_char ":" r then im_registry image +:+ "/" +:+ im_repository image +:+ "@" +:+ r
      else im_registry image +:+ "/" +:+ im_repository image +:+ ":" +:+ r
  | None => im_registry image +:+ "/" +:+ im_repository image
  end.

(** * Programs *)

(** A request: every header but the authorization, which a cached token decides. *)
Record CliRequest := MkCliRequest {
  cq_method : Method;
  cq_url : string;
  cq_headers : list (string * string);
  cq_auth : Io.Authorization;
  cq_body : option bytes;
}.

(** What the mirror counts for its summary. *)
Inductive Stat := BlobTransferred (size : N) | BlobSkipped | ManifestPushed.

Inductive event :=
  | Send (q : CliRequest)
  | Wait (ms : N)
  | TokenLookup (key : string)
  | TokenInsert (key token : string)
  | TokenDrop (key : string)
  | Count (s : Stat).

Definition answer (e : event) : Type :=
  match e with
  | Send _ => send_error + UpResponse
  | TokenLookup _ => option string
  | Wait _ | TokenInsert _ _ | TokenDrop _ | Count _ => ()
  end.

(** Trees over a signature of effects [E] with answers [ans]. *)
Section programs.
Context {E : Type} {ans : E → Type}.

Inductive tree (A : Type) :=
  | Fin (r : outcome A)
  | Eff (e : E) (k : ans e → tree A).
Arguments Fin {_} _.
Arguments Eff {_} _ _.

Fixpoint pbind {A B} (p : tree A) (f : outcome A → tree B) : tree B :=
  match p with Fin r => f r | Eff e k => Eff e (λ a, pbind (k a) f) end.
#[global] Instance tree_mbind : MBind tree := λ A B f p,
  pbind p (λ r, match r with
                | Done a => f a
                | Failed e => Fin (Failed e)
                | Panicked => Fin Panicked
                | Unfinished => Fin Unfinished
                end).

Definition ret {A} (a : A) : tree A := Fin (Done a).
Definition throw {A} (e : RegistryError) : tree A := Fin (Failed e).
Definition http_err {A} (m : message) : tree A := throw (HttpError m).
Definition perform (e : E) : tree (ans e) := Eff e (λ a, Fin (Done a)).
(** [map_err]. *)
Definition map_err {A} (p : tree A) (f : RegistryError → RegistryError) : tree A :=
  pbind p (λ r, match r with Failed e => Fin (Failed (f e)) | r => Fin r end).

Definition log : Type := list { e : E & ans e }.
Fixpoint runs {A} (p : tree A) (tr : log) (r : outcome A) : Prop :=
  match p with
  | Fin r0 => tr = [] ∧ r = r0
  | Eff e k => ∃ a tr', tr = existT e a :: tr' ∧ runs (k a) tr' r
  end.

(** The run in which an oracle answers. *)
Fixpoint play {A} (oracle : ∀ e, ans e) (p : tree A) : log * outcome A :=
  match p with
  | Fin r => ([], r)
  | Eff e k => let '(tr, r) := play oracle (k (oracle e)) in (existT e (oracle e) :: tr, r)
  end.

Lemma runs_pbind {A B} (p : tree A) (f : outcome A → tree B) tr r :
  runs (pbind p f) tr r ↔ ∃ tr1 tr2 r1, tr = tr1 ++ tr2 ∧ runs p tr1 r1 ∧ runs (f r1) tr2 r.
Proof.
  revert tr. induction p as [r0|e k IH]; intros tr; simpl.
  - split; [by exists [], tr, r0|]. by intros (tr1 & tr2 & r1 & -> & [-> ->] & H2).
  - split.
    + intros (a & tr' & -> & (tr1 & tr2 & r1 & -> & H1 & H2)%IH).
      exists (existT e a :: tr1), tr2, r1. split; [done|]. by eauto 10.
    + intros (tr1 & tr2 & r1 & -> & (a & tr' & -> & H1) & H2).
      exists a, (tr' ++ tr2). split; [done|]. apply IH. by eauto 10.
Qed.

Lemma tree_runs_bind {A B} (p : tree A) (f : A → tree B) tr r :
  runs (p ≫= f) tr r ↔ ∃ tr1 tr2 r1, tr = tr1 ++ tr2 ∧ runs p tr1 r1 ∧
    match r1 with
    | Done a => runs (f a) tr2 r
    | Failed e => tr2 = [] ∧ r = Failed e
    | Panicked => tr2 = [] ∧ r = Panicked
    | Unfinished => tr2 = [] ∧ r = Unfinished
    end.
Proof.
  unfold mbind, tree_mbind. rewrite runs_pbind.
  split; intros (tr1 & tr2 & [a|e| |] & -> & H1 & H2); exists tr1, tr2;
    eexists; (split; [done|]); (split; [exact H1|]); simpl in *; destruct tr2; naive_solver.
Qed.

Lemma runs_bind_Done {A B} (p : tree A) (f : A → tree B) tr b :
  runs (p ≫= f) tr (Done b) ↔
  ∃ tr1 tr2 a, tr = tr1 ++ tr2 ∧ runs p tr1 (Done a) ∧ runs (f a) tr2 (Done b).
Proof.
  rewrite tree_runs_bind. split.
  - intros (tr1 & tr2 & [a|e| |] & -> & H1 & H2); [by eauto 10|by destruct H2..].
  - intros (tr1 & tr2 & a & -> & H1 & H2). by exists tr1, tr2, (Done a).
Qed.

Lemma tree_play_runs {A} oracle (p : tree A) : runs p (play oracle p).1 (play oracle p).2.
Proof.
  induction p as [r|e k IH]; simpl; [done|]. specialize (IH (oracle e)).
  destruct (play oracle (k (oracle e))) as [tr r]. by exists (oracle e), tr.
Qed.

(** [only P p]: every effect of [p] satisfies [P], whatever the answers. *)
Fixpoint only {A} (P : E → Prop) (p : tree A) : Prop :=
  match p with Fin _ => True | Eff e k => P e ∧ ∀ a, only P (k a) end.
Lemma only_pbind {A B} (P : E → Prop) (p : tree A) (f : outcome A → tree B) :
  only P p → (∀ r, only P (f r)) → only P (pbind p f).
Proof. induction p as [r|e k IH]; simpl; [naive_solver|]. intros [He Hk] Hf. naive_solver. Qed.
Lemma only_bind {A B} (P : E → Prop) (p : tree A) (f : A → tree B) :
  only P p → (∀ a, only P (f a)) → only P (p ≫= f).
Proof. intros Hp Hf. apply only_pbind; [done|]. by intros [a|e| |]. Qed.
Lemma only_runs {A} (P : E → Prop) (p : tree A) tr r :
  only P p → runs p tr r → Forall (λ x, P (projT1 x)) tr.
Proof.
  revert tr. induction p as [r0|e k IH]; intros tr; simpl.
  - by intros _ [-> _].
  - intros [He Hk] (a & tr' & -> & H). constructor; [done|]. by eapply IH.
Qed.

(** [finishes p]: no loop of [p] runs out of its bound, whatever the answers. *)
Fixpoint finishes {A} (p : tree A) : Prop :=
  match p with Fin r => r ≠ Unfinished | Eff e k => ∀ a, finishes (k a) end.
Lemma finishes_pbind {A B} (p : tree A) (f : outcome A → tree B) :
  finishes p → (∀ r, r ≠ Unfinished → finishes (f r)) → finishes (pbind p f).
Proof. induction p as [r|e k IH]; simpl; naive_solver. Qed.
Lemma finishes_bind {A B} (p : tree A) (f : A → tree B) :
  finishes p → (∀ a, finishes (f a)) → finishes (p ≫= f).
Proof. intros Hp Hf. apply finishes_pbind; [done|]. by intros [a|e| |]. Qed.
Lemma finishes_runs {A} (p : tree A) tr r : finishes p → runs p tr r → r ≠ Unfinished.
Proof.
  revert tr. induction p as [r0|e k IH]; intros tr; simpl; [by intros ? [_ ->]|].
  intros Hk (a & tr' & -> & H). by eapply IH.
Qed.
End programs.
#[global] Arguments tree {_} _ _.
#[global] Arguments Fin {_ _ _} _.
#[global] Arguments Eff {_ _ _} _ _.
#[global] Arguments log {_} _.

Abbreviation prog := (tree answer).
Abbreviation trace := (log answer).

(** What the HTTP library refuses. *)
Definition refuse (e : option message) : prog () :=
  match e with Some m => http_err m | None => ret () end.
Fixpoint refuse_headers `{HttpLib} (headers : list (string * string)) : prog () :=
  match headers with
  | [] => ret ()
  | (_, v) :: headers' => _ ← refuse (header_error v); refuse_headers headers'
  end.

(** * The client *)

Definition CLI_MANIFEST_ACCEPT : string :=
  "application/vnd.oci.image.manifest.v1+json, application/vnd.oci.image.index.v1+json, " +:+
  "application/vnd.docker.distribution.manifest.v2+json, " +:+
  "application/vnd.docker.distribution.manifest.list.v2+json, */*".
Definition CLI_MAX_RETRIES : nat := 5.
Definition CLI_INITIAL_BACKOFF_MS : N := 200.
Definition CHUNK_SIZE : N := 5 * 1024 * 1024.

Definition cli_parse_bearer_challenge (header : string) : outcome BearerChallenge :=
  let header := default header (Str.strip_prefix "Bearer " header) in
  match challenge_params (S (String.length header)) header None None with
  | (Some realm, service) => Done (MkBearerChallenge realm service)
  | (None, _) => Failed (ProtocolError [Lit "no realm in Bearer challenge"])
  end.

Definition cli_is_retryable (status : N) : bool := bool_decide (status ∈ [429; 500; 502; 503; 504; 408]%N).

Definition cli_cache_key (image : ImageRef) (actions : string) : string :=
  im_registry image +:+ "|repository:" +:+ im_repository image +:+ ":" +:+ actions.

Section client.
Context `{SJ : SerdeJson, HL : HttpLib}.
(** The body of a response as text ([Response::text], [""] if it fails), and the scheme
    and authority of a URI ([http::Uri]). *)
Context (response_text : list (message + bytes) → string).
Context (parse_uri : string → option (option string * option string)).

Definition cli_backoff (attempt : nat) : prog () := perform (Wait (CLI_INITIAL_BACKOFF_MS * 2 ^ N.of_nat attempt)).

(** Sending, with every error turned into [Http]. *)
Definition send (q : CliRequest) : prog UpResponse :=
  Eff (Send q) (λ a, match a with inl e => http_err (send_error_text e) | inr resp => ret resp end).

Definition cli_error_for_status (resp : UpResponse) (prefix : message) : prog UpResponse :=
  if bool_decide (400 ≤ ur_status resp < 600)%N then http_err (prefix ++ status_error (ur_status resp))
  else ret resp.

(** [resp.json()], its errors prefixed. *)
Definition response_json (resp : UpResponse) (prefix : string) : prog Value :=
  match collect (ur_body resp) with
  | inl m => http_err (Lit prefix :: m)
  | inr b => match from_slice b with Some v => ret v | None => http_err [Lit prefix] end
  end.

Definition cli_fetch_token (www_auth scope : string) : prog string :=
  challenge ← Fin (cli_parse_bearer_challenge www_auth);
  let full_url := bc_realm challenge +:+ "?scope=" +:+ scope +:+
    match bc_service challenge with Some s => "&service=" +:+ s | None => "" end in
  _ ← refuse (url_error full_url);
  resp ← send (MkCliRequest GET full_url [] NoAuth None);
  resp ← cli_error_for_status resp [Lit "token fetch: "];
  body ← response_json resp "token json: ";
  let token := match json_get body "token" with Some v => Some v | None => json_get body "access_token" end in
  match token ≫= json_as_str with
  | Some t => ret t
  | None => throw (ProtocolError [Lit "no token in auth response"])
  end.

Definition cli_ensure_auth (image : ImageRef) (actions : string) : prog () :=
  let url := image_base_url image +:+ "/v2/" in
  _ ← refuse (url_error url);
  resp ← send (MkCliRequest GET url [] NoAuth None);
  if negb (bool_decide (ur_status resp = 401%N)) then ret ()
  else match ur_headers resp !! "www-authenticate" with
  | None => throw (ProtocolError [Lit "401 without WWW-Authenticate from "; Disp (im_registry image)])
  | Some www_auth =>
      token ← cli_fetch_token www_auth ("repository:" +:+ im_repository image +:+ ":" +:+ actions);
      perform (TokenInsert (cli_cache_key image actions) token)
  end.

Definition cli_refresh_auth (image : ImageRef) (actions : string) : prog () :=
  _ ← perform (TokenDrop (cli_cache_key image actions)); cli_ensure_auth image actions.

Definition cli_apply_auth (key : string) : prog Io.Authorization :=
  token ← perform (TokenLookup key); ret (match token with Some t => Bearer t | None => NoAuth end).

(** What the retry loop sends. *)
Record CliRetry := MkCliRetry {
  cr_actions : string;
  cr_method : Method;
  cr_url : string;
  cr_accept : option string;
  cr_body : option bytes;
  cr_content_type : option string;
}.
Definition retry_headers (q : CliRetry) : list (string * string) :=
  match cr_accept q with Some v => [("accept", v)] | None => [] end ++
  match cr_content_type q with Some v => [("content-type", v)] | None => [] end.

(** One round: a response to return, or the error to remember. *)
Definition cli_retry_round (image : ImageRef) (q : CliRetry) (attempt : nat)
    : prog (RegistryError + UpResponse) :=
  let more := bool_decide (attempt < CLI_MAX_RETRIES) in
  _ ← match attempt with 0 => ret () | S n => cli_backoff n end;
  _ ← refuse (url_error (cr_url q));
  _ ← refuse_headers (retry_headers q);
  auth ← cli_apply_auth (cli_cache_key image (cr_actions q));
  sent ← perform (Send (MkCliRequest (cr_method q) (cr_url q) (retry_headers q) auth (cr_body q)));
  match sent with
  | inl (Retryable m) => if more then ret (inl (HttpError m)) else http_err m
  | inl (Fatal m) => http_err m
  | inr resp =>
      if bool_decide (ur_status resp = 401%N) && more then
        pbind (cli_refresh_auth image (cr_actions q)) (λ r,
          match r with
          | Panicked => Fin Panicked
          | Unfinished => Fin Unfinished
          | _ => ret (inl (HttpError [Lit "401 Unauthorized"]))
          end)
      else if cli_is_retryable (ur_status resp) && more then
        ret (inl (HttpError [Lit "HTTP "; Num (ur_status resp)]))
      else ret (inr resp)
  end.

(** [for attempt in 0..=MAX_RETRIES], from [attempt] on. *)
Fixpoint cli_retry_loop (rounds attempt : nat) (image : ImageRef) (q : CliRetry)
    (last_err : option RegistryError) : prog UpResponse :=
  match rounds with
  | 0 => throw (default (HttpError [Lit "max retries exceeded"]) last_err)
  | S rounds' =>
      r ← cli_retry_round image q attempt;
      match r with
      | inr resp => ret resp
      | inl e => cli_retry_loop rounds' (S attempt) image q (Some e)
      end
  end.
Definition cli_retry (image : ImageRef) (actions : string) (method : Method) (url : string)
    (accept : option string) (body : option bytes) (content_type : option string) : prog UpResponse :=
  cli_retry_loop (S CLI_MAX_RETRIES) 0 image (MkCliRetry actions method url accept body content_type) None.

Definition resolve_location (base location : string) : prog string :=
  if Str.starts_with "http://" location || Str.starts_with "https://" location then ret location
  else match parse_uri base with
  | None => Fin Panicked
  | Some (scheme, authority) =>
      ret (default "http" scheme +:+ "://" +:+ default "" authority +:+ location)
  end.

(** ** Manifests *)

(** The loop of [list_tags]: a page per round, until one is empty. *)
Fixpoint cli_tag_pages (pages : nat) (image : ImageRef) (last_tag : option string) (tags : list string)
    : prog (list string) :=
  match pages with
  | 0 => Fin Unfinished
  | S pages' =>
      let base := image_base_url image +:+ "/v2/" +:+ im_repository image +:+ "/tags/list?n=1000" in
      let url := match last_tag with Some l => base +:+ "&last=" +:+ l | None => base end in
      resp ← cli_retry image "pull" GET url (Some "application/json") None None;
      resp ← cli_error_for_status resp [Lit "list tags: "];
      body ← response_json resp "list tags json: ";
      let page := omap json_as_str (default [] (json_get body "tags" ≫= json_as_array)) in
      match page with
      | [] => ret tags
      | _ => cli_tag_pages pages' image (last page) (tags ++ page)
      end
  end.
Definition cli_list_tags (pages : nat) (image : ImageRef) : prog (list string) :=
  cli_tag_pages pages image None [].

Definition cli_manifest_url (image : ImageRef) (reference : string) : string :=
  image_base_url image +:+ "/v2/" +:+ im_repository image +:+ "/manifests/" +:+ reference.
Definition cli_blob_url (image : ImageRef) (digest : string) : string :=
  image_base_url image +:+ "/v2/" +:+ im_repository image +:+ "/blobs/" +:+ digest.

Definition cli_head_manifest (image : ImageRef) (reference : string) : prog (option (string * string)) :=
  resp ← cli_retry image "pull" HEAD (cli_manifest_url image reference) (Some CLI_MANIFEST_ACCEPT) None None;
  if bool_decide (ur_status resp = 200%N) then
    ret (Some (default "" (ur_headers resp !! "docker-content-digest"),
               default "application/octet-stream" (ur_headers resp !! "content-type")))
  else if bool_decide (ur_status resp = 404%N) then ret None
  else http_err [Lit "HEAD manifest "; Disp reference; Lit " failed: "; Num (ur_status resp)].

Definition cli_get_manifest (image : ImageRef) (reference : string) : prog ManifestData :=
  resp ← cli_retry image "pull" GET (cli_manifest_url image reference) (Some CLI_MANIFEST_ACCEPT) None None;
  resp ← cli_error_for_status resp [Lit "GET manifest "; Disp reference; Lit ": "];
  match collect (ur_body resp) with
  | inl m => http_err (Lit "GET manifest body: " :: m)
  | inr body =>
      ret (MkManifestData body
             (default "application/vnd.oci.image.manifest.v1+json" (ur_headers resp !! "content-type"))
             (default "" (ur_headers resp !! "docker-content-digest")))
  end.

(** The error of a request that was not answered as it should. *)
Definition unexpected {A} (what : message) (resp : UpResponse) : prog A :=
  http_err (what ++ [Num (ur_status resp); Lit " "; Disp (response_text (ur_body resp))]).

Definition cli_put_manifest (image : ImageRef) (reference : string) (body : bytes) (content_type : string) : prog () :=
  resp ← cli_retry image "push,pull" PUT (cli_manifest_url image reference) None (Some body) (Some content_type);
  if negb (bool_decide (ur_status resp = 201%N)) then
    unexpected [Lit "PUT manifest "; Disp reference; Lit " failed: "] resp
  else ret ().

(** ** Blobs *)

Definition cli_head_blob (image : ImageRef) (digest : string) : prog bool :=
  resp ← cli_retry image "pull" HEAD (cli_blob_url image digest) None None None;
  ret (bool_decide (ur_status resp = 200%N)).

Definition get_blob_stream (image : ImageRef) (digest : string) (offset : N) : prog UpResponse :=
  let url := cli_blob_url image digest in
  if bool_decide (0 < offset)%N then
    let headers := [("range", "bytes=" +:+ Str.of_u64 offset +:+ "-")] in
    _ ← refuse (url_error url);
    _ ← refuse_headers headers;
    auth ← cli_apply_auth (cli_cache_key image "pull");
    resp ← send (MkCliRequest GET url headers auth None);
    cli_error_for_status resp [Lit "GET blob "; Disp digest; Lit " from offset "; Num offset; Lit ": "]
  else
    resp ← cli_retry image "pull" GET url None None None;
    cli_error_for_status resp [Lit "GET blob "; Disp digest; Lit ": "].

Definition cli_start_upload (image : ImageRef) : prog string :=
  let url := image_base_url image +:+ "/v2/" +:+ im_repository image +:+ "/blobs/uploads/" in
  resp ← cli_retry image "push,pull" POST url None None None;
  if negb (bool_decide (ur_status resp = 202%N)) then unexpected [Lit "start upload failed: "] resp
  else match ur_headers resp !! "location" with
  | None => throw (ProtocolError [Lit "no Location header in upload start response"])
  | Some location => resolve_location (image_base_url image) location
  end.

(** The offset a [Range: 0-<end>] header acknowledges. *)
Definition acknowledged (resp : UpResponse) : option N :=
  range ← ur_headers resp !! "range";
  last_byte ← Str.strip_prefix "0-" range ≫= Str.parse_u64;
  Some (U64.add last_byte 1).

Definition patch_chunk (image : ImageRef) (upload_url : string) (chunk : bytes) (offset : N) : prog (string * N) :=
  let chunk_len := N.of_nat (length chunk) in
  (** [offset + chunk_len - 1], wrapping. *)
  let last_byte := U64.wrap (offset + chunk_len + U64.max) in
  let headers := [("content-type", "application/octet-stream");
                  ("content-range", Str.of_u64 offset +:+ "-" +:+ Str.of_u64 last_byte);
                  ("content-length", Str.of_u64 chunk_len)] in
  _ ← refuse (url_error upload_url);
  _ ← refuse_headers headers;
  auth ← cli_apply_auth (cli_cache_key image "push,pull");
  resp ← send (MkCliRequest PATCH upload_url headers auth (Some chunk));
  if negb (bool_decide (ur_status resp = 202%N)) then
    unexpected [Lit "PATCH chunk failed at offset "; Num offset; Lit ": "] resp
  else
    new_location ← match ur_headers resp !! "location" with
                   | Some l => resolve_location (image_base_url image) l
                   | None => ret upload_url
                   end;
    ret (new_location, default (U64.add offset chunk_len) (acknowledged resp)).

Definition cli_complete_upload (image : ImageRef) (upload_url digest : string) : prog () :=
  let url := upload_url +:+ (if Str.contains_char "?" upload_url then "&digest=" else "?digest=") +:+ digest in
  let headers := [("content-length", "0")] in
  _ ← refuse (url_error url);
  _ ← refuse_headers headers;
  auth ← cli_apply_auth (cli_cache_key image "push,pull");
  resp ← send (MkCliRequest PUT url headers auth None);
  if negb (bool_decide (ur_status resp = 201%N)) then unexpected [Lit "complete upload failed: "] resp
  else ret ().

(** ** Manifest bodies *)

Definition cli_descriptor (v : Value) : option BlobDescriptor :=
  digest ← json_get v "digest" ≫= json_as_str;
  size ← json_get v "size" ≫= json_as_u64;
  Some (MkBlobDescriptor digest size).

Definition cli_extract_blob_descriptors (manifest : Value) : list BlobDescriptor :=
  match json_get manifest "config" ≫= cli_descriptor with Some d => [d] | None => [] end ++
  omap cli_descriptor (default [] (json_get manifest "layers" ≫= json_as_array)).

Definition cli_extract_child_manifests (index : Value) : list BlobDescriptor :=
  omap cli_descriptor (default [] (json_get index "manifests" ≫= json_as_array)).
End client.

(** * References are read back as they are shown *)

Lemma rsplit_once_last c x y :
  Str.contains_char c y = false → Str.rsplit_once c (x +:+ String c y) = Some (x, y).
Proof.
  intros Hy. assert (∀ z, Str.contains_char c z = false → Str.rsplit_once c z = None) as Hnone.
  { induction z as [|a z IH]; [done|]. rewrite contains_char_cons. intros [Ha Hz]%orb_false_iff.
    simpl. rewrite IH by done. case_decide; [|done]. subst. by rewrite bool_decide_true in Ha. }
  induction x as [|a x IH].
  - rewrite app_nil_l_str. simpl. rewrite Hnone by done. by rewrite decide_True.
  - rewrite app_cons. simpl. by rewrite IH.
Qed.
Lemma rsplit_once_Some c s x y :
  Str.rsplit_once c s = Some (x, y) → s = x +:+ String c y ∧ Str.contains_char c y = false.
Proof.
  revert x. induction s as [|a s IH]; intros x; simpl; [done|].
  destruct (Str.rsplit_once c s) as [[x' y']|] eqn:E.
  - intros [= <- <-]. by destruct (IH x' eq_refl) as [-> ?].
  - case_decide; intros [= <- <-]. subst. split; [done|]. clear IH.
    induction s as [|b s IH]; [done|]. rewrite contains_char_cons. simpl in E.
    destruct (Str.rsplit_once c s) as [[? ?]|]; [done|]. case_decide; [done|].
    rewrite bool_decide_false by done. by apply IH.
Qed.
Lemma rsplit_once_None c s : Str.rsplit_once c s = None ↔ Str.contains_char c s = false.
Proof.
  split.
  - induction s as [|a s IH]; [done|]. simpl. rewrite contains_char_cons.
    destruct (Str.rsplit_once c s) as [[? ?]|]; [done|]. case_decide; [done|]. intros _.
    rewrite bool_decide_false by done. by apply IH.
  - intros H. destruct (Str.rsplit_once c s) as [[x y]|] eqn:E; [|done].
    apply rsplit_once_Some in E as [-> _]. rewrite contains_char_app, contains_char_cons in H.
    rewrite bool_decide_true in H by done. by rewrite orb_true_r in H.
Qed.

(** A host as [image_host] recognises it. *)
Definition host_like (h : string) : bool :=
  negb (Str.contains_char "/" h) &&
  (Str.contains_char "." h || Str.contains_char ":" h || bool_decide (h = "localhost")).

Lemma image_host_app h rest : host_like h = true → image_host (h +:+ "/" +:+ rest) = (h, rest).
Proof.
  unfold host_like. intros [Hs%negb_true_iff Hh]%andb_true_iff. unfold image_host.
  assert (Str.split_once "/" (h +:+ "/" +:+ rest) = Some (h, rest)) as ->
    by (apply split_once_Some; done).
  by rewrite Hh.
Qed.
Lemma image_host_like s : host_like (image_host s).1 = true.
Proof.
  unfold image_host. destruct (Str.split_once "/" s) as [[x y]|] eqn:E; [|done].
  destruct (_ || _) eqn:H; [|done]. unfold host_like. simpl. rewrite H.
  apply split_once_Some in E as [-> ->]. done.
Qed.

Definition last_segment (s : string) : string :=
  match Str.rsplit_once "/" s with Some (_, y) => y | None => s end.
Lemma last_segment_app x y : Str.contains_char "/" y = false → last_segment (x +:+ String "/" y) = y.
Proof. intros H. unfold last_segment. by rewrite rsplit_once_last. Qed.

(** How the reference of a remainder comes about. *)
Inductive reference_shape (remainder repo : string) : option string → Prop :=
  | ShapeDigest r :
      Str.contains_char "@" repo = false → remainder = repo +:+ String "@" r →
      reference_shape remainder repo (Some r)
  | ShapeTag r :
      Str.contains_char "@" remainder = false → remainder = repo +:+ String ":" r →
      Str.contains_char "/" r = false → Str.contains_char ":" r = false →
      reference_shape remainder repo (Some r)
  | ShapeNone :
      Str.contains_char "@" remainder = false → repo = remainder →
      Str.contains_char ":" (last_segment remainder) = false →
      reference_shape remainder repo None.

Lemma image_reference_shape remainder repo reference :
  image_reference remainder = (repo, reference) ↔ reference_shape remainder repo reference.
Proof.
  unfold image_reference. split.
  - destruct (Str.split_once "@" remainder) as [[x y]|] eqn:E.
    { intros [= <- <-]. apply split_once_Some in E as [-> ?]. by constructor. }
    apply split_once_None in E.
    destruct (Str.rsplit_once "/" remainder) as [[b t]|] eqn:Es.
    + pose proof Es as [-> Ht]%rsplit_once_Some.
      destruct (Str.rsplit_once ":" ("/" +:+ t)) as [[x y]|] eqn:Ec; intros [= <- <-].
      * apply rsplit_once_Some in Ec as [Hx Hy].
        change ("/" +:+ t) with (String "/" t) in Hx.
        destruct x as [|a x]; [done|]. rewrite app_cons in Hx. injection Hx as <- ->.
        rewrite contains_char_app, contains_char_cons in Ht. apply orb_false_iff in Ht as [_ Ht].
        apply orb_false_iff in Ht as [_ Ht]. apply ShapeTag; [done| |done..]. by rewrite app_assoc_str.
      * constructor; [done..|]. unfold last_segment. rewrite Es.
        apply rsplit_once_None in Ec. by rewrite contains_char_app, contains_char_cons in Ec.
    + destruct (Str.rsplit_once ":" remainder) as [[x y]|] eqn:Ec; intros [= <- <-].
      * apply rsplit_once_Some in Ec as [-> Hy]. apply rsplit_once_None in Es.
        rewrite contains_char_app, contains_char_cons in Es.
        apply orb_false_iff in Es as [_ Es]. apply orb_false_iff in Es as [_ Es]. by apply ShapeTag.
      * constructor; [done..|]. unfold last_segment. rewrite Es. by apply rsplit_once_None.
  - intros [r Hr ->|r Ha -> Hs Hc|Ha -> Hc].
    + by rewrite (proj2 (split_once_Some "@" _ repo r)).
    + apply split_once_None in Ha as ->.
      destruct (Str.rsplit_once "/" repo) as [[b t]|] eqn:Es.
      * apply rsplit_once_Some in Es as [-> Ht].
        rewrite app_assoc_str, app_cons, rsplit_once_last by
          (by rewrite contains_char_app, contains_char_cons, Ht).
        change ("/" +:+ (t +:+ String ":" r)) with (String "/" t +:+ String ":" r).
        by rewrite rsplit_once_last.
      * apply rsplit_once_None in Es.
        rewrite (proj2 (rsplit_once_None "/" (repo +:+ String ":" r))), rsplit_once_last
          by (by rewrite ?contains_char_app, ?contains_char_cons, ?Es). done.
    + apply split_once_None in Ha as ->. unfold last_segment in Hc.
      destruct (Str.rsplit_once "/" remainder) as [[b t]|] eqn:Es.
      * rewrite (proj2 (rsplit_once_None ":" ("/" +:+ t))); [done|]. by rewrite contains_char_app, Hc.
      * by apply rsplit_once_None in Hc as ->.
Qed.

(** The repository a reference is resolved to. *)
Definition resolved_repository (host repo : string) : string :=
  if bool_decide (host = "docker.io" ∨ host = "registry-1.docker.io") && negb (Str.contains_char "/" repo)
  then "library/" +:+ repo else repo.

(** A reference that can be told apart from a repository: a digest, or a tag. *)
Definition showable (r : string) : bool :=
  Str.contains_char ":" r || negb (Str.contains_char "/" r || Str.contains_char "@" r).

(** What an image shows after its registry. *)
Definition shown_path (repository : string) (reference : option string) : string :=
  match reference with
  | Some r => repository +:+ String (if Str.contains_char ":" r then "@"%char else ":"%char) r
  | None => repository
  end.
Lemma image_display_path image :
  image_display image = im_registry image +:+ "/" +:+ shown_path (im_repository image) (im_reference image).
Proof. unfold image_display, shown_path. by destruct (im_reference image) as [r|]; [destruct (Str.contains_char ":" r)|]. Qed.

Lemma resolved_no_at host repo :
  Str.contains_char "@" repo = false → Str.contains_char "@" (resolved_repository host repo) = false.
Proof. intros H. unfold resolved_repository. case_match; [|done]. by rewrite contains_char_app, H. Qed.

Lemma shown_path_shape host remainder repo reference :
  reference_shape remainder repo reference → (∀ r, reference = Some r → showable r = true) →
  reference_shape (shown_path (resolved_repository host repo) reference) (resolved_repository host repo) reference.
Proof.
  intros Hshape Hshow.
  assert (Str.contains_char "@" repo = false) as Hat.
  { destruct Hshape as [r H ->|r H -> _ _|H -> _]; [done| |done].
    rewrite contains_char_app in H. by apply orb_false_iff in H as [? _]. }
  pose proof (resolved_no_at host repo Hat) as Hat'. unfold shown_path.
  destruct Hshape as [r _ ->|r Ha -> Hs Hc|Ha -> Hc].
  - specialize (Hshow r eq_refl). unfold showable in Hshow.
    destruct (Str.contains_char ":" r) eqn:Ec; [by constructor|].
    simpl in Hshow. apply negb_true_iff, orb_false_iff in Hshow as [? Hr].
    apply ShapeTag; [|done..]. by rewrite contains_char_app, contains_char_cons, Hat', Hr.
  - rewrite Hc. apply ShapeTag; [|done..]. rewrite contains_char_app, contains_char_cons in Ha |- *.
    apply orb_false_iff in Ha as [_ Ha]. apply orb_false_iff in Ha as [_ Ha]. by rewrite Hat', Ha.
  - constructor; [done..|]. unfold resolved_repository in *. case_match eqn:E; [|done].
    apply andb_true_iff in E as [_ E%negb_true_iff].
    change ("library/" +:+ remainder) with ("library" +:+ String "/" remainder).
    rewrite last_segment_app by done. unfold last_segment in Hc.
    by rewrite (proj2 (rsplit_once_None "/" remainder)) in Hc.
Qed.

Definition resolved_registry (host : string) : string :=
  if bool_decide (host = "docker.io") then "registry-1.docker.io" else host.
Definition resolved_scheme (plain_http : bool) (registry : string) : string :=
  if plain_http then "http"
  else if is_loopback_name (default registry (head (Str.split ":" registry))) then "http" else "https".
Lemma ImageRef_parse_eq s plain_http host remainder repo reference :
  image_host s = (host, remainder) → image_reference remainder = (repo, reference) →
  ImageRef_parse s plain_http =
    MkImageRef (resolved_registry host) (resolved_repository host repo) reference
      (resolved_scheme plain_http (resolved_registry host)).
Proof. intros H1 H2. unfold ImageRef_parse. by rewrite H1, H2. Qed.

Lemma resolved_registry_idem host : resolved_registry (resolved_registry host) = resolved_registry host.
Proof. unfold resolved_registry. repeat case_bool_decide; naive_solver. Qed.
Lemma resolved_registry_like host : host_like host = true → host_like (resolved_registry host) = true.
Proof. unfold resolved_registry. by case_bool_decide. Qed.
Lemma resolved_repository_idem host repo :
  resolved_repository (resolved_registry host) (resolved_repository host repo) = resolved_repository host repo.
Proof.
  unfold resolved_repository at 2 3. destruct (_ && _) eqn:E.
  - unfold resolved_repository. rewrite contains_char_app. by rewrite andb_false_r.
  - unfold resolved_repository, resolved_registry. destruct (decide (host = "docker.io")) as [->|Hd].
    + simpl in E |- *. by rewrite E.
    + rewrite (bool_decide_false (host = "docker.io")) by done. by rewrite E.
Qed.

(** C40: A reference that is shown (in the messages of a run) can be given back to the
    command line: it is read as the same registry, repository, tag or digest, and
    scheme, for every input whose part after an [@] is a digest or a plain tag. *)
Theorem image_ref_roundtrip s plain_http :
  (∀ r, im_reference (ImageRef_parse s plain_http) = Some r → showable r = true) →
  ImageRef_parse (image_display (ImageRef_parse s plain_http)) plain_http = ImageRef_parse s plain_http.
Proof.
  pose proof (image_host_like s) as Hlike. destruct (image_host s) as [host remainder] eqn:Eh.
  destruct (image_reference remainder) as [repo reference] eqn:Er.
  rewrite (ImageRef_parse_eq _ _ _ _ _ _ Eh Er), image_display_path. cbn [im_reference im_registry im_repository].
  apply image_reference_shape in Er. intros Hshow.
  erewrite ImageRef_parse_eq; [|by apply image_host_app, resolved_registry_like|
    by apply image_reference_shape, (shown_path_shape host _ _ _ Er)].
  by rewrite resolved_registry_idem, resolved_repository_idem.
Qed.

Lemma image_ref_roundtrip_witness :
  ImageRef_parse "docker.io/library/alpine:3.20" false =
    MkImageRef "registry-1.docker.io" "library/alpine" (Some "3.20") "https" ∧
  ImageRef_parse (image_display (ImageRef_parse "alpine@sha256:ab" false)) false =
    ImageRef_parse "alpine@sha256:ab" false.
Proof.
  split; [reflexivity|]. apply (image_ref_roundtrip "alpine@sha256:ab" false).
  intros r H. vm_compute in H. by injection H as <-.
Defined.

(** A reference with a tag and a digest keeps the tag as part of the repository. *)
Example tag_and_digest_joined :
  im_repository (ImageRef_parse "quay.io/team/app:1.2@sha256:ab" false) = "team/app:1.2".
Proof. reflexivity. Qed.
