(* ===== verification/CtlMirror.v ===== *)
(** Copying images between registries on the command line
    (crates/layerhouse-ctl/src/mirror.rs): the blobs of a manifest are sent by a pool of
    tasks that share a semaphore, chunk by chunk, and a manifest after its blobs.

    The tasks are programs of [CtlRegistry]; the mirror is a program whose effects are
    those of the client and [Join], which spawns tasks and waits for them in order.
    [pool_step] interleaves the tasks; [happens p tr r] says that the mirror may end with
    [r] after the requests and answers in [tr]. *)

From Stdlib Require Import Ascii.
From stdpp Require Import options.
From S2P Require Import Prelude Errors Digests Manifests Permissions SyncRuns Types StateMachine S3Client Io Upstream Samples CtlRegistry.

Definition MAX_SOURCE_RETRIES : nat := 5.

Record MirrorOptions := MkMirrorOptions { mo_concurrency : N; mo_all_tags : bool }.

(** [&digest[..19]], which panics inside a character. *)
Definition is_continuation (a : ascii) : bool := Str.in_range (ascii_of_nat 128) (ascii_of_nat 191) a.
Definition short_digest (digest : string) : outcome string :=
  if bool_decide (19 < String.length digest) then
    match String.get 19 digest with
    | Some a => if is_continuation a then Panicked else Done (String.substring 0 19 digest)
    | None => Done digest
    end
  else Done digest.

(** * One blob *)

Section blob.
Context `{SJ : SerdeJson, HL : HttpLib}.
Context (response_text : list (message + bytes) → string).
Context (parse_uri : string → option (option string * option string)).

Definition patch := patch_chunk response_text parse_uri.

(** [while buffer.len() >= CHUNK_SIZE], which takes [buffer.len() / CHUNK_SIZE] rounds. *)
Fixpoint send_chunks (rounds : nat) (dst : ImageRef) (current_url : string) (bytes_sent : N) (buffer : bytes)
    : prog (string * N * bytes) :=
  match rounds with
  | 0 => ret (current_url, bytes_sent, buffer)
  | S rounds' =>
      let to_send := take (N.to_nat CHUNK_SIZE) buffer in
      '(new_url, new_offset) ← patch dst current_url to_send bytes_sent;
      send_chunks rounds' dst new_url new_offset (drop (N.to_nat CHUNK_SIZE) buffer)
  end.
Definition full_chunks (buffer : bytes) : nat := N.to_nat (N.of_nat (length buffer) / CHUNK_SIZE).

(** [if !buffer.is_empty()]: what is left is sent. *)
Definition flush (dst : ImageRef) (current_url : string) (bytes_sent : N) (buffer : bytes) : prog (string * N) :=
  match buffer with
  | [] => ret (current_url, bytes_sent)
  | _ => patch dst current_url buffer bytes_sent
  end.

(** How reading a stream ends: it is resumed ([continue 'outer]), or it was complete. *)
Inductive stream_end :=
  | Resume (current_url : string) (bytes_sent : N) (source_retries : nat)
  | Complete (current_url : string).

(** The inner loop, over what the stream yields. *)
Fixpoint read_stream (stream : list (message + bytes)) (dst : ImageRef) (current_url : string)
    (bytes_sent : N) (source_retries : nat) (buffer : bytes) : prog stream_end :=
  match stream with
  | inr chunk :: stream' =>
      let buffer := buffer ++ chunk in
      '(current_url, bytes_sent, buffer) ← send_chunks (full_chunks buffer) dst current_url bytes_sent buffer;
      read_stream stream' dst current_url bytes_sent 0 buffer
  | inl e :: _ =>
      let source_retries := S source_retries in
      if bool_decide (MAX_SOURCE_RETRIES < source_retries) then
        http_err (Lit "source stream failed after " :: Num (N.of_nat MAX_SOURCE_RETRIES) :: Lit " retries: " :: e)
      else
        '(current_url, bytes_sent) ← flush dst current_url bytes_sent buffer;
        _ ← perform (Wait (200 * 2 ^ N.of_nat (source_retries - 1)));
        ret (Resume current_url bytes_sent source_retries)
  | [] =>
      '(current_url, _) ← flush dst current_url bytes_sent buffer;
      ret (Complete current_url)
  end.

(** [while bytes_sent < size], opening the source at most [opens] times. *)
Fixpoint transfer_loop (opens : nat) (src dst : ImageRef) (digest : string) (size : N)
    (current_url : string) (bytes_sent : N) (source_retries : nat) : prog string :=
  if negb (bool_decide (bytes_sent < size)%N) then ret current_url
  else match opens with
  | 0 => Fin Unfinished
  | S opens' =>
      resp ← get_blob_stream src digest bytes_sent;
      r ← read_stream (ur_body resp) dst current_url bytes_sent source_retries [];
      match r with
      | Complete current_url => ret current_url
      | Resume current_url bytes_sent source_retries =>
          transfer_loop opens' src dst digest size current_url bytes_sent source_retries
      end
  end.

Definition transfer_single_blob (opens : nat) (src dst : ImageRef) (digest : string) (size : N) : prog () :=
  _ ← Fin (short_digest digest);
  present ← cli_head_blob dst digest;
  if (present : bool) then perform (Count BlobSkipped)
  else
    upload_url ← cli_start_upload response_text parse_uri dst;
    current_url ← transfer_loop opens src dst digest size upload_url 0 0;
    _ ← cli_complete_upload response_text dst current_url digest;
    perform (Count (BlobTransferred size)).
End blob.

(** * Tasks *)

Inductive mevent :=
  | Base (e : event)
  | Join (permits : N) (tasks : list (prog ())).
Definition manswer (e : mevent) : Type :=
  match e with Base e => answer e | Join _ _ => outcome () end.
Abbreviation mprog := (tree manswer).

Fixpoint embed {A} (p : prog A) : mprog A :=
  match p with Fin r => Fin r | Eff e k => Eff (Base e) (λ a, embed (k a)) end.

(** A spawned task: waiting for a permit, running, or ended. *)
Inductive task := Waiting (p : prog ()) | Running (p : prog ()) | Ended (r : outcome ()).
Definition is_running (t : task) : bool := match t with Running _ => true | _ => false end.
Definition running (ts : list task) : N := N.of_nat (length (filter (λ t, is_running t = true) ts)).

Inductive pool_step (permits : N) : list task → trace → list task → Prop :=
  | StepAcquire ts i p :
      ts !! i = Some (Waiting p) → (running ts < permits)%N →
      pool_step permits ts [] (<[i := Running p]> ts)
  | StepEffect ts i e k a :
      ts !! i = Some (Running (Eff e k)) →
      pool_step permits ts [existT e a] (<[i := Running (k a)]> ts)
  | StepEnd ts i r :
      ts !! i = Some (Running (Fin r)) →
      pool_step permits ts [] (<[i := Ended r]> ts).

Inductive pool_steps (permits : N) : list task → trace → list task → Prop :=
  | StepsRefl ts : pool_steps permits ts [] ts
  | StepsCons ts1 ts2 ts3 tr1 tr2 :
      pool_step permits ts1 tr1 ts2 → pool_steps permits ts2 tr2 ts3 →
      pool_steps permits ts1 (tr1 ++ tr2) ts3.

(** [for task in tasks { task.await ... }]: the first error, once the tasks before it
    have ended; [None] while it waits. *)
Fixpoint join_outcome (ts : list task) : option (outcome ()) :=
  match ts with
  | [] => Some (Done ())
  | Ended (Done _) :: ts' => join_outcome ts'
  | Ended (Failed e) :: _ => Some (Failed e)
  | Ended Panicked :: _ => Some (Failed (HttpError [Lit "task join: "]))
  | Ended Unfinished :: _ => Some Unfinished
  | (Waiting _ | Running _) :: _ => None
  end.

Definition joins (permits : N) (tasks : list (prog ())) (tr : trace) (o : outcome ()) : Prop :=
  ∃ ts, pool_steps permits (Waiting <$> tasks) tr ts ∧ join_outcome ts = Some o.

(** The requests behind an effect of the mirror, and behind a run. *)
Definition behind (x : { e : mevent & manswer e }) (tr : trace) : Prop :=
  let 'existT e a := x in
  match e return manswer e → Prop with
  | Base e => λ a, tr = [existT e a]
  | Join permits tasks => λ o, joins permits tasks tr o
  end a.
Fixpoint flattens (mtr : log manswer) (tr : trace) : Prop :=
  match mtr with
  | [] => tr = []
  | x :: mtr' => ∃ tr1 tr2, tr = tr1 ++ tr2 ∧ behind x tr1 ∧ flattens mtr' tr2
  end.

Definition happens {A} (p : mprog A) (tr : trace) (r : outcome A) : Prop :=
  ∃ mtr, runs p mtr r ∧ flattens mtr tr.

(** * Images *)

Section image.
Context `{SJ : SerdeJson, HL : HttpLib}.
Context (response_text : list (message + bytes) → string).
Context (parse_uri : string → option (option string * option string)).
(** The bounds of the loops a registry decides: openings of a source, and nesting. *)
Context (opens : nat).

Definition transfer_blobs (permits : N) (src dst : ImageRef) (blobs : list BlobDescriptor) : mprog () :=
  Eff (Join permits
         ((λ b, transfer_single_blob response_text parse_uri opens src dst (bd_digest b) (bd_size b)) <$> blobs))
      (λ o, Fin o).

(** [for child in &children]. *)
Fixpoint for_children (children : list BlobDescriptor) (f : BlobDescriptor → mprog ()) : mprog () :=
  match children with
  | [] => ret ()
  | child :: children' => _ ← f child; for_children children' f
  end.

Fixpoint mirror_manifest (depth : nat) (permits : N) (src dst : ImageRef) (manifest : ManifestData)
    (reference : string) (is_tag : bool) : mprog () :=
  match depth with
  | 0 => Fin Unfinished
  | S depth' =>
      match from_slice (md_body manifest) with
      | None => throw (ProtocolError [Lit "invalid manifest JSON: "])
      | Some parsed =>
          _ ← if is_index_manifest (md_content_type manifest) then
                for_children (cli_extract_child_manifests parsed) (λ child,
                  known ← embed (cli_head_manifest dst (bd_digest child));
                  match known with
                  | Some _ => ret ()
                  | None =>
                      child_manifest ← embed (cli_get_manifest src (bd_digest child));
                      mirror_manifest depth' permits src dst child_manifest (bd_digest child) false
                  end)
              else transfer_blobs permits src dst (cli_extract_blob_descriptors parsed);
          let push_ref := if is_tag then reference else md_digest manifest in
          _ ← embed (cli_put_manifest response_text dst push_ref (md_body manifest) (md_content_type manifest));
          _ ← perform (Base (Count ManifestPushed));
          _ ← Fin (short_digest (md_digest manifest));
          ret ()
      end
  end.

Definition mirror_tag (depth : nat) (permits : N) (src dst : ImageRef) (tag : string) : mprog () :=
  src_head ← embed (cli_head_manifest src tag);
  match src_head with
  | None => ret ()
  | Some (src_digest, _) =>
      dst_head ← embed (cli_head_manifest dst tag);
      match dst_head with
      | Some (dst_digest, _) =>
          if bool_decide (src_digest = dst_digest) then _ ← Fin (short_digest src_digest); ret ()
          else manifest ← embed (cli_get_manifest src tag); mirror_manifest depth permits src dst manifest tag true
      | None => manifest ← embed (cli_get_manifest src tag); mirror_manifest depth permits src dst manifest tag true
      end
  end.

Fixpoint mirror_tags (depth : nat) (permits : N) (src dst : ImageRef) (tags : list string) : mprog () :=
  match tags with
  | [] => ret ()
  | tag :: tags' =>
      _ ← map_err (mirror_tag depth permits src dst tag) (λ e, error_context e [Lit "mirror tag "; Disp tag]);
      mirror_tags depth permits src dst tags'
  end.

(** [Semaphore::MAX_PERMITS]: a larger semaphore is a panic. *)
Definition MAX_PERMITS : N := 2 ^ 61 - 1.

Definition mirror (pages depth : nat) (src dst : ImageRef) (opts : MirrorOptions) : mprog () :=
  _ ← map_err (embed (cli_ensure_auth src "pull")) (λ e, error_context e [Lit "source auth"]);
  _ ← map_err (embed (cli_ensure_auth dst "push,pull")) (λ e, error_context e [Lit "destination auth"]);
  tags ← if mo_all_tags opts then
           map_err (embed (cli_list_tags pages src)) (λ e, error_context e [Lit "list source tags"])
         else match im_reference src with
         | Some tag => ret [tag]
         | None => throw (ProtocolError [Lit "source must specify a tag or digest (or use --all)"])
         end;
  if mo_all_tags opts && bool_decide (tags = []) then ret ()
  else if bool_decide (MAX_PERMITS < mo_concurrency opts)%N then Fin Panicked
  else mirror_tags depth (mo_concurrency opts) src dst tags.
End image.

(** * The command *)

Section command.
Context `{SJ : SerdeJson, HL : HttpLib}.
Context (response_text : list (message + bytes) → string).
Context (parse_uri : string → option (option string * option string)).

(** [Commands::Mirror] of the entry point. *)
Definition run_mirror (opens pages depth : nat) (source destination : string) (concurrency : N)
    (all plain_http : bool) : mprog () :=
  mirror response_text parse_uri opens pages depth
    (ImageRef_parse source plain_http) (ImageRef_parse destination plain_http)
    (MkMirrorOptions concurrency all).
End command.

(** * What a transfer sends *)

(** The bytes of an accepted chunk. *)
Definition accepted_chunk (x : { e : event & answer e }) : option (bytes * UpResponse) :=
  let 'existT e a := x in
  match e return answer e → option (bytes * UpResponse) with
  | Send q => λ a,
      match cq_method q, cq_body q, a with
      | PATCH, Some body, inr resp => if bool_decide (ur_status resp = 202%N) then Some (body, resp) else None
      | _, _, _ => None
      end
  | _ => λ _, None
  end a.
Definition uploaded (tr : trace) : bytes := concat (fst <$> omap accepted_chunk tr).

(** A destination that appends the chunks it accepts and acknowledges what it holds, if
    it does acknowledge. *)
Fixpoint honest_destination (held : bytes) (tr : trace) : Prop :=
  match tr with
  | [] => True
  | x :: tr' =>
      match accepted_chunk x with
      | Some (body, resp) =>
          (∀ n, acknowledged resp = Some n → n = N.of_nat (length (held ++ body))) ∧
          honest_destination (held ++ body) tr'
      | None => honest_destination held tr'
      end
  end.

(** A stream that yields [rest], unless it breaks off. *)
Fixpoint delivers (rest : bytes) (stream : list (message + bytes)) : Prop :=
  match stream with
  | [] => rest = []
  | inr chunk :: stream' => ∃ rest', rest = chunk ++ rest' ∧ delivers rest' stream'
  | inl _ :: _ => True
  end.
Definition range_headers (offset : N) : list (string * string) :=
  if bool_decide (0 < offset)%N then [("range", "bytes=" +:+ Str.of_u64 offset +:+ "-")] else [].
(** A source that serves the content of a blob from the offset it is asked for, and
    whose stream does not end early without an error. The code relies on it: it takes
    any answer that is not an error for one that honours [Range] (see
    [ignored_range_duplicates]). *)
Definition honest_source (src : ImageRef) (digest : string) (blob : bytes) (tr : trace) : Prop :=
  ∀ offset auth resp,
    existT (Send (MkCliRequest GET (cli_blob_url src digest) (range_headers offset) auth None)) (inr resp) ∈ tr →
    (¬ 400 ≤ ur_status resp < 600)%N → delivers (drop (N.to_nat offset) blob) (ur_body resp).

Lemma uploaded_app tr1 tr2 : uploaded (tr1 ++ tr2) = uploaded tr1 ++ uploaded tr2.
Proof. unfold uploaded. by rewrite omap_app, fmap_app, concat_app. Qed.
Lemma uploaded_cons x tr :
  uploaded (x :: tr) = match accepted_chunk x with Some (body, _) => body | None => [] end ++ uploaded tr.
Proof. unfold uploaded. simpl. by destruct (accepted_chunk x) as [[body resp]|]. Qed.
Lemma honest_destination_app held tr1 tr2 :
  honest_destination held (tr1 ++ tr2) ↔
  honest_destination held tr1 ∧ honest_destination (held ++ uploaded tr1) tr2.
Proof.
  revert held. induction tr1 as [|x tr1 IH]; intros held; simpl.
  { change (uploaded []) with (@nil Byte.byte). rewrite app_nil_r. tauto. }
  rewrite uploaded_cons. destruct (accepted_chunk x) as [[body resp]|]; rewrite IH; simpl.
  - rewrite <-app_assoc. tauto.
  - done.
Qed.
Lemma honest_source_app src digest blob tr1 tr2 :
  honest_source src digest blob (tr1 ++ tr2) ↔
  honest_source src digest blob tr1 ∧ honest_source src digest blob tr2.
Proof. unfold honest_source. set_solver. Qed.

(** Requests that send no chunk. *)
Definition no_patch (e : event) : Prop := match e with Send q => cq_method q ≠ PATCH | _ => True end.
Lemma no_patch_uploaded (tr : trace) : Forall (λ x, no_patch (projT1 x)) tr → uploaded tr = [].
Proof.
  induction 1 as [|[e a] tr Hx _ IH]; [done|]. rewrite uploaded_cons, IH, app_nil_r.
  destruct e as [q| | | | |]; try done. simpl in *. by destruct (cq_method q).
Qed.

(** The effects of the client's operations, by walking through them. *)
Ltac walk :=
  repeat first
    [ done
    | progress intros
    | progress cbv zeta
    | apply only_pbind
    | apply only_bind
    | match goal with
      | |- _ ∧ _ => split
      | |- only _ (Fin _) => exact I
      | |- only _ (ret _) => exact I
      | |- only _ (throw _) => exact I
      | |- only _ (http_err _) => exact I
      | |- only _ (match ?x with _ => _ end) => destruct x
      | |- only _ (if ?x then _ else _) => destruct x
      | |- only _ (let '(_, _) := ?x in _) => destruct x
      end ].

Section effects.
Context `{SJ : SerdeJson, HL : HttpLib}.
Context (response_text : list (message + bytes) → string).
Context (parse_uri : string → option (option string * option string)).
Context (P : event → Prop).
(** What holds of every effect but sending, and of the requests for tokens. *)
Context (P_wait : ∀ ms, P (Wait ms)) (P_lookup : ∀ key, P (TokenLookup key)).
Context (P_insert : ∀ key t, P (TokenInsert key t)) (P_drop : ∀ key, P (TokenDrop key)).
Context (P_token : ∀ url, P (Send (MkCliRequest GET url [] NoAuth None))).

Lemma only_refuse e : only P (refuse e).
Proof. by destruct e. Qed.
Lemma only_refuse_headers hs : only P (refuse_headers hs).
Proof. induction hs as [|[k v] hs IH]; simpl; [done|]. apply only_bind; [apply only_refuse|done]. Qed.
Lemma only_perform e : P e → only P (perform (ans := answer) e).
Proof. done. Qed.
Lemma only_send q : P (Send q) → only P (send q).
Proof. intros H. split; [done|]. by intros [e|resp]. Qed.
Lemma only_status resp m : only P (cli_error_for_status resp m).
Proof. unfold cli_error_for_status. by case_match. Qed.
Lemma only_json resp s : only P (response_json resp s).
Proof. unfold response_json. by repeat case_match. Qed.
Lemma only_apply_auth key : only P (cli_apply_auth key).
Proof using P_lookup. unfold cli_apply_auth. by walk. Qed.
Lemma only_resolve base location : only P (resolve_location parse_uri base location).
Proof. unfold resolve_location. walk. Qed.

Hint Resolve only_refuse only_refuse_headers only_perform only_send only_status only_json
  only_apply_auth only_resolve : core.

Lemma only_ensure_auth image actions : only P (cli_ensure_auth image actions).
Proof using P_wait P_lookup P_insert P_drop P_token.
  unfold cli_ensure_auth, cli_fetch_token. walk; auto.
Qed.
Lemma only_retry image actions method url accept body content_type :
  (∀ auth, P (Send (MkCliRequest method url
     (retry_headers (MkCliRetry actions method url accept body content_type)) auth body))) →
  only P (cli_retry image actions method url accept body content_type).
Proof using P_wait P_lookup P_insert P_drop P_token.
  intros HP. unfold cli_retry. generalize (S CLI_MAX_RETRIES) at 1. intros rounds.
  generalize 0. generalize (@None RegistryError). induction rounds as [|rounds IH]; intros err attempt; [done|].
  simpl. apply only_bind; [|intros [e|resp]; [apply IH|done]].
  unfold cli_retry_round, cli_refresh_auth. walk; auto using only_ensure_auth.
Qed.
End effects.

(** The client's operations as the pieces of a walk. *)
Ltac pieces :=
  walk; try first
    [ apply only_refuse | apply only_refuse_headers | apply only_status | apply only_json
    | apply only_resolve | by apply only_apply_auth | by apply only_send | by apply only_retry
    | by apply only_perform ].

Section answers.
Context `{SJ : SerdeJson, HL : HttpLib}.

(** The answer of a request under retry is the answer to one of its attempts. *)
Lemma retry_Done image actions method url accept body content_type tr resp :
  runs (cli_retry image actions method url accept body content_type) tr (Done resp) →
  ∃ auth, existT (Send (MkCliRequest method url
    (retry_headers (MkCliRetry actions method url accept body content_type)) auth body)) (inr resp) ∈ tr.
Proof.
  unfold cli_retry. generalize (S CLI_MAX_RETRIES) at 1. intros rounds. set (q := MkCliRetry _ _ _ _ _ _).
  generalize 0. generalize (@None RegistryError). revert tr.
  induction rounds as [|rounds IH]; intros tr err attempt; [by intros [_ ?]|]. cbn [cli_retry_loop].
  intros (tr1 & tr2 & [e|resp'] & -> & H1 & H2)%runs_bind_Done.
  { apply IH in H2 as [auth H]. exists auth. apply elem_of_app. by right. }
  destruct H2 as [-> [= ->]]. unfold cli_retry_round in H1.
  apply runs_bind_Done in H1 as (? & ? & ? & -> & _ & H).
  apply runs_bind_Done in H as (? & ? & ? & -> & _ & H).
  apply runs_bind_Done in H as (? & ? & ? & -> & _ & H).
  apply runs_bind_Done in H as (? & ? & auth & -> & _ & H).
  apply runs_bind_Done in H as (? & ? & a & -> & H1 & H).
  destruct H1 as (a' & ? & -> & -> & [= ->]). exists auth. rewrite !elem_of_app, elem_of_cons.
  destruct a' as [[m|m]|resp'']; [case_match; by destruct H|by destruct H|].
  case_match.
  { apply runs_pbind in H as (? & ? & r & -> & _ & H). by destruct r; destruct H. }
  case_match; [by destruct H|]. destruct H as [_ [= ->]]. tauto.
Qed.

Lemma get_blob_stream_Done src digest offset tr resp :
  runs (get_blob_stream src digest offset) tr (Done resp) →
  (¬ 400 ≤ ur_status resp < 600)%N ∧
  ∃ auth, existT (Send (MkCliRequest GET (cli_blob_url src digest) (range_headers offset) auth None)) (inr resp) ∈ tr.
Proof.
  assert (∀ p m tr, runs (p ≫= λ r, cli_error_for_status r m) tr (Done resp) →
    (¬ 400 ≤ ur_status resp < 600)%N ∧ ∃ tr1 tr2, tr = tr1 ++ tr2 ∧ runs p tr1 (Done resp)) as Hst.
  { intros p m tr' (tr1 & tr2 & r & -> & H1 & H2)%runs_bind_Done.
    unfold cli_error_for_status in H2. case_bool_decide; destruct H2 as [-> [= ->]]. eauto. }
  unfold get_blob_stream, range_headers. case_bool_decide as Hpos; cbv zeta; intros H.
  - apply runs_bind_Done in H as (? & ? & ? & -> & _ & H).
    apply runs_bind_Done in H as (? & ? & ? & -> & _ & H).
    apply runs_bind_Done in H as (? & ? & auth & -> & _ & H).
    apply Hst in H as (Hs & ? & ? & -> & (a & ? & -> & Ha)). split; [done|]. exists auth.
    destruct a as [e|resp']; [by destruct Ha|]. destruct Ha as [-> [= ->]].
    rewrite !elem_of_app, elem_of_cons. tauto.
  - apply Hst in H as (Hs & ? & ? & -> & [auth Ha]%retry_Done). split; [done|]. exists auth.
    apply elem_of_app. by left.
Qed.

(** No operation of the client runs out of a bound. *)
Lemma refuse_finishes e : finishes (refuse e).
Proof. by destruct e. Qed.
Lemma refuse_headers_finishes hs : finishes (refuse_headers hs).
Proof. induction hs as [|[k v] hs IH]; [done|]. apply finishes_bind; [apply refuse_finishes|done]. Qed.
Lemma perform_finishes (e : event) : finishes (perform (ans := answer) e).
Proof. done. Qed.
Lemma send_finishes q : finishes (send q).
Proof. by intros [e|resp]. Qed.
Lemma status_finishes resp m : finishes (cli_error_for_status resp m).
Proof. unfold cli_error_for_status. by case_match. Qed.
Lemma json_finishes resp s : finishes (response_json resp s).
Proof. unfold response_json. by repeat case_match. Qed.
Lemma challenge_finishes header : finishes (Fin (cli_parse_bearer_challenge header) : prog _).
Proof. simpl. unfold cli_parse_bearer_challenge. by repeat case_match. Qed.

Ltac ends :=
  repeat first
    [ done
    | progress intros
    | progress cbv zeta
    | apply finishes_bind
    | apply refuse_finishes | apply refuse_headers_finishes | apply perform_finishes | apply send_finishes
    | apply status_finishes | apply json_finishes | apply challenge_finishes
    | match goal with
      | |- finishes (match ?x with _ => _ end) => destruct x
      | |- finishes (if ?x then _ else _) => destruct x
      end ].

Lemma ensure_auth_finishes image actions : finishes (cli_ensure_auth image actions).
Proof. unfold cli_ensure_auth, cli_fetch_token. ends. Qed.
Lemma retry_finishes image actions method url accept body content_type :
  finishes (cli_retry image actions method url accept body content_type).
Proof.
  unfold cli_retry. generalize (S CLI_MAX_RETRIES) at 1. intros rounds.
  generalize 0. generalize (@None RegistryError). induction rounds as [|rounds IH]; intros err attempt; [done|].
  simpl. apply finishes_bind; [|intros [e|resp]; [apply IH|done]].
  unfold cli_retry_round. ends. apply finishes_pbind; [|by intros []].
  unfold cli_refresh_auth. apply finishes_bind; [done|]. intros. apply ensure_auth_finishes.
Qed.
Lemma get_blob_stream_finishes src digest offset : finishes (get_blob_stream src digest offset).
Proof.
  unfold get_blob_stream, cli_apply_auth. case_match; [ends|].
  apply finishes_bind; [apply retry_finishes|]. intros. apply status_finishes.
Qed.
Lemma head_blob_finishes dst digest : finishes (cli_head_blob dst digest).
Proof. unfold cli_head_blob. apply finishes_bind; [apply retry_finishes|done]. Qed.
End answers.

Section transfer.
Context `{SJ : SerdeJson, HL : HttpLib}.
Context (response_text : list (message + bytes) → string).
Context (parse_uri : string → option (option string * option string)).

Lemma head_blob_no_patch image digest : only no_patch (cli_head_blob image digest).
Proof. unfold cli_head_blob. apply only_bind; [apply only_retry; done|done]. Qed.
Lemma start_upload_no_patch image : only no_patch (cli_start_upload response_text parse_uri image).
Proof.
  unfold cli_start_upload. apply only_bind; [apply only_retry; done|]. intros resp.
  case_match; [done|]. case_match; [|done]. apply only_resolve.
Qed.
Lemma get_blob_stream_no_patch image digest offset : only no_patch (get_blob_stream image digest offset).
Proof.
  unfold get_blob_stream. case_match; cbv zeta.
  - pieces.
  - apply only_bind; [apply only_retry; done|]. intros; apply only_status.
Qed.
Lemma complete_upload_no_patch image url digest : only no_patch (cli_complete_upload response_text image url digest).
Proof.
  unfold cli_complete_upload. pieces.
Qed.

Lemma no_patch_runs {A} (p : prog A) tr r :
  only no_patch p → runs p tr r →
  uploaded tr = [] ∧ ∀ held, honest_destination held tr.
Proof.
  intros Hp Hr. assert (Forall (λ x, no_patch (projT1 x)) tr) as H by by eapply only_runs.
  split; [by apply no_patch_uploaded|]. clear Hr.
  induction H as [|[e a] tr Hx _ IH]; intros held; [done|]. 
  destruct e as [q| | | | |]; try apply IH. simpl in Hx |- *. destruct (cq_method q); (done || apply IH).
Qed.

(** An accepted chunk. *)
Lemma patch_chunk_Done image url chunk offset tr url' offset' :
  runs (patch_chunk response_text parse_uri image url chunk offset) tr (Done (url', offset')) →
  uploaded tr = chunk ∧
  ∀ held, honest_destination held tr → offset = N.of_nat (length held) →
    (N.of_nat (length (held ++ chunk)) < U64.modulus)%N → offset' = N.of_nat (length (held ++ chunk)).
Proof.
  unfold patch_chunk. intros H.
  apply runs_bind_Done in H as (tr1 & ? & ? & -> & H1 & H).
  apply runs_bind_Done in H as (tr2 & ? & ? & -> & H2 & H).
  apply runs_bind_Done in H as (tr3 & ? & auth & -> & H3 & H).
  apply runs_bind_Done in H as (tr4 & tr5 & resp & -> & H4 & H).
  apply no_patch_runs in H1 as [U1 D1]; [|apply only_refuse].
  apply no_patch_runs in H2 as [U2 D2]; [|apply only_refuse_headers].
  apply no_patch_runs in H3 as [U3 D3]; [|by apply only_apply_auth].
  destruct (bool_decide (ur_status resp = 202%N)) eqn:Es; [|by destruct H].
  apply runs_bind_Done in H as (tr6 & tr7 & loc & -> & H6 & [-> [= -> ->]]).
  apply no_patch_runs in H6 as [U6 D6]; [|destruct (_ !! _); [apply only_resolve|done]].
  destruct H4 as ([e|resp'] & tr' & -> & H4); [by destruct H4|]. destruct H4 as [-> [= ->]].
  rewrite !uploaded_app, U1, U2, U3, U6, uploaded_cons. cbn. rewrite Es. cbn. rewrite !app_nil_r.
  split; [done|]. intros held. rewrite !honest_destination_app, U1, U2, U3, !app_nil_r.
  cbn. rewrite Es. intros (_ & _ & _ & Hack & _) -> Hfits.
  destruct (acknowledged resp') as [n|]; cbn; [by apply Hack|].
  rewrite U64.add_small; rewrite length_app in *; lia.
Qed.

(** [sends held sent tr sent']: the run [tr] moves the offset from [sent] to [sent'] as the
    destination sees it. *)
Definition tracks (sent : N) (tr : trace) (sent' : N) : Prop :=
  ∀ held, honest_destination held tr → sent = N.of_nat (length held) →
    (N.of_nat (length (held ++ uploaded tr)) < U64.modulus)%N → sent' = N.of_nat (length (held ++ uploaded tr)).

Lemma tracks_refl sent : tracks sent [] sent.
Proof. intros held _ -> _. by rewrite app_nil_r. Qed.
Lemma tracks_app sent1 tr1 sent2 tr2 sent3 :
  tracks sent1 tr1 sent2 → tracks sent2 tr2 sent3 → tracks sent1 (tr1 ++ tr2) sent3.
Proof.
  intros H1 H2 held [D1 D2]%honest_destination_app Hs Hlt. rewrite uploaded_app, app_assoc in *.
  apply (H2 _ D2); [|done]. apply (H1 _ D1 Hs). rewrite length_app in Hlt. lia.
Qed.
Lemma tracks_quiet sent (tr : trace) : uploaded tr = [] → tracks sent tr sent.
Proof. intros U held _ -> _. by rewrite U, app_nil_r. Qed.

Lemma patch_tracks image url chunk offset tr url' offset' :
  runs (patch response_text parse_uri image url chunk offset) tr (Done (url', offset')) →
  uploaded tr = chunk ∧ tracks offset tr offset'.
Proof. intros [U H]%patch_chunk_Done. split; [done|]. intros held. rewrite U. apply H. Qed.

Lemma flush_tracks dst url sent buffer tr url' sent' :
  runs (flush response_text parse_uri dst url sent buffer) tr (Done (url', sent')) →
  uploaded tr = buffer ∧ tracks sent tr sent'.
Proof.
  destruct buffer as [|b buffer]; [|apply patch_tracks]. intros [-> [= -> ->]].
  split; [done|apply tracks_refl].
Qed.

Lemma send_chunks_tracks rounds dst url sent buffer tr url' sent' buffer' :
  runs (send_chunks response_text parse_uri rounds dst url sent buffer) tr (Done (url', sent', buffer')) →
  uploaded tr ++ buffer' = buffer ∧ tracks sent tr sent'.
Proof.
  revert url sent buffer tr. induction rounds as [|rounds IH]; intros url sent buffer tr.
  - intros [-> [= -> -> ->]]. split; [done|apply tracks_refl].
  - cbn [send_chunks]. intros (tr1 & tr2 & [url1 sent1] & -> & [U1 T1]%patch_tracks & [U2 T2]%IH)%runs_bind_Done.
    split; [|by eapply tracks_app]. by rewrite uploaded_app, U1, <-app_assoc, U2, take_drop.
Qed.

(** What reading a stream to a regular end means for the blob. *)
Definition read_post (buffer : bytes) (sent : N) (stream : list (message + bytes)) (tr : trace)
    (out : stream_end) : Prop :=
  match out with
  | Complete _ => ∀ rest, delivers rest stream → uploaded tr = buffer ++ rest
  | Resume _ sent' _ =>
      tracks sent tr sent' ∧
      ∀ rest, delivers rest stream → ∃ rest', buffer ++ rest = uploaded tr ++ rest'
  end.

Lemma read_stream_post stream dst url sent retries buffer tr out :
  runs (read_stream response_text parse_uri stream dst url sent retries buffer) tr (Done out) →
  read_post buffer sent stream tr out.
Proof.
  revert url sent retries buffer tr. induction stream as [|[e|chunk] stream IH]; intros url sent retries buffer tr.
  - cbn [read_stream]. intros (tr1 & tr2 & [url1 sent1] & -> & [U1 T1]%flush_tracks & [-> [= ->]])%runs_bind_Done.
    intros rest ->. by rewrite app_nil_r, U1, app_nil_r.
  - cbn [read_stream]. case_match; [by intros [_ ?]|].
    intros (tr1 & tr2 & [url1 sent1] & -> & [U1 T1]%flush_tracks & Hr)%runs_bind_Done.
    destruct Hr as (a & tr3 & -> & -> & [= ->]). split.
    + eapply tracks_app; [done|]. by apply tracks_quiet.
    + intros rest _. exists rest. rewrite uploaded_app, U1. by rewrite app_nil_r.
  - cbn [read_stream].
    intros (tr1 & tr2 & [[url1 sent1] buffer1] & -> & [U1 T1]%send_chunks_tracks & H%IH)%runs_bind_Done.
    destruct out as [url' sent' retries'|url']; cbn [read_post] in *.
    + destruct H as [T2 H]. split; [by eapply tracks_app|]. intros rest (rest1 & -> & Hd).
      destruct (H _ Hd) as [rest' Hr]. exists rest'.
      by rewrite uploaded_app, app_assoc, <-U1, <-!app_assoc, Hr.
    + intros rest (rest1 & -> & Hd). by rewrite uploaded_app, (H _ Hd), !app_assoc, U1.
Qed.

Lemma transfer_loop_exact opens src dst digest size url sent retries tr url' held rest :
  runs (transfer_loop response_text parse_uri opens src dst digest size url sent retries) tr (Done url') →
  honest_source src digest (held ++ rest) tr → honest_destination held tr →
  sent = N.of_nat (length held) → size = N.of_nat (length (held ++ rest)) → (size < U64.modulus)%N →
  uploaded tr = rest.
Proof.
  revert url sent retries tr held rest. induction opens as [|opens IH];
    intros url sent retries tr held rest; cbn [transfer_loop];
    case_bool_decide as Hlt; cbn [negb]; intros H Hsrc Hdst Hsent Hsize Hmod.
  - by destruct H.
  - destruct H as [-> _]. rewrite length_app in *. by destruct rest; [|simpl in *; lia].
  - apply runs_bind_Done in H as (tr1 & tr2 & resp & -> & H1 & H).
    apply runs_bind_Done in H as (tr3 & tr4 & out & -> & H3 & H).
    pose proof (no_patch_runs _ _ _ (get_blob_stream_no_patch _ _ _) H1) as [U1 _].
    apply honest_destination_app in Hdst as [_ Hdst]. rewrite U1, app_nil_r in Hdst.
    apply honest_destination_app in Hdst as [D3 D4].
    apply honest_source_app in Hsrc as [S1 Hsrc]. apply honest_source_app in Hsrc as [_ S4].
    apply get_blob_stream_Done in H1 as [Hst [auth Hin]]. specialize (S1 _ _ _ Hin Hst).
    rewrite Hsent, Nat2N.id, drop_app_length in S1. apply read_stream_post in H3.
    rewrite !uploaded_app, U1. cbn [app].
    destruct out as [url1 sent1 retries1|url1]; cbn [read_post] in H3.
    + destruct H3 as [T3 H3]. destruct (H3 _ S1) as [rest' Hrest]. cbn [app] in Hrest. subst rest.
      f_equal. eapply (IH _ _ _ _ (held ++ uploaded tr3)); try done.
      * by rewrite <-app_assoc.
      * apply (T3 held D3 Hsent). rewrite !length_app in *. lia.
      * by rewrite <-app_assoc.
    + destruct H as [-> _]. by rewrite (H3 _ S1), app_nil_r.
  - destruct H as [-> _]. rewrite length_app in *. by destruct rest; [|simpl in *; lia].
Qed.

(** The destination has said that it holds the blob, or accepted its completed upload. *)
Definition has_blob (dst : ImageRef) (digest : string) (tr : trace) : Prop :=
  ∃ auth resp, existT (Send (MkCliRequest HEAD (cli_blob_url dst digest) [] auth None)) (inr resp) ∈ tr ∧
    ur_status resp = 200%N.
Definition completion_url (url digest : string) : string :=
  url +:+ (if Str.contains_char "?" url then "&digest=" else "?digest=") +:+ digest.
Definition completed (digest : string) (tr : trace) : Prop :=
  ∃ url auth resp,
    existT (Send (MkCliRequest PUT (completion_url url digest) [("content-length", "0")] auth None)) (inr resp) ∈ tr ∧
    ur_status resp = 201%N.

Lemma head_blob_Done dst digest tr :
  runs (cli_head_blob dst digest) tr (Done true) → has_blob dst digest tr.
Proof.
  unfold cli_head_blob. intros (tr1 & tr2 & resp & -> & [auth H]%retry_Done & [-> [= Hs]])%runs_bind_Done.
  symmetry in Hs. apply bool_decide_eq_true in Hs. exists auth, resp. rewrite elem_of_app. eauto.
Qed.
Lemma complete_upload_Done dst url digest tr :
  runs (cli_complete_upload response_text dst url digest) tr (Done ()) → completed digest tr.
Proof.
  unfold cli_complete_upload. intros H.
  apply runs_bind_Done in H as (? & ? & ? & -> & _ & H).
  apply runs_bind_Done in H as (? & ? & ? & -> & _ & H).
  apply runs_bind_Done in H as (? & ? & auth & -> & _ & H).
  apply runs_bind_Done in H as (? & ? & resp & -> & (a & ? & -> & Ha) & H).
  destruct a as [e|resp']; [by destruct Ha|]. destruct Ha as [-> [= ->]].
  case_bool_decide as Hs; [|by destruct H]. exists url, auth, resp'.
  rewrite !elem_of_app, elem_of_cons. auto 10.
Qed.

(** The two ways a transfer succeeds. *)
Lemma transfer_single_blob_Done opens src dst digest size tr :
  runs (transfer_single_blob response_text parse_uri opens src dst digest size) tr (Done ()) →
  (has_blob dst digest tr ∧ uploaded tr = []) ∨
  (completed digest tr ∧ ∃ tr1 tr2 tr3 url url',
     tr = tr1 ++ tr2 ++ tr3 ∧ uploaded tr1 = [] ∧ uploaded tr3 = [] ∧
     runs (transfer_loop response_text parse_uri opens src dst digest size url 0 0) tr2 (Done url')).
Proof.
  unfold transfer_single_blob. intros H.
  apply runs_bind_Done in H as (? & tr0 & short & -> & [-> _] & H). cbn [app].
  apply runs_bind_Done in H as (tr1 & tr2 & present & -> & H1 & H).
  pose proof (no_patch_runs _ _ _ (head_blob_no_patch _ _) H1) as [U1 _].
  destruct present.
  - left. destruct H as (a & ? & -> & -> & _). apply head_blob_Done in H1 as (auth & resp & Hin & Hs).
    split; [|by rewrite uploaded_app, U1]. exists auth, resp. rewrite elem_of_app. auto.
  - right. apply runs_bind_Done in H as (tr3 & tr4 & url & -> & H3 & H).
    apply runs_bind_Done in H as (tr5 & tr6 & url' & -> & H5 & H).
    apply runs_bind_Done in H as (tr7 & tr8 & [] & -> & H7 & H).
    pose proof (no_patch_runs _ _ _ (start_upload_no_patch _) H3) as [U3 _].
    pose proof (no_patch_runs _ _ _ (complete_upload_no_patch _ _ _) H7) as [U7 _].
    apply complete_upload_Done in H7 as (u & auth & resp & Hin & Hs).
    destruct H as (x & ? & -> & -> & _). split.
    { exists u, auth, resp. split; [|done]. rewrite !elem_of_app. auto 10. }
    exists (tr1 ++ tr3), tr5, (tr7 ++ [existT (Count (BlobTransferred size)) x]), url, url'.
    rewrite <-!app_assoc, !uploaded_app, U1, U3, U7. done.
Qed.

(** C36: a blob arrives as it is. Between a source that serves the blob's bytes from the
    offset it is asked for (it honours [Range], and does not end a stream early without an
    error) and a destination that appends what it accepts and acknowledges no other
    offset, for the blob's true size: whatever breaks in between (a stream that fails
    after any number of bytes, chunks of any size, retries and resumptions), a transfer
    that reports success either found the blob at the destination and sent nothing, or had
    its upload completed there with exactly the bytes of the blob, in order and once. *)
Theorem transfer_exact opens src dst digest blob tr :
  (N.of_nat (length blob) < U64.modulus)%N →
  honest_source src digest blob tr → honest_destination [] tr →
  runs (transfer_single_blob response_text parse_uri opens src dst digest (N.of_nat (length blob))) tr (Done ()) →
  (has_blob dst digest tr ∧ uploaded tr = []) ∨ (completed digest tr ∧ uploaded tr = blob).
Proof.
  intros Hmod Hsrc Hdst [?|(Hc & tr1 & tr2 & tr3 & url & url' & -> & U1 & U3 & Hloop)]%transfer_single_blob_Done;
    [by left|right]. split; [done|].
  apply honest_source_app in Hsrc as [_ Hsrc]. apply honest_source_app in Hsrc as [Hsrc _].
  apply honest_destination_app in Hdst as [_ Hdst]. rewrite U1 in Hdst.
  apply honest_destination_app in Hdst as [Hdst _].
  rewrite !uploaded_app, U1, U3, app_nil_r. by eapply (transfer_loop_exact _ _ _ _ _ _ _ _ _ _ [] blob).
Qed.

(** ** Transfers end *)

Definition nonempty_chunks (stream : list (message + bytes)) : Prop := inr [] ∉ stream.
(** No answer has an empty piece in its body; one sets the count of retries back without
    any progress (see [empty_pieces_endless]). *)
Definition no_empty_chunks (tr : trace) : Prop :=
  ∀ q resp, existT (Send q) (inr resp) ∈ tr → nonempty_chunks (ur_body resp).

Lemma read_stream_progress stream dst url sent retries buffer tr url' sent' retries' :
  runs (read_stream response_text parse_uri stream dst url sent retries buffer) tr (Done (Resume url' sent' retries')) →
  nonempty_chunks stream →
  1 ≤ retries' ≤ MAX_SOURCE_RETRIES ∧ (uploaded tr = [] → buffer = [] ∧ retries' = S retries).
Proof.
  revert url sent retries buffer tr. induction stream as [|[e|chunk] stream IH]; intros url sent retries buffer tr.
  - cbn [read_stream]. by intros (tr1 & tr2 & [url1 sent1] & -> & _ & [_ ?])%runs_bind_Done.
  - cbn [read_stream]. case_bool_decide as Hr; [by intros [_ ?]|].
    intros (tr1 & tr2 & [url1 sent1] & -> & [U1 _]%flush_tracks & H)%runs_bind_Done _.
    destruct H as (a & tr3 & -> & -> & [= -> -> ->]). split; [lia|].
    rewrite uploaded_app, U1, app_nil_r. by intros ->.
  - cbn [read_stream].
    intros (tr1 & tr2 & [[url1 sent1] buffer1] & -> & [U1 _]%send_chunks_tracks & H)%runs_bind_Done Hne.
    assert (nonempty_chunks stream ∧ chunk ≠ []) as [Hne' Hchunk].
    { unfold nonempty_chunks in *. rewrite elem_of_cons in Hne. split; [tauto|]. intros ->. by apply Hne; left. }
    destruct (IH _ _ _ _ _ H Hne') as [Hr Hz]. split; [done|]. rewrite uploaded_app.
    intros [Hu1 Hu2]%app_nil. destruct (Hz Hu2) as [-> _]. rewrite Hu1 in U1. symmetry in U1.
    by apply app_nil in U1 as [_ ?].
Qed.


Lemma resolve_finishes base location : finishes (resolve_location parse_uri base location).
Proof. unfold resolve_location. by repeat case_match. Qed.
Lemma patch_finishes dst url chunk sent : finishes (patch response_text parse_uri dst url chunk sent).
Proof.
  unfold patch, patch_chunk. cbv zeta. apply finishes_bind; [apply refuse_finishes|]. intros _.
  apply finishes_bind; [apply refuse_headers_finishes|]. intros _.
  apply finishes_bind; [done|]. intros auth.
  apply finishes_bind; [apply send_finishes|]. intros resp. case_match; [done|].
  apply finishes_bind; [|done]. case_match; [apply resolve_finishes|done].
Qed.
Lemma flush_finishes dst url sent buffer : finishes (flush response_text parse_uri dst url sent buffer).
Proof. destruct buffer; [done|apply patch_finishes]. Qed.
Lemma send_chunks_finishes rounds dst url sent buffer :
  finishes (send_chunks response_text parse_uri rounds dst url sent buffer).
Proof.
  revert url sent buffer. induction rounds as [|rounds IH]; [done|]. intros. cbn [send_chunks]. cbv zeta.
  apply finishes_bind; [apply patch_finishes|]. intros [? ?]. apply IH.
Qed.
Lemma read_stream_finishes stream dst url sent retries buffer :
  finishes (read_stream response_text parse_uri stream dst url sent retries buffer).
Proof.
  revert url sent retries buffer. induction stream as [|[e|chunk] stream IH]; intros; cbn [read_stream]; cbv zeta.
  - apply finishes_bind; [apply flush_finishes|]. by intros [? ?].
  - case_match; [done|]. apply finishes_bind; [apply flush_finishes|]. intros [? ?]. by apply finishes_bind.
  - apply finishes_bind; [apply send_chunks_finishes|]. intros [[? ?] ?]. apply IH.
Qed.

(** Every opening of the source makes progress or uses up one of the five retries. *)
Lemma transfer_loop_ends opens src dst digest size url sent retries tr held rest :
  runs (transfer_loop response_text parse_uri opens src dst digest size url sent retries) tr Unfinished →
  honest_source src digest (held ++ rest) tr → honest_destination held tr → no_empty_chunks tr →
  sent = N.of_nat (length held) → size = N.of_nat (length (held ++ rest)) → (size < U64.modulus)%N →
  6 * length rest + (6 - retries) ≤ opens → False.
Proof.
  revert url sent retries tr held rest. induction opens as [|opens IH];
    intros url sent retries tr held rest; cbn [transfer_loop];
    case_bool_decide as Hlt; cbn [negb]; intros H Hsrc Hdst Hne Hsent Hsize Hmod Hopens; try by destruct H.
  { rewrite length_app in Hsize. lia. }
  apply tree_runs_bind in H as (tr1 & tr2 & r1 & -> & H1 & H).
  pose proof (finishes_runs _ _ _ (get_blob_stream_finishes _ _ _) H1) as F1.
  destruct r1 as [resp| | |]; [|by destruct H..].
  apply tree_runs_bind in H as (tr3 & tr4 & r3 & -> & H3 & H).
  pose proof (finishes_runs _ _ _ (read_stream_finishes _ _ _ _ _ _) H3) as F3.
  destruct r3 as [[url1 sent1 retries1|url1]| | |]; [|by destruct H..].
  pose proof (no_patch_runs _ _ _ (get_blob_stream_no_patch _ _ _) H1) as [U1 _].
  apply honest_destination_app in Hdst as [_ Hdst]. rewrite U1, app_nil_r in Hdst.
  apply honest_destination_app in Hdst as [D3 D4].
  apply honest_source_app in Hsrc as [S1 Hsrc]. apply honest_source_app in Hsrc as [_ S4].
  apply get_blob_stream_Done in H1 as [Hst [auth Hin]]. specialize (S1 _ _ _ Hin Hst).
  rewrite Hsent, Nat2N.id, drop_app_length in S1.
  pose proof (read_stream_progress _ _ _ _ _ _ _ _ _ _ H3) as [Hr Hz].
  { eapply Hne. apply elem_of_app. by left. }
  apply read_stream_post in H3 as [T3 H3]. destruct (H3 _ S1) as [rest' Hrest]. cbn [app] in Hrest. subst rest.
  eapply (IH _ _ _ _ (held ++ uploaded tr3) rest' H); try done.
  - by rewrite <-app_assoc.
  - intros q resp' Hin'. eapply (Hne q). rewrite !elem_of_app. auto.
  - apply (T3 held D3 Hsent). rewrite !length_app in *. lia.
  - by rewrite <-app_assoc.
  - rewrite length_app in Hopens. destruct (uploaded tr3) as [|b up]; [|simpl in *; lia].
    destruct (Hz eq_refl) as [_ ->]. simpl in *. unfold MAX_SOURCE_RETRIES in *. lia.
Qed.

Lemma short_digest_finishes digest : short_digest digest ≠ Unfinished.
Proof. unfold short_digest. by repeat case_match. Qed.
Lemma start_upload_finishes dst : finishes (cli_start_upload response_text parse_uri dst).
Proof.
  unfold cli_start_upload. apply finishes_bind; [apply retry_finishes|]. intros resp.
  case_match; [done|]. case_match; [apply resolve_finishes|done].
Qed.
Lemma complete_upload_finishes dst url digest : finishes (cli_complete_upload response_text dst url digest).
Proof.
  unfold cli_complete_upload. cbv zeta. apply finishes_bind; [apply refuse_finishes|]. intros _.
  apply finishes_bind; [apply refuse_headers_finishes|]. intros _.
  apply finishes_bind; [done|]. intros auth.
  apply finishes_bind; [apply send_finishes|]. intros resp. by case_match.
Qed.

(** C37: a transfer ends, however often its source breaks off. Between such a source and
    such a destination (see [honest_source] and [honest_destination]), for the blob's true
    size, and if no body has an empty piece: each time the source is opened, either bytes
    arrive at the destination or one of five retries is used up, so that six openings per
    byte and six more are enough. *)
Theorem transfer_ends opens src dst digest blob tr r :
  (N.of_nat (length blob) < U64.modulus)%N → 6 * length blob + 6 ≤ opens →
  honest_source src digest blob tr → honest_destination [] tr → no_empty_chunks tr →
  runs (transfer_single_blob response_text parse_uri opens src dst digest (N.of_nat (length blob))) tr r →
  r ≠ Unfinished.
Proof.
  intros Hmod Hopens Hsrc Hdst Hne H ->. unfold transfer_single_blob in H.
  apply tree_runs_bind in H as (tr0 & tr2 & r & -> & [-> ->] & H). cbn [app] in *.
  pose proof (short_digest_finishes digest). destruct (short_digest digest); [|by destruct H..].
  apply tree_runs_bind in H as (tr1 & tr3 & r1 & -> & H1 & H).
  pose proof (finishes_runs _ _ _ (head_blob_finishes _ _) H1).
  pose proof (no_patch_runs _ _ _ (head_blob_no_patch _ _) H1) as [U1 _].
  destruct r1 as [[]| | |]; try by destruct H. { by destruct H as (? & ? & ? & ? & ?). }
  apply tree_runs_bind in H as (tr4 & tr5 & r4 & -> & H4 & H).
  pose proof (finishes_runs _ _ _ (start_upload_finishes _) H4).
  pose proof (no_patch_runs _ _ _ (start_upload_no_patch _) H4) as [U4 _].
  destruct r4 as [url| | |]; try by destruct H.
  apply tree_runs_bind in H as (tr6 & tr7 & r6 & -> & H6 & H).
  rewrite app_assoc in Hsrc, Hdst, Hne.
  apply honest_source_app in Hsrc as [_ Hsrc]. apply honest_source_app in Hsrc as [Hsrc _].
  apply honest_destination_app in Hdst as [_ Hdst]. rewrite uploaded_app, U1, U4 in Hdst.
  apply honest_destination_app in Hdst as [Hdst _].
  destruct r6 as [url'| | |]; try by destruct H.
  - apply tree_runs_bind in H as (tr8 & tr9 & r8 & -> & H8 & H).
    pose proof (finishes_runs _ _ _ (complete_upload_finishes _ _ _) H8).
    destruct r8; try by destruct H. by destruct H as (? & ? & ? & ? & ?).
  - eapply (transfer_loop_ends _ _ _ _ _ _ _ _ _ [] blob H6); try done; try lia.
    intros q resp Hin. eapply (Hne q). rewrite !elem_of_app. auto.
Qed.
End transfer.

(** ** A transfer that is broken off once *)

(** The answered requests of a run. *)
Definition answered (x : { e : event & answer e }) : option (CliRequest * UpResponse) :=
  let 'existT e a := x in
  match e return answer e → option (CliRequest * UpResponse) with
  | Send q => λ a, match a with inr resp => Some (q, resp) | inl _ => None end
  | _ => λ _, None
  end a.
Definition responses (tr : trace) : list (CliRequest * UpResponse) := omap answered tr.
Lemma elem_of_responses q resp tr : existT (Send q) (inr resp) ∈ tr → (q, resp) ∈ responses tr.
Proof. intros H. apply list_elem_of_omap. by exists (existT (Send q) (inr resp)). Qed.

#[export] Instance cli_http : HttpLib := {|
  url_error _ := None;
  header_error _ := None;
  proxy_error _ _ := None;
  client_error _ _ := None;
  status_error n := [Num n];
|}.
Definition no_text (_ : list (message + bytes)) : string := "".
Definition no_uri (_ : string) : option (option string * option string) := Some (Some "https", Some "d.io").
Definition three_bytes : bytes := [Byte.x01; Byte.x02; Byte.x03].
Definition from_q : ImageRef := ImageRef_parse "q.io/team/app:1" false.
Definition to_d : ImageRef := ImageRef_parse "d.io/team/app:1" false.
(** A source that breaks off after a byte, and a destination that works. *)
Definition flaky (e : event) : answer e :=
  match e return answer e with
  | Send q =>
      inr (match cq_method q with
           | HEAD => MkUpResponse 404 ∅ []
           | POST => MkUpResponse 202 {["location" := "/u/1"]} []
           | PATCH => MkUpResponse 202 ∅ []
           | PUT => MkUpResponse 201 ∅ []
           | _ => match cq_headers q with
                  | [] => MkUpResponse 200 ∅ [inr [Byte.x01]; inl [Lit "reset"]]
                  | _ => MkUpResponse 206 ∅ [inr [Byte.x02; Byte.x03]]
                  end
           end)
  | TokenLookup _ => None
  | Wait _ | TokenInsert _ _ | TokenDrop _ | Count _ => ()
  end.
Definition flaky_transfer : trace * outcome () :=
  play flaky (transfer_single_blob no_text no_uri 24 from_q to_d blob_a 3).

#[local] Instance byte_eq_decision : EqDecision Byte.byte := Byte.byte_eq_dec.
Definition flaky_answer (x : CliRequest * UpResponse) : bool :=
  match cq_method x.1 with
  | GET => bool_decide ((cq_headers x.1, ur_body x.2) ∈
      [([], [inr [Byte.x01]; inl [Lit "reset"]]); ([("range", "bytes=1-")], [inr [Byte.x02; Byte.x03]])])
  | _ => true
  end.
Lemma flaky_answers : forallb flaky_answer (responses flaky_transfer.1) = true.
Proof. vm_compute. reflexivity. Qed.

Lemma flaky_source : honest_source from_q blob_a three_bytes flaky_transfer.1.
Proof.
  intros offset auth resp H%elem_of_responses _. pose proof flaky_answers as F.
  rewrite forallb_forall in F. specialize (F _ (proj1 (list_elem_of_In _ _) H)).
  unfold flaky_answer in F. cbn in F. apply bool_decide_eq_true in F. unfold range_headers in F.
  rewrite !elem_of_cons, elem_of_nil in F. case_bool_decide as Ho.
  - destruct F as [[=]|[[= E ->]|[]]].
    assert (Str.of_u64 offset = Str.of_u64 1) as ->%(inj pretty).
    { assert (Str.strip_suffix "-" "1-" = Some (Str.of_u64 offset)) as E' by by apply strip_suffix_Some.
      change (Some "1" = Some (Str.of_u64 offset)) in E'. injection E' as <-. reflexivity. }
    by exists [].
  - assert (offset = 0%N) as -> by lia. destruct F as [[= ->]|[[=]|[]]]. by exists [Byte.x02; Byte.x03].
Qed.
Lemma flaky_destination : honest_destination [] flaky_transfer.1.
Proof. vm_compute. repeat split; by intros. Qed.

Lemma transfer_exact_witness :
  flaky_transfer.2 = Done () ∧
  ((has_blob to_d blob_a flaky_transfer.1 ∧ uploaded flaky_transfer.1 = []) ∨
   (completed blob_a flaky_transfer.1 ∧ uploaded flaky_transfer.1 = three_bytes)).
Proof.
  split; [vm_compute; reflexivity|].
  apply (transfer_exact no_text no_uri 24 from_q to_d blob_a three_bytes);
    [reflexivity|apply flaky_source|apply flaky_destination|].
  assert (flaky_transfer.2 = Done ()) as <- by (vm_compute; reflexivity). apply tree_play_runs.
Defined.
Lemma transfer_ends_witness : flaky_transfer.2 ≠ Unfinished.
Proof.
  apply (transfer_ends no_text no_uri 24 from_q to_d blob_a three_bytes flaky_transfer.1);
    [reflexivity|simpl; lia|apply flaky_source|apply flaky_destination| |apply tree_play_runs].
  intros q resp H%elem_of_responses.
  assert (forallb (λ x, forallb (λ c, match c with inr [] => false | _ => true end) (ur_body x.2))
            (responses flaky_transfer.1) = true) as F by (vm_compute; reflexivity).
  rewrite forallb_forall in F. specialize (F _ (proj1 (list_elem_of_In _ _) H)).
  rewrite forallb_forall in F. intros Hin. by specialize (F _ (proj1 (list_elem_of_In _ _) Hin)).
Defined.

(** ** What the transfer relies on *)

(** A source that ignores [Range], as HTTP lets it, and breaks off once. *)
Definition ignores_range (e : event) : answer e :=
  match e return answer e with
  | Send q =>
      inr (match cq_method q with
           | HEAD => MkUpResponse 404 ∅ []
           | POST => MkUpResponse 202 {["location" := "/u/1"]} []
           | PATCH => MkUpResponse 202 ∅ []
           | PUT => MkUpResponse 201 ∅ []
           | _ => match cq_headers q with
                  | [] => MkUpResponse 200 ∅ [inr [Byte.x01]; inl [Lit "reset"]]
                  | _ => MkUpResponse 200 ∅ [inr [Byte.x01; Byte.x02; Byte.x03]]
                  end
           end)
  | TokenLookup _ => None
  | Wait _ | TokenInsert _ _ | TokenDrop _ | Count _ => ()
  end.
(** The answer 200 to a request for the rest of a blob is not told from 206: the bytes
    that had arrived are sent again. *)
Theorem ignored_range_duplicates :
  let transfer := play ignores_range (transfer_single_blob no_text no_uri 24 from_q to_d blob_a 3) in
  uploaded transfer.1 = [Byte.x01; Byte.x01; Byte.x02; Byte.x03] ∧ transfer.2 = Done ().
Proof. vm_compute. done. Qed.

(** A source whose body is an empty piece and an error, each time. *)
Definition empty_pieces (e : event) : answer e :=
  match e return answer e with
  | Send q =>
      inr (match cq_method q with
           | HEAD => MkUpResponse 404 ∅ []
           | POST => MkUpResponse 202 {["location" := "/u/1"]} []
           | _ => MkUpResponse 200 ∅ [inr []; inl [Lit "reset"]]
           end)
  | TokenLookup _ => None
  | Wait _ | TokenInsert _ _ | TokenDrop _ | Count _ => ()
  end.
Lemma play_bind_Done {A B} oracle (p : prog A) (f : A → prog B) a :
  (play oracle p).2 = Done a → (play oracle (p ≫= f)).2 = (play oracle (f a)).2.
Proof.
  unfold mbind, tree_mbind. induction p as [r|e k IH]; simpl; [by intros ->|].
  specialize (IH (oracle e)). destruct (play oracle (k (oracle e))) as [tr r]. simpl in *. intros Hr.
  specialize (IH Hr). by destruct (play oracle (pbind _ _)).
Qed.

(** An empty piece counts as progress: the retries are counted from zero again, and the
    source is opened for ever. *)
Theorem empty_pieces_endless opens :
  (play empty_pieces (transfer_single_blob no_text no_uri opens from_q to_d blob_a 3)).2 = Unfinished.
Proof.
  assert (∀ retries, (play empty_pieces (transfer_loop no_text no_uri opens from_q to_d blob_a 3
    "https://d.io/u/1" 0 retries)).2 = Unfinished) as Hloop.
  { induction opens as [|opens IH]; intros retries; [done|].
    cbn [transfer_loop]. change (negb (bool_decide (0 < 3)%N)) with false. cbn iota.
    erewrite play_bind_Done by (vm_compute; reflexivity).
    erewrite play_bind_Done by (cbn; reflexivity). cbn iota. apply IH. }
  unfold transfer_single_blob. erewrite play_bind_Done by (vm_compute; reflexivity).
  erewrite play_bind_Done by (vm_compute; reflexivity). cbn iota.
  erewrite play_bind_Done by (vm_compute; reflexivity).
  match goal with |- (play _ (?p ≫= ?f)).2 = _ => set (q := p); set (g := f) end.
  specialize (Hloop 0). fold q in Hloop. clearbody q g.
  unfold mbind, tree_mbind. induction q as [r|e k IH]; simpl in *; [by rewrite Hloop|].
  specialize (IH (empty_pieces e)). destruct (play empty_pieces (k (empty_pieces e))) as [tr r]. simpl in *.
  specialize (IH Hloop). by destruct (play empty_pieces (pbind _ _)).
Qed.
