(* ===== verification/CtlImages.v ===== *)
(** The theory of copying images on the command line ([CtlMirror]): the pool of
    transfers, and the order in which content and manifests reach the destination. *)

From Stdlib Require Import Ascii.
From stdpp Require Import options.
From S2P Require Import Prelude Errors Digests Manifests Permissions SyncRuns Types StateMachine S3Client Io Upstream Samples.
From S2P Require Import CtlRegistry CtlMirror.

(** * The pool *)

(** A task that has seen the events [tr] of its program [p]. *)
Definition task_at (p : prog ()) (tr : trace) (t : task) : Prop :=
  match t with
  | Waiting q => q = p ∧ tr = []
  | Running q => ∀ tr' r, runs q tr' r → runs p (tr ++ tr') r
  | Ended r => runs p tr r
  end.
Definition pool_at (tasks : list (prog ())) (tr : trace) (ts : list task) : Prop :=
  Forall2 (λ p t, ∃ tr', tr' `sublist_of` tr ∧ task_at p tr' t) tasks ts.

Lemma pool_at_step permits tasks tr ts tr1 ts1 :
  pool_at tasks tr ts → pool_step permits ts tr1 ts1 → pool_at tasks (tr ++ tr1) ts1.
Proof.
  intros Hat Hstep.
  assert (∀ i t t', ts !! i = Some t →
    (∀ p tr', task_at p tr' t → ∃ tr2, tr2 `sublist_of` tr1 ∧ task_at p (tr' ++ tr2) t') →
    pool_at tasks (tr ++ tr1) (<[i := t']> ts)) as Hput.
  { intros i t t' Hi Ht. apply Forall2_same_length_lookup. split.
    { rewrite length_insert. by eapply Forall2_length. }
    intros j p u Hp Hu. destruct (Forall2_lookup_l _ _ _ _ _ Hat Hp) as (u0 & Hu0 & tr' & Hsub & Hat').
    destruct (decide (i = j)) as [<-|Hne].
    - rewrite list_lookup_insert_eq in Hu by (by eapply lookup_lt_Some). simplify_eq.
      destruct (Ht p tr') as (tr2 & Hsub2 & H2); [by simplify_eq|].
      exists (tr' ++ tr2). split; [by apply sublist_app|done].
    - rewrite list_lookup_insert_ne in Hu by done. simplify_eq.
      exists tr'. split; [by apply sublist_inserts_r|done]. }
  destruct Hstep as [ts i p Hi _|ts i e k a Hi|ts i r Hi]; eapply Hput; try done; intros q tr' Hq; simpl in Hq.
  - exists []. split; [done|]. destruct Hq as [-> ->]. by intros tr2 r.
  - exists [existT e a]. split; [done|]. intros tr2 r Hr. rewrite <-app_assoc. apply Hq. simpl. eauto.
  - exists []. split; [done|]. by apply Hq.
Qed.

Lemma pool_at_steps permits tasks tr ts tr1 ts1 :
  pool_at tasks tr ts → pool_steps permits ts tr1 ts1 → pool_at tasks (tr ++ tr1) ts1.
Proof.
  intros Hat Hsteps. revert tr Hat. induction Hsteps as [ts|ts1 ts2 ts3 tr1 tr2 Hstep _ IH]; intros tr Hat.
  - by rewrite app_nil_r.
  - rewrite app_assoc. by apply IH, (pool_at_step permits _ _ ts1).
Qed.
Lemma pool_at_start tasks : pool_at tasks [] (Waiting <$> tasks).
Proof. induction tasks as [|p tasks IH]; constructor; [by exists []|done]. Qed.

(** When the pool is joined without an error, every task has had a run of its own. *)
Lemma joins_Done permits tasks tr :
  joins permits tasks tr (Done ()) → ∀ p, p ∈ tasks → ∃ tr', tr' `sublist_of` tr ∧ runs p tr' (Done ()).
Proof.
  intros (ts & Hsteps & Hjoin). pose proof (pool_at_steps _ _ _ _ _ _ (pool_at_start tasks) Hsteps) as Hat.
  cbn [app] in Hat. clear Hsteps. induction Hat as [|p t tasks ts (tr' & Hsub & Ht) _ IH]; intros q Hq.
  { by apply elem_of_nil in Hq. }
  destruct t as [| |[[]|e| |]]; try done. apply elem_of_cons in Hq as [->|Hq]; [by eauto|]. by apply IH.
Qed.

Definition task_only (P : event → Prop) (t : task) : Prop :=
  match t with Waiting p | Running p => only P p | Ended _ => True end.
Lemma pool_steps_only (P : event → Prop) permits ts tr ts' :
  Forall (task_only P) ts → pool_steps permits ts tr ts' → Forall (λ x, P (projT1 x)) tr.
Proof.
  intros Hts Hsteps. revert Hts. induction Hsteps as [ts|ts1 ts2 ts3 tr1 tr2 Hstep _ IH]; intros Hts; [done|].
  apply Forall_app. destruct Hstep as [ts i p Hi _|ts i e k a Hi|ts i r Hi];
    pose proof (Forall_lookup_1 _ _ _ _ Hts Hi) as Ht; simpl in Ht.
  - split; [done|]. by apply IH, Forall_insert.
  - destruct Ht as [He Hk]. split; [by constructor|]. apply IH, Forall_insert; [done|apply Hk].
  - split; [done|]. by apply IH, Forall_insert.
Qed.
Lemma joins_only (P : event → Prop) permits tasks tr o :
  (∀ p, p ∈ tasks → only P p) → joins permits tasks tr o → Forall (λ x, P (projT1 x)) tr.
Proof.
  intros Hp (ts & Hsteps & _). eapply pool_steps_only; [|done]. apply Forall_fmap, Forall_forall. auto.
Qed.

(** At most as many transfers run at a time as the option allows, in every
    interleaving of the tasks; with none allowed, waiting for them never ends. *)
Theorem transfers_bounded permits tasks tr ts :
  pool_steps permits (Waiting <$> tasks) tr ts →
  (running ts ≤ permits)%N ∧ (permits = 0%N → tasks ≠ [] → tr = [] ∧ join_outcome ts = None).
Proof.
  assert (∀ ts i t t', ts !! i = Some t → is_running t = true →
    running (<[i := t']> ts) ≤ running ts)%N as Hkeep.
  { intros ts0 i t t' Hi Ht. unfold running. rewrite <-(take_drop_middle _ _ _ Hi) at 2.
    rewrite insert_take_drop by (by eapply lookup_lt_Some). rewrite !filter_app, !filter_cons, !length_app.
    rewrite (decide_True (P := is_running t = true)) by done. case_decide; simpl; lia. }
  assert (∀ ts i t t', ts !! i = Some t → (running (<[i := t']> ts) ≤ running ts + 1)%N) as Hmore.
  { intros ts0 i t t' Hi. unfold running. rewrite <-(take_drop_middle _ _ _ Hi) at 2.
    rewrite insert_take_drop by (by eapply lookup_lt_Some). rewrite !filter_app, !filter_cons, !length_app.
    repeat case_decide; simpl; lia. }
  assert (running (Waiting <$> tasks) = 0%N) as Hzero.
  { unfold running. induction tasks as [|p tasks IH]; [done|]. by rewrite fmap_cons, filter_cons_False. }
  intros Hsteps. split.
  - assert (running (Waiting <$> tasks) ≤ permits)%N as Hle by lia. revert Hle. clear Hzero.
    induction Hsteps as [|ts1 ts2 ts3 tr1 tr2 Hstep _ IH]; intros Hle; [done|]. apply IH. clear IH.
    destruct Hstep as [ts i p Hi Hlt|ts i e k a Hi|ts i r Hi].
    + specialize (Hmore _ _ _ (Running p) Hi). lia.
    + specialize (Hkeep _ _ _ (Running (k a)) Hi eq_refl). lia.
    + specialize (Hkeep _ _ _ (Ended r) Hi eq_refl). lia.
  - intros -> Hne. remember (Waiting <$> tasks) as ts0 eqn:E.
    destruct Hsteps as [|ts1 ts2 ts3 tr1 tr2 Hstep _].
    + split; [done|]. subst. by destruct tasks.
    + destruct Hstep as [ts i p Hi Hlt|ts i e k a Hi|ts i r Hi]; [lia| |];
        rewrite E, list_lookup_fmap in Hi; by destruct (tasks !! i).
Qed.

(** With a permit, tasks that can be run can be joined, one after the other. *)
Lemma pool_steps_app permits ts1 tr1 ts2 tr2 ts3 :
  pool_steps permits ts1 tr1 ts2 → pool_steps permits ts2 tr2 ts3 → pool_steps permits ts1 (tr1 ++ tr2) ts3.
Proof. induction 1; [done|]. intros. rewrite <-app_assoc. eauto using StepsCons. Qed.
Lemma pool_run_task permits ts1 p ts2 tr r :
  runs p tr r → pool_steps permits (ts1 ++ Running p :: ts2) tr (ts1 ++ Ended r :: ts2).
Proof.
  revert tr. induction p as [r0|e k IH]; intros tr; simpl.
  - intros [-> ->]. apply (StepsCons _ _ (ts1 ++ Ended r0 :: ts2) _ [] []); [|constructor].
    replace (ts1 ++ Ended r0 :: ts2) with (<[length ts1 := Ended r0]> (ts1 ++ Running (Fin r0) :: ts2))
      by by rewrite insert_app_r_alt, Nat.sub_diag.
    apply StepEnd. by rewrite lookup_app_r, Nat.sub_diag.
  - intros (a & tr' & -> & H). apply (StepsCons _ _ (ts1 ++ Running (k a) :: ts2) _ [existT e a] tr'); [|by apply IH].
    replace (ts1 ++ Running (k a) :: ts2) with (<[length ts1 := Running (k a)]> (ts1 ++ Running (Eff e k) :: ts2))
      by by rewrite insert_app_r_alt, Nat.sub_diag.
    apply StepEffect. by rewrite lookup_app_r, Nat.sub_diag.
Qed.
Lemma joins_sequential permits tasks trs :
  (0 < permits)%N → Forall2 (λ p tr, runs p tr (Done ())) tasks trs → joins permits tasks (concat trs) (Done ()).
Proof.
  intros Hp Hruns. exists ((λ _, Ended (Done ())) <$> tasks). split.
  2: { clear. induction tasks as [|p tasks IH]; [done|]. exact IH. }
  assert (∀ (done : list (prog ())), pool_steps permits
    (((λ _, Ended (Done ())) <$> done) ++ (Waiting <$> tasks)) (concat trs)
    (((λ _, Ended (Done ())) <$> done) ++ ((λ _, Ended (Done ())) <$> tasks))) as H; [|apply (H [])].
  induction Hruns as [|p tr tasks trs H1 _ IH]; intros done; [constructor|]. cbn [concat fmap list_fmap].
  assert (running (((λ _, Ended (Done ())) <$> done) ++ Waiting p :: (Waiting <$> tasks)) = 0%N) as Hzero.
  { unfold running. rewrite filter_app, filter_cons_False, length_app by done.
    assert (∀ (A : Type) (f : A → task) (l : list A), (∀ a, is_running (f a) = false) →
      length (filter (λ t, is_running t = true) (f <$> l)) = 0) as Hnone.
    { intros A f l Hf. induction l as [|a l IHl]; [done|]. rewrite fmap_cons, filter_cons_False; [done|]. by rewrite Hf. }
    by rewrite !Hnone. }
  set (pre := (λ _, Ended (Done ())) <$> done) in *.
  apply (StepsCons _ _ (pre ++ Running p :: (Waiting <$> tasks)) _ [] (tr ++ concat trs)).
  { replace (pre ++ Running p :: (Waiting <$> tasks))
      with (<[length pre := Running p]> (pre ++ Waiting p :: (Waiting <$> tasks)))
      by by rewrite insert_app_r_alt, Nat.sub_diag.
    apply StepAcquire; [by rewrite lookup_app_r, Nat.sub_diag|]. rewrite Hzero. lia. }
  eapply pool_steps_app; [by apply pool_run_task|].
  specialize (IH (done ++ [p])). rewrite fmap_app, <-!app_assoc in IH. exact IH.
Qed.

Lemma transfers_bounded_witness :
  pool_steps 1 (Waiting <$> [Fin (Done ()); Fin (Done ())]) [] [Running (Fin (Done ())); Waiting (Fin (Done ()))] ∧
  (running [Running (Fin (Done ())); Waiting (Fin (Done ()))] ≤ 1)%N ∧
  join_outcome (Waiting <$> [Fin (Done ())]) = None.
Proof.
  assert (pool_steps 1 (Waiting <$> [Fin (Done ()); Fin (Done ())]) []
    [Running (Fin (Done ())); Waiting (Fin (Done ()))]) as H.
  { apply (StepsCons _ _ [Running (Fin (Done ())); Waiting (Fin (Done ()))] _ [] []); [|constructor].
    exact (StepAcquire 1 (Waiting <$> [Fin (Done ()); Fin (Done ())]) 0 (Fin (Done ())) eq_refl eq_refl). }
  split; [exact H|]. split.
  - apply (transfers_bounded 1 [Fin (Done ()); Fin (Done ())] [] _ H).
  - by apply (transfers_bounded 0 [Fin (Done ())] [] _ (StepsRefl _ _)).
Defined.

(** * Runs of the mirror *)

Lemma flattens_app mtr1 mtr2 tr :
  flattens (mtr1 ++ mtr2) tr ↔ ∃ tr1 tr2, tr = tr1 ++ tr2 ∧ flattens mtr1 tr1 ∧ flattens mtr2 tr2.
Proof.
  revert tr. induction mtr1 as [|x mtr1 IH]; intros tr; simpl.
  - split; [by exists [], tr|]. by intros (? & ? & -> & -> & ?).
  - split.
    + intros (tr1 & tr2 & -> & Hx & (tr3 & tr4 & -> & H3 & H4)%IH).
      exists (tr1 ++ tr3), tr4. rewrite app_assoc. eauto 10.
    + intros (? & tr4 & -> & (tr1 & tr3 & -> & Hx & H3) & H4).
      exists tr1, (tr3 ++ tr4). rewrite app_assoc, IH. eauto 10.
Qed.

Lemma happens_pbind {A B} (p : mprog A) (f : outcome A → mprog B) tr r :
  happens (pbind p f) tr r →
  ∃ tr1 tr2 r1, tr = tr1 ++ tr2 ∧ happens p tr1 r1 ∧ happens (f r1) tr2 r.
Proof.
  intros (mtr & (m1 & m2 & r1 & -> & H1 & H2)%runs_pbind & (tr1 & tr2 & -> & F1 & F2)%flattens_app).
  exists tr1, tr2, r1. unfold happens. eauto 10.
Qed.
Lemma happens_Fin {A} (r0 : outcome A) tr r : happens (Fin r0) tr r → tr = [] ∧ r = r0.
Proof. by intros (mtr & [-> ->] & ->). Qed.
(** A step of the mirror: it ends here, or it is done and goes on. *)
Lemma happens_bind {A B} (p : mprog A) (f : A → mprog B) tr r :
  happens (p ≫= f) tr r →
  (∃ r1, happens p tr r1 ∧ ∀ a, r1 ≠ Done a) ∨
  ∃ tr1 tr2 a, tr = tr1 ++ tr2 ∧ happens p tr1 (Done a) ∧ happens (f a) tr2 r.
Proof.
  intros (tr1 & tr2 & r1 & -> & H1 & H2)%happens_pbind.
  destruct r1 as [a|e| |]; [right; eauto 10|left..];
    apply happens_Fin in H2 as [-> _]; rewrite app_nil_r; eauto.
Qed.
Lemma happens_bind_Done {A B} (p : mprog A) (f : A → mprog B) tr b :
  happens (p ≫= f) tr (Done b) →
  ∃ tr1 tr2 a, tr = tr1 ++ tr2 ∧ happens p tr1 (Done a) ∧ happens (f a) tr2 (Done b).
Proof.
  intros (tr1 & tr2 & r1 & -> & H1 & H2)%happens_pbind.
  destruct r1 as [a|e| |]; [eauto 10|by apply happens_Fin in H2 as [_ ?]..].
Qed.
Lemma happens_embed {A} (p : prog A) tr r : happens (embed p) tr r → runs p tr r.
Proof.
  intros (mtr & H & F). revert mtr tr H F. induction p as [r0|e k IH]; intros mtr tr; simpl.
  - by intros [-> ->] ->.
  - intros (a & mtr' & -> & H) (tr1 & tr2 & -> & -> & F). exists a, tr2. split; [done|]. by eapply IH.
Qed.
Lemma happens_map_err {A} (p : mprog A) f tr r :
  happens (map_err p f) tr r → ∃ r1, happens p tr r1 ∧ (∀ a, r = Done a → r1 = Done a).
Proof.
  intros (tr1 & tr2 & r1 & -> & H1 & H2)%happens_pbind. exists r1.
  destruct r1 as [a|e| |]; apply happens_Fin in H2 as [-> ->]; by rewrite app_nil_r.
Qed.

(** * Content before manifests *)

Section order.
Context `{SJ : SerdeJson, HL : HttpLib}.
Context (src dst : ImageRef).

(** A request that pushes a manifest to the destination. *)
Definition manifest_put (reference : string) (body : bytes) (content_type : string) (auth : Io.Authorization)
    : event :=
  Send (MkCliRequest PUT (cli_manifest_url dst reference) [("content-type", content_type)] auth (Some body)).
Definition is_manifest_put (e : event) : bool :=
  match e with
  | Send q => match cq_method q, cq_body q with PUT, Some _ => true | _, _ => false end
  | _ => false
  end.

(** The destination has a manifest, or it accepted the one that the source answered
    for this digest: the answer's body and type, under the digest the answer states
    (the code takes the source's word for it, and the empty text if it states none). *)
Definition has_manifest (digest : string) (tr : trace) : Prop :=
  ∃ auth resp, existT (Send (MkCliRequest HEAD (cli_manifest_url dst digest)
    [("accept", CLI_MANIFEST_ACCEPT)] auth None)) (inr resp) ∈ tr ∧ ur_status resp = 200%N.
Definition answered_manifest (got : UpResponse) (body : bytes) : ManifestData :=
  MkManifestData body (default "application/vnd.oci.image.manifest.v1+json" (ur_headers got !! "content-type"))
    (default "" (ur_headers got !! "docker-content-digest")).
Definition push_answered (m : ManifestData) (auth : Io.Authorization) : event :=
  manifest_put (md_digest m) (md_body m) (md_content_type m) auth.
Definition copied_manifest (digest : string) (tr : trace) : Prop :=
  ∃ auth auth' got body resp,
    existT (Send (MkCliRequest GET (cli_manifest_url src digest) [("accept", CLI_MANIFEST_ACCEPT)] auth None)) (inr got)
      ∈ tr ∧ collect (ur_body got) = inr body ∧
    existT (push_answered (answered_manifest got body) auth') (inr resp) ∈ tr ∧
    ur_status resp = 201%N.

(** What must have been said before a manifest is pushed. *)
Definition content_ready (body : bytes) (content_type : string) (tr : trace) : Prop :=
  ∃ parsed, from_slice body = Some parsed ∧
    if is_index_manifest content_type then
      ∀ child, child ∈ cli_extract_child_manifests parsed →
        has_manifest (bd_digest child) tr ∨ copied_manifest (bd_digest child) tr
    else ∀ blob, blob ∈ cli_extract_blob_descriptors parsed →
        has_blob dst (bd_digest blob) tr ∨ completed (bd_digest blob) tr.

(** Every manifest pushed in [tr], after [before], is pushed to the destination when its
    content is there. *)
Definition ordered (before tr : trace) : Prop :=
  ∀ tr1 e a tr2, tr = tr1 ++ existT e a :: tr2 → is_manifest_put e = true →
    ∃ reference body content_type auth,
      e = manifest_put reference body content_type auth ∧ content_ready body content_type (before ++ tr1).

Lemma content_ready_mono body content_type tr tr' :
  tr ⊆ tr' → content_ready body content_type tr → content_ready body content_type tr'.
Proof.
  intros Hsub (parsed & Hp & H). exists parsed. split; [done|].
  destruct (is_index_manifest content_type); intros d Hd; destruct (H d Hd) as [Hx|Hx].
  - left. unfold has_manifest in *. naive_solver.
  - right. unfold copied_manifest in *. naive_solver.
  - left. unfold has_blob in *. naive_solver.
  - right. unfold completed in *. naive_solver.
Qed.
Lemma ordered_nil before : ordered before [].
Proof. intros tr1 e a tr2 H. by destruct tr1. Qed.
Lemma ordered_app before tr1 tr2 :
  ordered before tr1 → ordered (before ++ tr1) tr2 → ordered before (tr1 ++ tr2).
Proof.
  intros H1 H2 l e a r Heq He. apply app_eq_inv in Heq as [(k & -> & Heq)|(k & -> & ->)].
  - destruct k as [|x k].
    + rewrite app_nil_r in *. simpl in Heq. destruct (H2 [] e a r) as (? & ? & ? & ? & -> & Hr); [done|done|].
      rewrite app_nil_r in Hr. eauto 10.
    + simplify_eq/=. destruct (H1 l e a k) as (? & ? & ? & ? & -> & Hr); [done|done|]. eauto 10.
  - destruct (H2 k e a r) as (? & ? & ? & ? & -> & Hr); [done|done|]. rewrite app_assoc. eauto 10.
Qed.
Lemma ordered_quiet before (tr : trace) : Forall (λ x, is_manifest_put (projT1 x) = false) tr → ordered before tr.
Proof.
  intros Hq tr1 e a tr2 -> He. rewrite Forall_app, Forall_cons in Hq. destruct Hq as (_ & Hx & _).
  change (is_manifest_put e = false) in Hx. congruence.
Qed.

Context (response_text : list (message + bytes) → string).
Context (parse_uri : string → option (option string * option string)).
Context (opens : nat).

Abbreviation quiet := (λ e, is_manifest_put e = false).

Lemma patch_quiet image url chunk offset : only quiet (patch_chunk response_text parse_uri image url chunk offset).
Proof. unfold patch_chunk. pieces. Qed.
Lemma flush_quiet image url sent buffer : only quiet (flush response_text parse_uri image url sent buffer).
Proof. destruct buffer; [done|apply patch_quiet]. Qed.
Lemma send_chunks_quiet rounds image url sent buffer :
  only quiet (send_chunks response_text parse_uri rounds image url sent buffer).
Proof.
  revert url sent buffer. induction rounds as [|rounds IH]; [done|]. intros. cbn [send_chunks].
  apply only_bind; [apply patch_quiet|]. intros [? ?]. apply IH.
Qed.
Lemma read_stream_quiet stream image url sent retries buffer :
  only quiet (read_stream response_text parse_uri stream image url sent retries buffer).
Proof.
  revert url sent retries buffer. induction stream as [|[e|chunk] stream IH]; intros; cbn [read_stream].
  - apply only_bind; [apply flush_quiet|]. by intros [? ?].
  - cbv zeta. case_match; [done|]. apply only_bind; [apply flush_quiet|]. intros [? ?]. by apply only_bind.
  - apply only_bind; [apply send_chunks_quiet|]. intros [[? ?] ?]. apply IH.
Qed.
Lemma get_blob_stream_quiet image digest offset : only quiet (get_blob_stream image digest offset).
Proof.
  unfold get_blob_stream. case_match; [pieces|]. apply only_bind; [by apply only_retry|]. intros; apply only_status.
Qed.
Lemma transfer_loop_quiet digest size url sent retries :
  only quiet (transfer_loop response_text parse_uri opens src dst digest size url sent retries).
Proof.
  revert url sent retries. induction opens as [|opens' IH]; intros; cbn [transfer_loop]; case_match; try done.
  apply only_bind; [apply get_blob_stream_quiet|]. intros resp.
  apply only_bind; [apply read_stream_quiet|]. intros [? ? ?|?]; [apply IH|done].
Qed.
Lemma transfer_quiet digest size :
  only quiet (transfer_single_blob response_text parse_uri opens src dst digest size).
Proof.
  unfold transfer_single_blob. apply only_bind; [done|]. intros _.
  apply only_bind. { apply only_bind; [by apply only_retry|done]. } intros [|]; [by apply only_perform|].
  apply only_bind.
  { unfold cli_start_upload. apply only_bind; [by apply only_retry|]. intros. case_match; [done|].
    case_match; [apply only_resolve|done]. } intros url.
  apply only_bind; [apply transfer_loop_quiet|]. intros url'.
  apply only_bind; [unfold cli_complete_upload; pieces|]. intros _. by apply only_perform.
Qed.

Lemma head_manifest_quiet image reference : only quiet (cli_head_manifest image reference).
Proof. unfold cli_head_manifest. apply only_bind; [by apply only_retry|]. intros. by repeat case_match. Qed.
Lemma get_manifest_quiet image reference : only quiet (cli_get_manifest image reference).
Proof.
  unfold cli_get_manifest. apply only_bind; [by apply only_retry|]. intros.
  apply only_bind; [apply only_status|]. intros. by case_match.
Qed.
Lemma list_tags_quiet pages image : only quiet (cli_list_tags pages image).
Proof.
  unfold cli_list_tags. generalize (@None string) (@nil string).
  induction pages as [|pages IH]; intros last_tag tags; [done|]. cbn [cli_tag_pages]. cbv zeta.
  apply only_bind; [by apply only_retry|]. intros. apply only_bind; [apply only_status|]. intros.
  apply only_bind; [apply only_json|]. intros. case_match; [done|apply IH].
Qed.

Lemma head_manifest_Done reference tr x :
  runs (cli_head_manifest dst reference) tr (Done (Some x)) → has_manifest reference tr.
Proof.
  unfold cli_head_manifest. intros (tr1 & tr2 & resp & -> & [auth H]%retry_Done & H2)%runs_bind_Done.
  case_bool_decide as Hs; [|by case_bool_decide; destruct H2]. exists auth, resp. rewrite elem_of_app. auto.
Qed.
Lemma get_manifest_Done reference tr m :
  runs (cli_get_manifest src reference) tr (Done m) →
  ∃ auth got, existT (Send (MkCliRequest GET (cli_manifest_url src reference)
    [("accept", CLI_MANIFEST_ACCEPT)] auth None)) (inr got) ∈ tr ∧
    collect (ur_body got) = inr (md_body m) ∧ m = answered_manifest got (md_body m).
Proof.
  unfold cli_get_manifest. intros (tr1 & tr2 & resp & -> & [auth H]%retry_Done & H2)%runs_bind_Done.
  apply runs_bind_Done in H2 as (tr3 & tr4 & resp' & -> & H3 & H4).
  unfold cli_error_for_status in H3. case_bool_decide; destruct H3 as [-> [= ->]].
  destruct (collect (ur_body resp)) eqn:Ec; destruct H4 as [-> [= ->]].
  exists auth, resp. rewrite elem_of_app. auto.
Qed.

(** Pushing a manifest, with its retries. *)
Lemma put_manifest_ordered before reference body content_type tr r :
  runs (cli_put_manifest response_text dst reference body content_type) tr r →
  content_ready body content_type before → ordered before tr.
Proof.
  intros H Hready tr1 e a tr2 -> He.
  assert (only (λ e, is_manifest_put e = false ∨ ∃ auth, e = manifest_put reference body content_type auth)
    (cli_put_manifest response_text dst reference body content_type)) as Hall.
  { unfold cli_put_manifest. apply only_bind; [|intros; by case_match].
    apply only_retry; try (by left). intros auth. right. by exists auth. }
  eapply only_runs in Hall; [|done]. rewrite Forall_app, Forall_cons in Hall.
  destruct Hall as (_ & [Hf|[auth He']] & _).
  - change (is_manifest_put e = false) in Hf. congruence.
  - change (e = manifest_put reference body content_type auth) in He'. exists reference, body, content_type, auth.
    split; [done|]. eapply content_ready_mono; [|done]. intros x Hx. apply elem_of_app. by left.
Qed.
Lemma put_manifest_Done reference body content_type tr :
  runs (cli_put_manifest response_text dst reference body content_type) tr (Done ()) →
  ∃ auth resp, existT (manifest_put reference body content_type auth) (inr resp) ∈ tr ∧ ur_status resp = 201%N.
Proof.
  unfold cli_put_manifest. intros (tr1 & tr2 & resp & -> & [auth H]%retry_Done & H2)%runs_bind_Done.
  case_bool_decide as Hs; [|by destruct H2]. exists auth, resp. rewrite elem_of_app. auto.
Qed.

(** Sequencing. *)
Lemma ordered_bind {A B} (p : mprog A) (f : A → mprog B) before tr r :
  happens (p ≫= f) tr r →
  (∀ tr1 r1, happens p tr1 r1 → ordered before tr1) →
  (∀ tr1 a tr2, happens p tr1 (Done a) → happens (f a) tr2 r → ordered (before ++ tr1) tr2) →
  ordered before tr.
Proof.
  intros [(r1 & H & _)|(tr1 & tr2 & a & -> & H1 & H2)]%happens_bind Hp Hf; [by eapply Hp|].
  apply ordered_app; [by eapply Hp|by eapply Hf].
Qed.
Lemma ordered_embed {A} (p : prog A) before tr r : only quiet p → happens (embed p) tr r → ordered before tr.
Proof. intros Hq H%happens_embed. apply ordered_quiet. by eapply (only_runs quiet). Qed.
Lemma ordered_Fin {A} (o : outcome A) before tr r : happens (Fin o) tr r → ordered before tr.
Proof. intros [-> _]%happens_Fin. apply ordered_nil. Qed.

Lemma transfer_blobs_ordered permits blobs before tr r :
  happens (transfer_blobs response_text parse_uri opens permits src dst blobs) tr r →
  ordered before tr ∧
  (r = Done () → ∀ blob, blob ∈ blobs → has_blob dst (bd_digest blob) tr ∨ completed (bd_digest blob) tr).
Proof.
  intros (mtr & (o & ? & -> & -> & ->) & (tr1 & tr2 & -> & Hj & Hnil)).
  simpl in Hj, Hnil. subst tr2. rewrite app_nil_r. split.
  - apply ordered_quiet. eapply (joins_only quiet); [|done].
    intros p (b & -> & _)%list_elem_of_fmap. apply transfer_quiet.
  - intros -> blob Hb. eapply joins_Done in Hj as (tr' & Hsub & Hrun);
      [|apply list_elem_of_fmap; by exists blob].
    pose proof (sublist_subseteq _ _ Hsub) as Hin.
    apply transfer_single_blob_Done in Hrun as [[(auth & resp & Hi & Hs) _]|[(u & auth & resp & Hi & Hs) _]].
    + left. exists auth, resp. split; [by apply Hin|done].
    + right. exists u, auth, resp. split; [by apply Hin|done].
Qed.

(** The children of an index: each is there, or is copied first. *)
Definition child_ready (child : BlobDescriptor) (tr : trace) : Prop :=
  has_manifest (bd_digest child) tr ∨ copied_manifest (bd_digest child) tr.
Lemma child_ready_mono child (tr tr' : trace) : tr ⊆ tr' → child_ready child tr → child_ready child tr'.
Proof.
  intros Hsub [(auth & resp & H & Hs)|(auth & auth' & got & body & resp & H1 & H2 & H3 & H4)].
  - left. exists auth, resp. split; [by apply Hsub|done].
  - right. exists auth, auth', got, body, resp. split_and!; [by apply Hsub|done|by apply Hsub|done].
Qed.

Lemma for_children_ordered children f before tr r :
  (∀ child before tr r, happens (f child) tr r → ordered before tr ∧ (r = Done () → child_ready child tr)) →
  happens (for_children children f) tr r →
  ordered before tr ∧ (r = Done () → ∀ child, child ∈ children → child_ready child tr).
Proof.
  intros Hf. revert before tr. induction children as [|child children IH]; intros before tr; cbn [for_children].
  - intros [-> ->]%happens_Fin. split; [apply ordered_nil|]. by intros _ child ?%elem_of_nil.
  - intros H. split.
    + eapply ordered_bind; [done| |].
      * intros tr1 r1 H1. by apply (Hf child before tr1 r1).
      * intros tr1 [] tr2 H1 H2. by apply (IH (before ++ tr1) tr2).
    + intros ->. apply happens_bind_Done in H as (tr1 & tr2 & [] & -> & H1 & H2).
      intros c [->|Hc]%elem_of_cons.
      * eapply child_ready_mono; [|by apply (Hf child [] tr1 (Done ()))].
        intros x Hx. apply elem_of_app. by left.
      * eapply child_ready_mono; [|by apply (IH [] tr2 H2)]. intros x Hx. apply elem_of_app. by right.
Qed.

Lemma mirror_manifest_ordered depth permits manifest reference is_tag before tr r :
  happens (mirror_manifest response_text parse_uri opens depth permits src dst manifest reference is_tag) tr r →
  ordered before tr ∧
  (r = Done () → ∃ auth resp,
    existT (manifest_put (if is_tag then reference else md_digest manifest) (md_body manifest)
              (md_content_type manifest) auth) (inr resp) ∈ tr ∧ ur_status resp = 201%N).
Proof.
  revert manifest reference is_tag before tr r.
  induction depth as [|depth IH]; intros manifest reference is_tag before tr r; cbn [mirror_manifest].
  { intros [-> ->]%happens_Fin. split; [apply ordered_nil|done]. }
  destruct (from_slice (md_body manifest)) as [parsed|] eqn:Ep;
    [|intros [-> ->]%happens_Fin; split; [apply ordered_nil|done]].
  set (content := if is_index_manifest _ then _ else _). intros H.
  assert (∀ before tr1 r1, happens content tr1 r1 → ordered before tr1 ∧
    (r1 = Done () → content_ready (md_body manifest) (md_content_type manifest) (before ++ tr1))) as Hcontent.
  { intros b tr1 r1 H1. unfold content, content_ready in *. destruct (is_index_manifest (md_content_type manifest)).
    - eapply (for_children_ordered _ _ b) in H1 as [Ho Hr].
      + split; [done|]. intros ->. exists parsed. split; [done|]. intros child Hc.
        apply (child_ready_mono child tr1); [intros x Hx; apply elem_of_app; by right|]. by apply Hr.
      + clear -IH SJ HL. intros child b tr r H. split.
        * eapply ordered_bind; [done|intros; eapply ordered_embed; [apply head_manifest_quiet|done]|].
          intros tr1 [x|] tr2 H1 H2; [exact (ordered_Fin _ _ _ _ H2)|].
          eapply ordered_bind; [done|intros; eapply ordered_embed; [apply get_manifest_quiet|done]|].
          intros tr3 m tr4 _ H4. exact (proj1 (IH _ _ _ _ _ _ H4)).
        * intros ->. apply happens_bind_Done in H as (tr1 & tr2 & known & -> & H1%happens_embed & H2).
          destruct known as [x|].
          { left. apply head_manifest_Done in H1 as (auth & resp & ? & ?). exists auth, resp.
            rewrite elem_of_app. auto. }
          right. apply happens_bind_Done in H2 as (tr3 & tr4 & m & -> & H3%happens_embed & H4).
          apply get_manifest_Done in H3 as (auth & got & Hg & Hb & Hm).
          destruct (proj2 (IH _ _ _ [] _ _ H4) eq_refl) as (auth' & resp & Hp & Hs).
          exists auth, auth', got, (md_body m), resp. rewrite <-Hm, !elem_of_app. auto 10.
    - eapply (transfer_blobs_ordered _ _ b) in H1 as [Ho Hr]. split; [done|]. intros ->.
      exists parsed. split; [done|]. intros blob Hb. destruct (Hr eq_refl blob Hb) as [(a1 & r1 & ? & ?)|(u & a1 & r1 & ? & ?)].
      + left. exists a1, r1. rewrite elem_of_app. auto.
      + right. exists u, a1, r1. rewrite elem_of_app. auto. }
  split.
  - eapply ordered_bind; [done|intros; by eapply Hcontent|]. intros tr1 [] tr2 H1 H2.
    destruct (Hcontent before _ _ H1) as [_ Hready]. specialize (Hready eq_refl).
    eapply ordered_bind; [done| |].
    { intros tr3 r3 H3%happens_embed. by eapply put_manifest_ordered. }
    intros tr3 [] tr4 _ H4. eapply ordered_bind; [done| |].
    { intros tr5 r5 (mtr & (a & ? & -> & -> & ->) & (tr6 & tr7 & -> & -> & ->)). by apply ordered_quiet; constructor. }
    intros tr5 [] tr6 _ H6. eapply ordered_bind; [done|intros; by eapply ordered_Fin|].
    intros tr7 x tr8 _ H8. exact (ordered_Fin _ _ _ _ H8).
  - intros ->. apply happens_bind_Done in H as (tr1 & tr2 & [] & -> & _ & H).
    apply happens_bind_Done in H as (tr3 & tr4 & [] & -> & H3%happens_embed & _).
    apply put_manifest_Done in H3 as (auth & resp & Hp & Hs). exists auth, resp. rewrite !elem_of_app. auto.
Qed.

Lemma mirror_tag_ordered depth permits tag before tr r :
  happens (mirror_tag response_text parse_uri opens depth permits src dst tag) tr r → ordered before tr.
Proof.
  assert (∀ before tr r, happens (manifest ← embed (cli_get_manifest src tag);
    mirror_manifest response_text parse_uri opens depth permits src dst manifest tag true) tr r → ordered before tr) as Hcopy.
  { intros b t x H. eapply ordered_bind; [done|intros; eapply ordered_embed; [apply get_manifest_quiet|done]|].
    intros tr1 m tr2 _ H2. exact (proj1 (mirror_manifest_ordered _ _ _ _ _ _ _ _ H2)). }
  unfold mirror_tag. intros H.
  eapply ordered_bind; [done|intros; eapply ordered_embed; [apply head_manifest_quiet|done]|].
  intros tr1 [[src_digest ?]|] tr2 _ H2; [|exact (ordered_Fin _ _ _ _ H2)].
  eapply ordered_bind; [done|intros; eapply ordered_embed; [apply head_manifest_quiet|done]|].
  intros tr3 [[dst_digest ?]|] tr4 _ H4; [|by eapply Hcopy].
  case_bool_decide; [|by eapply Hcopy].
  eapply ordered_bind; [done|intros tr5 r5 H5; exact (ordered_Fin _ _ _ _ H5)|].
  intros tr5 x tr6 _ H6. exact (ordered_Fin _ _ _ _ H6).
Qed.

Lemma mirror_tags_ordered depth permits tags before tr r :
  happens (mirror_tags response_text parse_uri opens depth permits src dst tags) tr r → ordered before tr.
Proof.
  revert before tr. induction tags as [|tag tags IH]; intros before tr; cbn [mirror_tags]; intros H.
  { exact (ordered_Fin _ _ _ _ H). }
  eapply ordered_bind; [done| |].
  - intros tr1 r1 (r2 & H2 & _)%happens_map_err. by eapply mirror_tag_ordered.
  - intros tr1 x tr2 _ H2. by eapply IH.
Qed.

(** C35: no image is published before its content. In every run of the mirror, also one
    that fails, and however the transfers interleave: when a manifest is pushed to the
    destination, the destination has already confirmed the blob of every config and
    layer descriptor of it that has a digest and a size (it had the blob, or it accepted
    its completed upload), and for an index the manifest of every descriptor of it that
    has a digest and a size (it had the manifest, or it accepted the one the source
    answered for that digest, under the digest the answer states). Descriptors without a
    size are not copied. *)
Theorem manifests_after_content pages depth opts tr r :
  happens (mirror response_text parse_uri opens pages depth src dst opts) tr r → ordered [] tr.
Proof.
  unfold mirror. intros H.
  eapply ordered_bind; [done| |].
  { intros tr1 r1 (r2 & H2 & _)%happens_map_err. eapply ordered_embed; [|done]. by apply only_ensure_auth. }
  intros tr1 x1 tr2 _ H2. eapply ordered_bind; [done| |].
  { intros tr3 r3 (r4 & H4 & _)%happens_map_err. eapply ordered_embed; [|done]. by apply only_ensure_auth. }
  intros tr3 x3 tr4 _ H4. eapply ordered_bind; [done| |].
  { intros tr5 r5 H5. destruct (mo_all_tags opts).
    - apply happens_map_err in H5 as (r6 & H6 & _). eapply ordered_embed; [apply list_tags_quiet|done].
    - destruct (im_reference src); exact (ordered_Fin _ _ _ _ H5). }
  intros tr5 tags tr6 _ H6. cbv beta in H6.
  destruct (mo_all_tags opts && bool_decide (tags = [])); [exact (ordered_Fin _ _ _ _ H6)|].
  destruct (bool_decide (MAX_PERMITS < _)%N); [exact (ordered_Fin _ _ _ _ H6)|]. by eapply mirror_tags_ordered.
Qed.
End order.

(** * Defects *)

Definition tags_json : SerdeJson := json_tree (λ _, Some (JObj [("tags", JArr [JStr "a"])])).

(** A registry that answers everything in the same way, without a digest. *)
Definition same_answer (e : event) : answer e :=
  match e return answer e with
  | Send q => inr (MkUpResponse (match cq_method q with PUT => 201 | _ => 200 end) ∅ [inr [Byte.x7b]])
  | TokenLookup _ => None
  | Wait _ | TokenInsert _ _ | TokenDrop _ | Count _ => ()
  end.
(** A source and a destination that differ in their digests; all transfers succeed. *)
Definition two_digests (e : mevent) : manswer e :=
  match e return manswer e with
  | Base (Send q) =>
      inr (MkUpResponse (match cq_method q with PUT => 201 | _ => 200 end)
             {["docker-content-digest" := cq_url q]} [inr [Byte.x7b]])
  | Base e => same_answer e
  | Join _ _ => Done ()
  end.
Definition one_answer (e : mevent) : manswer e :=
  match e return manswer e with Base e => same_answer e | Join _ _ => Done () end.

(** The methods and URLs of the requests of a run. *)
Definition requested (mtr : log manswer) : list (Method * string) :=
  omap (λ x, match projT1 x with Base (Send q) => Some (cq_method q, cq_url q) | _ => None end) mtr.
Definition copy (source destination : string) : mprog () :=
  run_mirror no_text no_uri 8 1 4 source destination 8 false false.

(** A run that copies an image of two blobs, both of which the destination has. *)
Definition has_blobs (e : event) : answer e :=
  match e return answer e with
  | Send q => inr (MkUpResponse (match cq_method q with PUT => 201 | _ => 200 end)
                     {["docker-content-digest" := cq_url q]} [inr [Byte.x7b]])
  | e => same_answer e
  end.
(** Running the tasks of a mirror one after the other. *)
Definition is_done (o : outcome ()) : bool := match o with Done _ => true | _ => false end.
Definition joined_ok (oracle : ∀ e, answer e) (x : { e : mevent & manswer e }) : bool :=
  let 'existT e a := x in
  match e return manswer e → bool with
  | Base _ => λ _, true
  | Join permits tasks => λ o,
      bool_decide (0 < permits)%N && forallb (λ p, is_done (play oracle p).2) tasks && is_done o
  end a.
Definition requests_behind (oracle : ∀ e, answer e) (x : { e : mevent & manswer e }) : trace :=
  let 'existT e a := x in
  match e return manswer e → trace with
  | Base e => λ a, [existT e a]
  | Join _ tasks => λ _, concat ((λ p, (play oracle p).1) <$> tasks)
  end a.
Lemma flattens_sequential oracle mtr :
  forallb (joined_ok oracle) mtr = true → flattens mtr (concat (requests_behind oracle <$> mtr)).
Proof.
  induction mtr as [|[e a] mtr IH]; [done|]. cbn [forallb]. intros [Hx Hm]%andb_true_iff.
  exists (requests_behind oracle (existT e a)), (concat (requests_behind oracle <$> mtr)).
  split; [done|]. split; [|by apply IH]. destruct e as [e|permits tasks]; [done|]. simpl in *.
  apply andb_true_iff in Hx as [[Hp%bool_decide_eq_true Ht]%andb_true_iff Ho]. destruct a as [[]| | |]; try done.
  apply joins_sequential; [done|]. apply Forall2_fmap_r. induction tasks as [|p tasks IHt]; [constructor|].
  cbn in Ht. apply andb_true_iff in Ht as [H1 H2]. constructor; [|by apply IHt].
  unfold compose. pose proof (tree_play_runs oracle p) as Hr. destruct (play oracle p) as [tr r].
  simpl in *. by destruct r as [[]| | |].
Qed.

Definition copy_log : log manswer := (play two_digests (copy "q.io/team/app:1" "d.io/team/app:1")).1.
Lemma manifests_after_content_witness :
  happens (copy "q.io/team/app:1" "d.io/team/app:1") (concat (requests_behind has_blobs <$> copy_log)) (Done ()) ∧
  ordered from_q to_d [] (concat (requests_behind has_blobs <$> copy_log)).
Proof.
  assert (happens (copy "q.io/team/app:1" "d.io/team/app:1")
    (concat (requests_behind has_blobs <$> copy_log)) (Done ())) as H.
  { exists copy_log. split; [|apply flattens_sequential; vm_compute; reflexivity].
    assert ((play two_digests (copy "q.io/team/app:1" "d.io/team/app:1")).2 = Done ()) as <-
      by (vm_compute; reflexivity). apply tree_play_runs. }
  split; [exact H|].
  exact (manifests_after_content from_q to_d no_text no_uri 8 1 4 (MkMirrorOptions 8 false) _ _ H).
Defined.

(** The tag of the destination is not used: the image is pushed under the tag it has at
    the source. *)
Theorem destination_tag_ignored :
  (play two_digests (copy "q.io/team/app:1" "d.io/team/app:stable")).2 = Done () ∧
  last (requested (play two_digests (copy "q.io/team/app:1" "d.io/team/app:stable")).1) =
    Some (PUT, "https://d.io/v2/team/app/manifests/1").
Proof. vm_compute. done. Qed.

(** Registries that name no digest count as up to date with each other: nothing is
    copied, and the command succeeds. *)
Theorem missing_digests_up_to_date :
  (play one_answer (copy "q.io/team/app:1" "d.io/team/app:1")).2 = Done () ∧
  requested (play one_answer (copy "q.io/team/app:1" "d.io/team/app:1")).1 =
    [(GET, "https://q.io/v2/"); (GET, "https://d.io/v2/");
     (HEAD, "https://q.io/v2/team/app/manifests/1"); (HEAD, "https://d.io/v2/team/app/manifests/1")].
Proof. vm_compute. done. Qed.

(** A registry that ignores [last], or does not page, is asked for its tags for ever. *)
Theorem unpaged_tags_endless pages image :
  (play same_answer (@cli_list_tags tags_json cli_http pages image)).2 = Unfinished.
Proof.
  unfold cli_list_tags. generalize (@None string) (@nil string).
  induction pages as [|pages IH]; intros last_tag tags; [done|]. cbn.
  change (bool_decide (200%N = 401%N)) with false. change (cli_is_retryable 200) with false. cbn.
  match goal with |- context [play same_answer ?p] =>
    change p with (@cli_tag_pages tags_json cli_http pages image (Some "a") (tags ++ ["a"])) end.
  specialize (IH (Some "a") (tags ++ ["a"])). by destruct (play _ _).
Qed.
