(* ===== verification/AirGapped.v ===== *)
(** The air-gapped bootstrap of the command line (crates/layerhouse-ctl/src/air_gapped.rs):
    certificates, the Kubernetes and containerd bundle, and the guided dialogue.

    A command is a function of the file system, the pending lines of the terminal and a
    counter of system calls. Any system call may fail, as [fault] says of its number; a
    write that fails may leave any content behind ([torn]). Paths are texts, and
    different texts are different files. *)

From Stdlib Require Import Ascii.
From stdpp Require Import options.
From S2P Require Import Prelude Errors Addresses.

(** * Errors and the file system *)

Inductive AirGappedError :=
  | InvalidInput (m : message)
  | IoError (m : message)
  | CertificateError (m : message).

Inductive ares (A : Type) := AOk (a : A) | AErr (e : AirGappedError) | APanic.
#[global] Arguments AOk {_} _.
#[global] Arguments AErr {_} _.
#[global] Arguments APanic {_}.

(** A file: its bytes, and whether only its owner may access it (mode 0600). *)
Record File := MkFile { f_data : string; f_private : bool }.
Record Machine := MkMachine {
  m_files : gmap string File;
  m_dirs : gset string;
  m_calls : nat;
  m_input : list string;
}.

Definition cmd (A : Type) : Type := Machine → Machine * ares A.
Definition cret {A} (a : A) : cmd A := λ m, (m, AOk a).
Definition cfail {A} (e : AirGappedError) : cmd A := λ m, (m, AErr e).
Definition invalid {A} (text : message) : cmd A := cfail (InvalidInput text).
#[global] Instance cmd_mbind : MBind cmd := λ A B f p m,
  match p m with
  | (m', AOk a) => f a m'
  | (m', AErr e) => (m', AErr e)
  | (m', APanic) => (m', APanic)
  end.

(** [Path::join] with a relative component. *)
Definition join_path (base component : string) : string :=
  if Str.is_empty base then component
  else if Str.ends_with "/" base then base +:+ component
  else base +:+ "/" +:+ component.

(** * Defaults *)

Definition DEFAULT_CA_DAYS : N := 3650.
Definition DEFAULT_CERT_DAYS : N := 825.
Definition DEFAULT_NAMESPACE : string := "layerhouse".
Definition DEFAULT_SERVER_TLS_SECRET : string := "layerhouse-server-tls".
Definition DEFAULT_RAFT_TLS_SECRET : string := "layerhouse-raft-mtls".
Definition DEFAULT_STATEFULSET_NAME : string := "layerhouse".
Definition DEFAULT_HEADLESS_SERVICE : string := "layerhouse-headless".
Definition DEFAULT_REPLICAS : N := 3.
Definition DEFAULT_OUT : string := "./layerhouse-airgap".
Definition DEFAULT_IMAGE_REPOSITORY : string := "ghcr.io/layerhouse-oci/layerhouse-server".
Definition DEFAULT_IMAGE_TAG : string := "0.0.3".

Record CertInitArgs := MkCertInitArgs {
  ci_registry_host : string;
  ci_sans : list string;
  ci_namespace : string;
  ci_statefulset_name : string;
  ci_headless_service : string;
  ci_replicas : N;
  ci_out : string;
  ci_ca_days : N;
  ci_cert_days : N;
  ci_overwrite : bool;
}.
Record BundleGenerateArgs := MkBundleGenerateArgs {
  bg_registry_endpoint : string;
  bg_cert_dir : string;
  bg_namespace : string;
  bg_server_tls_secret : string;
  bg_raft_tls_secret : string;
  bg_image_repository : string;
  bg_image_tag : string;
  bg_out : string;
  bg_overwrite : bool;
}.
Inductive AirGappedCommands :=
  | Bootstrap (interactive : bool)
  | CertInit (args : CertInitArgs)
  | BundleGenerate (args : BundleGenerateArgs).

(** * Validation *)

(** [str::parse::<IpAddr>()]. *)
Definition parse_ip_addr (s : string) : option IpAddr :=
  match read_ipv4_addr s with
  | Some (a, "") => Some (V4 a)
  | Some _ => None
  | None => match read_ipv6_addr s with Some (a, "") => Some (V6 a) | _ => None end
  end.

Definition validate_registry_host (value : string) : cmd string :=
  let value := Str.trim value in
  if Str.is_empty value then invalid [Lit "registry host cannot be empty"]
  else if Str.contains "://" value || Str.contains_char "/" value then
    invalid [Lit "registry host must not include scheme or path: "; Disp value]
  else if Str.contains_char ":" value && bool_decide (parse_ip_addr value = None) then
    invalid [Lit "registry host must not include a port: "; Disp value]
  else cret value.

Definition validate_registry_endpoint (value : string) : cmd string :=
  let value := Str.trim value in
  if Str.is_empty value then invalid [Lit "registry endpoint cannot be empty"]
  else if Str.contains "://" value || Str.contains_char "/" value then
    invalid [Lit "registry endpoint must be host[:port], without scheme or path: "; Disp value]
  else cret value.

(** A [BTreeSet] of texts, in order. *)
Definition btree_set (l : list string) : list string := merge_sort String.le (remove_dups l).

(** The names of the pod with an ordinal. *)
Definition pod_names (statefulset_name headless_service namespace : string) (ordinal : N) : list string :=
  let pod := statefulset_name +:+ "-" +:+ Str.of_u64 ordinal in
  [pod; pod +:+ "." +:+ headless_service; pod +:+ "." +:+ headless_service +:+ "." +:+ namespace +:+ ".svc";
   pod +:+ "." +:+ headless_service +:+ "." +:+ namespace +:+ ".svc.cluster.local"].
Definition raft_dns_sans (statefulset_name headless_service namespace : string) (replicas : N) : list string :=
  btree_set
    ([headless_service; headless_service +:+ "." +:+ namespace +:+ ".svc";
      headless_service +:+ "." +:+ namespace +:+ ".svc.cluster.local";
      "*." +:+ headless_service; "*." +:+ headless_service +:+ "." +:+ namespace +:+ ".svc";
      "*." +:+ headless_service +:+ "." +:+ namespace +:+ ".svc.cluster.local"] ++
     mjoin ((λ i, pod_names statefulset_name headless_service namespace (N.of_nat i)) <$> seq 0 (N.to_nat replicas))).

(** * Texts *)

(** Text in which a single quote stands for a double one. *)
Fixpoint quoted (s : string) : string :=
  match s with
  | EmptyString => ""
  | String a s' => String (if decide (a = "'"%char) then ascii_of_nat 34 else a) (quoted s')
  end.

Definition containerd_hosts (endpoint : string) : string :=
  quoted "server = 'https://" +:+ endpoint +:+ quoted "'

[host.'https://" +:+ endpoint +:+ quoted "']
  capabilities = ['pull', 'resolve', 'push']
  ca = '/etc/containerd/certs.d/" +:+ endpoint +:+ quoted "/ca.crt'
".

Definition containerd_install_md (endpoint : string) : string :=
  "# containerd trust install

Install `ca.crt` and `hosts.toml` on every Kubernetes node through your normal
node-management path.

Target paths:

```text
/etc/containerd/certs.d/" +:+ endpoint +:+ "/ca.crt
/etc/containerd/certs.d/" +:+ endpoint +:+ "/hosts.toml
```

Restart or reload containerd according to your node OS.

Verify from a node:

```bash
crictl pull " +:+ endpoint +:+ "/qa/alpine:v1
```
".

Definition server_tls_config (secret_name : string) : string :=
  "# Mount Kubernetes Secret `" +:+ secret_name +:+ quoted "` at /etc/layerhouse/tls.
[server.tls]
cert_path = '/etc/layerhouse/tls/tls.crt'
key_path = '/etc/layerhouse/tls/tls.key'
".

Definition raft_tls_config (secret_name : string) : string :=
  "# Mount Kubernetes Secret `" +:+ secret_name +:+ quoted "` at /etc/layerhouse/raft-tls.
[raft]
listen = '0.0.0.0:5051'

[raft.tls]
cert_path = '/etc/layerhouse/raft-tls/tls.crt'
key_path = '/etc/layerhouse/raft-tls/tls.key'
server_ca_path = '/etc/layerhouse/raft-tls/server-ca.crt'
client_ca_path = '/etc/layerhouse/raft-tls/client-ca.crt'
".

Definition helm_values (namespace endpoint server_tls_secret raft_tls_secret image_repository image_tag : string) : string :=
  let endpoint_host := default endpoint (head (Str.split ":" endpoint)) in
  quoted "replicaCount: 3

image:
  repository: '" +:+ image_repository +:+ quoted "'
  tag: '" +:+ image_tag +:+ quoted "'

storage:
  s3:
    existingSecret: layerhouse-s3
    endpoint: 'https://s3.internal.example.com'
    bucket: 'layerhouse'
    region: 'us-east-1'
    pathStyle: true

server:
  tls:
    existingSecret: '" +:+ server_tls_secret +:+ quoted "'
    dnsNames:
      - '" +:+ endpoint_host +:+ quoted "'

raft:
  tls:
    existingSecret: '" +:+ raft_tls_secret +:+ quoted "'

auth:
  enabled: false

namespaceOverride: '" +:+ namespace +:+ quoted "'
".

Definition image_pull_secret_example (namespace endpoint : string) : string :=
  "# Replace USERNAME and TOKEN before applying.
apiVersion: v1
kind: Secret
metadata:
  name: layerhouse-pull
  namespace: " +:+ namespace +:+ quoted "
type: kubernetes.io/dockerconfigjson
stringData:
  .dockerconfigjson: |
    {
      'auths': {
        '" +:+ endpoint +:+ quoted "': {
          'username': 'USERNAME',
          'password': 'TOKEN'
        }
      }
    }
".

Definition bundle_readme (endpoint namespace server_secret raft_secret : string) : string :=
  "# Layerhouse Air-Gapped Kubernetes Bundle

Registry endpoint:

```text
" +:+ endpoint +:+ "
```

Apply registry TLS to Kubernetes:

```bash
kubectl apply -f k8s/server-tls-secret.yaml
kubectl apply -f k8s/raft-mtls-secret.yaml
```

The Helm values file expects Secret `" +:+ server_secret +:+ "` mounted for registry TLS
and Secret `" +:+ raft_secret +:+ "` mounted for Raft mTLS in namespace `" +:+ namespace +:+ "`.

Install with:

```bash
helm upgrade --install layerhouse ./deploy/kubernetes/helm \
  --namespace " +:+ namespace +:+ " --create-namespace \
  -f helm/values-air-gapped.yaml
```

Install `containerd/ca.crt` and `containerd/hosts.toml` on every node under:

```text
/etc/containerd/certs.d/" +:+ endpoint +:+ "/
```

Verify:

```bash
curl --cacert certs/ca.crt https://" +:+ endpoint +:+ "/v2/
crictl pull " +:+ endpoint +:+ "/qa/alpine:v1
kubectl run layerhouse-pull-test --image=" +:+ endpoint +:+ "/qa/alpine:v1 --restart=Never
```

Keep `certs/ca.key` offline. Do not mount it into Kubernetes.
".

(** * Commands *)

(** What is asked of the certificate library (rcgen). *)
Inductive KeyUsage := KeyCertSign | DigitalSignature | CrlSign | KeyEncipherment.
Inductive ExtendedKeyUsage := ServerAuth | ClientAuth.
Record CertParams := MkCertParams {
  cp_sans : list string;
  cp_common_name : string;
  cp_is_ca : bool;
  cp_key_usages : list KeyUsage;
  cp_extended_key_usages : list ExtendedKeyUsage;
  cp_not_before : Z;
  cp_not_after : Z;
}.
Record Issuer := MkIssuer { is_params : CertParams; is_key : string; is_pem : string }.

Class Rcgen := {
  (** The key pair a call generates, by its number. *)
  generate_key : nat → message + string;
  sans_error : list string → option message;
  (** The certificate for parameters and a subject's key, by an issuer or self-signed. *)
  issue : CertParams → string → option Issuer → message + string;
}.

Section commands.
Context `{RC : Rcgen}.
(** The failures of system calls, by their number, and what a failed write leaves. *)
Context (fault : nat → option message) (torn : nat → option string).
(** The error for a file that is not there, base64, the clock (in seconds), and the last
    instant the time library represents. *)
Context (not_found : message) (b64 : string → string) (now time_max : Z).

Definition counted (m : Machine) : Machine := MkMachine (m_files m) (m_dirs m) (S (m_calls m)) (m_input m).
Definition with_file (path : string) (f : File) (m : Machine) : Machine :=
  MkMachine (<[path := f]> (m_files m)) (m_dirs m) (m_calls m) (m_input m).

Definition system_call {A} (act : Machine → Machine * ares A) : cmd A := λ m,
  match fault (m_calls m) with
  | Some e => (counted m, AErr (IoError e))
  | None => act (counted m)
  end.

Definition create_dir_all (path : string) : cmd () := system_call (λ m,
  (MkMachine (m_files m) ({[path]} ∪ m_dirs m) (m_calls m) (m_input m), AOk ())).
Definition read_file (path : string) : cmd string := system_call (λ m,
  match m_files m !! path with Some f => (m, AOk (f_data f)) | None => (m, AErr (IoError not_found)) end).
(** [fs::write]: an existing file keeps its mode. *)
Definition mode_of (m : Machine) (path : string) : bool :=
  match m_files m !! path with Some f => f_private f | None => false end.
Definition fs_write (path data : string) : cmd () := λ m,
  match fault (m_calls m) with
  | Some e =>
      let m := match torn (m_calls m) with
               | Some partial => with_file path (MkFile partial (mode_of m path)) m
               | None => m
               end in
      (counted m, AErr (IoError e))
  | None => (counted (with_file path (MkFile data (mode_of m path)) m), AOk ())
  end.
Definition set_private_permissions (path : string) : cmd () := system_call (λ m,
  match m_files m !! path with
  | Some f => (with_file path (MkFile (f_data f) true) m, AOk ())
  | None => (m, AErr (IoError not_found))
  end).
Definition write_file (path data : string) (private : bool) : cmd () :=
  _ ← fs_write path data;
  if private then set_private_permissions path else cret ().

Definition path_exists (m : Machine) (path : string) : bool :=
  bool_decide (is_Some (m_files m !! path) ∨ path ∈ m_dirs m).
Fixpoint ensure_writable (paths : list string) (overwrite : bool) : cmd () :=
  if overwrite then cret ()
  else match paths with
  | [] => cret ()
  | path :: paths' => λ m,
      if path_exists m path then
        (m, AErr (InvalidInput [Disp path; Lit " already exists; pass --overwrite to replace generated files"]))
      else ensure_writable paths' overwrite m
  end.

(** The library's errors. *)
Definition certificate {A} (r : message + A) : cmd A :=
  match r with inl m => cfail (CertificateError m) | inr a => cret a end.
Definition new_key : cmd string := λ m, certificate (generate_key (m_calls m)) (counted m).
Definition check_sans (sans : list string) : cmd () :=
  match sans_error sans with Some m => cfail (CertificateError m) | None => cret () end.

Definition days (value : N) : Z := Z.of_N value * 86400.
(** [now + days]: a panic beyond the last instant. *)
Definition after (value : N) : cmd Z :=
  if bool_decide (now + days value ≤ time_max)%Z then cret (now + days value)%Z else λ m, (m, APanic).

Definition signed_leaf (common_name : string) (sans : list string) (ca : Issuer) (cert_days : N)
    (client_auth : bool) : cmd (string * string) :=
  key ← new_key;
  _ ← check_sans sans;
  not_after ← after cert_days;
  cert ← certificate (issue
    (MkCertParams sans common_name false [DigitalSignature; KeyEncipherment]
       (if client_auth then [ServerAuth; ClientAuth] else [ServerAuth]) (now - days 1)%Z not_after) key (Some ca));
  cret (cert, key).

(** The paths below a directory of certificates. *)
Definition ca_crt (cert_dir : string) : string := join_path cert_dir "ca.crt".
Definition ca_key (cert_dir : string) : string := join_path cert_dir "ca.key".
Definition server_crt (cert_dir : string) : string := join_path (join_path cert_dir "server") "tls.crt".
Definition server_key (cert_dir : string) : string := join_path (join_path cert_dir "server") "tls.key".
Definition raft_ca (cert_dir : string) : string := join_path (join_path cert_dir "raft") "ca.crt".
Definition raft_crt (cert_dir : string) : string := join_path (join_path cert_dir "raft") "tls.crt".
Definition raft_key (cert_dir : string) : string := join_path (join_path cert_dir "raft") "tls.key".

Fixpoint validate_sans (sans : list string) : cmd (list string) :=
  match sans with
  | [] => cret []
  | san :: sans' => host ← validate_registry_host san; rest ← validate_sans sans'; cret (host :: rest)
  end.

Definition blank (s : string) : bool := Str.is_empty (Str.trim s).

Definition cert_init (args : CertInitArgs) : cmd () :=
  registry_host ← validate_registry_host (ci_registry_host args);
  if blank (ci_namespace args) || blank (ci_statefulset_name args) || blank (ci_headless_service args) then
    invalid [Lit "namespace, statefulset-name, and headless-service cannot be empty"]
  else if bool_decide (ci_replicas args = 0%N) then invalid [Lit "replicas must be greater than zero"]
  else
    sans ← validate_sans (ci_sans args);
    let server_sans := btree_set (registry_host :: sans) in
    let raft_sans := raft_dns_sans (ci_statefulset_name args) (ci_headless_service args) (ci_namespace args)
                       (ci_replicas args) in
    let cert_dir := join_path (ci_out args) "certs" in
    _ ← create_dir_all cert_dir;
    _ ← create_dir_all (join_path cert_dir "server");
    _ ← create_dir_all (join_path cert_dir "raft");
    _ ← ensure_writable [ca_key cert_dir; ca_crt cert_dir; server_key cert_dir; server_crt cert_dir;
                         raft_ca cert_dir; raft_key cert_dir; raft_crt cert_dir] (ci_overwrite args);
    ca_key_pem ← new_key;
    _ ← check_sans ["layerhouse-airgap-ca.local"];
    not_after ← after (ci_ca_days args);
    let ca_params :=
      MkCertParams ["layerhouse-airgap-ca.local"] ("Layerhouse Air-Gapped CA for " +:+ registry_host) true
        [KeyCertSign; DigitalSignature; CrlSign] [] (now - days 1)%Z not_after in
    ca_pem ← certificate (issue ca_params ca_key_pem None);
    let ca := MkIssuer ca_params ca_key_pem ca_pem in
    '(server_cert, server_key_pem) ← signed_leaf registry_host server_sans ca (ci_cert_days args) false;
    '(raft_cert, raft_key_pem) ←
      signed_leaf (ci_statefulset_name args +:+ "." +:+ ci_namespace args) raft_sans ca (ci_cert_days args) true;
    _ ← write_file (ca_crt cert_dir) ca_pem false;
    _ ← write_file (ca_key cert_dir) ca_key_pem true;
    _ ← write_file (server_crt cert_dir) server_cert false;
    _ ← write_file (server_key cert_dir) server_key_pem true;
    _ ← write_file (raft_ca cert_dir) ca_pem false;
    _ ← write_file (raft_crt cert_dir) raft_cert false;
    write_file (raft_key cert_dir) raft_key_pem true.

Definition kubernetes_tls_secret (namespace name cert key : string) : string :=
  "apiVersion: v1
kind: Secret
metadata:
  name: " +:+ name +:+ "
  namespace: " +:+ namespace +:+ "
type: kubernetes.io/tls
data:
  tls.crt: " +:+ b64 cert +:+ "
  tls.key: " +:+ b64 key +:+ "
".
Definition kubernetes_raft_tls_secret (namespace name ca cert key : string) : string :=
  "apiVersion: v1
kind: Secret
metadata:
  name: " +:+ name +:+ "
  namespace: " +:+ namespace +:+ "
type: Opaque
data:
  tls.crt: " +:+ b64 cert +:+ "
  tls.key: " +:+ b64 key +:+ "
  server-ca.crt: " +:+ b64 ca +:+ "
  client-ca.crt: " +:+ b64 ca +:+ "
".

(** The files of a bundle. *)
Definition hosts_path (out : string) : string := join_path (join_path out "containerd") "hosts.toml".
Definition install_path (out : string) : string := join_path (join_path out "containerd") "install.md".
Definition ca_copy_path (out : string) : string := join_path (join_path out "containerd") "ca.crt".
Definition server_secret_path (out : string) : string := join_path (join_path out "k8s") "server-tls-secret.yaml".
Definition raft_secret_path (out : string) : string := join_path (join_path out "k8s") "raft-mtls-secret.yaml".
Definition server_tls_path (out : string) : string := join_path (join_path out "k8s") "server-tls-config.toml".
Definition raft_tls_path (out : string) : string := join_path (join_path out "k8s") "raft-tls-config.toml".
Definition pull_secret_path (out : string) : string := join_path (join_path out "k8s") "image-pull-secret.example.yaml".
Definition helm_values_path (out : string) : string := join_path (join_path out "helm") "values-air-gapped.yaml".
Definition readme_path (out : string) : string := join_path out "README.md".

Definition bundle_generate (args : BundleGenerateArgs) : cmd () :=
  registry_endpoint ← validate_registry_endpoint (bg_registry_endpoint args);
  let image_repository := Str.trim (bg_image_repository args) in
  let image_tag := Str.trim (bg_image_tag args) in
  if blank (bg_namespace args) then invalid [Lit "--namespace cannot be empty"]
  else if blank (bg_server_tls_secret args) then invalid [Lit "--server-tls-secret cannot be empty"]
  else if blank (bg_raft_tls_secret args) then invalid [Lit "--raft-tls-secret cannot be empty"]
  else if Str.is_empty image_repository then invalid [Lit "--image-repository cannot be empty"]
  else if Str.is_empty image_tag then invalid [Lit "--image-tag cannot be empty"]
  else
    ca ← read_file (ca_crt (bg_cert_dir args));
    server_cert ← read_file (server_crt (bg_cert_dir args));
    server_key_pem ← read_file (server_key (bg_cert_dir args));
    raft_ca_pem ← read_file (raft_ca (bg_cert_dir args));
    raft_cert ← read_file (raft_crt (bg_cert_dir args));
    raft_key_pem ← read_file (raft_key (bg_cert_dir args));
    let out := bg_out args in
    _ ← create_dir_all (join_path out "containerd");
    _ ← create_dir_all (join_path out "k8s");
    _ ← create_dir_all (join_path out "helm");
    _ ← ensure_writable [hosts_path out; install_path out; ca_copy_path out; server_secret_path out;
                         raft_secret_path out; server_tls_path out; raft_tls_path out; pull_secret_path out;
                         helm_values_path out; readme_path out] (bg_overwrite args);
    _ ← write_file (hosts_path out) (containerd_hosts registry_endpoint) false;
    _ ← write_file (install_path out) (containerd_install_md registry_endpoint) false;
    _ ← write_file (server_secret_path out)
          (kubernetes_tls_secret (bg_namespace args) (bg_server_tls_secret args) server_cert server_key_pem) false;
    _ ← write_file (raft_secret_path out)
          (kubernetes_raft_tls_secret (bg_namespace args) (bg_raft_tls_secret args) raft_ca_pem raft_cert raft_key_pem)
          false;
    _ ← write_file (server_tls_path out) (server_tls_config (bg_server_tls_secret args)) false;
    _ ← write_file (raft_tls_path out) (raft_tls_config (bg_raft_tls_secret args)) false;
    _ ← write_file (pull_secret_path out) (image_pull_secret_example (bg_namespace args) registry_endpoint) false;
    _ ← write_file (helm_values_path out)
          (helm_values (bg_namespace args) registry_endpoint (bg_server_tls_secret args) (bg_raft_tls_secret args)
             image_repository image_tag) false;
    _ ← write_file (readme_path out)
          (bundle_readme registry_endpoint (bg_namespace args) (bg_server_tls_secret args) (bg_raft_tls_secret args))
          false;
    write_file (ca_copy_path out) ca false.

(** ** The dialogue *)

(** [prompt]: flushing the terminal and reading a line may fail; at the end of the input a
    line is empty. *)
Definition read_line : cmd string := system_call (λ m,
  match m_input m with
  | [] => (m, AOk "")
  | l :: rest => (MkMachine (m_files m) (m_dirs m) (m_calls m) rest, AOk l)
  end).
Definition prompt (label : string) (default_value : option string) : cmd string :=
  _ ← system_call (λ m, (m, AOk ()));
  input ← read_line;
  let input := Str.trim input in
  if Str.is_empty input then
    match default_value with
    | Some d => cret d
    | None => invalid [Disp label; Lit " is required"]
    end
  else cret input.

Definition lower (a : ascii) : ascii :=
  if Str.is_ascii_uppercase a then ascii_of_N (N_of_ascii a + 32) else a.
Fixpoint to_ascii_lowercase (s : string) : string :=
  match s with EmptyString => "" | String a s' => String (lower a) (to_ascii_lowercase s') end.

(** The loop of [prompt_bool], for [rounds] questions. *)
Fixpoint prompt_bool (rounds : nat) (label : string) (default_value : bool) : cmd (option bool) :=
  match rounds with
  | 0 => cret None
  | S rounds' =>
      value ← prompt label (Some (if default_value then "Y/n" else "y/N"));
      let answer := to_ascii_lowercase value in
      if bool_decide (answer ∈ ["y"; "yes"]) then cret (Some true)
      else if bool_decide (answer ∈ ["n"; "no"]) then cret (Some false)
      else if bool_decide (answer = "y/n") then cret (Some default_value)
      else prompt_bool rounds' label default_value
  end.

(** [str::parse::<u16>()]. *)
Definition parse_u16 (s : string) : option N :=
  match Str.parse_u64 s with Some n => if bool_decide (n < 65536)%N then Some n else None | None => None end.

Definition run_bootstrap (interactive : bool) : cmd () :=
  if negb interactive then invalid [Lit "bootstrap currently requires --interactive"]
  else
    registry_host ← prompt "Registry host (DNS or IP, no port)" None;
    registry_endpoint ← prompt "Registry endpoint for image pulls (host[:port])" (Some registry_host);
    namespace ← prompt "Kubernetes namespace" (Some DEFAULT_NAMESPACE);
    statefulset_name ← prompt "StatefulSet name" (Some DEFAULT_STATEFULSET_NAME);
    headless_service ← prompt "Headless Service name" (Some DEFAULT_HEADLESS_SERVICE);
    replicas_text ← prompt "Replica count" (Some (Str.of_u64 DEFAULT_REPLICAS));
    replicas ← match parse_u16 replicas_text with
               | Some n => cret n
               | None => invalid [Lit "replica count must be a number"]
               end;
    server_tls_secret ← prompt "Kubernetes server TLS Secret name" (Some DEFAULT_SERVER_TLS_SECRET);
    raft_tls_secret ← prompt "Kubernetes Raft mTLS Secret name" (Some DEFAULT_RAFT_TLS_SECRET);
    out ← prompt "Output directory" (Some DEFAULT_OUT);
    overwrite ← λ m, prompt_bool (S (length (m_input m))) "Overwrite existing generated files?" false m;
    match overwrite with
    | None => λ m, (m, APanic)
    | Some overwrite =>
        _ ← cert_init (MkCertInitArgs registry_host [] namespace statefulset_name headless_service replicas out
                         DEFAULT_CA_DAYS DEFAULT_CERT_DAYS overwrite);
        bundle_generate (MkBundleGenerateArgs registry_endpoint (join_path out "certs") namespace server_tls_secret
                           raft_tls_secret DEFAULT_IMAGE_REPOSITORY DEFAULT_IMAGE_TAG out overwrite)
    end.

Definition run (command : AirGappedCommands) : cmd () :=
  match command with
  | Bootstrap interactive => run_bootstrap interactive
  | CertInit args => cert_init args
  | BundleGenerate args => bundle_generate args
  end.
End commands.

(** * Paths *)

Lemma join_path_suffix base component : ∃ r, join_path base component = r +:+ component.
Proof.
  unfold join_path. destruct (Str.is_empty base); [by exists ""|].
  destruct (Str.ends_with "/" base); [by exists base|]. exists (base +:+ "/"). by rewrite app_assoc_str.
Qed.
Lemma suffix_clash s r1 c1 r2 c2 :
  s = r1 +:+ c1 → s = r2 +:+ c2 → Str.ends_with c1 c2 || Str.ends_with c2 c1 = true.
Proof.
  intros -> Heq. apply (f_equal Str.rev) in Heq. rewrite !rev_app in Heq. unfold Str.ends_with. revert Heq.
  generalize (Str.rev c1) (Str.rev c2) (Str.rev r1) (Str.rev r2). clear.
  induction s as [|a s IH]; intros t x y Heq; [by destruct t|].
  destruct t as [|b t]; [by rewrite orb_true_r|]. rewrite !app_cons in Heq. injection Heq as -> Heq.
  specialize (IH _ _ _ Heq). unfold Str.starts_with in *. simpl. by destruct (ascii_dec b b).
Qed.

Lemma path_neq base1 component1 base2 component2 :
  Str.ends_with component1 component2 || Str.ends_with component2 component1 = false →
  join_path base1 component1 ≠ join_path base2 component2.
Proof.
  intros Hc Heq. destruct (join_path_suffix base1 component1) as [r1 H1].
  destruct (join_path_suffix base2 component2) as [r2 H2].
  rewrite (suffix_clash (join_path base1 component1) r1 component1 r2 component2) in Hc; [done|exact H1|congruence].
Qed.

Lemma join_path_inj base component1 component2 :
  join_path base component1 = join_path base component2 → component1 = component2.
Proof.
  unfold join_path. intros H. destruct (Str.is_empty base); [done|].
  destruct (Str.ends_with "/" base); [|apply (inj (String.app "/"))]; by apply (inj (String.app base)).
Qed.
Lemma join_join base dir component :
  Str.is_empty dir = false → Str.ends_with "/" dir = false →
  join_path (join_path base dir) component = join_path base (dir +:+ "/" +:+ component).
Proof.
  intros Hne Hend. destruct (join_path_suffix base dir) as [r Hr].
  assert (∃ x t, Str.rev dir = String x t) as (x & t & Ht).
  { destruct (Str.rev dir) as [|x t] eqn:E; [|eauto].
    apply (f_equal Str.rev) in E. rewrite rev_involutive_str in E. by subst dir. }
  assert (join_path (join_path base dir) component = join_path base dir +:+ "/" +:+ component) as ->.
  { unfold join_path at 1. rewrite Hr. unfold Str.ends_with in *. rewrite rev_app, Ht, app_cons.
    rewrite Ht in Hend. unfold Str.starts_with in *.
    change (Str.rev "/") with (String "/" "") in *. cbn [String.prefix] in *.
    destruct (ascii_dec "/" x); [by destruct t|].
    by destruct r; [destruct dir|]. }
  unfold join_path. destruct (Str.is_empty base); [done|].
  destruct (Str.ends_with "/" base); by rewrite !app_assoc_str.
Qed.

(** * What commands leave alone *)

Create HintDb touches.

Section frames.
Context `{RC : Rcgen}.
Context (fault : nat → option message) (torn : nat → option string).
Context (not_found : message) (now time_max : Z).

(** [c] changes no file but those in [P]. *)
Definition touches {A} (P : string → Prop) (c : cmd A) : Prop :=
  ∀ m path, ¬ P path → m_files (c m).1 !! path = m_files m !! path.
(** [c] changes no file that is there. *)
Definition keeps {A} (c : cmd A) : Prop :=
  ∀ m path f, m_files m !! path = Some f → m_files (c m).1 !! path = Some f.

Lemma touches_bind {A B} P (c : cmd A) (f : A → cmd B) :
  touches P c → (∀ a, touches P (f a)) → touches P (c ≫= f).
Proof.
  intros Hc Hf m path Hp. unfold mbind, cmd_mbind. specialize (Hc m path Hp).
  destruct (c m) as [m' [a|e|]]; simpl in *; [|done..]. by rewrite Hf.
Qed.
Lemma keeps_bind {A B} (c : cmd A) (f : A → cmd B) : keeps c → (∀ a, keeps (f a)) → keeps (c ≫= f).
Proof.
  intros Hc Hf m path x Hx. unfold mbind, cmd_mbind. specialize (Hc m path x Hx).
  destruct (c m) as [m' [a|e|]]; simpl in *; [|done..]. by apply Hf.
Qed.
Lemma touches_keeps {A} (c : cmd A) : touches (λ _, False) c → keeps c.
Proof. intros H m path f Hf. rewrite H; [done|by intros []]. Qed.

Lemma touches_ret {A} P (a : A) : touches P (cret a).
Proof. done. Qed.
Lemma touches_fail {A} P e : touches P (cfail e : cmd A).
Proof. done. Qed.
Lemma touches_dir P path : touches P (create_dir_all fault path).
Proof. intros m p _. unfold create_dir_all, system_call. by destruct (fault _). Qed.
Lemma touches_read P path : touches P (read_file fault not_found path).
Proof. intros m p _. unfold read_file, system_call. destruct (fault _); [done|]. simpl. by destruct (m_files m !! path). Qed.
Lemma touches_write (P : string → Prop) path data private :
  P path → touches P (write_file fault torn not_found path data private).
Proof.
  intros HP. apply touches_bind.
  - intros m p Hp. unfold fs_write.
    destruct (fault _); simpl; [destruct (torn _); simpl; [|done]|]; (rewrite lookup_insert_ne; [done|congruence]).
  - intros _. destruct private; [|done]. intros m p Hp. unfold set_private_permissions, system_call.
    destruct (fault _); [done|]. simpl. destruct (m_files m !! path); [|done]. simpl.
    rewrite lookup_insert_ne; [done|congruence].
Qed.
Lemma touches_host P value : touches P (validate_registry_host value).
Proof. intros m p _. unfold validate_registry_host. by repeat case_match. Qed.
Lemma touches_endpoint P value : touches P (validate_registry_endpoint value).
Proof. intros m p _. unfold validate_registry_endpoint. by repeat case_match. Qed.
Lemma touches_key P : touches P new_key.
Proof. intros m p _. unfold new_key, certificate. by destruct (generate_key _). Qed.
Lemma touches_sans P sans : touches P (check_sans sans).
Proof. intros m p _. unfold check_sans. by destruct (sans_error _). Qed.
Lemma touches_certificate {A} P (r : message + A) : touches P (certificate r).
Proof. intros m p _. by destruct r. Qed.
Lemma touches_after P value : touches P (after now time_max value).
Proof. intros m p _. unfold after. by case_match. Qed.
Lemma touches_validate_sans P sans : touches P (validate_sans sans).
Proof.
  induction sans as [|san sans IH]; [done|]. apply touches_bind; [apply touches_host|]. intros.
  by apply touches_bind.
Qed.

Hint Resolve touches_ret touches_fail touches_dir touches_read touches_host touches_endpoint touches_key
  touches_sans touches_certificate touches_after touches_validate_sans : touches.
Ltac frame :=
  repeat first
    [ progress intros | progress cbv zeta | solve [auto with touches]
    | match goal with |- touches _ (write_file _ _ _ _ _ _) => apply touches_write; set_solver end
    | apply touches_bind
    | match goal with
      | |- touches _ (let '(_, _) := ?x in _) => destruct x
      | |- touches _ (if ?x then _ else _) => destruct x
      end ].

Lemma touches_leaf P common_name sans ca cert_days client_auth :
  touches P (signed_leaf now time_max common_name sans ca cert_days client_auth).
Proof. unfold signed_leaf. frame. Qed.
Hint Resolve touches_leaf : touches.

Lemma touches_ensure P paths overwrite : touches P (ensure_writable paths overwrite).
Proof.
  induction paths as [|p paths IH]; destruct overwrite; try done.
  intros m q Hq. cbn [ensure_writable]. destruct (path_exists m p); [done|]. by apply IH.
Qed.

(** After the check, what is written was not there. *)
Lemma ensure_writable_keeps paths {A} (c : cmd A) :
  touches (λ p, p ∈ paths) c → keeps (_ ← ensure_writable paths false; c).
Proof.
  intros Hc m path f Hf.
  assert (∀ l, (ensure_writable l false m).1 = m ∧
    ((ensure_writable l false m).2 = AOk () → ∀ p, p ∈ l → m_files m !! p = None)) as Hcheck.
  { induction l as [|p l IH]; simpl; [split; [done|]; intros _ p ?%elem_of_nil; done|].
    unfold path_exists. case_bool_decide as Hp; [done|]. destruct IH as [-> IH]. split; [done|].
    intros H q [->|Hq]%elem_of_cons; [|by apply IH]. destruct (m_files m !! p); [|done]. exfalso. eauto. }
  destruct (Hcheck paths) as [Hm Hnone]. unfold mbind, cmd_mbind.
  destruct (ensure_writable paths false m) as [m' [[]|e|]]; simpl in *; subst m'; [|done..].
  rewrite Hc; [done|]. intros Hp. rewrite Hnone in Hf; done.
Qed.

Lemma cert_init_keeps args :
  ci_overwrite args = false → keeps (cert_init fault torn not_found now time_max args).
Proof.
  intros Ho. unfold cert_init. rewrite Ho.
  apply keeps_bind; [apply touches_keeps, touches_host|]. intros host.
  do 2 (case_match; [by intros m p f|]).
  apply keeps_bind; [apply touches_keeps, touches_validate_sans|]. intros sans.
  do 3 (apply keeps_bind; [apply touches_keeps, touches_dir|]; intros _).
  apply ensure_writable_keeps. frame.
Qed.
Context (b64 : string → string).
Lemma bundle_generate_keeps args :
  bg_overwrite args = false → keeps (bundle_generate fault torn not_found b64 args).
Proof.
  intros Ho. unfold bundle_generate. rewrite Ho.
  apply keeps_bind; [apply touches_keeps, touches_endpoint|]. intros endpoint.
  do 5 (case_match; [by intros m p f|]).
  do 6 (apply keeps_bind; [apply touches_keeps, touches_read|]; intros ?).
  do 3 (apply keeps_bind; [apply touches_keeps, touches_dir|]; intros _).
  apply ensure_writable_keeps. frame.
Qed.

(** Without [--overwrite], no command changes a file that exists, whichever system
    call fails and whatever a failed write leaves behind: certificates, keys and bundles
    of an earlier run survive. *)
Theorem no_overwrite command m path f :
  match command with
  | CertInit args => ci_overwrite args = false
  | BundleGenerate args => bg_overwrite args = false
  | Bootstrap _ => False
  end →
  m_files m !! path = Some f →
  m_files (run fault torn not_found b64 now time_max command m).1 !! path = Some f.
Proof.
  destruct command as [interactive|args|args]; [done| |]; intros Ho.
  - by apply cert_init_keeps.
  - by apply bundle_generate_keeps.
Qed.

(** ** The key of the authority stays where it is *)

(** Machines that differ in one file at most. *)
Definition agree (secret : string) (m1 m2 : Machine) : Prop :=
  m_dirs m1 = m_dirs m2 ∧ m_calls m1 = m_calls m2 ∧ m_input m1 = m_input m2 ∧
  ∀ path, path ≠ secret → m_files m1 !! path = m_files m2 !! path.
Definition blind {A} (secret : string) (c : cmd A) : Prop :=
  ∀ m1 m2, agree secret m1 m2 → (c m1).2 = (c m2).2 ∧ agree secret (c m1).1 (c m2).1.

Lemma blind_bind {A B} secret (c : cmd A) (f : A → cmd B) :
  blind secret c → (∀ a, blind secret (f a)) → blind secret (c ≫= f).
Proof.
  intros Hc Hf m1 m2 Hm. unfold mbind, cmd_mbind. specialize (Hc m1 m2 Hm).
  destruct (c m1) as [m1' r1], (c m2) as [m2' r2]. simpl in Hc. destruct Hc as [-> Hm'].
  destruct r2; [by apply Hf|done..].
Qed.
Lemma blind_pure {A} secret (c : cmd A) : (∃ r, ∀ m, c m = (m, r)) → blind secret c.
Proof. intros [r Hr] m1 m2 Hm. by rewrite !Hr. Qed.
Lemma agree_counted secret m1 m2 : agree secret m1 m2 → agree secret (counted m1) (counted m2).
Proof. intros (H1 & H2 & H3 & H4). by repeat split; simpl; [| f_equal| |]. Qed.
Lemma agree_with_file secret path f m1 m2 :
  agree secret m1 m2 → agree secret (with_file path f m1) (with_file path f m2).
Proof.
  intros (H1 & H2 & H3 & H4). repeat split; [done..|]. intros p Hp. simpl.
  destruct (decide (p = path)) as [->|Hne]; [by rewrite !lookup_insert_eq|].
  rewrite !lookup_insert_ne by done. by apply H4.
Qed.
Lemma blind_dir secret path : blind secret (create_dir_all fault path).
Proof.
  intros m1 m2 Hm. unfold create_dir_all, system_call. destruct Hm as (H1 & H2 & H3 & H4). rewrite H2.
  destruct (fault _); simpl; (split; [done|]); (split; [simpl; congruence|]); split; simpl; try congruence; done.
Qed.
Lemma blind_read secret path : path ≠ secret → blind secret (read_file fault not_found path).
Proof.
  intros Hp m1 m2 Hm. unfold read_file, system_call. rewrite (proj1 (proj2 Hm)).
  destruct (fault _); [split; [done|by apply agree_counted]|]. cbn [m_files counted].
  rewrite (proj2 (proj2 (proj2 Hm)) _ Hp). destruct (_ !! _); (split; [done|by apply agree_counted]).
Qed.
Lemma blind_write secret path data : path ≠ secret → blind secret (write_file fault torn not_found path data false).
Proof.
  intros Hp. apply blind_bind; [|intros; apply blind_pure; by eexists]. intros m1 m2 Hm. unfold fs_write, mode_of.
  rewrite (proj1 (proj2 Hm)), (proj2 (proj2 (proj2 Hm)) _ Hp).
  destruct (fault _); [destruct (torn _)|]; (split; [done|]); cbn [fst]; auto using agree_counted, agree_with_file.
Qed.
Lemma blind_ensure secret paths overwrite :
  Forall (λ p, p ≠ secret) paths → blind secret (ensure_writable paths overwrite).
Proof.
  induction 1 as [|p paths Hp _ IH]; destruct overwrite; try (apply blind_pure; by eexists).
  intros m1 m2 Hm. cbn [ensure_writable]. unfold path_exists.
  rewrite (proj1 Hm), (proj2 (proj2 (proj2 Hm)) _ Hp). case_bool_decide; [done|]. by apply IH.
Qed.

(** C39: The bundle does not depend on the private key of the certificate authority: with any
    other content there (or none), the command ends in the same way and writes the same
    files. So nothing of the key can be in what is handed to nodes and to Kubernetes. *)
Theorem bundle_ignores_ca_key args : blind (ca_key (bg_cert_dir args)) (bundle_generate fault torn not_found b64 args).
Proof.
  unfold bundle_generate. apply blind_bind.
  { apply blind_pure. unfold validate_registry_endpoint. repeat case_match; by eexists. }
  intros endpoint. cbv zeta. do 5 (case_match; [apply blind_pure; by eexists|]).
  do 6 (apply blind_bind; [by apply blind_read, path_neq|]; intros ?).
  do 3 (apply blind_bind; [apply blind_dir|]; intros _).
  apply blind_bind; [apply blind_ensure; repeat constructor; by apply path_neq|]. intros _.
  do 9 (apply blind_bind; [by apply blind_write, path_neq|]; intros _). by apply blind_write, path_neq.
Qed.
End frames.

(** * What a bootstrap produces *)

Section products.
Context `{RC : Rcgen}.
Context (fault : nat → option message) (torn : nat → option string).
Context (not_found : message) (now time_max : Z) (b64 : string → string).

Lemma cbind_AOk {A B} (c : cmd A) (f : A → cmd B) m m' b :
  (c ≫= f) m = (m', AOk b) → ∃ m1 a, c m = (m1, AOk a) ∧ f a m1 = (m', AOk b).
Proof. unfold mbind, cmd_mbind. destruct (c m) as [m1 [a|e|]]; naive_solver. Qed.

Lemma write_file_AOk path data private m m' :
  write_file fault torn not_found path data private m = (m', AOk ()) →
  ∃ mode, m_files m' = <[path := MkFile data mode]> (m_files m) ∧ (private = true → mode = true).
Proof.
  intros (m1 & [] & H1 & H2)%cbind_AOk. unfold fs_write in H1. destruct (fault _); [done|].
  injection H1 as <-. destruct private.
  - unfold set_private_permissions, system_call in H2. destruct (fault _); [done|].
    simpl in H2. rewrite lookup_insert_eq in H2. injection H2 as <-. exists true.
    simpl. by rewrite insert_insert_eq.
  - injection H2 as <-. by exists (mode_of m path).
Qed.
Lemma touches_AOk {A} (c : cmd A) m m' a :
  touches (λ _, False) c → c m = (m', AOk a) → m_files m' = m_files m.
Proof. intros H Hc. apply map_eq. intros p. specialize (H m p). rewrite Hc in H. apply H. by intros []. Qed.

(** The keys and certificates of a run. *)
Record Material := MkMaterial {
  mt_ca : Issuer;
  mt_server_params : CertParams; mt_server_cert : string; mt_server_key : string;
  mt_raft_params : CertParams; mt_raft_cert : string; mt_raft_key : string;
}.
(** They belong together: both certificates are issued by the authority, for exactly the
    given hosts and for the names of the pods. *)
Definition issued (args : CertInitArgs) (mt : Material) : Prop :=
  issue (is_params (mt_ca mt)) (is_key (mt_ca mt)) None = inr (is_pem (mt_ca mt)) ∧
  cp_is_ca (is_params (mt_ca mt)) = true ∧
  issue (mt_server_params mt) (mt_server_key mt) (Some (mt_ca mt)) = inr (mt_server_cert mt) ∧
  cp_sans (mt_server_params mt) = btree_set (Str.trim (ci_registry_host args) :: (Str.trim <$> ci_sans args)) ∧
  cp_is_ca (mt_server_params mt) = false ∧
  cp_extended_key_usages (mt_server_params mt) = [ServerAuth] ∧
  issue (mt_raft_params mt) (mt_raft_key mt) (Some (mt_ca mt)) = inr (mt_raft_cert mt) ∧
  cp_sans (mt_raft_params mt) =
    raft_dns_sans (ci_statefulset_name args) (ci_headless_service args) (ci_namespace args) (ci_replicas args) ∧
  cp_is_ca (mt_raft_params mt) = false ∧
  cp_extended_key_usages (mt_raft_params mt) = [ServerAuth; ClientAuth].

(** A file with some data, and one that only its owner can read. *)
Definition holds (m : Machine) (path data : string) : Prop := ∃ mode, m_files m !! path = Some (MkFile data mode).
Definition private_file (m : Machine) (path data : string) : Prop := m_files m !! path = Some (MkFile data true).
Definition stored (m : Machine) (cert_dir : string) (mt : Material) : Prop :=
  holds m (ca_crt cert_dir) (is_pem (mt_ca mt)) ∧ private_file m (ca_key cert_dir) (is_key (mt_ca mt)) ∧
  holds m (server_crt cert_dir) (mt_server_cert mt) ∧ private_file m (server_key cert_dir) (mt_server_key mt) ∧
  holds m (raft_ca cert_dir) (is_pem (mt_ca mt)) ∧ holds m (raft_crt cert_dir) (mt_raft_cert mt) ∧
  private_file m (raft_key cert_dir) (mt_raft_key mt).

Lemma signed_leaf_AOk common_name sans ca cert_days client_auth m m' cert key :
  signed_leaf now time_max common_name sans ca cert_days client_auth m = (m', AOk (cert, key)) →
  m_files m' = m_files m ∧ ∃ params, issue params key (Some ca) = inr cert ∧ cp_sans params = sans ∧
    cp_is_ca params = false ∧
    cp_extended_key_usages params = (if client_auth then [ServerAuth; ClientAuth] else [ServerAuth]).
Proof.
  intros H. split; [eapply touches_AOk; [apply touches_leaf|done]|]. unfold signed_leaf in H.
  apply cbind_AOk in H as (m1 & key' & _ & H). apply cbind_AOk in H as (m2 & ? & _ & H).
  apply cbind_AOk in H as (m3 & not_after & _ & H). apply cbind_AOk in H as (m4 & cert' & H4 & H).
  injection H as -> -> ->. unfold certificate in H4. destruct (issue _ _ _) eqn:E; [done|].
  injection H4 as <- <-. eexists. split; [exact E|done].
Qed.
Lemma elem_of_btree_set x l : x ∈ btree_set l ↔ x ∈ l.
Proof. unfold btree_set. by rewrite merge_sort_Permutation, elem_of_remove_dups. Qed.
Lemma validate_registry_host_AOk value m m' host :
  validate_registry_host value m = (m', AOk host) →
  m' = m ∧ host = Str.trim value ∧ Str.is_empty host = false ∧ Str.contains_char "/" host = false ∧
  (Str.contains_char ":" host = true → is_Some (parse_ip_addr host)).
Proof.
  unfold validate_registry_host. destruct (Str.is_empty _) eqn:E1; [done|].
  destruct (_ || _) eqn:E2; [done|]. destruct (_ && _) eqn:E3; [done|]. intros [= <- <-].
  apply orb_false_iff in E2 as [_ E2]. repeat split; [done..|]. intros Hc. rewrite Hc in E3. simpl in E3.
  apply bool_decide_eq_false in E3. by destruct (parse_ip_addr _).
Qed.

Lemma validate_sans_AOk sans m m' hosts : validate_sans sans m = (m', AOk hosts) → hosts = Str.trim <$> sans.
Proof.
  revert m m' hosts. induction sans as [|san sans IH]; intros m m' hosts; cbn [validate_sans]; [by intros [= _ <-]|].
  intros (m1 & host & (-> & -> & _)%validate_registry_host_AOk & H)%cbind_AOk.
  apply cbind_AOk in H as (m2 & rest & ->%IH & H). by injection H as _ <-.
Qed.

Ltac paths_differ :=
  let H := fresh in
  intros H; unfold ca_crt, ca_key, server_crt, server_key, raft_ca, raft_crt, raft_key, hosts_path, install_path,
    ca_copy_path, server_secret_path, raft_secret_path, server_tls_path, raft_tls_path, pull_secret_path,
    helm_values_path, readme_path in H;
  rewrite ?join_join in H by done; apply join_path_inj in H; discriminate H.
(** Reading through the writes of other files. *)
Ltac find_file :=
  repeat first [rewrite lookup_insert_eq; done | rewrite lookup_insert_ne by paths_differ].

Lemma cert_init_AOk args m m' :
  cert_init fault torn not_found now time_max args m = (m', AOk ()) →
  ∃ mt, issued args mt ∧ stored m' (join_path (ci_out args) "certs") mt.
Proof.
  unfold cert_init. intros H. apply cbind_AOk in H as (m1 & host & H1 & H).
  apply validate_registry_host_AOk in H1 as (-> & -> & _).
  destruct (_ || _); [done|]. destruct (bool_decide _); [done|].
  apply cbind_AOk in H as (m2 & sans & Hsans%validate_sans_AOk & H). subst sans. cbv zeta in H. do 4 (apply cbind_AOk in H as (? & ? & _ & H)).
  apply cbind_AOk in H as (m3 & ca_key_pem & _ & H). apply cbind_AOk in H as (? & ? & _ & H).
  apply cbind_AOk in H as (m4 & not_after & _ & H). apply cbind_AOk in H as (m5 & ca_pem & H5 & H).
  apply cbind_AOk in H as (m6 & [server_cert server_pem] & H6 & H).
  apply cbind_AOk in H as (m7 & [raft_cert raft_pem] & H7 & H).
  apply signed_leaf_AOk in H6 as (_ & server_params & Hs1 & Hs2 & Hs3 & Hs4).
  apply signed_leaf_AOk in H7 as (_ & raft_params & Hr1 & Hr2 & Hr3 & Hr4).
  unfold certificate in H5. destruct (issue _ ca_key_pem None) as [|ca_pem'] eqn:Hca; [done|].
  injection H5 as <- <-.
  apply cbind_AOk in H as (n1 & [] & (b1 & F1 & _)%write_file_AOk & H).
  apply cbind_AOk in H as (n2 & [] & (b2 & F2 & P2)%write_file_AOk & H).
  apply cbind_AOk in H as (n3 & [] & (b3 & F3 & _)%write_file_AOk & H).
  apply cbind_AOk in H as (n4 & [] & (b4 & F4 & P4)%write_file_AOk & H).
  apply cbind_AOk in H as (n5 & [] & (b5 & F5 & _)%write_file_AOk & H).
  apply cbind_AOk in H as (n6 & [] & (b6 & F6 & _)%write_file_AOk & H).
  apply write_file_AOk in H as (b7 & F7 & P7). rewrite P2 in F2 by done. rewrite P4 in F4 by done.
  rewrite P7 in F7 by done. rewrite F6, F5, F4, F3, F2, F1 in F7.
  eexists (MkMaterial (MkIssuer _ ca_key_pem ca_pem') server_params server_cert server_pem
    raft_params raft_cert raft_pem).
  split.
  - repeat split; simpl; done.
  - unfold stored, holds, private_file. rewrite F7. cbn [mt_ca is_pem is_key mt_server_cert mt_server_key mt_raft_cert mt_raft_key].
    repeat split; try (eexists; find_file); find_file.
Qed.

Lemma read_file_AOk path m m' data :
  read_file fault not_found path m = (m', AOk data) → m_files m' = m_files m ∧ holds m path data.
Proof.
  intros H. split; [eapply touches_AOk; [apply touches_read|done]|]. unfold read_file, system_call in H.
  destruct (fault _); [done|]. simpl in H. destruct (m_files m !! path) as [[d b]|] eqn:E; [|done].
  injection H as _ <-. by exists b.
Qed.
Lemma holds_eq m m' path data : m_files m' = m_files m → holds m' path data ↔ holds m path data.
Proof. unfold holds. by intros ->. Qed.
Lemma holds_inj m path data data' : holds m path data → holds m path data' → data = data'.
Proof. intros [b1 H1] [b2 H2]. congruence. Qed.

(** The bundle made from the certificates of [mt]. *)
Definition bundled (m : Machine) (args : BundleGenerateArgs) (mt : Material) : Prop :=
  let endpoint := Str.trim (bg_registry_endpoint args) in
  holds m (ca_copy_path (bg_out args)) (is_pem (mt_ca mt)) ∧
  holds m (hosts_path (bg_out args)) (containerd_hosts endpoint) ∧
  holds m (server_secret_path (bg_out args))
    (kubernetes_tls_secret b64 (bg_namespace args) (bg_server_tls_secret args) (mt_server_cert mt) (mt_server_key mt)) ∧
  holds m (raft_secret_path (bg_out args))
    (kubernetes_raft_tls_secret b64 (bg_namespace args) (bg_raft_tls_secret args) (is_pem (mt_ca mt))
       (mt_raft_cert mt) (mt_raft_key mt)) ∧
  holds m (server_tls_path (bg_out args)) (server_tls_config (bg_server_tls_secret args)) ∧
  holds m (raft_tls_path (bg_out args)) (raft_tls_config (bg_raft_tls_secret args)) ∧
  holds m (helm_values_path (bg_out args))
    (helm_values (bg_namespace args) endpoint (bg_server_tls_secret args) (bg_raft_tls_secret args)
       (Str.trim (bg_image_repository args)) (Str.trim (bg_image_tag args))).

Lemma bundle_generate_AOk args mt m m' :
  bg_cert_dir args = join_path (bg_out args) "certs" → stored m (bg_cert_dir args) mt →
  bundle_generate fault torn not_found b64 args m = (m', AOk ()) →
  bundled m' args mt ∧ stored m' (bg_cert_dir args) mt.
Proof.
  intros Hdir (S1 & S2 & S3 & S4 & S5 & S6 & S7). unfold bundle_generate. intros H.
  apply cbind_AOk in H as (m1 & endpoint & H1 & H).
  assert (m1 = m ∧ endpoint = Str.trim (bg_registry_endpoint args)) as [-> ->].
  { unfold validate_registry_endpoint in H1. destruct (Str.is_empty _); [done|].
    destruct (_ || _); [done|]. by injection H1 as -> ->. }
  cbv zeta in H. repeat (destruct (blank _); [done|]). repeat (destruct (Str.is_empty _); [done|]).
  apply cbind_AOk in H as (m1 & ca & [E1 R1]%read_file_AOk & H).
  apply cbind_AOk in H as (m2 & cert & [E2 R2]%read_file_AOk & H).
  apply cbind_AOk in H as (m3 & key & [E3 R3]%read_file_AOk & H).
  apply cbind_AOk in H as (m4 & rca & [E4 R4]%read_file_AOk & H).
  apply cbind_AOk in H as (m5 & rcert & [E5 R5]%read_file_AOk & H).
  apply cbind_AOk in H as (m6 & rkey & [E6 R6]%read_file_AOk & H).
  apply cbind_AOk in H as (m7 & ? & E7 & H). apply cbind_AOk in H as (m8 & ? & E8 & H).
  apply cbind_AOk in H as (m9 & ? & E9 & H). apply cbind_AOk in H as (m10 & ? & E10 & H).
  apply touches_AOk in E7, E8, E9, E10; try apply touches_dir; try apply touches_ensure.
  rewrite (holds_eq _ _ _ _ E5), (holds_eq _ _ _ _ E4), (holds_eq _ _ _ _ E3), (holds_eq _ _ _ _ E2),
    (holds_eq _ _ _ _ E1) in R6.
  rewrite (holds_eq _ _ _ _ E4), (holds_eq _ _ _ _ E3), (holds_eq _ _ _ _ E2), (holds_eq _ _ _ _ E1) in R5.
  rewrite (holds_eq _ _ _ _ E3), (holds_eq _ _ _ _ E2), (holds_eq _ _ _ _ E1) in R4.
  rewrite (holds_eq _ _ _ _ E2), (holds_eq _ _ _ _ E1) in R3. rewrite (holds_eq _ _ _ _ E1) in R2.
  pose proof (holds_inj _ _ _ _ R1 S1) as ->. pose proof (holds_inj _ _ _ _ R2 S3) as ->.
  pose proof (holds_inj _ _ _ _ R3 (ex_intro _ true S4)) as ->. pose proof (holds_inj _ _ _ _ R4 S5) as ->.
  pose proof (holds_inj _ _ _ _ R5 S6) as ->. pose proof (holds_inj _ _ _ _ R6 (ex_intro _ true S7)) as ->.
  clear R1 R2 R3 R4 R5 R6.
  do 9 (apply cbind_AOk in H as (? & [] & (? & ?F & _)%write_file_AOk & H)).
  apply write_file_AOk in H as (b & G & _). rewrite F7, F6, F5, F4, F3, F2, F1, F0, F in G.
  rewrite E10, E9, E8, E7, E6, E5, E4, E3, E2, E1 in G. rewrite Hdir in *.
  unfold bundled, stored, holds, private_file in *. rewrite G. cbn [mt_ca is_pem is_key].
  destruct S1 as [c1 S1], S3 as [c3 S3], S5 as [c5 S5], S6 as [c6 S6]. split.
  - repeat split; eexists; find_file.
  - repeat split; try (eexists; repeat rewrite lookup_insert_ne by paths_differ; done);
      repeat rewrite lookup_insert_ne by paths_differ; done.
Qed.

(** ** The operator's answers *)

(** The answer to question [k] of the dialogue: the line that was typed, trimmed, or the
    default where it is blank or the input has ended. *)
Definition given (lines : list string) (k : nat) (default_value : string) : string :=
  let line := Str.trim (default "" (lines !! k)) in if Str.is_empty line then default_value else line.

Lemma prompt_given label d m m' v lines k :
  m_input m = drop k lines → prompt fault label d m = (m', AOk v) →
  v = given lines k (default "" d) ∧ m_input m' = drop (S k) lines.
Proof.
  intros Hin H. unfold prompt in H. apply cbind_AOk in H as (m1 & [] & H1 & H).
  apply cbind_AOk in H as (m2 & l & H2 & H).
  unfold system_call in H1. destruct (fault _); [done|]. injection H1 as <-.
  unfold read_line, system_call in H2. destruct (fault _); [done|]. simpl in H2. rewrite Hin in H2.
  assert (l = default "" (lines !! k) ∧ m_input m2 = drop (S k) lines) as [-> Hm2].
  { destruct (drop k lines) as [|l' rest] eqn:E; injection H2 as <- <-.
    - pose proof E as Hlen%(f_equal length). rewrite length_drop in Hlen. simpl in Hlen.
      rewrite lookup_ge_None_2, drop_ge by lia. simpl. by rewrite Hin.
    - assert (lines !! k = Some l') as -> by (by rewrite <-(Nat.add_0_r k), <-lookup_drop, E).
      split; [done|]. simpl. by rewrite <-Nat.add_1_r, <-drop_drop, E. }
  cbv zeta in H. unfold given. destruct (Str.is_empty _); [destruct d; [|done]|]; by injection H as <- <-.
Qed.

(** What the certificates and the bundle are made from. *)
Definition certs_for (lines : list string) (replicas : N) (overwrite : bool) : CertInitArgs :=
  MkCertInitArgs (given lines 0 "") [] (given lines 2 DEFAULT_NAMESPACE) (given lines 3 DEFAULT_STATEFULSET_NAME)
    (given lines 4 DEFAULT_HEADLESS_SERVICE) replicas (given lines 8 DEFAULT_OUT) DEFAULT_CA_DAYS DEFAULT_CERT_DAYS
    overwrite.
Definition bundle_for (lines : list string) (overwrite : bool) : BundleGenerateArgs :=
  MkBundleGenerateArgs (given lines 1 (given lines 0 "")) (join_path (given lines 8 DEFAULT_OUT) "certs")
    (given lines 2 DEFAULT_NAMESPACE) (given lines 6 DEFAULT_SERVER_TLS_SECRET) (given lines 7 DEFAULT_RAFT_TLS_SECRET)
    DEFAULT_IMAGE_REPOSITORY DEFAULT_IMAGE_TAG (given lines 8 DEFAULT_OUT) overwrite.

Lemma bootstrap_dialogue m m' :
  run fault torn not_found b64 now time_max (Bootstrap true) m = (m', AOk ()) →
  ∃ replicas overwrite m1 m2, parse_u16 (given (m_input m) 5 "3") = Some replicas ∧
    cert_init fault torn not_found now time_max (certs_for (m_input m) replicas overwrite) m1 = (m2, AOk ()) ∧
    bundle_generate fault torn not_found b64 (bundle_for (m_input m) overwrite) m2 = (m', AOk ()).
Proof.
  cbn [run]. unfold run_bootstrap. cbn [negb]. intros H. remember (m_input m) as lines eqn:Hl.
  assert (m_input m = drop 0 lines) as Hin by done. clear Hl.
  do 6 (let v := fresh "v" in let mv := fresh "m" in
    apply cbind_AOk in H as (mv & v & Hp & H); apply (prompt_given _ _ _ _ _ _ _ Hin) in Hp as [Hv Hin'];
    subst v; clear Hin; rename Hin' into Hin).
  apply cbind_AOk in H as (? & replicas & Hrep & H).
  destruct (parse_u16 (given lines 5 _)) as [n|] eqn:En; [|done]. injection Hrep as <- <-.
  do 3 (let v := fresh "v" in let mv := fresh "m" in
    apply cbind_AOk in H as (mv & v & Hp & H); apply (prompt_given _ _ _ _ _ _ _ Hin) in Hp as [Hv Hin'];
    subst v; clear Hin; rename Hin' into Hin).
  apply cbind_AOk in H as (? & overwrite & _ & H). destruct overwrite as [overwrite|]; [|done].
  apply cbind_AOk in H as (? & [] & Hc & H). eexists n, overwrite, _, _. by split_and!.
Qed.

(** C38: a guided bootstrap that succeeds leaves material that belongs together and is
    what the operator answered (the defaults where a line was blank): one authority; a
    server certificate issued by it for exactly the given host; a Raft certificate issued
    by it for the names of the given number of pods of the given stateful set, service and
    namespace; in the given directory, these certificates, and the three key files, with
    permissions for their owner only; and the bundle's copy of the authority's
    certificate, Secrets, TLS settings, containerd configuration and Helm values, made
    from exactly this material for the given endpoint, namespace and Secret names. (The
    Secrets contain the keys of the server and of Raft too, and are not restricted: see
    [secrets_world_readable].) *)
Theorem bootstrap_consistent m m' :
  run fault torn not_found b64 now time_max (Bootstrap true) m = (m', AOk ()) →
  ∃ replicas overwrite mt, let lines := m_input m in
    parse_u16 (given lines 5 "3") = Some replicas ∧
    issued (certs_for lines replicas overwrite) mt ∧
    stored m' (join_path (given lines 8 "./layerhouse-airgap") "certs") mt ∧
    bundled m' (bundle_for lines overwrite) mt.
Proof.
  intros (replicas & overwrite & m1 & m2 & Hrep & (mt & Hissued & Hstored)%cert_init_AOk & H)%bootstrap_dialogue.
  eapply bundle_generate_AOk in H as [Hb Hs]; [|done|exact Hstored].
  exists replicas, overwrite, mt. by split_and!.
Qed.
End products.

(** * The names of the pods *)

(** The certificate of the Raft listeners covers exactly the names it should: the
    headless service and its wildcards, and all four DNS names of every pod of the stateful
    set; in order and without repetition. *)
Theorem raft_sans_cover statefulset_name headless_service namespace replicas :
  let sans := raft_dns_sans statefulset_name headless_service namespace replicas in
  StronglySorted String.le sans ∧ NoDup sans ∧
  ∀ name, name ∈ sans ↔
    (∃ ordinal, (ordinal < replicas)%N ∧ name ∈ pod_names statefulset_name headless_service namespace ordinal) ∨
    (∃ prefix suffix, prefix ∈ [""; "*."] ∧
       suffix ∈ [""; "." +:+ namespace +:+ ".svc"; "." +:+ namespace +:+ ".svc.cluster.local"] ∧
       name = prefix +:+ headless_service +:+ suffix).
Proof.
  intros sans. unfold sans, raft_dns_sans. split_and!.
  - apply (StronglySorted_merge_sort String.le).
  - unfold btree_set. rewrite merge_sort_Permutation. apply NoDup_remove_dups.
  - intros name. rewrite elem_of_btree_set, elem_of_app.
    assert (name ∈ mjoin ((λ i, pod_names statefulset_name headless_service namespace (N.of_nat i)) <$>
      seq 0 (N.to_nat replicas)) ↔
      ∃ ordinal, (ordinal < replicas)%N ∧ name ∈ pod_names statefulset_name headless_service namespace ordinal) as ->.
    { rewrite list_elem_of_join. setoid_rewrite list_elem_of_fmap. setoid_rewrite elem_of_seq. split.
      - intros (l & Hn & i & -> & Hi). exists (N.of_nat i). split; [lia|done].
      - intros (i & Hi & Hn). eexists. split; [exact Hn|]. exists (N.to_nat i). rewrite N2Nat.id. split; [done|lia]. }
    match goal with |- ?A ∨ ?B ↔ ?B ∨ ?C => enough (A ↔ C) by tauto end. split.
    + rewrite !elem_of_cons, elem_of_nil. intros [->|[->|[->|[->|[->|[->|[]]]]]]];
        [exists "", ""|exists "", ("." +:+ namespace +:+ ".svc")|exists "", ("." +:+ namespace +:+ ".svc.cluster.local")|
         exists "*.", ""|exists "*.", ("." +:+ namespace +:+ ".svc")|exists "*.", ("." +:+ namespace +:+ ".svc.cluster.local")];
        (split; [set_solver|]); (split; [set_solver|]); by rewrite ?app_nil_r_str.
    + intros (prefix & suffix & Hp & Hs & ->). rewrite !elem_of_cons, elem_of_nil in Hp. rewrite !elem_of_cons, elem_of_nil in Hs.
      destruct Hp as [->|[->|[]]], Hs as [->|[->|[->|[]]]]; rewrite ?app_nil_r_str; set_solver.
Qed.

(** * The dialogue ends *)

Section dialogue.
Context (fault : nat → option message).

Lemma prompt_input label d m m' v :
  prompt fault label (Some d) m = (m', AOk v) →
  (m_input m = [] ∧ v = d ∧ m_input m' = []) ∨ (∃ l, m_input m = l :: m_input m').
Proof.
  unfold prompt. intros (m1 & [] & H1 & H)%cbind_AOk. apply cbind_AOk in H as (m2 & l & H2 & H).
  unfold system_call in H1. destruct (fault _); [done|]. injection H1 as <-.
  unfold read_line, system_call in H2. destruct (fault _); [done|]. simpl in H2.
  assert (m' = m2) as -> by (cbv zeta in H; destruct (Str.is_empty _); injection H; congruence).
  destruct (m_input m) as [|l' rest] eqn:E; injection H2 as <- <-.
  - left. by injection H as <-.
  - right. by exists l'.
Qed.

(** The yes-or-no question of the dialogue is always answered: it is asked again only
    after a line that is neither, and at the end of the input the default is taken; so a
    question for each line of the input and one more are enough, and the bound of the model
    is never reached. *)
Theorem question_answered label default_value m m' :
  prompt_bool fault (S (length (m_input m))) label default_value m ≠ (m', AOk None).
Proof.
  remember (length (m_input m)) as n eqn:Hn. revert m Hn. induction n as [n IH] using lt_wf_ind. intros m Hn H.
  cbn [prompt_bool] in H. apply cbind_AOk in H as (m1 & v & [(Hnil & -> & Hi)|(l & Hl)]%prompt_input & H).
  - destruct default_value; by vm_compute in H.
  - cbv zeta in H. repeat (case_bool_decide; [done|]). rewrite Hl in Hn. simpl in Hn.
    destruct n as [|n]; [done|]. apply (IH n) with (m := m1); [lia|congruence|exact H].
Qed.
End dialogue.

(** * Samples and defects *)

#[local] Instance sample_rcgen : Rcgen := {|
  generate_key n := inr ("key-" +:+ Str.of_u64 (N.of_nat n));
  sans_error _ := None;
  issue params key issuer := inr ("cert-of-" +:+ key);
|}.
Definition year_9999 : Z := 253402300799.
Abbreviation sample_run := (run (λ _, None) (λ _, None) [Lit "not found"] (λ s, "b64:" +:+ s) 1800000000 year_9999).
(** A host, five replicas, and the defaults for everything else. *)
Definition sample_machine : Machine :=
  MkMachine ∅ ∅ 0 ["registry.internal"; ""; ""; ""; ""; "5"; ""; ""; "out"; "maybe"; "no"].
Definition after_bootstrap : Machine := (sample_run (Bootstrap true) sample_machine).1.

Lemma bootstrap_consistent_witness :
  (sample_run (Bootstrap true) sample_machine).2 = AOk () ∧
  ∃ overwrite mt,
    issued (MkCertInitArgs "registry.internal" [] "layerhouse" "layerhouse" "layerhouse-headless" 5 "out" 3650 825
              overwrite) mt ∧
    stored after_bootstrap "out/certs" mt ∧
    bundled (λ s, "b64:" +:+ s) after_bootstrap (bundle_for (m_input sample_machine) overwrite) mt.
Proof.
  assert ((sample_run (Bootstrap true) sample_machine).2 = AOk ()) as H by (vm_compute; reflexivity).
  split; [exact H|].
  destruct (bootstrap_consistent (λ _, None) (λ _, None) [Lit "not found"] 1800000000 year_9999 (λ s, "b64:" +:+ s)
           sample_machine after_bootstrap) as (replicas & overwrite & mt & Hr & Hi & Hs & Hb).
  { unfold after_bootstrap. revert H. generalize (sample_run (Bootstrap true) sample_machine). intros [m r] Hr.
    simpl in Hr. by subst r. }
  vm_compute in Hr. injection Hr as <-. exists overwrite, mt. exact (conj Hi (conj Hs Hb)).
Defined.

Definition again : CertInitArgs :=
  MkCertInitArgs "registry.internal" [] "ns" "app" "app-headless" 3 "out" 3650 825 false.
Lemma no_overwrite_witness :
  m_files after_bootstrap !! "out/certs/ca.key" = Some (MkFile "key-25" true) ∧
  m_files (sample_run (CertInit again) after_bootstrap).1 !! "out/certs/ca.key" = Some (MkFile "key-25" true).
Proof.
  assert (m_files after_bootstrap !! "out/certs/ca.key" = Some (MkFile "key-25" true)) as H
    by (vm_compute; reflexivity).
  split; [exact H|].
  apply (no_overwrite (λ _, None) (λ _, None) [Lit "not found"] 1800000000 year_9999 (λ s, "b64:" +:+ s)
           (CertInit again)); [reflexivity|exact H].
Defined.

(** The Secrets of a bundle contain the private keys, and are readable by everybody. *)
Theorem secrets_world_readable :
  m_files after_bootstrap !! "out/certs/server/tls.key" = Some (MkFile "key-26" true) ∧
  ∃ text, m_files after_bootstrap !! "out/k8s/server-tls-secret.yaml" = Some (MkFile text false) ∧
    Str.contains "b64:key-26" text = true.
Proof. split; [vm_compute; reflexivity|]. eexists. split; vm_compute; reflexivity. Qed.

(** The Helm values ask for three replicas, also when certificates were made for five. *)
Theorem replica_count_fixed :
  ∃ text, m_files after_bootstrap !! "out/helm/values-air-gapped.yaml" = Some (MkFile text false) ∧
    Str.starts_with "replicaCount: 3" text = true ∧
    "layerhouse-4" ∈ raft_dns_sans DEFAULT_STATEFULSET_NAME DEFAULT_HEADLESS_SERVICE DEFAULT_NAMESPACE 5.
Proof.
  eexists. split; [vm_compute; reflexivity|]. split; [reflexivity|].
  apply raft_sans_cover. left. exists 4%N. split; [done|]. apply elem_of_cons. by left.
Qed.

(** The host of an IPv6 endpoint is cut at its first colon. *)
Theorem ipv6_endpoint_cut :
  Str.contains (quoted "      - '[fd00'") (helm_values "ns" "[fd00::1]:5000" "s" "r" "repo" "tag") = true.
Proof. vm_compute. reflexivity. Qed.

(** A validity the time library cannot represent is a panic, after the directories were made. *)
Theorem far_expiry_panics :
  (sample_run (CertInit (MkCertInitArgs "r.internal" [] "ns" "app" "svc" 1 "out" 4294967295 825 false))
     (MkMachine ∅ ∅ 0 [])).2 = APanic.
Proof. vm_compute. reflexivity. Qed.

(** The examples of the unit tests. *)
Example host_rejects_scheme_path_and_port :
  (λ s, (validate_registry_host s (MkMachine ∅ ∅ 0 [])).2) <$>
    ["registry.internal"; "127.0.0.1"; "::1"] = [AOk "registry.internal"; AOk "127.0.0.1"; AOk "::1"] ∧
  Forall (λ s, ∀ v, (validate_registry_host s (MkMachine ∅ ∅ 0 [])).2 ≠ AOk v)
    ["https://registry.internal"; "registry.internal/path"; "registry.internal:32000"].
Proof. split; [vm_compute; reflexivity|]. by repeat constructor; vm_compute. Qed.
